(* ===== verification/_CoqProject ===== *)
-Q . S2P
Prelude.v
GoLib.v
GoFlag.v
Ring.v
Json.v
JsonIndent.v
StringsLib.v
GoTime.v
Types.v
Protocol.v
Record.v
Segment.v
PartitionLog.v
Compactor.v
Wal.v
WalStores.v
Partition.v
Topic.v
Dedup.v
Producer.v
DeadLetter.v
Consumer.v
RaftRpc.v
Raft.v
RaftElection.v
RaftLog.v
RaftMatching.v
RaftCatchUp.v
RaftStore.v
RaftLoop.v
WireJson.v
Cluster.v
Transport.v
Bully.v
Replicator.v
ReplicaLog.v
ReplicationManager.v
ClusterNode.v
BrokerCluster.v
Auth.v
AuditLog.v
RateLimit.v
FloatExact.v
Broker.v
BrokerConsumer.v
BrokerDispatch.v
BrokerAuthz.v
BrokerBatch.v
BrokerInv.v
BrokerRecovery.v
WireReply.v
PkgProtocol.v
Client.v
Sdk.v
SdkConsumer.v
ClientBroker.v
WebSocket.v
WsHandshake.v
Explorer.v
ExplorerStream.v
Metrics.v
RuntimeFigures.v
Config.v
HotReload.v
ConfigDefault.v
Dashboard.v
AdminHttp.v
AdminViews.v
Brokectl.v
BrokectlTop.v
Gateway.v
GatewayStream.v
Logging.v
Tracing.v
Server.v
Lifecycle.v
