(* ===== verification/Prelude.v ===== *)
(** * pubsub-broker: a verified model of the broker and its tools

    The repository is a message broker in Go.  Clients speak a framed binary
    protocol over TCP ([internal/protocol]); the orchestrator
    ([internal/broker]) serves each frame with a handler that checks the
    connection's identity ([internal/auth]) and limits, logs a publish in a
    write-ahead log ([internal/wal]), has the producer ([internal/producer])
    append it to a partition log of its topic ([internal/topic],
    [internal/partition], [internal/storage]) and dispatches it to the
    consumer groups ([internal/consumer]).  In a cluster ([internal/cluster])
    nodes know each other through a join handshake, elect a leader by a Bully
    algorithm or Raft ([internal/cluster/raft]), share a map of partition
    owners and replicate the partition logs.

    ** Files and what they model

    - [Prelude]: notations, automation, bytes, fixed-width integers, stream
      reading, generic list and option lemmas.  [GoLib], [StringsLib],
      [GoFlag]: what the sources use of Go's standard library (CRC-32, base64,
      UTF-8, integer formatting, case and fields of strings, scanning lines,
      [flag]).  [Ring]: the ring buffer that the audit log and the trace store
      each have.  [Json]: [encoding/json] for the messages the broker stores
      and sends, with the interface [JsonCodec] of types that round-trip;
      [JsonIndent]: its indented printer; [WireJson], [WireReply]: the
      instances for the request and the response bodies.
    - [Types], [Protocol]: [pkg/types/types.go], [internal/protocol]: domain
      types, the frame encoder and decoder.
    - [Record], [Segment], [PartitionLog], [Compactor]: [internal/storage]:
      record and payload codecs, one segment file with its sparse index, the
      segmented log of a partition with rolling, retention, raw transfer and
      reopening, key compaction.
    - [Wal], [WalStores]: [internal/wal]: the write-ahead log, and the offset
      and topic logs on it.
    - [Partition], [Topic]: [internal/partition], [internal/topic]: the hash
      partitioner, the offset store and the topic registry.  The class
      [LogStore] of [Topic] is what a partition log promises to its clients;
      [PartitionLog] and plain lists are instances.
    - [Dedup], [Producer]: [internal/producer]: the deduplication window,
      publishing in the three delivery modes with retries.
    - [DeadLetter], [Consumer]: [internal/consumer]: the dead-letter queue,
      consumers with their channels, groups with rebalancing and dispatch, the
      group manager.
    - [RaftRpc], [Raft], [RaftElection], [RaftLog],
      [RaftMatching], [RaftCatchUp],
      [RaftStore], [RaftLoop]: [internal/cluster/raft]:
      messages and their JSON, one node with one function per handler, a
      cluster as a step relation with crashes, loss, duplication and
      reordering, log reconciliation and the commit rule; log matching,
      and how a leader brings a follower up to date;
      the state file under crashes;
      and the event loop among the callers of [Propose].
    - [GoTime], [Cluster], [Transport]: [internal/cluster/{member,membership,isr,
      quorum,partition_map,transport}.go]: [time.Time] in JSON, the members a
      node knows, in-sync replicas and the quorum wait, partition maps with
      their JSON, messages between nodes and their frames.
    - [Bully], [Replicator], [ReplicaLog], [ClusterNode], [BrokerCluster]:
      [election.go], [replicator.go], [node.go] there and
      [internal/broker/cluster.go]: the Bully election, replication of partition
      logs and what it keeps, the node that ties them together with its join
      handshake, and the broker's use of it.
    - [Auth], [AuditLog], [RateLimit], [FloatExact]: [internal/auth], [internal/audit],
      [internal/networking/connection.go]: API keys by SHA-256 digest, roles,
      permissions and a connection's identity; the audit ring; token buckets in
      binary64 arithmetic.
    - [Broker], [BrokerConsumer], [BrokerDispatch]: [internal/broker]
      ([broker.go], [handlers_*.go], [lifecycle.go], [checkpoint.go]): the
      broker's state as one record over a [LogStore], one function per handler
      from the state, the connection and what the handler meets to the state,
      the connection and the replies; the frame loop of a connection, the push
      delivery loop turn by turn (with the pointer it keeps to a consumer that
      may have left its group), the three replays of a start and the offset
      checkpoint.
    - [BrokerAuthz], [BrokerBatch], [BrokerInv], [BrokerRecovery]: the
      theorems about whole brokers: what permissions keep from happening, a
      batch against its single publishes, well-formedness over any run, and
      recovery after a crash.
    - [PkgProtocol], [Client], [Sdk], [SdkConsumer], [ClientBroker]:
      [pkg/protocol], [pkg/client]: the library's own codec against the
      broker's, calls that share a connection, the operations of producers,
      administrators and consumers, the push consumer's goroutines, and one
      exchange of client and broker from end to end.
    - [WebSocket], [WsHandshake]: [internal/wsutil]: frames, and the handshake
      with SHA-1.  [Explorer], [ExplorerStream]: [explorer.go] and
      [explorer_endpoint.go] of [internal/broker]: the live tap of published
      messages and its streams.  [Gateway], [GatewayStream]:
      [internal/gateway]: the HTTP front end that is a client of the broker.
    - [Config], [HotReload], [ConfigDefault]: [internal/config],
      [http_config_patch.go], [cmd/gen-config]: the settings, their changes at
      run time and the generated file.
    - [Dashboard], [AdminHttp], [AdminViews]: the HTTP handlers of
      [internal/broker]: sessions and the gate, dead letters, groups, audit
      and health, and the views of topics, cluster and metrics.
    - [Metrics], [RuntimeFigures], [Logging], [Tracing]: [internal/metrics],
      [internal/logging], [internal/tracing] and the figures of the process.
    - [Server], [Lifecycle]: [internal/networking/server.go], [broker.go],
      [lifecycle.go], [cmd/broker]: the accept loop, construction, start and
      stop.
    - [Brokectl], [BrokectlTop]: [cmd/brokectl]: each subcommand as a program
      of calls, and the parser of metrics against the exposition.

    The parts meet in these places.  [Producer] and [Broker] use any
    [LogStore], and so do [ReplicaLog] and [BrokerCluster], which replicate it;
    [ClientBroker] puts the client of [Client] against the frame loop of
    [BrokerDispatch]; [Gateway] makes calls of [Sdk], and the
    calls of [Brokectl] are constructors named after them; [ExplorerStream] runs the hub of [Explorer]; [AdminViews] reads the broker,
    the node, the hub and the registry of [Metrics], whose text [BrokectlTop]
    parses.

    ** How the code is modelled

    A mutable object is a record and a method a function that returns the new
    record.  Whatever a method asks of the outside is an argument: the outcome
    of each file operation (including short writes), the clock, new UUIDs, the
    order in which a map is ranged over, what other goroutines do while a
    method sleeps or has released its lock.  A theorem holds for all of these
    unless it names a condition.  Errors are values of [result]; a panic (an
    index out of range, a send on a closed channel) is [None] or [Panicked]; a
    handler that blocks is [Waiting].  Integers are in [Z] with their
    wrap-around written out ([u64], [i32], ...).  Sections between lock and
    unlock are single steps.  Loops that the source bounds by a value are
    recursions on that value; scans of a file take the file's length as fuel,
    and [segment_scans_terminate] shows, running the source's loop bodies a
    pass at a time, that each is left within that many passes; the replay to a new
    group takes the number of stored messages.  Polling loops recurse on the
    list of rounds they are given.  Concurrency is a run, a list of
    events in any order, each the piece of one goroutine between two points
    where others may run: [client_step], [sdk_step], [loop_step], [hub_step],
    [stream_step], [gw_step], [gw_stream_step], [sv_step], [lc_step] and the
    cluster relations of [Raft], [Bully] and [Replicator].  Where methods share
    a mutable object ([Logging], [Tracing]) there is a heap.

    ** What the theorems show

    - Storage: appending refines extending a list, through rolls, retention
      and raw transfer; a torn last write loses that write alone; reopening
      finds the same log; compaction keeps the latest value of every key as
      long as no file is replaced by halves; records without a codec round-
      trip.
    - Write-ahead logs: recovery returns exactly the intact entries up to
      the first damage, which is all acknowledged ones unless an append
      failed part-way; offsets and topics are durable; a checkpoint keeps
      all offsets.
    - Publishing and consuming: a publish appends its message once at the
      offset it reports; exactly-once publishes are idempotent within the
      window; a dispatched message ends with its owner or in the bounded
      dead-letter queue; every partition has exactly one owner and shares
      are even; a group resumes after its commit.
    - The broker: a frame without its permission changes nothing; a
      connection without write permissions never writes; a batch equals its
      single publishes; no run reaches a panic or an ill-formed state as
      long as no consumer is closed while a dispatch retries it ([env_ok],
      without which [retry_after_close_panics]); after a crash the replay
      restores what was published, with two proved exceptions.
    - Raft: at most one leader per term as long as votes are not forgotten, and
      the run with two leaders when a vote is lost; reconciliation is exact;
      a leader commits what a quorum holds;
      logs match and a leader brings a follower up to date.
    - The cluster: replicas stay prefixes of one sequence and catch up, the
      members agree on one owner for each partition with even shares of each topic, the join
      reaches every member, a Bully leader has the grants it needs and the
      highest member takes over; the lemmas after them show how each of these
      ends when a condition is dropped.
    - Callers of [Propose] are never forgotten ([proposers_answered]), but one
      may be told that an entry is committed which was replaced
      ([replaced_entry_acknowledged]).
    - The client library: concurrent callers get their own replies, a
      publish through it ends in the log, a push consumer conserves its
      messages.
    - The edges: the gate lets through exactly the callers the settings,
      keys and live sessions admit; a request of the gateway acts under its
      own key or none; a stream shows what its caller may see; a change of
      settings is all or nothing in memory, and on disk when the file can be
      written; the server keeps its limit; a stop closes what was opened but
      the audit file; a scrape that runs alone counts everything once and
      [brokectl top] reads it back.
    - Lemmas beside these show where a promise ends: a refused key pooled
      ([refused_key_pooled]), a lost connection handed out
      ([lost_connection_reused]), a stale push loop that evicts a newcomer
      ([stale_push_loop_evicts]), scrapes at once
      ([concurrent_scrapes_count_twice]), a filter of a stream changed after
      its checks ([filter_update_escapes]), streams above the limit
      ([stream_limit_overrun]), a frame torn by two writers ([torn_frame]),
      a span changed after its end ([status_after_end_shown]), and the
      others the manifest lists as findings.

    ** Not modelled

    Sockets, TLS, listeners, HTTP servers and routing, signals and the flags of
    [cmd/gateway] are input and output around the model; timers and tickers are
    events or arguments.  The handlers of [Broker] are those of a single node,
    whose cluster node is nil; what the cluster adds to them (the ownership
    check, the quorum wait, the wiring of in-sync trackers) is in
    [BrokerCluster].  Creation times in topic
    listings, the alignment of the tables of [cmd/brokectl] and the
    texts of its errors are left out, and so is the non-Linux half of the
    figures of the process.  [sendfile] is its documented effect.  Floating
    point products and sums are rounded separately, as on amd64.  A nil payload
    is an empty one (JSON would print null), a channel of capacity 0 never has
    room (Go would hand over directly), and [Lifecycle] follows publishes, not
    topics created while the broker stops.  The steps of a Raft cluster take a
    call of Propose as one; [RaftLoop] has its three sections apart. *)

From stdpp Require Export base gmap strings list sorting fin_maps.
From coqutil Require Export Byte Word.LittleEndianList.
From Stdlib Require Export ZArith Lia Strings.Byte.

Local Open Scope Z_scope.

(** ** Bytes, strings and lengths *)

(** A Go [[]byte]; a Go [string] is Rocq's [string], also a byte sequence. *)
Abbreviation bytes := (list Init.Byte.byte).

#[global] Instance byte_eq_decision : EqDecision Init.Byte.byte := Byte.byte_eq_dec.

Definition zlen {A} (l : list A) : Z := Z.of_nat (length l).

Definition bytes_of_string (s : string) : bytes := String.list_byte_of_string s.

Definition string_of_bytes (b : bytes) : string := String.string_of_list_byte b.

(** ** Fixed-width integers

    Values are kept in [Z]; a conversion [uintN(x)] or [intN(x)] is written
    out with its wrap-around. *)

Definition u8 (z : Z) : Z := z mod 2 ^ 8.

Definition u16 (z : Z) : Z := z mod 2 ^ 16.

Definition u32 (z : Z) : Z := z mod 2 ^ 32.

Definition u64 (z : Z) : Z := z mod 2 ^ 64.

Definition i32 (z : Z) : Z := (z + 2 ^ 31) mod 2 ^ 32 - 2 ^ 31.

Definition i64 (z : Z) : Z := (z + 2 ^ 63) mod 2 ^ 64 - 2 ^ 63.

Definition is_i64 (z : Z) : Prop := - 2 ^ 63 <= z < 2 ^ 63.

Definition is_i32 (z : Z) : Prop := - 2 ^ 31 <= z < 2 ^ 31.

Definition is_u64 (z : Z) : Prop := 0 <= z < 2 ^ 64.

(** [binary.LittleEndian.PutUintN] and [UintN]: [le_split] and [le_combine]
    of coqutil at the width in bytes. *)
Definition put_u16 (z : Z) : bytes := le_split 2 z.

Definition put_u32 (z : Z) : bytes := le_split 4 z.

Definition put_u64 (z : Z) : bytes := le_split 8 z.

Definition get_uint (b : bytes) : Z := le_combine b.

(** A slice expression [b[i:j]]. *)
Definition slice (i j : nat) (b : bytes) : bytes := take (j - i) (drop i b).

(** ** [io.ReadFull] on a byte stream

    The stream is what is left to read.  Nothing asked for is nothing read;
    an empty stream is [io.EOF], a short one [io.ErrUnexpectedEOF]. *)

Inductive read_err :=
| EOF
| ErrUnexpectedEOF.

Definition io_ReadFull (r : bytes) (n : Z) : result (bytes * bytes) read_err :=
  if n <=? 0 then Ok ([], r)
  else if zlen r =? 0 then Error EOF
  else if zlen r <? n then Error ErrUnexpectedEOF
  else Ok (take (Z.to_nat n) r, drop (Z.to_nat n) r).

(** ** Sequencing of fallible code *)

Definition res_bind {A B E} (x : result A E) (f : A → result B E) : result B E :=
  match x with
  | Ok a => f a
  | Error e => Error e
  end.

Definition is_ok {A E} (x : result A E) : bool :=
  match x with
  | Ok _ => true
  | Error _ => false
  end.

Declare Scope go_scope.
Delimit Scope go_scope with go.

Notation "'let!' x ':=' c 'in' k" := (res_bind c (λ x, k))
  (at level 10, x pattern, c at level 200, k at level 200,
   format "'[hv' let!  x  :=  c  in  '//' k ']'") : go_scope.

(** ** Tactics *)

(** Case on the scrutinee of a match or an [if] of the goal or of a
    hypothesis, turning boolean comparisons into propositions. *)
Ltac z_bool :=
  repeat match goal with
  | H : (_ <=? _) = true |- _ => apply Z.leb_le in H
  | H : (_ <=? _) = false |- _ => apply Z.leb_gt in H
  | H : (_ <? _) = true |- _ => apply Z.ltb_lt in H
  | H : (_ <? _) = false |- _ => apply Z.ltb_ge in H
  | H : (_ =? _) = true |- _ => apply Z.eqb_eq in H
  | H : (_ =? _) = false |- _ => apply Z.eqb_neq in H
  | H : (_ && _) = true |- _ => apply andb_prop in H as [? ?]
  | H : (_ || _) = false |- _ => apply orb_false_elim in H as [? ?]
  | H : negb _ = true |- _ => apply negb_true_iff in H
  | H : negb _ = false |- _ => apply negb_false_iff in H
  | H : bool_decide _ = true |- _ => apply bool_decide_eq_true in H
  | H : bool_decide _ = false |- _ => apply bool_decide_eq_false in H
  end.

Ltac cases := repeat (case_match; simplify_eq/=); z_bool.

Create HintDb go.
Create Rewrite HintDb go.

#[global] Arguments slice : simpl never.
#[global] Arguments put_u16 : simpl never.
#[global] Arguments put_u32 : simpl never.
#[global] Arguments put_u64 : simpl never.
#[global] Arguments get_uint : simpl never.
#[global] Arguments zlen : simpl never.
#[global] Arguments u32 : simpl never.
#[global] Arguments i64 : simpl never.
#[global] Arguments io_ReadFull : simpl never.
#[global] Arguments Z.add : simpl never.
#[global] Arguments Z.sub : simpl never.
#[global] Arguments Z.mul : simpl never.
#[global] Arguments Z.pow : simpl never.
#[global] Arguments Z.modulo : simpl never.
#[global] Arguments Z.of_nat : simpl never.

(** ** Facts about the definitions above *)

Lemma zlen_nil {A} : zlen (@nil A) = 0.
Proof. done. Qed.

Lemma zlen_cons {A} (x : A) l : zlen (x :: l) = zlen l + 1.
Proof. unfold zlen. simpl. lia. Qed.

Lemma zlen_app {A} (l k : list A) : zlen (l ++ k) = zlen l + zlen k.
Proof. unfold zlen. rewrite length_app. lia. Qed.

Lemma zlen_nonneg {A} (l : list A) : 0 <= zlen l.
Proof. unfold zlen. lia. Qed.

Lemma zlen_zero {A} (l : list A) : zlen l = 0 → l = [].
Proof. destruct l; [done|]. rewrite zlen_cons. pose proof (zlen_nonneg l). lia. Qed.

Lemma zlen_take {A} (n : nat) (l : list A) :
  (n <= length l)%nat → zlen (take n l) = Z.of_nat n.
Proof. intros. unfold zlen. rewrite length_take. lia. Qed.

Lemma mjoin_cons {A} (x : list A) (l : list (list A)) : mjoin (x :: l) = x ++ mjoin l.
Proof. done. Qed.

Lemma to_nat_zlen {A} (l : list A) : Z.to_nat (zlen l) = length l.
Proof. apply Nat2Z.id. Qed.

#[export] Hint Rewrite @to_nat_zlen : go.
#[export] Hint Rewrite @zlen_nil @zlen_cons @zlen_app : go.

Lemma put_u16_length z : length (put_u16 z) = 2%nat.
Proof. apply length_le_split. Qed.

Lemma put_u32_length z : length (put_u32 z) = 4%nat.
Proof. apply length_le_split. Qed.

Lemma put_u64_length z : length (put_u64 z) = 8%nat.
Proof. apply length_le_split. Qed.

#[export] Hint Rewrite put_u16_length put_u32_length put_u64_length : go.

Lemma get_put_u16 z : get_uint (put_u16 z) = u16 z.
Proof. apply le_combine_split. Qed.

Lemma get_put_u32 z : get_uint (put_u32 z) = u32 z.
Proof. apply le_combine_split. Qed.

Lemma get_put_u64 z : get_uint (put_u64 z) = u64 z.
Proof. apply le_combine_split. Qed.

Lemma i64_u64 z : is_i64 z → i64 (u64 z) = z.
Proof.
  unfold is_i64, i64, u64. intros.
  rewrite Zplus_mod_idemp_l, Z.mod_small; lia.
Qed.

Lemma i64_id z : is_i64 z → i64 z = z.
Proof. unfold is_i64, i64. intros. rewrite Z.mod_small; lia. Qed.

Lemma i32_id z : is_i32 z → i32 z = z.
Proof. unfold is_i32, i32. intros. rewrite Z.mod_small; lia. Qed.

Lemma u16_id z : 0 <= z < 2 ^ 16 → u16 z = z.
Proof. apply Z.mod_small. Qed.

Lemma u32_id z : 0 <= z < 2 ^ 32 → u32 z = z.
Proof. apply Z.mod_small. Qed.

Lemma u64_id z : is_u64 z → u64 z = z.
Proof. apply Z.mod_small. Qed.

Lemma u64_range z : is_u64 (u64 z).
Proof. apply Z.mod_pos_bound. lia. Qed.

Lemma i64_add_l x d : i64 (i64 x + d) = i64 (x + d).
Proof.
  unfold i64. replace ((x + 2 ^ 63) mod 2 ^ 64 - 2 ^ 63 + d + 2 ^ 63) with ((x + 2 ^ 63) mod 2 ^ 64 + d) by lia.
  rewrite Zplus_mod_idemp_l. do 2 f_equal. lia.
Qed.

Lemma i64_range z : is_i64 (i64 z).
Proof.
  unfold i64, is_i64.
  pose proof (Z.mod_pos_bound (z + 2 ^ 63) (2 ^ 64)). lia.
Qed.

Lemma bytes_of_string_of_bytes b : bytes_of_string (string_of_bytes b) = b.
Proof. apply String.list_byte_of_string_of_list_byte. Qed.

Lemma string_of_bytes_of_string s : string_of_bytes (bytes_of_string s) = s.
Proof. apply String.string_of_list_byte_of_string. Qed.

Lemma bytes_of_string_empty s : bytes_of_string s = [] ↔ s = EmptyString.
Proof. destruct s; split; intros; simplify_eq/=; done. Qed.

(** Reading a chunk that is there gives the chunk and the rest. *)
Lemma io_ReadFull_app (b r : bytes) n :
  n = zlen b → io_ReadFull (b ++ r) n = Ok (b, r).
Proof.
  intros ->. unfold io_ReadFull.
  destruct (Z.leb_spec (zlen b) 0).
  { pose proof (zlen_nonneg b). rewrite (zlen_zero b) by lia. done. }
  rewrite zlen_app. pose proof (zlen_nonneg r).
  destruct (Z.eqb_spec (zlen b + zlen r) 0); [lia|].
  destruct (Z.ltb_spec (zlen b + zlen r) (zlen b)); [lia|].
  unfold zlen. rewrite Nat2Z.id, take_app_length, drop_app_length. done.
Qed.

(** What was read is the front of the stream, at the length asked for. *)
Lemma io_ReadFull_inv r n b r' :
  0 <= n → io_ReadFull r n = Ok (b, r') → r = b ++ r' ∧ zlen b = n.
Proof.
  unfold io_ReadFull. intros Hn H. cases; [split; [done|rewrite zlen_nil; lia]|].
  split; [by rewrite take_drop|].
  rewrite zlen_take; unfold zlen in *; lia.
Qed.

(** A short stream is an error, whatever its length. *)
Lemma io_ReadFull_short r n :
  zlen r < n → ∃ e, io_ReadFull r n = Error e.
Proof.
  intros Hn. unfold io_ReadFull. pose proof (zlen_nonneg r).
  cases; eauto; lia.
Qed.

Lemma io_ReadFull_err r n e :
  io_ReadFull r n = Error e → zlen r < n.
Proof. unfold io_ReadFull. intros. cases; lia. Qed.

(** Fields of a fixed header built by concatenation. *)
Lemma slice_app_l (a b : bytes) j :
  (j <= length a)%nat → slice 0 j (a ++ b) = take j a.
Proof.
  intros. unfold slice. rewrite drop_0, Nat.sub_0_r, take_app_le; done.
Qed.

Lemma slice_app_r (a b : bytes) i j :
  (length a <= i)%nat → slice i j (a ++ b) = slice (i - length a) (j - length a) b.
Proof.
  intros. unfold slice. rewrite drop_app_ge by lia. f_equal. lia.
Qed.

Lemma slice_here (a b : bytes) j :
  j = length a → slice 0 j (a ++ b) = a.
Proof. intros ->. rewrite slice_app_l by lia. apply firstn_all. Qed.

(** Sorted lists extended at the end. *)
Lemma sorted_snoc_iff {A} (R : relation A) l x :
  StronglySorted R (l ++ [x]) ↔ StronglySorted R l ∧ Forall (λ a, R a x) l.
Proof.
  induction l as [|y l IH]; simpl.
  - split; [by repeat constructor|]. by repeat constructor.
  - split.
    + intros [Hs Hy]%StronglySorted_inv. apply IH in Hs as [Hs Hl].
      apply Forall_app in Hy as [Hy [Hyx _]%Forall_cons]. split; by constructor.
    + intros [[Hs Hy]%StronglySorted_inv [Hyx Hl]%Forall_cons].
      constructor; [by apply IH|]. apply Forall_app. by rewrite Forall_singleton.
Qed.

Lemma list_filter_all {A} (P : A → Prop) `{∀ x, Decision (P x)} l :
  Forall P l → filter P l = l.
Proof. induction 1 as [|x l Hx _ IH]; [done|]. by rewrite filter_cons_True, IH. Qed.

Lemma list_filter_none {A} (P : A → Prop) `{∀ x, Decision (P x)} l :
  Forall (λ x, ¬ P x) l → filter P l = [].
Proof. induction 1 as [|x l Hx _ IH]; [done|]. by rewrite filter_cons_False, IH. Qed.

Lemma Forall_filter {A} (P : A → Prop) `{∀ x, Decision (P x)} (l : list A) : Forall P (filter P l).
Proof. apply Forall_forall. by intros x [? _]%list_elem_of_filter. Qed.

Lemma sorted_sublist {A} (R : relation A) l l' :
  StronglySorted R l → sublist l' l → StronglySorted R l'.
Proof.
  intros Hc Hs. induction Hs as [|x l1 l2 Hs IH|x l1 l2 Hs IH]; [done|..];
    apply StronglySorted_inv in Hc as [Hc Hx]; [|by apply IH].
  constructor; [by apply IH|]. rewrite Forall_forall in *. intros y Hy.
  apply Hx. by eapply elem_of_submseteq, sublist_submseteq.
Qed.

Lemma Forall_sublist {A} (P : A → Prop) l l' : Forall P l → sublist l' l → Forall P l'.
Proof.
  rewrite !Forall_forall. intros Hl Hs x Hx. apply Hl.
  by eapply elem_of_submseteq, sublist_submseteq.
Qed.

Lemma sublist_filter {A} (P : A → Prop) `{∀ x, Decision (P x)} (l : list A) :
  sublist (filter P l) l.
Proof.
  induction l as [|x l IH]; [constructor|]. rewrite filter_cons. by case_decide; constructor.
Qed.

Lemma filter_comm {A} (P Q : A → Prop) `{∀ x, Decision (P x)} `{∀ x, Decision (Q x)} (l : list A) :
  filter P (filter Q l) = filter Q (filter P l).
Proof.
  induction l as [|x l IH]; [done|]. rewrite !filter_cons.
  destruct (decide (P x)) as [Hp|Hp], (decide (Q x)) as [Hq|Hq];
    rewrite ?filter_cons_True, ?filter_cons_False by done; by rewrite ?IH.
Qed.

Lemma le_split_uint n (b : bytes) : length b = n → le_split n (get_uint b) = b.
Proof. intros <-. apply split_le_combine. Qed.

Lemma get_uint_range n (b : bytes) : length b = n → 0 <= get_uint b < 2 ^ (8 * Z.of_nat n).
Proof. intros <-. apply le_combine_bound. Qed.

Lemma slice_length i j (b : bytes) :
  (i <= j)%nat → (j <= length b)%nat → length (slice i j b) = (j - i)%nat.
Proof. intros. unfold slice. rewrite length_take, length_drop. lia. Qed.

Lemma u64_i64 z : is_u64 z → u64 (i64 z) = z.
Proof.
  unfold is_u64, u64, i64. intros. rewrite Zminus_mod_idemp_l.
  replace (z + 2 ^ 63 - 2 ^ 63) with z by lia. apply Z.mod_small. lia.
Qed.

(** ** Sums *)

Definition sumz (l : list Z) : Z := foldr Z.add 0 l.

Lemma sumz_cons x l : sumz (x :: l) = x + sumz l.
Proof. done. Qed.

Lemma sumz_nonneg l : Forall (λ x, 0 <= x) l → 0 <= sumz l.
Proof. induction 1 as [|x l Hx _ IH]; [done|]. rewrite sumz_cons. lia. Qed.

Lemma sumz_perm l l' : l ≡ₚ l' → sumz l = sumz l'.
Proof. induction 1; rewrite ?sumz_cons; lia. Qed.

(** ** Loops as single passes

    A loop body as a function of the loop's variables: another pass, or the
    loop is left with a result.  [passes] runs the body at most [n] times and
    has no result when the loop is still running then, so that an equation
    [passes body n s = Some x] says that the loop terminates. *)
Inductive pass (S R : Type) :=
| Again (s : S)
| Exit (r : R).
Arguments Again {S R} s.
Arguments Exit {S R} r.

Fixpoint passes {S R} (body : S → pass S R) (n : nat) (s : S) : option R :=
  match n with
  | O => None
  | S n =>
      match body s with
      | Exit r => Some r
      | Again s => passes body n s
      end
  end.

(** A loop that was left in [n] passes is left with that result for good. *)
Lemma passes_mono {S R} (body : S → pass S R) n n' s r :
  passes body n s = Some r → (n <= n')%nat → passes body n' s = Some r.
Proof.
  revert n' s. induction n as [|n IH]; intros [|n'] s Hp Hn; try (done || lia).
  cbn [passes] in *. destruct (body s); [|done]. apply IH; [done|lia].
Qed.

(** ** Round robin over a list *)

(** Position [p] modulo the length. *)
Definition round_robin {A} (ids : list A) (p : Z) : option A := ids !! Z.to_nat (p mod zlen ids).

Lemma round_robin_some {A} (ids : list A) p : ids ≠ [] → ∃ x, round_robin ids p = Some x ∧ x ∈ ids.
Proof.
  intros Hne. unfold round_robin. destruct (lookup_lt_is_Some_2 ids (Z.to_nat (p mod zlen ids))) as [c Hc].
  { pose proof (Z.mod_pos_bound p (zlen ids)). unfold zlen in *.
    destruct ids; [done|]. simpl in *. lia. }
  exists c. split; [done|]. by eapply list_elem_of_lookup_2.
Qed.

(** How many of [0..n-1] are [j] modulo [k]. *)
Lemma count_mod k j n :
  0 <= j < k →
  Z.of_nat (length (filter (λ p, p mod k = j) (seqZ 0 (Z.of_nat n)))) =
    (Z.of_nat n + k - 1 - j) / k.
Proof.
  intros Hj. induction n as [|n IH].
  { cbn. symmetry. apply Z.div_small. lia. }
  rewrite seqZ_S, filter_app, length_app, Nat2Z.inj_add, IH.
  rewrite Z.add_0_l, filter_cons, filter_nil, Nat2Z.inj_succ, <- Z.add_1_r.
  pose proof (Z.div_mod (Z.of_nat n) k ltac:(lia)) as Hdm.
  pose proof (Z.mod_pos_bound (Z.of_nat n) k ltac:(lia)) as Hb.
  set (q := Z.of_nat n / k) in *. set (r := Z.of_nat n mod k) in *.
  replace (Z.of_nat n + 1 + k - 1 - j) with (q * k + (r + k - j)) by lia.
  replace (Z.of_nat n + k - 1 - j) with (q * k + (r + k - 1 - j)) by lia.
  rewrite !Z.div_add_l by lia.
  assert ((r + k - 1 - j) / k = if decide (r <= j) then 0 else 1) as ->.
  { case_decide; [apply Z.div_small; lia|]. symmetry. apply (Z.div_unique _ _ _ (r - 1 - j)); lia. }
  assert ((r + k - j) / k = if decide (r < j) then 0 else 1) as ->.
  { case_decide; [apply Z.div_small; lia|]. symmetry. apply (Z.div_unique _ _ _ (r - j)); lia. }
  repeat case_decide; cbn [length]; lia.
Qed.

(** Each of [ids] gets the floor or the ceiling of an even share. *)
Lemma round_robin_count {A} `{EqDecision A} (ids : list A) n x :
  NoDup ids → x ∈ ids → 0 <= n →
  n / zlen ids <= zlen (filter (λ p, round_robin ids p = Some x) (seqZ 0 n)) <=
    (n + zlen ids - 1) / zlen ids.
Proof.
  intros Hnd Hin Hn.
  apply list_elem_of_lookup_1 in Hin as [j Hj]. pose proof (lookup_lt_Some _ _ _ Hj) as Hlt.
  rewrite (list_filter_iff _ (λ p, p mod zlen ids = Z.of_nat j)).
  - unfold zlen at 2 5. rewrite <- (Z2Nat.id n) by lia. rewrite count_mod by (unfold zlen; lia).
    split; apply Z.div_le_mono; unfold zlen; lia.
  - intros p. unfold round_robin. pose proof (Z.mod_pos_bound p (zlen ids)) as Hb. unfold zlen in *. split.
    + intros Hp. enough (Z.to_nat (p mod Z.of_nat (length ids)) = j) by lia.
      by eapply NoDup_lookup.
    + intros ->. by rewrite Nat2Z.id.
Qed.
