(* ===== verification/GoLib.v ===== *)
(** * The parts of Go's standard library the broker computes with

    [hash/crc32], [hash/fnv], the decimal verb of [fmt], [strings.Index] and
    [strings.LastIndex] are written out.  [encoding/json] and the DEFLATE
    codecs are interfaces: a class holds the two directions and the round
    trip their documentation promises; [Json.v] has the JSON instances, and
    [StoredFlate] below a DEFLATE instance restricted to stored blocks. *)

From Stdlib Require Import DecimalString DecimalZ DecimalFacts.
From S2P Require Import Prelude.

Local Open Scope Z_scope.

(** ** [hash/crc32], IEEE polynomial, bit by bit *)

Definition crc32_poly : Z := 0xEDB88320.

Definition crc32_shift (c : Z) : Z :=
  if Z.odd c then Z.lxor (Z.shiftr c 1) crc32_poly else Z.shiftr c 1.

Definition crc32_byte (c : Z) (b : Init.Byte.byte) : Z :=
  Nat.iter 8 crc32_shift (Z.lxor c (byte.unsigned b)).

Definition crc32_ChecksumIEEE (b : bytes) : Z :=
  u32 (Z.lxor (fold_left crc32_byte b 0xFFFFFFFF) 0xFFFFFFFF).

(** ** [hash/fnv], 32-bit FNV-1a *)

Definition fnv32a_byte (h : Z) (b : Init.Byte.byte) : Z :=
  u32 (Z.lxor h (byte.unsigned b) * 16777619).

Definition fnv32a (b : bytes) : Z := fold_left fnv32a_byte b 2166136261.

(** ** Decimal integers: [%d] and its inverse *)

Definition fmt_d (z : Z) : string := NilZero.string_of_int (Z.to_int z).

Definition scan_d (s : string) : option Z := Z.of_int <$> NilZero.int_of_string s.

(** [strconv.ParseInt(s, 10, 64)]: a sign, digits, 64 bits; [strconv.Atoi] is
    the same function, [int] having 64 bits. *)
Definition ParseInt (s : string) : option Z :=
  let v :=
    match bytes_of_string s with
    | Byte.x2b :: Byte.x2d :: _ => None
    | Byte.x2b :: t => scan_d (string_of_bytes t)
    | _ => scan_d s
    end in
  match v with
  | Some z => if (- 2 ^ 63 <=? z) && (z <? 2 ^ 63) then Some z else None
  | None => None
  end.

(** ** Times

    A [time.Time] is its number of nanoseconds; [Time.Sub] saturates. *)

Definition time_sub (t u : Z) : Z := Z.max (- 2 ^ 63) (Z.min (2 ^ 63 - 1) (t - u)).

Definition millisecond : Z := 10 ^ 6.

(** ** Byte searches *)

Definition slash : Init.Byte.byte := Byte.x2f.

(** [strings.Index(s, c)] for a one-byte [c]; [None] for -1. *)
Fixpoint bytes_index (c : Init.Byte.byte) (s : bytes) : option nat :=
  match s with
  | [] => None
  | b :: s' => if bool_decide (b = c) then Some O else S <$> bytes_index c s'
  end.

(** [strings.LastIndex(s, c)] for a one-byte [c]; [None] for -1. *)
Fixpoint bytes_last_index (c : Init.Byte.byte) (s : bytes) : option nat :=
  match s with
  | [] => None
  | b :: s' =>
      match bytes_last_index c s' with
      | Some i => Some (S i)
      | None => if bool_decide (b = c) then Some O else None
      end
  end.

(** ** [encoding/json] for one Go type *)

Class JsonCodec (A : Type) := {
  json_Marshal : A → option bytes;
  json_Unmarshal : bytes → option A;
  (** The values encoding/json reproduces: valid UTF-8 in the strings and
      integers within the width of their field. *)
  json_wf : A → Prop;
  json_roundtrip : ∀ x, json_wf x →
    ∃ b, json_Marshal x = Some b ∧ json_Unmarshal b = Some x;
}.

(** ** [compress/flate] and [compress/zlib]

    The round trips are what the packages document; [zlib_magic] is the
    header check of RFC 1950 (compression method 8) that [zlib.NewReader]
    performs before it decodes. *)

Class Deflate := {
  flate_compress : bytes → option bytes;
  flate_decompress : bytes → option bytes;
  zlib_compress : bytes → option bytes;
  zlib_decompress : bytes → option bytes;
  flate_roundtrip : ∀ b c, flate_compress b = Some c → flate_decompress c = Some b;
  zlib_roundtrip : ∀ b c, zlib_compress b = Some c → zlib_decompress c = Some b;
  zlib_magic : ∀ b c, zlib_decompress b = Some c →
    ∃ h b', b = h :: b' ∧ Z.land (byte.unsigned h) 0x0f = 8;
}.

(** A DEFLATE that only writes and reads one stored (uncompressed) block:
    enough to run the model. *)
Definition stored_compress (b : bytes) : option bytes :=
  if zlen b <? 2 ^ 16 then
    Some (Byte.x01 :: put_u16 (zlen b) ++ put_u16 (Z.lxor (zlen b) 0xFFFF) ++ b)
  else None.

Definition stored_decompress (c : bytes) : option bytes :=
  match c with
  | Byte.x01 :: c' =>
      let n := get_uint (slice 0 2 c') in
      let data := drop 4 c' in
      if (get_uint (slice 2 4 c') =? Z.lxor n 0xFFFF) && (zlen data =? n)
      then Some data else None
  | _ => None
  end.

Definition zstored_compress (b : bytes) : option bytes :=
  (λ c, Byte.x78 :: Byte.x01 :: c) <$> stored_compress b.

Definition zstored_decompress (c : bytes) : option bytes :=
  match c with
  | Byte.x78 :: Byte.x01 :: c' => stored_decompress c'
  | _ => None
  end.

(** ** Facts *)

Example crc32_check :
  crc32_ChecksumIEEE (bytes_of_string "123456789") = 0xCBF43926.
Proof. reflexivity. Qed.

Example fnv32a_check : fnv32a (bytes_of_string "a") = 0xE40C292C.
Proof. reflexivity. Qed.

Lemma crc32_range b : 0 <= crc32_ChecksumIEEE b < 2 ^ 32.
Proof. apply Z.mod_pos_bound. lia. Qed.

Lemma u32_crc32 b : u32 (crc32_ChecksumIEEE b) = crc32_ChecksumIEEE b.
Proof. apply u32_id, crc32_range. Qed.

#[export] Hint Rewrite u32_crc32 : go.

Lemma fnv32a_range b : 0 <= fnv32a b < 2 ^ 32.
Proof.
  unfold fnv32a. set (h := 2166136261). assert (0 <= h < 2 ^ 32) as Hh by lia.
  clearbody h. revert h Hh. induction b as [|x b IH]; intros h Hh; [done|].
  simpl. apply IH. apply Z.mod_pos_bound. lia.
Qed.

Lemma scan_fmt_d z : scan_d (fmt_d z) = Some z.
Proof.
  unfold scan_d, fmt_d.
  rewrite NilZero.isi; simpl; [by rewrite DecimalZ.of_to | | ];
    intros H; apply (f_equal Z.of_int) in H as H'; rewrite DecimalZ.of_to in H';
    subst z; discriminate.
Qed.

Lemma fmt_d_inj z z' : fmt_d z = fmt_d z' → z = z'.
Proof. intros H. apply (f_equal scan_d) in H. rewrite !scan_fmt_d in H. by injection H. Qed.

Lemma bytes_of_string_app a b : bytes_of_string (a +:+ b) = bytes_of_string a ++ bytes_of_string b.
Proof. induction a as [|c a IH]; [done|]. 
  change (Ascii.byte_of_ascii c :: bytes_of_string (a +:+ b) =
          Ascii.byte_of_ascii c :: (bytes_of_string a ++ bytes_of_string b)).
  by rewrite IH.
Qed.

Lemma string_app_assoc a b c : a +:+ b +:+ c = (a +:+ b) +:+ c.
Proof. induction a as [|x a IH]; [done|]. change (String x (a +:+ b +:+ c) = String x ((a +:+ b) +:+ c)). by rewrite IH. Qed.

(** Zeros in front of a decimal number do not change it. *)
Lemma padded_digits n z : 0 <= z →
  ∃ d, d ≠ Decimal.Nil ∧ Z.of_uint d = z ∧
    string_of_bytes (replicate n Byte.x30) +:+ fmt_d z = NilEmpty.string_of_uint d.
Proof.
  intros Hz. induction n as [|n (d & Hd & Hv & He)].
  - pose proof (DecimalZ.of_to z) as Ho. unfold fmt_d.
    destruct (Z.to_int z) as [d|d] eqn:E.
    + exists d. assert (d ≠ Decimal.Nil) as Hd.
      { intros ->. simpl in Ho. subst z. discriminate. }
      split_and!; [done|done|]. by destruct d.
    + destruct z; simpl in E; try discriminate. lia.
  - exists (Decimal.D0 d). split_and!; [done|done|].
    cbn [NilEmpty.string_of_uint]. rewrite <- He. reflexivity.
Qed.

Lemma scan_digits d : d ≠ Decimal.Nil → scan_d (NilEmpty.string_of_uint d) = Some (Z.of_uint d).
Proof.
  intros Hd. replace (NilEmpty.string_of_uint d) with (NilZero.string_of_int (Decimal.Pos d))
    by (by destruct d).
  unfold scan_d. rewrite NilZero.isi; [done|congruence|congruence].
Qed.

Lemma string_app_inv_r a b c : a +:+ c = b +:+ c → a = b.
Proof.
  intros Heq. apply (f_equal bytes_of_string) in Heq. rewrite !bytes_of_string_app in Heq.
  apply app_inv_tail in Heq. rewrite <- (string_of_bytes_of_string a), <- (string_of_bytes_of_string b).
  by rewrite Heq.
Qed.

(** No digit and no sign is a slash. *)
Lemma uint_no_slash (d : Decimal.uint) :
  slash ∉ bytes_of_string (NilEmpty.string_of_uint d).
Proof.
  induction d; simpl; [apply not_elem_of_nil|..];
    (apply not_elem_of_cons; split; [discriminate|done]).
Qed.

Lemma fmt_d_no_slash z : slash ∉ bytes_of_string (fmt_d z).
Proof.
  assert (∀ d, slash ∉ bytes_of_string (NilZero.string_of_uint d)) as Hu.
  { intros []; try apply uint_no_slash.
    simpl. apply not_elem_of_cons. split; [discriminate|apply not_elem_of_nil]. }
  unfold fmt_d. destruct (Z.to_int z) as [d|d]; simpl; [apply Hu|].
  apply not_elem_of_cons. split; [discriminate|apply Hu].
Qed.

Lemma bytes_last_index_none c s : c ∉ s → bytes_last_index c s = None.
Proof.
  induction s as [|b s IH]; intros H; [done|]. simpl.
  apply not_elem_of_cons in H as [Hb Hs]. rewrite (IH Hs).
  by rewrite bool_decide_eq_false_2 by congruence.
Qed.

(** The last separator of [a ++ c :: b] is the one before [b]. *)
Lemma bytes_last_index_app c a b :
  c ∉ b → bytes_last_index c (a ++ c :: b) = Some (length a).
Proof.
  intros Hb. induction a as [|x a IH]; simpl.
  - rewrite bytes_last_index_none by done. by rewrite bool_decide_eq_true_2.
  - by rewrite IH.
Qed.

(** The first separator of [a ++ c :: b] is the one after [a]. *)
Lemma bytes_index_app c a b :
  c ∉ a → bytes_index c (a ++ c :: b) = Some (length a).
Proof.
  induction a as [|x a IH]; intros H; simpl.
  - by rewrite bool_decide_eq_true_2.
  - apply not_elem_of_cons in H as [Hx Ha].
    rewrite bool_decide_eq_false_2 by congruence. by rewrite IH.
Qed.

Lemma stored_roundtrip b c : stored_compress b = Some c → stored_decompress c = Some b.
Proof.
  unfold stored_compress, stored_decompress. intros H. case_match; simplify_eq. z_bool.
  pose proof (zlen_nonneg b).
  assert (0 <= Z.lxor (zlen b) 65535 < 2 ^ 16) as Hx.
  { assert (0 <= Z.lxor (zlen b) 65535) by (apply Z.lxor_nonneg; lia).
    split; [done|].
    destruct (Z.eq_dec (Z.lxor (zlen b) 65535) 0); [lia|].
    apply Z.log2_lt_pow2; [lia|].
    eapply Z.le_lt_trans; [apply Z.log2_lxor; lia|].
    apply Z.max_lub_lt; [|done].
    destruct (Z.eq_dec (zlen b) 0) as [->|]; [done|].
    apply Z.log2_lt_pow2; lia. }
  rewrite (slice_here (put_u16 _) _) by done.
  rewrite (slice_app_r (put_u16 _)) by done.
  rewrite (slice_here (put_u16 (Z.lxor _ _))) by done.
  rewrite !get_put_u16, !u16_id by lia.
  rewrite (app_assoc (put_u16 _) (put_u16 _) b).
  change 4%nat with (length (put_u16 (zlen b) ++ put_u16 (Z.lxor (zlen b) 65535))).
  rewrite drop_app_length, !Z.eqb_refl. done.
Qed.

#[export, refine] Instance StoredFlate : Deflate := {
  flate_compress := stored_compress;
  flate_decompress := stored_decompress;
  zlib_compress := zstored_compress;
  zlib_decompress := zstored_decompress;
}.
Proof.
  - apply stored_roundtrip.
  - intros b c H. unfold zstored_compress in H.
    destruct (stored_compress b) as [d|] eqn:E; simplify_eq/=.
    by apply stored_roundtrip.
  - intros b c H. unfold zstored_decompress in H.
    destruct b as [|[] b]; try discriminate. eexists _, _. split; [done|]. reflexivity.
Defined.
