(* ===== verification/GoFlag.v ===== *)
(** * [flag] and the integers of [strconv] with any base

    A [FlagSet] that continues on errors: the flags a command declares with
    their defaults, and the arguments left after the first that is none. *)

From S2P Require Import Prelude GoLib.

Local Open Scope Z_scope.

(** ** [strconv.ParseInt(s, 0, 64)] *)

Definition lower (z : Z) : Z := Z.lor z 0x20.

(** The value of a digit or letter. *)
Definition digit_of (c : Z) : option Z :=
  if (0x30 <=? c) && (c <=? 0x39) then Some (c - 0x30)
  else if (0x61 <=? lower c) && (lower c <=? 0x7a) then Some (lower c - 0x61 + 10)
  else None.

(** The digits in a base, underscores passed over; [None] on any other byte
    or past 64 bits. *)
Fixpoint base_digits (base acc : Z) (s : list Z) : option Z :=
  match s with
  | [] => Some acc
  | c :: s =>
      if c =? 0x5f then base_digits base acc s
      else
        match digit_of c with
        | Some d =>
            if base <=? d then None
            else let acc := acc * base + d in if 2 ^ 64 <=? acc then None else base_digits base acc s
        | None => None
        end
  end.

(** The last thing seen: nothing, a digit or the prefix, an underscore, or
    something else. *)
Inductive saw := SawNone | SawDigit | SawUnderscore | SawOther.

Fixpoint underscore_loop (hex : bool) (st : saw) (s : list Z) : bool :=
  match s with
  | [] => match st with SawUnderscore => false | _ => true end
  | c :: s =>
      if ((0x30 <=? c) && (c <=? 0x39)) || (hex && (0x61 <=? lower c) && (lower c <=? 0x66)) then underscore_loop hex SawDigit s
      else if c =? 0x5f then match st with SawDigit => underscore_loop hex SawUnderscore s | _ => false end
      else match st with SawUnderscore => false | _ => underscore_loop hex SawOther s end
  end.

(** An underscore stands between digits, or after the prefix. *)
Definition underscoreOK (s : list Z) : bool :=
  let s := match s with c :: s' => if (c =? 0x2d) || (c =? 0x2b) then s' else s | [] => s end in
  match s with
  | 0x30 :: c :: s' =>
      if bool_decide (lower c ∈ [0x62; 0x6f; 0x78]) then underscore_loop (lower c =? 0x78) SawDigit s'
      else underscore_loop false SawNone s
  | _ => underscore_loop false SawNone s
  end.

Definition ParseUint0 (s : list Z) : option Z :=
  let '(base, digits) :=
    match s with
    | 0x30 :: c :: ((_ :: _) as s') =>
        if lower c =? 0x62 then (2, s') else if lower c =? 0x6f then (8, s') else if lower c =? 0x78 then (16, s')
        else (8, c :: s')
    | 0x30 :: s' => (8, s')
    | _ => (10, s)
    end in
  match s with
  | [] => None
  | _ =>
      match base_digits base 0 digits with
      | None => None
      | Some n => if bool_decide (0x5f ∈ digits) && negb (underscoreOK s) then None else Some n
      end
  end.

Definition ParseInt0 (s : string) : option Z :=
  let s := byte.unsigned <$> bytes_of_string s in
  let '(neg, s) := match s with 0x2b :: s' => (false, s') | 0x2d :: s' => (true, s') | _ => (false, s) end in
  match ParseUint0 s with
  | None => None
  | Some un =>
      if negb neg && (2 ^ 63 <=? un) then None
      else if neg && (2 ^ 63 <? un) then None
      else Some (if neg then - un else un)
  end.

Example ParseInt0_examples :
  ParseInt0 "-1" = Some (-1) ∧ ParseInt0 "0x1F" = Some 31 ∧ ParseInt0 "010" = Some 8 ∧ ParseInt0 "1_000" = Some 1000 ∧
  ParseInt0 "1__0" = None ∧ ParseInt0 "_1" = None ∧ ParseInt0 "0x_1" = Some 1 ∧ ParseInt0 "09" = None ∧ ParseInt0 "" = None ∧
  ParseInt0 "0" = Some 0 ∧ ParseInt0 "9223372036854775808" = None ∧ ParseInt0 "-9223372036854775808" = Some (- 2 ^ 63).
Proof. by vm_compute. Qed.

(** [strconv.ParseBool]. *)
Definition ParseBool (s : string) : option bool :=
  if bool_decide (s ∈ ["1"; "t"; "T"; "true"; "TRUE"; "True"]%string) then Some true
  else if bool_decide (s ∈ ["0"; "f"; "F"; "false"; "FALSE"; "False"]%string) then Some false
  else None.

(** ** Flags *)

Inductive flag_value :=
| FString (s : string)
| FInt (z : Z)
| FBool (b : bool).

(** The flags of a set with their present values. *)
Notation flag_set := (list (string * flag_value)).

Definition flag_lookup (fs : flag_set) (name : string) : option flag_value :=
  snd <$> (snd <$> list_find (λ p, p.1 = name) fs).

Definition flag_update (fs : flag_set) (name : string) (v : flag_value) : flag_set :=
  (λ p, if bool_decide (p.1 = name) then (p.1, v) else p) <$> fs.

(** [Value.Set]. *)
Definition flag_Set (old : flag_value) (s : string) : option flag_value :=
  match old with
  | FString _ => Some (FString s)
  | FInt _ => FInt <$> ParseInt0 s
  | FBool _ => FBool <$> ParseBool s
  end.

Inductive flag_err :=
| ErrHelp
| BadFlag.

(** A name and the value after an equals sign that is not its first byte. *)
Definition split_equals (name : bytes) : bytes * option bytes :=
  match name with
  | [] => ([], None)
  | c :: rest =>
      match bytes_index Byte.x3d rest with
      | Some i => (c :: take i rest, Some (drop (S i) rest))
      | None => (name, None)
      end
  end.

(** What an argument is: not a flag, the two dashes that end the flags, bad
    syntax, or a name with what follows it. *)
Inductive flag_word :=
| NotFlag
| Terminator
| BadSyntax
| Named (name : bytes).

Definition dash : Init.Byte.byte := Byte.x2d.

Definition flag_word_of (s : string) : flag_word :=
  match bytes_of_string s with
  | c0 :: c1 :: t =>
      if negb (bool_decide (c0 = dash)) then NotFlag
      else if bool_decide (c1 = dash) && bool_decide (t = []) then Terminator
      else
        let name := if bool_decide (c1 = dash) then t else c1 :: t in
        match name with
        | [] => BadSyntax
        | n0 :: _ => if bool_decide (n0 = dash) || bool_decide (n0 = Byte.x3d) then BadSyntax else Named name
        end
  | _ => NotFlag
  end.

(** A flag that is set, or why it is not. *)
Definition set_flag (fs : flag_set) (name : string) (old : flag_value) (s : string) (rest : list string) :
    result (flag_set * list string * bool) flag_err :=
  match flag_Set old s with
  | Some v => Ok (flag_update fs name v, rest, true)
  | None => Error BadFlag
  end.

(** [parseOne]: the flags, the arguments left, and whether it saw a flag. *)
Definition parseOne (fs : flag_set) (args : list string) : result (flag_set * list string * bool) flag_err :=
  match args with
  | [] => Ok (fs, [], false)
  | s :: rest =>
      match flag_word_of s with
      | NotFlag => Ok (fs, args, false)
      | Terminator => Ok (fs, rest, false)
      | BadSyntax => Error BadFlag
      | Named word =>
          let '(name, value) := split_equals word in
          let name := string_of_bytes name in
          match flag_lookup fs name, value, rest with
          | None, _, _ => if bool_decide (name ∈ ["help"; "h"]%string) then Error ErrHelp else Error BadFlag
          | Some ((FBool _) as old), _, _ => set_flag fs name old (default "true"%string (string_of_bytes <$> value)) rest
          | Some old, Some v, _ => set_flag fs name old (string_of_bytes v) rest
          | Some old, None, v :: rest => set_flag fs name old v rest
          | Some _, None, [] => Error BadFlag
          end
      end
  end.

Fixpoint parse_loop (fuel : nat) (fs : flag_set) (args : list string) : result (flag_set * list string) flag_err :=
  match fuel with
  | O => Ok (fs, args)
  | S fuel =>
      match parseOne fs args with
      | Error e => Error e
      | Ok (fs, args, true) => parse_loop fuel fs args
      | Ok (fs, args, false) => Ok (fs, args)
      end
  end.

(** [FlagSet.Parse]: every round takes an argument at least. *)
Definition flag_Parse (fs : flag_set) (args : list string) : result (flag_set * list string) flag_err :=
  parse_loop (S (length args)) fs args.

Definition flag_string (fs : flag_set) (name : string) : string :=
  match flag_lookup fs name with Some (FString s) => s | _ => EmptyString end.

Definition flag_int (fs : flag_set) (name : string) : Z :=
  match flag_lookup fs name with Some (FInt z) => z | _ => 0 end.

Definition flag_bool (fs : flag_set) (name : string) : bool :=
  match flag_lookup fs name with Some (FBool b) => b | _ => false end.

Lemma parseOne_shorter fs args fs' args' : parseOne fs args = Ok (fs', args', true) → (length args' < length args)%nat.
Proof.
  unfold parseOne, set_flag. destruct args as [|s rest]; [done|]. intros H.
  destruct (flag_word_of s) as [| | |word]; try done. destruct (split_equals word) as [name value].
  repeat (case_match; simplify_eq/=); try lia.
Qed.

(** Once the fuel is more than the arguments it makes no difference. *)
Lemma parse_loop_fuel fuel fuel' fs args :
  (length args < fuel)%nat → (length args < fuel')%nat → parse_loop fuel fs args = parse_loop fuel' fs args.
Proof.
  revert fuel' fs args. induction fuel as [|fuel IH]; intros [|fuel'] fs args H1 H2; try lia. cbn.
  destruct (parseOne fs args) as [[[fs1 args1] []]|] eqn:E; try done.
  apply parseOne_shorter in E. apply IH; lia.
Qed.

(** A flag that the set declares is set from the next argument, and only it. *)
Lemma parse_named fs s name v rest old v' :
  flag_word_of s = Named (bytes_of_string name) → bytes_index Byte.x3d (drop 1 (bytes_of_string name)) = None →
  flag_lookup fs name = Some old → (∀ b, old ≠ FBool b) → flag_Set old v = Some v' →
  flag_Parse fs (s :: v :: rest) = flag_Parse (flag_update fs name v') rest.
Proof.
  intros Hw He Hl Hb Hs. unfold flag_Parse at 1.
  change (parse_loop (S (length (s :: v :: rest))) fs (s :: v :: rest)) with
    (match parseOne fs (s :: v :: rest) with
     | Error e => Error e
     | Ok (fs, args, true) => parse_loop (length (s :: v :: rest)) fs args
     | Ok (fs, args, false) => Ok (fs, args)
     end).
  assert (parseOne fs (s :: v :: rest) = Ok (flag_update fs name v', rest, true)) as ->.
  { unfold parseOne. rewrite Hw. assert (split_equals (bytes_of_string name) = (bytes_of_string name, None)) as ->.
    { unfold split_equals. destruct (bytes_of_string name) as [|c t]; [done|]. cbn in He. rewrite drop_0 in He. by rewrite He. }
    rewrite string_of_bytes_of_string, Hl. unfold set_flag. destruct old as [s0|z|b]; [by rewrite Hs|by rewrite Hs|by destruct (Hb b)]. }
  apply parse_loop_fuel; cbn; lia.
Qed.
