(* ===== verification/Ring.v ===== *)
(** * The ring buffer of [internal/audit/audit.go] and [internal/tracing/store.go]

    A slice of fixed capacity with a head and a count, refined to the list of
    the newest elements. *)

From S2P Require Import Prelude.

Local Open Scope Z_scope.

Record RingBuffer (A : Type) := mkRingBuffer {
  rb_buf : list A;
  rb_capacity : Z;
  rb_head : Z;
  rb_count : Z;
}.

Arguments mkRingBuffer {A} _ _ _ _.
Arguments rb_buf {A} _.
Arguments rb_capacity {A} _.
Arguments rb_head {A} _.
Arguments rb_count {A} _.

Section Ring.
(** [dummy] fills the slots not written yet. *)
Context {A : Type} (dummy : A).

(** [None] is the panic on a capacity below one. *)
Definition NewRingBuffer (capacity : Z) : option (RingBuffer A) :=
  if capacity <? 1 then None
  else Some (mkRingBuffer (replicate (Z.to_nat capacity) dummy) capacity 0 0).

Definition RingBuffer_Add (rb : RingBuffer A) (e : A) : RingBuffer A :=
  mkRingBuffer (<[Z.to_nat (rb_head rb) := e]> (rb_buf rb)) (rb_capacity rb)
    ((rb_head rb + 1) mod rb_capacity rb)
    (if rb_count rb <? rb_capacity rb then rb_count rb + 1 else rb_count rb).

(** The loop that walks backwards from the slot before the head. *)
Definition RingBuffer_Snapshot (rb : RingBuffer A) : list A :=
  (λ i, default dummy
     (rb_buf rb !! Z.to_nat ((rb_head rb - 1 - i + rb_capacity rb) mod rb_capacity rb)))
  <$> seqZ 0 (rb_count rb).

(** ** What the ring holds *)

(** The ring holds the elements [es], oldest first, that fit. *)
Record ring_rep (rb : RingBuffer A) (es : list A) : Prop := mkRingRep {
  rr_cap : 1 <= rb_capacity rb;
  rr_len : zlen (rb_buf rb) = rb_capacity rb;
  rr_head : 0 <= rb_head rb < rb_capacity rb;
  rr_count : rb_count rb = Z.min (zlen es) (rb_capacity rb);
  rr_slots : ∀ i, 0 <= i < rb_count rb →
    rb_buf rb !! Z.to_nat ((rb_head rb - 1 - i + rb_capacity rb) mod rb_capacity rb) =
      reverse es !! Z.to_nat i;
}.

Lemma NewRingBuffer_rep capacity rb : NewRingBuffer capacity = Some rb → ring_rep rb [].
Proof.
  unfold NewRingBuffer. intros H. case_match; z_bool; simplify_eq.
  split; cbn [rb_capacity rb_buf rb_head rb_count]; try lia.
  - unfold zlen. rewrite length_replicate. lia.
  - unfold zlen. simpl. lia.
Qed.

Lemma RingBuffer_Add_rep rb es e : ring_rep rb es → ring_rep (RingBuffer_Add rb e) (es ++ [e]).
Proof.
  intros [Hc Hl Hh Hn Hs]. unfold RingBuffer_Add.
  assert (zlen (es ++ [e]) = zlen es + 1) as Hlen by (by rewrite zlen_app).
  pose proof (Z.mod_pos_bound (rb_head rb + 1) (rb_capacity rb)) as Hm.
  split; cbn.
  - done.
  - unfold zlen in *. by rewrite length_insert.
  - lia.
  - rewrite Hlen, Hn. unfold zlen. destruct (Z.ltb_spec (Z.min (Z.of_nat (length es)) (rb_capacity rb))
      (rb_capacity rb)); lia.
  - intros i Hi. rewrite reverse_snoc.
    assert (((rb_head rb + 1) mod rb_capacity rb - 1 - i + rb_capacity rb) mod rb_capacity rb =
            (rb_head rb - i) mod rb_capacity rb) as ->.
    { rewrite <- (Z.mod_add (rb_head rb - i) 1) by lia. rewrite Z.mul_1_l.
      replace ((rb_head rb + 1) mod rb_capacity rb - 1 - i + rb_capacity rb)
        with ((rb_head rb + 1) mod rb_capacity rb + (rb_capacity rb - 1 - i)) by lia.
      rewrite Zplus_mod_idemp_l. f_equal. lia. }
    destruct (decide (i = 0)) as [->|Hi0].
    + rewrite Z.sub_0_r, Z.mod_small by lia. cbn. apply list_lookup_insert_eq.
      unfold zlen in Hl. lia.
    + rewrite list_lookup_insert_ne.
      2: { intros Heq. apply Z2Nat.inj in Heq; [|lia|apply Z.mod_pos_bound; lia].
           assert (i < rb_capacity rb) as Hib.
           { cbn in Hi. destruct (Z.ltb_spec (rb_count rb) (rb_capacity rb)); lia. }
           pose proof (Z.div_mod (rb_head rb - i) (rb_capacity rb) ltac:(lia)) as Hd.
           rewrite <- Heq in Hd. generalize dependent ((rb_head rb - i) / rb_capacity rb).
           intros q Hd. destruct (Z.le_gt_cases q (-1)); nia. }
      rewrite (lookup_cons_ne_0 _ _ (Z.to_nat i)) by lia.
      replace (Nat.pred (Z.to_nat i)) with (Z.to_nat (i - 1)) by lia.
      rewrite <- Hs by (destruct (Z.ltb_spec (rb_count rb) (rb_capacity rb)); lia).
      do 2 f_equal. rewrite <- (Z.mod_add (rb_head rb - i) 1) by lia. f_equal. lia.
Qed.

Lemma Snapshot_rep rb es :
  ring_rep rb es → RingBuffer_Snapshot rb = take (Z.to_nat (rb_capacity rb)) (reverse es).
Proof.
  intros [Hc Hl Hh Hn Hs]. unfold RingBuffer_Snapshot. apply list_eq. intros i.
  rewrite list_lookup_fmap.
  destruct (decide (Z.of_nat i < rb_count rb)) as [Hi|Hi].
  - rewrite lookup_seqZ_lt by lia. cbn. rewrite lookup_take_lt by lia.
    rewrite Z.add_0_l, Hs by lia. rewrite Nat2Z.id.
    destruct (reverse es !! i) eqn:E; [done|]. apply lookup_ge_None in E.
    rewrite length_reverse in E. unfold zlen in Hn. lia.
  - rewrite lookup_seqZ_ge by lia. cbn. symmetry. apply lookup_ge_None.
    rewrite length_take, length_reverse. unfold zlen in Hn. lia.
Qed.

End Ring.
