(* ===== verification/Json.v ===== *)
(** * [encoding/json], as far as the broker uses it

    JSON values, the compact printer of [json.Marshal] (HTML-safe string
    escapes, [\ufffd] for bytes that are not UTF-8) and the reader of
    [json.Unmarshal] (white space, escapes, surrogate pairs).  Numbers are
    the integers the broker's structs hold.  [parse_print] is the round trip
    on values whose strings are valid UTF-8. *)

From Stdlib Require Import DecimalString.
From S2P Require Import Prelude GoLib.

Local Open Scope Z_scope.

Inductive json :=
| JNull
| JBool (b : bool)
| JNum (z : Z)
| JStr (s : bytes)
| JArr (l : list json)
| JObj (l : list (bytes * json)).

(** ** UTF-8 *)

Definition bval (b : Init.Byte.byte) : Z := byte.unsigned b.

Definition in_range (lo hi : Z) (b : Init.Byte.byte) : bool :=
  (lo <=? bval b) && (bval b <=? hi).

(** [utf8.DecodeRune]: the number of bytes of the valid rune at the front,
    0 when there is none. *)
Definition rune_len (s : bytes) : nat :=
  match s with
  | [] => 0%nat
  | a :: s1 =>
      if bval a <? 0x80 then 1%nat
      else match s1 with
      | [] => 0%nat
      | b :: s2 =>
          if in_range 0xC2 0xDF a then
            if in_range 0x80 0xBF b then 2%nat else 0%nat
          else match s2 with
          | [] => 0%nat
          | c :: s3 =>
              if in_range 0xE0 0xEF a then
                let lo := if bval a =? 0xE0 then 0xA0 else 0x80 in
                let hi := if bval a =? 0xED then 0x9F else 0xBF in
                if in_range lo hi b && in_range 0x80 0xBF c then 3%nat else 0%nat
              else match s3 with
              | [] => 0%nat
              | d :: _ =>
                  if in_range 0xF0 0xF4 a then
                    let lo := if bval a =? 0xF0 then 0x90 else 0x80 in
                    let hi := if bval a =? 0xF4 then 0x8F else 0xBF in
                    if in_range lo hi b && in_range 0x80 0xBF c && in_range 0x80 0xBF d
                    then 4%nat else 0%nat
                  else 0%nat
              end
          end
      end
  end.

Fixpoint utf8_valid_fuel (fuel : nat) (s : bytes) : bool :=
  match fuel, s with
  | _, [] => true
  | O, _ => false
  | S fuel, _ =>
      match rune_len s with
      | O => false
      | n => utf8_valid_fuel fuel (drop n s)
      end
  end.

(** [utf8.Valid]. *)
Definition utf8_valid (s : bytes) : bool := utf8_valid_fuel (length s) s.

(** [utf8.EncodeRune] for runes up to 0x10FFFF. *)
Definition utf8_encode (r : Z) : bytes :=
  if r <? 0x80 then [byte.of_Z r]
  else if r <? 0x800 then
    [byte.of_Z (0xC0 + Z.shiftr r 6); byte.of_Z (0x80 + Z.land r 0x3F)]
  else if r <? 0x10000 then
    [byte.of_Z (0xE0 + Z.shiftr r 12); byte.of_Z (0x80 + Z.land (Z.shiftr r 6) 0x3F);
     byte.of_Z (0x80 + Z.land r 0x3F)]
  else
    [byte.of_Z (0xF0 + Z.shiftr r 18); byte.of_Z (0x80 + Z.land (Z.shiftr r 12) 0x3F);
     byte.of_Z (0x80 + Z.land (Z.shiftr r 6) 0x3F); byte.of_Z (0x80 + Z.land r 0x3F)].

Definition rune_error : bytes := utf8_encode 0xFFFD.

(** ** Strings *)

Definition hex_digit (z : Z) : Init.Byte.byte :=
  byte.of_Z (if z <? 10 then 0x30 + z else 0x57 + z).

Definition unhex (b : Init.Byte.byte) : option Z :=
  if in_range 0x30 0x39 b then Some (bval b - 0x30)
  else if in_range 0x61 0x66 b then Some (bval b - 0x57)
  else if in_range 0x41 0x46 b then Some (bval b - 0x37)
  else None.

(** The escape of one ASCII byte ([htmlSafeSet] bytes stand for themselves). *)
Definition escape_ascii (b : Init.Byte.byte) : bytes :=
  match b with
  | Byte.x22 | Byte.x5c => [Byte.x5c; b]
  | Byte.x08 => [Byte.x5c; Byte.x62]
  | Byte.x0c => [Byte.x5c; Byte.x66]
  | Byte.x0a => [Byte.x5c; Byte.x6e]
  | Byte.x0d => [Byte.x5c; Byte.x72]
  | Byte.x09 => [Byte.x5c; Byte.x74]
  | _ =>
      if (bval b <? 0x20) || (bval b =? 0x3c) || (bval b =? 0x3e) || (bval b =? 0x26) then
        [Byte.x5c; Byte.x75; Byte.x30; Byte.x30;
         hex_digit (Z.shiftr (bval b) 4); hex_digit (Z.land (bval b) 0xF)]
      else [b]
  end.

(** [\u2028] and [\u2029] are escaped too; other valid runes are copied. *)
Definition escape_rune (c : bytes) : bytes :=
  match c with
  | [b] => escape_ascii b
  | [Byte.xe2; Byte.x80; Byte.xa8] => bytes_of_string "\u2028"
  | [Byte.xe2; Byte.x80; Byte.xa9] => bytes_of_string "\u2029"
  | _ => c
  end.

Fixpoint escape_fuel (fuel : nat) (s : bytes) : bytes :=
  match fuel, s with
  | _, [] => []
  | O, _ => []
  | S fuel, _ =>
      match rune_len s with
      | O => bytes_of_string "\ufffd" ++ escape_fuel fuel (drop 1 s)
      | n => escape_rune (take n s) ++ escape_fuel fuel (drop n s)
      end
  end.

Definition quote (s : bytes) : bytes :=
  Byte.x22 :: escape_fuel (length s) s ++ [Byte.x22].

#[global] Arguments quote : simpl never.

Definition get_u4 (s : bytes) : option (Z * bytes) :=
  match s with
  | a :: b :: c :: d :: s' =>
      match unhex a, unhex b, unhex c, unhex d with
      | Some a, Some b, Some c, Some d => Some (((a * 16 + b) * 16 + c) * 16 + d, s')
      | _, _, _, _ => None
      end
  | _ => None
  end.

(** After [\u]: one rune, a surrogate pair making one and a lone surrogate
    becoming U+FFFD. *)
Definition read_u (s : bytes) : option (bytes * bytes) :=
  match get_u4 s with
  | None => None
  | Some (r, s') =>
      if (0xD800 <=? r) && (r <? 0xE000) then
        match s' with
        | Byte.x5c :: Byte.x75 :: s'' =>
            match get_u4 s'' with
            | Some (r2, s3) =>
                if (r <? 0xDC00) && (0xDC00 <=? r2) && (r2 <? 0xE000) then
                  Some (utf8_encode (0x10000 + (r - 0xD800) * 0x400 + (r2 - 0xDC00)), s3)
                else Some (rune_error, s')
            | None => Some (rune_error, s')
            end
        | _ => Some (rune_error, s')
        end
      else Some (utf8_encode r, s')
  end.

(** One character of a string literal: its bytes and the rest of the text. *)
Definition unquote_step (s : bytes) : option (bytes * bytes) :=
  match s with
  | [] => None
  | Byte.x5c :: s' =>
      match s' with
      | Byte.x22 :: t => Some ([Byte.x22], t)
      | Byte.x5c :: t => Some ([Byte.x5c], t)
      | Byte.x2f :: t => Some ([Byte.x2f], t)
      | Byte.x62 :: t => Some ([Byte.x08], t)
      | Byte.x66 :: t => Some ([Byte.x0c], t)
      | Byte.x6e :: t => Some ([Byte.x0a], t)
      | Byte.x72 :: t => Some ([Byte.x0d], t)
      | Byte.x74 :: t => Some ([Byte.x09], t)
      | Byte.x75 :: t => read_u t
      | _ => None
      end
  | b :: s' =>
      if bval b <? 0x20 then None
      else match rune_len s with
      | O => Some (rune_error, s')
      | n => Some (take n s, drop n s)
      end
  end.

(** The characters up to the closing quote. *)
Fixpoint unquote_fuel (fuel : nat) (s : bytes) : option (bytes * bytes) :=
  match fuel with
  | O => None
  | S fuel =>
      match s with
      | Byte.x22 :: t => Some ([], t)
      | _ =>
          match unquote_step s with
          | None => None
          | Some (c, t) =>
              match unquote_fuel fuel t with
              | Some (cs, t') => Some (c ++ cs, t')
              | None => None
              end
          end
      end
  end.

Definition unquote (s : bytes) : option (bytes * bytes) := unquote_fuel (S (length s)) s.

(** ** Values *)

Fixpoint join (sep : bytes) (l : list bytes) : bytes :=
  match l with
  | [] => []
  | [x] => x
  | x :: l' => x ++ sep ++ join sep l'
  end.

Definition comma : bytes := [Byte.x2c].

Fixpoint print (j : json) : bytes :=
  match j with
  | JNull => bytes_of_string "null"
  | JBool true => bytes_of_string "true"
  | JBool false => bytes_of_string "false"
  | JNum z => bytes_of_string (fmt_d z)
  | JStr s => quote s
  | JArr l => Byte.x5b :: join comma (map print l) ++ [Byte.x5d]
  | JObj l =>
      Byte.x7b :: join comma (map (λ '(k, v), quote k ++ Byte.x3a :: print v) l) ++ [Byte.x7d]
  end.

Definition is_ws (b : Init.Byte.byte) : bool :=
  match b with
  | Byte.x20 | Byte.x09 | Byte.x0a | Byte.x0d => true
  | _ => false
  end.

Fixpoint skip_ws (s : bytes) : bytes :=
  match s with
  | b :: s' => if is_ws b then skip_ws s' else s
  | [] => []
  end.

Definition is_num_char (b : Init.Byte.byte) : bool :=
  match b with
  | Byte.x2d | Byte.x2b | Byte.x2e | Byte.x65 | Byte.x45 => true
  | _ => in_range 0x30 0x39 b
  end.

Fixpoint span_num (s : bytes) : bytes * bytes :=
  match s with
  | b :: s' =>
      if is_num_char b then let '(n, t) := span_num s' in (b :: n, t) else ([], s)
  | [] => ([], [])
  end.

Definition strip_prefix (p s : bytes) : option bytes :=
  if bool_decide (take (length p) s = p) then Some (drop (length p) s) else None.

Fixpoint parse_value (fuel : nat) (s : bytes) : option (json * bytes) :=
  match fuel with
  | O => None
  | S fuel =>
      match skip_ws s with
      | [] => None
      | Byte.x22 :: t =>
          match unquote t with Some (x, t') => Some (JStr x, t') | None => None end
      | Byte.x5b :: t =>
          match skip_ws t with
          | Byte.x5d :: t' => Some (JArr [], t')
          | _ =>
              match parse_elems fuel t with
              | Some (l, t') => Some (JArr l, t')
              | None => None
              end
          end
      | Byte.x7b :: t =>
          match skip_ws t with
          | Byte.x7d :: t' => Some (JObj [], t')
          | _ =>
              match parse_members fuel t with
              | Some (l, t') => Some (JObj l, t')
              | None => None
              end
          end
      | s' =>
          match strip_prefix (bytes_of_string "null") s' with
          | Some t => Some (JNull, t)
          | None =>
          match strip_prefix (bytes_of_string "true") s' with
          | Some t => Some (JBool true, t)
          | None =>
          match strip_prefix (bytes_of_string "false") s' with
          | Some t => Some (JBool false, t)
          | None =>
              let '(n, t) := span_num s' in
              match scan_d (string_of_bytes n) with
              | Some z => Some (JNum z, t)
              | None => None
              end
          end end end
      end
  end
with parse_elems (fuel : nat) (s : bytes) : option (list json * bytes) :=
  match fuel with
  | O => None
  | S fuel =>
      match parse_value fuel s with
      | None => None
      | Some (v, t) =>
          match skip_ws t with
          | Byte.x2c :: t' =>
              match parse_elems fuel t' with
              | Some (l, t'') => Some (v :: l, t'')
              | None => None
              end
          | Byte.x5d :: t' => Some ([v], t')
          | _ => None
          end
      end
  end
with parse_members (fuel : nat) (s : bytes) : option (list (bytes * json) * bytes) :=
  match fuel with
  | O => None
  | S fuel =>
      match skip_ws s with
      | Byte.x22 :: t0 =>
          match unquote t0 with
          | None => None
          | Some (k, t1) =>
              match skip_ws t1 with
              | Byte.x3a :: t2 =>
                  match parse_value fuel t2 with
                  | None => None
                  | Some (v, t) =>
                      match skip_ws t with
                      | Byte.x2c :: t' =>
                          match parse_members fuel t' with
                          | Some (l, t'') => Some ((k, v) :: l, t'')
                          | None => None
                          end
                      | Byte.x7d :: t' => Some ([(k, v)], t')
                      | _ => None
                      end
                  end
              | _ => None
              end
          end
      | _ => None
      end
  end.

(** A document: one value and nothing but white space after it.  Every
    recursive call consumes a byte, so the text's length is enough fuel; the
    factor covers the calls that delegate without consuming. *)
Definition parse (s : bytes) : option json :=
  match parse_value (3 * length s + 3) s with
  | Some (j, t) => match skip_ws t with [] => Some j | _ => None end
  | None => None
  end.

(** ** The round trip *)

(** Strings that survive the encoder unchanged. *)
Fixpoint json_valid (j : json) : bool :=
  match j with
  | JStr s => utf8_valid s
  | JArr l => forallb json_valid l
  | JObj l => forallb (λ '(k, v), utf8_valid k && json_valid v) l
  | _ => true
  end.

(** Calls the reader needs for a value; bounded by its printed length. *)
Fixpoint cost (j : json) : nat :=
  match j with
  | JArr l => S (sum_list (map (λ v, S (cost v)) l))
  | JObj l => S (sum_list (map (λ '(_, v), S (cost v)) l))
  | _ => 1
  end.

Lemma json_ind' (P : json → Prop) :
  P JNull → (∀ b, P (JBool b)) → (∀ z, P (JNum z)) → (∀ s, P (JStr s)) →
  (∀ l, Forall P l → P (JArr l)) →
  (∀ l, Forall (λ kv, P (snd kv)) l → P (JObj l)) →
  ∀ j, P j.
Proof.
  intros Hnull Hbool Hnum Hstr Harr Hobj. fix IH 1.
  intros [|b|z|s|l|l]; [done|done|done|done|..].
  - apply Harr. induction l as [|v l IHl]; constructor; [apply IH|apply IHl].
  - apply Hobj. induction l as [|[k v] l IHl]; constructor; [apply IH|apply IHl].
Qed.

Ltac byte_case b := destruct b; try reflexivity; try discriminate.

Lemma rune_len_le s : (rune_len s <= length s)%nat.
Proof. unfold rune_len. repeat case_match; simpl; lia. Qed.

(** Whether a rune is valid depends on its own bytes only. *)
Lemma rune_len_local s r n :
  rune_len s = S n → rune_len (take (S n) s ++ r) = S n.
Proof.
  destruct s as [|a s]; [done|]. unfold rune_len at 1.
  destruct (bval a <? 128) eqn:Ea.
  { intros [= <-]. simpl. by rewrite Ea. }
  destruct s as [|b s]; [done|]. destruct (in_range 194 223 a) eqn:Ea2.
  { case_match; [|done]. intros [= <-]. simpl. by rewrite Ea, Ea2, H. }
  destruct s as [|c s]; [done|]. destruct (in_range 224 239 a) eqn:Ea3.
  { cbv zeta. case_match; [|done]. intros [= <-]. simpl.
    by rewrite Ea, Ea2, Ea3, H. }
  destruct s as [|d s]; [done|]. destruct (in_range 240 244 a) eqn:Ea4; [|done].
  cbv zeta. case_match; [|done]. intros [= <-]. simpl.
  by rewrite Ea, Ea2, Ea3, Ea4, H.
Qed.

Lemma unquote_step_ascii b r :
  bval b <? 0x80 = true → unquote_step (escape_ascii b ++ r) = Some ([b], r).
Proof. byte_case b. Qed.

Lemma escape_ascii_noquote b r :
  ∃ x t, escape_ascii b ++ r = x :: t ∧ x ≠ Byte.x22.
Proof. destruct b; simpl; eexists _, _; (split; [reflexivity|discriminate]). Qed.

(** A copied rune starts with a byte of 0x80 or more. *)
Lemma rune_len_head s n :
  rune_len s = S (S n) → ∃ a t, s = a :: t ∧ bval a <? 0x80 = false.
Proof.
  destruct s as [|a s]; [done|]. unfold rune_len.
  destruct (bval a <? 128) eqn:E; [congruence|]. intros _. eauto.
Qed.

Lemma unquote_step_copy c r n :
  rune_len (c ++ r) = S (S n) → length c = S (S n) →
  unquote_step (c ++ r) = Some (c, r).
Proof.
  intros Hn Hl. destruct (rune_len_head _ _ Hn) as (a & t & Hc & Ha).
  unfold unquote_step. rewrite Hc. rewrite <- Hc, Hn, <- Hl.
  rewrite take_app_length, drop_app_length.
  byte_case a.
Qed.

Lemma escape_rune_cases c :
  (∃ b, c = [b] ∧ escape_rune c = escape_ascii b) ∨
  (c = [Byte.xe2; Byte.x80; Byte.xa8] ∧ escape_rune c = bytes_of_string "\u2028") ∨
  (c = [Byte.xe2; Byte.x80; Byte.xa9] ∧ escape_rune c = bytes_of_string "\u2029") ∨
  (length c ≠ 1%nat ∧ escape_rune c = c).
Proof.
  destruct c as [|a [|b [|x [|? ?]]]]; [by right; right; right|left; exists a; split; [done|by destruct a]|..].
  - right; right; right. split; [done|]. destruct a; try reflexivity. by destruct b.
  - destruct (decide (a = Byte.xe2)) as [->|]; [|right; right; right; split; [done|]; by destruct a].
    destruct (decide (b = Byte.x80)) as [->|]; [|right; right; right; split; [done|]; by destruct b].
    destruct (decide (x = Byte.xa8)) as [->|]; [by right; left|].
    destruct (decide (x = Byte.xa9)) as [->|]; [by right; right; left|].
    right; right; right. split; [done|]. by destruct x.
  - right; right; right. split; [done|].
    destruct a; try reflexivity. destruct b; try reflexivity. by destruct x.
Qed.

Lemma unquote_step_rune s n r :
  rune_len s = S n →
  unquote_step (escape_rune (take (S n) s) ++ r) = Some (take (S n) s, r) ∧
  ∃ x t, escape_rune (take (S n) s) ++ r = x :: t ∧ x ≠ Byte.x22.
Proof.
  intros Hn. pose proof (rune_len_local s r n Hn) as Hloc.
  pose proof (rune_len_le s) as Hle. rewrite Hn in Hle.
  assert (length (take (S n) s) = S n) as Hlen by (rewrite length_take; lia).
  set (c := take (S n) s) in *. clearbody c.
  destruct (escape_rune_cases c) as [(b & -> & ->)|[[-> ->]|[[-> ->]|[H1 ->]]]].
  - split; [|apply escape_ascii_noquote].
    apply unquote_step_ascii. simpl in Hlen. injection Hlen as <-.
    unfold rune_len in Hloc. cbn in Hloc.
    destruct (bval b <? 128); [done|].
    repeat case_match; discriminate.
  - split; [reflexivity|]. eexists _, _. split; [reflexivity|discriminate].
  - split; [reflexivity|]. eexists _, _. split; [reflexivity|discriminate].
  - destruct n as [|n].
    + done.
    + split; [by eapply unquote_step_copy|].
      destruct (rune_len_head _ _ Hloc) as (a & t & -> & Ha).
      eexists _, _. split; [reflexivity|]. intros ->. discriminate.
Qed.

(** A string literal reads back as its string. *)
Lemma unquote_escape fuel f2 s r :
  utf8_valid_fuel fuel s = true → (length s < f2)%nat →
  unquote_fuel f2 (escape_fuel fuel s ++ Byte.x22 :: r) = Some (s, r).
Proof.
  revert f2 s. induction fuel as [|fuel IH]; intros [|f2] s Hv Hf; try lia.
  - destruct s; [done|discriminate].
  - destruct s as [|b s]; [done|]. cbn [escape_fuel utf8_valid_fuel] in *.
    set (s0 := b :: s) in *.
    destruct (rune_len s0) as [|n] eqn:Hn; [done|].
    pose proof (rune_len_le s0) as Hle.
    rewrite <- app_assoc.
    destruct (unquote_step_rune s0 n (escape_fuel fuel (drop (S n) s0) ++ Byte.x22 :: r) Hn)
      as [Hstep (x & t & Hx & Hx22)].
    cbn [unquote_fuel]. rewrite Hstep, Hx, IH.
    + rewrite take_drop. by destruct x.
    + done.
    + rewrite length_drop. lia.
Qed.

Lemma escape_rune_length c : (length c <= length (escape_rune c))%nat.
Proof.
  destruct (escape_rune_cases c) as [(b & -> & ->)|[[-> ->]|[[-> ->]|[_ ->]]]]; simpl; try lia.
  destruct b; simpl; lia.
Qed.

Lemma escape_length fuel s :
  utf8_valid_fuel fuel s = true → (length s <= length (escape_fuel fuel s))%nat.
Proof.
  revert s. induction fuel as [|fuel IH]; intros [|b s] Hv; cbn [escape_fuel utf8_valid_fuel] in *;
    [simpl; lia|discriminate|simpl; lia|].
  set (s0 := b :: s) in *.
  destruct (rune_len s0) as [|n]; [done|].
  specialize (IH _ Hv). rewrite length_app.
  pose proof (escape_rune_length (take (S n) s0)).
  rewrite <- (take_drop (S n) s0) at 1. rewrite length_app. lia.
Qed.

Lemma unquote_quote s r :
  utf8_valid s = true → ∃ t, quote s ++ r = Byte.x22 :: t ∧ unquote t = Some (s, r).
Proof.
  intros Hv. exists (escape_fuel (length s) s ++ Byte.x22 :: r). split.
  { unfold quote. cbn [app]. by rewrite <- app_assoc. }
  apply unquote_escape; [done|].
  pose proof (escape_length _ _ Hv).
  rewrite length_app. cbn [length app]. lia.
Qed.

(** ** Values *)

(** What may follow a number: anything but another of its characters. *)
Definition stops (r : bytes) : Prop :=
  match r with
  | [] => True
  | b :: _ => is_num_char b = false
  end.

Lemma uint_num_chars d :
  Forall (λ b, is_num_char b = true) (bytes_of_string (NilEmpty.string_of_uint d)).
Proof. induction d; simpl; [constructor|..]; (constructor; [reflexivity|done]). Qed.

Lemma nz_uint_num d :
  Forall (λ b, is_num_char b = true) (bytes_of_string (NilZero.string_of_uint d)) ∧
  ∃ b t, bytes_of_string (NilZero.string_of_uint d) = b :: t ∧ in_range 0x30 0x39 b = true.
Proof.
  destruct d; simpl; (split; [repeat constructor; apply uint_num_chars|]);
    eexists _, _; (split; [reflexivity|reflexivity]).
Qed.

Lemma fmt_d_num z :
  Forall (λ b, is_num_char b = true) (bytes_of_string (fmt_d z)) ∧
  ∃ b t, bytes_of_string (fmt_d z) = b :: t ∧ (b = Byte.x2d ∨ in_range 0x30 0x39 b = true).
Proof.
  unfold fmt_d. destruct (Z.to_int z) as [d|d]; simpl;
    destruct (nz_uint_num d) as [Hall (b & t & Hb & Hr)].
  - split; [done|]. eauto 6.
  - split; [by constructor|]. eexists _, _. split; [reflexivity|by left].
Qed.

Lemma span_num_app n r :
  Forall (λ b, is_num_char b = true) n → stops r → span_num (n ++ r) = (n, r).
Proof.
  intros Hn Hr. induction Hn as [|b n Hb _ IH]; simpl.
  - destruct r as [|b r]; simpl in *; [done|]. by rewrite Hr.
  - by rewrite Hb, IH.
Qed.

Lemma print_head j :
  ∃ b t, print j = b :: t ∧ is_ws b = false ∧ b ≠ Byte.x5d ∧ b ≠ Byte.x7d.
Proof.
  destruct j as [| [] | z | s | l | l]; simpl;
    try (eexists _, _; split; [reflexivity|done]).
  destruct (fmt_d_num z) as [_ (b & t & -> & Hb)].
  eexists _, _. split; [reflexivity|].
  destruct Hb as [-> |Hb]; [done|]. byte_case b; done.
Qed.

Lemma parse_num fuel z r :
  stops r → parse_value (S fuel) (bytes_of_string (fmt_d z) ++ r) = Some (JNum z, r).
Proof.
  intros Hr. destruct (fmt_d_num z) as [Hall (b & t & Hb & Hd)].
  assert (span_num (b :: (t ++ r)) = (b :: t, r)) as Hspan.
  { rewrite <- (span_num_app (b :: t) r); [done| |done]. by rewrite <- Hb. }
  assert (scan_d (string_of_bytes (b :: t)) = Some z) as Hscan.
  { rewrite <- Hb, string_of_bytes_of_string. apply scan_fmt_d. }
  rewrite Hb. cbn [app]. remember (span_num (b :: (t ++ r))) as sp eqn:Esp.
  destruct Hd as [-> |Hd];
    [|destruct b; try discriminate Hd];
    cbn -[span_num]; unfold strip_prefix; cbn -[span_num];
    rewrite !bool_decide_eq_false_2 by discriminate; by rewrite <- Esp, Hspan, Hscan.
Qed.

Definition reads (j : json) : Prop :=
  ∀ fuel r, (cost j <= fuel)%nat → stops r → parse_value fuel (print j ++ r) = Some (j, r).

Lemma skip_ws_cons b t : is_ws b = false → skip_ws (b :: t) = b :: t.
Proof. intros H. simpl. by rewrite H. Qed.

Lemma parse_elems_join l fuel r :
  l ≠ [] → Forall reads l → (sum_list (map (λ v, S (cost v)) l) <= fuel)%nat →
  parse_elems fuel (join comma (map print l) ++ Byte.x5d :: r) = Some (l, r).
Proof.
  intros Hne Hl. revert fuel. induction Hl as [|v l Hv Hl IH]; [done|].
  intros [|fuel] Hf; simpl in Hf; [lia|].
  destruct l as [|v' l].
  - cbn [map join parse_elems]. rewrite Hv; [done|simpl in Hf; lia|done].
  - cbn [map join parse_elems]. rewrite <- !app_assoc.
    rewrite Hv; [|lia|done]. cbn [comma app]. rewrite skip_ws_cons by done.
    rewrite IH; [done|done|lia].
Qed.

Definition print_member : bytes * json → bytes :=
  λ '(k, v), quote k ++ Byte.x3a :: print v.

Lemma parse_members_join l fuel r :
  l ≠ [] → Forall (λ '(k, v), utf8_valid k = true ∧ reads v) l →
  (sum_list (map (λ '(_, v), S (cost v)) l) <= fuel)%nat →
  parse_members fuel (join comma (map print_member l) ++ Byte.x7d :: r) = Some (l, r).
Proof.
  intros Hne Hl. revert fuel. induction Hl as [|[k v] l [Hk Hv] Hl IH]; [done|].
  intros [|fuel] Hf; simpl in Hf; [lia|].
  assert (∀ q, stops q → ∃ t, print_member (k, v) ++ q = Byte.x22 :: t ∧
    unquote t = Some (k, Byte.x3a :: print v ++ q)) as Hm.
  { intros q Hq. unfold print_member. rewrite <- app_assoc. by apply unquote_quote. }
  destruct l as [|kv' l].
  - cbn [map join parse_members]. destruct (Hm (Byte.x7d :: r)) as (t & -> & Ht); [done|].
    rewrite skip_ws_cons, Ht, skip_ws_cons by done.
    rewrite Hv; [done|simpl in Hf; lia|done].
  - cbn [map join parse_members].
    set (tl := join comma (map print_member (kv' :: l)) ++ Byte.x7d :: r).
    replace ((print_member (k, v) ++ comma ++ _) ++ _) with (print_member (k, v) ++ comma ++ tl)
      by (unfold tl; cbn [map join]; by rewrite <- !app_assoc).
    destruct (Hm (comma ++ tl)) as (t & -> & Ht); [done|].
    rewrite skip_ws_cons, Ht, skip_ws_cons by done.
    rewrite Hv; [|lia|done]. cbn [comma app]. rewrite skip_ws_cons by done.
    unfold tl. rewrite IH; [done|done|lia].
Qed.

Lemma parse_value_print j : json_valid j = true → reads j.
Proof.
  induction j as [| b | z | s | l IH | l IH] using json_ind';
    intros Hv [|fuel] r Hf Hr; simpl in Hf; try lia.
  - done.
  - by destruct b.
  - by apply parse_num.
  - destruct (unquote_quote s r Hv) as (t & Ht & Hu).
    cbn [print]. rewrite Ht. cbn [parse_value]. rewrite skip_ws_cons by done. by rewrite Hu.
  - assert (Forall reads l) as Hl.
    { simpl in Hv. clear Hf.
      induction IH as [|v l Hr' _ IHl]; constructor; simpl in *;
        apply andb_prop in Hv as [? ?]; [by apply Hr'|by apply IHl]. }
    cbn [print]. cbn [app]. rewrite <- app_assoc. cbn [app parse_value].
    rewrite skip_ws_cons by done. destruct l as [|v l]; [done|].
    rewrite parse_elems_join by (done || lia).
    destruct (print_head v) as (b & t & Hb & Hws & H5d & _).
    destruct l; cbn [map join]; rewrite Hb; cbn [app];
      rewrite skip_ws_cons by done; by destruct b.
  - assert (Forall (λ '(k, v), utf8_valid k = true ∧ reads v) l) as Hl.
    { simpl in Hv. clear Hf.
      induction IH as [|[k v] l Hr' _ IHl]; constructor; simpl in *;
        apply andb_prop in Hv as [Hkv Hv]; [|by apply IHl].
      apply andb_prop in Hkv as [? ?]. split; [done|by apply Hr']. }
    cbn [print]. cbn [app]. rewrite <- app_assoc. cbn [app parse_value].
    rewrite skip_ws_cons by done. destruct l as [|[k v] l]; [done|].
    fold print_member. rewrite parse_members_join by (done || lia).
    destruct l; cbn [map join]; done.
Qed.

Lemma join_length l :
  (sum_list (map length l) <= length (join comma l))%nat.
Proof.
  induction l as [|x [|y l] IH]; simpl in *; [lia|lia|].
  rewrite !length_app. simpl. lia.
Qed.

Lemma cost_length j : (cost j + 1 <= 2 * length (print j))%nat.
Proof.
  induction j as [| b | z | s | l IH | l IH] using json_ind'; cbn [cost print].
  - simpl. lia.
  - destruct b; simpl; lia.
  - destruct (fmt_d_num z) as [_ (b & t & -> & _)]. simpl. lia.
  - unfold quote. simpl. lia.
  - cbn [length]. rewrite length_app. cbn [length]. pose proof (join_length (map print l)) as Hj.
    enough (sum_list (map (λ v, S (cost v)) l) <= 2 * sum_list (map length (map print l)))%nat
      by lia.
    clear Hj. induction IH; simpl; lia.
  - fold print_member. cbn [length]. rewrite length_app. cbn [length].
    pose proof (join_length (map print_member l)) as Hj.
    enough (sum_list (map (λ '(_, v), S (cost v)) l)
      <= 2 * sum_list (map length (map print_member l)))%nat by lia.
    clear Hj. induction IH as [|[k v] l Hv _ IHl]; simpl in *; [lia|].
    rewrite length_app. simpl. lia.
Qed.

(** Printing then parsing is the identity on values with UTF-8 strings. *)
Lemma parse_print j : json_valid j = true → parse (print j) = Some j.
Proof.
  intros Hv. unfold parse.
  pose proof (parse_value_print j Hv (3 * length (print j) + 3)%nat []) as H.
  rewrite app_nil_r in H. rewrite H; [done| |done].
  pose proof (cost_length j). lia.
Qed.

(** Every document starts with the first byte of its value: an object with
    a brace. *)
Lemma print_obj_head l : ∃ t, print (JObj l) = Byte.x7b :: t.
Proof. eexists. reflexivity. Qed.

(** ** Base64, as [json.Marshal] writes a byte slice *)

Definition b64_char (z : Z) : Init.Byte.byte :=
  byte.of_Z (if z <? 26 then 0x41 + z
             else if z <? 52 then 0x61 + (z - 26)
             else if z <? 62 then 0x30 + (z - 52)
             else if z =? 62 then 0x2b else 0x2f).

Definition b64_val (b : Init.Byte.byte) : option Z :=
  if in_range 0x41 0x5a b then Some (bval b - 0x41)
  else if in_range 0x61 0x7a b then Some (bval b - 0x61 + 26)
  else if in_range 0x30 0x39 b then Some (bval b - 0x30 + 52)
  else match b with Byte.x2b => Some 62 | Byte.x2f => Some 63 | _ => None end.

Definition b64_3 (a b c : Init.Byte.byte) : bytes :=
  [b64_char (Z.shiftr (bval a) 2);
   b64_char (Z.land (bval a) 3 * 16 + Z.shiftr (bval b) 4);
   b64_char (Z.land (bval b) 15 * 4 + Z.shiftr (bval c) 6);
   b64_char (Z.land (bval c) 63)].

Definition b64_pad : Init.Byte.byte := Byte.x3d.

Fixpoint b64_encode (s : bytes) : bytes :=
  match s with
  | a :: b :: c :: s' => b64_3 a b c ++ b64_encode s'
  | [a; b] => take 3 (b64_3 a b Byte.x00) ++ [b64_pad]
  | [a] => take 2 (b64_3 a Byte.x00 Byte.x00) ++ [b64_pad; b64_pad]
  | [] => []
  end.

Fixpoint b64_decode (s : bytes) : option bytes :=
  match s with
  | [] => Some []
  | a :: b :: c :: d :: s' =>
      match b64_val a, b64_val b with
      | Some a, Some b =>
          let x := byte.of_Z (a * 4 + Z.shiftr b 4) in
          match b64_val c, b64_val d with
          | Some c, Some d =>
              let y := byte.of_Z (Z.land b 15 * 16 + Z.shiftr c 2) in
              let z := byte.of_Z (Z.land c 3 * 64 + d) in
              match b64_decode s' with Some t => Some (x :: y :: z :: t) | None => None end
          | Some c, None =>
              if bool_decide (d = b64_pad ∧ s' = []) then
                Some [x; byte.of_Z (Z.land b 15 * 16 + Z.shiftr c 2)]
              else None
          | None, _ => if bool_decide (c = b64_pad ∧ d = b64_pad ∧ s' = []) then Some [x] else None
          end
      | _, _ => None
      end
  | _ => None
  end.

Lemma b64_val_char z : 0 <= z < 64 → b64_val (b64_char z) = Some z.
Proof.
  intros H. assert (In z (seqZ 0 64)) as Hin by (apply list_elem_of_In, elem_of_seqZ; lia).
  assert (forallb (λ z, bool_decide (b64_val (b64_char z) = Some z)) (seqZ 0 64) = true) as Hall
    by (vm_compute; reflexivity).
  rewrite forallb_forall in Hall. by apply Hall, bool_decide_eq_true in Hin.
Qed.

Lemma bval_range b : 0 <= bval b < 256.
Proof. apply byte.unsigned_range. Qed.

Lemma of_bval b z : z = bval b → byte.of_Z z = b.
Proof. intros ->. apply byte.of_Z_unsigned. Qed.

(** Shifts and masks by constants, as division and remainder, to [lia]. *)
Ltac b64_arith :=
  change 3 with (Z.ones 2) in *; change 15 with (Z.ones 4) in *; change 63 with (Z.ones 6) in *;
  rewrite ?Z.land_ones, ?Z.shiftr_div_pow2 by lia;
  repeat match goal with b : Init.Byte.byte |- _ =>
    lazymatch goal with
    | H : 0 <= bval b < 256 |- _ => fail
    | _ => pose proof (bval_range b)
    end
  end;
  Z.to_euclidean_division_equations; lia.

Lemma b64_decode_3 a b c s t :
  b64_decode s = Some t → b64_decode (b64_3 a b c ++ s) = Some (a :: b :: c :: t).
Proof.
  intros Ht. unfold b64_3. cbn [app b64_decode].
  rewrite !b64_val_char by b64_arith. rewrite Ht.
  repeat f_equal; apply of_bval; b64_arith.
Qed.

(** Induction three elements at a time. *)
Lemma list_ind3 {A} (P : list A → Prop) :
  P [] → (∀ a, P [a]) → (∀ a b, P [a; b]) →
  (∀ a b c l, P l → P (a :: b :: c :: l)) → ∀ l, P l.
Proof.
  intros H0 H1 H2 H3. fix IH 1.
  intros [|a [|b [|c l]]]; [done|done|done|]. apply H3, IH.
Qed.

Lemma b64_roundtrip s : b64_decode (b64_encode s) = Some s.
Proof.
  induction s as [|a|a b|a b c s IH] using list_ind3.
  - done.
  - cbn [b64_encode b64_3 take app b64_decode].
    change (bval Byte.x00) with 0. rewrite !b64_val_char by b64_arith.
    change (b64_val b64_pad) with (@None Z). cbv iota. rewrite bool_decide_eq_true_2 by done.
    repeat f_equal; apply of_bval; b64_arith.
  - cbn [b64_encode b64_3 take app b64_decode].
    change (bval Byte.x00) with 0. rewrite !b64_val_char by b64_arith.
    change (b64_val b64_pad) with (@None Z). cbv iota. rewrite bool_decide_eq_true_2 by done.
    repeat f_equal; apply of_bval; b64_arith.
  - cbn [b64_encode]. by apply b64_decode_3.
Qed.

Lemma b64_char_ascii z : 0 <= z < 64 → bval (b64_char z) <? 0x80 = true.
Proof.
  intros H. pose proof (b64_val_char z H) as Hv. destruct (b64_char z); try reflexivity; discriminate.
Qed.

Lemma b64_encode_ascii s : Forall (λ b, bval b <? 0x80 = true) (b64_encode s).
Proof.
  induction s as [|a|a b|a b c s IH] using list_ind3; cbn [b64_encode b64_3 take app];
    change (bval Byte.x00) with 0;
    repeat (constructor; [first [apply b64_char_ascii; b64_arith | reflexivity]|]); done.
Qed.

Lemma utf8_valid_ascii_fuel fuel s :
  Forall (λ b, bval b <? 0x80 = true) s → (length s <= fuel)%nat → utf8_valid_fuel fuel s = true.
Proof.
  intros Hs. revert fuel. induction Hs as [|b s Hb Hs IH]; intros [|fuel] Hf; simpl in *;
    try done; try lia.
  rewrite Hb. simpl. rewrite drop_0. apply IH. lia.
Qed.

Lemma utf8_valid_ascii s : Forall (λ b, bval b <? 0x80 = true) s → utf8_valid s = true.
Proof. intros. by apply utf8_valid_ascii_fuel. Qed.

(** ** Structs: reading a field of an object *)

(** The last member of the name wins, as in [encoding/json]. *)
Definition jfield (k : string) (l : list (bytes * json)) : option json :=
  snd <$> last (filter (λ kv, kv.1 = bytes_of_string k) l).

(** A field of Go type [string], [intN], [bool], [[]byte]; a missing member or
    [null] leaves the zero value, another type is an error. *)
Definition get_str (k : string) (l : list (bytes * json)) : option string :=
  match jfield k l with
  | None | Some JNull => Some EmptyString
  | Some (JStr s) => Some (string_of_bytes s)
  | _ => None
  end.

Definition get_int (lo hi : Z) (k : string) (l : list (bytes * json)) : option Z :=
  match jfield k l with
  | None | Some JNull => Some 0
  | Some (JNum z) => if (lo <=? z) && (z <=? hi) then Some z else None
  | _ => None
  end.

Definition get_bool (k : string) (l : list (bytes * json)) : option bool :=
  match jfield k l with
  | None | Some JNull => Some false
  | Some (JBool b) => Some b
  | _ => None
  end.

Definition get_bytes (k : string) (l : list (bytes * json)) : option bytes :=
  match jfield k l with
  | None | Some JNull => Some []
  | Some (JStr s) => b64_decode s
  | _ => None
  end.

(** [map[string]string]: a [null] member is the empty string, and of two
    members with one key the later stays. *)
Fixpoint strings_of_members (l : list (bytes * json)) : option (list (string * string)) :=
  match l with
  | [] => Some []
  | (k, JStr v) :: l' =>
      match strings_of_members l' with
      | Some m => Some ((string_of_bytes k, string_of_bytes v) :: m)
      | None => None
      end
  | (k, JNull) :: l' =>
      match strings_of_members l' with
      | Some m => Some ((string_of_bytes k, EmptyString) :: m)
      | None => None
      end
  | _ => None
  end.

Definition smap_of_members (l : list (bytes * json)) : option (gmap string string) :=
  match strings_of_members l with
  | Some m => Some (list_to_map (reverse m))
  | None => None
  end.

Definition get_smap (k : string) (l : list (bytes * json)) : option (gmap string string) :=
  match jfield k l with
  | None | Some JNull => Some ∅
  | Some (JObj m) => smap_of_members m
  | _ => None
  end.

(** A [*int64]. *)
Definition get_opt_int (lo hi : Z) (k : string) (l : list (bytes * json)) : option (option Z) :=
  match jfield k l with
  | None | Some JNull => Some None
  | Some (JNum z) => if (lo <=? z) && (z <=? hi) then Some (Some z) else None
  | _ => None
  end.

(** Writing a field; the [omitempty] forms drop the zero value. *)
Definition put (k : string) (v : json) : list (bytes * json) := [(bytes_of_string k, v)].

Definition put_omit (empty : bool) (k : string) (v : json) : list (bytes * json) :=
  if empty then [] else put k v.

Definition jstr (s : string) : json := JStr (bytes_of_string s).

(** The members of a string map, sorted by key. *)
Definition key_le : relation (string * string) := λ a b, String.le a.1 b.1.

#[global] Instance key_le_dec a b : Decision (key_le a b) := decide (String.le a.1 b.1).

Definition jsmap (m : gmap string string) : json :=
  JObj ((λ kv, (bytes_of_string kv.1, jstr kv.2)) <$> merge_sort key_le (map_to_list m)).

(** Into a fresh struct: [null] leaves it as it is, every field absent. *)
Definition unmarshal_with {A} (f : list (bytes * json) → option A) (b : bytes) : option A :=
  match parse b with
  | Some (JObj l) => f l
  | Some JNull => f []
  | _ => None
  end.

Definition str_valid (s : string) : bool := utf8_valid (bytes_of_string s).

Lemma strings_of_members_fmap (l : list (string * string)) :
  strings_of_members ((λ kv, (bytes_of_string kv.1, jstr kv.2)) <$> l) = Some l.
Proof.
  induction l as [|[k v] l IH]; [done|]. rewrite fmap_cons. cbn [strings_of_members jstr fst snd].
  rewrite IH. by rewrite !string_of_bytes_of_string.
Qed.

Lemma smap_roundtrip m :
  smap_of_members ((λ kv, (bytes_of_string kv.1, jstr kv.2)) <$> merge_sort key_le (map_to_list m)) =
    Some m.
Proof.
  unfold smap_of_members. rewrite strings_of_members_fmap. f_equal.
  rewrite <- (list_to_map_to_list m) at 2. apply list_to_map_proper.
  - rewrite reverse_Permutation, merge_sort_Permutation. apply NoDup_fst_map_to_list.
  - by rewrite reverse_Permutation, merge_sort_Permutation.
Qed.

Lemma jsmap_valid m :
  map_Forall (λ k v, str_valid k = true ∧ str_valid v = true) m → json_valid (jsmap m) = true.
Proof.
  intros Hm. unfold jsmap. simpl. apply forallb_forall. intros [k v] Hin.
  apply list_elem_of_In in Hin. apply list_elem_of_fmap in Hin as ([k' v'] & [= -> ->] & Hin).
  rewrite merge_sort_Permutation, elem_of_map_to_list in Hin. destruct (Hm _ _ Hin) as [Hk Hv].
  unfold str_valid in *. simpl. by rewrite Hk, Hv.
Qed.

Lemma bytes_of_string_inj a b : bytes_of_string a = bytes_of_string b ↔ a = b.
Proof.
  split; [|by intros ->]. intros H. apply (f_equal string_of_bytes) in H.
  by rewrite !string_of_bytes_of_string in H.
Qed.

(** Looking a name up in the members a struct writes, one member at a time. *)
Lemma jfield_nil k : jfield k [] = None.
Proof. done. Qed.

Lemma jfield_put k k' v l :
  jfield k (put k' v ++ l) =
    match jfield k l with
    | Some x => Some x
    | None => if String.eqb k' k then Some v else None
    end.
Proof.
  unfold jfield, put. cbn [app]. rewrite filter_cons. cbn [fst].
  destruct (String.eqb_spec k' k) as [->|Hne].
  - rewrite decide_True by done.
    destruct (filter _ l) as [|x t] eqn:E; [done|].
    rewrite last_cons_cons. by destruct (last (x :: t)) eqn:El; [|by rewrite last_None in El].
  - rewrite decide_False by (rewrite bytes_of_string_inj; congruence).
    by destruct (snd <$> last (filter _ l)).
Qed.

Lemma jfield_omit e k k' v l :
  jfield k (put_omit e k' v ++ l) =
    match jfield k l with
    | Some x => Some x
    | None => if negb e && String.eqb k' k then Some v else None
    end.
Proof.
  destruct e; simpl; [by destruct (jfield k l)|]. apply jfield_put.
Qed.

Lemma get_int_eq lo hi k l (z : Z) (e : bool) :
  jfield k l = (if e then None else Some (JNum z)) → (e = true → z = 0) →
  lo <= z <= hi → get_int lo hi k l = Some z.
Proof.
  intros H He Hz. unfold get_int. rewrite H. destruct e; [by rewrite He|].
  by replace ((lo <=? z) && (z <=? hi)) with true by (symmetry; apply andb_true_intro; lia).
Qed.

Lemma get_str_eq k l (s : string) (e : bool) :
  jfield k l = (if e then None else Some (jstr s)) → (e = true → s = EmptyString) →
  get_str k l = Some s.
Proof.
  intros H He. unfold get_str. rewrite H. destruct e; [by rewrite He|].
  simpl. by rewrite string_of_bytes_of_string.
Qed.

Lemma get_bytes_eq k l (b : bytes) :
  jfield k l = Some (JStr (b64_encode b)) → get_bytes k l = Some b.
Proof. intros H. unfold get_bytes. rewrite H. apply b64_roundtrip. Qed.

Lemma get_smap_eq k l (m : gmap string string) (e : bool) :
  jfield k l = (if e then None else Some (jsmap m)) → (e = true → m = ∅) →
  get_smap k l = Some m.
Proof.
  intros H He. unfold get_smap. rewrite H. destruct e; [by rewrite He|].
  apply smap_roundtrip.
Qed.

Lemma get_opt_int_eq lo hi k l (o : option Z) :
  jfield k l = JNum <$> o → (∀ z, o = Some z → lo <= z <= hi) → get_opt_int lo hi k l = Some o.
Proof.
  intros H Ho. unfold get_opt_int. rewrite H. destruct o as [z|]; [|done]. simpl.
  specialize (Ho z eq_refl).
  by replace ((lo <=? z) && (z <=? hi)) with true by (symmetry; apply andb_true_intro; lia).
Qed.

(** A slice of structs; [null] is the nil slice, and a [null] element leaves
    the zero value. *)
Definition get_objs {A} (f : list (bytes * json) → option A) (k : string)
    (l : list (bytes * json)) : option (list A) :=
  match jfield k l with
  | None | Some JNull => Some []
  | Some (JArr js) =>
      mapM (λ j, match j with JObj m => f m | JNull => f [] | _ => None end) js
  | _ => None
  end.

Definition jobjs {A} (f : A → list (bytes * json)) (xs : list A) : json :=
  match xs with
  | [] => JNull
  | _ => JArr ((λ x, JObj (f x)) <$> xs)
  end.

Lemma get_objs_eq {A} (f : list (bytes * json) → option A) (g : A → list (bytes * json)) k l xs :
  jfield k l = Some (jobjs g xs) → Forall (λ x, f (g x) = Some x) xs → get_objs f k l = Some xs.
Proof.
  intros Hk Hf. unfold get_objs. rewrite Hk. destruct xs as [|x xs]; [done|]. unfold jobjs.
  apply mapM_Some_2. apply Forall2_fmap_l. revert Hf. generalize (x :: xs) as ys.
  induction 1 as [|y ys Hy _ IH]; constructor; done.
Qed.

Lemma jobjs_valid {A} (g : A → list (bytes * json)) xs :
  Forall (λ x, json_valid (JObj (g x)) = true) xs → json_valid (jobjs g xs) = true.
Proof.
  destruct xs as [|x xs]; [done|]. intros Hf. unfold jobjs. cbn [json_valid].
  revert Hf. generalize (x :: xs) as ys. induction 1 as [|y ys Hy _ IH]; [done|].
  cbn [fmap list_fmap forallb]. by rewrite Hy.
Qed.

Lemma get_bool_eq k l (b e : bool) :
  jfield k l = (if e then None else Some (JBool b)) → (e = true → b = false) →
  get_bool k l = Some b.
Proof. intros H He. unfold get_bool. rewrite H. destruct e; [by rewrite He|done]. Qed.

(** Evaluate [jfield] at a literal name over a struct's members. *)
Ltac jfield_eval :=
  repeat first [rewrite jfield_put | rewrite jfield_omit | rewrite jfield_nil];
  cbn [String.eqb Ascii.eqb Bool.eqb andb negb];
  rewrite ?andb_true_r, ?andb_false_r; cbv iota.

(** The three obligations of a field: what the member holds, that it is
    omitted only at the zero value, and its range. *)
Ltac jfield_solve :=
  first
    [ done
    | lia
    | by jfield_eval
    | jfield_eval; by case_bool_decide
    | jfield_eval; by match goal with |- context [?z =? 0] => destruct (z =? 0) end
    | intros; z_bool; lia
    | intros; z_bool; done ].

(** The document of an object reads back as the reader applied to its members. *)
Lemma unmarshal_with_print {A} (f : list (bytes * json) → option A) l :
  json_valid (JObj l) = true → unmarshal_with f (print (JObj l)) = f l.
Proof. intros H. unfold unmarshal_with. by rewrite parse_print. Qed.

Lemma unmarshal_with_inv {A} (f : list (bytes * json) → option A) b x :
  unmarshal_with f b = Some x → ∃ l, f l = Some x.
Proof. unfold unmarshal_with. destruct (parse b) as [[]|]; try done; by eauto. Qed.

Lemma members_valid_put k v l :
  json_valid (JObj (put k v ++ l)) = str_valid k && json_valid v && json_valid (JObj l).
Proof. done. Qed.

Lemma members_valid_omit e k v l :
  json_valid (JObj (put_omit e k v ++ l)) =
    (e || (str_valid k && json_valid v)) && json_valid (JObj l).
Proof. by destruct e. Qed.
