(* ===== verification/JsonIndent.v ===== *)
(** * [json.MarshalIndent] with the prefix of two blanks a level

    The printer of the documents written for people, and the proof that the
    reader of [Json] takes them: white space between the tokens is skipped. *)

From S2P Require Import Prelude GoLib Json.

Local Open Scope Z_scope.

Definition newline (d : nat) : bytes := Byte.x0a :: replicate (2 * d) Byte.x20.

Fixpoint print_indent (d : nat) (j : json) : bytes :=
  match j with
  | JArr ((_ :: _) as l) =>
      Byte.x5b :: newline (S d) ++ join (comma ++ newline (S d)) (map (print_indent (S d)) l) ++
      newline d ++ [Byte.x5d]
  | JObj ((_ :: _) as l) =>
      Byte.x7b :: newline (S d) ++
      join (comma ++ newline (S d)) (map (λ '(k, v), quote k ++ [Byte.x3a; Byte.x20] ++ print_indent (S d) v) l) ++
      newline d ++ [Byte.x7d]
  | j => print j
  end.

Definition MarshalIndent (j : json) : bytes := print_indent 0 j.

Definition blank (w : bytes) : Prop := Forall (λ b, is_ws b = true) w.

Lemma newline_blank d : blank (newline d).
Proof. constructor; [done|]. by apply Forall_replicate. Qed.

Lemma newline_stops d r : stops (newline d ++ r).
Proof. done. Qed.

Lemma skip_ws_blank w s : blank w → skip_ws (w ++ s) = skip_ws s.
Proof. induction 1 as [|b w Hb _ IH]; [done|]. simpl. by rewrite Hb. Qed.

Lemma parse_value_blank fuel w s : blank w → parse_value fuel (w ++ s) = parse_value fuel s.
Proof. intros Hw. destruct fuel as [|fuel]; [done|]. cbn [parse_value]. by rewrite skip_ws_blank. Qed.

Lemma parse_members_blank fuel w s : blank w → parse_members fuel (w ++ s) = parse_members fuel s.
Proof. intros Hw. destruct fuel as [|fuel]; [done|]. cbn [parse_members]. by rewrite skip_ws_blank. Qed.

Lemma parse_elems_blank fuel w s : blank w → parse_elems fuel (w ++ s) = parse_elems fuel s.
Proof. intros Hw. destruct fuel as [|fuel]; [done|]. cbn [parse_elems]. by rewrite parse_value_blank. Qed.

Definition reads_indented (d : nat) (j : json) : Prop :=
  ∀ fuel r, (cost j <= fuel)%nat → stops r → parse_value fuel (print_indent d j ++ r) = Some (j, r).

Lemma parse_elems_indented d e l fuel r :
  l ≠ [] → Forall (reads_indented d) l → (sum_list (map (λ v, S (cost v)) l) <= fuel)%nat →
  parse_elems fuel (join (comma ++ newline d) (map (print_indent d) l) ++ newline e ++ Byte.x5d :: r) = Some (l, r).
Proof.
  intros Hne Hl. revert fuel. induction Hl as [|v l Hv Hl IH]; [done|].
  intros [|fuel] Hf; simpl in Hf; [lia|].
  destruct l as [|v' l].
  - cbn [map join parse_elems]. rewrite Hv; [|simpl in Hf; lia|done].
    by rewrite skip_ws_blank by apply newline_blank.
  - cbn [map join parse_elems]. rewrite <- !app_assoc. rewrite Hv; [|lia|done].
    cbn [comma app]. rewrite skip_ws_cons by done. rewrite parse_elems_blank by apply newline_blank.
    change (print_indent d v' :: map (print_indent d) l) with (map (print_indent d) (v' :: l)).
    rewrite IH; [done|done|lia].
Qed.

Definition indented_member (d : nat) : bytes * json → bytes :=
  λ '(k, v), quote k ++ [Byte.x3a; Byte.x20] ++ print_indent d v.

Lemma parse_members_indented d e l fuel r :
  l ≠ [] → Forall (λ '(k, v), utf8_valid k = true ∧ reads_indented d v) l →
  (sum_list (map (λ '(_, v), S (cost v)) l) <= fuel)%nat →
  parse_members fuel (join (comma ++ newline d) (map (indented_member d) l) ++ newline e ++ Byte.x7d :: r) =
    Some (l, r).
Proof.
  intros Hne Hl. revert fuel. induction Hl as [|[k v] l [Hk Hv] Hl IH]; [done|].
  intros [|fuel] Hf; simpl in Hf; [lia|].
  assert (∀ q, stops q → ∃ t, indented_member d (k, v) ++ q = Byte.x22 :: t ∧
    unquote t = Some (k, [Byte.x3a; Byte.x20] ++ print_indent d v ++ q)) as Hm.
  { intros q Hq. unfold indented_member. rewrite <- !app_assoc. by apply unquote_quote. }
  assert (∀ s, parse_value fuel (Byte.x20 :: s) = parse_value fuel s) as Hsp.
  { intros s. apply (parse_value_blank fuel [Byte.x20]). by repeat constructor. }
  destruct l as [|kv' l].
  - cbn [map join parse_members]. destruct (Hm (newline e ++ Byte.x7d :: r)) as (t & -> & Ht); [done|].
    rewrite skip_ws_cons, Ht by done. cbn [app]. rewrite skip_ws_cons by done. rewrite Hsp.
    rewrite Hv; [|simpl in Hf; lia|done].
    by rewrite skip_ws_blank by apply newline_blank.
  - cbn [map join parse_members].
    set (tl := join (comma ++ newline d) (map (indented_member d) (kv' :: l)) ++ newline e ++ Byte.x7d :: r).
    replace ((indented_member d (k, v) ++ (comma ++ newline d) ++ _) ++ _)
      with (indented_member d (k, v) ++ comma ++ newline d ++ tl)
      by (unfold tl; cbn [map join]; by rewrite <- !app_assoc).
    destruct (Hm (comma ++ newline d ++ tl)) as (t & -> & Ht); [done|].
    rewrite skip_ws_cons, Ht by done. cbn [app]. rewrite skip_ws_cons by done. rewrite Hsp.
    rewrite Hv; [|lia|done]. cbn [comma app]. rewrite skip_ws_cons by done.
    rewrite parse_members_blank by apply newline_blank. unfold tl. rewrite IH; [done|done|lia].
Qed.

Lemma reads_indented_plain d j : json_valid j = true → print_indent d j = print j → reads_indented d j.
Proof. intros Hv Hp fuel r. rewrite Hp. by apply parse_value_print. Qed.

Lemma parse_value_indented d j : json_valid j = true → reads_indented d j.
Proof.
  revert d. induction j as [| b | z | s | l IH | l IH] using json_ind'; intros d Hv.
  1-4: by apply reads_indented_plain.
  - destruct l as [|v l]; [by apply reads_indented_plain|]. intros [|fuel] r Hf Hr; simpl in Hf; [lia|].
    assert (Forall (reads_indented (S d)) (v :: l)) as Hl.
    { apply List.Forall_forall. intros x Hx. rewrite List.Forall_forall in IH. apply (IH x Hx).
      cbn [json_valid] in Hv. rewrite forallb_forall in Hv. by apply Hv. }
    cbn [print_indent app parse_value]. rewrite skip_ws_cons by done.
    rewrite <- !app_assoc. rewrite skip_ws_blank by apply newline_blank.
    change ([Byte.x5d] ++ r) with (Byte.x5d :: r).
    rewrite parse_elems_blank by apply newline_blank.
    rewrite (parse_elems_indented (S d) d (v :: l));
      [|discriminate|exact Hl|simpl; lia].
    assert (∃ b t, print_indent (S d) v = b :: t ∧ is_ws b = false ∧ b ≠ Byte.x5d) as (b & t & Hb & Hws & H5d).
    { destruct (print_head v) as (b & t & Hb & Hws & H5d & _).
      destruct v as [| | | |[|]|[|]]; try (by exists b, t); by eexists _, _. }
    destruct l; cbn [map join]; rewrite Hb; cbn [app]; rewrite skip_ws_cons by done; by destruct b.
  - destruct l as [|kv l]; [by apply reads_indented_plain|]. intros [|fuel] r Hf Hr; simpl in Hf; [lia|].
    assert (Forall (λ '(k, v), utf8_valid k = true ∧ reads_indented (S d) v) (kv :: l)) as Hl.
    { apply List.Forall_forall. intros [k v] Hx. rewrite List.Forall_forall in IH. cbn [json_valid] in Hv.
      rewrite forallb_forall in Hv. specialize (Hv _ Hx). cbn in Hv. apply andb_prop in Hv as [? Hv].
      split; [done|]. by apply (IH _ Hx). }
    cbn [print_indent app parse_value]. rewrite skip_ws_cons by done.
    rewrite <- !app_assoc. rewrite skip_ws_blank by apply newline_blank.
    change ([Byte.x7d] ++ r) with (Byte.x7d :: r). fold (indented_member (S d)).
    rewrite parse_members_blank by apply newline_blank.
    rewrite (parse_members_indented (S d) d (kv :: l));
      [|discriminate|exact Hl|simpl; lia].
    destruct kv as [k v]. destruct l; cbn [map join]; done.
Qed.

(** Indentation only lengthens a document, so the reader's fuel is enough. *)
Lemma join_le s1 s2 l1 l2 :
  (length s1 <= length s2)%nat → Forall2 (λ x y, (length x <= length y)%nat) l1 l2 →
  (length (join s1 l1) <= length (join s2 l2))%nat.
Proof.
  intros Hs. induction 1 as [|x y l1 l2 Hxy Hl IH]; [done|].
  destruct Hl as [|x' y' l1 l2]; [done|]. cbn [join] in *. rewrite !length_app. lia.
Qed.

Lemma print_indent_longer j d : (length (print j) <= length (print_indent d j))%nat.
Proof.
  revert d. induction j as [| b | z | s | l IH | l IH] using json_ind'; intros d; try reflexivity.
  - destruct l as [|v l]; [done|]. cbn [print print_indent length]. rewrite !length_app.
    enough (length (join comma (map print (v :: l))) <=
      length (join (comma ++ newline (S d)) (map (print_indent (S d)) (v :: l))))%nat by lia.
    apply join_le; [rewrite length_app; lia|]. induction IH; constructor; done.
  - destruct l as [|kv l]; [done|]. cbn [print print_indent length]. rewrite !length_app.
    fold print_member. fold (indented_member (S d)).
    enough (length (join comma (map print_member (kv :: l))) <=
      length (join (comma ++ newline (S d)) (map (indented_member (S d)) (kv :: l))))%nat by lia.
    apply join_le; [rewrite length_app; lia|]. induction IH as [|[k v] l' Hv _ IHl]; constructor; [|done].
    cbn. rewrite !length_app. cbn. specialize (Hv (S d)). cbn in Hv. lia.
Qed.

(** The indented document reads back. *)
Lemma parse_MarshalIndent j : json_valid j = true → parse (MarshalIndent j) = Some j.
Proof.
  intros Hv. unfold parse, MarshalIndent.
  pose proof (parse_value_indented 0 j Hv (3 * length (print_indent 0 j) + 3)%nat []) as H.
  rewrite app_nil_r in H. rewrite H; [done| |done].
  pose proof (cost_length j). pose proof (print_indent_longer j 0). lia.
Qed.

Lemma unmarshal_with_MarshalIndent {A} (f : list (bytes * json) → option A) l :
  json_valid (JObj l) = true → unmarshal_with f (MarshalIndent (JObj l)) = f l.
Proof. intros H. unfold unmarshal_with. by rewrite parse_MarshalIndent. Qed.

Example indent_example :
  MarshalIndent (JArr [JNum 1; JArr [JNull]; JObj []]) =
  join [Byte.x0a] (bytes_of_string <$> ["["; "  1,"; "  ["; "    null"; "  ],"; "  {}"; "]"]%string).
Proof. vm_compute. reflexivity. Qed.
