(* ===== verification/StringsLib.v ===== *)
(** * [strings.ToLower], [strings.ToUpper] and [strings.Contains] and [strings.Fields] on bytes,
    and the lines of [bufio.Scanner]

    Case is computed for ASCII; the Unicode tables are an argument. *)

From S2P Require Import Prelude GoLib Json.

Local Open Scope Z_scope.

Definition lower_byte (b : Init.Byte.byte) : Init.Byte.byte :=
  if in_range 0x41 0x5A b then byte.of_Z (bval b + 32) else b.

(** [unicode_lower] is the result on a string with a character beyond ASCII. *)
Definition ToLower (unicode_lower : bytes → bytes) (s : bytes) : bytes :=
  if forallb (λ b, bval b <? 0x80) s then lower_byte <$> s else unicode_lower s.

(** [bufio.ScanLines]: the lines without their end; a carriage return before
    it is dropped too. *)
Definition dropCR (l : bytes) : bytes :=
  match last l with
  | Some b => if bool_decide (b = Byte.x0d) then take (length l - 1) l else l
  | None => l
  end.

Fixpoint raw_lines (acc s : bytes) : list bytes :=
  match s with
  | [] => match acc with [] => [] | _ => [acc] end
  | b :: s => if bool_decide (b = Byte.x0a) then acc :: raw_lines [] s else raw_lines (acc ++ [b]) s
  end.

(** A scanner gives up at a line that does not fit its buffer. *)
Definition max_line : Z := 65535.

Fixpoint until_long (ls : list bytes) : list bytes :=
  match ls with
  | [] => []
  | l :: ls => if max_line <? zlen l then [] else dropCR l :: until_long ls
  end.

Definition scan_lines (s : bytes) : list bytes := until_long (raw_lines [] s).

(** [strings.Fields]: the words between white space; [unicode_fields] is the
    result on a line with a character beyond ASCII. *)
Definition is_space (b : Init.Byte.byte) : bool := in_range 0x09 0x0d b || (bval b =? 0x20).

Fixpoint ascii_fields (acc s : bytes) : list bytes :=
  match s with
  | [] => match acc with [] => [] | _ => [acc] end
  | b :: s =>
      if is_space b then match acc with [] => ascii_fields [] s | _ => acc :: ascii_fields [] s end
      else ascii_fields (acc ++ [b]) s
  end.

Definition Fields (unicode_fields : bytes → list bytes) (s : bytes) : list bytes :=
  if forallb (λ b, bval b <? 0x80) s then ascii_fields [] s else unicode_fields s.

(** [strings.Contains]. *)
Fixpoint bytes_contains (s sub : bytes) : bool :=
  bool_decide (take (length sub) s = sub) ||
  match s with
  | [] => false
  | _ :: s => bytes_contains s sub
  end.

Lemma bytes_contains_spec s sub : bytes_contains s sub = true ↔ ∃ l r, s = l ++ sub ++ r.
Proof.
  induction s as [|b s IH]; cbn [bytes_contains].
  - rewrite orb_false_r, bool_decide_eq_true. split.
    + intros Hs. exists [], []. rewrite take_nil in Hs. by rewrite <- Hs.
    + intros (l & r & Heq). symmetry in Heq. apply app_eq_nil in Heq as [_ Heq]. by apply app_eq_nil in Heq as [-> _].
  - rewrite orb_true_iff, bool_decide_eq_true, IH. split.
    + intros [Ht|(l & r & ->)]; [|by exists (b :: l), r].
      exists [], (drop (length sub) (b :: s)). cbn [app]. rewrite <- Ht at 1. by rewrite take_drop.
    + intros ([|b' l] & r & Heq); cbn in Heq.
      * left. by rewrite Heq, take_app_length.
      * injection Heq as -> ->. right. by exists l, r.
Qed.

Definition upper_byte (b : Init.Byte.byte) : Init.Byte.byte :=
  if in_range 0x61 0x7A b then byte.of_Z (bval b - 32) else b.

Definition ToUpper (unicode_upper : bytes → bytes) (s : bytes) : bytes :=
  if forallb (λ b, bval b <? 0x80) s then upper_byte <$> s else unicode_upper s.
