(* ===== verification/GoTime.v ===== *)
(** * [time.Time] in JSON

    A time is an instant, its nanoseconds since 1970.  [Time.MarshalJSON]
    writes RFC 3339 with the fraction's trailing zeros cut, here in UTC, and
    fails outside the years 0 to 9999; [Time.UnmarshalJSON] reads it in any
    zone. *)

From S2P Require Import Prelude GoLib Json.

Local Open Scope Z_scope.

(** ** The calendar *)

(** The date of a day number (day 0 is 1970-01-01), counting years from March
    in eras of 400 years: centuries, groups of four years, years, months. *)
Definition civil_of_doe (doe : Z) : Z * Z * Z :=
  let c := Z.min (doe / 36524) 3 in
  let doc := doe - 36524 * c in
  let q := doc / 1461 in
  let doq := doc - 1461 * q in
  let y := Z.min (doq / 365) 3 in
  let doy := doq - 365 * y in
  let mp := (5 * doy + 2) / 153 in
  (100 * c + 4 * q + y, mp, doy - (153 * mp + 2) / 5 + 1).

Definition doe_of_civil (yoe mp d : Z) : Z :=
  yoe * 365 + yoe / 4 - yoe / 100 + ((153 * mp + 2) / 5 + d - 1).

Definition month_of (mp : Z) : Z := if mp <? 10 then mp + 3 else mp - 9.

Definition month_index (m : Z) : Z := if 2 <? m then m - 3 else m + 9.

Definition civil_of_days (days : Z) : Z * Z * Z :=
  let z := days + 719468 in
  let '(yoe, mp, d) := civil_of_doe (z mod 146097) in
  let m := month_of mp in
  (yoe + z / 146097 * 400 + (if m <=? 2 then 1 else 0), m, d).

Definition days_of_civil (y m d : Z) : Z :=
  let y' := if m <=? 2 then y - 1 else y in
  y' / 400 * 146097 + doe_of_civil (y' mod 400) (month_index m) d - 719468.

Definition is_leap (y : Z) : bool :=
  (y mod 4 =? 0) && (negb (y mod 100 =? 0) || (y mod 400 =? 0)).

Definition days_in (y m : Z) : Z :=
  if m =? 2 then (if is_leap y then 29 else 28)
  else if (m =? 4) || (m =? 6) || (m =? 9) || (m =? 11) then 30 else 31.

(** ** Fixed-width digits *)

Definition digit (z : Z) : Init.Byte.byte := byte.of_Z (0x30 + z).

Definition digit_val (b : Init.Byte.byte) : option Z :=
  if (0x30 <=? bval b) && (bval b <=? 0x39) then Some (bval b - 0x30) else None.

Fixpoint fixed (n : nat) (z : Z) : bytes :=
  match n with
  | O => []
  | S n => fixed n (z / 10) ++ [digit (z mod 10)]
  end.

Definition read_digit (acc : option Z) (b : Init.Byte.byte) : option Z :=
  match acc, digit_val b with
  | Some a, Some v => Some (10 * a + v)
  | _, _ => None
  end.

Definition read_fixed (s : bytes) : option Z := foldl read_digit (Some 0) s.

(** The fraction of a second: nine digits less the trailing zeros. *)
Fixpoint trim_zeros (s : bytes) : bytes :=
  match s with
  | [] => []
  | b :: s' =>
      match trim_zeros s' with
      | [] => if bool_decide (b = Byte.x30) then [] else [b]
      | t => b :: t
      end
  end.

Definition pad_zeros (n : nat) (s : bytes) : bytes := take n (s ++ replicate n Byte.x30).

Definition frac_bytes (nanos : Z) : bytes :=
  match trim_zeros (fixed 9 nanos) with
  | [] => []
  | t => Byte.x2e :: t
  end.

Fixpoint span_digits (s : bytes) : bytes * bytes :=
  match s with
  | b :: s' =>
      match digit_val b with
      | Some _ => let '(d, r) := span_digits s' in (b :: d, r)
      | None => ([], s)
      end
  | [] => ([], [])
  end.

(** ** RFC 3339 *)

Definition second_ns : Z := 10 ^ 9.

Definition time_string (t : Z) : bytes :=
  let secs := t / second_ns in
  let '(y, m, d) := civil_of_days (secs / 86400) in
  let sod := secs mod 86400 in
  fixed 4 y ++ [Byte.x2d] ++ fixed 2 m ++ [Byte.x2d] ++ fixed 2 d ++ [Byte.x54] ++
  fixed 2 (sod / 3600) ++ [Byte.x3a] ++ fixed 2 (sod / 60 mod 60) ++ [Byte.x3a] ++
  fixed 2 (sod mod 60) ++ frac_bytes (t mod second_ns) ++ [Byte.x5a].

(** The first and the last instant [MarshalJSON] accepts, which is by the year. *)
Definition time_ok (t : Z) : bool :=
  let '(y, _, _) := civil_of_days (t / second_ns / 86400) in (0 <=? y) && (y <=? 9999).

Definition time_json (t : Z) : option json :=
  if time_ok t then Some (JStr (time_string t)) else None.

(** The zone: [Z], or a sign with hours and minutes; its offset in seconds. *)
Definition read_zone (s : bytes) : option Z :=
  match s with
  | [Byte.x5a] => Some 0
  | [sg; h1; h2; Byte.x3a; m1; m2] =>
      match read_fixed [h1; h2], read_fixed [m1; m2] with
      | Some h, Some m =>
          if (h <=? 23) && (m <=? 59) then
            match sg with
            | Byte.x2b => Some (h * 3600 + m * 60)
            | Byte.x2d => Some (- (h * 3600 + m * 60))
            | _ => None
            end
          else None
      | _, _ => None
      end
  | _ => None
  end.

(** An optional fraction: its nanoseconds and the rest. *)
Definition read_frac (s : bytes) : option (Z * bytes) :=
  match s with
  | Byte.x2e :: s' =>
      let '(d, r) := span_digits s' in
      match d with
      | [] => None
      | _ => match read_fixed (pad_zeros 9 d) with Some n => Some (n, r) | None => None end
      end
  | _ => Some (0, s)
  end.

Definition time_of_fields (y m d h mi sec nanos offset : Z) : option Z :=
  if (1 <=? m) && (m <=? 12) && (1 <=? d) && (d <=? days_in y m) && (h <=? 23) && (mi <=? 59) &&
     (sec <=? 59)
  then Some ((days_of_civil y m d * 86400 + h * 3600 + mi * 60 + sec - offset) * second_ns + nanos)
  else None.

Definition read_clock (s : bytes) : option (Z * Z * Z) :=
  match s with
  | [h1; h2; Byte.x3a; m1; m2; Byte.x3a; s1; s2] =>
      match read_fixed [h1; h2], read_fixed [m1; m2], read_fixed [s1; s2] with
      | Some h, Some m, Some sec => Some (h, m, sec)
      | _, _, _ => None
      end
  | _ => None
  end.

Definition read_date (s : bytes) : option (Z * Z * Z) :=
  match s with
  | [y1; y2; y3; y4; Byte.x2d; m1; m2; Byte.x2d; d1; d2; Byte.x54] =>
      match read_fixed [y1; y2; y3; y4], read_fixed [m1; m2], read_fixed [d1; d2] with
      | Some y, Some m, Some d => Some (y, m, d)
      | _, _, _ => None
      end
  | _ => None
  end.

Definition time_parse (s : bytes) : option Z :=
  match read_date (take 11 s), read_clock (take 8 (drop 11 s)), read_frac (drop 19 s) with
  | Some (y, m, d), Some (h, mi, sec), Some (nanos, zone) =>
      match read_zone zone with
      | Some offset => time_of_fields y m d h mi sec nanos offset
      | None => None
      end
  | _, _, _ => None
  end.

(** A field of type [time.Time]; absent or [null] leaves [zero]. *)
Definition get_time (zero : Z) (k : string) (l : list (bytes * json)) : option Z :=
  match jfield k l with
  | None | Some JNull => Some zero
  | Some (JStr s) => time_parse s
  | _ => None
  end.

(** The zero [time.Time], the first instant of the year 1. *)
Definition zero_time : Z := days_of_civil 1 1 1 * 86400 * second_ns.

Example zero_time_string : string_of_bytes (time_string zero_time) = "0001-01-01T00:00:00Z"%string.
Proof. reflexivity. Qed.

Example time_string_example :
  string_of_bytes (time_string 1709210096789000000) = "2024-02-29T12:34:56.789Z"%string.
Proof. vm_compute. reflexivity. Qed.

Example time_parse_zone :
  time_parse (bytes_of_string "2024-02-29T14:34:56.789+02:00") = Some 1709210096789000000.
Proof. vm_compute. reflexivity. Qed.

(** ** The round trip *)

(** The day of the year from its month: the day is in the month, and the 29th
    of February is the last day of the year. *)
Lemma month_spec doy :
  0 <= doy <= 365 →
  let mp := (5 * doy + 2) / 153 in
  let d := doy - (153 * mp + 2) / 5 + 1 in
  0 <= mp < 12 ∧ 1 <= d ∧ d <= days_in 4 (month_of mp) ∧ (month_of mp = 2 → d = 29 → doy = 365).
Proof.
  intros Hdoy mp d.
  assert (0 <= mp < 12) as Hmp.
  { unfold mp. pose proof (Z.div_mod (5 * doy + 2) 153). pose proof (Z.mod_pos_bound (5 * doy + 2) 153). lia. }
  assert (153 * mp <= 5 * doy + 2 < 153 * mp + 153) as Hb.
  { unfold mp. pose proof (Z.div_mod (5 * doy + 2) 153). pose proof (Z.mod_pos_bound (5 * doy + 2) 153). lia. }
  unfold d. clearbody mp. clear d. split; [done|].
  assert (mp = 0 ∨ mp = 1 ∨ mp = 2 ∨ mp = 3 ∨ mp = 4 ∨ mp = 5 ∨ mp = 6 ∨ mp = 7 ∨ mp = 8 ∨
          mp = 9 ∨ mp = 10 ∨ mp = 11) as Hcases by lia.
  destruct_or! Hcases; subst mp;
    repeat match goal with
    | |- context [(?k + 2) / 5] => let v := eval vm_compute in ((k + 2) / 5) in change ((k + 2) / 5) with v
    | |- context [days_in 4 ?m] => let v := eval vm_compute in (days_in 4 m) in change (days_in 4 m) with v
    | |- context [month_of ?k] => let v := eval vm_compute in (month_of k) in change (month_of k) with v
    end; lia.
Qed.

(** A year of an era, a month from March and a day, and their day number. *)
Lemma civil_of_doe_spec doe :
  0 <= doe < 146097 →
  let '(yoe, mp, d) := civil_of_doe doe in
  0 <= yoe < 400 ∧ 0 <= mp < 12 ∧ 1 <= d ∧ doe_of_civil yoe mp d = doe ∧
  d <= days_in (yoe + (if month_of mp <=? 2 then 1 else 0)) (month_of mp).
Proof.
  intros Hdoe. unfold civil_of_doe. cbv zeta.
  set (c := Z.min (doe / 36524) 3). set (doc := doe - 36524 * c).
  assert (0 <= c <= 3 ∧ 0 <= doc <= 36524 ∧ (doc = 36524 → c = 3)) as (Hc & Hdoc & Hlast).
  { unfold doc, c. pose proof (Z.div_mod doe 36524). pose proof (Z.mod_pos_bound doe 36524). lia. }
  assert (doe = 36524 * c + doc) as Heq by (unfold doc; lia). clearbody doc. clearbody c. subst doe.
  set (q := doc / 1461). set (doq := doc - 1461 * q).
  assert (0 <= q <= 24 ∧ 0 <= doq <= 1460) as (Hq & Hdoq).
  { unfold doq, q. pose proof (Z.div_mod doc 1461). pose proof (Z.mod_pos_bound doc 1461). lia. }
  assert (doc = 1461 * q + doq) as Heq by (unfold doq; lia). clearbody doq. clearbody q. subst doc.
  set (y := Z.min (doq / 365) 3). set (doy := doq - 365 * y).
  assert (0 <= y <= 3 ∧ 0 <= doy <= 365 ∧ (doy = 365 → y = 3)) as (Hy & Hdoy & Hleap).
  { unfold doy, y. pose proof (Z.div_mod doq 365). pose proof (Z.mod_pos_bound doq 365). lia. }
  assert (doq = 365 * y + doy) as Heq by (unfold doy; lia). clearbody doy. clearbody y. subst doq.
  destruct (month_spec doy Hdoy) as (Hmp & Hd & Hdays & Hfeb). cbv zeta in *.
  set (mp := (5 * doy + 2) / 153) in *. set (d := doy - (153 * mp + 2) / 5 + 1) in *.
  assert (4 * q + 4 ≠ 0) as Hnz by lia.
  split; [lia|]. split; [done|]. split; [done|]. split.
  - unfold doe_of_civil.
    assert ((100 * c + 4 * q + y) / 4 = 25 * c + q) as ->
      by (symmetry; apply (Z.div_unique _ _ _ y); lia).
    assert ((100 * c + 4 * q + y) / 100 = c) as ->
      by (symmetry; apply (Z.div_unique _ _ _ (4 * q + y)); lia).
    unfold d. lia.
  - unfold days_in in *. destruct (month_of mp =? 2) eqn:H2; [|done].
    apply Z.eqb_eq in H2. rewrite H2 in *. cbn [Z.leb Z.compare Pos.compare Pos.compare_cont].
    destruct (decide (d = 29)) as [Hd29|Hd29].
    + specialize (Hfeb eq_refl Hd29). rewrite (Hleap Hfeb) in *. unfold is_leap.
      assert ((100 * c + 4 * q + 3 + 1) mod 4 = 0) as ->
        by (symmetry; apply (Z.mod_unique _ _ (25 * c + q + 1)); lia).
      destruct (decide (q = 24)) as [->|Hq24].
      * assert (c = 3) as -> by (apply Hlast; rewrite Hfeb; reflexivity). rewrite Hd29. apply Z.le_refl.
      * assert ((100 * c + 4 * q + 3 + 1) mod 100 = 4 * q + 4) as ->
          by (symmetry; apply (Z.mod_unique _ _ c); lia).
        rewrite (proj2 (Z.eqb_neq (4 * q + 4) 0)) by exact Hnz. rewrite Hd29. apply Z.le_refl.
    + change (d <= 29) in Hdays. destruct (is_leap _); lia.
Qed.

Lemma is_leap_era y k : is_leap (y + k * 400) = is_leap y.
Proof.
  unfold is_leap.
  replace (y + k * 400) with (y + (k * 100) * 4) by lia. rewrite Z.mod_add by lia.
  replace (y + k * 100 * 4) with (y + (k * 4) * 100) by lia. rewrite Z.mod_add by lia.
  replace (y + k * 4 * 100) with (y + k * 400) by lia. by rewrite Z.mod_add by lia.
Qed.

Lemma days_in_era y k m : days_in (y + k * 400) m = days_in y m.
Proof. unfold days_in. by rewrite is_leap_era. Qed.

Lemma month_index_of mp : 0 <= mp < 12 →
  month_index (month_of mp) = mp ∧ 1 <= month_of mp <= 12.
Proof.
  intros Hmp. unfold month_index, month_of. destruct (mp <? 10) eqn:H; z_bool.
  - rewrite (proj2 (Z.ltb_lt _ _)) by lia. lia.
  - rewrite (proj2 (Z.ltb_ge _ _)) by lia. lia.
Qed.

(** The date of a day is a date, and its day is that day. *)
Lemma civil_of_days_spec days :
  let '(y, m, d) := civil_of_days days in
  days_of_civil y m d = days ∧ 1 <= m <= 12 ∧ 1 <= d <= days_in y m.
Proof.
  unfold civil_of_days. pose proof (civil_of_doe_spec ((days + 719468) mod 146097)) as Hs.
  destruct (civil_of_doe _) as [[yoe mp] d].
  destruct Hs as (Hy & Hmp & Hd & Hdoe & Hdays); [apply Z.mod_pos_bound; lia|].
  destruct (month_index_of mp Hmp) as [Hix Hm]. split; [|split; [done|split; [done|]]].
  - unfold days_of_civil. rewrite Hix.
    set (era := (days + 719468) / 146097) in *.
    assert ((if month_of mp <=? 2 then yoe + era * 400 + (if month_of mp <=? 2 then 1 else 0) - 1
             else yoe + era * 400 + (if month_of mp <=? 2 then 1 else 0)) = yoe + era * 400) as ->
      by (destruct (month_of mp <=? 2); lia).
    rewrite Z.div_add, Z.mod_add, Z.div_small, Z.mod_small, Hdoe by lia.
    unfold era. pose proof (Z.div_mod (days + 719468) 146097). lia.
  - etrans; [exact Hdays|]. rewrite <- (days_in_era _ ((days + 719468) / 146097)).
    apply Z.eq_le_incl. f_equal. lia.
Qed.

Lemma digit_val_digit z : 0 <= z < 10 → digit_val (digit z) = Some z.
Proof.
  intros Hz. assert (z = 0 ∨ z = 1 ∨ z = 2 ∨ z = 3 ∨ z = 4 ∨ z = 5 ∨ z = 6 ∨ z = 7 ∨ z = 8 ∨ z = 9)
    as Hc by lia. destruct_or! Hc; by subst z.
Qed.

Lemma fixed_length n z : length (fixed n z) = n.
Proof.
  revert z. induction n as [|n IH]; intros z; [done|]. simpl. rewrite length_app, IH. simpl. lia.
Qed.

Lemma read_fixed_fixed n z : 0 <= z < 10 ^ Z.of_nat n → read_fixed (fixed n z) = Some z.
Proof.
  unfold read_fixed. revert z. induction n as [|n IH]; intros z Hz.
  { simpl in Hz. simpl. f_equal. lia. }
  simpl. rewrite foldl_app, IH.
  - cbn [foldl read_digit]. rewrite digit_val_digit by (apply Z.mod_pos_bound; lia).
    f_equal. symmetry. apply Z.div_mod. lia.
  - rewrite Nat2Z.inj_succ, Z.pow_succ_r in Hz by lia. split; [apply Z.div_pos; lia|].
    apply Z.div_lt_upper_bound; lia.
Qed.

Lemma fixed_digits n z : Forall (λ b, is_Some (digit_val b)) (fixed n z).
Proof.
  revert z. induction n as [|n IH]; intros z; [constructor|]. simpl. apply Forall_app. split; [done|].
  constructor; [|constructor]. rewrite digit_val_digit by (apply Z.mod_pos_bound; lia). by eexists.
Qed.

Lemma pad_trim n s : length s = n → pad_zeros n (trim_zeros s) = s.
Proof.
  unfold pad_zeros. revert n. induction s as [|b s IH]; intros n <-; [done|]. simpl.
  specialize (IH (length s) eq_refl).
  assert (∀ t, t ≠ [] → take (length s) (t ++ replicate (length s) Byte.x30) = s →
    take (length s) (t ++ replicate (length s) Byte.x30 ++ [Byte.x30]) = s) as Hmore.
  { intros t Ht H. rewrite app_assoc, take_app_le; [done|].
    rewrite length_app, length_replicate. lia. }
  destruct (trim_zeros s) as [|c t] eqn:Ht.
  - rewrite app_nil_l, take_replicate, Nat.min_id in IH. case_bool_decide as Hb.
    + subst b. cbn [app take]. by rewrite take_replicate, Nat.min_id, IH.
    + cbn [app take]. f_equal. change (Byte.x30 :: replicate (length s) Byte.x30) with
        (replicate (S (length s)) Byte.x30). by rewrite take_replicate, Nat.min_l, IH by lia.
  - cbn [app take]. f_equal. change (Byte.x30 :: replicate (length s) Byte.x30) with
      (replicate (S (length s)) Byte.x30). rewrite replicate_S_end.
    by apply (Hmore (c :: t)).
Qed.

Lemma trim_zeros_digits s :
  Forall (λ b, is_Some (digit_val b)) s → Forall (λ b, is_Some (digit_val b)) (trim_zeros s).
Proof.
  induction 1 as [|b s Hb Hs IH]; [done|]. simpl.
  destruct (trim_zeros s); [case_bool_decide; by repeat constructor|by constructor].
Qed.

Lemma read_date_eq (y m d : bytes) :
  length y = 4%nat → length m = 2%nat → length d = 2%nat →
  read_date (y ++ [Byte.x2d] ++ m ++ [Byte.x2d] ++ d ++ [Byte.x54]) =
    match read_fixed y, read_fixed m, read_fixed d with
    | Some y, Some m, Some d => Some (y, m, d)
    | _, _, _ => None
    end.
Proof.
  intros Hy Hm Hd. destruct y as [|? [|? [|? [|? []]]]]; try done.
  destruct m as [|? [|? []]]; try done. by destruct d as [|? [|? []]].
Qed.

Lemma read_clock_eq (h m s : bytes) :
  length h = 2%nat → length m = 2%nat → length s = 2%nat →
  read_clock (h ++ [Byte.x3a] ++ m ++ [Byte.x3a] ++ s) =
    match read_fixed h, read_fixed m, read_fixed s with
    | Some h, Some m, Some s => Some (h, m, s)
    | _, _, _ => None
    end.
Proof.
  intros Hh Hm Hs. destruct h as [|? [|? []]]; try done.
  destruct m as [|? [|? []]]; try done. by destruct s as [|? [|? []]].
Qed.

Lemma span_digits_app d r :
  Forall (λ b, is_Some (digit_val b)) d → (match r with b :: _ => digit_val b = None | [] => True end) →
  span_digits (d ++ r) = (d, r).
Proof.
  intros Hd Hr. induction Hd as [|b d [v Hv] _ IH].
  - destruct r as [|b r]; [done|]. simpl. by rewrite Hr.
  - simpl. by rewrite Hv, IH.
Qed.

Lemma read_frac_bytes nanos :
  0 <= nanos < second_ns → read_frac (frac_bytes nanos ++ [Byte.x5a]) = Some (nanos, [Byte.x5a]).
Proof.
  intros Hn. unfold frac_bytes.
  pose proof (pad_trim 9 (fixed 9 nanos) (fixed_length 9 nanos)) as Hp.
  pose proof (read_fixed_fixed 9 nanos Hn) as Hr.
  pose proof (trim_zeros_digits _ (fixed_digits 9 nanos)) as Hd.
  destruct (trim_zeros (fixed 9 nanos)) as [|b t].
  - simpl. rewrite <- Hp in Hr. injection Hr as <-. done.
  - cbn [app read_frac]. rewrite app_comm_cons, span_digits_app by done. by rewrite Hp, Hr.
Qed.

Lemma time_roundtrip t : time_ok t = true → time_parse (time_string t) = Some t.
Proof.
  unfold time_ok, time_string, time_parse.
  pose proof (civil_of_days_spec (t / second_ns / 86400)) as Hc.
  destruct (civil_of_days _) as [[y m] d]. destruct Hc as (Hdays & Hm & Hd). intros Hok. z_bool.
  set (sod := t / second_ns mod 86400).
  assert (0 <= sod < 86400) as Hsod by (apply Z.mod_pos_bound; lia).
  assert (0 <= sod / 3600 < 24) as Hh.
  { split; [apply Z.div_pos; lia|apply Z.div_lt_upper_bound; lia]. }
  pose proof (Z.mod_pos_bound (sod / 60) 60 ltac:(lia)) as Hmi.
  pose proof (Z.mod_pos_bound sod 60 ltac:(lia)) as Hs.
  assert (d < 100) as Hd100 by (unfold days_in in Hd; repeat case_match; lia).
  set (date := fixed 4 y ++ [Byte.x2d] ++ fixed 2 m ++ [Byte.x2d] ++ fixed 2 d ++ [Byte.x54]).
  set (clock := fixed 2 (sod / 3600) ++ [Byte.x3a] ++ fixed 2 (sod / 60 mod 60) ++ [Byte.x3a] ++
                fixed 2 (sod mod 60)).
  set (rest := frac_bytes (t mod second_ns) ++ [Byte.x5a]).
  assert (length date = 11%nat) as Hld by (unfold date; rewrite !length_app, !fixed_length; done).
  assert (length clock = 8%nat) as Hlc by (unfold clock; rewrite !length_app, !fixed_length; done).
  match goal with |- context [take 11 ?b] => assert (b = date ++ clock ++ rest) as -> end.
  { unfold date, clock, rest. by rewrite <- !app_assoc. }
  rewrite take_app_length', drop_app_length', take_app_length' by done.
  rewrite app_assoc, drop_app_length' by (rewrite length_app, Hld, Hlc; done).
  unfold date, clock, rest. rewrite read_date_eq, read_clock_eq by apply fixed_length.
  rewrite !read_fixed_fixed by (simpl; lia).
  rewrite read_frac_bytes by (apply Z.mod_pos_bound; done). cbn [read_zone].
  unfold time_of_fields. rewrite Hdays.
  rewrite !(proj2 (Z.leb_le _ _)) by lia. cbn [andb]. f_equal.
  pose proof (Z.div_mod t second_ns ltac:(done)). pose proof (Z.div_mod (t / second_ns) 86400 ltac:(lia)).
  fold sod in H0. pose proof (Z.div_mod sod 60 ltac:(lia)).
  pose proof (Z.div_mod (sod / 60) 60 ltac:(lia)).
  assert (sod / 60 / 60 = sod / 3600) as H60 by (rewrite Z.div_div by lia; done).
  lia.
Qed.

Lemma time_string_ascii t : utf8_valid (time_string t) = true.
Proof.
  apply utf8_valid_ascii.
  assert (∀ n z, Forall (λ b, bval b <? 0x80 = true) (fixed n z)) as Hf.
  { intros n z. eapply Forall_impl; [apply fixed_digits|]. intros b [v Hv]. by destruct b. }
  unfold time_string. destruct (civil_of_days _) as [[y m] d].
  rewrite !Forall_app. split_and!; try apply Hf; try (constructor; [reflexivity|constructor]).
  unfold frac_bytes. pose proof (trim_zeros_digits _ (fixed_digits 9 (t mod second_ns))) as Hd.
  destruct (trim_zeros _) as [|b s]; [constructor|]. constructor; [done|].
  eapply Forall_impl; [exact Hd|]. intros c [v Hv]. by destruct c.
Qed.

(** A time of the range as a member of an object. *)
Lemma get_time_eq zero k l t :
  jfield k l = Some (JStr (time_string t)) → time_ok t = true → get_time zero k l = Some t.
Proof. intros Hk Hok. unfold get_time. rewrite Hk. by apply time_roundtrip. Qed.
