(* ===== verification/Types.v ===== *)
(** * Core domain types: [pkg/types/types.go]

    The message, topic configuration and error types every component shares,
    with the JSON form of a message (the payload of every log record). *)

From S2P Require Import Prelude GoLib Json.

Local Open Scope Z_scope.

(** ** Delivery modes *)

Inductive DeliveryMode :=
| AtMostOnce
| AtLeastOnce
| ExactlyOnce
| UnknownMode (d : Z).

(** [types.DeliveryMode(req.DeliveryMode)]: the conversion of a wire byte. *)
Definition DeliveryMode_of (d : Z) : DeliveryMode :=
  if d =? 0 then AtMostOnce
  else if d =? 1 then AtLeastOnce
  else if d =? 2 then ExactlyOnce
  else UnknownMode d.

Definition DeliveryMode_String (d : DeliveryMode) : string :=
  match d with
  | AtMostOnce => "at-most-once"
  | AtLeastOnce => "at-least-once"
  | ExactlyOnce => "exactly-once"
  | UnknownMode _ => "unknown"
  end.

(** ** Messages *)

Record Message := mkMessage {
  msg_ID : string;
  msg_Topic : string;
  msg_Timestamp : Z;
  msg_Payload : bytes;
  msg_Headers : gmap string string;
  msg_Key : string;
  msg_Partition : Z;
  msg_Offset : Z;
  msg_Codec : Z;
}.

#[global] Instance Message_eq_dec : EqDecision Message.
Proof. solve_decision. Defined.

Definition set_offset (m : Message) (o : Z) : Message :=
  mkMessage (msg_ID m) (msg_Topic m) (msg_Timestamp m) (msg_Payload m) (msg_Headers m)
    (msg_Key m) (msg_Partition m) o (msg_Codec m).

Definition set_partition (m : Message) (p : Z) : Message :=
  mkMessage (msg_ID m) (msg_Topic m) (msg_Timestamp m) (msg_Payload m) (msg_Headers m)
    (msg_Key m) p (msg_Offset m) (msg_Codec m).

Definition set_payload (m : Message) (b : bytes) (c : Z) : Message :=
  mkMessage (msg_ID m) (msg_Topic m) (msg_Timestamp m) b (msg_Headers m)
    (msg_Key m) (msg_Partition m) (msg_Offset m) c.

(** [NewMessage]: [id] is the fresh UUID and [now] the clock reading. *)
Definition NewMessage (id : string) (now : Z) (topic : string) (payload : bytes)
    (key : string) (headers : gmap string string) : Message :=
  mkMessage id topic now payload headers key 0 0 0.

(** ** UUIDs

    [NewUUID] from the 16 bytes of [rand.Read]. *)

Definition hex_byte (b : Init.Byte.byte) : bytes :=
  [hex_digit (Z.shiftr (bval b) 4); hex_digit (Z.land (bval b) 0xF)].

Definition hex_of (b : bytes) : bytes := mjoin (hex_byte <$> b).

Definition uuid_bits (b : bytes) : bytes :=
  match b with
  | [b0; b1; b2; b3; b4; b5; b6; b7; b8; b9; b10; b11; b12; b13; b14; b15] =>
      [b0; b1; b2; b3; b4; b5; byte.of_Z (Z.lor (Z.land (bval b6) 0x0f) 0x40); b7;
       byte.of_Z (Z.lor (Z.land (bval b8) 0x3f) 0x80); b9; b10; b11; b12; b13; b14; b15]
  | _ => b
  end.

Definition NewUUID (rnd : bytes) : string :=
  let b := uuid_bits rnd in
  let dash := [Byte.x2d] in
  string_of_bytes
    (hex_of (slice 0 4 b) ++ dash ++ hex_of (slice 4 6 b) ++ dash ++ hex_of (slice 6 8 b)
     ++ dash ++ hex_of (slice 8 10 b) ++ dash ++ hex_of (slice 10 16 b)).

(** ** Topics *)

Record TopicConfig := mkTopicConfig {
  tc_Name : string;
  tc_Partitions : Z;
  tc_ReplicationFactor : Z;
  tc_RetentionHours : Z;
  tc_RetentionBytes : Z;
  tc_DeliveryMode : Z;
  tc_CompressionCodec : Z;
  tc_MinISR : Z;
  tc_CompactionMode : string;
}.

#[global] Instance TopicConfig_eq_dec : EqDecision TopicConfig.
Proof. solve_decision. Defined.

(** ** Errors *)

Inductive ErrorCode :=
| ErrTopicNotFound
| ErrTopicExists
| ErrUnauthorized
| ErrInvalidMessage
| ErrPartitionNotFound
| ErrBrokerOverloaded
| ErrInternal
| ErrRetryExceeded.

#[global] Instance ErrorCode_eq_dec : EqDecision ErrorCode.
Proof. solve_decision. Defined.

Definition ErrorCode_string (c : ErrorCode) : string :=
  match c with
  | ErrTopicNotFound => "TOPIC_NOT_FOUND"
  | ErrTopicExists => "TOPIC_EXISTS"
  | ErrUnauthorized => "UNAUTHORIZED"
  | ErrInvalidMessage => "INVALID_MESSAGE"
  | ErrPartitionNotFound => "PARTITION_NOT_FOUND"
  | ErrBrokerOverloaded => "BROKER_OVERLOADED"
  | ErrInternal => "INTERNAL_ERROR"
  | ErrRetryExceeded => "RETRY_EXCEEDED"
  end.

Record BrokerError := mkBrokerError {
  be_Code : ErrorCode;
  be_Message : string;
}.

Definition NewBrokerError (code : ErrorCode) (msg : string) : BrokerError :=
  mkBrokerError code msg.

Definition BrokerError_Error (e : BrokerError) : string :=
  ("[" +:+ ErrorCode_string (be_Code e) +:+ "] " +:+ be_Message e)%string.

(** ** The JSON form of a message *)

Definition i64_min : Z := - 2 ^ 63.
Definition i64_max : Z := 2 ^ 63 - 1.
Definition i32_min : Z := - 2 ^ 31.
Definition i32_max : Z := 2 ^ 31 - 1.

Definition Message_fields (m : Message) : list (bytes * json) :=
  put "id" (jstr (msg_ID m)) ++
  put "topic" (jstr (msg_Topic m)) ++
  put "timestamp" (JNum (msg_Timestamp m)) ++
  put "payload" (JStr (b64_encode (msg_Payload m))) ++
  put_omit (bool_decide (msg_Headers m = ∅)) "headers" (jsmap (msg_Headers m)) ++
  put_omit (bool_decide (msg_Key m = EmptyString)) "key" (jstr (msg_Key m)) ++
  put "partition" (JNum (msg_Partition m)) ++
  put_omit (msg_Offset m =? 0) "offset" (JNum (msg_Offset m)) ++
  put_omit (msg_Codec m =? 0) "codec" (JNum (msg_Codec m)) ++ [].

Definition Message_marshal (m : Message) : option bytes := Some (print (JObj (Message_fields m))).

Definition Message_of_fields (l : list (bytes * json)) : option Message :=
  match get_str "id" l, get_str "topic" l, get_int i64_min i64_max "timestamp" l with
  | Some id, Some topic, Some ts =>
      match get_bytes "payload" l, get_smap "headers" l, get_str "key" l with
      | Some payload, Some headers, Some key =>
          match get_int i32_min i32_max "partition" l, get_int i64_min i64_max "offset" l,
                get_int 0 255 "codec" l with
          | Some part, Some off, Some codec =>
              Some (mkMessage id topic ts payload headers key part off codec)
          | _, _, _ => None
          end
      | _, _, _ => None
      end
  | _, _, _ => None
  end.

Definition Message_unmarshal (b : bytes) : option Message := unmarshal_with Message_of_fields b.

Definition Message_wf (m : Message) : Prop :=
  str_valid (msg_ID m) = true ∧ str_valid (msg_Topic m) = true ∧ str_valid (msg_Key m) = true ∧
  map_Forall (λ k v, str_valid k = true ∧ str_valid v = true) (msg_Headers m) ∧
  is_i64 (msg_Timestamp m) ∧ is_i32 (msg_Partition m) ∧ is_i64 (msg_Offset m) ∧
  0 <= msg_Codec m <= 255.

(** A message survives its trip through JSON. *)
Lemma Message_of_fields_ok m :
  Message_wf m → Message_of_fields (Message_fields m) = Some m.
Proof.
  intros (Hid & Ht & Hk & Hh & Hts & Hp & Ho & Hc).
  unfold Message_of_fields, Message_fields, is_i64, is_i32, i64_min, i64_max, i32_min, i32_max in *.
  rewrite (get_str_eq "id" _ (msg_ID m) false) by jfield_solve.
  rewrite (get_str_eq "topic" _ (msg_Topic m) false) by jfield_solve.
  rewrite (get_int_eq _ _ "timestamp" _ (msg_Timestamp m) false) by jfield_solve.
  rewrite (get_bytes_eq "payload" _ (msg_Payload m)) by jfield_solve.
  rewrite (get_smap_eq "headers" _ (msg_Headers m) (bool_decide (msg_Headers m = ∅)))
    by jfield_solve.
  rewrite (get_str_eq "key" _ (msg_Key m) (bool_decide (msg_Key m = EmptyString)))
    by jfield_solve.
  rewrite (get_int_eq _ _ "partition" _ (msg_Partition m) false) by jfield_solve.
  rewrite (get_int_eq _ _ "offset" _ (msg_Offset m) (msg_Offset m =? 0)) by jfield_solve.
  rewrite (get_int_eq _ _ "codec" _ (msg_Codec m) (msg_Codec m =? 0)) by jfield_solve.
  by destruct m.
Qed.

Lemma Message_fields_valid m : Message_wf m → json_valid (JObj (Message_fields m)) = true.
Proof.
  intros (Hid & Ht & Hk & Hh & _). unfold Message_fields.
  rewrite !members_valid_put, !members_valid_omit, !members_valid_put, !members_valid_omit.
  rewrite (jsmap_valid _ Hh).
  assert (json_valid (JStr (b64_encode (msg_Payload m))) = true) as -> by
    apply utf8_valid_ascii, b64_encode_ascii.
  unfold str_valid in *. cbn [json_valid jstr]. rewrite Hid, Ht, Hk.
  by rewrite !orb_true_r.
Qed.

Lemma Message_json_roundtrip m :
  Message_wf m → ∃ b, Message_marshal m = Some b ∧ Message_unmarshal b = Some m.
Proof.
  intros Hm. eexists. split; [reflexivity|]. unfold Message_unmarshal.
  rewrite unmarshal_with_print by by apply Message_fields_valid.
  by apply Message_of_fields_ok.
Qed.

#[global] Instance MessageJson : JsonCodec Message := {|
  json_Marshal := Message_marshal;
  json_Unmarshal := Message_unmarshal;
  json_wf := Message_wf;
  json_roundtrip := Message_json_roundtrip;
|}.

(** A fresh UUID carries the version and variant bits of RFC 4122. *)
Lemma uuid_bits_version b : length b = 16%nat →
  ∃ b6 b8, uuid_bits b !! 6%nat = Some b6 ∧ Z.shiftr (bval b6) 4 = 4 ∧
           uuid_bits b !! 8%nat = Some b8 ∧ Z.shiftr (bval b8) 6 = 2.
Proof.
  intros H. do 16 (destruct b as [|? b]; [discriminate H|]). destruct b; [|discriminate H].
  cbn [uuid_bits]. eexists _, _. split; [reflexivity|].
  split; [|split; [reflexivity|]].
  - match goal with |- context [bval (byte.of_Z (Z.lor (Z.land (bval ?x) _) _))] => by destruct x end.
  - match goal with |- context [bval (byte.of_Z (Z.lor (Z.land (bval ?x) _) _))] => by destruct x end.
Qed.
