(* ===== verification/Protocol.v ===== *)
(** * The wire protocol: [internal/protocol/protocol.go]

    The 18-byte frame header and its codec, the commands, the bodies the
    handlers exchange, and the JSON form of a publish request (also the
    content of a message WAL entry). *)

From S2P Require Import Prelude GoLib Json Types.

Local Open Scope Z_scope.

(** ** Constants *)

Definition Magic : Z := 0x50534201.
Definition Version : Z := 1.
Definition HeaderSize : Z := 4 + 1 + 1 + 8 + 4.
Definition MaxBodySize : Z := 16 * 1024 * 1024.
Definition MaxInt32 : Z := 2 ^ 31 - 1.

(** ** Commands, a [uint8] *)

Definition CmdPublish : Z := 0x01.
Definition CmdSubscribe : Z := 0x02.
Definition CmdUnsubscribe : Z := 0x03.
Definition CmdFetch : Z := 0x04.
Definition CmdAck : Z := 0x05.
Definition CmdNack : Z := 0x06.
Definition CmdCommitOffset : Z := 0x07.
Definition CmdCreateTopic : Z := 0x08.
Definition CmdDeleteTopic : Z := 0x09.
Definition CmdListTopics : Z := 0x0A.
Definition CmdAuth : Z := 0x0B.
Definition CmdPing : Z := 0x0C.
Definition CmdPong : Z := 0x0D.
Definition CmdResponse : Z := 0x0E.
Definition CmdError : Z := 0x0F.
Definition CmdBatchPublish : Z := 0x10.
Definition CmdPush : Z := 0x20.
Definition CmdSeek : Z := 0x30.
Definition CmdResetGroup : Z := 0x31.

Definition upper_hex_digit (z : Z) : Init.Byte.byte :=
  byte.of_Z (if z <? 10 then 0x30 + z else 0x37 + z).

Definition command_names : list (Z * string) :=
  [(CmdPublish, "PUBLISH"); (CmdSubscribe, "SUBSCRIBE"); (CmdUnsubscribe, "UNSUBSCRIBE");
   (CmdFetch, "FETCH"); (CmdAck, "ACK"); (CmdNack, "NACK");
   (CmdCommitOffset, "COMMIT_OFFSET"); (CmdCreateTopic, "CREATE_TOPIC");
   (CmdDeleteTopic, "DELETE_TOPIC"); (CmdListTopics, "LIST_TOPICS"); (CmdAuth, "AUTH");
   (CmdPing, "PING"); (CmdPong, "PONG"); (CmdResponse, "RESPONSE"); (CmdError, "ERROR");
   (CmdBatchPublish, "BATCH_PUBLISH"); (CmdPush, "PUSH"); (CmdSeek, "SEEK");
   (CmdResetGroup, "RESET_GROUP")]%string.

Definition Command_String (c : Z) : string :=
  match list_find (λ p, p.1 = c) command_names with
  | Some (_, (_, s)) => s
  | None =>
      ("UNKNOWN(0x" +:+
       string_of_bytes [upper_hex_digit (Z.shiftr (u8 c) 4); upper_hex_digit (Z.land (u8 c) 15)]
       +:+ ")")%string
  end.

(** ** Frames *)

Record Frame := mkFrame {
  fr_Command : Z;
  fr_RequestID : Z;
  fr_Body : bytes;
}.

#[global] Instance Frame_eq_dec : EqDecision Frame.
Proof. solve_decision. Defined.

Inductive proto_err :=
| EncodeBodyErr
| BodyTooLarge (n : Z)
| WriteErr
| ReadHeaderErr (e : read_err)
| InvalidMagic (m : Z)
| UnsupportedVersion (v : Z)
| BodyOverflow
| ReadBodyErr (e : read_err).

(** ** Request and response bodies *)

Record AuthRequest := mkAuthRequest { ar_APIKey : string; ar_ClientID : string }.

Record AuthResponse := mkAuthResponse {
  aresp_OK : bool; aresp_Reason : string; aresp_Perms : list string }.

Record PublishRequest := mkPublishRequest {
  pr_Topic : string;
  pr_Key : string;
  pr_Payload : bytes;
  pr_Headers : gmap string string;
  pr_DeliveryMode : Z;
  pr_SeqNum : Z;
  pr_Codec : Z;
  pr_TargetOffset : option Z;
}.

Record BatchPublishRequest := mkBatchPublishRequest { bp_Messages : list PublishRequest }.

Record PublishResponse := mkPublishResponse {
  pres_MessageID : string; pres_Partition : Z; pres_Offset : Z }.

Record SubscribeRequest := mkSubscribeRequest {
  sr_Topic : string; sr_Group : string; sr_ConsumerID : string; sr_Push : bool }.

Record PushFrame := mkPushFrame {
  pf_Topic : string; pf_Group : string; pf_ConsumerID : string; pf_Partition : Z;
  pf_Messages : list Message }.

Record FetchRequest := mkFetchRequest {
  fq_Topic : string; fq_Group : string; fq_Partition : Z; fq_Offset : Z; fq_MaxCount : Z;
  fq_RawTransfer : bool }.

Record FetchResponse := mkFetchResponse {
  fp_Topic : string; fp_Partition : Z; fp_Messages : list Message; fp_RawBytes : bool;
  fp_BytesSent : Z }.

Record CommitOffsetRequest := mkCommitOffsetRequest {
  co_Group : string; co_ConsumerID : string; co_Topic : string; co_Partition : Z; co_Offset : Z }.

Record AckRequest := mkAckRequest {
  ack_ConsumerID : string; ack_Topic : string; ack_Partition : Z; ack_Offset : Z }.

Record NackRequest := mkNackRequest {
  nk_ConsumerID : string; nk_Topic : string; nk_Partition : Z; nk_Offset : Z;
  nk_Group : string; nk_Requeue : bool }.

Record CreateTopicRequest := mkCreateTopicRequest {
  ct_Name : string; ct_Partitions : Z; ct_ReplicationFactor : Z; ct_RetentionHours : Z;
  ct_CompactionMode : string }.

Record DeleteTopicRequest := mkDeleteTopicRequest { dt_Name : string }.

Record SeekRequest := mkSeekRequest {
  sk_Topic : string; sk_Group : string; sk_TimestampNs : Z; sk_ToEnd : bool;
  sk_Offset : option Z }.

Record ResetGroupRequest := mkResetGroupRequest { rg_Group : string; rg_Topic : string }.

(** ** Encoder *)

(** The header array, filled field by field. *)
Definition frame_header (f : Frame) : bytes :=
  put_u32 Magic ++ [byte.of_Z Version; byte.of_Z (fr_Command f)] ++
  put_u64 (fr_RequestID f) ++ put_u32 (u32 (zlen (fr_Body f))).

(** [writeFrame]: [w] is what the writer has received; the two flags are the
    outcomes of its two [Write] calls. *)
Definition Encoder_writeFrame (w : bytes) (f : Frame) (ok_hdr ok_body : bool) :
    bytes * result unit proto_err :=
  if negb ok_hdr then (w, Error WriteErr)
  else
    let w := w ++ frame_header f in
    if 0 <? zlen (fr_Body f) then
      if ok_body then (w ++ fr_Body f, Ok tt) else (w, Error WriteErr)
    else (w, Ok tt).

(** [Encode]: [body] is [None] for a nil body. *)
Definition Encoder_Encode `{JsonCodec A} (w : bytes) (cmd requestID : Z) (body : option A)
    (ok_hdr ok_body : bool) : bytes * result unit proto_err :=
  let bodyBytes :=
    match body with
    | None => Some []
    | Some x => json_Marshal x
    end in
  match bodyBytes with
  | None => (w, Error EncodeBodyErr)
  | Some b =>
      if MaxBodySize <? u32 (zlen b) then (w, Error (BodyTooLarge (zlen b)))
      else Encoder_writeFrame w (mkFrame cmd requestID b) ok_hdr ok_body
  end.

(** ** Decoder *)

(** [Decode]: the frame and what is left of the stream. *)
Definition Decoder_Decode (r : bytes) : result (Frame * bytes) proto_err :=
  match io_ReadFull r HeaderSize with
  | Error e => Error (ReadHeaderErr e)
  | Ok (hdr, r1) =>
      let magic := get_uint (slice 0 4 hdr) in
      if negb (magic =? Magic) then Error (InvalidMagic magic)
      else
        let ver := get_uint (slice 4 5 hdr) in
        if negb (ver =? Version) then Error (UnsupportedVersion ver)
        else
          let cmd := get_uint (slice 5 6 hdr) in
          let reqID := get_uint (slice 6 14 hdr) in
          let bodyLen := get_uint (slice 14 18 hdr) in
          if MaxBodySize <? bodyLen then Error (BodyTooLarge bodyLen)
          else if MaxInt32 <? bodyLen then Error BodyOverflow
          else if 0 <? bodyLen then
            match io_ReadFull r1 bodyLen with
            | Error e => Error (ReadBodyErr e)
            | Ok (body, r2) => Ok (mkFrame cmd reqID body, r2)
            end
          else Ok (mkFrame cmd reqID [], r1)
  end.

(** [Unmarshal]: an empty body leaves the caller's zero value. *)
Definition Unmarshal `{JsonCodec A} (f : Frame) (zero : A) : option A :=
  if zlen (fr_Body f) =? 0 then Some zero else json_Unmarshal (fr_Body f).

(** A connection's read loop: frames until the stream is used up. *)
Fixpoint decode_stream (fuel : nat) (r : bytes) : list Frame :=
  match fuel with
  | O => []
  | S fuel =>
      match Decoder_Decode r with
      | Ok (f, r') => f :: decode_stream fuel r'
      | Error _ => []
      end
  end.

(** Frames a sender may write: every field within its width. *)
Definition frame_wf (f : Frame) : Prop :=
  0 <= fr_Command f < 2 ^ 8 ∧ is_u64 (fr_RequestID f) ∧ zlen (fr_Body f) <= MaxBodySize.

Definition frame_bytes (f : Frame) : bytes := frame_header f ++ fr_Body f.

(** ** Facts *)

Lemma frame_header_length f : zlen (frame_header f) = HeaderSize.
Proof. unfold frame_header. rewrite !zlen_app. reflexivity. Qed.

Lemma byte_at (z : Z) : get_uint [byte.of_Z z] = u8 z.
Proof. unfold get_uint. rewrite le_combine_1, byte.unsigned_of_Z. done. Qed.

(** The five fields of a header read back from their offsets. *)
Lemma frame_header_fields f :
  slice 0 4 (frame_header f) = put_u32 Magic ∧
  slice 4 5 (frame_header f) = [byte.of_Z Version] ∧
  slice 5 6 (frame_header f) = [byte.of_Z (fr_Command f)] ∧
  slice 6 14 (frame_header f) = put_u64 (fr_RequestID f) ∧
  slice 14 18 (frame_header f) = put_u32 (u32 (zlen (fr_Body f))).
Proof. repeat split. Qed.

Lemma Decoder_Decode_frame f r :
  frame_wf f → Decoder_Decode (frame_bytes f ++ r) = Ok (f, r).
Proof.
  intros (Hc & Hid & Hlen). unfold Decoder_Decode, frame_bytes. rewrite <- app_assoc.
  rewrite (io_ReadFull_app (frame_header f)) by (by rewrite frame_header_length).
  destruct (frame_header_fields f) as (-> & -> & -> & -> & ->).
  pose proof (zlen_nonneg (fr_Body f)). unfold MaxBodySize, MaxInt32 in *.
  rewrite !byte_at, !get_put_u32, get_put_u64, (u64_id (fr_RequestID f)) by done.
  rewrite (u32_id (zlen _)), (u32_id (zlen _)) by lia. unfold u8.
  rewrite (Z.mod_small (fr_Command f)) by done. cbn -[io_ReadFull Z.ltb].
  destruct (Z.ltb_spec (16 * 1024 * 1024) (zlen (fr_Body f))); [lia|].
  destruct (Z.ltb_spec (2 ^ 31 - 1) (zlen (fr_Body f))); [lia|].
  destruct (Z.ltb_spec 0 (zlen (fr_Body f))).
  - rewrite io_ReadFull_app by done. by destruct f.
  - destruct f as [c i b]; simpl in *. by rewrite (zlen_zero b) by lia.
Qed.

(** Eighteen bytes are their five fields. *)
Lemma header_split (hdr : bytes) :
  length hdr = 18%nat →
  hdr = slice 0 4 hdr ++ slice 4 5 hdr ++ slice 5 6 hdr ++ slice 6 14 hdr ++ slice 14 18 hdr.
Proof.
  intros Hl. do 18 (destruct hdr as [|? hdr]; [discriminate Hl|]).
  destruct hdr; [|discriminate Hl]. reflexivity.
Qed.

Lemma byte_uint (b : bytes) : length b = 1%nat → [byte.of_Z (get_uint b)] = b.
Proof.
  intros Hl. destruct b as [|x [|]]; try discriminate Hl.
  unfold get_uint. rewrite le_combine_1, byte.of_Z_unsigned. done.
Qed.

(** A header that decodes is the header of the frame it decodes to. *)
Lemma header_sound hdr body :
  zlen hdr = HeaderSize → get_uint (slice 0 4 hdr) = Magic →
  get_uint (slice 4 5 hdr) = Version → get_uint (slice 14 18 hdr) = zlen body →
  zlen body < 2 ^ 32 →
  hdr = frame_header (mkFrame (get_uint (slice 5 6 hdr)) (get_uint (slice 6 14 hdr)) body).
Proof.
  intros Hl Hm Hv Hb Hsm. unfold zlen, HeaderSize in Hl.
  assert (length hdr = 18%nat) as Hl' by lia. clear Hl.
  rewrite (header_split hdr Hl') at 1. unfold frame_header. cbn [fr_Command fr_RequestID fr_Body].
  rewrite <- Hm, <- Hv, u32_id by (pose proof (zlen_nonneg body); lia). rewrite <- Hb.
  unfold put_u32, put_u64.
  rewrite !le_split_uint by (rewrite slice_length; lia).
  rewrite <- app_comm_cons. change (?x :: [?y] ++ ?l) with ([x] ++ [y] ++ l).
  rewrite !byte_uint by (rewrite slice_length; lia). done.
Qed.

(** C35: the decoder accepts only what an encoder writes: a stream that decodes
    to a frame starts with exactly that frame's encoding, every field within
    its width and the body within the 16 MiB limit, so nothing larger is ever
    allocated for a peer. *)
Theorem decode_sound r f r' :
  Decoder_Decode r = Ok (f, r') → r = frame_bytes f ++ r' ∧ frame_wf f.
Proof.
  unfold Decoder_Decode. intros H.
  destruct (io_ReadFull r HeaderSize) as [[hdr r1]|] eqn:E1; [|done].
  apply io_ReadFull_inv in E1 as [-> Hl]; [|done].
  assert (length hdr = 18%nat) as Hl' by (unfold zlen, HeaderSize in Hl; lia).
  destruct (Z.eqb_spec (get_uint (slice 0 4 hdr)) Magic) as [Hm|]; [|done].
  destruct (Z.eqb_spec (get_uint (slice 4 5 hdr)) Version) as [Hv|]; [|done]. cbn [negb] in H.
  pose proof (get_uint_range 4 (slice 14 18 hdr) ltac:(rewrite slice_length; lia)).
  pose proof (get_uint_range 1 (slice 5 6 hdr) ltac:(rewrite slice_length; lia)).
  pose proof (get_uint_range 8 (slice 6 14 hdr) ltac:(rewrite slice_length; lia)).
  destruct (Z.ltb_spec MaxBodySize (get_uint (slice 14 18 hdr))); [done|].
  destruct (Z.ltb_spec MaxInt32 (get_uint (slice 14 18 hdr))); [done|].
  assert (∃ body, r1 = body ++ r' ∧ zlen body = get_uint (slice 14 18 hdr) ∧
    f = mkFrame (get_uint (slice 5 6 hdr)) (get_uint (slice 6 14 hdr)) body) as (body & -> & Hb & ->).
  { destruct (Z.ltb_spec 0 (get_uint (slice 14 18 hdr))).
    - destruct (io_ReadFull r1 _) as [[body r2]|] eqn:E2; [|done]. simplify_eq.
      apply io_ReadFull_inv in E2 as [-> Hb]; [|lia]. eauto.
    - simplify_eq. exists []. split_and!; [done|rewrite zlen_nil; lia|done]. }
  split.
  - unfold frame_bytes. rewrite <- header_sound by (done || lia). by rewrite <- app_assoc.
  - unfold frame_wf, is_u64. cbn [fr_Command fr_RequestID fr_Body]. lia.
Qed.

Lemma decode_sound_witness :
  Decoder_Decode (frame_bytes (mkFrame CmdPing 7 [Byte.x7b])) = Ok (mkFrame CmdPing 7 [Byte.x7b], []) ∧
  frame_wf (mkFrame CmdPing 7 [Byte.x7b]).
Proof.
  assert (Decoder_Decode (frame_bytes (mkFrame CmdPing 7 [Byte.x7b])) =
          Ok (mkFrame CmdPing 7 [Byte.x7b], [])) as Hd by reflexivity.
  split; [exact Hd|]. exact (proj2 (decode_sound _ _ _ Hd)).
Defined.

(** C34: a connection's byte stream is read back as the frames that were
    written: decoding the concatenated encodings of any list of frames yields
    that list, whatever the fuel beyond one step per frame. *)
Theorem frame_stream_roundtrip (fs : list Frame) (fuel : nat) :
  Forall frame_wf fs → (length fs < fuel)%nat →
  decode_stream fuel (mjoin (frame_bytes <$> fs)) = fs.
Proof.
  intros Hwf. revert fuel. induction Hwf as [|f fs Hf Hfs IH]; intros [|fuel] Hn;
    try (simpl in Hn; lia); cbn [decode_stream].
  - reflexivity.
  - rewrite fmap_cons, mjoin_cons, Decoder_Decode_frame by done. f_equal. apply IH.
    simpl in Hn. lia.
Qed.

Lemma frame_stream_roundtrip_witness :
  decode_stream 3 (frame_bytes (mkFrame CmdPing 1 []) ++ frame_bytes (mkFrame CmdPong 2 [])) =
    [mkFrame CmdPing 1 []; mkFrame CmdPong 2 []].
Proof.
  rewrite <- (app_nil_r (frame_bytes (mkFrame CmdPong 2 []))).
  apply (frame_stream_roundtrip [mkFrame CmdPing 1 []; mkFrame CmdPong 2 []] 3).
  - apply Forall_cons_2; [|apply Forall_cons_2; [|apply Forall_nil_2]];
      unfold frame_wf, is_u64, zlen, MaxBodySize, CmdPing, CmdPong; simpl; lia.
  - simpl. lia.
Defined.

(** Encoding is all or nothing up to the limit: a body that does not
    marshal or is over 16 MiB is refused before a byte is written, and
    otherwise the writer receives exactly one frame that decodes to the
    command, the request id and the marshalled body. *)
Theorem encode_writes_one_frame `{JsonCodec A} (w : bytes) (cmd id : Z) (body : option A) :
  0 <= cmd < 2 ^ 8 → is_u64 id →
  (∀ x b, body = Some x → json_Marshal x = Some b → zlen b < 2 ^ 32) →
  match Encoder_Encode w cmd id body true true with
  | (w', Error e) =>
      w' = w ∧ ((e = EncodeBodyErr ∧ ∃ x, body = Some x ∧ json_Marshal x = None) ∨
                ∃ x b, body = Some x ∧ json_Marshal x = Some b ∧ MaxBodySize < zlen b ∧
                       e = BodyTooLarge (zlen b))
  | (w', Ok _) =>
      ∃ b, (match body with None => Some [] | Some x => json_Marshal x end) = Some b ∧
        w' = w ++ frame_bytes (mkFrame cmd id b) ∧
        ∀ rest, Decoder_Decode (frame_bytes (mkFrame cmd id b) ++ rest) = Ok (mkFrame cmd id b, rest)
  end.
Proof.
  intros Hc Hid Hsm. unfold Encoder_Encode.
  set (ob := match body with None => Some [] | Some x => json_Marshal x end).
  destruct ob as [b|] eqn:Eb.
  2: { split; [done|]. left. split; [done|]. destruct body as [x|]; [by exists x|done]. }
  assert (0 <= zlen b < 2 ^ 32) as Hb.
  { split; [apply zlen_nonneg|]. destruct body as [x|]; [by eapply Hsm|].
    unfold ob in Eb. simplify_eq. by rewrite zlen_nil. }
  rewrite u32_id by done. destruct (Z.ltb_spec MaxBodySize (zlen b)).
  - split; [done|]. right. destruct body as [x|]; [by exists x, b|].
    unfold ob in Eb. simplify_eq. by rewrite zlen_nil in *.
  - unfold Encoder_writeFrame. cbn [negb fr_Body].
    destruct (Z.ltb_spec 0 (zlen b)) as [Hpos|Hzero]; exists b.
    + split_and!; [done|unfold frame_bytes; by rewrite app_assoc|].
      intros rest. apply Decoder_Decode_frame. unfold frame_wf, is_u64 in *. cbn. lia.
    + assert (b = []) as -> by (apply zlen_zero; lia).
      split_and!; [done|unfold frame_bytes; by rewrite app_nil_r|].
      intros rest. apply Decoder_Decode_frame. unfold frame_wf, is_u64 in *. cbn. lia.
Qed.

Lemma encode_writes_one_frame_witness :
  (Encoder_Encode [] CmdPing 9 (None : option Message) true true).1 =
    frame_bytes (mkFrame CmdPing 9 []).
Proof.
  pose proof (encode_writes_one_frame [] CmdPing 9 (None : option Message)
    ltac:(unfold CmdPing; lia) ltac:(unfold is_u64; lia) ltac:(done)) as Hw.
  assert (Encoder_Encode [] CmdPing 9 (None : option Message) true true =
          (frame_bytes (mkFrame CmdPing 9 []), Ok tt)) as E by reflexivity.
  rewrite E in *. destruct Hw as (b & Hb & Hw & _). reflexivity.
Defined.
