(* ===== verification/Record.v ===== *)
(** * Log records: [internal/storage/record.go] and [internal/compress]

    The on-disk form of one message, in both record versions, and the payload
    codecs.  A reader is the bytes left to read; [now] is the reading of
    [time.Now().UnixNano()] at the moment of encoding. *)

From S2P Require Import Prelude GoLib Json Types.

Local Open Scope Z_scope.

(** ** [compress.Compress] and [compress.Decompress] *)

Definition CodecNone : Z := 0.
Definition CodecFlate : Z := 1.
Definition CodecZlib : Z := 2.

Inductive compress_err :=
| CodecFailed
| UnknownCodec (c : Z).

Definition codec_result (o : option bytes) : result bytes compress_err :=
  match o with
  | Some b => Ok b
  | None => Error CodecFailed
  end.

Definition Compress `{Deflate} (codec : Z) (src : bytes) : result bytes compress_err :=
  if codec =? CodecNone then Ok src
  else if codec =? CodecFlate then codec_result (flate_compress src)
  else if codec =? CodecZlib then codec_result (zlib_compress src)
  else Error (UnknownCodec codec).

Definition Decompress `{Deflate} (codec : Z) (src : bytes) : result bytes compress_err :=
  if codec =? CodecNone then Ok src
  else if codec =? CodecFlate then codec_result (flate_decompress src)
  else if codec =? CodecZlib then codec_result (zlib_decompress src)
  else Error (UnknownCodec codec).

(** ** Record layout *)

Definition recV1HeaderSize : Z := 26.
Definition recV2HeaderSize : Z := 27.
Definition RecordVersion : Z := 2.

Definition segMagic : bytes := [Byte.x50; Byte.x53; Byte.x47; Byte.x32].
Definition segFileHeaderSize : Z := 5.

(** The five bytes at the start of a version-2 segment file. *)
Definition segFileHeader : bytes := segMagic ++ [byte.of_Z RecordVersion].

Inductive rec_err :=
| RecRead (e : read_err)
| ChecksumMismatch (offset : Z)
| DecompressErr (offset : Z) (e : compress_err)
| JsonErr.

(** The 26 bytes both versions start with. *)
Definition record_header (offset now : Z) (key payload : bytes) : bytes :=
  put_u64 (u64 offset) ++ put_u64 (u64 now) ++ put_u16 (u16 (zlen key)) ++
  put_u32 (u32 (zlen payload)) ++ put_u32 (crc32_ChecksumIEEE payload).

Section Records.
Context `{JsonCodec Message} `{Deflate}.

Definition encodeRecord (offset : Z) (msg : Message) (version now : Z) : option bytes :=
  match json_Marshal msg with
  | None => None
  | Some payload =>
      let key := bytes_of_string (msg_Key msg) in
      let hdr := record_header offset now key payload in
      if RecordVersion <=? version
      then Some (hdr ++ [byte.of_Z (msg_Codec msg)] ++ key ++ payload)
      else Some (hdr ++ key ++ payload)
  end.

(** The header fields of a record, read from their positions. *)
Record rec_fields := mkRecFields {
  rf_offset : Z;
  rf_ts : Z;
  rf_keyLen : Z;
  rf_payloadLen : Z;
  rf_checksum : Z;
  rf_codec : Z;
}.

Definition parse_header (version : Z) (hdr : bytes) : rec_fields :=
  mkRecFields
    (i64 (get_uint (slice 0 8 hdr)))
    (i64 (get_uint (slice 8 16 hdr)))
    (get_uint (slice 16 18 hdr))
    (get_uint (slice 18 22 hdr))
    (get_uint (slice 22 26 hdr))
    (if RecordVersion <=? version then get_uint (slice 26 27 hdr) else 0).

Definition hdr_size (version : Z) : Z :=
  if RecordVersion <=? version then recV2HeaderSize else recV1HeaderSize.

(** The payload of a record once read: checksum, then decompression, then
    JSON. *)
Definition decode_payload (h : rec_fields) (payload : bytes) : result Message rec_err :=
  if negb (crc32_ChecksumIEEE payload =? rf_checksum h)
  then Error (ChecksumMismatch (rf_offset h))
  else
    let plain :=
      if negb (rf_codec h =? 0) then
        match Decompress (rf_codec h) payload with
        | Ok b => Ok b
        | Error e => Error (DecompressErr (rf_offset h) e)
        end
      else Ok payload in
    match plain with
    | Error e => Error e
    | Ok b =>
        match json_Unmarshal b with
        | None => Error JsonErr
        | Some msg => Ok msg
        end
    end.

(** The message, its offset and the rest of the reader. *)
Definition decodeRecord (r : bytes) (version : Z) :
    result (Message * Z * bytes) rec_err :=
  match io_ReadFull r (hdr_size version) with
  | Error e => Error (RecRead e)
  | Ok (hdr, r1) =>
      let h := parse_header version hdr in
      match io_ReadFull r1 (rf_keyLen h + rf_payloadLen h) with
      | Error e => Error (RecRead e)
      | Ok (body, r2) =>
          match decode_payload h (drop (Z.to_nat (rf_keyLen h)) body) with
          | Error e => Error e
          | Ok msg => Ok (set_offset msg (rf_offset h), rf_offset h, r2)
          end
      end
  end.

(** ** A record as the pair of the encoding time and the message

    [Segment.Write] stores the offset in the message before it encodes it,
    so the message carries the offset of its record. *)

Definition entry : Type := Z * Message.

Definition e_offset (e : entry) : Z := msg_Offset e.2.

Definition entry_bytes (version : Z) (e : entry) : bytes :=
  default [] (encodeRecord (e_offset e) e.2 version e.1).

(** What a record needs to be readable again: a message JSON reproduces, a
    key and a payload within the widths of their length fields, and, where
    the codec byte is stored, a payload the codec byte does not misdescribe. *)
Definition entry_wf (version : Z) (e : entry) : Prop :=
  json_wf e.2 ∧ zlen (bytes_of_string (msg_Key e.2)) < 2 ^ 16 ∧
  zlen (entry_bytes version e) < 2 ^ 32 ∧ is_i64 (e_offset e) ∧ is_i64 e.1 ∧
  (RecordVersion <= version → msg_Codec e.2 = 0).

(** ** Facts *)

Lemma hdr_size_pos version : 0 < hdr_size version.
Proof. unfold hdr_size. case_match; reflexivity. Qed.

Lemma record_header_length o n k p : length (record_header o n k p) = 26%nat.
Proof. unfold record_header. by rewrite !length_app; autorewrite with go. Qed.

(** Compression and decompression are inverse, for every codec. *)
Lemma decompress_compress codec b c :
  Compress codec b = Ok c → Decompress codec c = Ok b.
Proof.
  unfold Compress, Decompress.
  destruct (codec =? CodecNone); [by intros; simplify_eq|].
  destruct (codec =? CodecFlate).
  { destruct (flate_compress b) eqn:E; intros; simplify_eq/=. by rewrite (flate_roundtrip _ _ E). }
  destruct (codec =? CodecZlib); [|done].
  destruct (zlib_compress b) eqn:E; intros; simplify_eq/=. by rewrite (zlib_roundtrip _ _ E).
Qed.

Lemma set_offset_id m : set_offset m (msg_Offset m) = m.
Proof. by destruct m. Qed.

(** The bytes of a well-formed record, split where the decoder splits them. *)
Lemma entry_bytes_shape version e :
  json_wf e.2 →
  ∃ payload, json_Marshal e.2 = Some payload ∧ json_Unmarshal payload = Some e.2 ∧
    entry_bytes version e =
      (record_header (e_offset e) e.1 (bytes_of_string (msg_Key e.2)) payload ++
       (if RecordVersion <=? version then [byte.of_Z (msg_Codec e.2)] else [])) ++
      bytes_of_string (msg_Key e.2) ++ payload.
Proof.
  intros (p & Hm & Hu)%json_roundtrip. exists p. split_and!; try done.
  unfold entry_bytes, encodeRecord. rewrite Hm.
  case_match; cbn [default]; by rewrite ?app_nil_r, <- ?app_assoc.
Qed.

Lemma parse_record_header version o n k p c :
  is_i64 o → is_i64 n → zlen k < 2 ^ 16 → zlen p < 2 ^ 32 →
  parse_header version (record_header o n k p ++ c) =
    mkRecFields o n (zlen k) (zlen p) (crc32_ChecksumIEEE p)
      (if RecordVersion <=? version then get_uint (slice 0 1 c) else 0).
Proof.
  intros Ho Hn Hk Hp. unfold parse_header.
  assert (∀ i j, (26 <= i)%nat →
    slice i j (record_header o n k p ++ c) = slice (i - 26) (j - 26) c) as Hc.
  { intros. by rewrite slice_app_r; rewrite record_header_length. }
  rewrite (Hc 26%nat 27%nat) by lia. clear Hc. pose proof (zlen_nonneg k). pose proof (zlen_nonneg p).
  f_equal.
  - transitivity (i64 (get_uint (put_u64 (u64 o)))); [reflexivity|].
    rewrite get_put_u64, (u64_id (u64 o)) by apply u64_range. by apply i64_u64.
  - transitivity (i64 (get_uint (put_u64 (u64 n)))); [reflexivity|].
    rewrite get_put_u64, (u64_id (u64 n)) by apply u64_range. by apply i64_u64.
  - transitivity (get_uint (put_u16 (u16 (zlen k)))); [reflexivity|].
    rewrite get_put_u16, !u16_id; try lia. rewrite u16_id; lia.
  - transitivity (get_uint (put_u32 (u32 (zlen p)))); [reflexivity|].
    rewrite get_put_u32, !u32_id; try lia. rewrite u32_id; lia.
  - transitivity (get_uint (put_u32 (crc32_ChecksumIEEE p))); [reflexivity|].
    by rewrite get_put_u32, u32_crc32.
Qed.

(** A well-formed record as the decoder sees it: a header whose fields are
    the record's, the key, and a payload that unmarshals to the message. *)
Lemma entry_parts version e :
  entry_wf version e → ∃ hdr payload,
    let key := bytes_of_string (msg_Key e.2) in
    entry_bytes version e = hdr ++ key ++ payload ∧ zlen hdr = hdr_size version ∧
    parse_header version hdr =
      mkRecFields (e_offset e) e.1 (zlen key) (zlen payload) (crc32_ChecksumIEEE payload) 0 ∧
    json_Unmarshal payload = Some e.2.
Proof.
  intros (Hj & Hk & Hlen & Ho & Hn & Hc).
  destruct (entry_bytes_shape version e Hj) as (p & Hm & Hu & Hb).
  rewrite Hb in Hlen. eexists _, p. split; [exact Hb|].
  set (key := bytes_of_string (msg_Key e.2)) in *.
  set (codec := if RecordVersion <=? version then _ else _) in *.
  rewrite !zlen_app in Hlen.
  pose proof (zlen_nonneg key). pose proof (zlen_nonneg p). pose proof (zlen_nonneg codec).
  pose proof (zlen_nonneg (record_header (e_offset e) e.1 key p)).
  split_and!; [| |done].
  - rewrite zlen_app. unfold zlen at 1. rewrite record_header_length.
    unfold hdr_size, codec. by case_match.
  - rewrite parse_record_header by (done || lia). f_equal.
    unfold codec. destruct (Z.leb_spec RecordVersion version); [|done]. by rewrite Hc.
Qed.

(** A written record is read back, whatever follows it. *)
Lemma decodeRecord_entry version e r :
  entry_wf version e →
  decodeRecord (entry_bytes version e ++ r) version = Ok (e.2, e_offset e, r).
Proof.
  intros (hdr & p & -> & Hh & Hp & Hu)%entry_parts.
  unfold decodeRecord. rewrite <- app_assoc, io_ReadFull_app, Hp by done.
  cbn [rf_keyLen rf_payloadLen rf_offset].
  rewrite io_ReadFull_app by (by rewrite zlen_app). rewrite to_nat_zlen, drop_app_length.
  unfold decode_payload. cbn [rf_checksum rf_codec rf_offset]. rewrite Z.eqb_refl.
  cbn [Z.eqb negb]. rewrite Hu. unfold e_offset. by rewrite set_offset_id.
Qed.

(** Each record read uses up at least a header. *)
Lemma decodeRecord_shrinks r version m o r' :
  decodeRecord r version = Ok (m, o, r') → (length r' < length r)%nat.
Proof.
  unfold decodeRecord. intros Hd.
  destruct (io_ReadFull r (hdr_size version)) as [[hdr r1]|] eqn:E1; [|done].
  pose proof (hdr_size_pos version).
  apply io_ReadFull_inv in E1 as [-> Hl1]; [|lia].
  destruct (io_ReadFull r1 _) as [[body r2]|] eqn:E2; [|done].
  apply io_ReadFull_inv in E2 as [-> Hl2].
  2: { unfold parse_header; cbn. unfold get_uint.
       pose proof (le_combine_bound (slice 16 18 hdr)).
       pose proof (le_combine_bound (slice 18 22 hdr)). lia. }
  case_match; simplify_eq. rewrite !length_app. unfold zlen in *. lia.
Qed.

(** A torn record, a proper prefix of a written one, is reported as the end
    of the file: [io.EOF] when nothing was written, [io.ErrUnexpectedEOF]
    otherwise. *)
Lemma decodeRecord_torn version e n :
  entry_wf version e → (n < length (entry_bytes version e))%nat →
  ∃ err, decodeRecord (take n (entry_bytes version e)) version = Error (RecRead err).
Proof.
  intros (hdr & p & -> & Hh & Hp & _)%entry_parts Hlt. unfold decodeRecord.
  set (key := bytes_of_string (msg_Key e.2)) in *.
  destruct (decide (n < length hdr)%nat) as [Hs|Hs].
  - destruct (io_ReadFull_short (take n (hdr ++ key ++ p)) (hdr_size version)) as [er ->]; [|eauto].
    rewrite <- Hh. unfold zlen. rewrite length_take. lia.
  - rewrite take_app_ge by lia. rewrite io_ReadFull_app, Hp by done.
    cbn [rf_keyLen rf_payloadLen].
    destruct (io_ReadFull_short (take (n - length hdr) (key ++ p)) (zlen key + zlen p))
      as [er ->]; [|eauto].
    rewrite !length_app in Hlt. unfold zlen. rewrite length_take, length_app. lia.
Qed.

(** C36: a log record is read back exactly: for a message within the widths of
    the format and, in version 2, without a codec ([entry_wf]; with one it is
    unreadable, [zlib_record_unreadable]), decoding what [encodeRecord] wrote
    (either record version), followed by any bytes, gives the message, its
    offset and those bytes. *)
Theorem record_roundtrip (msg : Message) (version now : Z) (rec rest : bytes) :
  encodeRecord (msg_Offset msg) msg version now = Some rec →
  entry_wf version (now, msg) →
  decodeRecord (rec ++ rest) version = Ok (msg, msg_Offset msg, rest).
Proof.
  intros Henc Hwf. pose proof (decodeRecord_entry version (now, msg) rest Hwf) as Hd.
  unfold entry_bytes, e_offset in Hd. simpl in Hd. by rewrite Henc in Hd.
Qed.

(** A record cut short by a crash is never mistaken for data: every proper
    prefix of an encoded record decodes to an end-of-file error. *)
Theorem record_torn_is_eof (msg : Message) (version now : Z) (rec : bytes) (n : nat) :
  encodeRecord (msg_Offset msg) msg version now = Some rec →
  entry_wf version (now, msg) → (n < length rec)%nat →
  ∃ e, decodeRecord (take n rec) version = Error (RecRead e).
Proof.
  intros Henc Hwf Hn. pose proof (decodeRecord_torn version (now, msg) n Hwf) as Hd.
  unfold entry_bytes, e_offset in Hd. simpl in Hd. rewrite Henc in Hd. by apply Hd.
Qed.

End Records.

#[global] Arguments e_offset : simpl never.
#[global] Arguments entry_bytes : simpl never.

(** ** A record whose codec byte is set

    The payload of a record is the JSON of the message, never compressed; the
    codec byte is the message's.  A zlib codec byte makes the decoder inflate
    JSON text. *)

(** A message published with the zlib codec is stored as a record that can
    never be decoded again: JSON starts with a brace, which no zlib stream
    does. *)
Theorem zlib_record_unreadable `{Deflate} (msg : Message) (now : Z) (rec rest : bytes) :
  encodeRecord (msg_Offset msg) msg RecordVersion now = Some rec →
  msg_Codec msg = CodecZlib → zlen (bytes_of_string (msg_Key msg)) < 2 ^ 16 →
  zlen rec < 2 ^ 32 → is_i64 (msg_Offset msg) → is_i64 now →
  decodeRecord (rec ++ rest) RecordVersion =
    Error (DecompressErr (msg_Offset msg) CodecFailed).
Proof.
  intros Henc Hc Hk Hlen Ho Hn.
  set (payload := print (JObj (Message_fields msg))) in *.
  set (key := bytes_of_string (msg_Key msg)) in *.
  change (Some (record_header (msg_Offset msg) now key payload ++ [byte.of_Z (msg_Codec msg)] ++
            key ++ payload) = Some rec) in Henc. apply (inj Some) in Henc. subst rec.
  rewrite !zlen_app in Hlen. pose proof (zlen_nonneg key). pose proof (zlen_nonneg payload).
  pose proof (zlen_nonneg (record_header (msg_Offset msg) now key payload)).
  pose proof (zlen_nonneg [byte.of_Z (msg_Codec msg)]).
  unfold decodeRecord.
  replace ((record_header (msg_Offset msg) now key payload ++ [byte.of_Z (msg_Codec msg)] ++
            key ++ payload) ++ rest)
    with ((record_header (msg_Offset msg) now key payload ++ [byte.of_Z (msg_Codec msg)]) ++
          (key ++ payload) ++ rest) by (by rewrite <- !app_assoc).
  rewrite io_ReadFull_app.
  2: { rewrite zlen_app. unfold zlen. by rewrite record_header_length. }
  rewrite parse_record_header by (done || lia). rewrite Hc. cbn [rf_keyLen rf_payloadLen].
  rewrite io_ReadFull_app by (by rewrite zlen_app). rewrite to_nat_zlen, drop_app_length.
  unfold decode_payload. cbn [rf_checksum rf_codec rf_offset]. rewrite Z.eqb_refl. cbn [negb].
  change (if RecordVersion <=? RecordVersion then get_uint (slice 0 1 [byte.of_Z CodecZlib])
          else 0) with CodecZlib.
  change (CodecZlib =? 0) with false. cbn [negb].
  change (Decompress CodecZlib payload) with (codec_result (zlib_decompress payload)).
  destruct (zlib_decompress payload) as [b|] eqn:E; [|done]. exfalso.
  destruct (zlib_magic _ _ E) as (h & b' & Hb & Hh).
  destruct (print_obj_head (Message_fields msg)) as [t Ht].
  unfold payload in Hb. rewrite Ht in Hb. injection Hb as <- _. discriminate.
Qed.

(** ** Concrete records *)

Definition demo_msg (off codec : Z) : Message :=
  mkMessage "id-1" "orders" 1700000000000000000 (bytes_of_string "hello") ∅ "k" 3 off codec.

Lemma demo_msg_wf off : is_i64 off → Message_wf (demo_msg off 0).
Proof.
  intros Ho. unfold Message_wf. cbn [demo_msg msg_ID msg_Topic msg_Key msg_Headers msg_Timestamp
    msg_Partition msg_Offset msg_Codec].
  split_and!; try reflexivity; try done; try (unfold is_i64, is_i32; lia).
Qed.

(** Closes [entry_wf] of a concrete record by evaluation. *)
Ltac concrete_entry_wf :=
  unfold entry_wf; split_and!;
  [apply demo_msg_wf; unfold is_i64; simpl; lia
  |vm_compute; reflexivity|vm_compute; reflexivity
  |unfold is_i64, e_offset; simpl; lia|unfold is_i64; simpl; lia|done].

Lemma demo_entry_wf0 : entry_wf RecordVersion (17, demo_msg 0 0).
Proof. concrete_entry_wf. Qed.

Definition demo_rec : bytes := entry_bytes RecordVersion (17, demo_msg 0 0).

Lemma record_roundtrip_witness :
  decodeRecord (demo_rec ++ [Byte.x00]) RecordVersion = Ok (demo_msg 0 0, 0, [Byte.x00]).
Proof.
  apply (record_roundtrip (demo_msg 0 0) RecordVersion 17 demo_rec [Byte.x00]).
  - vm_compute. reflexivity.
  - apply demo_entry_wf0.
Defined.

Lemma record_torn_is_eof_witness :
  ∃ e, decodeRecord (take 30 demo_rec) RecordVersion = Error (RecRead e).
Proof.
  apply (record_torn_is_eof (demo_msg 0 0) RecordVersion 17 demo_rec 30).
  - vm_compute. reflexivity.
  - apply demo_entry_wf0.
  - apply Nat.ltb_lt. vm_compute. reflexivity.
Defined.

Lemma zlib_record_unreadable_witness :
  decodeRecord (entry_bytes RecordVersion (17, demo_msg 0 2) ++ []) RecordVersion =
    Error (DecompressErr 0 CodecFailed).
Proof.
  apply (zlib_record_unreadable (demo_msg 0 2) 17
           (entry_bytes RecordVersion (17, demo_msg 0 2)) []).
  - vm_compute. reflexivity.
  - reflexivity.
  - vm_compute. reflexivity.
  - vm_compute. reflexivity.
  - unfold is_i64. simpl. lia.
  - unfold is_i64. lia.
Defined.
