(* ===== verification/Segment.v ===== *)
(** * Log segments: [internal/storage/segment.go]

    A segment is the contents of its two files and the counters kept in
    memory.  The outcomes of the system calls are arguments: [WriteIO] for a
    write, [ReadIO] for a read.  Offsets wrap at 64 bits as in the code; file
    sizes, bounded by the disk, do not.  The abstract state is the list of
    records in the log; [seg_rep] relates the two and every operation is
    characterised on it. *)

From S2P Require Import Prelude GoLib Types Record.

Local Open Scope Z_scope.

(** ** State *)

Record Segment := mkSegment {
  seg_baseOffset : Z;
  seg_nextOffset : Z;
  seg_logFile : bytes;
  seg_indexFile : bytes;
  seg_logSize : Z;
  seg_maxBytes : Z;
  seg_indexEvery : Z;
  seg_byteSinceIndex : Z;
  seg_syncPolicy : string;
  seg_version : Z;
  seg_dataStart : Z;
}.

(** Outcomes of the calls of one [Write]: how many bytes of the record reach
    the log when its write fails ([None]: the write succeeds), whether the
    fsync succeeds, and the same for the index entry. *)
Record WriteIO := mkWriteIO {
  wio_log : option nat;
  wio_sync : bool;
  wio_idx : option nat;
}.

Definition io_fine : WriteIO := mkWriteIO None true None.

(** Outcomes of the calls of one read: is the index readable, does the log
    open, does the seek succeed. *)
Record ReadIO := mkReadIO {
  rio_idx : bool;
  rio_open : bool;
  rio_seek : bool;
}.

Definition rio_fine : ReadIO := mkReadIO true true true.

Inductive seg_err :=
| EncodeErr
| LogWriteErr
| LogSyncErr
| IndexWriteErr
| OpenErr
| SeekErr
| HeaderWriteErr
| RecordErr (e : rec_err).

(** [seg_write_fields]: the fields [Write] assigns. *)
Definition seg_with (s : Segment) (next : Z) (log idx : bytes) (size since : Z) : Segment :=
  mkSegment (seg_baseOffset s) next log idx size (seg_maxBytes s) (seg_indexEvery s) since
    (seg_syncPolicy s) (seg_version s) (seg_dataStart s).

Definition index_entry (offset pos : Z) : bytes := put_u64 (u64 offset) ++ put_u64 (u64 pos).

(** [%020d] for a non-negative offset: zeros to the left up to 20 digits. *)
Definition segmentFilename (baseOffset : Z) (ext : string) : string :=
  let d := fmt_d baseOffset in
  string_of_bytes (replicate (20 - String.length d) Byte.x30) +:+ d +:+ ext.

(** ** Operations that need no codec *)

Definition Segment_IsFull (s : Segment) : bool := seg_maxBytes s <=? seg_logSize s.

Definition Segment_BaseOffset (s : Segment) : Z := seg_baseOffset s.

Definition Segment_NextOffset (s : Segment) : Z := seg_nextOffset s.

Definition Segment_Size (s : Segment) : Z := seg_logSize s.

(** [Sync] changes no byte of the model; its result is the fsync's. *)
Definition Segment_Sync (s : Segment) (ok : bool) : result unit seg_err :=
  if ok then Ok tt else Error LogSyncErr.

(** [Close] runs its four calls whatever fails and returns the first error. *)
Definition Segment_Close (s : Segment) (outcomes : list (option seg_err)) : result unit seg_err :=
  match omap id outcomes with
  | e :: _ => Error e
  | [] => Ok tt
  end.

(** The index scan of [findPosition]: 16-byte entries, up to the first entry
    beyond [startOffset]. *)
Fixpoint scan_index (fuel : nat) (data : bytes) (startOffset bestPos : Z) : Z :=
  match fuel with
  | O => bestPos
  | S fuel =>
      if zlen data <? 16 then bestPos
      else
        let idxOff := i64 (get_uint (slice 0 8 data)) in
        let filePos := i64 (get_uint (slice 8 16 data)) in
        if idxOff <=? startOffset then scan_index fuel (drop 16 data) startOffset filePos
        else bestPos
  end.

Definition Segment_findPosition (io : ReadIO) (s : Segment) (startOffset : Z) : Z :=
  if rio_idx io
  then scan_index (length (seg_indexFile s)) (seg_indexFile s) startOffset (seg_dataStart s)
  else seg_dataStart s.

(** [f.Seek(pos, io.SeekStart)] then reading: what is left from [pos] on. *)
Definition seek (pos : Z) (file : bytes) : bytes := drop (Z.to_nat pos) file.

(** The header scan of [findExactPosition].  A seek past the end succeeds and
    the next read finds nothing, which [drop] gives. *)
Fixpoint scan_headers (fuel : nat) (r : bytes) (version startOffset pos : Z) : Z :=
  match fuel with
  | O => pos
  | S fuel =>
      match io_ReadFull r (hdr_size version) with
      | Error _ => pos
      | Ok (hdr, r1) =>
          let h := parse_header version hdr in
          if startOffset <=? rf_offset h then pos
          else
            let skip := rf_keyLen h + rf_payloadLen h in
            scan_headers fuel (drop (Z.to_nat skip) r1) version startOffset
              (pos + (hdr_size version + skip))
      end
  end.

(** The two loops as the source writes them, a pass at a time: the unread rest
    of the data with the best position, and of the log with the position. *)
Definition index_pass (startOffset : Z) (st : bytes * Z) : pass (bytes * Z) Z :=
  let '(data, bestPos) := st in
  if zlen data <? 16 then Exit bestPos
  else if i64 (get_uint (slice 0 8 data)) <=? startOffset
  then Again (drop 16 data, i64 (get_uint (slice 8 16 data)))
  else Exit bestPos.

Definition header_pass (version startOffset : Z) (st : bytes * Z) : pass (bytes * Z) Z :=
  let '(r, pos) := st in
  match io_ReadFull r (hdr_size version) with
  | Error _ => Exit pos
  | Ok (hdr, r1) =>
      let h := parse_header version hdr in
      if startOffset <=? rf_offset h then Exit pos
      else
        let skip := rf_keyLen h + rf_payloadLen h in
        Again (drop (Z.to_nat skip) r1, pos + (hdr_size version + skip))
  end.

Definition Segment_findExactPosition (io : ReadIO) (s : Segment) (startOffset : Z) : Z :=
  let approx := Segment_findPosition io s startOffset in
  if negb (rio_open io) then approx
  else if negb (rio_seek io) || (approx <? 0) then approx
  else
    let r := seek approx (seg_logFile s) in
    scan_headers (S (length r)) r (seg_version s) startOffset approx.

Section Segments.
Context `{JsonCodec Message} `{Deflate}.

(** ** Write *)

(** [Write]: the segment, the caller's message (its offset is assigned even
    when the call fails) and the result. *)
Definition Segment_Write (io : WriteIO) (now : Z) (s : Segment) (msg : Message) :
    Segment * Message * result Z seg_err :=
  let offset := seg_nextOffset s in
  let msg := set_offset msg offset in
  match encodeRecord offset msg (seg_version s) now with
  | None => (s, msg, Error EncodeErr)
  | Some rec =>
      let recPos := seg_logSize s in
      match wio_log io with
      | Some n =>
          (seg_with s (seg_nextOffset s) (seg_logFile s ++ take n rec) (seg_indexFile s)
             (seg_logSize s) (seg_byteSinceIndex s), msg, Error LogWriteErr)
      | None =>
          let s := seg_with s (i64 (seg_nextOffset s + 1)) (seg_logFile s ++ rec)
                     (seg_indexFile s) (seg_logSize s + zlen rec) (seg_byteSinceIndex s) in
          if negb (bool_decide (seg_syncPolicy s = "os"%string)) && negb (wio_sync io)
          then (s, msg, Error LogSyncErr)
          else
            let since := seg_byteSinceIndex s + zlen rec in
            if seg_indexEvery s <=? since then
              match wio_idx io with
              | Some n =>
                  (seg_with s (seg_nextOffset s) (seg_logFile s)
                     (seg_indexFile s ++ take n (index_entry offset recPos))
                     (seg_logSize s) since, msg, Error IndexWriteErr)
              | None =>
                  (seg_with s (seg_nextOffset s) (seg_logFile s)
                     (seg_indexFile s ++ index_entry offset recPos)
                     (seg_logSize s) 0, msg, Ok offset)
              end
            else
              (seg_with s (seg_nextOffset s) (seg_logFile s) (seg_indexFile s)
                 (seg_logSize s) since, msg, Ok offset)
      end
  end.

(** ** Read *)

(** The loop of [Read]: [maxCount] is what is still wanted.  A read error is
    the end of the log, any other error fails the whole read. *)
Fixpoint read_loop (fuel : nat) (r : bytes) (version startOffset maxCount : Z) :
    result (list Message) seg_err :=
  match fuel with
  | O => Ok []
  | S fuel =>
      if maxCount <=? 0 then Ok []
      else
        match decodeRecord r version with
        | Error (RecRead _) => Ok []
        | Error e => Error (RecordErr e)
        | Ok (msg, offset, r') =>
            if offset <? startOffset
            then read_loop fuel r' version startOffset maxCount
            else
              match read_loop fuel r' version startOffset (maxCount - 1) with
              | Ok msgs => Ok (msg :: msgs)
              | Error e => Error e
              end
        end
  end.

(** One pass of that loop over the unread rest and the messages so far. *)
Definition read_pass (version startOffset maxCount : Z) (st : bytes * list Message) :
    pass (bytes * list Message) (result (list Message) seg_err) :=
  let '(r, msgs) := st in
  if zlen msgs <? maxCount then
    match decodeRecord r version with
    | Error (RecRead _) => Exit (Ok msgs)
    | Error e => Exit (Error (RecordErr e))
    | Ok (msg, offset, r') => Again (r', if offset <? startOffset then msgs else msgs ++ [msg])
    end
  else Exit (Ok msgs).

Definition Segment_Read (io : ReadIO) (s : Segment) (startOffset maxCount : Z) :
    result (list Message) seg_err :=
  let pos := Segment_findPosition io s startOffset in
  if negb (rio_open io) then Error OpenErr
  else if negb (rio_seek io) || (pos <? 0) then Error SeekErr
  else
    let r := seek pos (seg_logFile s) in
    read_loop (S (length r)) r (seg_version s) startOffset maxCount.

(** ** Recovery *)

(** The loop of [recoverNextOffset]: the last offset that decodes. *)
Fixpoint recover_loop (fuel : nat) (r : bytes) (version lastOffset : Z) : Z :=
  match fuel with
  | O => lastOffset
  | S fuel =>
      match decodeRecord r version with
      | Error _ => lastOffset
      | Ok (_, off, r') => recover_loop fuel r' version off
      end
  end.

(** One pass of that loop over the unread rest and the last offset. *)
Definition recover_pass (version : Z) (st : bytes * Z) : pass (bytes * Z) Z :=
  let '(r, lastOffset) := st in
  match decodeRecord r version with
  | Error _ => Exit lastOffset
  | Ok (_, off, r') => Again (r', off)
  end.

Definition Segment_recoverNextOffset (io : ReadIO) (s : Segment) : result Segment seg_err :=
  if negb (rio_open io) then Error OpenErr
  else if (0 <? seg_dataStart s) && negb (rio_seek io) then Error SeekErr
  else
    let r := seek (seg_dataStart s) (seg_logFile s) in
    let lastOffset :=
      recover_loop (S (length r)) r (seg_version s) (i64 (seg_baseOffset s - 1)) in
    Ok (seg_with s (i64 (lastOffset + 1)) (seg_logFile s) (seg_indexFile s)
          (seg_logSize s) (seg_byteSinceIndex s)).

(** [createSegment] on the contents of the two files, empty for new ones.
    [io] is used for the header probe and the recovery scan; [hdr_ok] is the
    outcome of the header write of a new file, [files_ok] those of the two
    [OpenFile] calls. *)
Definition createSegment (io : ReadIO) (files_ok hdr_ok : bool) (log idx : bytes)
    (baseOffset maxBytes indexEvery : Z) (syncPolicy : string) : result Segment seg_err :=
  if negb files_ok then Error OpenErr
  else
    let logSize := zlen log in
    let s v log size start := mkSegment baseOffset baseOffset log idx size maxBytes
                                indexEvery 0 syncPolicy v start in
    if logSize =? 0 then
      if negb hdr_ok then Error HeaderWriteErr
      else Ok (s RecordVersion (log ++ segFileHeader) segFileHeaderSize segFileHeaderSize)
    else
      let v2 := (segFileHeaderSize <=? logSize) && rio_open io &&
                bool_decide (take 5 log = segFileHeader) in
      Segment_recoverNextOffset io
        (if v2 then s RecordVersion log logSize segFileHeaderSize else s 1 log logSize 0).

(** ** Abstract state *)

Definition log_bytes (version : Z) (es : list entry) : bytes :=
  mjoin (entry_bytes version <$> es).

Definition offsets_sorted (es : list entry) : Prop :=
  StronglySorted (λ a b, e_offset a < e_offset b) es.

(** An index entry points at the start of a record. *)
Definition indexed (version dataStart : Z) (es : list entry) (p : Z * Z) : Prop :=
  ∃ es1 e es2, es = es1 ++ e :: es2 ∧ p.1 = e_offset e ∧
    p.2 = dataStart + zlen (log_bytes version es1).

Definition seg_header (version : Z) : bytes :=
  if RecordVersion <=? version then segFileHeader else [].

(** Bytes that read as the end of the log: nothing, or a torn record. *)
Definition ends (version : Z) (tail : bytes) : Prop :=
  ∃ e, decodeRecord tail version = Error (RecRead e).

(** The segment holds the records [es]: they are what the log file contains
    after its header, up to a [tail] that reads as the end of the log, with
    increasing offsets in [base, next); each index entry points at a record.
    The size kept in memory is the file's as long as there is no tail. *)
Record seg_rep (s : Segment) (es : list entry) (tail : bytes) : Prop := mkSegRep {
  rep_log : seg_logFile s = seg_header (seg_version s) ++ log_bytes (seg_version s) es ++ tail;
  rep_tail : ends (seg_version s) tail;
  rep_size : tail = [] → seg_logSize s = zlen (seg_logFile s);
  rep_start : seg_dataStart s = zlen (seg_header (seg_version s));
  rep_wf : Forall (entry_wf (seg_version s)) es;
  rep_sorted : offsets_sorted es;
  rep_range : Forall (λ e, seg_baseOffset s <= e_offset e < seg_nextOffset s) es;
  rep_base : 0 <= seg_baseOffset s <= seg_nextOffset s;
  rep_next : seg_nextOffset s < 2 ^ 63;
  rep_index : ∃ ps, seg_indexFile s = mjoin ((λ p, index_entry p.1 p.2) <$> ps) ∧
                    Forall (indexed (seg_version s) (seg_dataStart s) es) ps;
  rep_small : zlen (seg_logFile s) < 2 ^ 63;
}.

(** What a read promises: the messages from [start] on, at most [max]. *)
Definition spec_read (es : list entry) (start max : Z) : list Message :=
  take (Z.to_nat max) (snd <$> filter (λ e, start <= e_offset e) es).

(** ** Facts about the list of records *)

Lemma log_bytes_cons v e es : log_bytes v (e :: es) = entry_bytes v e ++ log_bytes v es.
Proof. done. Qed.

Lemma log_bytes_app v es1 es2 : log_bytes v (es1 ++ es2) = log_bytes v es1 ++ log_bytes v es2.
Proof. unfold log_bytes. by rewrite fmap_app, join_app. Qed.

Lemma log_bytes_length v es :
  Forall (entry_wf v) es → (length es <= length (log_bytes v es))%nat.
Proof.
  induction 1 as [|e es He Hes IH]; [done|].
  rewrite log_bytes_cons, length_app. simpl.
  destruct (entry_bytes_shape v e) as (p & _ & _ & ->); [apply He|].
  rewrite !length_app, record_header_length. lia.
Qed.

Lemma log_bytes_sublist v es' es :
  sublist es' es → zlen (log_bytes v es') <= zlen (log_bytes v es).
Proof.
  induction 1 as [|e l1 l2 Hs IH|e l1 l2 Hs IH]; [done|..];
    rewrite ?log_bytes_cons, ?zlen_app; [lia|]. pose proof (zlen_nonneg (entry_bytes v e)). lia.
Qed.

Lemma ends_nil v : ends v [].
Proof.
  unfold ends, decodeRecord. pose proof (hdr_size_pos v).
  destruct (io_ReadFull_short [] (hdr_size v)) as [e ->]; [by rewrite zlen_nil|eauto].
Qed.

Lemma spec_read_nonpos es start max : max <= 0 → spec_read es start max = [].
Proof. intros. unfold spec_read. by replace (Z.to_nat max) with O by lia. Qed.

Lemma spec_read_cons e es start max :
  0 < max →
  spec_read (e :: es) start max =
    if e_offset e <? start then spec_read es start max
    else e.2 :: spec_read es start (max - 1).
Proof.
  intros. unfold spec_read. rewrite filter_cons.
  destruct (Z.ltb_spec (e_offset e) start); [by rewrite decide_False by lia|].
  rewrite decide_True by done. rewrite fmap_cons.
  by replace (Z.to_nat max) with (S (Z.to_nat (max - 1))) by lia.
Qed.

(** Records before the starting offset do not matter. *)
Lemma spec_read_skip es1 es2 start max :
  Forall (λ e, e_offset e < start) es1 →
  spec_read (es1 ++ es2) start max = spec_read es2 start max.
Proof.
  intros Hlt. unfold spec_read. rewrite filter_app.
  rewrite (list_filter_none _ es1); [done|]. eapply Forall_impl; [done|]. simpl. lia.
Qed.

Lemma sorted_app_lt es1 e es2 :
  offsets_sorted (es1 ++ e :: es2) → Forall (λ x, e_offset x < e_offset e) es1.
Proof.
  unfold offsets_sorted. induction es1 as [|x es1 IH]; simpl; intros Hs; [done|].
  apply StronglySorted_inv in Hs as [Hs Hx]. constructor; [|by apply IH].
  by apply Forall_app in Hx as [_ [Hx _]%Forall_cons].
Qed.

Lemma sorted_snoc es e :
  offsets_sorted es → Forall (λ x, e_offset x < e_offset e) es → offsets_sorted (es ++ [e]).
Proof. intros. by apply sorted_snoc_iff. Qed.

(** ** The read loop *)

Lemma read_loop_spec v es tail start :
  Forall (entry_wf v) es → ends v tail →
  ∀ max fuel, (length es < fuel)%nat →
  read_loop fuel (log_bytes v es ++ tail) v start max = Ok (spec_read es start max).
Proof.
  intros Hwf [err Htail]. induction Hwf as [|e es He Hes IH]; intros max [|fuel] Hf;
    try (simpl in Hf; lia); cbn [read_loop].
  - destruct (Z.leb_spec max 0); [by rewrite spec_read_nonpos by lia|].
    cbn. rewrite Htail. unfold spec_read. by destruct (Z.to_nat max).
  - simpl in Hf. destruct (Z.leb_spec max 0); [by rewrite spec_read_nonpos by lia|].
    rewrite log_bytes_cons, <- app_assoc, decodeRecord_entry, spec_read_cons by done.
    case_match; [by apply IH; lia|]. by rewrite IH by lia.
Qed.

(** The loops leave after at most one pass for each byte and one more, with
    the result of the recursive definitions. *)
Lemma read_passes v start max n : ∀ r msgs, (length r < n)%nat →
  passes (read_pass v start max) n (r, msgs) =
    Some (match read_loop n r v start (max - zlen msgs) with
          | Ok l => Ok (msgs ++ l)
          | Error e => Error e
          end).
Proof.
  induction n as [|n IH]; intros r msgs Hn; [lia|]. cbn [passes read_pass read_loop].
  destruct (Z.ltb_spec (zlen msgs) max), (Z.leb_spec (max - zlen msgs) 0); try lia;
    [|by rewrite app_nil_r].
  destruct (decodeRecord r v) as [[[m o] r']|err] eqn:E.
  2: { destruct err; rewrite ?app_nil_r; reflexivity. }
  apply decodeRecord_shrinks in E. rewrite IH by lia. destruct (o <? start); [done|].
  replace (max - zlen (msgs ++ [m])) with (max - zlen msgs - 1)
    by (rewrite zlen_app, zlen_cons, zlen_nil; lia).
  destruct (read_loop n r' v start _); [|done]. by rewrite <- app_assoc.
Qed.

Lemma recover_passes v n : ∀ r last0, (length r < n)%nat →
  passes (recover_pass v) n (r, last0) = Some (recover_loop n r v last0).
Proof.
  induction n as [|n IH]; intros r last0 Hn; [lia|]. cbn [passes recover_pass recover_loop].
  destruct (decodeRecord r v) as [[[m o] r']|] eqn:E; [|done].
  apply decodeRecord_shrinks in E. apply IH. lia.
Qed.

Lemma header_passes v start n : ∀ r pos, (length r < n)%nat →
  passes (header_pass v start) n (r, pos) = Some (scan_headers n r v start pos).
Proof.
  induction n as [|n IH]; intros r pos Hn; [lia|]. cbn [passes header_pass scan_headers].
  destruct (io_ReadFull r (hdr_size v)) as [[hdr r1]|] eqn:E; [|done].
  pose proof (hdr_size_pos v). apply io_ReadFull_inv in E as [-> Hl]; [|lia]. cbv zeta.
  destruct (start <=? _); [done|]. apply IH. rewrite length_app in Hn. rewrite length_drop. unfold zlen in *. lia.
Qed.

Lemma index_passes start n : ∀ data best, (length data <= n)%nat →
  passes (index_pass start) (S n) (data, best) = Some (scan_index n data start best).
Proof.
  induction n as [|n IH]; intros data best Hn.
  { destruct data; [done|]. simpl in Hn. lia. }
  cbn [scan_index]. cbv zeta. change (passes (index_pass start) (S (S n)) (data, best)) with
    (match index_pass start (data, best) with
     | Exit r => Some r | Again s => passes (index_pass start) (S n) s end).
  unfold index_pass at 1. destruct (Z.ltb_spec (zlen data) 16); [done|].
  destruct (i64 _ <=? start); [|done]. apply IH. rewrite length_drop. unfold zlen in *. lia.
Qed.

Lemma recover_loop_spec v es tail :
  Forall (entry_wf v) es → ends v tail →
  ∀ fuel last0, (length es < fuel)%nat →
  recover_loop fuel (log_bytes v es ++ tail) v last0 =
    default last0 (e_offset <$> last es).
Proof.
  intros Hwf [err Htail]. induction Hwf as [|e es He Hes IH]; intros [|fuel] last0 Hf;
    try (simpl in Hf; lia); cbn [recover_loop].
  - cbn. by rewrite Htail.
  - simpl in Hf. rewrite log_bytes_cons, <- app_assoc, decodeRecord_entry by done.
    rewrite IH by lia. rewrite last_cons. by destruct (last es).
Qed.

(** ** The index *)

Lemma index_entry_length o p : length (index_entry o p) = 16%nat.
Proof. unfold index_entry. by rewrite length_app; autorewrite with go. Qed.

Lemma scan_index_cons o p data start best fuel :
  is_i64 o → is_i64 p →
  scan_index (S fuel) (index_entry o p ++ data) start best =
    if o <=? start then scan_index fuel data start p else best.
Proof.
  intros Ho Hp. cbn [scan_index].
  destruct (Z.ltb_spec (zlen (index_entry o p ++ data)) 16) as [Hl|_].
  { rewrite zlen_app in Hl. unfold zlen at 1 in Hl. rewrite index_entry_length in Hl.
    pose proof (zlen_nonneg data). lia. }
  replace (slice 0 8 (index_entry o p ++ data)) with (put_u64 (u64 o)) by reflexivity.
  replace (slice 8 16 (index_entry o p ++ data)) with (put_u64 (u64 p)) by reflexivity.
  rewrite !get_put_u64, (u64_id (u64 o)), (u64_id (u64 p)) by apply u64_range.
  rewrite !i64_u64 by done.
  by rewrite drop_app_length' by (by rewrite index_entry_length).
Qed.

(** The position the index gives is that of a record boundary before which
    every offset is too small. *)
Definition good_pos (v dataStart start : Z) (es : list entry) (pos : Z) : Prop :=
  ∃ es1 es2, es = es1 ++ es2 ∧ pos = dataStart + zlen (log_bytes v es1) ∧
    Forall (λ e, e_offset e < start) es1.

Lemma indexed_good v ds start es o p :
  offsets_sorted es → indexed v ds es (o, p) → o <= start → good_pos v ds start es p.
Proof.
  intros Hs (es1 & e & es2 & -> & Ho & Hp) Hle. simpl in *.
  exists es1, (e :: es2). split_and!; [done..|].
  eapply Forall_impl; [by eapply sorted_app_lt|]. simpl. lia.
Qed.

Lemma scan_index_good v ds start es ps :
  offsets_sorted es → Forall (entry_wf v) es →
  0 <= ds → ds + zlen (log_bytes v es) < 2 ^ 63 →
  Forall (indexed v ds es) ps →
  ∀ fuel best, (length ps <= fuel)%nat → good_pos v ds start es best →
  good_pos v ds start es
    (scan_index fuel (mjoin ((λ p, index_entry p.1 p.2) <$> ps)) start best).
Proof.
  intros Hs Hwf Hds Hsm Hps. induction Hps as [|[o p] ps Hp Hps IH]; intros fuel best Hf Hb.
  { by destruct fuel. }
  destruct fuel as [|fuel]; simpl in Hf; [lia|].
  cbn [fmap list_fmap mjoin list_join fst snd].
  rewrite scan_index_cons.
  - destruct (Z.leb_spec o start); [|done]. apply IH; [lia|by eapply indexed_good].
  - destruct Hp as (es1 & e & es2 & -> & Ho & _). simpl in Ho. subst o. apply Forall_app in Hwf as [_ Hwf].
    apply Forall_cons in Hwf as [Hwf _]. apply Hwf.
  - destruct Hp as (es1 & e & es2 & -> & _ & Hp'). simpl in Hp'. subst p.
    rewrite log_bytes_app, zlen_app in Hsm.
    pose proof (zlen_nonneg (log_bytes v es1)). pose proof (zlen_nonneg (log_bytes v (e :: es2))).
    unfold is_i64. simpl. lia.
Qed.

(** ** The operations on a represented segment *)

Lemma seg_header_nonneg s es tail : seg_rep s es tail → 0 <= seg_dataStart s.
Proof. intros Hr. rewrite (rep_start _ _ _ Hr). apply zlen_nonneg. Qed.

Lemma seg_rep_small s es tail :
  seg_rep s es tail → seg_dataStart s + zlen (log_bytes (seg_version s) es) < 2 ^ 63.
Proof.
  intros Hr. pose proof (rep_small _ _ _ Hr) as Hs.
  rewrite (rep_log _ _ _ Hr), !zlen_app in Hs. rewrite (rep_start _ _ _ Hr).
  pose proof (zlen_nonneg tail). lia.
Qed.

Lemma findPosition_good io s es tail start :
  seg_rep s es tail →
  good_pos (seg_version s) (seg_dataStart s) start es (Segment_findPosition io s start).
Proof.
  intros Hr. unfold Segment_findPosition.
  assert (good_pos (seg_version s) (seg_dataStart s) start es (seg_dataStart s)) as H0'.
  { exists [], es. cbn. rewrite (@zlen_nil Init.Byte.byte). split_and!; [done|lia|constructor]. }
  case_match; [|done].
  destruct (rep_index _ _ _ Hr) as (ps & Hi & Hps). rewrite Hi.
  apply scan_index_good; try apply Hr; eauto using seg_header_nonneg, seg_rep_small.
  clear. induction ps as [|p ps IH]; [done|].
  rewrite fmap_cons, mjoin_cons.
  rewrite length_app, index_entry_length. cbn [length]. lia.
Qed.

Lemma good_pos_seek s es tail start pos :
  seg_rep s es tail → good_pos (seg_version s) (seg_dataStart s) start es pos →
  ∃ es1 es2, es = es1 ++ es2 ∧ Forall (λ e, e_offset e < start) es1 ∧
    pos = seg_dataStart s + zlen (log_bytes (seg_version s) es1) ∧
    seek pos (seg_logFile s) = log_bytes (seg_version s) es2 ++ tail.
Proof.
  intros Hr (es1 & es2 & Hes & -> & Hlt). exists es1, es2. split_and!; try done.
  rewrite (rep_log _ _ _ Hr), Hes, log_bytes_app, (rep_start _ _ _ Hr).
  unfold seek. rewrite Z2Nat.inj_add, !to_nat_zlen by apply zlen_nonneg.
  rewrite <- !app_assoc, (app_assoc (seg_header _)). by rewrite drop_app_length' by (by rewrite length_app).
Qed.

(** Reading a represented segment gives exactly the records from [start] on,
    whether or not the index can be read. *)
Lemma Segment_Read_rep io s es tail start max :
  seg_rep s es tail → rio_open io = true → rio_seek io = true →
  Segment_Read io s start max = Ok (spec_read es start max).
Proof.
  intros Hr Ho Hk. unfold Segment_Read. rewrite Ho, Hk. cbn [negb orb].
  pose proof (findPosition_good io s es tail start Hr) as Hg.
  destruct (good_pos_seek s es tail start _ Hr Hg) as (es1 & es2 & Hes & Hlt & Hp & ->).
  pose proof (seg_header_nonneg _ _ _ Hr).
  pose proof (zlen_nonneg (log_bytes (seg_version s) es1)).
  destruct (Z.ltb_spec (Segment_findPosition io s start) 0); [lia|].
  pose proof (rep_wf _ _ _ Hr) as Hwf. rewrite Hes, Forall_app in Hwf. destruct Hwf as [_ Hwf].
  rewrite read_loop_spec; [by rewrite Hes, spec_read_skip|done|apply Hr|].
  rewrite length_app. pose proof (log_bytes_length _ _ Hwf). lia.
Qed.

Lemma indexed_mono v ds es es' p : indexed v ds es p → indexed v ds (es ++ es') p.
Proof.
  intros (es1 & e & es2 & -> & Ho & Hp). exists es1, e, (es2 ++ es').
  by rewrite <- app_assoc.
Qed.

(** The record a write would add. *)
Definition new_entry (now : Z) (s : Segment) (msg : Message) : entry :=
  (now, set_offset msg (seg_nextOffset s)).

(** There is room: the next offset and the log stay within 63 bits. *)
Definition room (now : Z) (s : Segment) (msg : Message) : Prop :=
  entry_wf (seg_version s) (new_entry now s msg) ∧ seg_nextOffset s + 1 < 2 ^ 63 ∧
  zlen (seg_logFile s) + zlen (entry_bytes (seg_version s) (new_entry now s msg)) < 2 ^ 63.

Lemma encode_new_entry now s msg :
  entry_wf (seg_version s) (new_entry now s msg) →
  encodeRecord (seg_nextOffset s) (set_offset msg (seg_nextOffset s)) (seg_version s) now =
    Some (entry_bytes (seg_version s) (new_entry now s msg)).
Proof.
  intros (Hj & _). destruct (json_roundtrip _ Hj) as (b & Hb & _). simpl in Hb.
  unfold entry_bytes, encodeRecord, e_offset, new_entry. simpl. rewrite Hb.
  by case_match.
Qed.

(** Appending the record to the log keeps the representation, with any
    index that points into the new list. *)
Lemma seg_rep_append now s es msg idx since :
  seg_rep s es [] → room now s msg →
  let e := new_entry now s msg in
  (idx = seg_indexFile s ∨ idx = seg_indexFile s ++ index_entry (seg_nextOffset s) (seg_logSize s)) →
  seg_rep (seg_with s (i64 (seg_nextOffset s + 1))
             (seg_logFile s ++ entry_bytes (seg_version s) e) idx
             (seg_logSize s + zlen (entry_bytes (seg_version s) e)) since) (es ++ [e]) [].
Proof.
  intros Hr (Hwf & Hnext & Hsm) e Hidx. pose proof Hr as Hr'. destruct Hr'.
  rewrite i64_id by (unfold is_i64; lia).
  split; simpl; try done.
  - rewrite rep_log0, log_bytes_app, log_bytes_cons, !app_nil_r. by rewrite <- app_assoc.
  - intros _. by rewrite rep_size0, zlen_app.
  - apply Forall_app. by rewrite Forall_singleton.
  - apply sorted_snoc; [done|]. eapply Forall_impl; [done|].
    intros x [_ Hx]. done.
  - apply Forall_app. split.
    + eapply Forall_impl; [done|]. simpl. lia.
    + apply Forall_singleton. unfold e_offset; simpl; lia.
  - lia.
  - destruct rep_index0 as (ps & Hi & Hps).
    assert (Forall (indexed (seg_version s) (seg_dataStart s) (es ++ [e])) ps) as Hps'.
    { eapply Forall_impl; [done|]. intros p. apply indexed_mono. }
    destruct Hidx as [->| ->]; [by exists ps|].
    exists (ps ++ [(seg_nextOffset s, seg_logSize s)]). split.
    + rewrite fmap_app, join_app, Hi. cbn. by rewrite app_nil_r.
    + apply Forall_app. split; [done|]. apply Forall_singleton.
      exists es, e, []. split_and!; [done..|]. simpl.
      rewrite rep_size0, rep_log0, !zlen_app, zlen_nil by done. lia.
  - rewrite zlen_app. exact Hsm.
Qed.

(** [Write] when the log write goes through: the record is appended, also
    when the fsync then fails and an error is returned. *)
Lemma Segment_Write_rep io now s es msg s' msg' res :
  seg_rep s es [] → room now s msg → wio_log io = None → wio_idx io = None →
  Segment_Write io now s msg = (s', msg', res) →
  seg_rep s' (es ++ [new_entry now s msg]) [] ∧ msg' = set_offset msg (seg_nextOffset s) ∧
  seg_nextOffset s' = seg_nextOffset s + 1 ∧
  res = (if negb (bool_decide (seg_syncPolicy s = "os"%string)) && negb (wio_sync io)
         then Error LogSyncErr else Ok (seg_nextOffset s)).
Proof.
  intros Hr Hroom Hlog Hidx. unfold Segment_Write.
  rewrite encode_new_entry, Hlog, Hidx by apply Hroom. unfold seg_with at 1. cbn -[negb bool_decide].
  assert (i64 (seg_nextOffset s + 1) = seg_nextOffset s + 1) as Hn.
  { apply i64_id. pose proof (rep_base _ _ _ Hr). destruct Hroom as (_ & ? & _). unfold is_i64. lia. }
  destruct (negb _ && negb _); [|case_match]; intros [= <- <- <-];
    (split_and!; [|done|done|done]); apply (seg_rep_append now s es msg _ _ Hr Hroom); auto.
Qed.

(** [Write] when the log write fails after [n] bytes of the record: nothing
    is added, the torn bytes stay as a tail. *)
Lemma Segment_Write_torn io now s es msg s' msg' res n :
  seg_rep s es [] → room now s msg → wio_log io = Some n →
  (n < length (entry_bytes (seg_version s) (new_entry now s msg)))%nat →
  Segment_Write io now s msg = (s', msg', res) →
  res = Error LogWriteErr ∧
  seg_rep s' es (take n (entry_bytes (seg_version s) (new_entry now s msg))).
Proof.
  intros Hr (Hwf & Hnext & Hsm) Hlog Hlt. unfold Segment_Write.
  rewrite encode_new_entry, Hlog by done. intros [= <- <- <-]. split; [done|].
  pose proof (decodeRecord_torn _ _ _ Hwf Hlt) as Hends. destruct Hr.
  split; simpl; try done.
  - by rewrite rep_log0, <- !app_assoc.
  - intros Ht. rewrite Ht, app_nil_r. by apply rep_size0.
  - rewrite zlen_app. unfold zlen at 2. rewrite length_take. unfold zlen in Hsm |- *. lia.
Qed.

(** ** Recovery *)

Lemma header_v2 : seg_header RecordVersion = segFileHeader.
Proof. done. Qed.

Lemma sorted_last es e :
  offsets_sorted es → last es = Some e → Forall (λ x, e_offset x <= e_offset e) es.
Proof.
  intros Hs (es1 & ->)%last_Some. apply Forall_app. split; [|by repeat constructor].
  eapply Forall_impl; [by eapply sorted_app_lt|]. simpl. lia.
Qed.

(** The offset recovery assigns next: one past the last record. *)
Definition recovered_next (base : Z) (es : list entry) : Z :=
  default base ((λ e, e_offset e + 1) <$> last es).

Lemma recovered_next_range s es tail :
  seg_rep s es tail →
  seg_baseOffset s <= recovered_next (seg_baseOffset s) es <= seg_nextOffset s.
Proof.
  intros Hr. unfold recovered_next. pose proof (rep_base _ _ _ Hr).
  destruct (last es) as [e|] eqn:E; simpl; [|lia].
  apply last_Some in E as (es1 & ->). pose proof (rep_range _ _ _ Hr) as Hf.
  apply Forall_app in Hf as [_ Hf]. rewrite Forall_singleton in Hf. lia.
Qed.

Lemma recoverNextOffset_rep io s0 s es tail :
  seg_rep s es tail → rio_open io = true → rio_seek io = true →
  seg_logFile s0 = seg_logFile s → seg_indexFile s0 = seg_indexFile s →
  seg_version s0 = seg_version s → seg_dataStart s0 = seg_dataStart s →
  seg_baseOffset s0 = seg_baseOffset s → seg_logSize s0 = zlen (seg_logFile s) →
  ∃ s', Segment_recoverNextOffset io s0 = Ok s' ∧ seg_rep s' es tail ∧
    seg_nextOffset s' = recovered_next (seg_baseOffset s) es ∧
    seg_baseOffset s' = seg_baseOffset s.
Proof.
  intros Hr Ho Hk El Ei Ev Ed Eb Es. unfold Segment_recoverNextOffset.
  rewrite Ho, Hk, andb_false_r. cbn [negb]. eexists. split; [reflexivity|].
  pose proof (recovered_next_range _ _ _ Hr) as Hrange. pose proof (rep_next _ _ _ Hr).
  pose proof (rep_base _ _ _ Hr).
  assert (i64 (recover_loop (S (length (seek (seg_dataStart s0) (seg_logFile s0))))
            (seek (seg_dataStart s0) (seg_logFile s0)) (seg_version s0)
            (i64 (seg_baseOffset s0 - 1)) + 1) = recovered_next (seg_baseOffset s) es) as ->.
  { rewrite El, Ev, Ed, Eb.
    destruct (good_pos_seek s es tail (seg_baseOffset s) (seg_dataStart s) Hr)
      as (es1 & es2 & Hes & Hlt & Hp & Hseek).
    { exists [], es. cbn. rewrite (@zlen_nil Init.Byte.byte). split_and!; [done|lia|constructor]. }
    assert (es1 = []) as ->.
    { destruct es1 as [|e es1]; [done|]. apply Forall_cons in Hlt as [Hlt _].
      pose proof (rep_range _ _ _ Hr) as Hf. rewrite Hes in Hf.
      apply Forall_cons in Hf as [Hf _]. lia. }
    simpl in Hes. subst es2. rewrite Hseek.
    rewrite recover_loop_spec; [|apply Hr|apply Hr|].
    - unfold recovered_next in *. rewrite (i64_id (_ - 1)) by (unfold is_i64; lia).
      destruct (last es); simpl in *; rewrite i64_id; try (unfold is_i64; lia); lia.
    - rewrite length_app. pose proof (log_bytes_length _ _ (rep_wf _ _ _ Hr)). lia. }
  split; [|done]. destruct Hr. split; simpl; rewrite ?El, ?Ei, ?Ev, ?Ed, ?Eb, ?Es; try done; try lia.
  apply Forall_forall. intros e He. pose proof (proj1 (Forall_forall _ _) rep_range0 e He) as He'.
  simpl in He'. split; [lia|]. unfold recovered_next. destruct (last es) as [l|] eqn:E.
  - pose proof (proj1 (Forall_forall _ _) (sorted_last _ _ rep_sorted0 E) e He). simpl in *. lia.
  - apply last_None in E as ->. by apply elem_of_nil in He.
Qed.

(** Opening the files of a version-2 segment recovers its records, whatever
    torn record is at the end of the log. *)
Lemma createSegment_rep io s es tail maxBytes indexEvery pol :
  seg_rep s es tail → seg_version s = RecordVersion →
  rio_open io = true → rio_seek io = true →
  ∃ s', createSegment io true true (seg_logFile s) (seg_indexFile s) (seg_baseOffset s)
          maxBytes indexEvery pol = Ok s' ∧ seg_rep s' es tail ∧
    seg_nextOffset s' = recovered_next (seg_baseOffset s) es ∧
    seg_baseOffset s' = seg_baseOffset s.
Proof.
  intros Hr Hv Ho Hk. unfold createSegment. cbn [negb].
  pose proof (rep_log _ _ _ Hr) as Hl. rewrite Hv, header_v2 in Hl.
  assert (zlen (seg_logFile s) =? 0 = false) as ->.
  { apply Z.eqb_neq. rewrite Hl, zlen_app.
    pose proof (zlen_nonneg (log_bytes RecordVersion es ++ tail)).
    assert (zlen segFileHeader = 5) as -> by reflexivity. lia. }
  assert ((segFileHeaderSize <=? zlen (seg_logFile s)) = true) as ->.
  { apply Z.leb_le. rewrite Hl, zlen_app.
    pose proof (zlen_nonneg (log_bytes RecordVersion es ++ tail)).
    assert (zlen segFileHeader = 5) as -> by reflexivity. unfold segFileHeaderSize. lia. }
  rewrite bool_decide_eq_true_2 by (rewrite Hl; reflexivity). rewrite Ho. cbn [andb].
  apply recoverNextOffset_rep; try done.
  rewrite (rep_start _ _ _ Hr), Hv. reflexivity.
Qed.

(** A new segment, on empty files. *)
Lemma createSegment_new io base maxBytes indexEvery pol :
  0 <= base < 2 ^ 63 →
  ∃ s, createSegment io true true [] [] base maxBytes indexEvery pol = Ok s ∧
    seg_rep s [] [] ∧ seg_baseOffset s = base ∧ seg_nextOffset s = base ∧
    seg_version s = RecordVersion ∧ seg_maxBytes s = maxBytes ∧ seg_syncPolicy s = pol.
Proof.
  intros Hb. eexists. split; [reflexivity|]. split; [|done].
  split; try done; simpl; try lia; try constructor.
  - apply ends_nil.
  - exists []. by split.
Qed.

(** ** The exact position used by the raw transfer *)

(** A header read at the start of a record gives its offset and its size. *)
Lemma entry_header v e r :
  entry_wf v e → ∃ hdr r1,
    io_ReadFull (entry_bytes v e ++ r) (hdr_size v) = Ok (hdr, r1) ∧
    rf_offset (parse_header v hdr) = e_offset e ∧
    r1 = drop (Z.to_nat (hdr_size v)) (entry_bytes v e) ++ r ∧
    hdr_size v + (rf_keyLen (parse_header v hdr) + rf_payloadLen (parse_header v hdr)) =
      zlen (entry_bytes v e) ∧
    0 <= rf_keyLen (parse_header v hdr) + rf_payloadLen (parse_header v hdr).
Proof.
  intros (hdr & p & -> & Hh & Hp & _)%entry_parts.
  eexists hdr, _. rewrite <- app_assoc, io_ReadFull_app by done. split; [reflexivity|].
  rewrite Hp. cbn [rf_offset rf_keyLen rf_payloadLen].
  pose proof (zlen_nonneg (bytes_of_string (msg_Key e.2))). pose proof (zlen_nonneg p).
  split_and!; [done| | |lia].
  - by rewrite <- Hh, to_nat_zlen, drop_app_length.
  - rewrite !zlen_app, Hh. lia.
Qed.

Lemma scan_headers_spec v es start :
  Forall (entry_wf v) es →
  ∀ fuel pos, (length es < fuel)%nat → Forall (λ e, e_offset e < start) es →
  ∀ es2, Forall (entry_wf v) es2 →
    (match es2 with [] => True | e :: _ => start <= e_offset e end) →
  scan_headers fuel (log_bytes v es ++ log_bytes v es2) v start pos =
    pos + zlen (log_bytes v es).
Proof.
  induction 1 as [|e es He Hes IH]; intros fuel pos Hf Hlt es2 Hwf2 Hge.
  { change (log_bytes v [] ++ log_bytes v es2) with (log_bytes v es2).
    change (zlen (log_bytes v [])) with 0. rewrite Z.add_0_r. destruct fuel; [done|]. cbn [scan_headers].
    destruct es2 as [|e es2].
    { pose proof (hdr_size_pos v).
      destruct (io_ReadFull_short (log_bytes v []) (hdr_size v)) as [? ->]; [done|done]. }
    apply Forall_cons in Hwf2 as [Hwf2 _].
    rewrite log_bytes_cons. destruct (entry_header v e (log_bytes v es2) Hwf2) as (hdr & r1 & -> & -> & _).
    by rewrite (proj2 (Z.leb_le _ _)). }
  apply Forall_cons in Hlt as [Hlt0 Hlt].
  destruct fuel; simpl in Hf; [lia|]. cbn [scan_headers]. rewrite log_bytes_cons, <- app_assoc.
  destruct (entry_header v e (log_bytes v es ++ log_bytes v es2) He) as (hdr & r1 & -> & -> & -> & Hsz & Hnn).
  rewrite (proj2 (Z.leb_gt _ _)) by lia.
  set (skip := rf_keyLen _ + rf_payloadLen _) in *.
  rewrite drop_app_length'.
  2: { rewrite length_drop. unfold zlen in Hsz. pose proof (hdr_size_pos v). lia. }
  rewrite IH by (done || lia). rewrite zlen_app. lia.
Qed.



(** C40: the four loops over a segment's files terminate, whatever bytes the
    files hold: run a pass at a time, the read loop, the recovery scan, the
    header scan and the index scan are each left within one pass for every
    byte still unread and one more, with the result the segment's operations
    use.  A loop that did not advance would still be running. *)
Theorem segment_scans_terminate v start max last0 pos r :
  let n := S (length r) in
  passes (read_pass v start max) n (r, []) = Some (read_loop n r v start max) ∧
  passes (recover_pass v) n (r, last0) = Some (recover_loop n r v last0) ∧
  passes (header_pass v start) n (r, pos) = Some (scan_headers n r v start pos) ∧
  passes (index_pass start) n (r, pos) = Some (scan_index (length r) r start pos).
Proof.
  intros n. split_and!.
  - rewrite read_passes by (subst n; lia). rewrite zlen_nil, Z.sub_0_r. by destruct (read_loop n r v start max).
  - apply recover_passes. subst n. lia.
  - apply header_passes. subst n. lia.
  - by apply index_passes.
Qed.

End Segments.

(** ** Concrete segments *)

Definition demo_entries : list entry := [(17, demo_msg 0 0); (18, demo_msg 1 0)].

Definition demo_log : bytes := segFileHeader ++ log_bytes RecordVersion demo_entries.

(** Two records, the second one indexed. *)
Definition demo_seg : Segment :=
  mkSegment 0 2 demo_log (index_entry 1 (5 + zlen (entry_bytes RecordVersion (17, demo_msg 0 0))))
    (zlen demo_log) 1000 200 0 "always" RecordVersion segFileHeaderSize.

Lemma demo_entries_wf : Forall (entry_wf RecordVersion) demo_entries.
Proof. repeat apply Forall_cons_2; [concrete_entry_wf..|apply Forall_nil_2]. Qed.

Lemma demo_seg_rep : seg_rep demo_seg demo_entries [].
Proof.
  split; try reflexivity.
  - apply ends_nil.
  - apply demo_entries_wf.
  - repeat constructor.
  - repeat constructor; unfold e_offset; simpl; lia.
  - simpl. lia.
  - exists [(1, 5 + zlen (entry_bytes RecordVersion (17, demo_msg 0 0)))]. split.
    + vm_compute. reflexivity.
    + apply Forall_singleton. exists [(17, demo_msg 0 0)], (18, demo_msg 1 0), [].
      split_and!; [done|done|]. vm_compute. reflexivity.
Qed.

Lemma demo_room : room 19 demo_seg (demo_msg 7 0).
Proof.
  split_and!.
  - concrete_entry_wf.
  - simpl. lia.
  - vm_compute. reflexivity.
Qed.


Definition io_torn : WriteIO := mkWriteIO (Some 40%nat) true None.


(** ** Appending after a torn record

    Recovery leaves the torn bytes in place and new records go after them. *)

Definition torn_log : bytes := segFileHeader ++ take 40 (entry_bytes RecordVersion (17, demo_msg 0 0)).

(** Recovery does not truncate a torn record: the next write succeeds and
    returns an offset, but its record sits behind the torn bytes and no read
    ever returns it. *)
Theorem torn_tail_loses_next_write :
  ∃ s s' msg', createSegment rio_fine true true torn_log [] 0 1000 200 "always" = Ok s ∧
    Segment_Write io_fine 19 s (demo_msg 0 0) = (s', msg', Ok 0) ∧
    ∀ msgs, Segment_Read rio_fine s' 0 10 = Ok msgs → msg' ∉ msgs.
Proof.
  destruct (createSegment rio_fine true true torn_log [] 0 1000 200 "always") as [s|] eqn:E1;
    [|by vm_compute in E1].
  destruct (Segment_Write io_fine 19 s (demo_msg 0 0)) as [[s' msg'] res] eqn:E2.
  exists s, s', msg'. split; [done|].
  vm_compute in E1. injection E1 as <-. vm_compute in E2. injection E2 as <- <- <-.
  split; [reflexivity|]. intros msgs Hr. vm_compute in Hr.
  first [discriminate Hr | injection Hr as <-; apply not_elem_of_nil].
Qed.
