(* ===== verification/PartitionLog.v ===== *)
(** * Partition logs: [internal/storage/partition_log.go]

    The ordered sequence of segments of one topic-partition: opening a
    directory, appending with roll-over, reading across segments, retention
    ([Compact]), the raw transfer ([SendTo]) and the timestamp search.  The
    lock of the code makes each operation atomic; an operation is a function
    on the state.  [dir] is the directory's contents in the order [ReadDir]
    lists them. *)

From Stdlib Require Import DecimalString.
From S2P Require Import Prelude GoLib Types Record Segment.

Local Open Scope Z_scope.

(** ** State *)

Record PartitionLog := mkPartitionLog {
  pl_segments : list Segment;
  pl_segMaxBytes : Z;
  pl_indexEvery : Z;
  pl_syncPolicy : string;
  (** [notifyAppend], a channel of capacity one: is a signal waiting? *)
  pl_notify : bool;
}.

Definition pl_with (pl : PartitionLog) (segs : list Segment) : PartitionLog :=
  mkPartitionLog segs (pl_segMaxBytes pl) (pl_indexEvery pl) (pl_syncPolicy pl) (pl_notify pl).

Definition pl_signal (pl : PartitionLog) : PartitionLog :=
  mkPartitionLog (pl_segments pl) (pl_segMaxBytes pl) (pl_indexEvery pl) (pl_syncPolicy pl) true.

(** ** File names *)

(** [strings.HasSuffix] with [strings.TrimSuffix]: the name without the
    suffix, if it has it. *)
Definition cut_suffix (name ext : string) : option string :=
  let b := bytes_of_string name in
  let e := bytes_of_string ext in
  let k := (length b - length e)%nat in
  if (length b <? length e)%nat then None
  else if bool_decide (drop k b = e) then Some (string_of_bytes (take k b))
  else None.

Definition dir_lookup (dir : list (string * bytes)) (name : string) : bytes :=
  match list_find (λ f, f.1 = name) dir with
  | Some (_, (_, b)) => b
  | None => []
  end.

(** The base offset of a directory entry that is a segment log. *)
Definition entry_base (name : string) : option Z :=
  match cut_suffix name ".log" with
  | Some stem => ParseInt stem
  | None => None
  end.

Definition base_le (a b : Segment) : Prop := seg_baseOffset a <= seg_baseOffset b.

#[global] Instance base_le_dec a b : Decision (base_le a b) := decide (_ <= _).

#[global] Instance base_le_trans : Transitive base_le.
Proof. intros ???. unfold base_le. lia. Qed.

#[global] Instance base_le_total : Total base_le.
Proof. intros ??. unfold base_le. lia. Qed.

(** ** Operations that do not decode records *)

Definition PartitionLog_NextOffset (pl : PartitionLog) : Z :=
  match last (pl_segments pl) with
  | Some s => Segment_NextOffset s
  | None => 0
  end.

Definition PartitionLog_totalLogSize (pl : PartitionLog) : Z :=
  foldr (λ s n, seg_logSize s + n) 0 (pl_segments pl).

Definition PartitionLog_SegmentCount (pl : PartitionLog) : Z := zlen (pl_segments pl).

Definition PartitionLog_ActiveSegmentBytes (pl : PartitionLog) : Z :=
  match last (pl_segments pl) with
  | Some s => Segment_Size s
  | None => 0
  end.

(** The test of the loop of [Compact] on one segment: [mtime] is the
    modification time of its log, [None] where [Stat] fails; [total] is the
    size of [pl.segments], which the loop does not change. *)
Definition compact_evicts (maxAgeHours cutoff maxBytes total : Z) (mtime : option Z) : bool :=
  match mtime with
  | None => false
  | Some t => ((0 <? maxAgeHours) && (t <? cutoff)) || ((0 <? maxBytes) && (maxBytes <? total))
  end.

(** The loop: the segments kept and those evicted; the last one is kept. *)
Fixpoint compact_loop (evicts : option Z → bool) (mtimes : list (option Z))
    (segs : list Segment) : list Segment * list Segment :=
  match segs with
  | [] => ([], [])
  | s :: rest =>
      match rest with
      | [] => ([s], [])
      | _ :: _ =>
          let '(keep, gone) := compact_loop evicts (tail mtimes) rest in
          if evicts (default None (head mtimes)) then (keep, s :: gone) else (s :: keep, gone)
      end
  end.

Definition hour_ns : Z := 3600 * 10 ^ 9.

(** [Compact]: the log, the segments whose files are removed and their
    number. *)
Definition PartitionLog_Compact (now : Z) (mtimes : list (option Z)) (pl : PartitionLog)
    (maxAgeHours maxSizeMB : Z) : PartitionLog * list Segment * Z :=
  if zlen (pl_segments pl) <=? 1 then (pl, [], 0)
  else
    let cutoff := now - i64 (maxAgeHours * hour_ns) in
    let maxBytes := i64 (maxSizeMB * 1024 * 1024) in
    let total := PartitionLog_totalLogSize pl in
    let '(keep, gone) :=
      compact_loop (compact_evicts maxAgeHours cutoff maxBytes total) mtimes (pl_segments pl) in
    (pl_with pl keep, gone, zlen gone).

(** ** The raw transfer *)

(** [sendfileSegment]: what reaches the peer of [length] bytes from
    [offset]; [fail] is the number of bytes after which the transfer errs. *)
Definition sendfileSegment (file : bytes) (offset length : Z) (fail : option nat) :
    bytes * bool :=
  let data := take (Z.to_nat length) (seek offset file) in
  match fail with
  | None => (data, true)
  | Some n => (take n data, false)
  end.

(** The loop of [SendTo]: [first] tells whether a segment was used before. *)
Fixpoint send_loop (io : ReadIO) (fails : list (option nat)) (segs : list Segment)
    (startOffset maxBytes : Z) (first : bool) (out : bytes) : bytes * bool :=
  match segs with
  | [] => (out, true)
  | s :: segs =>
      if seg_nextOffset s <=? startOffset
      then send_loop io (tail fails) segs startOffset maxBytes first out
      else if (0 <? maxBytes) && (maxBytes <=? zlen out) then (out, true)
      else
        let fileOffset :=
          if first then Segment_findExactPosition io s startOffset else seg_dataStart s in
        let length := seg_logSize s - fileOffset in
        if length <=? 0 then send_loop io (tail fails) segs startOffset maxBytes false out
        else
          let length :=
            if (0 <? maxBytes) && (maxBytes <? zlen out + length)
            then maxBytes - zlen out else length in
          let '(sent, ok) := sendfileSegment (seg_logFile s) fileOffset length
                               (default None (head fails)) in
          if ok then send_loop io (tail fails) segs startOffset maxBytes false (out ++ sent)
          else (out ++ sent, false)
  end.

(** [SendTo]: the bytes written to the connection and whether it succeeded;
    the count returned is their length. *)
Definition PartitionLog_SendTo (io : ReadIO) (fails : list (option nat)) (pl : PartitionLog)
    (startOffset maxBytes : Z) : bytes * bool :=
  send_loop io fails (pl_segments pl) startOffset maxBytes true [].

Section PartitionLogs.
Context `{JsonCodec Message} `{Deflate}.

(** ** Open *)

Fixpoint open_segments (io : ReadIO) (dir all : list (string * bytes))
    (segMaxBytes indexEvery : Z) (pol : string) : result (list Segment) seg_err :=
  match dir with
  | [] => Ok []
  | (name, _) :: dir =>
      match entry_base name with
      | None => open_segments io dir all segMaxBytes indexEvery pol
      | Some base =>
          match createSegment io true true (dir_lookup all (segmentFilename base ".log"))
                  (dir_lookup all (segmentFilename base ".index")) base segMaxBytes
                  indexEvery pol with
          | Error e => Error e
          | Ok s =>
              match open_segments io dir all segMaxBytes indexEvery pol with
              | Error e => Error e
              | Ok l => Ok (s :: l)
              end
          end
      end
  end.

Definition OpenPartitionLog (io : ReadIO) (mkdir_ok readdir_ok : bool)
    (dir : list (string * bytes)) (segMaxBytes indexEvery : Z) (pol : string) :
    result PartitionLog seg_err :=
  if negb mkdir_ok || negb readdir_ok then Error OpenErr
  else
    match open_segments io dir dir segMaxBytes indexEvery pol with
    | Error e => Error e
    | Ok l =>
        match merge_sort base_le l with
        | [] =>
            match createSegment io true true (dir_lookup dir (segmentFilename 0 ".log"))
                    (dir_lookup dir (segmentFilename 0 ".index")) 0 segMaxBytes indexEvery pol with
            | Error e => Error e
            | Ok s => Ok (mkPartitionLog [s] segMaxBytes indexEvery pol false)
            end
        | segs => Ok (mkPartitionLog segs segMaxBytes indexEvery pol false)
        end
    end.

(** The directory a log leaves behind. *)
Definition segment_files (s : Segment) : list (string * bytes) :=
  [(segmentFilename (seg_baseOffset s) ".index", seg_indexFile s);
   (segmentFilename (seg_baseOffset s) ".log", seg_logFile s)].

Definition dir_of (pl : PartitionLog) : list (string * bytes) :=
  pl_segments pl ≫= segment_files.

(** ** Append *)

(** [Append]: a full active segment is rolled first; the new one stays even
    when the write then fails.  Its files are new unless the full segment
    is empty of records, when they are that segment's own. *)
Definition PartitionLog_Append (rio : ReadIO) (roll_ok : bool) (io : WriteIO) (now : Z)
    (pl : PartitionLog) (msg : Message) : PartitionLog * Message * result Z seg_err :=
  match last (pl_segments pl) with
  | None => (pl, msg, Error OpenErr)
  | Some active =>
      let rolled :=
        if Segment_IsFull active then
          let nextBase := Segment_NextOffset active in
          match createSegment rio roll_ok roll_ok
                  (dir_lookup (dir_of pl) (segmentFilename nextBase ".log"))
                  (dir_lookup (dir_of pl) (segmentFilename nextBase ".index")) nextBase
                  (pl_segMaxBytes pl) (pl_indexEvery pl) (pl_syncPolicy pl) with
          | Error e => Error e
          | Ok newSeg => Ok (pl_segments pl, newSeg)
          end
        else Ok (take (length (pl_segments pl) - 1) (pl_segments pl), active) in
      match rolled with
      | Error e => (pl, msg, Error e)
      | Ok (older, active) =>
          let '(active', msg', res) := Segment_Write io now active msg in
          let pl' := pl_with pl (older ++ [active']) in
          match res with
          | Error e => (pl', msg', Error e)
          | Ok offset => (pl_signal pl', msg', Ok offset)
          end
      end
  end.

(** ** Read *)

Fixpoint read_segments (io : ReadIO) (segs : list Segment) (startOffset maxCount : Z)
    (msgs : list Message) : result (list Message) seg_err :=
  match segs with
  | [] => Ok msgs
  | s :: segs =>
      if Segment_NextOffset s <=? startOffset
      then read_segments io segs startOffset maxCount msgs
      else
        match Segment_Read io s startOffset (maxCount - zlen msgs) with
        | Error e => Error e
        | Ok batch =>
            let msgs := msgs ++ batch in
            if maxCount <=? zlen msgs then Ok msgs
            else read_segments io segs startOffset maxCount msgs
        end
  end.

Definition PartitionLog_Read (io : ReadIO) (pl : PartitionLog) (startOffset maxCount : Z) :
    result (list Message) seg_err :=
  read_segments io (pl_segments pl) startOffset maxCount [].

(** ** Timestamps *)

(** The scan of one segment: the first record at or after [ts]. *)
Fixpoint scan_timestamp (fuel : nat) (r : bytes) (version ts : Z) : option Z :=
  match fuel with
  | O => None
  | S fuel =>
      match decodeRecord r version with
      | Error _ => None
      | Ok (msg, offset, r') =>
          if ts <=? msg_Timestamp msg then Some offset else scan_timestamp fuel r' version ts
      end
  end.

(** [OffsetForTimestamp]: a segment that cannot be opened is skipped. *)
Fixpoint timestamp_segments (io : ReadIO) (segs : list Segment) (ts : Z) : option Z :=
  match segs with
  | [] => None
  | s :: segs =>
      let found :=
        if rio_open io && rio_seek io then
          let r := seek (seg_dataStart s) (seg_logFile s) in
          scan_timestamp (S (length r)) r (seg_version s) ts
        else None in
      match found with
      | Some o => Some o
      | None => timestamp_segments io segs ts
      end
  end.

Definition PartitionLog_OffsetForTimestamp (io : ReadIO) (pl : PartitionLog) (ts : Z) : Z :=
  default (PartitionLog_NextOffset pl) (timestamp_segments io (pl_segments pl) ts).

(** ** Abstract state *)

(** Segments in order of their offset ranges. *)
Definition chained (segs : list Segment) : Prop :=
  StronglySorted (λ a b, seg_nextOffset a <= seg_baseOffset b ∧ seg_baseOffset a < seg_baseOffset b) segs.

(** The log holds, segment by segment, the records [ess]. *)
Record pl_rep (pl : PartitionLog) (ess : list (list entry)) : Prop := mkPlRep {
  plr_segs : Forall2 (λ s es, ∃ tail, seg_rep s es tail) (pl_segments pl) ess;
  plr_chain : chained (pl_segments pl);
  plr_some : pl_segments pl ≠ [];
}.

(** The active segment ends with a whole record. *)
Definition pl_clean (pl : PartitionLog) (ess : list (list entry)) : Prop :=
  ∃ s es, last (pl_segments pl) = Some s ∧ last ess = Some es ∧ seg_rep s es [].

(** ** Reading *)

Lemma spec_read_length es start max : zlen (spec_read es start max) <= Z.max 0 max.
Proof. unfold spec_read, zlen. rewrite length_take. lia. Qed.

(** A read across two lists takes from the second what the first left. *)
Lemma spec_read_app es1 es2 start max :
  spec_read (es1 ++ es2) start max =
    spec_read es1 start max ++ spec_read es2 start (max - zlen (spec_read es1 start max)).
Proof.
  unfold spec_read. rewrite filter_app, fmap_app, take_app. f_equal. f_equal.
  unfold zlen. rewrite length_take. lia.
Qed.

Lemma seg_rep_below s es tail start :
  seg_rep s es tail → seg_nextOffset s <= start → Forall (λ e, e_offset e < start) es.
Proof.
  intros Hr Hle. eapply Forall_impl; [apply (rep_range _ _ _ Hr)|]. simpl. lia.
Qed.

Lemma read_segments_spec io segs ess start max :
  rio_open io = true → rio_seek io = true →
  Forall2 (λ s es, ∃ tail, seg_rep s es tail) segs ess →
  ∀ msgs, read_segments io segs start max msgs =
    Ok (msgs ++ spec_read (mjoin ess) start (max - zlen msgs)).
Proof.
  intros Ho Hk. induction 1 as [|s es segs ess [tail Hr] Hsegs IH]; intros msgs.
  { cbn. unfold spec_read. cbn. by rewrite take_nil, app_nil_r. }
  cbn [read_segments]. rewrite mjoin_cons. unfold Segment_NextOffset.
  destruct (Z.leb_spec (seg_nextOffset s) start).
  { rewrite IH, spec_read_skip; [done|]. by eapply seg_rep_below. }
  rewrite (Segment_Read_rep io s es tail) by done. rewrite spec_read_app.
  pose proof (spec_read_length es start (max - zlen msgs)).
  destruct (Z.leb_spec max (zlen (msgs ++ spec_read es start (max - zlen msgs)))) as [Hle|].
  - rewrite zlen_app in Hle. by rewrite (spec_read_nonpos (mjoin ess)), app_nil_r by lia.
  - rewrite IH, zlen_app, <- app_assoc. do 3 f_equal. f_equal. lia.
Qed.

Lemma PartitionLog_Read_rep io pl ess start max :
  rio_open io = true → rio_seek io = true → pl_rep pl ess →
  PartitionLog_Read io pl start max = Ok (spec_read (mjoin ess) start max).
Proof.
  intros Ho Hk Hr. unfold PartitionLog_Read.
  rewrite (read_segments_spec io _ ess) by (done || apply Hr).
  rewrite (@zlen_nil Message), Z.sub_0_r. done.
Qed.

(** ** Appending *)

Lemma last_split {A} (l : list A) x :
  last l = Some x → l = take (length l - 1) l ++ [x].
Proof.
  intros (l' & ->)%last_Some. rewrite length_app. cbn [length].
  rewrite Nat.add_sub, take_app_length. done.
Qed.

Lemma chained_snoc segs s :
  chained segs →
  Forall (λ a, seg_nextOffset a <= seg_baseOffset s ∧ seg_baseOffset a < seg_baseOffset s) segs →
  chained (segs ++ [s]).
Proof. intros. by apply sorted_snoc_iff. Qed.

Lemma chained_app_inv segs s :
  chained (segs ++ [s]) →
  chained segs ∧
  Forall (λ a, seg_nextOffset a <= seg_baseOffset s ∧ seg_baseOffset a < seg_baseOffset s) segs.
Proof. apply sorted_snoc_iff. Qed.

(** Replacing the last segment by one that starts at the same offset. *)
Lemma chained_replace segs s s' :
  chained (segs ++ [s]) → seg_baseOffset s' = seg_baseOffset s → chained (segs ++ [s']).
Proof.
  intros [Hs Hlt]%chained_app_inv Hb. apply chained_snoc; [done|]. by rewrite Hb.
Qed.

Lemma pl_rep_last pl ess :
  pl_rep pl ess → ∃ older active ess0 es tail,
    pl_segments pl = older ++ [active] ∧ ess = ess0 ++ [es] ∧
    last (pl_segments pl) = Some active ∧ older = take (length (pl_segments pl) - 1) (pl_segments pl) ∧
    Forall2 (λ s es, ∃ tail, seg_rep s es tail) older ess0 ∧ seg_rep active es tail.
Proof.
  intros [Hf Hc Hn]. destruct (last (pl_segments pl)) as [a|] eqn:E.
  2: { by apply last_None in E. }
  pose proof (last_split _ _ E) as Hsp. remember (take _ _) as older eqn:Ho.
  rewrite Hsp in Hf. apply Forall2_app_inv_l in Hf as (ess0 & k & Hf0 & Hk & ->).
  apply Forall2_cons_inv_l in Hk as (es & k' & [tail Ha] & Hk' & ->).
  apply Forall2_nil_inv_l in Hk' as ->.
  by exists older, a, ess0, es, tail.
Qed.

(** Every base and every assigned offset of a chained log is at most the
    next offset. *)
Lemma chained_bases older active es tail :
  chained (older ++ [active]) → seg_rep active es tail → seg_baseOffset active < seg_nextOffset active →
  Forall (λ a, seg_nextOffset a <= seg_nextOffset active ∧ seg_baseOffset a < seg_nextOffset active)
    (older ++ [active]).
Proof.
  intros [_ Hlt]%chained_app_inv Hr Hne. apply Forall_app. split.
  - eapply Forall_impl; [done|]. simpl. lia.
  - apply Forall_singleton. lia.
Qed.

(** The segment the next record goes to. *)
Definition target (pl : PartitionLog) (active : Segment) : Segment :=
  if Segment_IsFull active
  then mkSegment (seg_nextOffset active) (seg_nextOffset active) segFileHeader []
         segFileHeaderSize (pl_segMaxBytes pl) (pl_indexEvery pl) 0 (pl_syncPolicy pl)
         RecordVersion segFileHeaderSize
  else active.

(** No file of the log is named after a new base. *)
Definition fresh_base (pl : PartitionLog) (b : Z) : Prop :=
  dir_lookup (dir_of pl) (segmentFilename b ".log") = [] ∧
  dir_lookup (dir_of pl) (segmentFilename b ".index") = [].

Lemma Segment_Write_base io now s msg s' msg' res :
  Segment_Write io now s msg = (s', msg', res) → seg_baseOffset s' = seg_baseOffset s.
Proof. unfold Segment_Write. intros. by repeat case_match; simplify_eq. Qed.

(** The state [Append] leaves, from the result of the write. *)
Lemma append_result pl segs (m : Message) (c : bool) (o : Z) pl' msg' res :
  match (if c then Error LogSyncErr else Ok o) with
  | Ok offset => (pl_signal (pl_with pl segs), m, Ok offset)
  | Error e => (pl_with pl segs, m, Error e)
  end = (pl', msg', res) →
  pl_segments pl' = segs ∧ msg' = m ∧ res = (if c then Error LogSyncErr else Ok o).
Proof. by destruct c; intros; simplify_eq. Qed.

Lemma PartitionLog_Append_rep rio io now pl ess msg active pl' msg' res :
  pl_rep pl ess → pl_clean pl ess → last (pl_segments pl) = Some active →
  (Segment_IsFull active = true →
     seg_baseOffset active < seg_nextOffset active ∧ fresh_base pl (seg_nextOffset active)) →
  room now (target pl active) msg → wio_log io = None → wio_idx io = None →
  PartitionLog_Append rio true io now pl msg = (pl', msg', res) →
  ∃ ess', pl_rep pl' ess' ∧ pl_clean pl' ess' ∧
    mjoin ess' = mjoin ess ++ [(now, set_offset msg (PartitionLog_NextOffset pl))] ∧
    PartitionLog_NextOffset pl' = PartitionLog_NextOffset pl + 1 ∧
    msg' = set_offset msg (PartitionLog_NextOffset pl) ∧
    res = (if negb (bool_decide (seg_syncPolicy (target pl active) = "os"%string)) &&
              negb (wio_sync io)
           then Error LogSyncErr else Ok (PartitionLog_NextOffset pl)).
Proof.
  intros Hrep (a' & es' & Ha' & Hes' & Hclean) Hlast Hroll Hroom Hlog Hidx.
  destruct (pl_rep_last pl ess Hrep) as (older & a & ess0 & es & tl & Hsegs & -> & Ha & Hold & Hf & _).
  rewrite last_snoc in Hes'. injection Hes' as <-.
  assert (a = active) as -> by congruence. assert (a' = active) as -> by congruence.
  unfold PartitionLog_Append, PartitionLog_NextOffset. rewrite Hlast.
  unfold Segment_NextOffset, target in *.
  pose proof (plr_chain _ _ Hrep) as Hch. rewrite Hsegs in Hch.
  destruct (Segment_IsFull active) eqn:Efull.
  - destruct (Hroll eq_refl) as (Hne & Hl & Hi). rewrite Hl, Hi.
    pose proof (rep_next _ _ _ Hclean) as Hnx. pose proof (rep_base _ _ _ Hclean) as Hbs.
    destruct (createSegment_new rio (seg_nextOffset active) (pl_segMaxBytes pl)
                (pl_indexEvery pl) (pl_syncPolicy pl)) as (ns & Hns & Hnr & _); [lia|].
    rewrite Hns. cbn in Hns. injection Hns as <-.
    destruct (Segment_Write io now _ msg) as [[act' m'] r'] eqn:Hw.
    destruct (Segment_Write_rep _ _ _ _ _ _ _ _ Hnr Hroom Hlog Hidx Hw) as (Hrep' & -> & Hn' & ->).
    apply Segment_Write_base in Hw as Hb'. cbn in Hn', Hb'.
    intros Heq. exists ((ess0 ++ [es]) ++ [[new_entry now active msg]]).
    apply append_result in Heq as (Hs' & -> & ->). rewrite Hs', last_snoc, join_app.
    split_and!; try done.
    + split; rewrite Hs'; [|rewrite Hsegs|by destruct (pl_segments pl)].
      * apply Forall2_app; [apply Hrep|]. repeat constructor. eauto.
      * apply chained_snoc; [done|]. rewrite Hb'. by eapply chained_bases.
    + eexists act', _. rewrite Hs', !last_snoc. done.
  - rewrite <- Hold.
    destruct (Segment_Write io now active msg) as [[act' m'] r'] eqn:Hw.
    destruct (Segment_Write_rep _ _ _ _ _ _ _ _ Hclean Hroom Hlog Hidx Hw) as (Hrep' & -> & Hn' & ->).
    apply Segment_Write_base in Hw as Hb'.
    intros Heq. exists (ess0 ++ [es ++ [new_entry now active msg]]).
    apply append_result in Heq as (Hs' & -> & ->). rewrite Hs', last_snoc.
    split_and!; try done.
    + split; rewrite Hs'; [| |by destruct older].
      * apply Forall2_app; [done|]. repeat constructor. eauto.
      * by eapply chained_replace.
    + eexists act', _. rewrite Hs', !last_snoc. done.
    + rewrite !join_app. cbn. rewrite !app_nil_r. by rewrite app_assoc.
Qed.

(** ** File names *)

Lemma ParseInt_padded n z : 0 <= z < 2 ^ 63 →
  ParseInt (string_of_bytes (replicate n Byte.x30) +:+ fmt_d z) = Some z.
Proof.
  intros Hz. destruct (padded_digits n z) as (d & Hd & Hv & ->); [lia|].
  unfold ParseInt.
  assert (match bytes_of_string (NilEmpty.string_of_uint d) with
    | Byte.x2b :: Byte.x2d :: _ => None
    | Byte.x2b :: t => scan_d (string_of_bytes t)
    | _ => scan_d (NilEmpty.string_of_uint d)
    end = scan_d (NilEmpty.string_of_uint d)) as -> by (by destruct d).
  rewrite scan_digits, Hv by done.
  rewrite (proj2 (Z.leb_le _ _)), (proj2 (Z.ltb_lt _ _)) by lia. done.
Qed.

Lemma entry_base_log b : 0 <= b < 2 ^ 63 → entry_base (segmentFilename b ".log") = Some b.
Proof.
  intros Hb. unfold entry_base, segmentFilename, cut_suffix.
  rewrite string_app_assoc.
  set (stem := string_of_bytes (replicate _ _) +:+ fmt_d b).
  rewrite bytes_of_string_app. set (s := bytes_of_string stem).
  rewrite length_app. rewrite (proj2 (Nat.ltb_ge _ _)) by lia.
  rewrite Nat.add_sub, drop_app_length, take_app_length, bool_decide_eq_true_2 by done.
  unfold s. rewrite string_of_bytes_of_string. by apply ParseInt_padded.
Qed.

Lemma entry_base_index b : entry_base (segmentFilename b ".index") = None.
Proof.
  unfold entry_base, segmentFilename, cut_suffix.
  rewrite !bytes_of_string_app, app_assoc. set (s := bytes_of_string _ ++ bytes_of_string _).
  rewrite length_app. change (length (bytes_of_string ".index")) with 6%nat.
  change (length (bytes_of_string ".log")) with 4%nat.
  rewrite (proj2 (Nat.ltb_ge _ _)) by lia. rewrite bool_decide_eq_false_2; [done|].
  rewrite drop_app_ge by lia. replace (length s + 6 - 4 - length s)%nat with 2%nat by lia.
  discriminate.
Qed.

Lemma segmentFilename_log_inj a b :
  0 <= a < 2 ^ 63 → 0 <= b < 2 ^ 63 →
  segmentFilename a ".log" = segmentFilename b ".log" → a = b.
Proof.
  intros Ha Hb Heq. apply (f_equal entry_base) in Heq.
  rewrite !entry_base_log in Heq by done. by injection Heq.
Qed.
Lemma segmentFilename_idx_inj a b :
  0 <= a < 2 ^ 63 → 0 <= b < 2 ^ 63 →
  segmentFilename a ".index" = segmentFilename b ".index" → a = b.
Proof.
  intros Ha Hb Heq. apply segmentFilename_log_inj; [done..|].
  unfold segmentFilename in *. rewrite ?string_app_assoc in *.
  apply string_app_inv_r in Heq. by rewrite Heq.
Qed.
Lemma segmentFilename_ext a b : 0 <= a < 2 ^ 63 →
   segmentFilename a ".log" ≠ segmentFilename b ".index".
Proof.
  intros Ha Heq. apply (f_equal entry_base) in Heq.
  rewrite entry_base_log, entry_base_index in Heq; done.
Qed.

(** ** Reopening *)

Definition bases_ok (segs : list Segment) : Prop :=
  NoDup (seg_baseOffset <$> segs) ∧ Forall (λ s, 0 <= seg_baseOffset s < 2 ^ 63) segs.

Lemma dir_lookup_cons n b dir name :
  dir_lookup ((n, b) :: dir) name = if decide (n = name) then b else dir_lookup dir name.
Proof.
  unfold dir_lookup. simpl. destruct (decide (n = name)); [done|].
  destruct (list_find _ dir) as [[? [? ?]]|] eqn:E; simpl; by rewrite E || done.
Qed.

Lemma dir_lookup_fresh segs b :
  bases_ok segs → 0 <= b < 2 ^ 63 → b ∉ seg_baseOffset <$> segs →
  dir_lookup (segs ≫= segment_files) (segmentFilename b ".log") = [] ∧
  dir_lookup (segs ≫= segment_files) (segmentFilename b ".index") = [].
Proof.
  intros [Hnd Hr] Hb. induction segs as [|s segs IH]; [done|].
  simpl in *. apply NoDup_cons in Hnd as [Hs Hnd]. apply Forall_cons in Hr as [Hsr Hr].
  intros [Hne Hni]%not_elem_of_cons. rewrite !dir_lookup_cons.
  rewrite !decide_False.
  - by apply IH.
  - by apply segmentFilename_ext.
  - intros ?%segmentFilename_idx_inj; [congruence|done|done].
  - intros ?%segmentFilename_log_inj; [congruence|done|done].
  - intros ?%symmetry%segmentFilename_ext; done.
Qed.

Lemma dir_lookup_segment segs s :
  bases_ok segs → s ∈ segs →
  dir_lookup (segs ≫= segment_files) (segmentFilename (seg_baseOffset s) ".log") = seg_logFile s ∧
  dir_lookup (segs ≫= segment_files) (segmentFilename (seg_baseOffset s) ".index") = seg_indexFile s.
Proof.
  intros [Hnd Hr] Hin. pose proof (proj1 (Forall_forall _ _) Hr s Hin) as Hsr. simpl in Hsr.
  induction segs as [|x segs IH]; [by apply elem_of_nil in Hin|].
  simpl in *. apply NoDup_cons in Hnd as [Hx Hnd]. apply Forall_cons in Hr as [Hxr Hr].
  rewrite !dir_lookup_cons. apply elem_of_cons in Hin as [->|Hin].
  { rewrite decide_False, decide_True, decide_True; [done|done|done|].
    intros ?%symmetry%segmentFilename_ext; done. }
  assert (seg_baseOffset x ≠ seg_baseOffset s) as Hne.
  { intros Heq. apply Hx. rewrite Heq. apply list_elem_of_fmap. eauto. }
  rewrite !decide_False; [by apply IH|..].
  - by apply segmentFilename_ext.
  - by intros ?%segmentFilename_idx_inj.
  - by intros ?%segmentFilename_log_inj.
  - intros ?%symmetry%segmentFilename_ext; done.
Qed.

Lemma chained_bases_ok pl ess : pl_rep pl ess → bases_ok (pl_segments pl).
Proof.
  intros [Hf Hc _]. split.
  - clear Hf. unfold chained in Hc. induction Hc as [|x segs Hs IH Hx]; simpl; constructor; [|done].
    intros (y & Hy & Hin)%list_elem_of_fmap.
    pose proof (proj1 (Forall_forall _ _) Hx y Hin). simpl in *. lia.
  - clear Hc. induction Hf as [|s es segs ess' [tl Hr] Hf IH]; constructor; [|done].
    pose proof (rep_base _ _ _ Hr). pose proof (rep_next _ _ _ Hr). lia.
Qed.

(** What reopening does to one segment. *)
Definition reopened (s s' : Segment) (es : list entry) : Prop :=
  (∀ tail, seg_rep s es tail → seg_rep s' es tail) ∧
  seg_baseOffset s' = seg_baseOffset s ∧
  seg_nextOffset s' = recovered_next (seg_baseOffset s) es ∧
  seg_nextOffset s' <= seg_nextOffset s.

Lemma createSegment_reopened io s es mx ie pol :
  rio_open io = true → rio_seek io = true →
  (∃ tail, seg_rep s es tail) → seg_version s = RecordVersion →
  ∃ s', createSegment io true true (seg_logFile s) (seg_indexFile s) (seg_baseOffset s)
          mx ie pol = Ok s' ∧ reopened s s' es.
Proof.
  intros Ho Hk [tl Hr] Hv.
  destruct (createSegment_rep io s es tl mx ie pol Hr Hv Ho Hk) as (s' & Hc & Hr' & Hn & Hb).
  exists s'. split; [done|]. split_and!; [|done|done|].
  - intros tl' Hr2.
    destruct (createSegment_rep io s es tl' mx ie pol Hr2 Hv Ho Hk) as (s2 & Hc2 & Hr2' & _).
    congruence.
  - rewrite Hn. apply (recovered_next_range _ _ _ Hr).
Qed.

Lemma open_segments_spec io all mx ie pol segs ess :
  rio_open io = true → rio_seek io = true →
  Forall2 (λ s es, ∃ tail, seg_rep s es tail) segs ess →
  Forall (λ s, seg_version s = RecordVersion) segs →
  Forall (λ s, 0 <= seg_baseOffset s < 2 ^ 63 ∧
               dir_lookup all (segmentFilename (seg_baseOffset s) ".log") = seg_logFile s ∧
               dir_lookup all (segmentFilename (seg_baseOffset s) ".index") = seg_indexFile s) segs →
  ∃ segs', open_segments io (segs ≫= segment_files) all mx ie pol = Ok segs' ∧
    Forall3 reopened segs segs' ess.
Proof.
  intros Ho Hk. induction 1 as [|s es segs ess Hr Hf IH]; intros Hv Hl.
  { exists []. split; [done|constructor]. }
  apply Forall_cons in Hv as [Hv0 Hv]. apply Forall_cons in Hl as [(Hb & Hlog & Hidx) Hl].
  destruct (IH Hv Hl) as (segs' & Hopen & Hf3).
  destruct (createSegment_reopened io s es mx ie pol Ho Hk Hr Hv0) as (s' & Hc & Hre).
  exists (s' :: segs'). split; [|by constructor].
  change ((s :: segs) ≫= segment_files) with (segment_files s ++ (segs ≫= segment_files)).
  unfold segment_files at 1. cbn [app open_segments].
  rewrite entry_base_index, entry_base_log, Hlog, Hidx, Hc, Hopen by done. done.
Qed.

Lemma reopened_chained segs segs' ess :
  Forall3 reopened segs segs' ess → chained segs → chained segs'.
Proof.
  unfold chained. induction 1 as [|s s' es segs segs' ess Hre Hf IH]; intros Hs; [constructor|].
  apply StronglySorted_inv in Hs as [Hs Hx]. constructor; [by apply IH|].
  destruct Hre as (_ & Hb & _ & Hle). clear IH Hs.
  induction Hf as [|t t' es' segs segs' ess (_ & Hbt & _ & _) Hf IH]; constructor.
  - apply Forall_cons in Hx as [Hx _]. lia.
  - apply IH. by apply Forall_cons in Hx as [_ Hx].
Qed.

Lemma chained_base_inj segs x y :
  chained segs → x ∈ segs → y ∈ segs → seg_baseOffset x = seg_baseOffset y → x = y.
Proof.
  unfold chained. induction 1 as [|z segs Hs IH Hz]; intros Hx Hy Heq;
    [by apply elem_of_nil in Hx|].
  rewrite Forall_forall in Hz.
  apply elem_of_cons in Hx as [->|Hx]; apply elem_of_cons in Hy as [->|Hy]; auto.
  - apply Hz in Hy. lia.
  - apply Hz in Hx. lia.
Qed.

Lemma chained_merge_sort segs : chained segs → merge_sort base_le segs = segs.
Proof.
  intros Hc. apply (StronglySorted_unique_strong base_le).
  - intros x y Hx Hy Hxy Hyx. rewrite merge_sort_Permutation in Hx.
    eapply chained_base_inj; [done..|]. unfold base_le in *. lia.
  - apply (StronglySorted_merge_sort base_le).
  - rewrite <- (list_fmap_id segs). eapply StronglySorted_fmap, Hc.
    unfold base_le. simpl. lia.
  - apply merge_sort_Permutation.
Qed.

(** Closing and reopening a log keeps its records; the next offset is one
    past the last record of the active segment. *)
Lemma OpenPartitionLog_rep io pl ess mx ie pol :
  rio_open io = true → rio_seek io = true →
  pl_rep pl ess → Forall (λ s, seg_version s = RecordVersion) (pl_segments pl) →
  ∃ pl', OpenPartitionLog io true true (dir_of pl) mx ie pol = Ok pl' ∧ pl_rep pl' ess ∧
    (pl_clean pl ess → pl_clean pl' ess) ∧
    ∀ active es, last (pl_segments pl) = Some active → last ess = Some es →
      PartitionLog_NextOffset pl' = recovered_next (seg_baseOffset active) es.
Proof.
  intros Ho Hk Hrep Hv. pose proof (chained_bases_ok _ _ Hrep) as Hok.
  destruct (open_segments_spec io (dir_of pl) mx ie pol (pl_segments pl) ess Ho Hk)
    as (segs' & Hopen & Hf3); [apply Hrep|done| |].
  { apply Forall_forall. intros s Hs. split; [|by apply dir_lookup_segment].
    destruct Hok as [_ Hr]. by apply (proj1 (Forall_forall _ _) Hr). }
  pose proof (reopened_chained _ _ _ Hf3 (plr_chain _ _ Hrep)) as Hch.
  assert (segs' ≠ []) as Hne.
  { intros ->. inversion Hf3 as [Hnil|]. by apply (plr_some _ _ Hrep). }
  exists (mkPartitionLog segs' mx ie pol false). split_and!.
  - unfold OpenPartitionLog. cbn [negb orb]. unfold dir_of at 1. rewrite Hopen, chained_merge_sort by done.
    by destruct segs'.
  - split; [|done|done]. simpl. clear -Hf3 Hrep. destruct Hrep as [Hf _ _].
    induction Hf3 as [|s s' es segs segs' ess (Hre & _) Hf3 IH]; constructor.
    + apply Forall2_cons_1 in Hf as [[tl Hr] _]. eauto.
    + apply IH. by apply Forall2_cons_1 in Hf as [_ Hf].
  - intros (s & es & Hs & Hes & Hr). clear -Hf3 Hs Hes Hr. unfold pl_clean. simpl.
    induction Hf3 as [|x x' xs segs segs' ess (Hre & _) Hf3 IH]; [done|].
    destruct Hf3; [|by apply IH]. simplify_eq/=. exists x', es. auto.
  - intros active es Hs Hes. clear -Hf3 Hs Hes. unfold PartitionLog_NextOffset. simpl.
    induction Hf3 as [|x x' xs segs segs' ess (_ & _ & Hn & _) Hf3 IH]; [done|].
    destruct Hf3; [by simplify_eq/=|by apply IH].
Qed.

(** A base above every base of the log has no files yet. *)
Lemma fresh_base_next pl ess active :
  pl_rep pl ess → last (pl_segments pl) = Some active →
  seg_baseOffset active < seg_nextOffset active → fresh_base pl (seg_nextOffset active).
Proof.
  intros Hrep Hlast Hlt. pose proof (chained_bases_ok _ _ Hrep) as Hok.
  destruct (pl_rep_last pl ess Hrep) as (older & a & ess0 & es & tl & Hsegs & -> & Ha & _ & _ & Hr).
  assert (a = active) as -> by congruence.
  apply dir_lookup_fresh; [done|..].
  - pose proof (rep_base _ _ _ Hr). pose proof (rep_next _ _ _ Hr). lia.
  - intros (s & Heq & Hin)%list_elem_of_fmap. rewrite Hsegs in Hin.
    pose proof (plr_chain _ _ Hrep) as Hc. rewrite Hsegs in Hc.
    pose proof (proj1 (Forall_forall _ _) (chained_bases _ _ _ _ Hc Hr Hlt) s Hin). simpl in *. lia.
Qed.

(** ** Retention *)

Lemma last_cons_ne {A} (x : A) l : l ≠ [] → last (x :: l) = last l.
Proof. by destruct l. Qed.

Lemma compact_loop_spec (P : Segment → list entry → Prop) evicts segs ess :
  Forall2 P segs ess → ∀ mtimes keep gone,
  compact_loop evicts mtimes segs = (keep, gone) →
  ∃ ess', sublist ess' ess ∧ Forall2 P keep ess' ∧ last ess' = last ess ∧
    sublist keep segs ∧ keep ++ gone ≡ₚ segs ∧ last keep = last segs ∧ (segs ≠ [] → keep ≠ []).
Proof.
  induction 1 as [|s es segs ess Hs Hf IH]; intros mtimes keep gone Hc; simpl in Hc.
  { simplify_eq. exists []. by split_and!; try constructor. }
  destruct segs as [|s2 segs].
  { apply Forall2_nil_inv_l in Hf as ->. simplify_eq. exists [es]. split_and!; try done.
    by repeat constructor. }
  destruct (compact_loop evicts (tail mtimes) (s2 :: segs)) as [k g] eqn:E.
  destruct (IH _ _ _ E) as (ess' & H1 & H2 & H3 & H4 & H5 & H6 & H7).
  specialize (H7 ltac:(done)).
  assert (ess ≠ []) by (by inversion Hf). assert (ess' ≠ []) by (by inversion H2; simplify_eq).
  case_match; simplify_eq.
  - exists ess'. rewrite !(last_cons_ne _ (_ :: _)), (last_cons_ne es) by done.
    split_and!; try done; [by constructor..|]. by rewrite <- Permutation_middle, H5.
  - exists (es :: ess'). rewrite !(last_cons_ne _ (_ :: _)), (last_cons_ne es), (last_cons_ne es), (last_cons_ne s) by done.
    split_and!; try done; [by constructor..|]. simpl. by rewrite H5.
Qed.

Lemma chained_sublist segs segs' : chained segs → sublist segs' segs → chained segs'.
Proof. apply sorted_sublist. Qed.

(** Retention evicts whole segments, never the active one: what is left is
    the log without them, the next offset and the active records unchanged. *)
Lemma PartitionLog_Compact_rep now mtimes pl ess maxAge maxMB pl' gone n :
  pl_rep pl ess → PartitionLog_Compact now mtimes pl maxAge maxMB = (pl', gone, n) →
  ∃ ess', pl_rep pl' ess' ∧ sublist ess' ess ∧ last ess' = last ess ∧
    last (pl_segments pl') = last (pl_segments pl) ∧
    PartitionLog_NextOffset pl' = PartitionLog_NextOffset pl ∧
    pl_segments pl' ++ gone ≡ₚ pl_segments pl ∧ n = zlen gone.
Proof.
  intros Hrep. unfold PartitionLog_Compact. case_match.
  { intros [= <- <- <-]. exists ess. by rewrite app_nil_r. }
  destruct (compact_loop _ _ _) as [keep g] eqn:E. intros [= <- <- <-].
  destruct (compact_loop_spec _ _ _ _ (plr_segs _ _ Hrep) _ _ _ E)
    as (ess' & Hsub & Hrep' & Hlast & Hsegs & Hperm & Hact & Hne).
  exists ess'. unfold PartitionLog_NextOffset. simpl. rewrite Hact. split_and!; try done.
  split; simpl; [done| |apply Hne, Hrep].
  eapply chained_sublist; [apply Hrep|done].
Qed.

(** ** Timestamps *)

(** The first record at or after a timestamp. *)
Definition first_at (ts : Z) (es : list entry) : option Z :=
  e_offset <$> head (filter (λ e : entry, ts <= msg_Timestamp e.2) es).

Lemma scan_timestamp_spec v es tail ts :
  Forall (entry_wf v) es → ends v tail →
  ∀ fuel, (length es < fuel)%nat →
  scan_timestamp fuel (log_bytes v es ++ tail) v ts = first_at ts es.
Proof.
  intros Hwf [err Htail]. unfold first_at.
  induction Hwf as [|e es He Hes IH]; intros [|fuel] Hf; try (simpl in Hf; lia);
    cbn [scan_timestamp].
  - cbn. by rewrite Htail.
  - simpl in Hf. rewrite log_bytes_cons, <- app_assoc, decodeRecord_entry by done.
    rewrite filter_cons. destruct (Z.leb_spec ts (msg_Timestamp e.2)).
    + by rewrite decide_True.
    + rewrite decide_False by lia. apply IH. lia.
Qed.

Lemma first_at_app ts es1 es2 :
  first_at ts (es1 ++ es2) = match first_at ts es1 with Some o => Some o | None => first_at ts es2 end.
Proof.
  unfold first_at. rewrite filter_app.
  by destruct (filter (λ e : entry, ts <= msg_Timestamp e.2) es1).
Qed.

Lemma seg_seek_start s es tail :
  seg_rep s es tail →
  seek (seg_dataStart s) (seg_logFile s) = log_bytes (seg_version s) es ++ tail.
Proof.
  intros Hr. rewrite (rep_log _ _ _ Hr), (rep_start _ _ _ Hr).
  unfold seek. by rewrite to_nat_zlen, drop_app_length.
Qed.

Lemma timestamp_segments_spec io segs ess ts :
  rio_open io = true → rio_seek io = true →
  Forall2 (λ s es, ∃ tail, seg_rep s es tail) segs ess →
  timestamp_segments io segs ts = first_at ts (mjoin ess).
Proof.
  intros Ho Hk. induction 1 as [|s es segs ess [tail Hr] Hf IH]; [done|].
  cbn [timestamp_segments]. rewrite Ho, Hk, IH, mjoin_cons, first_at_app. cbn [andb].
  rewrite (seg_seek_start _ _ _ Hr), scan_timestamp_spec; [done|apply Hr|apply Hr|].
  rewrite length_app. pose proof (log_bytes_length _ _ (rep_wf _ _ _ Hr)). lia.
Qed.

(** ** The raw transfer *)

Lemma sorted_split es start :
  offsets_sorted es →
  es = filter (λ e, e_offset e < start) es ++ filter (λ e, start <= e_offset e) es.
Proof.
  unfold offsets_sorted. induction 1 as [|e es Hs IH He]; [done|].
  rewrite !filter_cons. destruct (decide (e_offset e < start)) as [Hlt|Hge].
  - rewrite (decide_False (P := start <= e_offset e)) by lia. simpl. by rewrite <- IH.
  - rewrite (decide_True (P := start <= e_offset e)) by lia.
    assert (filter (λ e, e_offset e < start) es = []) as Hn.
    { apply list_filter_none. eapply Forall_impl; [done|]. simpl. lia. }
    rewrite Hn in IH |- *. simpl in *. by rewrite <- IH.
Qed.

Lemma findExactPosition_rep io s es start :
  seg_rep s es [] → rio_open io = true → rio_seek io = true →
  Segment_findExactPosition io s start =
    seg_dataStart s + zlen (log_bytes (seg_version s) (filter (λ e, e_offset e < start) es)).
Proof.
  intros Hr Ho Hk. unfold Segment_findExactPosition. rewrite Ho, Hk. cbn [negb orb].
  pose proof (findPosition_good io s es [] start Hr) as Hg.
  destruct (good_pos_seek s es [] start _ Hr Hg) as (es1 & es2 & Hes & Hlt & Hp & Hseek).
  rewrite Hseek, app_nil_r. pose proof (seg_header_nonneg _ _ _ Hr).
  pose proof (zlen_nonneg (log_bytes (seg_version s) es1)).
  destruct (Z.ltb_spec (Segment_findPosition io s start) 0); [lia|].
  pose proof (rep_wf _ _ _ Hr) as Hwf. pose proof (rep_sorted _ _ _ Hr) as Hs.
  rewrite Hes in Hwf, Hs. apply Forall_app in Hwf as [_ Hwf].
  apply StronglySorted_app_1_r in Hs. pose proof (sorted_split es2 start Hs) as Hsp.
  set (lo := filter (λ e, e_offset e < start) es2) in *.
  set (hi := filter (λ e, start <= e_offset e) es2) in *.
  assert (length lo < S (length (log_bytes (seg_version s) es2)))%nat as Hfuel.
  { pose proof (log_bytes_length _ _ Hwf) as Hl.
    pose proof (length_filter (λ e, e_offset e < start) es2). unfold lo. lia. }
  assert (filter (λ e, e_offset e < start) es = es1 ++ lo) as ->.
  { rewrite Hes, filter_app. by rewrite (list_filter_all _ es1). }
  assert (Forall (λ e, e_offset e < start) lo) as Hlo by apply Forall_filter.
  assert (Forall (λ e, start <= e_offset e) hi) as Hhi by apply Forall_filter.
  remember (S _) as fuel eqn:Ef. clear Ef. clearbody lo hi. rewrite Hsp, log_bytes_app.
  rewrite Hsp in Hwf. apply Forall_app in Hwf as [Hwf1 Hwf2].
  rewrite scan_headers_spec; [|done..|].
  - rewrite Hp, log_bytes_app, zlen_app. lia.
  - destruct Hhi; done.
Qed.

(** At most [max] bytes, all of them when there is no limit. *)
Definition cap (max : Z) (l : bytes) : bytes :=
  if 0 <? max then take (Z.to_nat max) l else l.

(** What one segment contributes to a transfer. *)
Definition raw_bytes (start : Z) (s : Segment) (es : list entry) : bytes :=
  log_bytes (seg_version s) (filter (λ e, start <= e_offset e) es).

Lemma cap_full max (out rest : bytes) : 0 < max → zlen out = max → cap max (out ++ rest) = out.
Proof.
  intros Hm Ho. unfold cap. rewrite (proj2 (Z.ltb_lt _ _)) by done.
  rewrite <- Ho, to_nat_zlen. apply take_app_length.
Qed.

(** Sending what fits of [data] after [out] and then going on is sending all
    of it up to the limit. *)
Lemma cap_step max (out data rest : bytes) :
  (0 < max → zlen out <= max) →
  let k := if (0 <? max) && (max <? zlen out + zlen data) then max - zlen out else zlen data in
  (0 < max → zlen (out ++ take (Z.to_nat k) data) <= max) ∧
  cap max ((out ++ take (Z.to_nat k) data) ++ rest) = cap max (out ++ data ++ rest).
Proof.
  intros Hle k. unfold k. destruct (Z.ltb_spec 0 max) as [Hm|Hm]; cbn [andb].
  2: { split; [lia|]. rewrite to_nat_zlen, firstn_all, <- app_assoc. done. }
  specialize (Hle Hm). destruct (Z.ltb_spec max (zlen out + zlen data)).
  - assert (zlen (out ++ take (Z.to_nat (max - zlen out)) data) = max) as Hl.
    { rewrite zlen_app, zlen_take; unfold zlen in *; lia. }
    split; [lia|]. rewrite cap_full by done. unfold cap.
    rewrite (proj2 (Z.ltb_lt _ _)) by done. rewrite take_app_ge by (unfold zlen in *; lia).
    rewrite take_app_le by (unfold zlen in *; lia). do 2 f_equal. unfold zlen. lia.
  - rewrite to_nat_zlen, firstn_all, zlen_app, <- app_assoc. split; [lia|done].
Qed.

Lemma seg_log_size s es :
  seg_rep s es [] → seg_logSize s = seg_dataStart s + zlen (log_bytes (seg_version s) es).
Proof.
  intros Hr. rewrite (rep_size _ _ _ Hr), (rep_log _ _ _ Hr), (rep_start _ _ _ Hr) by done.
  rewrite app_nil_r, zlen_app. done.
Qed.

(** One segment of the loop, read from the position of the record list [hi]. *)
Lemma seek_split s es lo hi :
  seg_rep s es [] → es = lo ++ hi →
  let pos := seg_dataStart s + zlen (log_bytes (seg_version s) lo) in
  seg_logSize s - pos = zlen (log_bytes (seg_version s) hi) ∧
  seek pos (seg_logFile s) = log_bytes (seg_version s) hi.
Proof.
  intros Hr Hes pos. unfold pos. split.
  - rewrite (seg_log_size _ _ Hr), Hes, log_bytes_app, zlen_app. lia.
  - rewrite (rep_log _ _ _ Hr), Hes, log_bytes_app, (rep_start _ _ _ Hr).
    unfold seek. rewrite Z2Nat.inj_add, !to_nat_zlen by apply zlen_nonneg.
    rewrite app_nil_r, app_assoc. by rewrite drop_app_length' by (by rewrite length_app).
Qed.

Lemma send_step io s es segs start max (first : bool) (out : bytes) lo hi :
  seg_rep s es [] → es = lo ++ hi → start < seg_nextOffset s →
  (0 < max → zlen out <= max) →
  (if first then Segment_findExactPosition io s start else seg_dataStart s) =
    seg_dataStart s + zlen (log_bytes (seg_version s) lo) →
  ∃ out' : bytes, (0 < max → zlen out' <= max) ∧
    (∀ rest, cap max (out' ++ rest) = cap max (out ++ log_bytes (seg_version s) hi ++ rest)) ∧
    (send_loop io [] (s :: segs) start max first out = send_loop io [] segs start max false out' ∨
     (send_loop io [] (s :: segs) start max first out = (out', true) ∧
      ∀ rest, cap max (out' ++ rest) = out')).
Proof.
  intros Hr Hes Hnext Hle Hpos. cbn [send_loop tail].
  rewrite (proj2 (Z.leb_gt _ _)) by done. rewrite Hpos.
  destruct (seek_split s es lo hi Hr Hes) as [Hlen Hseek].
  destruct ((0 <? max) && (max <=? zlen out)) eqn:Efull.
  { z_bool. assert (zlen out = max) by lia. exists out. split; [done|]. split.
    - intros rest. by rewrite !cap_full.
    - right. split; [done|]. intros rest. by apply cap_full. }
  rewrite Hlen. destruct (Z.leb_spec (zlen (log_bytes (seg_version s) hi)) 0) as [Hz|Hz].
  { pose proof (zlen_nonneg (log_bytes (seg_version s) hi)).
    exists out. split; [done|]. split; [|by left]. intros rest.
    rewrite (zlen_zero (log_bytes (seg_version s) hi)) by lia. done. }
  unfold sendfileSegment. rewrite Hseek. cbn [head default].
  eexists. split; [|split; [|left; reflexivity]].
  - by apply (cap_step max out _ []).
  - intros rest. by apply (cap_step max out _ rest).
Qed.

Lemma send_loop_rest io segs ess start max :
  Forall2 (λ s es, seg_rep s es []) segs ess → Forall (λ s, start <= seg_baseOffset s) segs →
  ∀ out, (0 < max → zlen out <= max) →
  send_loop io [] segs start max false out =
    (cap max (out ++ mjoin (zip_with (raw_bytes start) segs ess)), true).
Proof.
  induction 1 as [|s es segs ess Hr Hf IH]; intros Hb out Hle.
  { cbn. rewrite app_nil_r. f_equal. unfold cap. destruct (Z.ltb_spec 0 max); [|done].
    specialize (Hle ltac:(done)). rewrite take_ge; [done|]. unfold zlen in Hle. lia. }
  apply Forall_cons in Hb as [Hb Hbs]. cbn [zip_with]. rewrite mjoin_cons.
  assert (filter (λ e, start <= e_offset e) es = es) as Hall.
  { apply list_filter_all. eapply Forall_impl; [apply (rep_range _ _ _ Hr)|]. simpl. lia. }
  unfold raw_bytes at 1. rewrite Hall.
  destruct (Z.leb_spec (seg_nextOffset s) start) as [Hle'|Hgt].
  { assert (es = []) as ->.
    { pose proof (rep_range _ _ _ Hr) as Hrg. destruct Hrg; [done|lia]. }
    cbn [send_loop tail]. rewrite (proj2 (Z.leb_le _ _)) by done. by apply IH. }
  destruct (send_step io s es segs start max false out [] es Hr) as (out' & Hle' & Hcap & Hcase);
    [done|done|done|cbn; rewrite (@zlen_nil Init.Byte.byte); lia|].
  rewrite <- Hcap. destruct Hcase as [->|[-> Hfull]]; [by apply IH|]. by rewrite Hfull.
Qed.

(** The raw transfer sends the records from the starting offset on, byte by
    byte as they are in the log, up to the limit. *)
Lemma send_loop_spec io segs ess start max :
  rio_open io = true → rio_seek io = true →
  Forall2 (λ s es, seg_rep s es []) segs ess → chained segs →
  send_loop io [] segs start max true [] =
    (cap max (mjoin (zip_with (raw_bytes start) segs ess)), true).
Proof.
  intros Ho Hk. induction 1 as [|s es segs ess Hr Hf IH]; intros Hc.
  { cbn. f_equal. unfold cap. by rewrite take_nil; case_match. }
  apply StronglySorted_inv in Hc as [Hc Hs]. cbn [zip_with]. rewrite mjoin_cons.
  destruct (Z.leb_spec (seg_nextOffset s) start) as [Hle|Hgt].
  { cbn [send_loop tail]. rewrite (proj2 (Z.leb_le _ _)), IH by done.
    unfold raw_bytes at 2. rewrite list_filter_none; [done|].
    eapply Forall_impl; [apply (rep_range _ _ _ Hr)|]. simpl. lia. }
  destruct (send_step io s es segs start max true [] _ _ Hr
              (sorted_split es start (rep_sorted _ _ _ Hr)) Hgt)
    as (out' & Hle' & Hcap & Hcase);
    [rewrite (@zlen_nil Init.Byte.byte); lia|by apply findExactPosition_rep|].
  cbn [app] in Hcap. unfold raw_bytes at 1. rewrite <- Hcap.
  destruct Hcase as [->|[-> Hfull]]; [|by rewrite Hfull].
  apply send_loop_rest; [done| |done]. eapply Forall_impl; [done|]. simpl. lia.
Qed.



(** Retention ([Compact]) drops whole segments and never the active one:
    the next offset is unchanged, what reads return afterwards is the log
    without the evicted segments, and the count returned is that of the
    evicted segments. *)
Theorem retention_keeps_active io now mtimes pl ess maxAge maxMB pl' gone n :
  pl_rep pl ess → PartitionLog_Compact now mtimes pl maxAge maxMB = (pl', gone, n) →
  rio_open io = true → rio_seek io = true →
  ∃ ess', sublist ess' ess ∧ last ess' = last ess ∧
    last (pl_segments pl') = last (pl_segments pl) ∧
    PartitionLog_NextOffset pl' = PartitionLog_NextOffset pl ∧
    n = PartitionLog_SegmentCount pl - PartitionLog_SegmentCount pl' ∧
    ∀ start max, PartitionLog_Read io pl' start max = Ok (spec_read (mjoin ess') start max).
Proof.
  intros Hrep Heq Ho Hk.
  destruct (PartitionLog_Compact_rep _ _ _ _ _ _ _ _ _ Hrep Heq)
    as (ess' & Hrep' & Hsub & Hlast & Hact & Hn & Hperm & ->).
  exists ess'. split_and!; try done.
  - unfold PartitionLog_SegmentCount. apply Permutation_length in Hperm.
    rewrite length_app in Hperm. unfold zlen. lia.
  - intros start max. by apply PartitionLog_Read_rep.
Qed.

(** The size limit of retention is all or nothing: as soon as the log is
    over the limit, every segment but the active one is evicted, however
    little over the limit the log is. *)
Theorem retention_over_limit_evicts_all now mtimes pl maxAge maxMB active pl' gone n :
  last (pl_segments pl) = Some active → (1 < length (pl_segments pl))%nat →
  (length (pl_segments pl) <= length mtimes)%nat → Forall (λ t, t ≠ None) mtimes →
  0 < i64 (maxMB * 1024 * 1024) < PartitionLog_totalLogSize pl →
  PartitionLog_Compact now mtimes pl maxAge maxMB = (pl', gone, n) →
  pl_segments pl' = [active] ∧ n = PartitionLog_SegmentCount pl - 1.
Proof.
  intros Hlast Hmany Hlen Hm Hover. unfold PartitionLog_Compact, PartitionLog_SegmentCount.
  rewrite (proj2 (Z.leb_gt _ _)) by (unfold zlen; lia).
  set (ev := compact_evicts _ _ _ _).
  assert (∀ t, t ≠ None → ev t = true) as Hev.
  { intros [t|] Ht; [|done]. unfold ev, compact_evicts.
    rewrite (proj2 (Z.ltb_lt 0 (i64 (maxMB * 1024 * 1024)))), (proj2 (Z.ltb_lt _ (PartitionLog_totalLogSize pl))) by lia.
    by rewrite orb_true_r. }
  clearbody ev. destruct (compact_loop ev mtimes (pl_segments pl)) as [keep g] eqn:E.
  intros [= <- <- <-]. simpl. generalize dependent mtimes.
  generalize dependent g. generalize dependent keep. clear Hover Hmany.
  induction (pl_segments pl) as [|s segs IH]; intros keep g mtimes Hlen Hm E; [done|].
  cbn [compact_loop] in E. destruct segs as [|s2 segs].
  { simplify_eq/=. by rewrite (@zlen_nil Segment), zlen_cons, (@zlen_nil Segment). }
  destruct (compact_loop ev (tail mtimes) (s2 :: segs)) as [k g'] eqn:E'.
  destruct mtimes as [|t mtimes]; simpl in Hlen; [lia|]. apply Forall_cons in Hm as [Ht Hm].
  cbn [head default] in E. rewrite Hev in E by done. simplify_eq.
  destruct (IH Hlast _ _ mtimes ltac:(simpl in *; lia) Hm E') as [-> Hg].
  split; [done|]. rewrite !zlen_cons in *. lia.
Qed.

(** The zero-copy fetch path sends the right bytes: [SendTo] writes to the
    connection exactly the stored records at or after the starting offset,
    byte for byte and across segments, cut at the byte limit when there is
    one. *)
Theorem sendto_exact io pl ess start max :
  rio_open io = true → rio_seek io = true →
  Forall2 (λ s es, seg_rep s es []) (pl_segments pl) ess → chained (pl_segments pl) →
  PartitionLog_SendTo io [] pl start max =
    (cap max (mjoin (zip_with (raw_bytes start) (pl_segments pl) ess)), true).
Proof. intros. by apply send_loop_spec. Qed.

(** [OffsetForTimestamp] returns the offset of the first record of the log
    whose message timestamp is at or after the given one, and the next offset
    when there is none. *)
Theorem offset_for_timestamp_first io pl ess ts :
  rio_open io = true → rio_seek io = true → pl_rep pl ess →
  PartitionLog_OffsetForTimestamp io pl ts =
    default (PartitionLog_NextOffset pl) (first_at ts (mjoin ess)).
Proof.
  intros Ho Hk Hrep. unfold PartitionLog_OffsetForTimestamp.
  by rewrite (timestamp_segments_spec io _ ess) by (done || apply Hrep).
Qed.

End PartitionLogs.

(** ** A concrete log of two segments *)

Definition demo_log2 : bytes := segFileHeader ++ log_bytes RecordVersion [(20, demo_msg 2 0)].

Definition demo_seg2 : Segment :=
  mkSegment 2 3 demo_log2 [] (zlen demo_log2) 100 200 0 "always" RecordVersion segFileHeaderSize.

Definition demo_pl : PartitionLog :=
  mkPartitionLog [demo_seg; demo_seg2] 100 200 "always" false.

Definition demo_ess : list (list entry) := [demo_entries; [(20, demo_msg 2 0)]].

Lemma demo_seg2_rep : seg_rep demo_seg2 [(20, demo_msg 2 0)] [].
Proof.
  split; try reflexivity.
  - apply ends_nil.
  - apply Forall_cons_2; [concrete_entry_wf|apply Forall_nil_2].
  - repeat constructor.
  - apply Forall_singleton. unfold e_offset; simpl; lia.
  - simpl. lia.
  - exists []. split; [reflexivity|constructor].
Qed.

Lemma demo_pl_rep : pl_rep demo_pl demo_ess.
Proof.
  split; [|repeat constructor; simpl; lia|done].
  apply Forall2_cons_2; [exists []; apply demo_seg_rep|].
  apply Forall2_cons_2; [exists []; apply demo_seg2_rep|apply Forall2_nil_2].
Qed.

Lemma demo_pl_clean : pl_clean demo_pl demo_ess.
Proof. exists demo_seg2, [(20, demo_msg 2 0)]. split_and!; [done|done|apply demo_seg2_rep]. Qed.

Lemma demo_pl_room : room 21 (target demo_pl demo_seg2) (demo_msg 0 0).
Proof.
  assert (target demo_pl demo_seg2 =
    mkSegment 3 3 segFileHeader [] 5 100 200 0 "always" RecordVersion 5) as ->
    by (vm_compute; reflexivity).
  split_and!.
  - concrete_entry_wf.
  - vm_compute. reflexivity.
  - vm_compute. reflexivity.
Qed.



Lemma retention_keeps_active_witness :
  PartitionLog_NextOffset
    (PartitionLog_Compact (10 ^ 18) [Some 5; Some 5] demo_pl 1 0).1.1 = 3.
Proof.
  destruct (retention_keeps_active rio_fine (10 ^ 18) [Some 5; Some 5] demo_pl demo_ess 1 0
              _ _ _ demo_pl_rep eq_refl eq_refl eq_refl) as (ess' & _ & _ & _ & Hn & _).
  exact Hn.
Defined.

(** One byte over a limit of one megabyte, in three segments. *)
Definition big_seg (base size : Z) : Segment :=
  mkSegment base (base + 1) [] [] size (2 ^ 20) 4096 0 "os" RecordVersion 5.

Definition big_pl : PartitionLog :=
  mkPartitionLog [big_seg 0 (2 ^ 19); big_seg 1 (2 ^ 19); big_seg 2 1] (2 ^ 20) 4096 "os" false.

Lemma retention_over_limit_evicts_all_witness :
  pl_segments (PartitionLog_Compact 100 [Some 5; Some 6; Some 7] big_pl 0 1).1.1 = [big_seg 2 1].
Proof.
  apply (retention_over_limit_evicts_all 100 [Some 5; Some 6; Some 7] big_pl 0 1 (big_seg 2 1)
           _ [big_seg 0 (2 ^ 19); big_seg 1 (2 ^ 19)] 2).
  - reflexivity.
  - apply Nat.ltb_lt. reflexivity.
  - apply Nat.leb_le. reflexivity.
  - by repeat constructor.
  - split; vm_compute; reflexivity.
  - reflexivity.
Defined.

Lemma sendto_exact_witness :
  PartitionLog_SendTo rio_fine [] demo_pl 1 0 =
    (entry_bytes RecordVersion (18, demo_msg 1 0) ++ entry_bytes RecordVersion (20, demo_msg 2 0),
     true).
Proof.
  rewrite (sendto_exact rio_fine demo_pl demo_ess 1 0).
  - vm_compute. reflexivity.
  - reflexivity.
  - reflexivity.
  - apply Forall2_cons_2; [apply demo_seg_rep|].
    apply Forall2_cons_2; [apply demo_seg2_rep|apply Forall2_nil_2].
  - apply demo_pl_rep.
Defined.

Lemma offset_for_timestamp_first_witness :
  PartitionLog_OffsetForTimestamp rio_fine demo_pl 1700000000000000000 = 0.
Proof.
  rewrite (offset_for_timestamp_first rio_fine demo_pl demo_ess _ eq_refl eq_refl demo_pl_rep).
  vm_compute. reflexivity.
Defined.
