(* ===== verification/Compactor.v ===== *)
(** * Key compaction: [internal/storage/compactor.go]

    One sweep of the compactor over a partition log, down to the bytes of
    the rewritten files.  [RewriteIO] is how far a rewrite gets: a failure
    before the renames leaves the segment's files alone, a failure of a
    rename or of the reopening leaves what was renamed. *)

From S2P Require Import Prelude GoLib Types Record Segment PartitionLog.

Local Open Scope Z_scope.

(** ** Configuration *)

Definition second_ns : Z := 10 ^ 9.
Definition millisecond_ns : Z := 10 ^ 6.

Definition defaultCompactionInterval : Z := 60 * second_ns.
Definition defaultTombstoneGrace : Z := 24 * hour_ns.
Definition tombstoneHeaderKey : string := "_compaction".
Definition tombstoneHeaderValue : string := "delete".

Record KeyCompactor := mkKeyCompactor {
  kc_interval : Z;
  kc_tombstoneTTL : Z;
}.

Definition NewKeyCompactor (interval : Z) : KeyCompactor :=
  mkKeyCompactor (if interval <=? 0 then defaultCompactionInterval else interval)
    defaultTombstoneGrace.

Definition KeyCompactor_UpdateConfig (kc : KeyCompactor) (interval graceMs : Z) : KeyCompactor :=
  let interval := if interval <=? 0 then defaultCompactionInterval else interval in
  let graceMs := if graceMs <? 0 then 0 else graceMs in
  mkKeyCompactor interval (i64 (graceMs * millisecond_ns)).

Definition KeyCompactor_SetTombstoneGrace (kc : KeyCompactor) (d : Z) : KeyCompactor :=
  mkKeyCompactor (kc_interval kc) (if d <? 0 then 0 else d).

(** ** Records as the sweep sees them *)

Record compactRecord := mkCompactRecord {
  cr_offset : Z;
  cr_key : string;
  cr_timestamp : Z;
  cr_tombstone : bool;
  cr_raw : bytes;
}.

Definition is_tombstone (m : Message) : bool :=
  bool_decide (msg_Headers m !! tombstoneHeaderKey = Some tombstoneHeaderValue).

(** ** Rewriting a segment *)

Inductive RewriteIO :=
| RwOk
| RwTempErr
| RwRenameLogErr
| RwRenameIndexErr
| RwReopenErr.

Inductive compact_err :=
| ScanErr (base : Z) (e : seg_err)
| RewriteErr (base : Z) (io : RewriteIO).

(** The write loop over the kept records: the new log and index. *)
Fixpoint rewrite_loop (indexEvery : Z) (kept : list bytes) (pos since : Z) (log idx : bytes) :
    bytes * bytes :=
  match kept with
  | [] => (log, idx)
  | rec :: kept =>
      let recOffset := i64 (get_uint (slice 0 8 rec)) in
      let recPos := pos in
      let since := since + zlen rec in
      if indexEvery <=? since
      then rewrite_loop indexEvery kept (pos + zlen rec) 0 (log ++ rec)
             (idx ++ index_entry recOffset recPos)
      else rewrite_loop indexEvery kept (pos + zlen rec) since (log ++ rec) idx
  end.

(** The files of a segment replaced, its counters as the code leaves them. *)
Definition seg_files (s : Segment) (log idx : bytes) (size : Z) : Segment :=
  seg_with s (seg_nextOffset s) log idx size 0.

Definition rewriteSegment (io : RewriteIO) (s : Segment) (kept : list bytes) :
    Segment * result unit RewriteIO :=
  let v2 := RecordVersion <=? seg_version s in
  let hdr := if v2 then segFileHeader else [] in
  let pos := if v2 then segFileHeaderSize else 0 in
  let '(log, idx) := rewrite_loop (seg_indexEvery s) kept pos 0 hdr [] in
  match io with
  | RwOk => (seg_files s log idx (zlen log), Ok tt)
  | RwTempErr => (s, Error io)
  | RwRenameLogErr =>
      (seg_files s (seg_logFile s) (seg_indexFile s) (zlen (seg_logFile s)), Error io)
  | RwRenameIndexErr => (seg_files s log (seg_indexFile s) (zlen log), Error io)
  | RwReopenErr =>
      (seg_with s (seg_nextOffset s) log idx (seg_logSize s) (seg_byteSinceIndex s), Error io)
  end.

(** ** The decision *)

(** [keyLatest]: scanning oldest to newest, the last offset of each key. *)
Definition add_latest (m : gmap string Z) (r : compactRecord) : gmap string Z :=
  if bool_decide (cr_key r = EmptyString) then m else <[cr_key r := cr_offset r]> m.

Definition key_latest (recs : list compactRecord) : gmap string Z := foldl add_latest ∅ recs.

(** Keyless records stay; of a key's records only the latest stays, and a
    tombstone only within its grace period. *)
Definition keep_record (latest : gmap string Z) (now graceNs : Z) (r : compactRecord) : bool :=
  if bool_decide (cr_key r = EmptyString) then true
  else if negb (cr_offset r =? default 0 (latest !! cr_key r)) then false
  else if cr_tombstone r then now - cr_timestamp r <? graceNs
  else true.

Section Compaction.
Context `{JsonCodec Message} `{Deflate}.

Definition readRawRecord (r : bytes) (version : Z) : result (compactRecord * bytes) rec_err :=
  match io_ReadFull r (hdr_size version) with
  | Error e => Error (RecRead e)
  | Ok (hdr, r1) =>
      let h := parse_header version hdr in
      match io_ReadFull r1 (rf_keyLen h + rf_payloadLen h) with
      | Error e => Error (RecRead e)
      | Ok (body, r2) =>
          let key := take (Z.to_nat (rf_keyLen h)) body in
          match decode_payload h (drop (Z.to_nat (rf_keyLen h)) body) with
          | Error e => Error e
          | Ok msg =>
              Ok (mkCompactRecord (rf_offset h) (string_of_bytes key) (rf_ts h)
                    (is_tombstone msg) (hdr ++ body), r2)
          end
      end
  end.

Fixpoint scan_raw (fuel : nat) (r : bytes) (version : Z) : result (list compactRecord) seg_err :=
  match fuel with
  | O => Ok []
  | S fuel =>
      match readRawRecord r version with
      | Error (RecRead _) => Ok []
      | Error e => Error (RecordErr e)
      | Ok (c, r') =>
          match scan_raw fuel r' version with
          | Ok l => Ok (c :: l)
          | Error e => Error e
          end
      end
  end.

Definition scanSegment (io : ReadIO) (s : Segment) : result (list compactRecord) seg_err :=
  if negb (rio_open io) then Error OpenErr
  else if negb (rio_seek io) then Error SeekErr
  else
    let r := seek (seg_dataStart s) (seg_logFile s) in
    scan_raw (S (length r)) r (seg_version s).

(** Pass 1: every target scanned, or the first scan error. *)
Fixpoint scan_all (io : ReadIO) (segs : list Segment) :
    result (list (list compactRecord)) compact_err :=
  match segs with
  | [] => Ok []
  | s :: segs =>
      match scanSegment io s with
      | Error e => Error (ScanErr (Segment_BaseOffset s) e)
      | Ok recs =>
          match scan_all io segs with
          | Error e => Error e
          | Ok l => Ok (recs :: l)
          end
      end
  end.

(** Pass 2: the targets rewritten in order, up to the first failure; [ios]
    has the outcome of each rewrite. *)
Fixpoint rewrite_all (ios : list RewriteIO) (keep : compactRecord → bool)
    (segs : list Segment) (recs : list (list compactRecord)) (removed : Z) :
    list Segment * Z * option compact_err :=
  match segs, recs with
  | s :: segs, rs :: recs =>
      let kept := cr_raw <$> filter (λ r, keep r = true) rs in
      let droppedHere := zlen rs - zlen kept in
      if droppedHere =? 0 then
        let '(segs', n, e) := rewrite_all ios keep segs recs removed in (s :: segs', n, e)
      else
        match rewriteSegment (default RwOk (head ios)) s kept with
        | (s', Error io) => (s' :: segs, removed, Some (RewriteErr (Segment_BaseOffset s) io))
        | (s', Ok _) =>
            let '(segs', n, e) :=
              rewrite_all (tail ios) keep segs recs (removed + droppedHere) in
            (s' :: segs', n, e)
        end
  | _, _ => (segs, removed, None)
  end.

Definition KeyCompactor_CompactPartition (rio : ReadIO) (ios : list RewriteIO) (now : Z)
    (kc : KeyCompactor) (pl : PartitionLog) : PartitionLog * Z * option compact_err :=
  if zlen (pl_segments pl) <=? 1 then (pl, 0, None)
  else
    let n := (length (pl_segments pl) - 1)%nat in
    let targets := take n (pl_segments pl) in
    let grace := if kc_tombstoneTTL kc <? 0 then 0 else kc_tombstoneTTL kc in
    match scan_all rio targets with
    | Error e => (pl, 0, Some e)
    | Ok recs =>
        let latest := key_latest (mjoin recs) in
        let '(segs', removed, err) :=
          rewrite_all ios (keep_record latest now grace) targets recs 0 in
        (pl_with pl (segs' ++ drop n (pl_segments pl)), removed, err)
    end.

(** ** Specification *)

Definition e_key (e : entry) : string := msg_Key e.2.

(** The record of an entry as the sweep reads it. *)
Definition entry_record (version : Z) (e : entry) : compactRecord :=
  mkCompactRecord (e_offset e) (e_key e) e.1 (is_tombstone e.2) (entry_bytes version e).

(** The value a reader of the compacted topic sees for a key: the key's last
    record, nothing if that is a tombstone. *)
Definition live (es : list entry) (k : string) : option entry :=
  match last (filter (λ e, e_key e = k) es) with
  | Some e => if is_tombstone e.2 then None else Some e
  | None => None
  end.

(** The decision on an entry; it does not depend on the record's bytes. *)
Definition keep_entry (latest : gmap string Z) (now graceNs : Z) (e : entry) : bool :=
  keep_record latest now graceNs (entry_record 0 e).

(** ** Reading records raw *)

Lemma readRawRecord_entry version e r :
  entry_wf version e →
  readRawRecord (entry_bytes version e ++ r) version = Ok (entry_record version e, r).
Proof.
  intros (hdr & p & Hb & Hh & Hp & Hu)%entry_parts.
  unfold entry_record. rewrite Hb. unfold readRawRecord.
  rewrite <- app_assoc, io_ReadFull_app, Hp by done. cbn [rf_keyLen rf_payloadLen].
  rewrite io_ReadFull_app by (by rewrite zlen_app).
  rewrite to_nat_zlen, take_app_length, drop_app_length.
  unfold decode_payload. cbn [rf_checksum rf_codec rf_offset rf_ts]. rewrite Z.eqb_refl.
  cbn [Z.eqb negb]. rewrite Hu. by rewrite string_of_bytes_of_string.
Qed.

Lemma readRawRecord_end r v e :
  decodeRecord r v = Error (RecRead e) → readRawRecord r v = Error (RecRead e).
Proof.
  unfold decodeRecord, readRawRecord. intros Hd.
  destruct (io_ReadFull r _) as [[hdr r1]|]; [|by simplify_eq].
  destruct (io_ReadFull r1 _) as [[body r2]|]; [|by simplify_eq].
  unfold decode_payload in *. by repeat case_match; simplify_eq.
Qed.

Lemma scan_raw_spec v es tail :
  Forall (entry_wf v) es → ends v tail →
  ∀ fuel, (length es < fuel)%nat →
  scan_raw fuel (log_bytes v es ++ tail) v = Ok (entry_record v <$> es).
Proof.
  intros Hwf [err Htail]. induction Hwf as [|e es He Hes IH]; intros [|fuel] Hf;
    try (simpl in Hf; lia); cbn [scan_raw].
  - cbn. by rewrite (readRawRecord_end _ _ _ Htail).
  - simpl in Hf. rewrite log_bytes_cons, <- app_assoc, readRawRecord_entry by done.
    by rewrite IH by lia.
Qed.

Lemma scanSegment_rep io s es tail :
  rio_open io = true → rio_seek io = true → seg_rep s es tail →
  scanSegment io s = Ok (entry_record (seg_version s) <$> es).
Proof.
  intros Ho Hk Hr. unfold scanSegment. rewrite Ho, Hk. cbn [negb].
  rewrite (seg_seek_start _ _ _ Hr). apply scan_raw_spec; [apply Hr..|].
  rewrite length_app. pose proof (log_bytes_length _ _ (rep_wf _ _ _ Hr)). lia.
Qed.

(** ** Rewriting *)

Lemma entry_bytes_offset v e :
  entry_wf v e → i64 (get_uint (slice 0 8 (entry_bytes v e))) = e_offset e.
Proof.
  intros (hdr & p & -> & Hh & Hp & _)%entry_parts.
  apply (f_equal rf_offset) in Hp. cbn in Hp. rewrite <- Hp. do 2 f_equal.
  assert (8 <= length hdr)%nat.
  { unfold zlen, hdr_size, recV2HeaderSize, recV1HeaderSize in Hh. case_match; lia. }
  rewrite slice_app_l by lia. unfold slice. by rewrite drop_0.
Qed.

Lemma rewrite_loop_spec v ds hdr every es2 : ∀ es1 ps since,
  Forall (entry_wf v) es2 → Forall (indexed v ds (es1 ++ es2)) ps →
  ∃ ps', rewrite_loop every (entry_bytes v <$> es2) (ds + zlen (log_bytes v es1)) since
           (hdr ++ log_bytes v es1) (mjoin ((λ p, index_entry p.1 p.2) <$> ps)) =
         (hdr ++ log_bytes v (es1 ++ es2), mjoin ((λ p, index_entry p.1 p.2) <$> ps')) ∧
         Forall (indexed v ds (es1 ++ es2)) ps'.
Proof.
  induction es2 as [|e es2 IH]; intros es1 ps since Hwf Hps.
  { exists ps. by rewrite app_nil_r in *. }
  apply Forall_cons in Hwf as [He Hwf]. cbn [fmap list_fmap rewrite_loop].
  rewrite entry_bytes_offset by done.
  replace (ds + zlen (log_bytes v es1) + zlen (entry_bytes v e))
    with (ds + zlen (log_bytes v (es1 ++ [e]))).
  2: { rewrite log_bytes_app, zlen_app, log_bytes_cons, app_nil_r. lia. }
  replace ((hdr ++ log_bytes v es1) ++ entry_bytes v e) with (hdr ++ log_bytes v (es1 ++ [e])).
  2: { by rewrite log_bytes_app, log_bytes_cons, app_nil_r, app_assoc. }
  rewrite (cons_middle e es1 es2), app_assoc in Hps |- *.
  case_match.
  - replace (mjoin _ ++ index_entry _ _) with (mjoin ((λ p, index_entry p.1 p.2) <$>
      (ps ++ [(e_offset e, ds + zlen (log_bytes v es1))]))).
    2: { rewrite fmap_app, join_app. cbn. by rewrite app_nil_r. }
    apply IH; [done|]. apply Forall_app. split; [done|]. apply Forall_singleton.
    exists es1, e, es2. split_and!; [by rewrite <- app_assoc|done|done].
  - by apply IH.
Qed.

Lemma rewriteSegment_rep s es tail es' :
  seg_rep s es tail → sublist es' es →
  seg_rep (rewriteSegment RwOk s (entry_bytes (seg_version s) <$> es')).1 es' [].
Proof.
  intros Hr Hsub. pose proof (Forall_sublist _ _ _ (rep_wf _ _ _ Hr) Hsub) as Hwf.
  destruct (rewrite_loop_spec (seg_version s) (seg_dataStart s) (seg_header (seg_version s))
              (seg_indexEvery s) es' [] [] 0 Hwf) as (ps & Heq & Hps); [constructor|].
  unfold rewriteSegment. change (log_bytes (seg_version s) []) with (@nil Init.Byte.byte) in Heq.
  cbn [app fmap list_fmap mjoin list_join] in Heq.
  rewrite app_nil_r, (@zlen_nil Init.Byte.byte), Z.add_0_r in Heq.
  fold (seg_header (seg_version s)).
  assert ((if RecordVersion <=? seg_version s then segFileHeaderSize else 0) = seg_dataStart s) as ->.
  { rewrite (rep_start _ _ _ Hr). unfold seg_header. by case_match. }
  rewrite Heq. clear Heq. pose proof (rep_small _ _ _ Hr) as Hsm.
  pose proof (rep_log _ _ _ Hr) as Hlog. destruct Hr. split; simpl; try done.
  - by rewrite app_nil_r.
  - apply ends_nil.
  - by eapply sorted_sublist.
  - by eapply Forall_sublist.
  - by exists ps.
  - eapply Z.le_lt_trans; [|exact Hsm]. rewrite Hlog, !zlen_app.
    pose proof (zlen_nonneg tail). pose proof (log_bytes_sublist (seg_version s) es' es Hsub). lia.
Qed.

(** ** The decision *)

Lemma keep_entry_record latest now g v e :
  keep_record latest now g (entry_record v e) = keep_entry latest now g e.
Proof. done. Qed.

Lemma filter_keep_record latest now g v (es : list entry) :
  cr_raw <$> filter (λ r, keep_record latest now g r = true) (entry_record v <$> es) =
  entry_bytes v <$> filter (λ e, keep_entry latest now g e = true) es.
Proof.
  induction es as [|e es IH]; [done|]. cbn [fmap list_fmap]. rewrite !filter_cons.
  rewrite keep_entry_record. case_decide; [|done]. cbn [fmap list_fmap]. by rewrite <- IH.
Qed.

(** The latest offset of a key, over records of any version. *)
Lemma key_latest_lookup (recs : list compactRecord) (es : list entry) k :
  Forall2 (λ r e, cr_key r = e_key e ∧ cr_offset r = e_offset e) recs es → k ≠ EmptyString →
  key_latest recs !! k = e_offset <$> last (filter (λ e, e_key e = k) es).
Proof.
  intros Hf Hk. unfold key_latest. revert es Hf.
  induction recs as [|r recs IH] using rev_ind; intros es Hf.
  { apply Forall2_nil_inv_l in Hf as ->. done. }
  apply Forall2_app_inv_l in Hf as (es1 & es2 & Hf & Hr & ->).
  apply Forall2_cons_inv_l in Hr as (e & es3 & [Hrk Hro] & Hn & ->).
  apply Forall2_nil_inv_l in Hn as ->.
  rewrite foldl_app, filter_app. cbn [foldl]. unfold add_latest at 1. rewrite Hrk, Hro.
  rewrite filter_cons, filter_nil. case_bool_decide as He.
  - rewrite decide_False by congruence. rewrite app_nil_r. by apply IH.
  - case_decide as Hek; subst.
    + by rewrite lookup_insert, last_snoc, decide_True.
    + rewrite lookup_insert_ne, app_nil_r by done. by apply IH.
Qed.

Lemma filter_key_sorted es k :
  offsets_sorted es → offsets_sorted (filter (λ e, e_key e = k) es).
Proof. intros. eapply sorted_sublist; [done|]. apply sublist_filter. Qed.

(** Compacting a prefix of the targets changes no key's value, as long as
    the latest offsets are those of all targets. *)
Lemma live_keep latest now g es1 es2 es3 k :
  k ≠ EmptyString → offsets_sorted (es1 ++ es2) →
  latest !! k = e_offset <$> last (filter (λ e, e_key e = k) (es1 ++ es2)) →
  live (filter (λ e, keep_entry latest now g e = true) es1 ++ es2 ++ es3) k =
  live (es1 ++ es2 ++ es3) k.
Proof.
  intros Hk Hs Hl. unfold live. rewrite !(filter_app _ _ (es2 ++ es3)). rewrite filter_app in Hl.
  rewrite filter_comm.
  assert (∀ (l l2 : list entry), l2 ≠ [] → last (l ++ l2) = last l2) as Hlast.
  { intros l l2 Hne. destruct l2 as [|x l2 _] using rev_ind; [done|].
    by rewrite app_assoc, !last_snoc. }
  destruct (decide (filter (λ e, e_key e = k) (es2 ++ es3) = [])) as [Hn|Hn].
  2: { by rewrite !Hlast. }
  rewrite Hn, !app_nil_r. rewrite filter_app in Hn. apply app_eq_nil in Hn as [Hn _].
  rewrite Hn, app_nil_r in Hl. apply StronglySorted_app_1_l in Hs.
  apply (filter_key_sorted _ k) in Hs.
  pose proof (Forall_filter (λ e, e_key e = k) es1) as Hkeys.
  destruct (filter (λ e, e_key e = k) es1) as [|l ls _] using rev_ind; [done|].
  rewrite last_snoc in *. rewrite filter_app.
  apply Forall_app in Hkeys as [Hkeys [Hkl _]%Forall_cons].
  assert (∀ e, e_key e = k → keep_entry latest now g e =
    if negb (e_offset e =? e_offset l) then false
    else if is_tombstone e.2 then now - e.1 <? g else true) as Hkeep.
  { intros e He. unfold keep_entry, keep_record. cbn.
    rewrite bool_decide_eq_false_2 by congruence. by rewrite He, Hl. }
  rewrite filter_cons, filter_nil. case_decide as Hd; [by rewrite last_snoc|].
  assert (is_tombstone l.2 = true) as Htomb.
  { rewrite Hkeep, Z.eqb_refl in Hd by done. cbn in Hd. by destruct (is_tombstone l.2). }
  rewrite Htomb, app_nil_r, list_filter_none; [done|].
  apply sorted_snoc_iff in Hs as [_ Hs]. rewrite Forall_forall in *. intros e He.
  rewrite Hkeep by auto. apply Hs in He. rewrite (proj2 (Z.eqb_neq _ _)) by lia. done.
Qed.

(** Records without a key are never removed. *)
Lemma keep_keyless latest now g (es : list entry) :
  filter (λ e, e_key e = EmptyString) (filter (λ e, keep_entry latest now g e = true) es) =
  filter (λ e, e_key e = EmptyString) es.
Proof.
  rewrite filter_comm. apply list_filter_all.
  eapply Forall_impl; [apply (Forall_filter (λ e, e_key e = EmptyString))|].
  intros e He. simpl in He. unfold keep_entry, keep_record. cbn.
  by rewrite bool_decide_eq_true_2.
Qed.

(** ** The sweep *)

(** Outcomes that leave a segment readable: success, or a failure before its
    log is replaced. *)
Definition safe (io : RewriteIO) : Prop := io = RwOk ∨ io = RwTempErr ∨ io = RwRenameLogErr.

Lemma rewriteSegment_safe io s es tail es' s' e :
  seg_rep s es tail → sublist es' es → safe io →
  rewriteSegment io s (entry_bytes (seg_version s) <$> es') = (s', e) →
  seg_baseOffset s' = seg_baseOffset s ∧ seg_nextOffset s' = seg_nextOffset s ∧
  match e with
  | Ok _ => io = RwOk ∧ seg_rep s' es' []
  | Error _ => io ≠ RwOk ∧ seg_rep s' es tail
  end.
Proof.
  intros Hr Hsub Hsafe Heq. pose proof (rewriteSegment_rep s es tail es' Hr Hsub) as Hok.
  unfold rewriteSegment in *. destruct (rewrite_loop _ _ _ _ _ _) as [log idx].
  destruct Hsafe as [->|[->| ->]]; simplify_eq/=; split_and!; try done.
  destruct Hr. by split.
Qed.

Lemma scan_all_rep io segs ess :
  rio_open io = true → rio_seek io = true →
  Forall2 (λ s es, ∃ tail, seg_rep s es tail) segs ess →
  scan_all io segs = Ok (zip_with (λ s es, entry_record (seg_version s) <$> es) segs ess).
Proof.
  intros Ho Hk. induction 1 as [|s es segs ess [tl Hr] Hf IH]; [done|].
  cbn [scan_all zip_with]. by rewrite (scanSegment_rep io s es tl), IH.
Qed.

Lemma zlen_filter_all {A} (P : A → Prop) `{∀ x, Decision (P x)} (l : list A) :
  zlen (filter P l) = zlen l → filter P l = l.
Proof.
  intros Hl. apply list_filter_all.
  induction l as [|x l IH]; [done|]. rewrite filter_cons in Hl.
  pose proof (length_filter P l). case_decide; rewrite ?zlen_cons in Hl.
  - constructor; [done|]. apply IH. lia.
  - unfold zlen in Hl. lia.
Qed.

Lemma rewrite_all_spec latest now g segs ess :
  let keep := λ e, keep_entry latest now g e = true in
  Forall2 (λ s es, ∃ tail, seg_rep s es tail) segs ess →
  ∀ ios n0 segs' n err, Forall safe ios →
  rewrite_all ios (keep_record latest now g) segs
    (zip_with (λ s es, entry_record (seg_version s) <$> es) segs ess) n0 = (segs', n, err) →
  ∃ i, Forall2 (λ s es, ∃ tail, seg_rep s es tail) segs'
         ((filter keep <$> take i ess) ++ drop i ess) ∧
    Forall2 (λ s s', seg_baseOffset s' = seg_baseOffset s ∧ seg_nextOffset s' = seg_nextOffset s)
      segs segs' ∧
    n = n0 + zlen (mjoin ess) - zlen (mjoin ((filter keep <$> take i ess) ++ drop i ess)) ∧
    (ios = [] → err = None ∧ i = length ess).
Proof.
  intros keep. induction 1 as [|s es segs ess [tl Hr] Hf IH]; intros ios n0 segs' n err Hsafe Heq.
  { simplify_eq/=. exists 0%nat. cbn. split_and!; try constructor; try done. lia. }
  cbn [zip_with rewrite_all] in Heq. rewrite filter_keep_record in Heq.
  assert (Forall2 (λ s s', seg_baseOffset s' = seg_baseOffset s ∧
                           seg_nextOffset s' = seg_nextOffset s) segs segs) as Hrefl
    by (by apply Forall_Forall2_diag, Forall_forall).
  set (es' := filter (λ e, keep_entry latest now g e = true) es) in *.
  assert (zlen (entry_record (seg_version s) <$> es) - zlen (entry_bytes (seg_version s) <$> es') =
          zlen es - zlen es') as Hdrop by (unfold zlen; by rewrite !length_fmap).
  rewrite Hdrop in Heq. destruct (Z.eqb_spec (zlen es - zlen es') 0) as [Hz|Hz].
  - destruct (rewrite_all ios _ segs _ n0) as [[segs2 n2] e2] eqn:E. simplify_eq.
    destruct (IH _ _ _ _ _ Hsafe E) as (i & H1' & H2' & H3' & H4').
    assert (es' = es) as Hes by (apply zlen_filter_all; unfold es' in Hz; lia).
    exists (S i). cbn [take drop fmap list_fmap app]. change (filter keep es) with es'. rewrite Hes, !mjoin_cons, !zlen_app.
    split_and!; [constructor; eauto|by constructor|lia|].
    intros Hn. destruct (H4' Hn) as [? ->]. done.
  - destruct (rewriteSegment _ s _) as [s' r] eqn:E.
    assert (safe (default RwOk (head ios))) as Hs0.
    { destruct Hsafe; [by left|done]. }
    destruct (rewriteSegment_safe _ _ _ _ _ _ _ Hr (sublist_filter _ _) Hs0 E) as (Hb & Hn & Hcase).
    destruct r as [u|io].
    + destruct Hcase as [_ Hr'].
      destruct (rewrite_all (tail ios) _ segs _ _) as [[segs2 n2] e2] eqn:E2. simplify_eq.
      destruct (IH _ _ _ _ _ (Forall_tail _ _ Hsafe) E2) as (i & H1' & H2' & H3' & H4').
      exists (S i). cbn [take drop fmap list_fmap app]. change (filter keep es) with es'. rewrite !mjoin_cons, !zlen_app.
      split_and!; [constructor; eauto|by constructor|lia|].
      intros ->. by destruct (H4' eq_refl) as [? ->].
    + destruct Hcase as [Hne Hr']. simplify_eq. exists 0%nat. cbn [take drop fmap list_fmap app].
      split_and!; [constructor; eauto|by constructor|lia|]. intros ->. done.
Qed.

Lemma rep_sorted_join segs ess :
  Forall2 (λ s es, ∃ tail, seg_rep s es tail) segs ess → chained segs →
  offsets_sorted (mjoin ess).
Proof.
  intros Hf. induction Hf as [|s es segs ess [tl Hr] Hf IH]; intros Hc; [constructor|].
  apply StronglySorted_inv in Hc as [Hc Hs]. rewrite mjoin_cons.
  apply StronglySorted_app. split_and!; [|apply Hr|by apply IH].
  intros x y Hx Hy. pose proof (rep_range _ _ _ Hr) as Hrg. rewrite Forall_forall in Hrg.
  apply Hrg in Hx. clear -Hx Hy Hf Hs.
  induction Hf as [|s2 es2 segs ess [tl2 Hr2] Hf IH]; [by apply elem_of_nil in Hy|].
  apply Forall_cons in Hs as [Hs Hss]. rewrite mjoin_cons in Hy.
  apply elem_of_app in Hy as [Hy|Hy]; [|by apply IH].
  pose proof (rep_range _ _ _ Hr2) as Hrg2. rewrite Forall_forall in Hrg2.
  apply Hrg2 in Hy. lia.
Qed.

Lemma chained_same segs segs' :
  Forall2 (λ s s', seg_baseOffset s' = seg_baseOffset s ∧ seg_nextOffset s' = seg_nextOffset s)
    segs segs' → chained segs → chained segs'.
Proof.
  unfold chained. induction 1 as [|s s' segs segs' [Hb Hn] Hf IH]; intros Hs; [constructor|].
  apply StronglySorted_inv in Hs as [Hs Hx]. constructor; [by apply IH|]. clear IH Hs.
  induction Hf as [|t t' segs segs' [Hb' Hn'] Hf IH]; constructor.
  - apply Forall_cons in Hx as [Hx _]. lia.
  - apply IH. by apply Forall_cons in Hx as [_ Hx].
Qed.

Lemma records_match segs ess :
  length segs = length ess →
  Forall2 (λ r e, cr_key r = e_key e ∧ cr_offset r = e_offset e)
    (mjoin (zip_with (λ s es, entry_record (seg_version s) <$> es) segs ess)) (mjoin ess).
Proof.
  revert ess. induction segs as [|s segs IH]; intros [|es ess] Hl; try done.
  cbn [zip_with]. rewrite !mjoin_cons. apply Forall2_app; [|apply IH; simpl in Hl; lia].
  apply Forall2_fmap_l, Forall_Forall2_diag, Forall_forall. done.
Qed.

(** What a sweep leaves: a prefix of the targets compacted, the rest and the
    active segment as they were. *)
Lemma CompactPartition_rep rio ios now kc pl ess pl' removed err :
  rio_open rio = true → rio_seek rio = true → Forall safe ios → pl_rep pl ess →
  KeyCompactor_CompactPartition rio ios now kc pl = (pl', removed, err) →
  ∃ latest g ess1 ess2 act,
    let keep := λ e, keep_entry latest now g e = true in
    let ess' := (filter keep <$> ess1) ++ ess2 ++ [act] in
    ess = ess1 ++ ess2 ++ [act] ∧ pl_rep pl' ess' ∧
    (∀ k, k ≠ EmptyString →
       latest !! k = e_offset <$> last (filter (λ e, e_key e = k) (mjoin ess1 ++ mjoin ess2))) ∧
    offsets_sorted (mjoin ess1 ++ mjoin ess2) ∧
    last (pl_segments pl') = last (pl_segments pl) ∧
    removed = zlen (mjoin ess) - zlen (mjoin ess') ∧
    (ios = [] → err = None ∧ ess2 = []).
Proof.
  intros Ho Hk Hsafe Hrep. unfold KeyCompactor_CompactPartition.
  destruct (pl_rep_last pl ess Hrep) as (older & a & ess0 & act & tl & Hsegs & -> & Ha & Hold & Hf & Hr).
  destruct (Z.leb_spec (zlen (pl_segments pl)) 1) as [Hone|Hmany].
  { intros [= <- <- <-]. exists ∅, 0, [], [], act.
    assert (older = []) as ->.
    { rewrite Hsegs, zlen_app, zlen_cons, zlen_nil in Hone. apply zlen_zero.
      pose proof (zlen_nonneg older). lia. }
    apply Forall2_nil_inv_l in Hf as ->. cbn. split_and!; try done; [constructor|lia]. }
  rewrite <- Hold, (scan_all_rep rio older ess0) by done.
  set (recs := zip_with _ older ess0). set (latest := key_latest (mjoin recs)).
  set (g := if _ <? _ then _ else _).
  destruct (rewrite_all _ _ older recs 0) as [[segs' n] e] eqn:E. intros [= <- <- <-].
  destruct (rewrite_all_spec latest now g older ess0 Hf _ _ _ _ _ Hsafe E)
    as (i & Hf' & Hsame & Hn & Hok).
  assert (drop (length (pl_segments pl) - 1) (pl_segments pl) = [a]) as Hdrop.
  { rewrite Hsegs, length_app. cbn [length]. rewrite Nat.add_sub. apply drop_app_length. }
  pose proof (Forall2_length _ _ _ Hf) as Hlen.
  pose proof (plr_chain _ _ Hrep) as Hch. rewrite Hsegs in Hch.
  exists latest, g, (take i ess0), (drop i ess0), act. rewrite Hdrop.
  rewrite <- join_app, take_drop. split_and!.
  - by rewrite app_assoc, take_drop.
  - split; simpl; [| |by destruct segs'].
    + rewrite app_assoc. apply Forall2_app; [done|]. repeat constructor. eauto.
    + eapply chained_same; [|exact Hch]. apply Forall2_app; [done|]. by repeat constructor.
  - intros k Hk'. unfold latest. apply key_latest_lookup; [|done]. by apply records_match.
  - eapply rep_sorted_join; [done|]. by apply chained_app_inv in Hch as [Hch _].
  - simpl. by rewrite last_snoc, Ha.
  - rewrite (app_assoc (filter _ <$> _)), !join_app, !zlen_app. rewrite !join_app, zlen_app in Hn.
    cbn. lia.
  - intros Hn'. destruct (Hok Hn') as [? ->]. split; [done|]. by apply drop_ge.
Qed.

(** C33: a compaction sweep of a partition log that completes, or is cut short
    by a failure before a log is replaced ([safe]), changes no key's value: for
    every key the last record (or its deletion by a tombstone) that a reader of
    the log sees is the same before and after, records without a key are all
    kept in order, the active segment and the next offset are untouched, and the
    count returned is the number of records removed. A failure after the log's
    rename is another matter: see [index_rename_failure_uncounted]. *)
Theorem compaction_preserves_values rio ios now kc pl ess pl' removed err :
  rio_open rio = true → rio_seek rio = true → Forall safe ios → pl_rep pl ess →
  KeyCompactor_CompactPartition rio ios now kc pl = (pl', removed, err) →
  ∃ ess', pl_rep pl' ess' ∧
    (∀ k, k ≠ EmptyString → live (mjoin ess') k = live (mjoin ess) k) ∧
    filter (λ e, e_key e = EmptyString) (mjoin ess') =
      filter (λ e, e_key e = EmptyString) (mjoin ess) ∧
    last ess' = last ess ∧
    PartitionLog_NextOffset pl' = PartitionLog_NextOffset pl ∧
    removed = zlen (mjoin ess) - zlen (mjoin ess').
Proof.
  intros Ho Hk Hsafe Hrep Heq.
  destruct (CompactPartition_rep _ _ _ _ _ _ _ _ _ Ho Hk Hsafe Hrep Heq)
    as (latest & g & ess1 & ess2 & act & -> & Hrep' & Hl & Hs & Hlast & Hn & _).
  eexists. split; [exact Hrep'|].
  assert (∀ P `{∀ e, Decision (P e)} (l : list (list entry)),
    mjoin (filter P <$> l) = filter P (mjoin l)) as Hjoin.
  { intros P HP l. induction l as [|x l IH]; [done|].
    rewrite fmap_cons, !mjoin_cons, filter_app. by rewrite IH. }
  rewrite !join_app, Hjoin. split_and!.
  - intros k Hk'. apply live_keep; auto.
  - rewrite !filter_app, keep_keyless. done.
  - by rewrite !app_assoc, !last_snoc.
  - unfold PartitionLog_NextOffset. by rewrite Hlast.
  - rewrite <- Hjoin, <- !join_app. exact Hn.
Qed.

End Compaction.

(** Compacting the log of [PartitionLog]: the first segment holds two records
    of one key, the first of which goes. *)
Lemma compaction_preserves_values_witness :
  ∃ pl' err, KeyCompactor_CompactPartition rio_fine [] 100 (NewKeyCompactor 0) demo_pl =
      (pl', 1, err) ∧ PartitionLog_NextOffset pl' = 3.
Proof.
  destruct (KeyCompactor_CompactPartition rio_fine [] 100 (NewKeyCompactor 0) demo_pl)
    as [[pl' removed] err] eqn:E.
  destruct (compaction_preserves_values rio_fine [] 100 (NewKeyCompactor 0) demo_pl demo_ess
              pl' removed err) as (ess' & _ & _ & _ & _ & Hn & _);
    [reflexivity|reflexivity|constructor|apply demo_pl_rep|exact E|].
  exists pl', err. split; [|exact Hn].
  assert (removed = 1) as ->; [|done].
  apply (f_equal (λ x, x.1.2)) in E. vm_compute in E. by symmetry.
Defined.

(** When the index cannot be renamed the new log is in place already: records
    are gone, the sweep stops with an error and counts none of them, and the
    index is still that of the old log. *)
Lemma index_rename_failure_uncounted :
  ∃ pl' err s s', KeyCompactor_CompactPartition rio_fine [RwRenameIndexErr] 100 (NewKeyCompactor 0) demo_pl =
      (pl', 0, Some err) ∧
    head (pl_segments demo_pl) = Some s ∧ head (pl_segments pl') = Some s' ∧
    zlen (seg_logFile s') < zlen (seg_logFile s) ∧ seg_indexFile s' = seg_indexFile s.
Proof.
  destruct (KeyCompactor_CompactPartition rio_fine [RwRenameIndexErr] 100 (NewKeyCompactor 0) demo_pl)
    as [[pl' removed] err] eqn:E.
  vm_compute in E. injection E as <- <- <-. eexists _, _, _, _. split; [reflexivity|].
  split; [vm_compute; reflexivity|]. split; [reflexivity|]. split; [vm_compute; reflexivity|vm_compute; reflexivity].
Qed.
