(* ===== verification/Wal.v ===== *)
(** * The write-ahead log: [internal/wal/wal.go]

    The file is its bytes; [WalIO] has the outcomes of one entry's calls.
    Recovery is characterised on any file contents, not only on what the log
    wrote itself. *)

From S2P Require Import Prelude GoLib.

Local Open Scope Z_scope.

(** ** State *)

Definition headerSize : Z := 16.

Record WalEntry := mkWalEntry {
  we_Offset : Z;
  we_Data : bytes;
}.

#[global] Instance WalEntry_eq_dec : EqDecision WalEntry.
Proof. solve_decision. Defined.

Record WAL := mkWAL {
  wal_file : bytes;
  wal_nextOffset : Z;
}.

(** Outcomes of the calls of one [writeEntry]: the seek, the number of bytes
    of header and data that reach the file when a write fails ([None]: both
    writes succeed), and the fsync. *)
Record WalIO := mkWalIO {
  wi_seek : bool;
  wi_write : option nat;
  wi_sync : bool;
}.

Definition wal_io_fine : WalIO := mkWalIO true None true.

Inductive wal_err :=
| WalMkdir
| WalOpen
| WalSeek
| WalWrite
| WalSync
| WalTruncate.

(** ** Appending *)

Definition wal_entry (offset : Z) (data : bytes) : bytes :=
  (put_u64 (u64 offset) ++ put_u32 (u32 (zlen data)) ++ put_u32 (crc32_ChecksumIEEE data)) ++ data.

Definition WAL_writeEntry (io : WalIO) (w : WAL) (offset : Z) (data : bytes) :
    WAL * result unit wal_err :=
  let rec := wal_entry offset data in
  if negb (wi_seek io) then (w, Error WalSeek)
  else
    match wi_write io with
    | Some n => (mkWAL (wal_file w ++ take n rec) (wal_nextOffset w), Error WalWrite)
    | None =>
        let w := mkWAL (wal_file w ++ rec) (wal_nextOffset w) in
        if wi_sync io then (w, Ok tt) else (w, Error WalSync)
    end.

Definition WAL_Append (io : WalIO) (w : WAL) (data : bytes) : WAL * result Z wal_err :=
  let offset := wal_nextOffset w in
  match WAL_writeEntry io w offset data with
  | (w', Error e) => (w', Error e)
  | (w', Ok _) => (mkWAL (wal_file w') (i64 (wal_nextOffset w' + 1)), Ok offset)
  end.

Definition WAL_NextOffset (w : WAL) : Z := wal_nextOffset w.

(** The rewriting loop of [Truncate]: [ios] has the outcomes of each entry. *)
Fixpoint rewrite_entries (ios : list WalIO) (w : WAL) (new : list bytes) :
    WAL * result unit wal_err :=
  match new with
  | [] => (w, Ok tt)
  | data :: new =>
      match WAL_writeEntry (default wal_io_fine (head ios)) w (wal_nextOffset w) data with
      | (w', Error e) => (w', Error e)
      | (w', Ok _) =>
          rewrite_entries (tail ios) (mkWAL (wal_file w') (i64 (wal_nextOffset w' + 1))) new
      end
  end.

Definition WAL_Truncate (trunc_ok seek_ok : bool) (ios : list WalIO) (w : WAL)
    (newEntries : list bytes) : WAL * result unit wal_err :=
  if negb trunc_ok then (w, Error WalTruncate)
  else if negb seek_ok then (mkWAL [] (wal_nextOffset w), Error WalSeek)
  else rewrite_entries ios (mkWAL [] 0) newEntries.

(** ** Recovery *)

(** One pass of the loop of [recover]: an entry and the rest, or the end. *)
Definition read_entry (r : bytes) : option (WalEntry * bytes) :=
  match io_ReadFull r headerSize with
  | Error _ => None
  | Ok (hdr, r1) =>
      let offset := i64 (get_uint (slice 0 8 hdr)) in
      let length := get_uint (slice 8 12 hdr) in
      let checksum := get_uint (slice 12 16 hdr) in
      match io_ReadFull r1 length with
      | Error _ => None
      | Ok (data, r2) =>
          if negb (crc32_ChecksumIEEE data =? checksum) then None
          else Some (mkWalEntry offset data, r2)
      end
  end.

(** The loop: entries, the position to truncate to and the highest offset. *)
Fixpoint wal_recover_loop (fuel : nat) (r : bytes) (pos : Z) (entries : list WalEntry)
    (maxOffset : Z) : list WalEntry * Z * Z :=
  match fuel with
  | O => (entries, pos, maxOffset)
  | S fuel =>
      match read_entry r with
      | None => (entries, pos, maxOffset)
      | Some (e, r') =>
          wal_recover_loop fuel r' (pos + headerSize + zlen (we_Data e)) (entries ++ [e])
            (if maxOffset <? we_Offset e then we_Offset e else maxOffset)
      end
  end.

(** [recover], with the outcomes of the truncation and of its fsync. *)
Definition WAL_recover (trunc_ok sync_ok : bool) (w : WAL) :
    WAL * result (list WalEntry) wal_err :=
  let '(entries, truncateTo, maxOffset) :=
    wal_recover_loop (S (length (wal_file w))) (wal_file w) 0 [] (-1) in
  if negb trunc_ok then (w, Error WalTruncate)
  else
    let w := mkWAL (take (Z.to_nat truncateTo) (wal_file w)) (wal_nextOffset w) in
    if negb sync_ok then (w, Error WalSync)
    else
      (mkWAL (wal_file w) (if 0 <=? maxOffset then i64 (maxOffset + 1) else wal_nextOffset w),
       Ok entries).

Definition WAL_Open (mkdir_ok open_ok trunc_ok sync_ok : bool) (file : bytes) :
    result (WAL * list WalEntry) wal_err :=
  if negb mkdir_ok then Error WalMkdir
  else if negb open_ok then Error WalOpen
  else
    match WAL_recover trunc_ok sync_ok (mkWAL file 0) with
    | (_, Error e) => Error e
    | (w, Ok entries) => Ok (w, entries)
    end.

(** The result of opening a file when every call succeeds. *)
Definition wal_open (file : bytes) : WAL * list WalEntry :=
  match WAL_recover true true (mkWAL file 0) with
  | (w, Ok entries) => (w, entries)
  | (w, Error _) => (w, [])
  end.

(** ** Abstract state *)

Definition entry_ok (e : WalEntry) : Prop :=
  is_i64 (we_Offset e) ∧ zlen (we_Data e) < 2 ^ 32.

Definition wal_bytes (es : list WalEntry) : bytes :=
  mjoin ((λ e, wal_entry (we_Offset e) (we_Data e)) <$> es).

(** Bytes recovery stops at. *)
Definition wal_stops (tail : bytes) : Prop := read_entry tail = None.

Definition max_offset (es : list WalEntry) : Z :=
  foldl (λ m e, if m <? we_Offset e then we_Offset e else m) (-1) es.

(** The log holds [es], numbered from [0] on. *)
Record wal_rep (w : WAL) (es : list WalEntry) : Prop := mkWalRep {
  wr_file : wal_file w = wal_bytes es;
  wr_ok : Forall entry_ok es;
  wr_next : wal_nextOffset w = max_offset es + 1;
}.

(** ** Facts *)

Lemma wal_bytes_cons e es :
  wal_bytes (e :: es) = wal_entry (we_Offset e) (we_Data e) ++ wal_bytes es.
Proof. done. Qed.

Lemma wal_bytes_app es1 es2 : wal_bytes (es1 ++ es2) = wal_bytes es1 ++ wal_bytes es2.
Proof. unfold wal_bytes. by rewrite fmap_app, join_app. Qed.

Lemma wal_entry_length o d : zlen (wal_entry o d) = headerSize + zlen d.
Proof. unfold wal_entry. rewrite zlen_app. reflexivity. Qed.

Lemma wal_header_fields o n c :
  let hdr := put_u64 o ++ put_u32 n ++ put_u32 c in
  slice 0 8 hdr = put_u64 o ∧ slice 8 12 hdr = put_u32 n ∧ slice 12 16 hdr = put_u32 c ∧
  zlen hdr = headerSize.
Proof. repeat split. Qed.

(** A written entry is read back. *)
Lemma read_entry_ok o d r :
  is_i64 o → zlen d < 2 ^ 32 → read_entry (wal_entry o d ++ r) = Some (mkWalEntry o d, r).
Proof.
  intros Ho Hd. unfold read_entry, wal_entry.
  destruct (wal_header_fields (u64 o) (u32 (zlen d)) (crc32_ChecksumIEEE d)) as (H1 & H2 & H3 & H4).
  rewrite <- app_assoc, io_ReadFull_app by done. rewrite H1, H2, H3.
  pose proof (zlen_nonneg d).
  rewrite get_put_u64, !get_put_u32, u64_id, i64_u64 by (done || apply u64_range).
  rewrite !u32_id by (try rewrite u32_id; lia). rewrite io_ReadFull_app by done.
  rewrite u32_id by apply crc32_range. by rewrite Z.eqb_refl.
Qed.

(** What is read is what [wal_entry] writes. *)
Lemma read_entry_sound r e r' :
  read_entry r = Some (e, r') →
  r = wal_entry (we_Offset e) (we_Data e) ++ r' ∧ entry_ok e.
Proof.
  unfold read_entry. intros H.
  destruct (io_ReadFull r headerSize) as [[hdr r1]|] eqn:E1; [|done].
  apply io_ReadFull_inv in E1 as [-> Hl]; [|done].
  assert (length hdr = 16%nat) as Hl' by (unfold zlen, headerSize in Hl; lia).
  pose proof (get_uint_range 4 (slice 8 12 hdr) ltac:(rewrite slice_length; lia)) as Hn.
  destruct (io_ReadFull r1 _) as [[data r2]|] eqn:E2; [|done].
  apply io_ReadFull_inv in E2 as [-> Hd]; [|lia].
  destruct (Z.eqb_spec (crc32_ChecksumIEEE data) (get_uint (slice 12 16 hdr))) as [Hc|]; [|done].
  cbn [negb] in H. injection H as <- <-. cbn [we_Offset we_Data]. split.
  - unfold wal_entry. rewrite <- app_assoc. f_equal. rewrite Hd.
    rewrite u64_i64 by (apply (get_uint_range 8); rewrite slice_length; lia).
    rewrite u32_id, Hc by lia. unfold put_u64, put_u32.
    rewrite !le_split_uint by (rewrite slice_length; lia).
    clear -Hl'. do 16 (destruct hdr as [|? hdr]; [discriminate Hl'|]).
    destruct hdr; [reflexivity|discriminate Hl'].
  - split; [apply i64_range|]. simpl. lia.
Qed.

Lemma read_entry_torn o d n :
  is_i64 o → zlen d < 2 ^ 32 → (n < length (wal_entry o d))%nat →
  wal_stops (take n (wal_entry o d)).
Proof.
  intros Ho Hd Hn. unfold wal_stops.
  destruct (read_entry (take n (wal_entry o d))) as [[e r]|] eqn:E; [|done].
  apply read_entry_sound in E as [Heq [He1 He2]].
  assert (wal_entry (we_Offset e) (we_Data e) ++ (r ++ drop n (wal_entry o d)) =
          wal_entry o d ++ []) as Hcat.
  { by rewrite app_assoc, <- Heq, take_drop, app_nil_r. }
  apply (f_equal read_entry) in Hcat. rewrite !read_entry_ok in Hcat by done.
  apply (inj Some) in Hcat. apply (f_equal snd) in Hcat as Hnil. cbn [snd] in Hnil. apply app_eq_nil in Hnil as [_ Hnil].
  apply (f_equal length) in Hnil. rewrite length_drop in Hnil. change (length []) with O in Hnil. lia.
Qed.

Lemma foldl_max es m :
  foldl (λ m e, if m <? we_Offset e then we_Offset e else m) m es =
    Z.max m (foldl (λ m e, if m <? we_Offset e then we_Offset e else m) m es).
Proof.
  revert m. induction es as [|e es IH]; intros m; simpl; [lia|].
  rewrite IH. destruct (Z.ltb_spec m (we_Offset e)); lia.
Qed.

(** The loop on entries followed by bytes recovery stops at. *)
Lemma wal_recover_loop_spec es tail :
  Forall entry_ok es → wal_stops tail →
  ∀ fuel pos acc m, (length es < fuel)%nat →
  wal_recover_loop fuel (wal_bytes es ++ tail) pos acc m =
    (acc ++ es, pos + zlen (wal_bytes es),
     foldl (λ m e, if m <? we_Offset e then we_Offset e else m) m es).
Proof.
  intros Hok Ht. induction Hok as [|[o d] es [Ho Hd] Hok IH]; intros [|fuel] pos acc m Hf;
    try (simpl in Hf; lia); cbn [wal_recover_loop].
  - change (wal_bytes [] ++ tail) with tail. rewrite Ht, app_nil_r. cbn.
    rewrite (@zlen_nil Init.Byte.byte), Z.add_0_r. done.
  - rewrite wal_bytes_cons, <- app_assoc. cbn [we_Offset we_Data]. rewrite read_entry_ok by done.
    rewrite IH by (simpl in Hf; lia). rewrite zlen_app, wal_entry_length, <- app_assoc.
    cbn [we_Offset we_Data foldl]. by rewrite !Z.add_assoc.
Qed.

Lemma wal_bytes_length es : (length es <= length (wal_bytes es))%nat.
Proof.
  induction es as [|[o d] es IH]; [done|]. rewrite wal_bytes_cons, length_app.
  pose proof (wal_entry_length o d) as Hl. unfold zlen, headerSize in Hl. simpl. lia.
Qed.

Lemma wal_open_spec es tail :
  Forall entry_ok es → wal_stops tail →
  wal_open (wal_bytes es ++ tail) =
    (mkWAL (wal_bytes es) (if 0 <=? max_offset es then i64 (max_offset es + 1) else 0), es).
Proof.
  intros Hok Ht. unfold wal_open, WAL_recover. cbn [wal_file negb].
  rewrite wal_recover_loop_spec by (done || (rewrite length_app; pose proof (wal_bytes_length es); lia)).
  cbn [wal_file wal_nextOffset app]. rewrite Z.add_0_l, to_nat_zlen, take_app_length. done.
Qed.

(** Any bytes are entries followed by bytes recovery stops at. *)
Lemma wal_decompose (r : bytes) :
  ∃ es tail, r = wal_bytes es ++ tail ∧ Forall entry_ok es ∧ wal_stops tail.
Proof.
  remember (length r) as n eqn:Hn. revert r Hn.
  induction (lt_wf n) as [n _ IH]. intros r Hn.
  destruct (read_entry r) as [[e r']|] eqn:E.
  - pose proof (read_entry_sound _ _ _ E) as [Hr He].
    destruct (IH (length r')) with (r := r') as (es & tail & Hr' & Hes & Ht); [|done|].
    { rewrite Hn, Hr, length_app. pose proof (wal_entry_length (we_Offset e) (we_Data e)) as Hl.
      unfold zlen, headerSize in Hl. lia. }
    exists (e :: es), tail. split_and!; [|by constructor|done].
    by rewrite wal_bytes_cons, <- app_assoc, <- Hr'.
  - exists [], r. by split_and!; [|constructor|].
Qed.

Lemma max_offset_snoc es e :
  max_offset (es ++ [e]) = if max_offset es <? we_Offset e then we_Offset e else max_offset es.
Proof. unfold max_offset. by rewrite foldl_app. Qed.

Lemma max_offset_ge es : -1 <= max_offset es.
Proof. unfold max_offset. rewrite foldl_max. lia. Qed.

(** Appending extends a represented log by one entry. *)
Lemma WAL_Append_rep io w es data w' res :
  wal_rep w es → wi_seek io = true → wi_write io = None →
  max_offset es + 2 < 2 ^ 63 → zlen data < 2 ^ 32 →
  WAL_Append io w data = (w', res) →
  wal_file w' = wal_bytes (es ++ [mkWalEntry (wal_nextOffset w) data]) ∧
  Forall entry_ok (es ++ [mkWalEntry (wal_nextOffset w) data]) ∧
  (wi_sync io = true → res = Ok (wal_nextOffset w) ∧
     wal_rep w' (es ++ [mkWalEntry (wal_nextOffset w) data])).
Proof.
  intros [Hf Hok Hn] Hs Hw Hmax Hd. unfold WAL_Append, WAL_writeEntry.
  rewrite Hs, Hw. cbn [negb]. intros Heq. pose proof (max_offset_ge es).
  assert (wal_file w' = wal_bytes (es ++ [mkWalEntry (wal_nextOffset w) data])) as Hf'.
  { rewrite wal_bytes_app. cbn. rewrite app_nil_r, <- Hf. by destruct (wi_sync io); simplify_eq/=. }
  assert (Forall entry_ok (es ++ [mkWalEntry (wal_nextOffset w) data])) as Hok'.
  { apply Forall_app. split; [done|]. apply Forall_singleton. split; [|done].
    unfold is_i64; simpl; lia. }
  split_and!; [done|done|]. intros Hsync. rewrite Hsync in Heq. simplify_eq.
  split; [done|]. split; [done|done|]. rewrite max_offset_snoc. cbn [we_Offset wal_nextOffset].
  rewrite (proj2 (Z.ltb_lt _ _)) by lia. apply i64_id. unfold is_i64. lia.
Qed.

(** ** Properties *)

(** C29: the write-ahead log never replays garbage and recovery is complete and
    idempotent on any file contents: the entries returned are exactly the
    longest run of intact entries at the start of the file, the file is cut
    to exactly those entries' bytes, and opening it again gives the same
    entries and changes nothing. *)
Theorem wal_recovery_exact (file : bytes) :
  ∃ es tail, file = wal_bytes es ++ tail ∧ Forall entry_ok es ∧ read_entry tail = None ∧
    (wal_open file).2 = es ∧ wal_file (wal_open file).1 = wal_bytes es ∧
    wal_open (wal_file (wal_open file).1) = wal_open file.
Proof.
  destruct (wal_decompose file) as (es & tail & -> & Hok & Ht).
  exists es, tail. rewrite wal_open_spec by done. cbn [fst snd wal_file].
  split_and!; try done. rewrite <- (app_nil_r (wal_bytes es)) at 1. by apply wal_open_spec.
Qed.

(** C30: durability of the write-ahead log, as long as no append failed part-
    way, so that the file is exactly its entries ([wal_rep]; after such a
    failure acknowledged entries can be lost,
    [wal_failed_append_loses_later_entries]). After an append that returned an
    offset, and after a crash that cuts a further append at any point, opening
    the file replays every entry in order, the acknowledged one last, and
    nothing of the cut one; the next offset continues the numbering. *)
Theorem wal_acknowledged_survives w es data data2 n w' off :
  wal_rep w es → max_offset es + 2 < 2 ^ 63 → zlen data < 2 ^ 32 → zlen data2 < 2 ^ 32 →
  WAL_Append wal_io_fine w data = (w', Ok off) →
  (n < length (wal_entry (wal_nextOffset w') data2))%nat →
  let '(w'', replayed) := wal_open (wal_file w' ++ take n (wal_entry (wal_nextOffset w') data2)) in
  off = wal_nextOffset w ∧ replayed = es ++ [mkWalEntry off data] ∧
  wal_rep w'' (es ++ [mkWalEntry off data]) ∧ w'' = w'.
Proof.
  intros Hrep Hmax Hd Hd2 Happ Hn.
  destruct (WAL_Append_rep wal_io_fine _ _ _ _ _ Hrep eq_refl eq_refl Hmax Hd Happ) as (Hf & Hok & Hsync).
  destruct (Hsync eq_refl) as [Ho Hrep']. injection Ho as ->.
  pose proof (max_offset_ge es) as Hge. destruct Hrep as [_ _ Hnext].
  pose proof (wr_next _ _ Hrep') as Hn'. rewrite max_offset_snoc in Hn'. cbn [we_Offset] in Hn'.
  rewrite (proj2 (Z.ltb_lt _ _)) in Hn' by lia.
  rewrite Hf, wal_open_spec; [|done|apply read_entry_torn; [unfold is_i64; lia|done|done]].
  rewrite max_offset_snoc. cbn [we_Offset]. rewrite (proj2 (Z.ltb_lt _ _)) by lia.
  rewrite (proj2 (Z.leb_le _ _)), i64_id by (unfold is_i64; lia).
  assert (mkWAL (wal_bytes (es ++ [mkWalEntry (wal_nextOffset w) data])) (wal_nextOffset w + 1) = w')
    as ->. { destruct w' as [f' n']. cbn in *. by subst. }
  done.
Qed.

Lemma wal_acknowledged_survives_witness :
  ∃ w', WAL_Append wal_io_fine (mkWAL [] 0) [Byte.x61] = (w', Ok 0) ∧
    (wal_open (wal_file w' ++ take 5 (wal_entry 1 [Byte.x62]))).2 = [mkWalEntry 0 [Byte.x61]].
Proof.
  eexists. split; [reflexivity|].
  pose proof (wal_acknowledged_survives (mkWAL [] 0) [] [Byte.x61] [Byte.x62] 5 _ 0
    ltac:(split; [reflexivity|constructor|reflexivity]) eq_refl eq_refl eq_refl eq_refl
    ltac:(apply Nat.ltb_lt; reflexivity)) as Hw.
  cbn [wal_nextOffset] in Hw |- *.
  destruct (wal_open _) as [w'' es]. exact (proj1 (proj2 Hw)).
Defined.

(** ** A write error that is not a crash

    A failed write leaves its bytes in the file and the log goes on. *)

Definition wal_torn_io : WalIO := mkWalIO true (Some 18%nat) true.

(** An entry acknowledged after an earlier append failed half-way does not
    survive: recovery stops at the torn entry in the middle of the file and
    cuts off everything behind it. *)
Theorem wal_failed_append_loses_later_entries :
  ∃ w1 w2, WAL_Append wal_torn_io (mkWAL [] 0) (bytes_of_string "first") = (w1, Error WalWrite) ∧
    WAL_Append wal_io_fine w1 (bytes_of_string "second") = (w2, Ok 0) ∧
    wal_open (wal_file w2) = (mkWAL [] 0, []).
Proof. eexists _, _. split_and!; reflexivity. Qed.

(** [Truncate], used to checkpoint the offset log, is not atomic: a crash
    after the file is emptied and before the first entry is rewritten leaves
    an empty log, although the entries replaced were acknowledged. *)
Theorem wal_truncate_not_atomic w new :
  ∃ w', WAL_Truncate true true [mkWalIO true (Some 0%nat) true] w (new :: []) = (w', Error WalWrite) ∧
    wal_open (wal_file w') = (mkWAL [] 0, []).
Proof. eexists. split; reflexivity. Qed.
