(* ===== verification/WalStores.v ===== *)
(** * The typed logs on top of the WAL: [wal_offset.go] and [wal_topic.go]

    Committed consumer offsets and topic operations, each a JSON entry of a
    write-ahead log, with replay and checkpointing. *)

From S2P Require Import Prelude GoLib Json Types Wal.

Local Open Scope Z_scope.

(** ** Offset records and their keys *)

Record offsetRecord := mkOffsetRecord {
  or_Group : string;
  or_Topic : string;
  or_Partition : Z;
  or_Offset : Z;
}.

#[global] Instance offsetRecord_eq_dec : EqDecision offsetRecord.
Proof. solve_decision. Defined.

Definition offsetKey (group topic : string) (partition : Z) : string :=
  group +:+ "/" +:+ topic +:+ "/" +:+ fmt_d partition.

Inductive key_err :=
| NoSlash
| SingleSlash
| BadPartition.

Definition is_digit (b : Init.Byte.byte) : bool := in_range 0x30 0x39 b.

Fixpoint span_digits (s : bytes) : bytes :=
  match s with
  | b :: s' => if is_digit b then b :: span_digits s' else []
  | [] => []
  end.

(** [fmt.Sscanf(s, "%d", &x)] for an integer of [n] bits: spaces, a sign, the
    longest run of digits, which must fit. *)
Definition sscanf_d (n : Z) (s : string) : option Z :=
  let b := skip_ws (bytes_of_string s) in
  let '(neg, d) :=
    match b with
    | Byte.x2d :: b' => (true, b')
    | Byte.x2b :: b' => (false, b')
    | _ => (false, b)
    end in
  match span_digits d with
  | [] => None
  | ds =>
      match scan_d (string_of_bytes ds) with
      | Some z =>
          let z := if neg : bool then - z else z in
          if (- 2 ^ (n - 1) <=? z) && (z <? 2 ^ (n - 1)) then Some z else None
      | None => None
      end
  end.

Definition sscanf_d32 : string → option Z := sscanf_d 32.

Definition parseOffsetKey (key : string) (offset : Z) : result offsetRecord key_err :=
  let k := bytes_of_string key in
  match bytes_last_index slash k with
  | None => Error NoSlash
  | Some lastSlash =>
      let partStr := drop (S lastSlash) k in
      let groupTopic := take lastSlash k in
      match bytes_index slash groupTopic with
      | None => Error SingleSlash
      | Some midSlash =>
          let group := string_of_bytes (take midSlash groupTopic) in
          let topic := string_of_bytes (drop (S midSlash) groupTopic) in
          match sscanf_d32 (string_of_bytes partStr) with
          | None => Error BadPartition
          | Some partition => Ok (mkOffsetRecord group topic partition offset)
          end
      end
  end.

(** ** The offset WAL *)

Record OffsetWAL := mkOffsetWAL {
  ow_wal : WAL;
  ow_commitCount : Z;
}.

Inductive store_err :=
| MarshalErr
| StoreKeyErr (key : string) (e : key_err)
| StoreWalErr (e : wal_err).

(** ** Topic operations *)

Record topicOp := mkTopicOp {
  to_Op : string;
  to_Config : TopicConfig;
}.

Definition empty_config (name : string) : TopicConfig := mkTopicConfig name 0 0 0 0 0 0 0 "".

Section Stores.
Context `{JsonCodec offsetRecord} `{JsonCodec topicOp}.

Definition OpenOffsetWAL (file : bytes) : OffsetWAL := mkOffsetWAL (wal_open file).1 0.

Definition OffsetWAL_Commit (io : WalIO) (ow : OffsetWAL) (group topic : string)
    (partition offset : Z) : OffsetWAL * result unit store_err :=
  match json_Marshal (mkOffsetRecord group topic partition offset) with
  | None => (ow, Error MarshalErr)
  | Some data =>
      match WAL_Append io (ow_wal ow) data with
      | (w, Error e) => (mkOffsetWAL w (ow_commitCount ow), Error (StoreWalErr e))
      | (w, Ok _) => (mkOffsetWAL w (ow_commitCount ow + 1), Ok tt)
      end
  end.

(** One entry of the replay loop. *)
Definition replay_offset (m : gmap string Z) (e : WalEntry) : gmap string Z :=
  match json_Unmarshal (we_Data e) with
  | None => m
  | Some rec => <[offsetKey (or_Group rec) (or_Topic rec) (or_Partition rec) := or_Offset rec]> m
  end.

(** [Replay] reopens the file, so it sees what recovery sees and truncates as
    recovery does; the log's own handle keeps its state. *)
Definition OffsetWAL_Replay (ow : OffsetWAL) : OffsetWAL * gmap string Z :=
  let '(w, entries) := wal_open (wal_file (ow_wal ow)) in
  (mkOffsetWAL (mkWAL (wal_file w) (wal_nextOffset (ow_wal ow))) (ow_commitCount ow),
   foldl replay_offset ∅ entries).

(** The entries of a checkpoint, in the order the map is ranged over. *)
Fixpoint checkpoint_entries (snapshot : list (string * Z)) : result (list bytes) store_err :=
  match snapshot with
  | [] => Ok []
  | (key, offset) :: snapshot =>
      match parseOffsetKey key offset with
      | Error e => Error (StoreKeyErr key e)
      | Ok rec =>
          match json_Marshal rec with
          | None => Error MarshalErr
          | Some data =>
              match checkpoint_entries snapshot with
              | Error e => Error e
              | Ok l => Ok (data :: l)
              end
          end
      end
  end.

Definition OffsetWAL_Checkpoint (trunc_ok seek_ok : bool) (ios : list WalIO) (ow : OffsetWAL)
    (snapshot : list (string * Z)) : OffsetWAL * result unit store_err :=
  match checkpoint_entries snapshot with
  | Error e => (ow, Error e)
  | Ok new =>
      match WAL_Truncate trunc_ok seek_ok ios (ow_wal ow) new with
      | (w, Error e) => (mkOffsetWAL w (ow_commitCount ow), Error (StoreWalErr e))
      | (w, Ok _) => (mkOffsetWAL w 0, Ok tt)
      end
  end.

Definition OffsetWAL_CommitCount (ow : OffsetWAL) : Z := ow_commitCount ow.

(** ** The topic WAL *)

Definition OpenTopicWAL (file : bytes) : WAL := (wal_open file).1.

Definition append_op (io : WalIO) (w : WAL) (op : topicOp) : WAL * result unit store_err :=
  match json_Marshal op with
  | None => (w, Error MarshalErr)
  | Some data =>
      match WAL_Append io w data with
      | (w, Error e) => (w, Error (StoreWalErr e))
      | (w, Ok _) => (w, Ok tt)
      end
  end.

Definition TopicWAL_Append (io : WalIO) (w : WAL) (cfg : TopicConfig) :
    WAL * result unit store_err :=
  append_op io w (mkTopicOp "create" cfg).

Definition TopicWAL_Delete (io : WalIO) (w : WAL) (name : string) : WAL * result unit store_err :=
  append_op io w (mkTopicOp "delete" (empty_config name)).

(** The switch on one decoded operation. *)
Definition replay_op (st : gmap string TopicConfig * list string) (op : topicOp) :
    gmap string TopicConfig * list string :=
  let name := tc_Name (to_Config op) in
  if bool_decide (to_Op op = "create"%string) then (<[name := to_Config op]> st.1, st.2)
  else if bool_decide (to_Op op = "delete"%string) then (delete name st.1, st.2 ++ [name])
  else st.

Definition replay_topic (st : gmap string TopicConfig * list string) (e : WalEntry) :
    gmap string TopicConfig * list string :=
  match json_Unmarshal (we_Data e) with
  | None => st
  | Some op => replay_op st op
  end.

(** The topics that exist, as the map they are collected in, and the names
    deleted. *)
Definition TopicWAL_Replay (w : WAL) : gmap string TopicConfig * list string :=
  foldl replay_topic (∅, []) (wal_open (wal_file w)).2.

(** ** Specification *)

(** The offsets after a history of commits: the last one of each key. *)
Definition committed (commits : list offsetRecord) : gmap string Z :=
  foldl (λ m r, <[offsetKey (or_Group r) (or_Topic r) (or_Partition r) := or_Offset r]> m) ∅ commits.

(** The WAL holds the marshalled records. *)
Definition holds {A} `{JsonCodec A} (w : WAL) (rs : list A) : Prop :=
  ∃ es, wal_rep w es ∧ Forall2 (λ e r, json_Unmarshal (we_Data e) = Some r) es rs.

Inductive topic_op :=
| OpCreate (cfg : TopicConfig)
| OpDelete (name : string).

Definition apply_topic_op (m : gmap string TopicConfig) (o : topic_op) : gmap string TopicConfig :=
  match o with
  | OpCreate cfg => <[tc_Name cfg := cfg]> m
  | OpDelete name => delete name m
  end.

(** ** Logs of records *)

Lemma holds_append {A} `{JsonCodec A} io w (rs : list A) r data w' res :
  holds w rs → wi_seek io = true → wi_write io = None → wi_sync io = true →
  json_Unmarshal data = Some r → zlen data < 2 ^ 32 → wal_nextOffset w + 1 < 2 ^ 63 →
  WAL_Append io w data = (w', res) → res = Ok (wal_nextOffset w) ∧ holds w' (rs ++ [r]) ∧
    wal_nextOffset w' = wal_nextOffset w + 1.
Proof.
  intros (es & Hrep & Hf) Hs Hw Hy Hu Hd Hn Happ. pose proof (wr_next _ _ Hrep) as Hnext.
  destruct (WAL_Append_rep io w es data w' res Hrep Hs Hw) as (_ & _ & Hsync); [lia|done|done|].
  destruct (Hsync Hy) as [-> Hrep']. split; [done|]. split.
  - exists (es ++ [mkWalEntry (wal_nextOffset w) data]). split; [done|].
    apply Forall2_app; [done|]. by repeat constructor.
  - rewrite (wr_next _ _ Hrep'), max_offset_snoc. cbn [we_Offset].
    rewrite (proj2 (Z.ltb_lt _ _)); lia.
Qed.

(** Opening the file of a log replays its records and leaves the file. *)
Lemma holds_replay {A B} `{JsonCodec A} w (rs : list A) (f : B → A → B) (g : B → WalEntry → B) b :
  holds w rs → (∀ b e r, json_Unmarshal (we_Data e) = Some r → g b e = f b r) →
  foldl g b (wal_open (wal_file w)).2 = foldl f b rs ∧
  wal_file (wal_open (wal_file w)).1 = wal_file w.
Proof.
  intros (es & [Hf Hok _] & Hrs) Hg. rewrite Hf, <- (app_nil_r (wal_bytes es)).
  rewrite wal_open_spec by done. cbn [fst snd wal_file]. split; [|by rewrite app_nil_r].
  clear Hf Hok. revert b. induction Hrs as [|e r es rs He Hrs IH]; intros b; [done|].
  cbn [foldl]. by rewrite (Hg _ _ _ He), IH.
Qed.

Lemma holds_empty {A} `{JsonCodec A} : holds (mkWAL [] 0) (@nil A).
Proof. exists []. split; [by split|constructor]. Qed.

Lemma rewrite_entries_holds {A} `{JsonCodec A} (rs : list A) (new : list bytes) :
  Forall2 (λ d r, json_Unmarshal d = Some r ∧ zlen d < 2 ^ 32) new rs →
  ∀ w rs0, holds w rs0 → wal_nextOffset w + zlen new + 1 < 2 ^ 63 →
  ∃ w', rewrite_entries [] w new = (w', Ok tt) ∧ holds w' (rs0 ++ rs).
Proof.
  induction 1 as [|d r new rs [Hu Hd] Hf IH]; intros w rs0 Hh Hn.
  { exists w. by rewrite app_nil_r. }
  cbn [rewrite_entries head default tail]. rewrite zlen_cons in Hn. pose proof (zlen_nonneg new).
  destruct (WAL_Append wal_io_fine w d) as [w1 res] eqn:E.
  destruct (holds_append wal_io_fine w rs0 r d w1 res) as (_ & Hh' & Hn'); try done; [lia|].
  unfold WAL_Append in E.
  destruct (WAL_writeEntry wal_io_fine w (wal_nextOffset w) d) as [w2 [u|e]] eqn:Ew.
  - simplify_eq. destruct (IH _ _ Hh') as (w' & Hw' & Hh2); [lia|].
    exists w'. split; [done|]. by rewrite <- app_assoc in Hh2.
  - unfold WAL_writeEntry in Ew. by cbn in Ew.
Qed.

(** ** Keys *)

Lemma span_digits_all s : Forall (λ b, is_digit b = true) s → span_digits s = s.
Proof. induction 1 as [|b s Hb _ IH]; [done|]. simpl. by rewrite Hb, IH. Qed.

Lemma uint_digits d : Forall (λ b, is_digit b = true) (bytes_of_string (DecimalString.NilEmpty.string_of_uint d)).
Proof. induction d; simpl; [constructor|..]; by constructor. Qed.

Lemma fmt_d_digits z : 0 <= z →
  ∃ b s, bytes_of_string (fmt_d z) = b :: s ∧ Forall (λ b, is_digit b = true) (b :: s).
Proof.
  intros Hz. destruct (padded_digits 0 z Hz) as (d & Hd & _ & Hs).
  change (fmt_d z = DecimalString.NilEmpty.string_of_uint d) in Hs. rewrite Hs.
  pose proof (uint_digits d) as Hf.
  destruct (bytes_of_string (DecimalString.NilEmpty.string_of_uint d)) as [|b s] eqn:E; [|eauto].
  by destruct d.
Qed.

Lemma sscanf_fmt_nonneg z (neg : bool) :
  0 <= z → - 2 ^ 31 <= (if neg then - z else z) < 2 ^ 31 →
  match span_digits (bytes_of_string (fmt_d z)) with
  | [] => None
  | ds => match scan_d (string_of_bytes ds) with
          | Some z => let z := if neg then - z else z in
                      if (- 2 ^ 31 <=? z) && (z <? 2 ^ 31) then Some z else None
          | None => None
          end
  end = Some (if neg then - z else z).
Proof.
  intros Hz Hr. destruct (fmt_d_digits z Hz) as (b & s & Hb & Hf).
  rewrite span_digits_all by (by rewrite Hb).
  assert (scan_d (string_of_bytes (bytes_of_string (fmt_d z))) = Some z) as Hs.
  { by rewrite string_of_bytes_of_string, scan_fmt_d. }
  rewrite Hb in Hs |- *. rewrite Hs. cbv zeta.
  by rewrite (proj2 (Z.leb_le _ _)), (proj2 (Z.ltb_lt _ _)) by lia.
Qed.

Lemma sscanf_fmt_d z : is_i32 z → sscanf_d32 (fmt_d z) = Some z.
Proof.
  unfold is_i32. intros Hz. unfold sscanf_d32, sscanf_d. change (32 - 1) with 31. destruct (Z.neg_nonneg_cases z) as [Hneg|Hpos].
  - assert (bytes_of_string (fmt_d z) = Byte.x2d :: bytes_of_string (fmt_d (- z))) as ->.
    { destruct z; try lia. reflexivity. }
    cbn [skip_ws is_ws]. replace z with (- - z) at 2 by lia.
    apply (sscanf_fmt_nonneg (- z) true); lia.
  - destruct (fmt_d_digits z Hpos) as (b & s & Hb & Hf).
    pose proof (sscanf_fmt_nonneg z false Hpos ltac:(lia)) as Hs. rewrite Hb in Hs |- *.
    apply Forall_cons in Hf as [Hd _].
    assert (skip_ws (b :: s) = b :: s) as ->.
    { apply skip_ws_cons. revert Hd. by destruct b. }
    revert Hd Hs. by destruct b.
Qed.

Lemma parse_offset_key g t p o :
  slash ∉ bytes_of_string g → is_i32 p →
  parseOffsetKey (offsetKey g t p) o = Ok (mkOffsetRecord g t p o).
Proof.
  intros Hg Hp. unfold parseOffsetKey, offsetKey. rewrite !bytes_of_string_app.
  change (bytes_of_string "/") with [slash].
  set (gb := bytes_of_string g) in *. set (tb := bytes_of_string t).
  set (pb := bytes_of_string (fmt_d p)).
  replace (gb ++ [slash] ++ tb ++ [slash] ++ pb) with ((gb ++ slash :: tb) ++ slash :: pb)
    by (by rewrite <- app_assoc).
  rewrite bytes_last_index_app by apply fmt_d_no_slash.
  rewrite take_app_length. rewrite bytes_index_app by done.
  rewrite take_app_length.
  assert (∀ (a : bytes) x b, drop (S (length a)) (a ++ x :: b) = b) as Hdrop.
  { intros a x b. rewrite drop_app_ge by lia. by replace (S (length a) - length a)%nat with 1%nat by lia. }
  rewrite !Hdrop. unfold pb, gb, tb. rewrite !string_of_bytes_of_string.
  by rewrite sscanf_fmt_d.
Qed.

(** ** Properties *)

Lemma replay_offset_ok m e r :
  json_Unmarshal (we_Data e) = Some r →
  replay_offset m e = <[offsetKey (or_Group r) (or_Topic r) (or_Partition r) := or_Offset r]> m.
Proof. intros Hu. unfold replay_offset. by rewrite Hu. Qed.

(** C31: committed consumer offsets survive a restart, last write wins. From a
    log that holds exactly the commits [rs] (no append failed part-way), a
    commit whose writes go through is acknowledged, and replaying the file then
    gives exactly the map of the last committed offset of every group, topic and
    partition, the new one included. A commit that races with a checkpoint, a
    crash inside its truncation, and acknowledgements, which bypass this log,
    are not covered. *)
Theorem offset_commit_durable ow rs group topic partition offset ow' res :
  let rec := mkOffsetRecord group topic partition offset in
  holds (ow_wal ow) rs → json_wf rec →
  (∀ d, json_Marshal rec = Some d → zlen d < 2 ^ 32) → wal_nextOffset (ow_wal ow) + 1 < 2 ^ 63 →
  OffsetWAL_Commit wal_io_fine ow group topic partition offset = (ow', res) →
  res = Ok tt ∧ ow_commitCount ow' = ow_commitCount ow + 1 ∧ holds (ow_wal ow') (rs ++ [rec]) ∧
  (OffsetWAL_Replay ow').2 = <[offsetKey group topic partition := offset]> (committed rs).
Proof.
  intros rec Hh Hwf Hsm Hn. unfold OffsetWAL_Commit. fold rec.
  destruct (json_roundtrip rec Hwf) as (d & Hm & Hu). rewrite Hm.
  destruct (WAL_Append wal_io_fine (ow_wal ow) d) as [w r] eqn:E.
  destruct (holds_append wal_io_fine _ rs rec d w r Hh) as (-> & Hh' & _); try done; [by apply Hsm|].
  intros [= <- <-]. cbn [ow_wal ow_commitCount]. split_and!; try done.
  unfold OffsetWAL_Replay. cbn [ow_wal].
  pose proof (holds_replay w (rs ++ [rec]) _ replay_offset ∅ Hh' replay_offset_ok) as [Hr _].
  destruct (wal_open (wal_file w)) as [w2 es]. cbn [snd] in *. rewrite Hr.
  by rewrite foldl_app.
Qed.

(** The records of a snapshot. *)
Definition snapshot_record (p : string * Z) (r : offsetRecord) : Prop :=
  p.1 = offsetKey (or_Group r) (or_Topic r) (or_Partition r) ∧ p.2 = or_Offset r ∧
  slash ∉ bytes_of_string (or_Group r) ∧ is_i32 (or_Partition r) ∧ json_wf r ∧
  ∀ d, json_Marshal r = Some d → zlen d < 2 ^ 32.

Lemma checkpoint_entries_ok snap rs :
  Forall2 snapshot_record snap rs →
  ∃ new, checkpoint_entries snap = Ok new ∧
    Forall2 (λ d r, json_Unmarshal d = Some r ∧ zlen d < 2 ^ 32) new rs.
Proof.
  induction 1 as [|[k o] [g t p o'] snap rs (Hk & Ho & Hg & Hp & Hwf & Hsm) Hf (new & Hn & Hnf)].
  { exists []. by split; [|constructor]. }
  simpl in Hk, Ho, Hg, Hp. subst k o. destruct (json_roundtrip _ Hwf) as (d & Hm & Hu).
  exists (d :: new). split; [|constructor; eauto].
  cbn [checkpoint_entries]. rewrite parse_offset_key, Hm, Hn by done. done.
Qed.

Lemma committed_snapshot snap rs :
  Forall2 snapshot_record snap rs → NoDup snap.*1 → committed rs = list_to_map snap.
Proof.
  intros Hf Hnd.
  assert (∀ m : gmap string Z, foldl (λ m r, <[offsetKey (or_Group r) (or_Topic r) (or_Partition r) := or_Offset r]> m) m rs
    = foldl (λ m p, <[p.1 := p.2]> m) m snap) as Heq.
  { clear Hnd. induction Hf as [|[k o] r snap rs (Hk & Ho & _) Hf IH]; intros m; [done|].
    cbn [foldl]. cbn [fst snd] in *. by rewrite Hk, Ho, IH. }
  unfold committed. rewrite Heq. clear Heq Hf rs.
  assert (∀ m : gmap string Z, foldl (λ m p, <[p.1 := p.2]> m) m snap = list_to_map snap ∪ m) as Hu.
  { induction snap as [|[k o] snap IH]; intros m; cbn [foldl fst snd list_to_map foldr].
    - by rewrite (left_id_L ∅ (∪)).
    - apply NoDup_cons in Hnd as [Hk Hnd]. rewrite IH by done.
      rewrite <- insert_union_l, <- insert_union_r; [done|].
      by apply not_elem_of_list_to_map_1. }
  rewrite Hu. by rewrite (right_id_L ∅ (∪)).
Qed.

(** A checkpoint of the offset log loses no offset: whatever the log held,
    checkpointing a snapshot of the offset store, in any order of its keys,
    leaves a log whose replay is exactly that snapshot, with the commit
    counter reset. *)
Theorem checkpoint_preserves_offsets ow (snapshot : gmap string Z) rs :
  Forall2 snapshot_record (map_to_list snapshot) rs → zlen (map_to_list snapshot) + 1 < 2 ^ 63 →
  ∃ ow', OffsetWAL_Checkpoint true true [] ow (map_to_list snapshot) = (ow', Ok tt) ∧
    ow_commitCount ow' = 0 ∧ (OffsetWAL_Replay ow').2 = snapshot.
Proof.
  intros Hf Hsz. destruct (checkpoint_entries_ok _ _ Hf) as (new & Hn & Hnf).
  unfold OffsetWAL_Checkpoint. rewrite Hn. unfold WAL_Truncate. cbn [negb].
  destruct (rewrite_entries_holds rs new Hnf (mkWAL [] 0) [] holds_empty) as (w' & Hw & Hh).
  { cbn [wal_nextOffset]. apply Forall2_length in Hf, Hnf. unfold zlen in *. lia. }
  rewrite Hw. eexists. split; [reflexivity|]. split; [done|].
  unfold OffsetWAL_Replay. cbn [ow_wal].
  pose proof (holds_replay w' rs _ replay_offset ∅ Hh replay_offset_ok) as [Hr _].
  destruct (wal_open (wal_file w')) as [w2 es]. cbn [snd] in *. rewrite Hr.
  change (committed rs = snapshot).
  rewrite (committed_snapshot _ _ Hf) by apply NoDup_fst_map_to_list.
  apply list_to_map_to_list.
Qed.

(** The key of an offset is unambiguous: for a group name without a slash
    and any topic name, parsing the key gives back the group, the topic and
    the partition. *)
Theorem offset_key_roundtrip group topic partition offset :
  slash ∉ bytes_of_string group → is_i32 partition →
  parseOffsetKey (offsetKey group topic partition) offset =
    Ok (mkOffsetRecord group topic partition offset).
Proof. apply parse_offset_key. Qed.

Definition op_of (o : topic_op) : topicOp :=
  match o with
  | OpCreate cfg => mkTopicOp "create" cfg
  | OpDelete name => mkTopicOp "delete" (empty_config name)
  end.

Definition log_op (w : WAL) (o : topic_op) : WAL :=
  match o with
  | OpCreate cfg => (TopicWAL_Append wal_io_fine w cfg).1
  | OpDelete name => (TopicWAL_Delete wal_io_fine w name).1
  end.

Lemma log_op_holds w os o :
  holds w (op_of <$> os) → json_wf (op_of o) →
  (∀ d, json_Marshal (op_of o) = Some d → zlen d < 2 ^ 32) → wal_nextOffset w + 1 < 2 ^ 63 →
  holds (log_op w o) (op_of <$> (os ++ [o])) ∧ wal_nextOffset (log_op w o) = wal_nextOffset w + 1.
Proof.
  intros Hh Hwf Hsm Hn. destruct (json_roundtrip _ Hwf) as (d & Hm & Hu).
  assert (log_op w o = (append_op wal_io_fine w (op_of o)).1) as -> by (by destruct o).
  unfold append_op. rewrite Hm.
  destruct (WAL_Append wal_io_fine w d) as [w' r] eqn:E.
  destruct (holds_append wal_io_fine w (op_of <$> os) (op_of o) d w' r Hh) as (-> & Hh' & Hn');
    try done; [by apply Hsm|].
  cbn [fst]. by rewrite fmap_app.
Qed.

(** Topic metadata survives a restart: after any sequence of topic
    creations and deletions logged to a fresh topic log, replaying it yields
    exactly the topics that the sequence leaves alive, with their last
    configuration. *)
Theorem topic_replay_net_effect (os : list topic_op) :
  Forall (λ o, json_wf (op_of o) ∧ ∀ d, json_Marshal (op_of o) = Some d → zlen d < 2 ^ 32) os →
  zlen os + 1 < 2 ^ 63 →
  (TopicWAL_Replay (foldl log_op (mkWAL [] 0) os)).1 = foldl apply_topic_op ∅ os.
Proof.
  intros Hwf Hsz.
  assert (holds (foldl log_op (mkWAL [] 0) os) (op_of <$> os) ∧
          wal_nextOffset (foldl log_op (mkWAL [] 0) os) = zlen os) as [Hh _].
  { induction os as [|o os IH] using rev_ind; [split; [apply holds_empty|done]|].
    rewrite zlen_app in Hsz. change (zlen [o]) with 1 in Hsz.
    apply Forall_app in Hwf as [Hwf [[Ho Hs] _]%Forall_cons].
    destruct IH as [Hh Hn]; [done|lia|]. rewrite foldl_app. cbn [foldl].
    destruct (log_op_holds _ os o Hh Ho Hs) as [Hh' Hn']; [lia|].
    split; [done|]. rewrite Hn', Hn, zlen_app. done. }
  unfold TopicWAL_Replay.
  destruct (holds_replay _ (op_of <$> os) replay_op replay_topic (∅, []) Hh) as [-> _].
  { intros b e r Hu. unfold replay_topic. by rewrite Hu. }
  clear. change ∅ with ((∅ : gmap string TopicConfig, @nil string).1) at 2.
  generalize ((∅ : gmap string TopicConfig, @nil string)).
  induction os as [|o os IH]; intros st; [done|]. cbn [fmap list_fmap foldl].
  rewrite IH. by destruct o.
Qed.


End Stores.

(** ** The JSON forms *)

Definition offsetRecord_fields (r : offsetRecord) : list (bytes * json) :=
  put "group" (jstr (or_Group r)) ++
  put "topic" (jstr (or_Topic r)) ++
  put "partition" (JNum (or_Partition r)) ++
  put "offset" (JNum (or_Offset r)) ++ [].

Definition offsetRecord_of (l : list (bytes * json)) : option offsetRecord :=
  match get_str "group" l, get_str "topic" l with
  | Some g, Some t =>
      match get_int i32_min i32_max "partition" l, get_int i64_min i64_max "offset" l with
      | Some p, Some o => Some (mkOffsetRecord g t p o)
      | _, _ => None
      end
  | _, _ => None
  end.

Definition offsetRecord_wf (r : offsetRecord) : Prop :=
  str_valid (or_Group r) = true ∧ str_valid (or_Topic r) = true ∧
  is_i32 (or_Partition r) ∧ is_i64 (or_Offset r).

Lemma offsetRecord_json_roundtrip r :
  offsetRecord_wf r →
  ∃ b, Some (print (JObj (offsetRecord_fields r))) = Some b ∧
       unmarshal_with offsetRecord_of b = Some r.
Proof.
  intros (Hg & Ht & Hp & Ho). eexists. split; [reflexivity|].
  rewrite unmarshal_with_print.
  - unfold offsetRecord_of, offsetRecord_fields, is_i64, is_i32, i64_min, i64_max, i32_min, i32_max in *.
    rewrite (get_str_eq "group" _ (or_Group r) false) by jfield_solve.
    rewrite (get_str_eq "topic" _ (or_Topic r) false) by jfield_solve.
    rewrite (get_int_eq _ _ "partition" _ (or_Partition r) false) by jfield_solve.
    rewrite (get_int_eq _ _ "offset" _ (or_Offset r) false) by jfield_solve.
    by destruct r.
  - unfold offsetRecord_fields. rewrite !members_valid_put. unfold str_valid in *.
    cbn [json_valid jstr]. by rewrite Hg, Ht.
Qed.

#[global] Instance OffsetRecordJson : JsonCodec offsetRecord := {|
  json_Marshal := λ r, Some (print (JObj (offsetRecord_fields r)));
  json_Unmarshal := unmarshal_with offsetRecord_of;
  json_wf := offsetRecord_wf;
  json_roundtrip := offsetRecord_json_roundtrip;
|}.

Definition TopicConfig_fields (c : TopicConfig) : list (bytes * json) :=
  put "Name" (jstr (tc_Name c)) ++
  put "Partitions" (JNum (tc_Partitions c)) ++
  put "ReplicationFactor" (JNum (tc_ReplicationFactor c)) ++
  put "RetentionHours" (JNum (tc_RetentionHours c)) ++
  put "RetentionBytes" (JNum (tc_RetentionBytes c)) ++
  put "DeliveryMode" (JNum (tc_DeliveryMode c)) ++
  put "CompressionCodec" (JNum (tc_CompressionCodec c)) ++
  put_omit (tc_MinISR c =? 0) "min_isr" (JNum (tc_MinISR c)) ++
  put_omit (bool_decide (tc_CompactionMode c = EmptyString)) "compaction_mode"
    (jstr (tc_CompactionMode c)) ++ [].

Definition TopicConfig_of (l : list (bytes * json)) : option TopicConfig :=
  match get_str "Name" l, get_int i64_min i64_max "Partitions" l,
        get_int i64_min i64_max "ReplicationFactor" l with
  | Some n, Some p, Some rf =>
      match get_int i64_min i64_max "RetentionHours" l, get_int i64_min i64_max "RetentionBytes" l,
            get_int 0 255 "DeliveryMode" l with
      | Some rh, Some rb, Some dm =>
          match get_int 0 255 "CompressionCodec" l, get_int i64_min i64_max "min_isr" l,
                get_str "compaction_mode" l with
          | Some cc, Some mi, Some cm => Some (mkTopicConfig n p rf rh rb dm cc mi cm)
          | _, _, _ => None
          end
      | _, _, _ => None
      end
  | _, _, _ => None
  end.

Definition topicOp_fields (o : topicOp) : list (bytes * json) :=
  put "op" (jstr (to_Op o)) ++ put "config" (JObj (TopicConfig_fields (to_Config o))) ++ [].

Definition topicOp_of (l : list (bytes * json)) : option topicOp :=
  match get_str "op" l, jfield "config" l with
  | Some op, Some (JObj m) => mkTopicOp op <$> TopicConfig_of m
  | Some op, (None | Some JNull) => Some (mkTopicOp op (empty_config ""))
  | _, _ => None
  end.

Definition TopicConfig_wf (c : TopicConfig) : Prop :=
  str_valid (tc_Name c) = true ∧ str_valid (tc_CompactionMode c) = true ∧
  is_i64 (tc_Partitions c) ∧ is_i64 (tc_ReplicationFactor c) ∧ is_i64 (tc_RetentionHours c) ∧
  is_i64 (tc_RetentionBytes c) ∧ is_i64 (tc_MinISR c) ∧
  0 <= tc_DeliveryMode c <= 255 ∧ 0 <= tc_CompressionCodec c <= 255.

Definition topicOp_wf (o : topicOp) : Prop :=
  str_valid (to_Op o) = true ∧ TopicConfig_wf (to_Config o).

Lemma TopicConfig_of_fields c : TopicConfig_wf c → TopicConfig_of (TopicConfig_fields c) = Some c.
Proof.
  intros (Hn & Hc & H1 & H2 & H3 & H4 & H5 & H6 & H7).
  unfold TopicConfig_of, TopicConfig_fields, is_i64, i64_min, i64_max in *.
  rewrite (get_str_eq "Name" _ (tc_Name c) false) by jfield_solve.
  rewrite (get_int_eq _ _ "Partitions" _ (tc_Partitions c) false) by jfield_solve.
  rewrite (get_int_eq _ _ "ReplicationFactor" _ (tc_ReplicationFactor c) false) by jfield_solve.
  rewrite (get_int_eq _ _ "RetentionHours" _ (tc_RetentionHours c) false) by jfield_solve.
  rewrite (get_int_eq _ _ "RetentionBytes" _ (tc_RetentionBytes c) false) by jfield_solve.
  rewrite (get_int_eq _ _ "DeliveryMode" _ (tc_DeliveryMode c) false) by jfield_solve.
  rewrite (get_int_eq _ _ "CompressionCodec" _ (tc_CompressionCodec c) false) by jfield_solve.
  rewrite (get_int_eq _ _ "min_isr" _ (tc_MinISR c) (tc_MinISR c =? 0)) by jfield_solve.
  rewrite (get_str_eq "compaction_mode" _ (tc_CompactionMode c)
             (bool_decide (tc_CompactionMode c = EmptyString))) by jfield_solve.
  by destruct c.
Qed.

Lemma topicOp_json_roundtrip o :
  topicOp_wf o →
  ∃ b, Some (print (JObj (topicOp_fields o))) = Some b ∧ unmarshal_with topicOp_of b = Some o.
Proof.
  intros (Ho & Hc). eexists. split; [reflexivity|]. rewrite unmarshal_with_print.
  - unfold topicOp_of, topicOp_fields.
    rewrite (get_str_eq "op" _ (to_Op o) false) by jfield_solve.
    assert (jfield "config" (put "op" (jstr (to_Op o)) ++
      put "config" (JObj (TopicConfig_fields (to_Config o))) ++ []) =
      Some (JObj (TopicConfig_fields (to_Config o)))) as -> by (by jfield_eval).
    rewrite TopicConfig_of_fields by done. by destruct o.
  - unfold topicOp_fields. rewrite !members_valid_put. destruct Hc as (Hn & Hm & _).
    assert (json_valid (JObj (TopicConfig_fields (to_Config o))) = true) as ->.
    { unfold TopicConfig_fields. rewrite !members_valid_put, !members_valid_omit.
      unfold str_valid in *. cbn [json_valid jstr]. rewrite Hn, Hm. by rewrite !orb_true_r. }
    unfold str_valid in *. cbn [json_valid jstr]. by rewrite Ho.
Qed.

#[global] Instance TopicOpJson : JsonCodec topicOp := {|
  json_Marshal := λ o, Some (print (JObj (topicOp_fields o)));
  json_Unmarshal := unmarshal_with topicOp_of;
  json_wf := topicOp_wf;
  json_roundtrip := topicOp_json_roundtrip;
|}.

(** ** Concrete runs *)

Lemma small_doc {A} `{JsonCodec A} (x : A) b :
  json_Marshal x = Some b → (zlen b <? 2 ^ 32) = true → ∀ d, json_Marshal x = Some d → zlen d < 2 ^ 32.
Proof. intros Hb Hl d Hd. rewrite Hb in Hd. simplify_eq. by apply Z.ltb_lt. Qed.

Lemma offset_commit_durable_witness :
  ∃ ow', OffsetWAL_Commit wal_io_fine (mkOffsetWAL (mkWAL [] 0) 0) "g" "orders" 2 41 = (ow', Ok tt) ∧
    (OffsetWAL_Replay ow').2 = {["g/orders/2"%string := 41]}.
Proof.
  destruct (OffsetWAL_Commit wal_io_fine (mkOffsetWAL (mkWAL [] 0) 0) "g" "orders" 2 41)
    as [ow' res] eqn:E.
  destruct (offset_commit_durable (mkOffsetWAL (mkWAL [] 0) 0) [] "g" "orders" 2 41 ow' res)
    as (-> & _ & _ & Hr); [apply holds_empty| | |reflexivity|exact E|].
  - repeat split; try reflexivity; unfold or_Partition, or_Offset; lia.
  - eapply small_doc; [reflexivity|]. vm_compute. reflexivity.
  - exists ow'. split; [done|]. rewrite Hr. reflexivity.
Defined.

Lemma checkpoint_preserves_offsets_witness :
  ∃ ow', OffsetWAL_Checkpoint true true [] (mkOffsetWAL (mkWAL [] 0) 9)
           (map_to_list ({["g/orders/2"%string := 41]} : gmap string Z)) = (ow', Ok tt) ∧
    (OffsetWAL_Replay ow').2 = {["g/orders/2"%string := 41]}.
Proof.
  destruct (checkpoint_preserves_offsets (mkOffsetWAL (mkWAL [] 0) 9)
              {["g/orders/2"%string := 41]} [mkOffsetRecord "g" "orders" 2 41])
    as (ow' & Hc & _ & Hr).
  - rewrite map_to_list_singleton. apply Forall2_cons_2; [|apply Forall2_nil_2].
    split_and!; [reflexivity|reflexivity| |unfold is_i32; simpl; lia|split_and!|].
    + simpl. apply not_elem_of_cons. split; [discriminate|apply not_elem_of_nil].
    + reflexivity.
    + reflexivity.
    + unfold is_i32; simpl; lia.
    + unfold is_i64; simpl; lia.
    + eapply small_doc; [reflexivity|]. vm_compute. reflexivity.
  - rewrite map_to_list_singleton. reflexivity.
  - exists ow'. split; [exact Hc|exact Hr].
Defined.

Lemma offset_key_roundtrip_witness :
  parseOffsetKey "g/a/b/7" 5 = Ok (mkOffsetRecord "g" "a/b" 7 5).
Proof.
  apply (offset_key_roundtrip "g" "a/b" 7 5).
  - simpl. apply not_elem_of_cons. split; [discriminate|apply not_elem_of_nil].
  - unfold is_i32. lia.
Defined.

Lemma topic_replay_net_effect_witness :
  (TopicWAL_Replay (foldl log_op (mkWAL [] 0)
     [OpCreate (empty_config "a"); OpCreate (empty_config "b"); OpDelete "a"])).1 =
    {["b"%string := empty_config "b"]}.
Proof.
  rewrite (topic_replay_net_effect
    [OpCreate (empty_config "a"); OpCreate (empty_config "b"); OpDelete "a"]).
  - reflexivity.
  - repeat apply Forall_cons_2; [..|apply Forall_nil_2];
      (split; [repeat split; try reflexivity; simpl; lia
              |eapply small_doc; [reflexivity|]; vm_compute; reflexivity]).
  - reflexivity.
Defined.
