(* ===== verification/Partition.v ===== *)
(** * Partition routing and the offset store: [internal/partition/partition.go] *)

From S2P Require Import Prelude GoLib WalStores.

Local Open Scope Z_scope.

(** ** HashPartitioner

    The round-robin counter of a topic is an [int64] incremented atomically;
    an [Assign] without a key is therefore a state change. *)

Record HashPartitioner := mkHashPartitioner {
  hp_topics : gmap string Z;
  hp_rrCur : gmap string Z;
}.

Inductive part_err :=
| NegativeCount (n : Z)
| NotRegistered (topic : string)
| NilCounter.

Definition NewHashPartitioner : HashPartitioner := mkHashPartitioner ∅ ∅.

Definition HashPartitioner_Register (p : HashPartitioner) (topic : string) (count : Z) :
    HashPartitioner * result unit part_err :=
  if count <? 0 then (p, Error (NegativeCount count))
  else if count =? 0 then
    (mkHashPartitioner (delete topic (hp_topics p)) (delete topic (hp_rrCur p)), Ok tt)
  else
    let topics := <[topic := count]> (hp_topics p) in
    match hp_rrCur p !! topic with
    | Some _ => (mkHashPartitioner topics (hp_rrCur p), Ok tt)
    | None => (mkHashPartitioner topics (<[topic := 0]> (hp_rrCur p)), Ok tt)
    end.

(** [h.Sum32() % uint32(n)], converted to [int32]. *)
Definition hashPartition (key : string) (n : Z) : Z :=
  i32 (fnv32a (bytes_of_string key) mod u32 n).

Definition HashPartitioner_Assign (p : HashPartitioner) (topic key : string) :
    HashPartitioner * result Z part_err :=
  match hp_topics p !! topic with
  | None => (p, Error (NotRegistered topic))
  | Some count =>
      if negb (bool_decide (key = EmptyString)) then (p, Ok (hashPartition key count))
      else
        match hp_rrCur p !! topic with
        | None => (p, Error NilCounter)
        | Some c =>
            let c' := i64 (c + 1) in
            let idx := i64 (c' - 1) in
            (mkHashPartitioner (hp_topics p) (<[topic := c']> (hp_rrCur p)),
             Ok (i32 (Z.rem idx count)))
        end
  end.

Definition HashPartitioner_TopicPartitionCount (p : HashPartitioner) (topic : string) : Z :=
  default 0 (hp_topics p !! topic).

(** Every registered topic has a positive 32-bit count and a counter. *)
Definition hp_inv (p : HashPartitioner) : Prop :=
  ∀ t, match hp_topics p !! t with
       | Some n => 0 < n < 2 ^ 31 ∧ is_Some (hp_rrCur p !! t)
       | None => hp_rrCur p !! t = None
       end.

(** ** OffsetStore *)

Definition OffsetStore : Type := gmap string Z.

Definition NewOffsetStore : OffsetStore := ∅.

Definition OffsetStore_Commit (s : OffsetStore) (group topic : string) (partition offset : Z) :
    OffsetStore := <[offsetKey group topic partition := offset]> s.

Definition OffsetStore_Load (s : OffsetStore) (group topic : string) (partition : Z) : Z :=
  default (-1) (s !! offsetKey group topic partition).

(** A copy of the map. *)
Definition OffsetStore_Snapshot (s : OffsetStore) : gmap string Z := s.

(** Entries of the snapshot over those of the store. *)
Definition OffsetStore_Restore (s : OffsetStore) (snapshot : gmap string Z) : OffsetStore :=
  snapshot ∪ s.

Lemma OffsetStore_Load_Commit s group topic p o :
  OffsetStore_Load (OffsetStore_Commit s group topic p o) group topic p = o.
Proof.
  exact (f_equal (default (-1)) (lookup_insert_eq (M := gmap string) s (offsetKey group topic p) o)).
Qed.

(** ** Routing *)

Lemma Register_inv p t n p' r :
  hp_inv p → n < 2 ^ 31 → HashPartitioner_Register p t n = (p', r) → hp_inv p'.
Proof.
  intros Hp Hn Hr. unfold HashPartitioner_Register in Hr. intros t'. specialize (Hp t') as Hp'.
  destruct (Z.ltb_spec n 0); [by simplify_eq|]. destruct (Z.eqb_spec n 0).
  { simplify_eq/=. destruct (decide (t = t')) as [<-|Hne].
    - by rewrite !lookup_delete_eq.
    - by rewrite !lookup_delete_ne. }
  destruct (hp_rrCur p !! t) as [c|] eqn:Hc; simplify_eq/=;
    (destruct (decide (t = t')) as [<-|Hne];
     [rewrite ?lookup_insert_eq, ?Hc; split; [lia|eauto]|by rewrite ?lookup_insert_ne]).
Qed.

Lemma Register_topics p t n :
  0 < n → hp_topics (HashPartitioner_Register p t n).1 = <[t := n]> (hp_topics p).
Proof.
  intros Hn. unfold HashPartitioner_Register. rewrite (proj2 (Z.ltb_ge _ _)) by lia.
  rewrite (proj2 (Z.eqb_neq _ _)) by lia. by case_match.
Qed.

Lemma hashPartition_range key n : 0 < n < 2 ^ 31 → 0 <= hashPartition key n < n.
Proof.
  intros Hn. unfold hashPartition. rewrite u32_id by lia.
  pose proof (Z.mod_pos_bound (fnv32a (bytes_of_string key)) n).
  rewrite i32_id by (unfold is_i32; lia). lia.
Qed.

(** The counter of a topic has not wrapped. *)
Definition rr_fresh (p : HashPartitioner) (t : string) : Prop :=
  ∀ c, hp_rrCur p !! t = Some c → 0 <= c < 2 ^ 63 - 1.

Lemma Assign_keyless p t n c :
  hp_topics p !! t = Some n → hp_rrCur p !! t = Some c → 0 < n < 2 ^ 31 → 0 <= c < 2 ^ 63 - 1 →
  HashPartitioner_Assign p t "" =
    (mkHashPartitioner (hp_topics p) (<[t := c + 1]> (hp_rrCur p)), Ok (c mod n)).
Proof.
  intros Ht Hc Hn Hr. unfold HashPartitioner_Assign. rewrite Ht, Hc. cbn [negb bool_decide].
  rewrite (i64_id (c + 1)) by (unfold is_i64; lia).
  rewrite i64_id by (unfold is_i64; lia). replace (c + 1 - 1) with c by lia.
  rewrite Z.rem_mod_nonneg by lia. pose proof (Z.mod_pos_bound c n).
  rewrite i32_id by (unfold is_i32; lia). done.
Qed.

(** The partition is always one of the topic's. *)
Lemma Assign_range p t key p' r n :
  hp_inv p → rr_fresh p t → hp_topics p !! t = Some n →
  HashPartitioner_Assign p t key = (p', r) → ∃ i, r = Ok i ∧ 0 <= i < n.
Proof.
  intros Hp Hf Ht Ha. pose proof (Hp t) as Hpt. rewrite Ht in Hpt. destruct Hpt as [Hn [c Hc]].
  destruct (decide (key = EmptyString)) as [->|Hk].
  - rewrite (Assign_keyless p t n c) in Ha by eauto. simplify_eq.
    pose proof (Z.mod_pos_bound c n). eexists. split; [done|lia].
  - unfold HashPartitioner_Assign in Ha. rewrite Ht in Ha.
    rewrite bool_decide_eq_false_2 in Ha by done. simplify_eq/=.
    eexists. split; [done|]. by apply hashPartition_range.
Qed.

Lemma Assign_inv p t key p' r :
  hp_inv p → HashPartitioner_Assign p t key = (p', r) →
  hp_inv p' ∧ hp_topics p' = hp_topics p.
Proof.
  intros Hp Ha. unfold HashPartitioner_Assign in Ha.
  destruct (hp_topics p !! t) as [n|] eqn:Ht; [|by simplify_eq].
  case_match; [by simplify_eq|]. destruct (hp_rrCur p !! t) as [c|] eqn:Hc; [|by simplify_eq].
  simplify_eq. split; [|done]. intros t'. simpl. specialize (Hp t').
  destruct (decide (t = t')) as [<-|Hne].
  - rewrite Ht in Hp |- *. rewrite lookup_insert_eq. destruct Hp as [Hn _]. by split; [|eexists].
  - by rewrite lookup_insert_ne.
Qed.

(** [k] keyless assignments in a row. *)
Fixpoint assign_keyless (k : nat) (p : HashPartitioner) (t : string) : list Z :=
  match k with
  | O => []
  | S k =>
      match HashPartitioner_Assign p t "" with
      | (p', Ok i) => i :: assign_keyless k p' t
      | (_, Error _) => []
      end
  end.

Lemma assign_keyless_seq k p t n c :
  hp_topics p !! t = Some n → hp_rrCur p !! t = Some c → 0 < n < 2 ^ 31 → 0 <= c →
  c + Z.of_nat k < 2 ^ 63 →
  assign_keyless k p t = (λ i, (c + Z.of_nat i) mod n) <$> seq 0 k.
Proof.
  revert p c. induction k as [|k IH]; intros p c Ht Hc Hn Hge Hle; [done|].
  cbn [assign_keyless seq fmap list_fmap]. rewrite (Assign_keyless p t n c) by (done || lia).
  f_equal; [by rewrite Z.add_0_r|].
  rewrite (IH _ (c + 1)); simpl; [|done|by rewrite lookup_insert_eq|done|lia|lia].
  rewrite <- fmap_S_seq, <- list_fmap_compose. apply list_fmap_ext.
  intros i x _. simpl. f_equal. lia.
Qed.

(** ** Properties *)

(** Routing is stable and in range: a keyed message goes to a partition
    that depends only on the key and the partition count and leaves the
    router's state alone, and every assignment to a registered topic is one
    of its partitions. *)
Theorem assign_in_range p t key p' r n :
  hp_inv p → rr_fresh p t → hp_topics p !! t = Some n →
  HashPartitioner_Assign p t key = (p', r) →
  (∃ i, r = Ok i ∧ 0 <= i < n) ∧ hp_inv p' ∧ hp_topics p' = hp_topics p ∧
  (key ≠ EmptyString → p' = p ∧ r = Ok (hashPartition key n)).
Proof.
  intros Hp Hf Ht Ha. destruct (Assign_inv _ _ _ _ _ Hp Ha) as [Hp' Ht'].
  split_and!; [exact (Assign_range p t key p' r n Hp Hf Ht Ha)|done|done|].
  intros Hk. unfold HashPartitioner_Assign in Ha. rewrite Ht in Ha.
  rewrite bool_decide_eq_false_2 in Ha by done. by simplify_eq/=.
Qed.

(** Keyless messages are spread evenly: of any [n] consecutive keyless
    assignments to a topic of [n] partitions each partition receives exactly
    one, in rotation. *)
Theorem round_robin_balanced p t n c :
  hp_topics p !! t = Some (Z.of_nat n) → hp_rrCur p !! t = Some c →
  0 < Z.of_nat n < 2 ^ 31 → 0 <= c → c + Z.of_nat n < 2 ^ 63 →
  assign_keyless n p t ≡ₚ Z.of_nat <$> seq 0 n.
Proof.
  intros Ht Hc Hn Hge Hle. rewrite (assign_keyless_seq n p t (Z.of_nat n) c) by done.
  apply NoDup_Permutation.
  - apply NoDup_fmap_2_strong; [|apply NoDup_seq].
    intros i j Hi Hj Heq. apply elem_of_seq in Hi, Hj.
    assert ((c + Z.of_nat i - (c + Z.of_nat j)) mod Z.of_nat n = 0) as Hz.
    { rewrite Zminus_mod, Heq, Z.sub_diag. done. }
    apply Z.mod_divide in Hz as [q Hq]; [|lia].
    assert (q = 0) as -> by nia. lia.
  - apply NoDup_fmap_2; [apply _|apply NoDup_seq].
  - intros x. rewrite !list_elem_of_fmap. split.
    + intros (i & -> & _). exists (Z.to_nat ((c + Z.of_nat i) mod Z.of_nat n)).
      pose proof (Z.mod_pos_bound (c + Z.of_nat i) (Z.of_nat n)).
      rewrite elem_of_seq. lia.
    + intros (j & -> & Hj). apply elem_of_seq in Hj.
      exists (Z.to_nat ((Z.of_nat j - c) mod Z.of_nat n)).
      pose proof (Z.mod_pos_bound (Z.of_nat j - c) (Z.of_nat n)). split.
      * rewrite Z2Nat.id by lia. rewrite Zplus_mod_idemp_r.
        replace (c + (Z.of_nat j - c)) with (Z.of_nat j) by lia. by rewrite Z.mod_small by lia.
      * rewrite elem_of_seq. lia.
Qed.

Definition demo_hp : HashPartitioner :=
  mkHashPartitioner {["orders"%string := 3]} {["orders"%string := 4]}.

Lemma demo_hp_inv : hp_inv demo_hp.
Proof.
  intros t. unfold demo_hp. simpl. destruct (decide (t = "orders"%string)) as [->|Hne].
  - rewrite !lookup_singleton_eq. split; [lia|by eexists].
  - by rewrite !lookup_singleton_ne.
Qed.

Lemma assign_in_range_witness :
  ∃ i, (HashPartitioner_Assign demo_hp "orders" "k1").2 = Ok i ∧ 0 <= i < 3.
Proof.
  destruct (HashPartitioner_Assign demo_hp "orders" "k1") as [p' r] eqn:E.
  destruct (assign_in_range demo_hp "orders" "k1" p' r 3) as ((i & -> & Hi) & _);
    [apply demo_hp_inv| |reflexivity|exact E|by exists i].
  intros c Hc. vm_compute in Hc. injection Hc as <-. lia.
Defined.

Lemma round_robin_balanced_witness :
  assign_keyless 3 demo_hp "orders" ≡ₚ [0; 1; 2].
Proof. by apply (round_robin_balanced demo_hp "orders" 3 4). Defined.
