(* ===== verification/Topic.v ===== *)
(** * Topics: [internal/topic/manager.go]

    The registry of topics and their partition logs.  What a topic needs of a
    partition log is the class [LogStore]; the clients (topics, producer)
    are developed against it and [PartitionLog] is an instance. *)

From S2P Require Import Prelude GoLib Types Record Segment PartitionLog Partition.

Local Open Scope Z_scope.

(** ** The interface of a partition log *)

(** Outcomes of the calls of one append, with the clock reading it stores. *)
Record AppendIO := mkAppendIO {
  ap_rio : ReadIO;
  ap_roll : bool;
  ap_wio : WriteIO;
  ap_now : Z;
}.

(** What a read of the messages [ms] promises. *)
Definition read_from (ms : list Message) (start max : Z) : list Message :=
  take (Z.to_nat max) (filter (λ m, start <= msg_Offset m) ms).

Class LogStore (L : Type) := {
  ls_append : AppendIO → L → Message → L * Message * result Z seg_err;
  ls_read : ReadIO → L → Z → Z → result (list Message) seg_err;
  ls_next : L → Z;
  (** [OffsetForTimestamp], and [SendTo] with the bytes sent and its outcome. *)
  ls_offset_for : ReadIO → L → Z → Z;
  ls_send : ReadIO → list (option nat) → L → Z → Z → bytes * bool;
  (** The log holds these messages. *)
  ls_inv : L → list Message → Prop;
  (** This append goes through. *)
  ls_ready : AppendIO → L → Message → Prop;
  ls_append_ok : ∀ io l ms m, ls_inv l ms → ls_ready io l m →
    ∃ l', ls_append io l m = (l', set_offset m (ls_next l), Ok (ls_next l)) ∧
          ls_inv l' (ms ++ [set_offset m (ls_next l)]) ∧ ls_next l' = ls_next l + 1;
  ls_read_ok : ∀ io l ms start max, ls_inv l ms → rio_open io = true → rio_seek io = true →
    ls_read io l start max = Ok (read_from ms start max);
}.

(** ** Partition logs implement it *)

Section Instance_.
Context `{JsonCodec Message} `{Deflate}.

Definition pl_holds (pl : PartitionLog) (ms : list Message) : Prop :=
  ∃ ess, pl_rep pl ess ∧ pl_clean pl ess ∧ snd <$> mjoin ess = ms.

Definition pl_ready (io : AppendIO) (pl : PartitionLog) (m : Message) : Prop :=
  ap_roll io = true ∧ wio_log (ap_wio io) = None ∧ wio_idx (ap_wio io) = None ∧
  wio_sync (ap_wio io) = true ∧
  ∃ active, last (pl_segments pl) = Some active ∧
    (Segment_IsFull active = true → seg_baseOffset active < seg_nextOffset active) ∧
    room (ap_now io) (target pl active) m.

Lemma spec_read_from es start max :
  spec_read es start max = read_from (snd <$> es) start max.
Proof.
  unfold spec_read, read_from. f_equal. induction es as [|e es IH]; [done|].
  rewrite fmap_cons, !filter_cons. unfold e_offset.
  destruct (decide (start <= msg_Offset e.2)); [|done]. rewrite fmap_cons. by f_equal.
Qed.

Lemma pl_append_ok io pl ms m :
  pl_holds pl ms → pl_ready io pl m →
  ∃ pl', PartitionLog_Append (ap_rio io) (ap_roll io) (ap_wio io) (ap_now io) pl m =
           (pl', set_offset m (PartitionLog_NextOffset pl), Ok (PartitionLog_NextOffset pl)) ∧
    pl_holds pl' (ms ++ [set_offset m (PartitionLog_NextOffset pl)]) ∧
    PartitionLog_NextOffset pl' = PartitionLog_NextOffset pl + 1.
Proof.
  intros (ess & Hrep & Hcl & Hms) (Hroll & Hl & Hi & Hs & active & Ha & Hfull & Hroom).
  rewrite Hroll.
  destruct (PartitionLog_Append (ap_rio io) true (ap_wio io) (ap_now io) pl m)
    as [[pl' m'] res] eqn:E.
  destruct (PartitionLog_Append_rep (ap_rio io) (ap_wio io) (ap_now io) pl ess m active pl' m' res)
    as (ess' & Hrep' & Hcl' & Hall & Hn & -> & ->); try done.
  { intros Hf. split; [by apply Hfull|]. eapply fresh_base_next; [done..|]. by apply Hfull. }
  rewrite Hs, andb_false_r. exists pl'. split_and!; [done| |done].
  exists ess'. split_and!; [done|done|]. apply (f_equal (fmap snd)) in Hall.
  rewrite fmap_app in Hall. rewrite <- Hms. exact Hall.
Qed.

Lemma pl_read_ok io pl ms start max :
  pl_holds pl ms → rio_open io = true → rio_seek io = true →
  PartitionLog_Read io pl start max = Ok (read_from ms start max).
Proof.
  intros (ess & Hrep & _ & <-) Ho Hk.
  rewrite (PartitionLog_Read_rep io pl ess) by done. by rewrite spec_read_from.
Qed.

#[global] Instance PartitionLogStore : LogStore PartitionLog := {|
  ls_append := λ io, PartitionLog_Append (ap_rio io) (ap_roll io) (ap_wio io) (ap_now io);
  ls_read := PartitionLog_Read;
  ls_next := PartitionLog_NextOffset;
  ls_offset_for := PartitionLog_OffsetForTimestamp;
  ls_send := PartitionLog_SendTo;
  ls_inv := pl_holds;
  ls_ready := pl_ready;
  ls_append_ok := pl_append_ok;
  ls_read_ok := pl_read_ok;
|}.

End Instance_.

(** ** Names *)

Definition is_alnum (b : Init.Byte.byte) : bool :=
  let v := byte.unsigned b in
  ((0x30 <=? v) && (v <=? 0x39)) || ((0x41 <=? v) && (v <=? 0x5a)) || ((0x61 <=? v) && (v <=? 0x7a)).

Definition is_name_byte (b : Init.Byte.byte) : bool :=
  is_alnum b || bool_decide (b = Byte.x2e) || bool_decide (b = Byte.x5f) || bool_decide (b = Byte.x2d).

(** The expression [^[a-zA-Z0-9][a-zA-Z0-9._-]{0,248}$]. *)
Definition validTopicName (name : string) : bool :=
  match bytes_of_string name with
  | [] => false
  | b :: rest => is_alnum b && forallb is_name_byte rest && (length rest <=? 248)%nat
  end.

(** ** Topics and the registry *)

Record Topic (L : Type) := mkTopic {
  tp_cfg : TopicConfig;
  tp_partitions : list L;
}.
Arguments mkTopic {L} _ _.
Arguments tp_cfg {L} _.
Arguments tp_partitions {L} _.

Inductive topic_err :=
| OutOfRange (id : Z) (name : string)
| InvalidName (name : string)
| TopicBrokerErr (e : BrokerError)
| CreatePartitionErr (i : Z) (name : string) (e : seg_err).

Record RetentionConfig := mkRetentionConfig {
  rt_MaxAgeHours : Z;
  rt_MaxSizeMB : Z;
}.

Record Manager (L : Type) := mkManager {
  mg_topics : gmap string (Topic L);
  mg_partitioner : HashPartitioner;
  mg_retention : option RetentionConfig;
}.
Arguments mkManager {L} _ _ _.
Arguments mg_topics {L} _.
Arguments mg_partitioner {L} _.
Arguments mg_retention {L} _.

Definition mg_with {L} (m : Manager L) (ts : gmap string (Topic L)) (p : HashPartitioner) : Manager L :=
  mkManager ts p (mg_retention m).

Definition topic_exists_err (name : string) : BrokerError :=
  NewBrokerError ErrTopicExists ("topic " +:+ name +:+ " already exists").

Definition topic_not_found_err (name : string) : BrokerError :=
  NewBrokerError ErrTopicNotFound ("topic " +:+ name +:+ " not found").

Section Topics.
Context {L : Type}.

Definition Topic_Config (t : Topic L) : TopicConfig := tp_cfg t.

Definition Topic_PartitionLog (t : Topic L) (id : Z) : result L topic_err :=
  if (id <? 0) || (zlen (tp_partitions t) <=? id) then Error (OutOfRange id (tc_Name (tp_cfg t)))
  else
    match tp_partitions t !! Z.to_nat id with
    | Some l => Ok l
    | None => Error (OutOfRange id (tc_Name (tp_cfg t)))
    end.

(** The defaults [Create] fills in. *)
Definition normalize (cfg : TopicConfig) : TopicConfig :=
  mkTopicConfig (tc_Name cfg)
    (if tc_Partitions cfg <=? 0 then 1 else tc_Partitions cfg)
    (if tc_ReplicationFactor cfg <=? 0 then 1 else tc_ReplicationFactor cfg)
    (tc_RetentionHours cfg) (tc_RetentionBytes cfg) (tc_DeliveryMode cfg)
    (tc_CompressionCodec cfg) (tc_MinISR cfg) (tc_CompactionMode cfg).

(** The loop that opens the partition logs: [open i] is what opening the
    directory of partition [i] gives. *)
Fixpoint open_partitions (open : Z → result L seg_err) (n : nat) (i : Z) (acc : list L) :
    result (list L) (Z * seg_err) :=
  match n with
  | O => Ok acc
  | S n =>
      match open i with
      | Error e => Error (i, e)
      | Ok l => open_partitions open n (i + 1) (acc ++ [l])
      end
  end.

Definition Manager_Create (open : Z → result L seg_err) (m : Manager L) (cfg : TopicConfig) :
    Manager L * result unit topic_err :=
  let cfg := normalize cfg in
  if negb (validTopicName (tc_Name cfg)) then (m, Error (InvalidName (tc_Name cfg)))
  else
    match mg_topics m !! tc_Name cfg with
    | Some _ => (m, Error (TopicBrokerErr (topic_exists_err (tc_Name cfg))))
    | None =>
        match open_partitions open (Z.to_nat (tc_Partitions cfg)) 0 [] with
        | Error (i, e) => (m, Error (CreatePartitionErr i (tc_Name cfg) e))
        | Ok pls =>
            (mg_with m (<[tc_Name cfg := mkTopic cfg pls]> (mg_topics m))
               (HashPartitioner_Register (mg_partitioner m) (tc_Name cfg)
                  (i32 (tc_Partitions cfg))).1, Ok tt)
        end
    end.

Definition Manager_Delete (m : Manager L) (name : string) : Manager L * result unit topic_err :=
  match mg_topics m !! name with
  | None => (m, Error (TopicBrokerErr (topic_not_found_err name)))
  | Some _ =>
      (mg_with m (delete name (mg_topics m))
         (HashPartitioner_Register (mg_partitioner m) name 0).1, Ok tt)
  end.

Definition Manager_Get (m : Manager L) (name : string) : result (Topic L) topic_err :=
  match mg_topics m !! name with
  | Some t => Ok t
  | None => Error (TopicBrokerErr (topic_not_found_err name))
  end.

(** The configurations listed, in the order the map is ranged over. *)
Definition Manager_List (m : Manager L) : list TopicConfig :=
  (λ p, tp_cfg p.2) <$> map_to_list (mg_topics m).

Definition Manager_Exists (m : Manager L) (name : string) : bool :=
  bool_decide (is_Some (mg_topics m !! name)).

Definition IsNameError (err : option topic_err) : bool :=
  match err with
  | None => false
  | Some (TopicBrokerErr _) => false
  | Some _ => true
  end.

Definition Manager_UpdateRetentionConfig (m : Manager L) (maxAgeHours maxSizeMB : Z) : Manager L :=
  mkManager (mg_topics m) (mg_partitioner m) (Some (mkRetentionConfig maxAgeHours maxSizeMB)).

(** [compactAll]: [compact] is the retention sweep of one log; topics in
    compaction mode are left to the key compactor. *)
Definition Manager_compactAll (compact : L → L) (m : Manager L) : Manager L :=
  mg_with m
    ((λ t, if bool_decide (tc_CompactionMode (tp_cfg t) = "compact"%string) then t
           else mkTopic (tp_cfg t) (compact <$> tp_partitions t)) <$> mg_topics m)
    (mg_partitioner m).

Definition Manager_CompactablePartitions (m : Manager L) : list L :=
  map_to_list (mg_topics m) ≫= λ p,
    if bool_decide (tc_CompactionMode (tp_cfg p.2) = "compact"%string)
    then tp_partitions p.2 else [].

(** Replacing one partition log of a topic: the effect of an append through
    the pointer [PartitionLog] returns. *)
Definition Manager_update (m : Manager L) (name : string) (id : Z) (l : L) : Manager L :=
  mg_with m
    (alter (λ t, mkTopic (tp_cfg t) (<[Z.to_nat id := l]> (tp_partitions t))) name (mg_topics m))
    (mg_partitioner m).

(** ** Invariant *)

(** Registry and router agree: a topic is registered with as many partitions
    as it has logs, and nothing else is. *)
Record mg_inv (m : Manager L) : Prop := mkMgInv {
  mgi_hp : hp_inv (mg_partitioner m);
  mgi_topics : ∀ name,
    hp_topics (mg_partitioner m) !! name =
      (λ t, zlen (tp_partitions t)) <$> mg_topics m !! name;
}.

Lemma open_partitions_length open n : ∀ i acc l,
  open_partitions open n i acc = Ok l → length l = (length acc + n)%nat.
Proof.
  induction n as [|n IH]; intros i acc l Ho; simpl in Ho; [simplify_eq; lia|].
  destruct (open i); [|done]. apply IH in Ho. rewrite length_app in Ho. simpl in Ho. lia.
Qed.

Lemma Create_inv open m cfg m' r :
  mg_inv m → tc_Partitions cfg < 2 ^ 31 → Manager_Create open m cfg = (m', r) → mg_inv m'.
Proof.
  intros [Hhp Ht] Hc Heq. unfold Manager_Create in Heq.
  set (c := normalize cfg) in *.
  destruct (negb (validTopicName (tc_Name c))); [by simplify_eq|].
  destruct (mg_topics m !! tc_Name c) as [|] eqn:El; [by simplify_eq|].
  destruct (open_partitions _ _ _ _) as [pls|[i e]] eqn:Eo; [|by simplify_eq].
  apply open_partitions_length in Eo. cbn [length Nat.add] in Eo.
  assert (0 < tc_Partitions c < 2 ^ 31) as Hp.
  { unfold c, normalize. simpl. destruct (Z.leb_spec (tc_Partitions cfg) 0); lia. }
  clearbody c. rewrite i32_id in Heq by (unfold is_i32; lia).
  injection Heq as <- <-. split.
  { cbn. destruct (HashPartitioner_Register (mg_partitioner m) (tc_Name c) (tc_Partitions c))
      as [p' r'] eqn:Er. refine (Register_inv _ _ _ _ _ Hhp _ Er). lia. }
  intros name. cbn [mg_with mg_partitioner mg_topics]. rewrite Register_topics by lia.
  destruct (decide (tc_Name c = name)) as [<-|Hne].
  - rewrite !lookup_insert_eq. cbn. f_equal. unfold zlen. lia.
  - rewrite !lookup_insert_ne by done. apply Ht.
Qed.

Lemma Delete_inv m name m' r : mg_inv m → Manager_Delete m name = (m', r) → mg_inv m'.
Proof.
  intros [Hhp Ht] Heq. unfold Manager_Delete in Heq.
  destruct (mg_topics m !! name) as [t|] eqn:El; [|by simplify_eq].
  destruct (HashPartitioner_Register (mg_partitioner m) name 0) as [p' r'] eqn:Er. simplify_eq/=.
  assert (hp_inv p') as Hhp' by (refine (Register_inv _ _ _ _ _ Hhp _ Er); lia).
  split; simpl; [done|]. intros name'. unfold HashPartitioner_Register in Er. simplify_eq/=.
  destruct (decide (name = name')) as [<-|Hne].
  - by rewrite !lookup_delete_eq.
  - rewrite !lookup_delete_ne by done. apply Ht.
Qed.

Lemma update_inv m name id l : mg_inv m → mg_inv (Manager_update m name id l).
Proof.
  intros [Hhp Ht]. split; simpl; [done|]. intros name'. rewrite Ht.
  destruct (decide (name = name')) as [<-|Hne].
  - rewrite lookup_alter_eq, <- option_fmap_compose. destruct (mg_topics m !! name); [|done].
    simpl. f_equal. unfold zlen. by rewrite length_insert.
  - by rewrite lookup_alter_ne.
Qed.

(** The topics after replacing one log, as an insertion. *)
Lemma update_topics (m : Manager L) name t id l :
  mg_topics m !! name = Some t →
  mg_topics (Manager_update m name id l) =
    <[name := mkTopic (tp_cfg t) (<[Z.to_nat id := l]> (tp_partitions t))]> (mg_topics m).
Proof.
  intros Ht. apply map_eq. intros n. cbn [Manager_update mg_with mg_topics].
  destruct (decide (name = n)) as [<-|Hne].
  - by rewrite lookup_alter_eq, Ht, lookup_insert_eq.
  - by rewrite lookup_alter_ne, lookup_insert_ne.
Qed.

(** Putting back the log that is there changes nothing. *)
Lemma update_same (m : Manager L) name t id l :
  mg_topics m !! name = Some t → Topic_PartitionLog t id = Ok l →
  mg_topics (Manager_update m name id l) = mg_topics m.
Proof.
  intros Ht Hl. rewrite (update_topics m name t) by done.
  unfold Topic_PartitionLog in Hl. case_match; [done|].
  destruct (tp_partitions t !! Z.to_nat id) eqn:El; simplify_eq.
  rewrite list_insert_id by done. apply insert_id. rewrite Ht. by destruct t.
Qed.

Lemma PartitionLog_in_range (t : Topic L) id :
  0 <= id < zlen (tp_partitions t) →
  ∃ l, tp_partitions t !! Z.to_nat id = Some l ∧ Topic_PartitionLog t id = Ok l.
Proof.
  intros Hid. destruct (lookup_lt_is_Some_2 (tp_partitions t) (Z.to_nat id)) as [l Hl].
  { unfold zlen in Hid. lia. }
  exists l. split; [done|]. unfold Topic_PartitionLog.
  rewrite (proj2 (Z.ltb_ge _ _)), (proj2 (Z.leb_gt _ _)) by lia. cbn [orb]. by rewrite Hl.
Qed.

(** ** Properties *)

(** The operations that change the registry. *)
Inductive registry_op :=
| RegCreate (cfg : TopicConfig)
| RegDelete (name : string).

Definition registry_step (open : Z → result L seg_err) (m : Manager L) (o : registry_op) : Manager L :=
  match o with
  | RegCreate cfg => (Manager_Create open m cfg).1
  | RegDelete name => (Manager_Delete m name).1
  end.

(** The topic registry and the router never disagree: after any sequence
    of topic creations and deletions, failed ones included, every topic that
    exists is routable and every partition the router picks for it exists, so
    no publish to an existing topic fails for want of a partition. *)
Theorem routing_always_finds_partition open (ops : list registry_op) name t key p' r :
  Forall (λ o, match o with RegCreate cfg => tc_Partitions cfg < 2 ^ 31 | RegDelete _ => True end) ops →
  let m := foldl (registry_step open) (mkManager ∅ NewHashPartitioner None) ops in
  Manager_Get m name = Ok t → rr_fresh (mg_partitioner m) name →
  HashPartitioner_Assign (mg_partitioner m) name key = (p', r) →
  ∃ i l, r = Ok i ∧ Topic_PartitionLog t i = Ok l.
Proof.
  intros Hops m Hget Hf Ha.
  assert (mg_inv m) as [Hhp Ht].
  { clear -Hops. unfold m. assert (mg_inv (mkManager ∅ NewHashPartitioner None)) as H0.
    { split; intros name; simpl; by rewrite !lookup_empty. }
    revert H0. generalize (mkManager (∅ : gmap string (Topic L)) NewHashPartitioner None).
    clear m. induction Hops as [|o ops Ho Hops IH]; intros m Hm; [done|]. simpl. apply IH.
    destruct o as [cfg|n]; simpl.
    - destruct (Manager_Create open m cfg) as [m' r'] eqn:E. by eapply Create_inv.
    - destruct (Manager_Delete m n) as [m' r'] eqn:E. by eapply Delete_inv. }
  unfold Manager_Get in Hget. destruct (mg_topics m !! name) as [t'|] eqn:El; simplify_eq.
  specialize (Ht name). rewrite El in Ht. simpl in Ht.
  destruct (Assign_range _ _ _ _ _ _ Hhp Hf Ht Ha) as (i & -> & Hi).
  destruct (PartitionLog_in_range t i Hi) as (l & _ & Hl). eauto.
Qed.

End Topics.
Arguments mg_inv {L} _.

(** ** Concrete logs and a concrete registry *)

(** A log that is a list of messages, with the failures of the real one. *)
Definition list_append (io : AppendIO) (l : list Message) (m : Message) :
    list Message * Message * result Z seg_err :=
  let m := set_offset m (zlen l) in
  match wio_log (ap_wio io) with
  | Some _ => (l, m, Error LogWriteErr)
  | None => if wio_sync (ap_wio io) then (l ++ [m], m, Ok (zlen l))
            else (l ++ [m], m, Error LogSyncErr)
  end.

Lemma list_append_ok io (l ms : list Message) m :
  l = ms → wio_log (ap_wio io) = None ∧ wio_sync (ap_wio io) = true →
  ∃ l', list_append io l m = (l', set_offset m (zlen l), Ok (zlen l)) ∧
        l' = ms ++ [set_offset m (zlen l)] ∧ zlen l' = zlen l + 1.
Proof.
  intros -> [Hl Hs]. unfold list_append. rewrite Hl, Hs. eexists. split_and!; [done|done|].
  by rewrite zlen_app.
Qed.

#[global] Instance ListStore : LogStore (list Message) := {|
  ls_append := list_append;
  ls_read := λ io l start max, Ok (read_from l start max);
  ls_next := zlen;
  ls_offset_for := λ io l ts,
    default (zlen l) (msg_Offset ∘ snd <$> list_find (λ m, ts <= msg_Timestamp m) l);
  ls_send := λ io fails l start max, ([], true);
  ls_inv := eq;
  ls_ready := λ io _ _, wio_log (ap_wio io) = None ∧ wio_sync (ap_wio io) = true;
  ls_append_ok := list_append_ok;
  ls_read_ok := λ io l ms start max Heq _ _,
    f_equal (λ ms, Ok (read_from ms start max)) Heq;
|}.

Definition demo_open (i : Z) : result (list Message) seg_err := Ok [].

Definition demo_ops : list registry_op :=
  [RegCreate (mkTopicConfig "orders" 3 1 0 0 0 0 0 ""); RegDelete "none"].

Lemma routing_always_finds_partition_witness :
  ∃ i l, (HashPartitioner_Assign
            (mg_partitioner (foldl (registry_step demo_open) (mkManager ∅ NewHashPartitioner None) demo_ops))
            "orders" "k").2 = Ok i ∧
    Topic_PartitionLog (mkTopic (mkTopicConfig "orders" 3 1 0 0 0 0 0 "")
      ([[]; []; []] : list (list Message))) i = Ok l.
Proof.
  destruct (HashPartitioner_Assign
    (mg_partitioner (foldl (registry_step demo_open) (mkManager ∅ NewHashPartitioner None) demo_ops))
    "orders" "k") as [p' r] eqn:E.
  destruct (routing_always_finds_partition demo_open demo_ops "orders"
    (mkTopic (mkTopicConfig "orders" 3 1 0 0 0 0 0 "") [[]; []; []]) "k" p' r)
    as (i & l & -> & Hl).
  - repeat constructor; simpl; lia.
  - vm_compute. reflexivity.
  - intros c Hc. vm_compute in Hc. injection Hc as <-. lia.
  - exact E.
  - exists i, l. split; [reflexivity|exact Hl].
Defined.
