(* ===== verification/Dedup.v ===== *)
(** * The deduplication window: [internal/producer/dedup.go]

    Per client a ring buffer of the last sequence numbers; the abstract state
    of a ring is the queue of its slots, oldest first. *)

From S2P Require Import Prelude GoLib.

Local Open Scope Z_scope.

(** ** State and operations *)

Record seqEntry := mkSeqEntry {
  se_seqNum : Z;
  se_offset : Z;
  se_valid : bool;
}.

Definition empty_slot : seqEntry := mkSeqEntry 0 0 false.

Record clientWindow := mkClientWindow {
  cw_ring : list seqEntry;
  cw_head : Z;
  cw_size : Z;
}.

Definition newClientWindow (size : Z) : clientWindow :=
  mkClientWindow (replicate (Z.to_nat size) empty_slot) 0 size.

(** The first slot, from index zero on, that is valid and has the number. *)
Definition clientWindow_lookup (cw : clientWindow) (seqNum : Z) : option Z :=
  (λ p, se_offset p.2) <$> list_find (λ e, se_valid e = true ∧ se_seqNum e = seqNum) (cw_ring cw).

Definition clientWindow_mark (cw : clientWindow) (seqNum offset : Z) : clientWindow :=
  mkClientWindow (<[Z.to_nat (cw_head cw) := mkSeqEntry seqNum offset true]> (cw_ring cw))
    ((cw_head cw + 1) mod cw_size cw) (cw_size cw).

Record DedupWindow := mkDedupWindow {
  dw_perClient : gmap string clientWindow;
  dw_size : Z;
}.

Definition NewDedupWindow (size : Z) : DedupWindow :=
  mkDedupWindow ∅ (if size <=? 0 then 10000 else size).

Definition DedupWindow_LookupOffset (d : DedupWindow) (clientID : string) (seqNum : Z) : option Z :=
  match dw_perClient d !! clientID with
  | None => None
  | Some cw => clientWindow_lookup cw seqNum
  end.

Definition DedupWindow_IsDuplicate (d : DedupWindow) (clientID : string) (seqNum : Z) : bool :=
  bool_decide (is_Some (DedupWindow_LookupOffset d clientID seqNum)).

Definition DedupWindow_Mark (d : DedupWindow) (clientID : string) (seqNum offset : Z) : DedupWindow :=
  let cw := default (newClientWindow (dw_size d)) (dw_perClient d !! clientID) in
  mkDedupWindow (<[clientID := clientWindow_mark cw seqNum offset]> (dw_perClient d)) (dw_size d).

(** ** The ring as a queue *)

(** The slots oldest first are [q]; the ring is [q] rotated to [head]. *)
Record window_rep (cw : clientWindow) (q : list seqEntry) : Prop := mkWindowRep {
  win_size : zlen q = cw_size cw;
  win_head : 0 <= cw_head cw < cw_size cw;
  win_ring : cw_ring cw = drop (Z.to_nat (cw_size cw - cw_head cw)) q ++
                          take (Z.to_nat (cw_size cw - cw_head cw)) q;
}.

Lemma newClientWindow_rep size :
  0 < size → window_rep (newClientWindow size) (replicate (Z.to_nat size) empty_slot).
Proof.
  intros Hs. split; simpl.
  - unfold zlen. rewrite length_replicate. lia.
  - lia.
  - rewrite Z.sub_0_r, drop_ge, take_ge; [done|rewrite length_replicate; lia..].
Qed.

(** Marking drops the oldest slot and adds the new one. *)
Lemma mark_rep cw x q s o :
  window_rep cw (x :: q) →
  window_rep (clientWindow_mark cw s o) (q ++ [mkSeqEntry s o true]).
Proof.
  intros [Hsz Hh Hr]. rewrite zlen_cons in Hsz.
  set (n := cw_size cw) in *. set (h := cw_head cw) in *.
  set (e := mkSeqEntry s o true).
  assert (cw_ring (clientWindow_mark cw s o) =
    drop (Z.to_nat (n - h - 1)) q ++ e :: take (Z.to_nat (n - h - 1)) q) as Hring.
  { simpl. rewrite Hr. replace (Z.to_nat (n - h)) with (S (Z.to_nat (n - h - 1))) by lia.
    cbn [drop take]. fold h. fold e.
    assert (Z.to_nat h = length (drop (Z.to_nat (n - h - 1)) q)) as ->.
    { rewrite length_drop. unfold zlen in Hsz. lia. }
    rewrite insert_app_r_alt by lia. by rewrite Nat.sub_diag. }
  split.
  - rewrite zlen_app. simpl. change (zlen [e]) with 1. lia.
  - simpl. apply Z.mod_pos_bound. lia.
  - rewrite Hring. simpl. fold n. fold h.
    destruct (decide (h + 1 = n)) as [Hwrap|Hno].
    + rewrite Hwrap, Z.mod_same, Z.sub_0_r by lia.
      replace (Z.to_nat (n - h - 1)) with O by lia. cbn [drop take].
      rewrite (drop_ge (q ++ [e])), (take_ge (q ++ [e])); [by rewrite ?take_0|..]; rewrite length_app; simpl; unfold zlen in Hsz; lia.
    + rewrite Z.mod_small by lia. replace (n - (h + 1)) with (n - h - 1) by lia.
      rewrite drop_app_le, take_app_le by (unfold zlen in Hsz; lia). by rewrite <- app_assoc.
Qed.

(** A number is found exactly when some slot of the queue holds it. *)
Lemma lookup_rep cw q s :
  window_rep cw q →
  is_Some (clientWindow_lookup cw s) ↔ ∃ e, e ∈ q ∧ se_valid e = true ∧ se_seqNum e = s.
Proof.
  intros [_ _ Hr]. unfold clientWindow_lookup.
  assert (cw_ring cw ≡ₚ q) as Hperm by (by rewrite Hr, Permutation_app_comm, take_drop).
  split.
  - intros [o Ho]. destruct (list_find _ _) as [[i e]|] eqn:E; [|done].
    apply list_find_Some in E as (Hi & [Hv Hs] & _). exists e.
    rewrite <- Hperm. split; [by eapply list_elem_of_lookup_2|done].
  - intros (e & He & Hv & Hs). rewrite <- Hperm in He.
    destruct (list_find_elem_of (λ e, se_valid e = true ∧ se_seqNum e = s) _ e He) as [p Hp];
      [done|]. rewrite Hp. by eexists.
Qed.

(** After a mark only the marked number is new. *)
Lemma LookupOffset_Mark d cid s o cid' s' :
  is_Some (DedupWindow_LookupOffset (DedupWindow_Mark d cid s o) cid' s') →
  (cid' = cid ∧ s' = s) ∨ is_Some (DedupWindow_LookupOffset d cid' s').
Proof.
  unfold DedupWindow_LookupOffset, DedupWindow_Mark. cbn [dw_perClient].
  destruct (decide (cid = cid')) as [<-|Hne]; [|rewrite lookup_insert_ne by done; by right].
  rewrite lookup_insert_eq. set (cw := default _ _).
  assert (∀ e, e ∈ cw_ring cw → se_valid e = true → se_seqNum e = s' →
    is_Some (match dw_perClient d !! cid with
             | Some cw => clientWindow_lookup cw s' | None => None end)) as Hold.
  { unfold cw. destruct (dw_perClient d !! cid) as [cw0|]; simpl.
    - intros e He Hv Hs. unfold clientWindow_lookup.
      destruct (list_find_elem_of (λ e, se_valid e = true ∧ se_seqNum e = s') _ e He) as [p Hp];
        [done|]. rewrite Hp. by eexists.
    - intros e [-> _]%elem_of_replicate Hv. done. }
  intros [o' Ho]. unfold clientWindow_lookup in Ho. cbn [cw_ring clientWindow_mark] in Ho.
  destruct (list_find _ _) as [[i e]|] eqn:E; [|done].
  apply list_find_Some in E as (Hi & [Hv Hs] & _).
  apply list_lookup_insert_Some in Hi as [(_ & <- & _)|[_ Hi]].
  - left. by simpl in Hs.
  - right. eapply Hold; [by eapply list_elem_of_lookup_2|done|done].
Qed.

(** ** Properties *)

Definition mark_all (cw : clientWindow) (ms : list (Z * Z)) : clientWindow :=
  foldl (λ cw p, clientWindow_mark cw p.1 p.2) cw ms.

Definition slots_of (ms : list (Z * Z)) : list seqEntry :=
  (λ p, mkSeqEntry p.1 p.2 true) <$> ms.

Lemma mark_all_rep ms : ∀ cw q,
  window_rep cw q → 0 < cw_size cw →
  window_rep (mark_all cw ms) (drop (length ms) (q ++ slots_of ms)) ∧
  cw_size (mark_all cw ms) = cw_size cw.
Proof.
  induction ms as [|[s o] ms IH]; intros cw q Hr Hsz.
  { cbn. by rewrite app_nil_r. }
  pose proof (win_size _ _ Hr) as Hq. destruct q as [|x q].
  { rewrite zlen_nil in Hq. lia. }
  destruct (IH _ _ (mark_rep _ _ _ s o Hr) Hsz) as [Hr' Hs']. split; [|done].
  cbn [length app slots_of fmap list_fmap]. rewrite <- app_assoc in Hr'. exact Hr'.
Qed.

(** The deduplication window remembers exactly the last [size] sequence
    numbers a client published: after any sequence of marks a number is found
    if and only if it is among the last [size] of them. *)
Theorem dedup_window_exact (size : Z) (marks : list (Z * Z)) (s : Z) :
  0 < size →
  is_Some (clientWindow_lookup (mark_all (newClientWindow size) marks) s) ↔
  s ∈ (drop (length marks - Z.to_nat size) marks).*1.
Proof.
  intros Hs.
  destruct (mark_all_rep marks _ _ (newClientWindow_rep size Hs) Hs) as [Hr _].
  rewrite (lookup_rep _ _ s Hr).
  assert (drop (length marks) (replicate (Z.to_nat size) empty_slot ++ slots_of marks) =
    replicate (Z.to_nat size - length marks) empty_slot ++
    slots_of (drop (length marks - Z.to_nat size) marks)) as ->.
  { unfold slots_of. rewrite drop_app, drop_replicate, length_replicate, fmap_drop. done. }
  split.
  - intros (e & [He|He]%elem_of_app & Hv & <-).
    + apply elem_of_replicate in He as [-> _]. done.
    + apply list_elem_of_fmap in He as ([s' o] & -> & Hin). apply list_elem_of_fmap. by exists (s', o).
  - intros ([s' o] & -> & Hin)%list_elem_of_fmap. exists (mkSeqEntry s' o true).
    split; [|done]. apply elem_of_app. right. apply list_elem_of_fmap. by exists (s', o).
Qed.

Lemma dedup_window_exact_witness :
  ¬ is_Some (clientWindow_lookup (mark_all (newClientWindow 2) [(1, 10); (2, 11); (3, 12)]) 1) ∧
  is_Some (clientWindow_lookup (mark_all (newClientWindow 2) [(1, 10); (2, 11); (3, 12)]) 2).
Proof.
  split.
  - intros H1. apply (dedup_window_exact 2 [(1, 10); (2, 11); (3, 12)] 1) in H1; [|lia].
    change (1 ∈ [2; 3]) in H1. rewrite !elem_of_cons, elem_of_nil in H1. lia.
  - apply (dedup_window_exact 2 [(1, 10); (2, 11); (3, 12)] 2); [lia|]. change (2 ∈ [2; 3]). left.
Defined.
