(* ===== verification/Producer.v ===== *)
(** * Publishing: [internal/producer/producer.go]

    [Publish] on every branch, over any partition log that implements
    [LogStore].  [PubEnv] carries what one call reads from its surroundings:
    the fresh message id, the clock, the outcomes of the append attempts and
    whether the context is cancelled during the waits between them.  Metrics
    are the two counters the code increments on the paths that return. *)

From S2P Require Import Prelude GoLib Types Record Segment PartitionLog Partition Topic Dedup.

Local Open Scope Z_scope.

Record PublishResult := mkPublishResult {
  res_MessageID : string;
  res_Partition : Z;
  res_Offset : Z;
}.

Inductive pub_err :=
| PubTopicErr (e : topic_err)
| PubPartErr (e : part_err)
| PubCompressErr (e : compress_err)
| AtMostOnceErr (e : seg_err)
| CtxErr
| RetriesFailed (attempts : Z) (last : option seg_err)
| SeqNumRequired
| UnsupportedMode (d : Z).

Record Producer := mkProducer {
  pd_ProducerID : string;
  (** [idempotencyStore]: (producer id, sequence number) to result. *)
  pd_idempotencyStore : gmap (string * Z) PublishResult;
  pd_dedup : DedupWindow;
  pd_maxRetries : Z;
  pd_retryDelay : Z;
  pd_published : Z;
  pd_errored : Z;
}.

Definition NewProducer (uuid : string) (maxRetries retryDelay : Z) : Producer :=
  mkProducer ("producer-" +:+ uuid) ∅ (NewDedupWindow 10000) maxRetries retryDelay 0 0.

Record PubEnv := mkPubEnv {
  pe_id : string;
  pe_ts : Z;
  pe_ios : list AppendIO;
  pe_cancels : list bool;
}.

Definition fine_append : AppendIO := mkAppendIO rio_fine true io_fine 0.

Record PubArgs := mkPubArgs {
  pa_topic : string;
  pa_key : string;
  pa_payload : bytes;
  pa_headers : gmap string string;
  pa_mode : DeliveryMode;
  pa_seqNum : Z;
  pa_codec : Z;
  (** The variadic [clientID]: empty when not passed. *)
  pa_clientID : string;
}.

(** [time.Duration] values of the back-off. *)
Definition max_delay : Z := 30 * 10 ^ 9.

Definition next_delay (delay : Z) : Z :=
  let d := i64 (delay * 2) in
  if max_delay <? d then max_delay else d.

Definition incr_errored (p : Producer) : Producer :=
  mkProducer (pd_ProducerID p) (pd_idempotencyStore p) (pd_dedup p) (pd_maxRetries p)
    (pd_retryDelay p) (pd_published p) (pd_errored p + 1).

Definition incr_published (p : Producer) : Producer :=
  mkProducer (pd_ProducerID p) (pd_idempotencyStore p) (pd_dedup p) (pd_maxRetries p)
    (pd_retryDelay p) (pd_published p + 1) (pd_errored p).

Definition record_result (p : Producer) (cid : string) (seqNum : Z) (r : PublishResult) : Producer :=
  mkProducer (pd_ProducerID p) (<[(cid, seqNum) := r]> (pd_idempotencyStore p))
    (DedupWindow_Mark (pd_dedup p) cid seqNum (res_Offset r)) (pd_maxRetries p)
    (pd_retryDelay p) (pd_published p) (pd_errored p).

(** [PurgeIdempotencyStore]: entries below the given number go. *)
Definition Producer_PurgeIdempotencyStore (p : Producer) (olderThanSeq : Z) : Producer :=
  mkProducer (pd_ProducerID p)
    (filter (λ kv, olderThanSeq <= kv.1.2) (pd_idempotencyStore p)) (pd_dedup p)
    (pd_maxRetries p) (pd_retryDelay p) (pd_published p) (pd_errored p).

Section Producers.
Context {L : Type} `{LogStore L} `{Deflate}.

(** The loop of [publishWithRetry]: [n] attempts are left.  The last list is
    that of the waits made. *)
Fixpoint retry_loop (n : nat) (total delay : Z) (ios : list AppendIO) (cancels : list bool)
    (lastErr : option seg_err) (l : L) (msg : Message) :
    L * Message * result Z pub_err * list Z :=
  match n with
  | O => (l, msg, Error (RetriesFailed total lastErr), [])
  | S n =>
      match ls_append (default fine_append (head ios)) l msg with
      | (l', msg', Ok offset) => (l', msg', Ok offset, [])
      | (l', msg', Error e) =>
          match n with
          | O => (l', msg', Error (RetriesFailed total (Some e)), [])
          | S _ =>
              if default false (head cancels) then (l', msg', Error CtxErr, [delay])
              else
                let '(l2, m2, r, ds) :=
                  retry_loop n total (next_delay delay) (tail ios) (tail cancels) (Some e) l' msg' in
                (l2, m2, r, delay :: ds)
          end
      end
  end.

Definition Producer_publishWithRetry (env : PubEnv) (p : Producer) (l : L) (msg : Message) :
    L * Message * result Z pub_err * list Z :=
  retry_loop (Z.to_nat (pd_maxRetries p + 1)) (pd_maxRetries p + 1) (pd_retryDelay p)
    (pe_ios env) (pe_cancels env) None l msg.

(** The message [Publish] builds, compressed when a codec applies. *)
Definition build_message (env : PubEnv) (cfg : TopicConfig) (a : PubArgs) (partID : Z) :
    result Message compress_err :=
  let msg := set_partition
    (NewMessage (pe_id env) (pe_ts env) (pa_topic a) (pa_payload a) (pa_key a) (pa_headers a)) partID in
  let codecToUse := if 0 <? pa_codec a then pa_codec a else tc_CompressionCodec cfg in
  if negb (codecToUse =? CodecNone) then
    match Compress codecToUse (pa_payload a) with
    | Error e => Error e
    | Ok compressed => Ok (set_payload msg compressed codecToUse)
    end
  else Ok msg.

(** The client id an exactly-once publish is deduplicated under. *)
Definition dedup_id (p : Producer) (a : PubArgs) : string :=
  if bool_decide (pa_clientID a = EmptyString) then pd_ProducerID p else pa_clientID a.

(** The cached result of a duplicate: from the map, or, when only the window
    still knows the number, the offset alone. *)
Definition cached_result (p : Producer) (cid : string) (seqNum partID : Z) : option PublishResult :=
  match DedupWindow_LookupOffset (pd_dedup p) cid seqNum with
  | Some off =>
      match pd_idempotencyStore p !! (cid, seqNum) with
      | Some r => Some r
      | None => Some (mkPublishResult "" partID off)
      end
  | None => pd_idempotencyStore p !! (cid, seqNum)
  end.

(** [Publish] once the partition log is at hand. *)
Definition publish_to (env : PubEnv) (p : Producer) (a : PubArgs) (partID : Z) (msg : Message) (l : L) :
    Producer * L * result PublishResult pub_err :=
  match pa_mode a with
  | AtMostOnce =>
      match ls_append (default fine_append (head (pe_ios env))) l msg with
      | (l', _, Error e) => (incr_errored p, l', Error (AtMostOnceErr e))
      | (l', m', Ok offset) =>
          (incr_published p, l', Ok (mkPublishResult (msg_ID m') partID offset))
      end
  | AtLeastOnce =>
      match Producer_publishWithRetry env p l msg with
      | (l', _, Error e, _) => (incr_errored p, l', Error e)
      | (l', m', Ok offset, _) =>
          (incr_published p, l', Ok (mkPublishResult (msg_ID m') partID offset))
      end
  | ExactlyOnce =>
      if pa_seqNum a =? 0 then (p, l, Error SeqNumRequired)
      else
        let cid := dedup_id p a in
        match cached_result p cid (pa_seqNum a) partID with
        | Some r => (p, l, Ok r)
        | None =>
            match Producer_publishWithRetry env p l msg with
            | (l', _, Error e, _) => (incr_errored p, l', Error e)
            | (l', m', Ok offset, _) =>
                let r := mkPublishResult (msg_ID m') partID offset in
                (record_result (incr_published p) cid (pa_seqNum a) r, l', Ok r)
            end
        end
  | UnknownMode d => (p, l, Error (UnsupportedMode d))
  end.

Definition Producer_Publish (env : PubEnv) (p : Producer) (m : Manager L) (a : PubArgs) :
    Producer * Manager L * result PublishResult pub_err :=
  match Manager_Get m (pa_topic a) with
  | Error e => (p, m, Error (PubTopicErr e))
  | Ok tp =>
      match HashPartitioner_Assign (mg_partitioner m) (pa_topic a) (pa_key a) with
      | (hp, Error e) => (p, mg_with m (mg_topics m) hp, Error (PubPartErr e))
      | (hp, Ok partID) =>
          let m := mg_with m (mg_topics m) hp in
          match Topic_PartitionLog tp partID with
          | Error e => (p, m, Error (PubTopicErr e))
          | Ok pl =>
              match build_message env (Topic_Config tp) a partID with
              | Error e => (p, m, Error (PubCompressErr e))
              | Ok msg =>
                  let '(p', pl', r) := publish_to env p a partID msg pl in
                  (p', Manager_update m (pa_topic a) partID pl', r)
              end
          end
      end
  end.

(** [PublishBatch]: one result per request; no client id is passed. *)
Fixpoint Producer_PublishBatch (envs : list PubEnv) (p : Producer) (m : Manager L)
    (reqs : list PubArgs) : Producer * Manager L * list (result PublishResult pub_err) :=
  match reqs with
  | [] => (p, m, [])
  | a :: reqs =>
      let '(p1, m1, r) :=
        Producer_Publish (default (mkPubEnv "" 0 [] []) (head envs)) p m
          (mkPubArgs (pa_topic a) (pa_key a) (pa_payload a) (pa_headers a) (pa_mode a)
             (pa_seqNum a) (pa_codec a) "") in
      let '(p2, m2, rs) := Producer_PublishBatch (tail envs) p1 m1 reqs in
      (p2, m2, r :: rs)
  end.

(** ** Retries *)

Lemma retry_loop_bound n : ∀ total delay ios cancels le l msg l' m' r ds,
  retry_loop n total delay ios cancels le l msg = (l', m', r, ds) →
  (length ds <= n - 1)%nat.
Proof.
  induction n as [|n IH]; intros total delay ios cancels le l msg l' m' r ds Heq;
    cbn [retry_loop] in Heq; [by simplify_eq|].
  destruct (ls_append _ l msg) as [[l1 m1] [o|e]]; [simplify_eq/=; lia|].
  destruct n as [|n]; [simplify_eq/=; lia|].
  destruct (default false (head cancels)); [simplify_eq/=; lia|].
  destruct (retry_loop (S n) _ _ _ _ _ _ _) as [[[l2 m2] r2] ds2] eqn:E.
  injection Heq as <- <- <- <-. apply IH in E. cbn [length] in *. lia.
Qed.

Lemma next_delay_bound d : next_delay d <= max_delay.
Proof. unfold next_delay. case_match; z_bool; lia. Qed.

Lemma retry_loop_delays n : ∀ total delay ios cancels le l msg l' m' r ds,
  retry_loop n total delay ios cancels le l msg = (l', m', r, ds) →
  match ds with [] => True | d :: ds => d = delay ∧ Forall (λ d, d <= max_delay) ds end.
Proof.
  induction n as [|n IH]; intros total delay ios cancels le l msg l' m' r ds Heq;
    cbn [retry_loop] in Heq; [by simplify_eq|].
  destruct (ls_append _ l msg) as [[l1 m1] [o|e]]; [by simplify_eq|].
  destruct n as [|n]; [by simplify_eq|].
  destruct (default false (head cancels)); [by simplify_eq|].
  destruct (retry_loop (S n) _ _ _ _ _ _ _) as [[[l2 m2] r2] ds2] eqn:E. simplify_eq.
  split; [done|]. apply IH in E. destruct ds2 as [|d ds2]; [constructor|].
  destruct E as [-> Hd]. constructor; [apply next_delay_bound|done].
Qed.

(** A first attempt that goes through ends the loop. *)
Lemma publishWithRetry_ok env p l ms msg :
  ls_inv l ms → ls_ready (default fine_append (head (pe_ios env))) l msg → 0 <= pd_maxRetries p →
  ∃ l', Producer_publishWithRetry env p l msg =
          (l', set_offset msg (ls_next l), Ok (ls_next l), []) ∧
    ls_inv l' (ms ++ [set_offset msg (ls_next l)]) ∧ ls_next l' = ls_next l + 1.
Proof.
  intros Hinv Hready Hmax. destruct (ls_append_ok _ _ _ _ Hinv Hready) as (l' & Ha & Hi & Hn).
  exists l'. split; [|done]. unfold Producer_publishWithRetry.
  replace (Z.to_nat (pd_maxRetries p + 1)) with (S (Z.to_nat (pd_maxRetries p))) by lia.
  cbn [retry_loop]. by rewrite Ha.
Qed.

(** ** Idempotency *)

(** The result recorded for a number is what a duplicate gets. *)
Lemma cached_result_stored p cid s part r :
  pd_idempotencyStore p !! (cid, s) = Some r → cached_result p cid s part = Some r.
Proof. intros Hr. unfold cached_result. rewrite Hr. by case_match. Qed.

Lemma publish_to_keeps env p a part msg l p' l' r cid s res :
  publish_to env p a part msg l = (p', l', r) →
  pd_idempotencyStore p !! (cid, s) = Some res →
  pd_idempotencyStore p' !! (cid, s) = Some res ∧ pd_ProducerID p' = pd_ProducerID p.
Proof.
  intros Hp Hs. unfold publish_to in Hp. destruct (pa_mode a).
  - destruct (ls_append _ l msg) as [[l1 m1] [o|e]]; by simplify_eq.
  - destruct (Producer_publishWithRetry env p l msg) as [[[l1 m1] [o|e]] ds]; by simplify_eq.
  - case_match; [by simplify_eq|].
    destruct (cached_result p (dedup_id p a) (pa_seqNum a) part) as [r'|] eqn:Ec; [by simplify_eq|].
    destruct (Producer_publishWithRetry env p l msg) as [[[l1 m1] [o|e]] ds]; simplify_eq/=; [|done].
    split; [|done]. rewrite lookup_insert_ne; [done|]. intros [= <- <-].
    by rewrite (cached_result_stored _ _ _ _ _ Hs) in Ec.
  - by simplify_eq.
Qed.

Lemma Publish_keeps env p m a p' m' r cid s res :
  Producer_Publish env p m a = (p', m', r) →
  pd_idempotencyStore p !! (cid, s) = Some res →
  pd_idempotencyStore p' !! (cid, s) = Some res ∧ pd_ProducerID p' = pd_ProducerID p.
Proof.
  intros Hp Hs. unfold Producer_Publish in Hp.
  destruct (Manager_Get m (pa_topic a)) as [tp|]; [|by simplify_eq].
  destruct (HashPartitioner_Assign _ _ _) as [hp [i|]]; [|by simplify_eq].
  destruct (Topic_PartitionLog tp i) as [pl|]; [|by simplify_eq].
  destruct (build_message _ _ a i) as [msg|]; [|by simplify_eq].
  destruct (publish_to env p a i msg pl) as [[p1 pl1] r1] eqn:E. simplify_eq.
  by eapply publish_to_keeps.
Qed.

(** A run of publishes, each with its own surroundings. *)
Fixpoint publish_all (p : Producer) (m : Manager L) (calls : list (PubEnv * PubArgs)) :
    Producer * Manager L :=
  match calls with
  | [] => (p, m)
  | (env, a) :: calls =>
      let '(p', m', _) := Producer_Publish env p m a in publish_all p' m' calls
  end.

Lemma publish_all_keeps calls : ∀ p m p' m' cid s res,
  publish_all p m calls = (p', m') →
  pd_idempotencyStore p !! (cid, s) = Some res →
  pd_idempotencyStore p' !! (cid, s) = Some res ∧ pd_ProducerID p' = pd_ProducerID p.
Proof.
  induction calls as [|[env a] calls IH]; intros p m p' m' cid s res Heq Hs; simpl in Heq;
    [by simplify_eq|].
  destruct (Producer_Publish env p m a) as [[p1 m1] r] eqn:E.
  destruct (Publish_keeps _ _ _ _ _ _ _ _ _ _ E Hs) as [Hs1 Hid].
  destruct (IH _ _ _ _ _ _ _ Heq Hs1) as [Hs2 Hid2]. split; [done|congruence].
Qed.

(** A publish that goes through, with the state it leaves. *)
Lemma Publish_ok env p m a t hp i pl ms msg :
  mg_topics m !! pa_topic a = Some t →
  HashPartitioner_Assign (mg_partitioner m) (pa_topic a) (pa_key a) = (hp, Ok i) →
  Topic_PartitionLog t i = Ok pl → build_message env (tp_cfg t) a i = Ok msg →
  ls_inv pl ms → ls_ready (default fine_append (head (pe_ios env))) pl msg → 0 <= pd_maxRetries p →
  (pa_mode a = AtMostOnce ∨ pa_mode a = AtLeastOnce ∨
   (pa_mode a = ExactlyOnce ∧ pa_seqNum a ≠ 0 ∧
    cached_result p (dedup_id p a) (pa_seqNum a) i = None)) →
  ∃ p' m' pl', Producer_Publish env p m a =
      (p', m', Ok (mkPublishResult (msg_ID msg) i (ls_next pl))) ∧
    mg_topics m' = <[pa_topic a := mkTopic (tp_cfg t) (<[Z.to_nat i := pl']> (tp_partitions t))]>
                     (mg_topics m) ∧
    ls_inv pl' (ms ++ [set_offset msg (ls_next pl)]) ∧ ls_next pl' = ls_next pl + 1 ∧
    pd_published p' = pd_published p + 1 ∧ pd_maxRetries p' = pd_maxRetries p.
Proof.
  intros Ht Ha Hpl Hmsg Hinv Hready Hmax Hmode.
  assert (∃ p' pl', publish_to env p a i msg pl =
      (p', pl', Ok (mkPublishResult (msg_ID msg) i (ls_next pl))) ∧
    ls_inv pl' (ms ++ [set_offset msg (ls_next pl)]) ∧ ls_next pl' = ls_next pl + 1 ∧
    pd_published p' = pd_published p + 1 ∧ pd_maxRetries p' = pd_maxRetries p)
    as (p' & pl' & Hpub & Hi & Hn & Hc & Hr).
  { unfold publish_to. destruct Hmode as [->|[->|(-> & Hseq & Hcache)]].
    - destruct (ls_append_ok _ _ _ _ Hinv Hready) as (pl' & -> & Hi & Hn).
      eexists _, pl'. by split_and!.
    - destruct (publishWithRetry_ok env p pl ms msg Hinv Hready Hmax) as (pl' & -> & Hi & Hn).
      eexists _, pl'. by split_and!.
    - rewrite (proj2 (Z.eqb_neq _ _)) by done. rewrite Hcache.
      destruct (publishWithRetry_ok env p pl ms msg Hinv Hready Hmax) as (pl' & -> & Hi & Hn).
      eexists _, pl'. by split_and!. }
  unfold Producer_Publish, Manager_Get. rewrite Ht, Ha. cbn [mg_with mg_topics].
  unfold Topic_Config. rewrite Hpl, Hmsg, Hpub.
  eexists _, _, pl'. split; [reflexivity|]. split_and!; [|done..].
  by rewrite (update_topics _ _ t).
Qed.

(** ** Properties *)

(** C1: publishing appends exactly one message to exactly one partition.  For
    a topic whose chosen log accepts the append, in any delivery mode (for
    exactly-once with a new number), the result is the routed partition and
    that log's next offset, the log is extended by exactly the message built
    from the request, and no other partition or topic changes. *)
Theorem publish_appends_one env p m a t hp i pl ms msg :
  mg_topics m !! pa_topic a = Some t →
  HashPartitioner_Assign (mg_partitioner m) (pa_topic a) (pa_key a) = (hp, Ok i) →
  Topic_PartitionLog t i = Ok pl → build_message env (tp_cfg t) a i = Ok msg →
  ls_inv pl ms → ls_ready (default fine_append (head (pe_ios env))) pl msg → 0 <= pd_maxRetries p →
  (pa_mode a = AtMostOnce ∨ pa_mode a = AtLeastOnce ∨
   (pa_mode a = ExactlyOnce ∧ pa_seqNum a ≠ 0 ∧
    cached_result p (dedup_id p a) (pa_seqNum a) i = None)) →
  ∃ p' m' pl', Producer_Publish env p m a =
      (p', m', Ok (mkPublishResult (msg_ID msg) i (ls_next pl))) ∧
    mg_topics m' = <[pa_topic a := mkTopic (tp_cfg t) (<[Z.to_nat i := pl']> (tp_partitions t))]>
                     (mg_topics m) ∧
    ls_inv pl' (ms ++ [set_offset msg (ls_next pl)]) ∧ ls_next pl' = ls_next pl + 1 ∧
    pd_published p' = pd_published p + 1.
Proof.
  intros Ht Ha Hpl Hmsg Hinv Hready Hmax Hmode.
  destruct (Publish_ok env p m a t hp i pl ms msg) as (p' & m' & pl' & Hp & Hm & Hi & Hn & Hc & _);
    [done..|]. by exists p', m', pl'.
Qed.

(** Whatever the window knows, the result map knows. *)
Definition idem_inv (p : Producer) : Prop :=
  ∀ cid s, is_Some (DedupWindow_LookupOffset (pd_dedup p) cid s) →
           is_Some (pd_idempotencyStore p !! (cid, s)).

Lemma publish_to_idem env p a part msg l p' l' r :
  idem_inv p → publish_to env p a part msg l = (p', l', r) → idem_inv p'.
Proof.
  intros Hp Heq. unfold publish_to in Heq. destruct (pa_mode a).
  - destruct (ls_append _ l msg) as [[l1 m1] [o|e]]; by simplify_eq.
  - destruct (Producer_publishWithRetry env p l msg) as [[[l1 m1] [o|e]] ds]; by simplify_eq.
  - case_match; [by simplify_eq|]. case_match; [by simplify_eq|].
    destruct (Producer_publishWithRetry env p l msg) as [[[l1 m1] [o|e]] ds]; simplify_eq; [|done].
    intros cid s Hl. cbn [record_result pd_dedup pd_idempotencyStore incr_published] in *.
    destruct (decide ((dedup_id p a, pa_seqNum a) = (cid, s))) as [<-|Hne].
    + rewrite lookup_insert_eq. by eexists.
    + rewrite lookup_insert_ne by done. apply LookupOffset_Mark in Hl as [[-> ->]|Hl]; [done|].
      by apply Hp.
  - by simplify_eq.
Qed.

Lemma Publish_idem env p m a p' m' r :
  idem_inv p → Producer_Publish env p m a = (p', m', r) → idem_inv p'.
Proof.
  intros Hi Hp. unfold Producer_Publish in Hp.
  destruct (Manager_Get m (pa_topic a)) as [tp|]; [|by simplify_eq].
  destruct (HashPartitioner_Assign _ _ _) as [hp [i|]]; [|by simplify_eq].
  destruct (Topic_PartitionLog tp i) as [pl|]; [|by simplify_eq].
  destruct (build_message _ _ a i) as [msg|]; [|by simplify_eq].
  destruct (publish_to env p a i msg pl) as [[p1 pl1] r1] eqn:E. simplify_eq.
  by eapply publish_to_idem.
Qed.

Lemma publish_all_idem calls : ∀ p m p' m',
  idem_inv p → publish_all p m calls = (p', m') → idem_inv p'.
Proof.
  induction calls as [|[env a] calls IH]; intros p m p' m' Hi Heq; simpl in Heq; [by simplify_eq|].
  destruct (Producer_Publish env p m a) as [[p1 m1] r] eqn:E.
  eapply IH; [|done]. by eapply Publish_idem.
Qed.

(** A successful exactly-once publish is recorded. *)
Lemma Publish_recorded env p m a p' m' r :
  idem_inv p → pa_mode a = ExactlyOnce → Producer_Publish env p m a = (p', m', Ok r) →
  pd_idempotencyStore p' !! (dedup_id p a, pa_seqNum a) = Some r ∧ pa_seqNum a ≠ 0 ∧
  pd_ProducerID p' = pd_ProducerID p.
Proof.
  intros Hi Hm Hp. unfold Producer_Publish in Hp.
  destruct (Manager_Get m (pa_topic a)) as [tp|]; [|done].
  destruct (HashPartitioner_Assign _ _ _) as [hp [i|]]; [|done].
  destruct (Topic_PartitionLog tp i) as [pl|]; [|done].
  destruct (build_message _ _ a i) as [msg|]; [|done].
  unfold publish_to in Hp. rewrite Hm in Hp.
  destruct (Z.eqb_spec (pa_seqNum a) 0) as [|Hz]; [done|].
  destruct (cached_result p (dedup_id p a) (pa_seqNum a) i) as [r'|] eqn:Ec.
  - simplify_eq. split; [|done]. unfold cached_result in Ec.
    destruct (DedupWindow_LookupOffset (pd_dedup p') (dedup_id p' a) (pa_seqNum a)) as [o|] eqn:El.
    + destruct (Hi (dedup_id p' a) (pa_seqNum a)) as [r2 Hr2]; [by eexists|].
      rewrite Hr2 in Ec |- *. done.
    + done.
  - destruct (Producer_publishWithRetry env p pl msg) as [[[l1 m1] [o|e]] ds]; simplify_eq.
    cbn [record_result pd_idempotencyStore]. by rewrite lookup_insert_eq.
Qed.

(** C15: exactly-once publishing is idempotent.  From a fresh producer, after
    any run of publishes, once a publish of a client's sequence number has
    succeeded, and then after any further run of publishes in any mode and
    with any failures, publishing the same number again returns the first
    result and leaves every log as it is. *)
Theorem exactly_once_idempotent uuid retries delay m0 before p m env a p1 m1 r after p2 m2
    env2 a2 t hp i pl msg :
  publish_all (NewProducer uuid retries delay) m0 before = (p, m) →
  pa_mode a = ExactlyOnce → Producer_Publish env p m a = (p1, m1, Ok r) →
  publish_all p1 m1 after = (p2, m2) →
  pa_mode a2 = ExactlyOnce → pa_seqNum a2 = pa_seqNum a → pa_clientID a2 = pa_clientID a →
  mg_topics m2 !! pa_topic a2 = Some t →
  HashPartitioner_Assign (mg_partitioner m2) (pa_topic a2) (pa_key a2) = (hp, Ok i) →
  Topic_PartitionLog t i = Ok pl → build_message env2 (tp_cfg t) a2 i = Ok msg →
  ∃ m3, Producer_Publish env2 p2 m2 a2 = (p2, m3, Ok r) ∧ mg_topics m3 = mg_topics m2.
Proof.
  intros Hb Hmode Hpub Haft Hmode2 Hseq Hcid Ht Ha Hpl Hmsg.
  assert (idem_inv p) as Hi.
  { eapply publish_all_idem; [|exact Hb]. intros cid s [o Ho].
    unfold DedupWindow_LookupOffset in Ho. cbn in Ho. by rewrite lookup_empty in Ho. }
  destruct (Publish_recorded _ _ _ _ _ _ _ Hi Hmode Hpub) as (Hs & Hz & Hid).
  destruct (publish_all_keeps _ _ _ _ _ _ _ _ Haft Hs) as [Hs2 Hid2].
  assert (dedup_id p2 a2 = dedup_id p a) as Hd.
  { unfold dedup_id. rewrite Hcid. case_match; congruence. }
  unfold Producer_Publish, Manager_Get. rewrite Ht, Ha. cbn [mg_with mg_topics].
  unfold Topic_Config. rewrite Hpl, Hmsg. unfold publish_to. rewrite Hmode2, Hseq, Hd.
  rewrite (proj2 (Z.eqb_neq _ _)) by done.
  rewrite (cached_result_stored _ _ _ _ _ Hs2).
  eexists. split; [reflexivity|]. by rewrite (update_same _ _ t).
Qed.

(** Retries are bounded: a publish makes at most [maxRetries] waits, hence
    at most one more attempt than that, the first wait is the configured
    delay and no later one exceeds thirty seconds. *)
Theorem retry_bounded env p (l : L) msg l' m' r ds :
  Producer_publishWithRetry env p l msg = (l', m', r, ds) → 0 <= pd_maxRetries p →
  zlen ds <= pd_maxRetries p ∧
  match ds with [] => True | d :: ds => d = pd_retryDelay p ∧ Forall (λ d, d <= max_delay) ds end.
Proof.
  intros Heq Hm. unfold Producer_publishWithRetry in Heq. split.
  - apply retry_loop_bound in Heq. unfold zlen. lia.
  - by eapply retry_loop_delays.
Qed.

End Producers.

(** ** Concrete runs *)

Definition demo_topic {L} (ls : list L) : Topic L :=
  mkTopic (mkTopicConfig "orders" (zlen ls) 1 0 0 0 0 0 "") ls.

Definition demo_mgr {L} (ls : list L) : Manager L :=
  mkManager {["orders"%string := demo_topic ls]}
    (mkHashPartitioner {["orders"%string := zlen ls]} {["orders"%string := 0]}) None.

Definition demo_args (mode : DeliveryMode) (seq : Z) : PubArgs :=
  mkPubArgs "orders" "k" (bytes_of_string "v") ∅ mode seq 0 "client".

Definition demo_env (ios : list AppendIO) : PubEnv := mkPubEnv "id-1" 5 ios [].

Definition demo_built : Message :=
  mkMessage "id-1" "orders" 5 (bytes_of_string "v") ∅ "k" 0 0 0.

Lemma publish_appends_one_witness :
  ∃ p' m', Producer_Publish (demo_env []) (NewProducer "u" 3 100) (demo_mgr [@nil Message])
      (demo_args AtLeastOnce 0) = (p', m', Ok (mkPublishResult "id-1" 0 0)).
Proof.
  destruct (publish_appends_one (demo_env []) (NewProducer "u" 3 100) (demo_mgr [@nil Message])
    (demo_args AtLeastOnce 0) (demo_topic [@nil Message])
    (mg_partitioner (demo_mgr [@nil Message])) 0 [] [] demo_built)
    as (p' & m' & pl' & Hp & _).
  - reflexivity.
  - reflexivity.
  - reflexivity.
  - reflexivity.
  - reflexivity.
  - split; reflexivity.
  - simpl. lia.
  - right. left. reflexivity.
  - exists p', m'. exact Hp.
Defined.

Lemma exactly_once_idempotent_witness :
  ∃ p1 m1 m3, Producer_Publish (demo_env []) (NewProducer "u" 3 100) (demo_mgr [@nil Message])
      (demo_args ExactlyOnce 7) = (p1, m1, Ok (mkPublishResult "id-1" 0 0)) ∧
    Producer_Publish (demo_env []) p1 m1 (demo_args ExactlyOnce 7) =
      (p1, m3, Ok (mkPublishResult "id-1" 0 0)) ∧ mg_topics m3 = mg_topics m1.
Proof.
  destruct (Producer_Publish (demo_env []) (NewProducer "u" 3 100) (demo_mgr [@nil Message])
    (demo_args ExactlyOnce 7)) as [[p1 m1] r] eqn:E.
  assert (r = Ok (mkPublishResult "id-1" 0 0)) as ->.
  { apply (f_equal (λ x, x.2)) in E. vm_compute in E. by symmetry. }
  assert (∃ t, mg_topics m1 !! "orders"%string = Some t ∧
    tp_partitions t = [[set_offset demo_built 0]] ∧ tp_cfg t = tp_cfg (demo_topic [@nil Message]))
    as (t & Ht & Htp & Htc).
  { apply (f_equal (λ x, mg_topics x.1.2)) in E. cbn [fst snd] in E. rewrite <- E.
    exists (mkTopic (tp_cfg (demo_topic [@nil Message])) [[set_offset demo_built 0]]).
    split; [vm_compute; reflexivity|by split]. }
  assert (mg_partitioner m1 = mg_partitioner (demo_mgr [@nil Message])) as Hhp.
  { apply (f_equal (λ x, mg_partitioner x.1.2)) in E. cbn [fst snd] in E. rewrite <- E. vm_compute. reflexivity. }
  destruct (exactly_once_idempotent "u" 3 100 (demo_mgr [@nil Message]) []
    (NewProducer "u" 3 100) (demo_mgr [@nil Message]) (demo_env []) (demo_args ExactlyOnce 7)
    p1 m1 (mkPublishResult "id-1" 0 0) [] p1 m1 (demo_env []) (demo_args ExactlyOnce 7) t
    (mg_partitioner (demo_mgr [@nil Message])) 0 [set_offset demo_built 0] demo_built)
    as (m3 & Hp & Hm); try reflexivity; try done.
  - by rewrite Hhp.
  - unfold Topic_PartitionLog. rewrite Htp. reflexivity.
  - rewrite Htc. reflexivity.
  - exists p1, m1, m3. by split_and!.
Defined.

Definition failing : AppendIO := mkAppendIO rio_fine true (mkWriteIO (Some 0%nat) true None) 0.

Lemma retry_bounded_witness :
  zlen (Producer_publishWithRetry (demo_env [failing; failing; failing]) (NewProducer "u" 2 100)
    (@nil Message) demo_built).2 <= 2.
Proof.
  destruct (Producer_publishWithRetry (demo_env [failing; failing; failing])
    (NewProducer "u" 2 100) (@nil Message) demo_built) as [[[l m] r] ds] eqn:E.
  exact (proj1 (retry_bounded (demo_env [failing; failing; failing]) (NewProducer "u" 2 100)
    [] demo_built l m r ds E ltac:(simpl; lia))).
Defined.

(** ** A failing fsync

    A failed fsync is reported as an error although the record is in the log,
    and the retry appends it again. *)

Definition fresh_pl : PartitionLog :=
  mkPartitionLog
    [mkSegment 0 0 segFileHeader [] 5 1000000 4096 0 "always" RecordVersion 5] 1000000 4096
    "always" false.

Definition sync_fails : AppendIO := mkAppendIO rio_fine true (mkWriteIO None false None) 1.

(** Exactly-once delivery does not survive a failed fsync: one publish
    whose first attempt fails to sync and whose retry succeeds returns one
    result but leaves the message in the log twice. *)
Theorem sync_failure_duplicates :
  ∃ p' m' t pl, Producer_Publish (demo_env [sync_fails; fine_append]) (NewProducer "u" 3 100)
      (demo_mgr [fresh_pl]) (demo_args ExactlyOnce 7) =
      (p', m', Ok (mkPublishResult "id-1" 0 1)) ∧
    mg_topics m' !! "orders"%string = Some t ∧ Topic_PartitionLog t 0 = Ok pl ∧
    PartitionLog_Read rio_fine pl 0 10 =
      Ok [set_offset demo_built 0; set_offset demo_built 1].
Proof.
  destruct (Producer_Publish (demo_env [sync_fails; fine_append]) (NewProducer "u" 3 100)
      (demo_mgr [fresh_pl]) (demo_args ExactlyOnce 7)) as [[p' m'] r] eqn:E.
  vm_compute in E. injection E as <- <- <-.
  eexists _, _, _, _. split_and!; [reflexivity|vm_compute; reflexivity|vm_compute; reflexivity|].
  vm_compute. reflexivity.
Qed.
