(* ===== verification/DeadLetter.v ===== *)
(** * The dead-letter queue: [DeadLetterQueue] of [internal/consumer/consumer.go]

    A bounded queue of undeliverable messages, oldest first, with filtered
    listing, replay, purge and deletion. *)

From S2P Require Import Prelude GoLib Types.

Local Open Scope Z_scope.

(** ** State and operations *)

(** [Original] is a pointer, which may be nil. *)
Record DLQEntry := mkDLQEntry {
  de_Original : option Message;
  de_Group : string;
  de_Reason : string;
  de_Attempts : Z;
  de_ArrivedAt : Z;
}.

#[global] Instance DLQEntry_eq_dec : EqDecision DLQEntry.
Proof. solve_decision. Defined.

Record DeadLetterQueue := mkDLQ {
  q_entries : list DLQEntry;
  q_maxSize : Z;
}.

Definition q_with (q : DeadLetterQueue) (es : list DLQEntry) : DeadLetterQueue :=
  mkDLQ es (q_maxSize q).

Definition NewDLQ (maxSize : Z) : DeadLetterQueue :=
  mkDLQ [] (if maxSize <=? 0 then 10000 else maxSize).

Definition arrived (now : Z) (e : DLQEntry) : DLQEntry :=
  mkDLQEntry (de_Original e) (de_Group e) (de_Reason e) (de_Attempts e) now.

Definition DLQ_Push (now : Z) (q : DeadLetterQueue) (entry : DLQEntry) : DeadLetterQueue :=
  let es := if q_maxSize q <=? zlen (q_entries q) then drop 1 (q_entries q) else q_entries q in
  q_with q (es ++ [arrived now entry]).

Definition DLQ_Drain (q : DeadLetterQueue) : DeadLetterQueue * list DLQEntry :=
  (q_with q [], q_entries q).

Definition DLQ_Len (q : DeadLetterQueue) : Z := zlen (q_entries q).

(** The tests that make the loops [continue]. *)
Definition other_group (group : string) (e : DLQEntry) : bool :=
  negb (bool_decide (group = EmptyString)) && negb (bool_decide (de_Group e = group)).

Definition other_topic (topic : string) (e : DLQEntry) : bool :=
  negb (bool_decide (topic = EmptyString)) &&
  match de_Original e with
  | Some m => negb (bool_decide (msg_Topic m = topic))
  | None => false
  end.

Definition other_id (id : string) (e : DLQEntry) : bool :=
  negb (bool_decide (id = EmptyString)) &&
  match de_Original e with
  | Some m => negb (bool_decide (msg_ID m = id))
  | None => false
  end.

(** The loop of [Entries]; the list is what is left to visit, newest first. *)
Fixpoint entries_loop (group topic : string) (limit : Z) (l out : list DLQEntry) : list DLQEntry :=
  match l with
  | [] => out
  | e :: l' =>
      if zlen out <? limit then
        if other_group group e then entries_loop group topic limit l' out
        else if other_topic topic e then entries_loop group topic limit l' out
        else entries_loop group topic limit l' (out ++ [e])
      else out
  end.

Definition DLQ_Entries (q : DeadLetterQueue) (group topic : string) (limit : Z) : list DLQEntry :=
  let limit := if limit <=? 0 then 100 else limit in
  entries_loop group topic limit (reverse (q_entries q)) [].

Fixpoint replay_loop (group topic : string) (limit : Z) (l removed remaining : list DLQEntry) :
    list DLQEntry * list DLQEntry :=
  match l with
  | [] => (removed, remaining)
  | e :: l' =>
      let matched := zlen removed <? limit in
      let matched := if matched && other_group group e then false else matched in
      let matched := if matched && other_topic topic e then false else matched in
      if matched then replay_loop group topic limit l' (removed ++ [e]) remaining
      else replay_loop group topic limit l' removed (remaining ++ [e])
  end.

Definition DLQ_Replay (q : DeadLetterQueue) (group topic : string) (limit : Z) :
    DeadLetterQueue * list DLQEntry :=
  let limit := if limit <=? 0 then 10 else limit in
  let '(removed, remaining) := replay_loop group topic limit (q_entries q) [] [] in
  (q_with q remaining, removed).

Fixpoint purge_loop (group topic : string) (l : list DLQEntry) (purged : Z)
    (remaining : list DLQEntry) : Z * list DLQEntry :=
  match l with
  | [] => (purged, remaining)
  | e :: l' =>
      let mtch := if other_group group e then false else true in
      let mtch := if mtch && other_topic topic e then false else mtch in
      if mtch then purge_loop group topic l' (purged + 1) remaining
      else purge_loop group topic l' purged (remaining ++ [e])
  end.

Definition DLQ_Purge (q : DeadLetterQueue) (group topic : string) : DeadLetterQueue * Z :=
  let '(purged, remaining) := purge_loop group topic (q_entries q) 0 [] in
  (q_with q remaining, purged).

(** [for i := len(q.entries) - 1; i >= 0; i--]: [n] is [i + 1]. *)
Fixpoint find_back (group topic id : string) (es : list DLQEntry) (n : nat) : option nat :=
  match n with
  | O => None
  | S i =>
      match es !! i with
      | None => None
      | Some e =>
          if other_id id e then find_back group topic id es i
          else if other_group group e then find_back group topic id es i
          else if other_topic topic e then find_back group topic id es i
          else Some i
      end
  end.

Definition DLQ_Get (q : DeadLetterQueue) (group topic id : string) : option DLQEntry :=
  match find_back group topic id (q_entries q) (length (q_entries q)) with
  | Some i => q_entries q !! i
  | None => None
  end.

Definition DLQ_Delete (q : DeadLetterQueue) (group topic id : string) : DeadLetterQueue * bool :=
  match find_back group topic id (q_entries q) (length (q_entries q)) with
  | Some i => (q_with q (take i (q_entries q) ++ drop (S i) (q_entries q)), true)
  | None => (q, false)
  end.

(** ** What the loops select *)

Definition selected (group topic : string) (e : DLQEntry) : Prop :=
  (group = EmptyString ∨ de_Group e = group) ∧
  (topic = EmptyString ∨ ∀ m, de_Original e = Some m → msg_Topic m = topic).

#[global] Instance selected_dec group topic e : Decision (selected group topic e).
Proof.
  unfold selected. destruct (de_Original e) as [m|].
  - destruct (decide (msg_Topic m = topic)) as [Ht|Ht].
    + destruct (decide (group = EmptyString ∨ de_Group e = group)) as [Hg|Hg].
      * left. split; [done|]. right. by intros m' [= <-].
      * right. tauto.
    + destruct (decide ((group = EmptyString ∨ de_Group e = group) ∧ topic = EmptyString)) as [Hg|Hg].
      * left. tauto.
      * right. intros [Hg' [Ht'|Ht']]; [tauto|]. by specialize (Ht' m eq_refl).
  - destruct (decide (group = EmptyString ∨ de_Group e = group)) as [Hg|Hg].
    + left. split; [done|]. by right.
    + right. tauto.
Defined.

Lemma other_selected group topic e :
  other_group group e || other_topic topic e = negb (bool_decide (selected group topic e)).
Proof.
  unfold other_group, other_topic. destruct (decide (selected group topic e)) as [Hs|Hs].
  - rewrite (bool_decide_eq_true_2 _ Hs). destruct Hs as [Hg Ht]. apply orb_false_iff. split.
    + destruct Hg as [->| ->]; [done|]. rewrite (bool_decide_eq_true_2 (group = group)) by done.
      apply andb_false_r.
    + destruct Ht as [->|Ht]; [done|]. destruct (de_Original e) as [m|]; [|apply andb_false_r].
      rewrite (Ht m) by done. rewrite (bool_decide_eq_true_2 (topic = topic)) by done.
      apply andb_false_r.
  - rewrite (bool_decide_eq_false_2 _ Hs). simpl. apply not_false_iff_true. intros Hf. apply Hs.
    apply orb_false_iff in Hf as [Hg Ht]. split.
    + apply andb_false_iff in Hg as [Hg|Hg]; apply negb_false_iff in Hg;
        apply bool_decide_eq_true_1 in Hg; auto.
    + apply andb_false_iff in Ht as [Ht|Ht].
      * apply negb_false_iff, bool_decide_eq_true_1 in Ht. auto.
      * right. intros m Hm. rewrite Hm in Ht. by apply negb_false_iff, bool_decide_eq_true_1 in Ht.
Qed.

Lemma other_cases {A} group topic e (a b : A) :
  (if other_group group e then a else if other_topic topic e then a else b) =
  if decide (selected group topic e) then b else a.
Proof.
  pose proof (other_selected group topic e) as Ho. case_decide as Hs.
  - rewrite (bool_decide_eq_true_2 _ Hs) in Ho. by apply orb_false_iff in Ho as [-> ->].
  - rewrite (bool_decide_eq_false_2 _ Hs) in Ho. by destruct (other_group _ _), (other_topic _ _).
Qed.

Lemma entries_loop_spec group topic limit l out :
  zlen out <= limit →
  entries_loop group topic limit l out =
    out ++ take (Z.to_nat (limit - zlen out)) (filter (selected group topic) l).
Proof.
  revert out. induction l as [|e l IH]; intros out Hle; cbn [entries_loop].
  { by rewrite filter_nil, take_nil, app_nil_r. }
  destruct (Z.ltb_spec (zlen out) limit) as [Hlt|Hge].
  - rewrite other_cases, filter_cons. case_decide as Hs; [|by rewrite IH].
    rewrite IH by (rewrite zlen_app; unfold zlen in *; simpl; lia).
    rewrite <- (assoc_L (++)). f_equal. rewrite zlen_app.
    replace (Z.to_nat (limit - zlen out)) with (S (Z.to_nat (limit - (zlen out + zlen [e]))))
      by (unfold zlen in *; simpl; lia). done.
  - replace (Z.to_nat (limit - zlen out)) with 0%nat by lia. by rewrite take_0, app_nil_r.
Qed.

Lemma replay_matched group topic limit l removed remaining :
  replay_loop group topic limit l removed remaining =
  match l with
  | [] => (removed, remaining)
  | e :: l' =>
      if decide (zlen removed < limit ∧ selected group topic e)
      then replay_loop group topic limit l' (removed ++ [e]) remaining
      else replay_loop group topic limit l' removed (remaining ++ [e])
  end.
Proof.
  destruct l as [|e l]; [done|]. cbn [replay_loop].
  pose proof (other_selected group topic e) as Ho.
  destruct (Z.ltb_spec (zlen removed) limit) as [Hlt|Hge]; cbn [andb].
  - case_decide as Hd.
    + rewrite (bool_decide_eq_true_2 _ (proj2 Hd)) in Ho. by apply orb_false_iff in Ho as [-> ->].
    + rewrite (bool_decide_eq_false_2 (selected group topic e)) in Ho by tauto.
      by destruct (other_group _ _), (other_topic _ _).
  - rewrite decide_False by lia. done.
Qed.

Lemma replay_loop_full group topic limit l removed remaining :
  limit <= zlen removed →
  replay_loop group topic limit l removed remaining = (removed, remaining ++ l).
Proof.
  revert remaining. induction l as [|e l IH]; intros remaining Hle; rewrite replay_matched.
  - by rewrite app_nil_r.
  - rewrite decide_False by lia. rewrite IH by done. by rewrite <- (assoc_L (++)).
Qed.

(** The loop takes the selected entries of the part it walks until the limit
    is reached, and keeps everything else in order. *)
Lemma replay_loop_spec group topic limit l removed remaining :
  zlen removed <= limit →
  ∃ l1 l2, l = l1 ++ l2 ∧
    replay_loop group topic limit l removed remaining =
      (removed ++ filter (selected group topic) l1,
       remaining ++ filter (λ e, ¬ selected group topic e) l1 ++ l2) ∧
    filter (selected group topic) l1 =
      take (Z.to_nat (limit - zlen removed)) (filter (selected group topic) l).
Proof.
  revert removed remaining. induction l as [|e l IH]; intros removed remaining Hle.
  { exists [], []. rewrite !filter_nil, take_nil, !app_nil_r. done. }
  rewrite replay_matched. destruct (decide (limit <= zlen removed)) as [Hfull|Hroom].
  { rewrite decide_False by lia. exists [], (e :: l).
    rewrite replay_loop_full by done. rewrite !filter_nil, !app_nil_r, <- (assoc_L (++)).
    replace (Z.to_nat (limit - zlen removed)) with 0%nat by lia. done. }
  case_decide as Hd.
  - destruct (IH (removed ++ [e]) remaining) as (l1 & l2 & -> & Heq & Hf);
      [rewrite zlen_app; unfold zlen in *; simpl; lia|].
    exists (e :: l1), l2. rewrite Heq, !filter_cons, (decide_True _ _ (proj2 Hd)),
      (decide_True _ _ (proj2 Hd)), (decide_False (P := ¬ _)) by tauto.
    rewrite Hf, zlen_app, <- !(assoc_L (++)). split_and!; [done|done|].
    replace (Z.to_nat (limit - zlen removed)) with (S (Z.to_nat (limit - (zlen removed + zlen [e]))))
      by (unfold zlen in *; simpl; lia). done.
  - assert (¬ selected group topic e) as Hs by (intros Hs; apply Hd; split; [lia|done]).
    destruct (IH removed (remaining ++ [e])) as (l1 & l2 & -> & Heq & Hf); [done|].
    exists (e :: l1), l2. rewrite Heq, !filter_cons, (decide_False _ _ Hs),
      (decide_False _ _ Hs), (decide_True (P := ¬ _)) by done.
    by rewrite Hf, <- !(assoc_L (++)).
Qed.

Lemma purge_loop_spec group topic l purged remaining :
  purge_loop group topic l purged remaining =
    (purged + zlen (filter (selected group topic) l),
     remaining ++ filter (λ e, ¬ selected group topic e) l).
Proof.
  revert purged remaining. induction l as [|e l IH]; intros purged remaining; cbn [purge_loop].
  { by rewrite !filter_nil, zlen_nil, Z.add_0_r, app_nil_r. }
  pose proof (other_selected group topic e) as Ho. rewrite !filter_cons.
  destruct (decide (selected group topic e)) as [Hs|Hs].
  - rewrite (bool_decide_eq_true_2 _ Hs) in Ho. apply orb_false_iff in Ho as [-> ->].
    cbn [andb]. rewrite IH, (decide_False (P := ¬ _)) by tauto. rewrite zlen_cons. f_equal. lia.
  - rewrite (bool_decide_eq_false_2 _ Hs) in Ho. rewrite (decide_True (P := ¬ _)) by done.
    destruct (other_group _ _), (other_topic _ _); try done; cbn [andb];
      rewrite IH, <- (assoc_L (++)); done.
Qed.

(** The entry a lookup by id stops at. *)
Definition addressed (group topic id : string) (e : DLQEntry) : Prop :=
  selected group topic e ∧ (id = EmptyString ∨ ∀ m, de_Original e = Some m → msg_ID m = id).

Lemma other_id_spec id e :
  other_id id e = false ↔ id = EmptyString ∨ ∀ m, de_Original e = Some m → msg_ID m = id.
Proof.
  unfold other_id. rewrite andb_false_iff, negb_false_iff, bool_decide_eq_true.
  destruct (de_Original e) as [m|]; [rewrite negb_false_iff, bool_decide_eq_true|].
  - split; intros [H|H]; auto. right. by intros m' [= <-].
  - split; [|auto]. intros _. by right.
Qed.

(** The newest addressed entry is found; everything after it is not. *)
Lemma find_back_spec group topic id es n :
  (n <= length es)%nat →
  match find_back group topic id es n with
  | Some i => ∃ e, es !! i = Some e ∧ (i < n)%nat ∧ addressed group topic id e ∧
                   ∀ j e', (i < j < n)%nat → es !! j = Some e' → ¬ addressed group topic id e'
  | None => ∀ j e', (j < n)%nat → es !! j = Some e' → ¬ addressed group topic id e'
  end.
Proof.
  induction n as [|n IH]; intros Hn; cbn [find_back]; [intros j e' Hj; lia|].
  destruct (lookup_lt_is_Some_2 es n) as [e He]; [lia|]. rewrite He.
  specialize (IH ltac:(lia)). rewrite other_cases.
  assert (¬ addressed group topic id e →
    match find_back group topic id es n with
    | Some i => ∃ e, es !! i = Some e ∧ (i < S n)%nat ∧ addressed group topic id e ∧
                   ∀ j e', (i < j < S n)%nat → es !! j = Some e' → ¬ addressed group topic id e'
    | None => ∀ j e', (j < S n)%nat → es !! j = Some e' → ¬ addressed group topic id e'
    end) as Hskip.
  { intros Hna. destruct (find_back group topic id es n) as [i|].
    - destruct IH as (e0 & H1 & H2 & H3 & H4). exists e0. split_and!; [done|lia|done|].
      intros j e' Hj Hje. destruct (decide (j = n)) as [->|]; [by simplify_eq|]. apply (H4 j); [lia|done].
    - intros j e' Hj Hje. destruct (decide (j = n)) as [->|]; [by simplify_eq|]. apply (IH j); [lia|done]. }
  destruct (other_id id e) eqn:Hid.
  { apply Hskip. intros [_ Ha]. by apply other_id_spec in Ha; rewrite Ha in Hid. }
  apply other_id_spec in Hid. case_decide as Hs; [|by apply Hskip; intros [Ha _]].
  exists e. split_and!; [done|lia|by split|]. intros j e' Hj. lia.
Qed.

(** ** Properties *)

(** The operations on the queue. *)
Inductive dlq_op :=
| DPush (now : Z) (e : DLQEntry)
| DDrain
| DReplay (group topic : string) (limit : Z)
| DPurge (group topic : string)
| DDelete (group topic id : string).

Definition dlq_step (q : DeadLetterQueue) (o : dlq_op) : DeadLetterQueue :=
  match o with
  | DPush now e => DLQ_Push now q e
  | DDrain => (DLQ_Drain q).1
  | DReplay g t n => (DLQ_Replay q g t n).1
  | DPurge g t => (DLQ_Purge q g t).1
  | DDelete g t id => (DLQ_Delete q g t id).1
  end.

Definition dlq_bounded (q : DeadLetterQueue) : Prop :=
  0 < q_maxSize q ∧ zlen (q_entries q) <= q_maxSize q.

Lemma dlq_step_bounded q o :
  dlq_bounded q → dlq_bounded (dlq_step q o) ∧ q_maxSize (dlq_step q o) = q_maxSize q.
Proof.
  intros [Hpos Hle]. destruct o as [now e| |g t n|g t|g t id]; cbn [dlq_step].
  - unfold DLQ_Push. split; [|done]. split; [done|]. cbn [q_with q_entries q_maxSize].
    rewrite zlen_app. case_match eqn:Hc; unfold zlen in *; rewrite ?length_drop; simpl; lia.
  - split; [|done]. split; [done|]. unfold zlen. simpl. lia.
  - unfold DLQ_Replay. set (n' := if n <=? 0 then 10 else n).
    assert (0 < n') by (unfold n'; case_match; lia).
    destruct (replay_loop_spec g t n' (q_entries q) [] []) as (l1 & l2 & Hl & -> & _);
      [unfold zlen; simpl; lia|].
    split; [|done]. split; [done|]. cbn. rewrite Hl, zlen_app in Hle. rewrite zlen_app.
    pose proof (length_filter (λ e, ¬ selected g t e) l1). unfold zlen in *. lia.
  - unfold DLQ_Purge. rewrite purge_loop_spec. split; [|done]. split; [done|]. cbn.
    pose proof (length_filter (λ e, ¬ selected g t e) (q_entries q)). unfold zlen in *. lia.
  - unfold DLQ_Delete. case_match; [|done]. split; [|done]. split; [done|]. cbn.
    rewrite zlen_app. unfold zlen in *. rewrite length_take, length_drop. lia.
Qed.

(** Pushing [es] onto [old] keeps the newest [n]. *)
Lemma push_all n old (es : list (Z * DLQEntry)) :
  0 < n → zlen old <= n →
  q_entries (foldl (λ q p, DLQ_Push p.1 q p.2) (mkDLQ old n) es) =
    drop (length old + length es - Z.to_nat n) (old ++ ((λ p, arrived p.1 p.2) <$> es)).
Proof.
  revert old. induction es as [|[now e] es IH]; intros old Hn Hle; cbn [foldl fmap list_fmap].
  { rewrite app_nil_r. replace (length old + length [] - Z.to_nat n)%nat with 0%nat
      by (unfold zlen in *; simpl; lia). done. }
  unfold DLQ_Push at 2. cbn [q_with q_entries q_maxSize fst snd].
  destruct (Z.leb_spec n (zlen old)) as [Hf|Hf].
  - assert (zlen (drop 1 old ++ [arrived now e]) = n) as Hl
      by (rewrite zlen_app; unfold zlen in *; rewrite length_drop; simpl; lia).
    unfold q_with. cbn [q_maxSize]. rewrite IH by lia. rewrite <- (assoc_L (++)).
    destruct old as [|x old]; [unfold zlen in *; simpl in *; lia|]. cbn [drop app length].
    rewrite length_app. unfold zlen in *. cbn [length] in *.
    replace (S (length old) + S (length es) - Z.to_nat n)%nat with (S (length old + 1 + length es - Z.to_nat n)) by lia. done.
  - unfold q_with. cbn [q_maxSize]. rewrite IH; [|done|rewrite zlen_app; unfold zlen in *; simpl; lia].
    rewrite <- (assoc_L (++)). f_equal. rewrite length_app. simpl. lia.
Qed.

(** The queue never outgrows its bound and loses only the oldest: after
    any sequence of pushes, drains, replays, purges and deletions it holds at
    most [maxSize] entries, and pushing [es] then leaves exactly the newest
    [maxSize] of what it held followed by [es]. *)
Theorem dlq_bounded_keeps_newest maxSize (ops : list dlq_op) (es : list (Z * DLQEntry)) :
  let q := foldl dlq_step (NewDLQ maxSize) ops in
  let n := q_maxSize (NewDLQ maxSize) in
  zlen (q_entries q) <= n ∧
  q_entries (foldl (λ q p, DLQ_Push p.1 q p.2) q es) =
    drop (length (q_entries q) + length es - Z.to_nat n)
      (q_entries q ++ ((λ p, arrived p.1 p.2) <$> es)).
Proof.
  intros q n.
  assert (dlq_bounded q ∧ q_maxSize q = n) as [[Hpos Hle] Hn].
  { unfold q, n. assert (dlq_bounded (NewDLQ maxSize)) as H0.
    { unfold NewDLQ, dlq_bounded, zlen. cbn. case_match; lia. }
    revert H0. generalize (NewDLQ maxSize) as q0. induction ops as [|o ops IH]; intros q0 H0; [done|].
    cbn [foldl]. destruct (dlq_step_bounded q0 o H0) as [H1 <-]. by apply IH. }
  split; [lia|]. destruct q as [old m]. cbn [q_entries q_maxSize] in *. subst m.
  by apply push_all.
Qed.

(** Every filtered operation acts on exactly the entries it names.
    Listing returns the newest [limit] selected entries; replay removes the
    oldest [limit] selected entries, returns them in order and keeps the
    others in order; purge removes the selected entries and counts them; and
    deletion removes the one entry the lookup returns, the newest with that
    id. *)
Theorem dlq_operations_exact q group topic id limit :
  0 < limit →
  DLQ_Entries q group topic limit =
    take (Z.to_nat limit) (filter (selected group topic) (reverse (q_entries q))) ∧
  (∃ l1 l2, q_entries q = l1 ++ l2 ∧
    DLQ_Replay q group topic limit =
      (q_with q (filter (λ e, ¬ selected group topic e) l1 ++ l2), filter (selected group topic) l1) ∧
    filter (selected group topic) l1 =
      take (Z.to_nat limit) (filter (selected group topic) (q_entries q))) ∧
  DLQ_Purge q group topic =
    (q_with q (filter (λ e, ¬ selected group topic e) (q_entries q)),
     zlen (filter (selected group topic) (q_entries q))) ∧
  match DLQ_Get q group topic id with
  | Some e => ∃ l1 l2, q_entries q = l1 ++ e :: l2 ∧ addressed group topic id e ∧
                Forall (λ e, ¬ addressed group topic id e) l2 ∧
                DLQ_Delete q group topic id = (q_with q (l1 ++ l2), true)
  | None => Forall (λ e, ¬ addressed group topic id e) (q_entries q) ∧
            DLQ_Delete q group topic id = (q, false)
  end.
Proof.
  intros Hlim. unfold DLQ_Entries, DLQ_Replay, DLQ_Purge, DLQ_Get, DLQ_Delete.
  rewrite (proj2 (Z.leb_gt _ _)) by lia. split_and!.
  - rewrite entries_loop_spec by (unfold zlen; simpl; lia). by rewrite zlen_nil, Z.sub_0_r.
  - destruct (replay_loop_spec group topic limit (q_entries q) [] []) as (l1 & l2 & Hl & Heq & Hf);
      [unfold zlen; simpl; lia|].
    exists l1, l2. rewrite Heq. rewrite zlen_nil, Z.sub_0_r in Hf. done.
  - by rewrite purge_loop_spec.
  - pose proof (find_back_spec group topic id (q_entries q) (length (q_entries q)) (le_n _)) as Hf.
    destruct (find_back _ _ _ _ _) as [i|].
    + destruct Hf as (e & He & _ & Ha & Hafter). rewrite He.
      exists (take i (q_entries q)), (drop (S i) (q_entries q)).
      split_and!; [by rewrite take_drop_middle|done| |done].
      apply Forall_lookup. intros j e' Hj. rewrite lookup_drop in Hj.
      apply (Hafter (S i + j)%nat); [|done]. apply lookup_lt_Some in Hj. lia.
    + split; [|done]. apply Forall_lookup. intros j e' Hj.
      apply (Hf j); [by apply lookup_lt_Some in Hj|done].
Qed.

Definition demo_dlq_entry (id topic group : string) : DLQEntry :=
  mkDLQEntry (Some (mkMessage id topic 0 [] ∅ "" 0 0 0)) group "nack" 3 0.

Definition demo_dlq : DeadLetterQueue :=
  mkDLQ [demo_dlq_entry "a" "orders" "g1"; demo_dlq_entry "b" "orders" "g2";
         demo_dlq_entry "c" "orders" "g1"; demo_dlq_entry "d" "logs" "g1"] 10.

Lemma dlq_operations_exact_witness :
  DLQ_Entries demo_dlq "g1" "orders" 1 = [demo_dlq_entry "c" "orders" "g1"] ∧
  (DLQ_Replay demo_dlq "g1" "orders" 1).2 = [demo_dlq_entry "a" "orders" "g1"] ∧
  (DLQ_Purge demo_dlq "g1" "orders").2 = 2.
Proof.
  destruct (dlq_operations_exact demo_dlq "g1" "orders" "c" 1 ltac:(lia))
    as (H1 & (l1 & l2 & _ & H2 & H3) & H4 & _).
  split_and!; [rewrite H1; vm_compute; reflexivity| |rewrite H4; vm_compute; reflexivity].
  rewrite H2. cbn [snd]. rewrite H3. vm_compute. reflexivity.
Defined.
