(* ===== verification/Consumer.v ===== *)
(** * Consumer groups: [internal/consumer/consumer.go]

    Consumers with their bounded channels, groups with their round-robin
    partition assignment, delivery with retries into the dead-letter queue,
    and the manager that keeps the groups of all topics.  The offset store and
    the dead-letter queue are shared by all groups, so they are arguments of a
    group's operations and fields of the manager. *)

From S2P Require Import Prelude GoLib Types Record Segment Partition Topic DeadLetter.

Local Open Scope Z_scope.

(** ** Channels and consumers *)

(** A buffered channel: its messages oldest first. *)
Record Chan := mkChan {
  ch_buf : list Message;
  ch_cap : Z;
  ch_closed : bool;
}.

(** [select { case ch <- m: true; default: false }]; [None] is the panic of a
    send on a closed channel. *)
Definition chan_try_send (ch : Chan) (m : Message) : option (Chan * bool) :=
  if ch_closed ch then None
  else if zlen (ch_buf ch) <? ch_cap ch then
    Some (mkChan (ch_buf ch ++ [m]) (ch_cap ch) false, true)
  else Some (ch, false).

(** A [Sink] is known by a number: only whether there is one matters here. *)
Record Consumer := mkConsumer {
  cs_ID : string;
  cs_Group : string;
  cs_Topic : string;
  cs_ClientID : string;
  cs_assignments : list Z;
  cs_msgCh : Chan;
  cs_done : bool;
  cs_sink : option Z;
  cs_pushCh : option Chan;
}.

Definition Consumer_Assignments (c : Consumer) : list Z := cs_assignments c.

Definition Consumer_SetSink (c : Consumer) (s : option Z) : Consumer :=
  mkConsumer (cs_ID c) (cs_Group c) (cs_Topic c) (cs_ClientID c) (cs_assignments c) (cs_msgCh c)
    (cs_done c) s
    (match s, cs_pushCh c with
     | Some _, None => Some (mkChan [] 512 false)
     | _, p => p
     end).

Definition Consumer_assign (c : Consumer) (partitions : list Z) : Consumer :=
  mkConsumer (cs_ID c) (cs_Group c) (cs_Topic c) (cs_ClientID c) partitions (cs_msgCh c)
    (cs_done c) (cs_sink c) (cs_pushCh c).

Definition with_msgCh (c : Consumer) (ch : Chan) : Consumer :=
  mkConsumer (cs_ID c) (cs_Group c) (cs_Topic c) (cs_ClientID c) (cs_assignments c) ch
    (cs_done c) (cs_sink c) (cs_pushCh c).

Definition with_pushCh (c : Consumer) (ch : Chan) : Consumer :=
  mkConsumer (cs_ID c) (cs_Group c) (cs_Topic c) (cs_ClientID c) (cs_assignments c) (cs_msgCh c)
    (cs_done c) (cs_sink c) (Some ch).

Definition Consumer_deliver (c : Consumer) (m : Message) : option (Consumer * bool) :=
  match cs_pushCh c with
  | Some ch =>
      match chan_try_send ch m with
      | None => None
      | Some (ch', ok) => Some (with_pushCh c ch', ok)
      end
  | None =>
      match chan_try_send (cs_msgCh c) m with
      | None => None
      | Some (ch', ok) => Some (with_msgCh c ch', ok)
      end
  end.

(** [c.cancel(); close(c.msgCh)]; closing twice panics. *)
Definition Consumer_close (c : Consumer) : option Consumer :=
  if ch_closed (cs_msgCh c) then None
  else
    Some (mkConsumer (cs_ID c) (cs_Group c) (cs_Topic c) (cs_ClientID c) (cs_assignments c)
            (mkChan (ch_buf (cs_msgCh c)) (ch_cap (cs_msgCh c)) true) true (cs_sink c) (cs_pushCh c)).

(** ** Groups *)

Record Group := mkGroup {
  gr_id : string;
  gr_topic : string;
  gr_consumers : gmap string Consumer;
  gr_partCount : Z;
  gr_maxRetries : Z;
  gr_retryDelay : Z;
  gr_Rebalancing : bool;
  gr_LastRebalanceAt : Z;
}.

Definition NewGroup (id topic : string) (partCount maxRetries retryDelay : Z) : Group :=
  mkGroup id topic ∅ partCount maxRetries retryDelay false 0.

Definition gr_with (g : Group) (cs : gmap string Consumer) : Group :=
  mkGroup (gr_id g) (gr_topic g) cs (gr_partCount g) (gr_maxRetries g) (gr_retryDelay g)
    (gr_Rebalancing g) (gr_LastRebalanceAt g).

Definition gr_rebalanced (g : Group) (now : Z) : Group :=
  mkGroup (gr_id g) (gr_topic g) (gr_consumers g) (gr_partCount g) (gr_maxRetries g)
    (gr_retryDelay g) false now.

(** The keys of the map under [sort.Strings], which is bytewise order. *)
Definition sorted_ids (cs : gmap string Consumer) : list string :=
  merge_sort String.le (elements (dom cs)).

(** [assignments[cid] = append(assignments[cid], p)] for each partition. *)
Definition assign_step (ids : list string) (a : gmap string (list Z)) (p : Z) :
    gmap string (list Z) :=
  match ids !! Z.to_nat (p mod zlen ids) with
  | Some cid => <[cid := default [] (a !! cid) ++ [p]]> a
  | None => a
  end.

Definition assign_loop (ids : list string) (partCount : Z) : gmap string (list Z) :=
  foldl (assign_step ids) ∅ (seqZ 0 partCount).

Definition Group_rebalance (now : Z) (g : Group) : Group :=
  if bool_decide (gr_consumers g = ∅) then gr_rebalanced g now
  else
    let a := assign_loop (sorted_ids (gr_consumers g)) (gr_partCount g) in
    gr_rebalanced
      (gr_with g (map_imap (λ cid c, Some (Consumer_assign c (default [] (a !! cid)))) (gr_consumers g)))
      now.

Inductive group_err :=
| AlreadyInGroup (consumerID group : string)
| NotInGroup (consumerID group : string)
| InvalidGroupName (group : string)
| GroupNotFound (group topic : string).

Definition new_consumer (g : Group) (consumerID clientID : string) (bufferSize : Z) : Consumer :=
  mkConsumer consumerID (gr_id g) (gr_topic g) clientID [] (mkChan [] bufferSize false) false None None.

Definition Group_Join (now : Z) (g : Group) (consumerID clientID : string) (bufferSize : Z) :
    Group * result unit group_err :=
  match gr_consumers g !! consumerID with
  | Some _ => (g, Error (AlreadyInGroup consumerID (gr_id g)))
  | None =>
      let c := new_consumer g consumerID clientID bufferSize in
      (Group_rebalance now (gr_with g (<[consumerID := c]> (gr_consumers g))), Ok tt)
  end.

(** The new group and the consumer that left, closed; [None] is a panic. *)
Definition Group_Leave (now : Z) (g : Group) (consumerID : string) :
    option (Group * option Consumer) :=
  match gr_consumers g !! consumerID with
  | None => Some (g, None)
  | Some c =>
      match Consumer_close c with
      | None => None
      | Some c' =>
          Some (Group_rebalance now (gr_with g (delete consumerID (gr_consumers g))), Some c')
      end
  end.

(** [order] is the order in which the loop visits the map. *)
Fixpoint dispatch_loop (order : list string) (cs : gmap string Consumer) (m : Message) :
    option (gmap string Consumer * option string) :=
  match order with
  | [] => Some (cs, None)
  | cid :: order' =>
      match cs !! cid with
      | None => dispatch_loop order' cs m
      | Some c =>
          if bool_decide (msg_Partition m ∈ Consumer_Assignments c) then
            match Consumer_deliver c m with
            | None => None
            | Some (c', true) => dispatch_loop order' (<[cid := c']> cs) m
            | Some (c', false) => Some (<[cid := c']> cs, Some cid)
            end
          else dispatch_loop order' cs m
      end
  end.

(** The retries: [env attempt] is what the other goroutines do to the
    consumer while the attempt sleeps. *)
Fixpoint slow_loop (env : Z → Consumer → Consumer) (n : nat) (attempt : Z) (c : Consumer)
    (m : Message) : option (Consumer * bool) :=
  match n with
  | O => Some (c, false)
  | S n =>
      match Consumer_deliver (env attempt c) m with
      | None => None
      | Some (c', true) => Some (c', true)
      | Some (c', false) => slow_loop env n (attempt + 1) c' m
      end
  end.

Definition slow_entry (g : Group) (m : Message) : DLQEntry :=
  mkDLQEntry (Some m) (gr_id g) "consumer channel full after retries" (gr_maxRetries g) 0.

Definition Group_handleSlowConsumer (now : Z) (env : Z → Consumer → Consumer) (g : Group)
    (dlq : option DeadLetterQueue) (c : Consumer) (m : Message) :
    option (Consumer * option DeadLetterQueue) :=
  match slow_loop env (Z.to_nat (gr_maxRetries g)) 1 c m with
  | None => None
  | Some (c', true) => Some (c', dlq)
  | Some (c', false) => Some (c', (λ q, DLQ_Push now q (slow_entry g m)) <$> dlq)
  end.

Definition Group_Dispatch (now : Z) (order : list string) (env : Z → Consumer → Consumer)
    (g : Group) (dlq : option DeadLetterQueue) (m : Message) :
    option (Group * option DeadLetterQueue) :=
  match dispatch_loop order (gr_consumers g) m with
  | None => None
  | Some (cs, None) => Some (gr_with g cs, dlq)
  | Some (cs, Some slow) =>
      match cs !! slow with
      | None => Some (gr_with g cs, dlq)
      | Some c =>
          match Group_handleSlowConsumer now env g dlq c m with
          | None => None
          | Some (c', dlq') => Some (gr_with g (<[slow := c']> cs), dlq')
          end
      end
  end.

Definition Group_CommitOffset (g : Group) (offsets : OffsetStore) (consumerID : string)
    (partID offset : Z) : OffsetStore * result unit group_err :=
  match gr_consumers g !! consumerID with
  | None => (offsets, Error (NotInGroup consumerID (gr_id g)))
  | Some _ => (OffsetStore_Commit offsets (gr_id g) (gr_topic g) partID offset, Ok tt)
  end.

Definition Group_Offset (g : Group) (offsets : OffsetStore) (partID : Z) : Z :=
  OffsetStore_Load offsets (gr_id g) (gr_topic g) partID.

Definition Group_ConsumerCount (g : Group) : Z := Z.of_nat (size (gr_consumers g)).

(** ** The manager *)

(** The expression [^[a-zA-Z0-9][a-zA-Z0-9._-]{0,248}$]. *)
Definition validGroupName (name : string) : bool :=
  match bytes_of_string name with
  | [] => false
  | b :: rest => is_alnum b && forallb is_name_byte rest && (length rest <=? 248)%nat
  end.

Definition groupKey (group topic : string) : string := group +:+ "/" +:+ topic.

Definition groupTopic (key : string) : string :=
  match bytes_last_index Byte.x2f (bytes_of_string key) with
  | Some i => string_of_bytes (drop (S i) (bytes_of_string key))
  | None => key
  end.

Record GroupManager := mkGroupManager {
  gm_groups : gmap string Group;
  gm_offsets : OffsetStore;
  gm_dlq : DeadLetterQueue;
  gm_maxRetries : Z;
  gm_retryDelay : Z;
  gm_bufferSize : Z;
}.

Definition NewGroupManager (offsets : OffsetStore) (dlq : DeadLetterQueue)
    (maxRetries retryDelay bufferSize : Z) : GroupManager :=
  mkGroupManager ∅ offsets dlq maxRetries retryDelay bufferSize.

Definition gm_with (m : GroupManager) (gs : gmap string Group) (o : OffsetStore)
    (q : DeadLetterQueue) : GroupManager :=
  mkGroupManager gs o q (gm_maxRetries m) (gm_retryDelay m) (gm_bufferSize m).

Definition GroupManager_DLQEntries (m : GroupManager) (group topic : string) (limit : Z) :
    list DLQEntry := DLQ_Entries (gm_dlq m) group topic limit.

(** The loop over the replayed entries; [republish] works on a state of its
    own and answers per message. *)
Fixpoint republish_loop {S E} (republish : S → option Message → S * result unit E) (s : S)
    (l : list DLQEntry) (replayed : Z) : S * Z * result unit E :=
  match l with
  | [] => (s, replayed, Ok tt)
  | e :: l' =>
      match republish s (de_Original e) with
      | (s', Error err) => (s', replayed, Error err)
      | (s', Ok _) => republish_loop republish s' l' (replayed + 1)
      end
  end.

Definition GroupManager_DLQReplay {S E} (m : GroupManager) (group topic : string) (limit : Z)
    (republish : S → option Message → S * result unit E) (s : S) : GroupManager * S * Z * result unit E :=
  let '(q, entries) := DLQ_Replay (gm_dlq m) group topic limit in
  let '(s', n, r) := republish_loop republish s entries 0 in
  (gm_with m (gm_groups m) (gm_offsets m) q, s', n, r).

Definition GroupManager_DLQPurge (m : GroupManager) (group topic : string) : GroupManager * Z :=
  let '(q, n) := DLQ_Purge (gm_dlq m) group topic in
  (gm_with m (gm_groups m) (gm_offsets m) q, n).

Definition GroupManager_DLQDelete (m : GroupManager) (group topic id : string) : GroupManager * bool :=
  let '(q, ok) := DLQ_Delete (gm_dlq m) group topic id in
  (gm_with m (gm_groups m) (gm_offsets m) q, ok).

Definition GroupManager_DLQGet (m : GroupManager) (group topic id : string) : option DLQEntry :=
  DLQ_Get (gm_dlq m) group topic id.

Definition GroupManager_Subscribe (now : Z) (m : GroupManager)
    (groupID consumerID clientID topic : string) (partCount : Z) :
    GroupManager * result unit group_err :=
  if negb (validGroupName groupID) then (m, Error (InvalidGroupName groupID))
  else
    let key := groupKey groupID topic in
    let g :=
      match gm_groups m !! key with
      | Some g => g
      | None => NewGroup groupID topic partCount (gm_maxRetries m) (gm_retryDelay m)
      end in
    let '(g', r) := Group_Join now g consumerID clientID (gm_bufferSize m) in
    (gm_with m (<[key := g']> (gm_groups m)) (gm_offsets m) (gm_dlq m), r).

Definition GroupManager_Unsubscribe (now : Z) (m : GroupManager)
    (groupID consumerID topic : string) : option GroupManager :=
  let key := groupKey groupID topic in
  match gm_groups m !! key with
  | None => Some m
  | Some g =>
      match Group_Leave now g consumerID with
      | None => None
      | Some (g', _) => Some (gm_with m (<[key := g']> (gm_groups m)) (gm_offsets m) (gm_dlq m))
      end
  end.

(** [order] is the order in which the loop visits the groups, [corder] and
    [env] what each group's dispatch meets. *)
Fixpoint GroupManager_Dispatch (now : Z) (order : list string) (corder : string → list string)
    (env : string → Z → Consumer → Consumer) (m : GroupManager) (msg : Message) :
    option GroupManager :=
  match order with
  | [] => Some m
  | key :: order' =>
      match gm_groups m !! key with
      | Some g =>
          if bool_decide (groupTopic key = msg_Topic msg) then
            match Group_Dispatch now (corder key) (env key) g (Some (gm_dlq m)) msg with
            | None => None
            | Some (g', q) =>
                GroupManager_Dispatch now order' corder env
                  (gm_with m (<[key := g']> (gm_groups m)) (gm_offsets m) (default (gm_dlq m) q)) msg
            end
          else GroupManager_Dispatch now order' corder env m msg
      | None => GroupManager_Dispatch now order' corder env m msg
      end
  end.

(** The caller's message is changed in place, so it is returned too. *)
Definition GroupManager_DispatchToGroup (now : Z) (corder : list string)
    (env : Z → Consumer → Consumer) (m : GroupManager) (groupID topic : string) (partition : Z)
    (msg : option Message) : option (GroupManager * option Message) :=
  match msg with
  | None => Some (m, None)
  | Some msg =>
      let msg := set_partition msg partition in
      let key := groupKey groupID topic in
      match gm_groups m !! key with
      | None => Some (m, Some msg)
      | Some g =>
          match Group_Dispatch now corder env g (Some (gm_dlq m)) msg with
          | None => None
          | Some (g', q) =>
              Some (gm_with m (<[key := g']> (gm_groups m)) (gm_offsets m) (default (gm_dlq m) q),
                    Some msg)
          end
      end
  end.

Definition GroupManager_CommitOffset (m : GroupManager) (groupID consumerID topic : string)
    (partID offset : Z) : GroupManager * result unit group_err :=
  match gm_groups m !! groupKey groupID topic with
  | None => (m, Error (GroupNotFound groupID topic))
  | Some g =>
      let '(o, r) := Group_CommitOffset g (gm_offsets m) consumerID partID offset in
      (gm_with m (gm_groups m) o (gm_dlq m), r)
  end.

Definition GroupManager_GroupOffset (m : GroupManager) (groupID topic : string) (partID : Z) : Z :=
  OffsetStore_Load (gm_offsets m) groupID topic partID.

Definition GroupManager_HasCommittedOffset (m : GroupManager) (groupID topic : string) (partID : Z) :
    bool := 0 <=? OffsetStore_Load (gm_offsets m) groupID topic partID.

Definition GroupManager_SeekGroupOffset (m : GroupManager) (groupID topic : string)
    (partID offset : Z) : GroupManager :=
  gm_with m (gm_groups m) (OffsetStore_Commit (gm_offsets m) groupID topic partID offset) (gm_dlq m).

(** Where a read for the group starts: after the committed offset, from the
    live group if there is one and else from the store. *)
Definition start_offset (m : GroupManager) (groupID topic : string) (partID : Z) : Z :=
  match gm_groups m !! groupKey groupID topic with
  | Some g =>
      let startOff := Group_Offset g (gm_offsets m) partID in
      if startOff <? 0 then 0 else i64 (startOff + 1)
  | None =>
      let committed := OffsetStore_Load (gm_offsets m) groupID topic partID in
      if 0 <=? committed then i64 (committed + 1) else 0
  end.

Definition GroupManager_ReplayGroup `{LogStore L} (io : ReadIO) (m : GroupManager)
    (groupID topic : string) (partID : Z) (pl : L) (batchSize : Z) : result (list Message) seg_err :=
  ls_read io pl (start_offset m groupID topic partID) batchSize.

Inductive poll_err :=
| PollRead (e : seg_err)
| PollCtx.

(** The poll loop: each round meets the partition log as it is then, and a
    wait that ends with the context ([true]) or with a wake-up.  [None] is a
    poll still waiting when the rounds are used up. *)
Fixpoint poll_loop `{LogStore L} (start batchSize : Z) (rounds : list (ReadIO * L * bool)) :
    option (result (list Message) poll_err) :=
  match rounds with
  | [] => None
  | (io, pl, ctxDone) :: rounds' =>
      match ls_read io pl start batchSize with
      | Error e => Some (Error (PollRead e))
      | Ok msgs =>
          if 0 <? zlen msgs then Some (Ok msgs)
          else if ctxDone : bool then Some (Error PollCtx)
          else poll_loop start batchSize rounds'
      end
  end.

Definition GroupManager_PollPartitionLog `{LogStore L} (m : GroupManager) (groupID topic : string)
    (partID batchSize : Z) (rounds : list (ReadIO * L * bool)) :
    option (result (list Message) poll_err) :=
  poll_loop (start_offset m groupID topic partID) batchSize rounds.

(** ** Group listings *)

Record ConsumerMember := mkConsumerMember {
  me_ConsumerID : string;
  me_Partitions : list Z;
  me_PushMode : bool;
}.

Record GroupPartitionDetail := mkGroupPartitionDetail {
  gpd_Partition : Z;
  gpd_CommittedOffset : Z;
  gpd_CurrentOffset : Z;
  gpd_Lag : Z;
}.

Record GroupDetail := mkGroupDetail {
  gd_Group : string;
  gd_Topic : string;
  gd_Members : list ConsumerMember;
  gd_Rebalancing : bool;
  gd_LastRebalanceAt : Z;
  gd_MaxRetries : Z;
  gd_RetryDelayMs : Z;
  gd_FailedMessageCount : Z;
  gd_Partitions : list GroupPartitionDetail;
}.

Definition member_of (c : Consumer) : ConsumerMember :=
  mkConsumerMember (cs_ID c) (Consumer_Assignments c) (bool_decide (is_Some (cs_sink c))).

Definition partition_detail (o : OffsetStore) (group topic : string) (logHead : string → Z → Z)
    (i : Z) : GroupPartitionDetail :=
  let committed := OffsetStore_Load o group topic i in
  let current := logHead topic i in
  let lag := i64 (current - committed) in
  mkGroupPartitionDetail i committed current (if lag <? 0 then 0 else lag).

(** [order] is the order in which the loop visits the members. *)
Definition GroupManager_GetGroupDetail (m : GroupManager) (groupID topic : string)
    (logHead : string → Z → Z) (order : list string) : option GroupDetail :=
  match gm_groups m !! groupKey groupID topic with
  | None => None
  | Some g =>
      Some (mkGroupDetail groupID topic
        (member_of <$> omap (λ cid, gr_consumers g !! cid) order)
        (gr_Rebalancing g) (gr_LastRebalanceAt g) (gr_maxRetries g)
        (Z.quot (gr_retryDelay g) 1000000)
        (zlen (DLQ_Entries (gm_dlq m) groupID topic 0))
        (partition_detail (gm_offsets m) groupID topic logHead <$> seqZ 0 (gr_partCount g)))
  end.

Record GroupSummary := mkGroupSummary {
  gs_Group : string;
  gs_Topic : string;
  gs_ActiveConsumers : Z;
  gs_CommittedOffsets : list (Z * Z);
  gs_Rebalancing : bool;
  gs_LastRebalanceAt : Z;
}.

Definition GroupManager_ListGroups (m : GroupManager) (order : list string) : list GroupSummary :=
  (λ g, mkGroupSummary (gr_id g) (gr_topic g) (Z.of_nat (size (gr_consumers g)))
     ((λ i, (i, OffsetStore_Load (gm_offsets m) (gr_id g) (gr_topic g) i)) <$> seqZ 0 (gr_partCount g))
     (gr_Rebalancing g) (gr_LastRebalanceAt g))
  <$> omap (λ key, gm_groups m !! key) order.

(** ** Assignment *)

Lemma sorted_ids_elem cs cid : cid ∈ sorted_ids cs ↔ is_Some (cs !! cid).
Proof. unfold sorted_ids. by rewrite merge_sort_Permutation, elem_of_elements, elem_of_dom. Qed.

Lemma sorted_ids_nodup cs : NoDup (sorted_ids cs).
Proof. unfold sorted_ids. rewrite merge_sort_Permutation. apply NoDup_elements. Qed.

Lemma sorted_ids_length cs : length (sorted_ids cs) = size cs.
Proof. unfold sorted_ids. rewrite merge_sort_Permutation. by rewrite <- size_dom. Qed.

Lemma assign_loop_lookup ids n cid :
  default [] (assign_loop ids n !! cid) = filter (λ p, round_robin ids p = Some cid) (seqZ 0 n).
Proof.
  unfold assign_loop. generalize (seqZ 0 n) as ps. intros ps.
  induction ps as [|p ps IH] using rev_ind; [done|].
  rewrite foldl_app, filter_app, <- IH. cbn [foldl]. unfold assign_step at 1. fold (round_robin ids p).
  rewrite filter_cons, filter_nil. destruct (round_robin ids p) as [cid'|]; [|by rewrite decide_False, app_nil_r].
  destruct (decide (cid' = cid)) as [->|Hne].
  - rewrite lookup_insert_eq, decide_True by done. done.
  - rewrite lookup_insert_ne, decide_False, app_nil_r by congruence. done.
Qed.

(** Each consumer has the floor or the ceiling of an even share. *)
Lemma assign_loop_count ids n cid :
  NoDup ids → cid ∈ ids → 0 <= n →
  let c := zlen (default [] (assign_loop ids n !! cid)) in
  n / zlen ids <= c <= (n + zlen ids - 1) / zlen ids.
Proof. intros Hnd Hin Hn. cbv zeta. rewrite assign_loop_lookup. by apply round_robin_count. Qed.

(** ** The invariant of a group *)

Definition open_consumer (c : Consumer) : Prop :=
  ch_closed (cs_msgCh c) = false ∧ ∀ ch, cs_pushCh c = Some ch → ch_closed ch = false.

(** The share of a consumer is the one the last rebalance gave it. *)
Definition group_ok (g : Group) : Prop :=
  ∀ cid c, gr_consumers g !! cid = Some c →
    cs_assignments c = default [] (assign_loop (sorted_ids (gr_consumers g)) (gr_partCount g) !! cid) ∧
    open_consumer c.

Lemma sorted_ids_dom cs cs' : dom cs = dom cs' → sorted_ids cs = sorted_ids cs'.
Proof. unfold sorted_ids. by intros ->. Qed.

(** Changing consumers in ways that keep shares and channels open. *)
Lemma group_ok_insert g cid c c' :
  group_ok g → gr_consumers g !! cid = Some c → cs_assignments c' = cs_assignments c →
  open_consumer c' → group_ok (gr_with g (<[cid := c']> (gr_consumers g))).
Proof.
  intros Hg Hc Ha Ho cid' c0. cbn [gr_with gr_consumers gr_partCount].
  rewrite (sorted_ids_dom _ (gr_consumers g)).
  2: { rewrite dom_insert_lookup_L; [done|by eexists]. }
  destruct (decide (cid = cid')) as [<-|Hne].
  - rewrite lookup_insert_eq. intros [= <-]. rewrite Ha. split; [by apply Hg|done].
  - rewrite lookup_insert_ne by done. apply Hg.
Qed.

Lemma rebalance_ok now g :
  (∀ cid c, gr_consumers g !! cid = Some c → open_consumer c) → group_ok (Group_rebalance now g).
Proof.
  intros Ho cid c Hc. unfold Group_rebalance in *. case_bool_decide as He.
  { cbn [gr_rebalanced gr_consumers] in Hc. rewrite He in Hc. by rewrite lookup_empty in Hc. }
  cbn [gr_rebalanced gr_with gr_consumers gr_partCount] in *.
  rewrite map_lookup_imap in Hc. apply bind_Some in Hc as (c0 & Hc0 & [= <-]).
  split; [|by apply (Ho _ _ Hc0)]. cbn [Consumer_assign cs_assignments].
  rewrite (sorted_ids_dom (map_imap _ _) (gr_consumers g)); [done|].
  apply set_eq. intros k. rewrite !elem_of_dom, map_lookup_imap.
  destruct (gr_consumers g !! k); simpl; split; intros [x Hx]; try discriminate Hx;
    by eexists.
Qed.

Lemma Group_Join_ok now g cid client size g' r :
  group_ok g → Group_Join now g cid client size = (g', r) → group_ok g'.
Proof.
  intros Hg Hj. unfold Group_Join in Hj. destruct (gr_consumers g !! cid) eqn:Hc; simplify_eq; [done|].
  apply rebalance_ok. intros cid' c'. cbn [gr_with gr_consumers].
  destruct (decide (cid = cid')) as [<-|Hne].
  - rewrite lookup_insert_eq. intros [= <-]. by split.
  - rewrite lookup_insert_ne by done. intros Hc'. by apply (Hg _ _ Hc').
Qed.

Lemma Group_Leave_ok now g cid :
  group_ok g → ∃ g' c, Group_Leave now g cid = Some (g', c) ∧ group_ok g'.
Proof.
  intros Hg. unfold Group_Leave. destruct (gr_consumers g !! cid) as [c|] eqn:Hc; [|by eauto].
  unfold Consumer_close. destruct (Hg _ _ Hc) as [_ [Ho _]]. rewrite Ho.
  eexists _, _. split; [done|]. apply rebalance_ok. intros cid' c'. cbn [gr_with gr_consumers].
  intros Hd. apply lookup_delete_Some in Hd as [_ Hd]. by apply (Hg _ _ Hd).
Qed.

(** ** Delivery *)

(** The channel a delivery goes to, whether it has room, and the delivery. *)
Definition inbox (c : Consumer) : Chan := default (cs_msgCh c) (cs_pushCh c).

Definition has_room (c : Consumer) : bool := zlen (ch_buf (inbox c)) <? ch_cap (inbox c).

Definition received (c : Consumer) (m : Message) : Consumer :=
  let ch := mkChan (ch_buf (inbox c) ++ [m]) (ch_cap (inbox c)) false in
  match cs_pushCh c with
  | Some _ => with_pushCh c ch
  | None => with_msgCh c ch
  end.

Lemma deliver_spec c m :
  open_consumer c →
  Consumer_deliver c m = Some (if has_room c then (received c m, true) else (c, false)).
Proof.
  intros [Ho Hp]. unfold Consumer_deliver, received, has_room, inbox, chan_try_send.
  destruct c as [i g t cl a ch d s [p|]]; cbn in *.
  - rewrite (Hp p) by done. by destruct (zlen (ch_buf p) <? ch_cap p).
  - rewrite Ho. by destruct (zlen (ch_buf ch) <? ch_cap ch).
Qed.

Lemma received_ok c m :
  open_consumer c → open_consumer (received c m) ∧ cs_assignments (received c m) = cs_assignments c.
Proof.
  intros [Ho Hp]. unfold received, open_consumer. destruct (cs_pushCh c) as [p|] eqn:E; cbn.
  - split; [|done]. split; [done|]. by intros ch [= <-].
  - split; [|done]. split; [done|]. rewrite E. done.
Qed.

(** What the other goroutines may do while a retry sleeps: drain channels and
    set sinks, but not close the consumer or move its share. *)
Definition env_ok (env : Z → Consumer → Consumer) : Prop :=
  ∀ a c, cs_assignments (env a c) = cs_assignments c ∧ (open_consumer c → open_consumer (env a c)).

(** The consumer after [n] waits from attempt [a] on. *)
Fixpoint after (env : Z → Consumer → Consumer) (n : nat) (a : Z) (c : Consumer) : Consumer :=
  match n with
  | O => c
  | S n => after env n (a + 1) (env a c)
  end.

Lemma after_ok env n a c :
  env_ok env → open_consumer c →
  open_consumer (after env n a c) ∧ cs_assignments (after env n a c) = cs_assignments c.
Proof.
  intros He. revert a c. induction n as [|n IH]; intros a c Ho; [done|]. cbn [after].
  destruct (He a c) as [Ha Ho']. rewrite <- Ha. by apply IH, Ho'.
Qed.

(** The retries end with the first one that meets room, or with none. *)
Lemma slow_loop_spec env n a c m :
  env_ok env → open_consumer c →
  (∃ k, (0 < k <= n)%nat ∧ has_room (after env k a c) = true ∧
        (∀ j, (0 < j < k)%nat → has_room (after env j a c) = false) ∧
        slow_loop env n a c m = Some (received (after env k a c) m, true)) ∨
  ((∀ k, (0 < k <= n)%nat → has_room (after env k a c) = false) ∧
   slow_loop env n a c m = Some (after env n a c, false)).
Proof.
  intros He. revert a c. induction n as [|n IH]; intros a c Ho; cbn [slow_loop].
  { right. split; [lia|done]. }
  rewrite deliver_spec by by apply He. destruct (has_room (env a c)) eqn:Hr.
  - left. exists 1%nat. split_and!; [lia|lia|done|lia|done].
  - destruct (IH (a + 1) (env a c)) as [(k & Hk & Hroom & Hbef & ->)|[Hfull ->]]; [by apply He| |].
    + left. exists (S k). split_and!; [lia|lia|done| |done].
      intros [|[|j]] Hj; [lia|done|]. cbn [after]. apply (Hbef (S j)). lia.
    + right. split; [|done]. intros [|k] Hk; [lia|]. cbn [after].
      destruct k as [|k]; [done|]. apply Hfull. lia.
Qed.

Lemma dispatch_loop_skip order rest cs m :
  (∀ cid c, cid ∈ order → cs !! cid = Some c → msg_Partition m ∉ cs_assignments c) →
  dispatch_loop (order ++ rest) cs m = dispatch_loop rest cs m.
Proof.
  induction order as [|cid order IH]; intros Hs; [done|]. cbn [app dispatch_loop].
  rewrite IH by (intros cid' c' Hin; apply Hs; by right).
  destruct (cs !! cid) as [c|] eqn:Hc; [|done].
  rewrite bool_decide_eq_false_2; [done|]. apply (Hs cid c); [by left|done].
Qed.

(** Without [env_ok] the retries panic: when a pull consumer is closed (it
    unsubscribes) while the first retry sleeps, the retry sends on the closed
    channel. *)
Lemma retry_after_close_panics now g dlq c c' m :
  Consumer_close c = Some c' → cs_pushCh c = None → 0 < gr_maxRetries g →
  Group_handleSlowConsumer now (λ _ _, c') g dlq c m = None.
Proof.
  unfold Consumer_close. intros Hc Hp Hr. destruct (ch_closed (cs_msgCh c)); simplify_eq.
  unfold Group_handleSlowConsumer. destruct (Z.to_nat (gr_maxRetries g)) eqn:E; [lia|].
  cbn [slow_loop]. unfold Consumer_deliver. cbn. by rewrite Hp.
Qed.

(** In a rebalanced group a partition is in the share of its owner alone. *)
Lemma share_owner g cid c p :
  group_ok g → gr_consumers g !! cid = Some c → 0 <= p < gr_partCount g →
  p ∈ cs_assignments c ↔ round_robin (sorted_ids (gr_consumers g)) p = Some cid.
Proof.
  intros Hg Hc Hp. destruct (Hg _ _ Hc) as [-> _].
  rewrite assign_loop_lookup, list_elem_of_filter, elem_of_seqZ. intuition lia.
Qed.

Lemma share_in_range g cid c p :
  group_ok g → gr_consumers g !! cid = Some c → p ∈ cs_assignments c → 0 <= p < gr_partCount g.
Proof.
  intros Hg Hc. destruct (Hg _ _ Hc) as [-> _].
  rewrite assign_loop_lookup, list_elem_of_filter, elem_of_seqZ. lia.
Qed.

(** The loop over the members offers the message to the owner, once. *)
Lemma dispatch_loop_owner g order m cid c :
  group_ok g → NoDup order → cid ∈ order → gr_consumers g !! cid = Some c →
  0 <= msg_Partition m < gr_partCount g →
  round_robin (sorted_ids (gr_consumers g)) (msg_Partition m) = Some cid →
  dispatch_loop order (gr_consumers g) m =
    Some (if has_room c then (<[cid := received c m]> (gr_consumers g), None)
          else (gr_consumers g, Some cid)).
Proof.
  intros Hg Hnd Hin Hc Hp How. apply list_elem_of_split in Hin as (l1 & l2 & ->).
  apply NoDup_app in Hnd as (_ & Hl1 & Hl2). apply NoDup_cons in Hl2 as [Hl2 _].
  assert (∀ cid' c', gr_consumers g !! cid' = Some c' → cid' ≠ cid →
    msg_Partition m ∉ cs_assignments c') as Hother.
  { intros cid' c' Hc' Hne Hm. apply (share_owner g cid' c') in Hm; [congruence|done..]. }
  rewrite dispatch_loop_skip.
  2: { intros cid' c' Hin' Hc'. apply (Hother cid'); [done|]. intros ->. apply (Hl1 cid Hin'). by left. }
  cbn [dispatch_loop]. rewrite Hc, bool_decide_eq_true_2 by by apply (share_owner g cid c).
  rewrite deliver_spec by by apply (Hg _ _ Hc).
  destruct (has_room c); [|by rewrite insert_id].
  rewrite <- (app_nil_r l2). rewrite dispatch_loop_skip; [done|]. intros cid' c' Hin' Hc'.
  assert (cid' ≠ cid) as Hne by congruence. rewrite lookup_insert_ne in Hc' by done.
  by apply (Hother cid').
Qed.

(** Where a dispatch leaves the message: at the first attempt that meets room,
    every earlier one having met a full channel, or in the queue. *)
Inductive dispatched (env : Z → Consumer → Consumer) (now : Z) (g : Group)
    (dlq : option DeadLetterQueue) (cid : string) (c : Consumer) (m : Message) :
    Group → option DeadLetterQueue → Prop :=
| to_consumer k :
    (k <= Z.to_nat (gr_maxRetries g))%nat → has_room (after env k 1 c) = true →
    (∀ j, (j < k)%nat → has_room (after env j 1 c) = false) →
    dispatched env now g dlq cid c m
      (gr_with g (<[cid := received (after env k 1 c) m]> (gr_consumers g))) dlq
| to_dlq :
    (∀ k, (k <= Z.to_nat (gr_maxRetries g))%nat → has_room (after env k 1 c) = false) →
    dispatched env now g dlq cid c m
      (gr_with g (<[cid := after env (Z.to_nat (gr_maxRetries g)) 1 c]> (gr_consumers g)))
      ((λ q, DLQ_Push now q (slow_entry g m)) <$> dlq).

Lemma Group_Dispatch_owner now order env g dlq m cid c :
  group_ok g → env_ok env → NoDup order → cid ∈ order → gr_consumers g !! cid = Some c →
  0 <= msg_Partition m < gr_partCount g →
  round_robin (sorted_ids (gr_consumers g)) (msg_Partition m) = Some cid →
  ∃ g' dlq', Group_Dispatch now order env g dlq m = Some (g', dlq') ∧
    dispatched env now g dlq cid c m g' dlq'.
Proof.
  intros Hg He Hnd Hin Hc Hp How. unfold Group_Dispatch.
  rewrite (dispatch_loop_owner g order m cid c) by done.
  destruct (has_room c) eqn:Hr.
  { eexists _, _. split; [done|]. by apply (to_consumer _ _ _ _ _ _ _ 0); [lia| |lia]. }
  rewrite Hc. unfold Group_handleSlowConsumer.
  destruct (slow_loop_spec env (Z.to_nat (gr_maxRetries g)) 1 c m He) as [(k & Hk & Hroom & Hbef & ->)|[Hfull ->]];
    [by apply (Hg _ _ Hc)| |].
  - eexists _, _. split; [done|]. apply to_consumer; [lia|done|].
    intros [|j] Hj; [done|]. apply Hbef. lia.
  - eexists _, _. split; [done|]. apply to_dlq. intros [|k] Hk; [done|]. apply Hfull. lia.
Qed.

(** Nobody owns a partition of an empty group or out of range. *)
Lemma Group_Dispatch_none now order env g dlq m :
  group_ok g → (gr_consumers g = ∅ ∨ ¬ 0 <= msg_Partition m < gr_partCount g) →
  Group_Dispatch now order env g dlq m = Some (g, dlq).
Proof.
  intros Hg Hn. unfold Group_Dispatch.
  rewrite <- (app_nil_r order), dispatch_loop_skip; [by destruct g|].
  intros cid c _ Hc Hm. destruct Hn as [He|Hn].
  - rewrite He in Hc. by rewrite lookup_empty in Hc.
  - by apply Hn, (share_in_range g cid c).
Qed.

Lemma Group_Dispatch_ok now order env g dlq m :
  group_ok g → env_ok env → NoDup order → (∀ cid, cid ∈ order ↔ is_Some (gr_consumers g !! cid)) →
  ∃ g' dlq', Group_Dispatch now order env g dlq m = Some (g', dlq') ∧ group_ok g'.
Proof.
  intros Hg He Hnd Hor.
  destruct (decide (gr_consumers g = ∅ ∨ ¬ 0 <= msg_Partition m < gr_partCount g)) as [Hn|Hy].
  { exists g, dlq. by rewrite Group_Dispatch_none. }
  destruct (decide (gr_consumers g = ∅)) as [?|Hne]; [tauto|].
  assert (0 <= msg_Partition m < gr_partCount g) as Hp
    by (destruct (decide (0 <= msg_Partition m < gr_partCount g)); tauto).
  destruct (round_robin_some (sorted_ids (gr_consumers g)) (msg_Partition m)) as (cid & How & Hin).
  { intros Hnil. apply Hne, map_empty. intros cid. apply eq_None_not_Some. intros Hs.
    apply sorted_ids_elem in Hs. rewrite Hnil in Hs. by apply elem_of_nil in Hs. }
  apply sorted_ids_elem in Hin as [c Hc].
  destruct (Group_Dispatch_owner now order env g dlq m cid c) as (g' & q' & Heq & Hd); try done.
  { apply Hor. by eexists. }
  exists g', q'. split; [done|]. destruct (Hg _ _ Hc) as [_ Ho]. destruct Hd as [k Hk _ _|_].
  - destruct (after_ok env k 1 c He Ho) as [Ho' Ha]. destruct (received_ok _ m Ho') as [Hr Hs].
    eapply group_ok_insert; [done..|congruence|done].
  - destruct (after_ok env (Z.to_nat (gr_maxRetries g)) 1 c He Ho) as [Ho' Ha].
    by eapply group_ok_insert.
Qed.

(** ** The invariant of the manager *)

Definition gm_ok (m : GroupManager) : Prop :=
  ∀ key g, gm_groups m !! key = Some g →
    key = groupKey (gr_id g) (gr_topic g) ∧ validGroupName (gr_id g) = true ∧ group_ok g.

Lemma NewGroup_ok id topic n r d : group_ok (NewGroup id topic n r d).
Proof. intros cid c. cbn. by rewrite lookup_empty. Qed.

Lemma gm_ok_insert m key g o q :
  gm_ok m → key = groupKey (gr_id g) (gr_topic g) → validGroupName (gr_id g) = true → group_ok g →
  gm_ok (gm_with m (<[key := g]> (gm_groups m)) o q).
Proof.
  intros Hm Hk Hv Hg key' g'. cbn. rewrite lookup_insert_Some. intros [[<- <-]|[_ H]]; [done|by apply Hm].
Qed.

(** A group name has no separator, so the key determines group and topic. *)
Lemma name_byte_no_slash b : is_name_byte b = true → b ≠ Byte.x2f.
Proof. by intros H ->. Qed.

Lemma validGroupName_no_slash g : validGroupName g = true → Byte.x2f ∉ bytes_of_string g.
Proof.
  unfold validGroupName. destruct (bytes_of_string g) as [|b rest]; [done|].
  rewrite !andb_true_iff. intros [[Hb Hr] _] [<-|Hin]%elem_of_cons; [done|].
  rewrite forallb_forall in Hr. apply list_elem_of_In in Hin. apply Hr in Hin. by vm_compute in Hin.
Qed.

Lemma groupKey_bytes g t :
  bytes_of_string (groupKey g t) = bytes_of_string g ++ Byte.x2f :: bytes_of_string t.
Proof. unfold groupKey. by rewrite !bytes_of_string_app. Qed.

Lemma groupKey_inj g1 t1 g2 t2 :
  validGroupName g1 = true → validGroupName g2 = true →
  groupKey g1 t1 = groupKey g2 t2 → g1 = g2 ∧ t1 = t2.
Proof.
  intros Hv1 Hv2 Hk. apply (f_equal bytes_of_string) in Hk. rewrite !groupKey_bytes in Hk.
  assert (length (bytes_of_string g1) = length (bytes_of_string g2)) as Hl.
  { pose proof (f_equal (bytes_index Byte.x2f) Hk) as Hi.
    rewrite !bytes_index_app in Hi by by apply validGroupName_no_slash. by injection Hi. }
  apply app_inj_1 in Hk as [Hg [= Ht]]; [|done].
  rewrite <- (string_of_bytes_of_string g1), <- (string_of_bytes_of_string t1).
  by rewrite Hg, Ht, !string_of_bytes_of_string.
Qed.

(** The operations of a group keep its name. *)
Lemma Group_Join_name now g cid client size :
  gr_id (Group_Join now g cid client size).1 = gr_id g ∧
  gr_topic (Group_Join now g cid client size).1 = gr_topic g.
Proof.
  unfold Group_Join. case_match; [done|]. unfold Group_rebalance. by case_bool_decide.
Qed.

Lemma Group_Leave_name now g cid g' c :
  Group_Leave now g cid = Some (g', c) → gr_id g' = gr_id g ∧ gr_topic g' = gr_topic g.
Proof.
  unfold Group_Leave. case_match; [|by intros [= <- <-]]. case_match; [|done]. intros [= <- <-].
  unfold Group_rebalance. by case_bool_decide.
Qed.

Lemma Group_Dispatch_name now order env g dlq m g' q' :
  Group_Dispatch now order env g dlq m = Some (g', q') →
  gr_id g' = gr_id g ∧ gr_topic g' = gr_topic g.
Proof. unfold Group_Dispatch. intros H. repeat (case_match; simplify_eq; try done). Qed.

Lemma Subscribe_ok now m group cid client topic n :
  gm_ok m → gm_ok (GroupManager_Subscribe now m group cid client topic n).1.
Proof.
  intros Hm. unfold GroupManager_Subscribe. destruct (validGroupName group) eqn:Hv; [|done].
  cbn [negb]. set (g := match _ !! _ with Some _ => _ | None => _ end).
  assert (groupKey group topic = groupKey (gr_id g) (gr_topic g) ∧ validGroupName (gr_id g) = true ∧ group_ok g)
    as (Hk & Hv' & Hg).
  { unfold g. destruct (gm_groups m !! groupKey group topic) as [g0|] eqn:E.
    - by apply Hm.
    - split_and!; [done|done|apply NewGroup_ok]. }
  destruct (Group_Join_name now g cid client (gm_bufferSize m)) as [H1 H2].
  destruct (Group_Join now g cid client (gm_bufferSize m)) as [g' r] eqn:Ej. cbn [fst] in *.
  apply gm_ok_insert; [done|congruence|congruence|]. by eapply Group_Join_ok.
Qed.

Lemma Unsubscribe_ok now m group cid topic :
  gm_ok m → ∃ m', GroupManager_Unsubscribe now m group cid topic = Some m' ∧ gm_ok m'.
Proof.
  intros Hm. unfold GroupManager_Unsubscribe.
  destruct (gm_groups m !! groupKey group topic) as [g|] eqn:E; [|by eauto].
  destruct (Hm _ _ E) as (Hk & Hv & Hg).
  destruct (Group_Leave_ok now g cid Hg) as (g' & c & Hl & Hg'). rewrite Hl.
  destruct (Group_Leave_name _ _ _ _ _ Hl) as [H1 H2].
  eexists. split; [done|]. apply gm_ok_insert; [done|congruence..|done].
Qed.

(** The orders in which the loops visit the groups and their members. *)
Definition orders_ok (m : GroupManager) (order : list string) (corder : string → list string) : Prop :=
  NoDup order ∧
  ∀ key g, key ∈ order → gm_groups m !! key = Some g →
    NoDup (corder key) ∧ ∀ cid, cid ∈ corder key ↔ is_Some (gr_consumers g !! cid).

Lemma Dispatch_gm_ok now order corder env m msg :
  gm_ok m → (∀ key, env_ok (env key)) → orders_ok m order corder →
  ∃ m', GroupManager_Dispatch now order corder env m msg = Some m' ∧ gm_ok m'.
Proof.
  intros Hm He [Hnd Hc]. revert m Hm Hc.
  induction Hnd as [|key order Hni Hnd IH]; intros m Hm Hc; cbn [GroupManager_Dispatch]; [by eauto|].
  assert (∀ k g, k ∈ order → gm_groups m !! k = Some g →
    NoDup (corder k) ∧ ∀ cid, cid ∈ corder k ↔ is_Some (gr_consumers g !! cid)) as Hc'
    by (intros k g Hk; apply Hc; by right).
  destruct (gm_groups m !! key) as [g|] eqn:E; [|by apply IH].
  case_bool_decide; [|by apply IH].
  destruct (Hm _ _ E) as (Hk & Hv & Hg). destruct (Hc key g) as [Hcn Hci]; [by left|done|].
  destruct (Group_Dispatch_ok now (corder key) (env key) g (Some (gm_dlq m)) msg)
    as (g' & q' & Hd & Hg'); [done..|].
  rewrite Hd. destruct (Group_Dispatch_name _ _ _ _ _ _ _ _ Hd) as [H1 H2].
  apply IH; [apply gm_ok_insert; [done|congruence..|done]|].
  intros k g0 Hin. cbn. rewrite lookup_insert_ne by congruence. by apply Hc'.
Qed.

(** ** Properties *)

(** The operations that change the groups. *)
Inductive group_op :=
| GSubscribe (now : Z) (group cid client topic : string) (partCount : Z)
| GUnsubscribe (now : Z) (group cid topic : string)
| GDispatch (now : Z) (order : list string) (corder : string → list string)
    (env : string → Z → Consumer → Consumer) (msg : Message).

Definition group_op_ok (m : GroupManager) (o : group_op) : Prop :=
  match o with
  | GDispatch _ order corder env _ => (∀ key, env_ok (env key)) ∧ orders_ok m order corder
  | _ => True
  end.

Definition group_step (m : GroupManager) (o : group_op) : option GroupManager :=
  match o with
  | GSubscribe now g cid cl t n => Some (GroupManager_Subscribe now m g cid cl t n).1
  | GUnsubscribe now g cid t => GroupManager_Unsubscribe now m g cid t
  | GDispatch now order corder env msg => GroupManager_Dispatch now order corder env m msg
  end.

(** The managers that sequences of operations lead to. *)
Inductive gm_reachable (m0 : GroupManager) : GroupManager → Prop :=
| gm_start : gm_reachable m0 m0
| gm_next m o m' :
    gm_reachable m0 m → group_op_ok m o → group_step m o = Some m' → gm_reachable m0 m'.

Lemma group_step_ok m o :
  gm_ok m → group_op_ok m o → ∃ m', group_step m o = Some m' ∧ gm_ok m'.
Proof.
  intros Hm Ho. destruct o as [now g cid cl t n|now g cid t|now order corder env msg]; cbn [group_step].
  - eexists. split; [done|]. by apply Subscribe_ok.
  - by apply Unsubscribe_ok.
  - destruct Ho as [He Ho]. by apply Dispatch_gm_ok.
Qed.

Lemma reachable_ok o q r d b m : gm_reachable (NewGroupManager o q r d b) m → gm_ok m.
Proof.
  induction 1 as [|m o' m' _ IH Ho Hs].
  - intros key g. cbn. by rewrite lookup_empty.
  - destruct (group_step_ok m o' IH Ho) as (m'' & Hs' & Hok). by simplify_eq.
Qed.

(** C19: partition assignment: in every state that subscriptions, departures and
    dispatches lead to, no other goroutine closing a consumer or moving its
    share while a dispatch retry sleeps ([env_ok]; without it see
    [retry_after_close_panics]), no operation panics, and in every group with
    members each partition belongs to exactly one member and the share of any
    member is an even share, rounded down or up. *)
Theorem group_assignment_balanced offsets dlq r d b m key g :
  gm_reachable (NewGroupManager offsets dlq r d b) m →
  gm_groups m !! key = Some g → gr_consumers g ≠ ∅ →
  (∀ o, group_op_ok m o → is_Some (group_step m o)) ∧
  (∀ p, 0 <= p < gr_partCount g →
     ∃ cid c, gr_consumers g !! cid = Some c ∧ p ∈ cs_assignments c ∧
       ∀ cid' c', gr_consumers g !! cid' = Some c' → p ∈ cs_assignments c' → cid' = cid) ∧
  (∀ cid c, gr_consumers g !! cid = Some c → 0 <= gr_partCount g →
     let n := Group_ConsumerCount g in
     gr_partCount g / n <= zlen (cs_assignments c) <= (gr_partCount g + n - 1) / n).
Proof.
  intros Hr Hg Hne. pose proof (reachable_ok _ _ _ _ _ _ Hr) as Hm.
  destruct (Hm _ _ Hg) as (_ & _ & Hok). split_and!.
  - intros o Ho. destruct (group_step_ok m o Hm Ho) as (m' & -> & _). by eexists.
  - intros p Hp. destruct (round_robin_some (sorted_ids (gr_consumers g)) p) as (cid & How & Hin).
    { intros Hnil. apply Hne, map_empty. intros cid. apply eq_None_not_Some. intros Hs.
      apply sorted_ids_elem in Hs. rewrite Hnil in Hs. by apply elem_of_nil in Hs. }
    apply sorted_ids_elem in Hin as [c Hc]. exists cid, c. split_and!; [done| |].
    + by apply (share_owner g cid c).
    + intros cid' c' Hc' Hp'. apply (share_owner g cid' c') in Hp'; [congruence|done..].
  - intros cid c Hc Hn n. destruct (Hok _ _ Hc) as [-> _]. unfold n, Group_ConsumerCount.
    rewrite <- sorted_ids_length. apply assign_loop_count; [apply sorted_ids_nodup| |done].
    apply sorted_ids_elem. by eexists.
Qed.

(** C16: exactly-one delivery within a group: provided no other goroutine closes
    the consumer or moves its share while a retry sleeps ([env_ok]), a
    dispatched message of a partition of the group is offered to the partition's
    owner and to nobody else; it ends in that consumer's channel, on the first
    of at most [1 + maxRetries] attempts that finds room (all earlier ones found
    the channel full), or, when all attempts find the channel full, in the dead-
    letter queue. *)
Theorem dispatch_exactly_once now order env g dlq m :
  group_ok g → env_ok env → NoDup order → (∀ cid, cid ∈ order ↔ is_Some (gr_consumers g !! cid)) →
  gr_consumers g ≠ ∅ → 0 <= msg_Partition m < gr_partCount g →
  ∃ cid c g' dlq', gr_consumers g !! cid = Some c ∧ msg_Partition m ∈ cs_assignments c ∧
    Group_Dispatch now order env g dlq m = Some (g', dlq') ∧
    dispatched env now g dlq cid c m g' dlq'.
Proof.
  intros Hg He Hnd Hor Hne Hp.
  destruct (round_robin_some (sorted_ids (gr_consumers g)) (msg_Partition m)) as (cid & How & Hin).
  { intros Hnil. apply Hne, map_empty. intros cid. apply eq_None_not_Some. intros Hs.
    apply sorted_ids_elem in Hs. rewrite Hnil in Hs. by apply elem_of_nil in Hs. }
  apply sorted_ids_elem in Hin as [c Hc].
  destruct (Group_Dispatch_owner now order env g dlq m cid c) as (g' & q' & Heq & Hd); try done.
  { apply Hor. by eexists. }
  exists cid, c, g', q'. split_and!; [done| |done|done]. by apply (share_owner g cid c).
Qed.

(** C32: resuming after a commit: once a member has committed offset [o] of a
    partition, the group reads on with exactly the stored messages after [o];
    everything it has not committed is delivered again. *)
Theorem resume_after_commit `{LogStore L} io (l : L) ms m m' group cid topic p o n :
  gm_ok m → ls_inv l ms → rio_open io = true → rio_seek io = true → 0 <= o < 2 ^ 63 - 1 →
  validGroupName group = true →
  GroupManager_CommitOffset m group cid topic p o = (m', Ok tt) →
  GroupManager_ReplayGroup io m' group topic p l n =
    Ok (take (Z.to_nat n) (filter (λ m, o < msg_Offset m) ms)).
Proof.
  intros Hm Hl Ho Hk Hr Hv Hc. unfold GroupManager_CommitOffset in Hc.
  destruct (gm_groups m !! groupKey group topic) as [g|] eqn:Hg; [|done].
  destruct (Hm _ _ Hg) as (Hkey & Hv' & _).
  apply groupKey_inj in Hkey as [-> ->]; [|done..]. unfold Group_CommitOffset in Hc.
  destruct (gr_consumers g !! cid); [|done]. simplify_eq. unfold GroupManager_ReplayGroup.
  assert (start_offset (gm_with m (gm_groups m)
    (OffsetStore_Commit (gm_offsets m) (gr_id g) (gr_topic g) p o) (gm_dlq m)) (gr_id g) (gr_topic g) p = o + 1)
    as ->.
  { unfold start_offset. cbn [gm_with gm_groups gm_offsets]. rewrite Hg.
    unfold Group_Offset. rewrite OffsetStore_Load_Commit. rewrite (proj2 (Z.ltb_ge _ _)) by lia.
    apply i64_id. unfold is_i64. lia. }
  rewrite (ls_read_ok io l ms) by done. unfold read_from. do 2 f_equal.
  apply list_filter_iff. intros m0. lia.
Qed.

(** ** A concrete group *)

Definition demo_gm0 : GroupManager := NewGroupManager NewOffsetStore (NewDLQ 10) 1 0 1.

Definition demo_gm : GroupManager :=
  (GroupManager_Subscribe 2 (GroupManager_Subscribe 1 demo_gm0 "g" "c1" "k1" "orders" 3).1
    "g" "c2" "k2" "orders" 3).1.

Lemma demo_gm_reachable : gm_reachable demo_gm0 demo_gm.
Proof.
  apply (gm_next _ (GroupManager_Subscribe 1 demo_gm0 "g" "c1" "k1" "orders" 3).1
    (GSubscribe 2 "g" "c2" "k2" "orders" 3)); [|done|done].
  by apply (gm_next _ demo_gm0 (GSubscribe 1 "g" "c1" "k1" "orders" 3)); [constructor|done|done].
Qed.

Definition demo_consumer (id client : string) (parts : list Z) : Consumer :=
  mkConsumer id "g" "orders" client parts (mkChan [] 1 false) false None None.

Definition demo_group : Group :=
  mkGroup "g" "orders"
    (<["c1" := demo_consumer "c1" "k1" [0; 2]]> {["c2" := demo_consumer "c2" "k2" [1]]})
    3 1 0 false 2.

Lemma demo_gm_group : gm_groups demo_gm !! groupKey "g" "orders" = Some demo_group.
Proof. vm_compute. reflexivity. Qed.

Lemma demo_group_ok : group_ok demo_group.
Proof. apply (reachable_ok _ _ _ _ _ _ demo_gm_reachable _ _ demo_gm_group). Qed.

Definition demo_event (p : Z) : Message := mkMessage "id" "orders" 5 [] ∅ "" p 0 0.

Lemma group_assignment_balanced_witness :
  ∃ cid c, gr_consumers demo_group !! cid = Some c ∧ 2 ∈ cs_assignments c.
Proof.
  destruct (group_assignment_balanced NewOffsetStore (NewDLQ 10) 1 0 1 demo_gm
    (groupKey "g" "orders") demo_group) as (_ & Hp & _).
  - exact demo_gm_reachable.
  - exact demo_gm_group.
  - intros He. apply (f_equal (λ m, m !! "c1")) in He. vm_compute in He. discriminate He.
  - destruct (Hp 2) as (cid & c & Hc & Hin & _); [vm_compute; split; congruence|eauto].
Defined.

Lemma dispatch_exactly_once_witness :
  ∃ cid c g' q', gr_consumers demo_group !! cid = Some c ∧
    Group_Dispatch 9 ["c2"; "c1"] (λ _ c, c) demo_group None (demo_event 2) = Some (g', q').
Proof.
  destruct (dispatch_exactly_once 9 ["c2"; "c1"] (λ _ c, c) demo_group None (demo_event 2))
    as (cid & c & g' & q' & Hc & _ & Hd & _).
  - exact demo_group_ok.
  - intros a c. by split.
  - apply (bool_decide_unpack _). vm_compute. exact I.
  - intros cid. rewrite !elem_of_cons, elem_of_nil. unfold demo_group. cbn [gr_consumers].
    rewrite lookup_insert_is_Some, lookup_singleton_is_Some.
    destruct (decide (cid = "c1")); intuition congruence.
  - intros He. apply (f_equal (λ m, m !! "c1")) in He. vm_compute in He. discriminate He.
  - vm_compute. split; congruence.
  - eauto 10.
Defined.

Lemma resume_after_commit_witness :
  GroupManager_ReplayGroup rio_fine (GroupManager_CommitOffset demo_gm "g" "c1" "orders" 2 0).1
    "g" "orders" 2 [set_offset (demo_event 2) 0; set_offset (demo_event 2) 1] 10 =
  Ok [set_offset (demo_event 2) 1].
Proof.
  rewrite (resume_after_commit rio_fine
    [set_offset (demo_event 2) 0; set_offset (demo_event 2) 1]
    [set_offset (demo_event 2) 0; set_offset (demo_event 2) 1] demo_gm
    (GroupManager_CommitOffset demo_gm "g" "c1" "orders" 2 0).1 "g" "c1" "orders" 2 0 10).
  - reflexivity.
  - exact (reachable_ok _ _ _ _ _ _ demo_gm_reachable).
  - reflexivity.
  - reflexivity.
  - reflexivity.
  - lia.
  - reflexivity.
  - vm_compute. reflexivity.
Defined.
