(* ===== verification/RaftRpc.v ===== *)
(** * Raft messages: [internal/cluster/raft/rpc.go] and [state.go]

    The log entries, the persistent state, the four RPC payloads with their
    JSON forms and the message envelope. *)

From S2P Require Import Prelude GoLib Json.

Local Open Scope Z_scope.

(** ** Data *)

Inductive Role :=
| Follower
| Candidate
| Leader.

#[global] Instance Role_eq_dec : EqDecision Role.
Proof. solve_decision. Defined.

Record LogEntry := mkLogEntry {
  le_Term : Z;
  le_Index : Z;
  le_Command : bytes;
}.

#[global] Instance LogEntry_eq_dec : EqDecision LogEntry.
Proof. solve_decision. Defined.

Record PersistentState := mkPersistentState {
  ps_CurrentTerm : Z;
  ps_VotedFor : string;
  ps_Log : list LogEntry;
}.

Definition MsgRaftRequestVote : Z := 20.
Definition MsgRaftVoteResponse : Z := 21.
Definition MsgRaftAppendEntries : Z := 22.
Definition MsgRaftAppendResponse : Z := 23.

Record RaftMessage := mkRaftMessage {
  rm_Type : Z;
  rm_From : string;
  rm_Term : Z;
  rm_Body : bytes;
}.

#[global] Instance RaftMessage_eq_dec : EqDecision RaftMessage.
Proof. solve_decision. Defined.

Record RequestVoteArgs := mkRequestVoteArgs {
  rv_Term : Z;
  rv_CandidateID : string;
  rv_LastLogIndex : Z;
  rv_LastLogTerm : Z;
}.

Record RequestVoteReply := mkRequestVoteReply {
  vr_Term : Z;
  vr_VoteGranted : bool;
}.

Record AppendEntriesArgs := mkAppendEntriesArgs {
  ae_Term : Z;
  ae_LeaderID : string;
  ae_PrevLogIndex : Z;
  ae_PrevLogTerm : Z;
  ae_Entries : list LogEntry;
  ae_LeaderCommit : Z;
}.

Record AppendEntriesReply := mkAppendEntriesReply {
  ar_Term : Z;
  ar_Success : bool;
  ar_MatchIndex : Z;
  ar_ConflictIndex : Z;
  ar_ConflictTerm : Z;
}.

(** [b, _ := json.Marshal(v)]: an error leaves no bytes. *)
Definition encodeJSON {A} `{JsonCodec A} (v : A) : bytes := default [] (json_Marshal v).

Definition decodeJSON {A} `{JsonCodec A} (data : bytes) : option A := json_Unmarshal data.

Lemma decode_encode {A} `{JsonCodec A} (v : A) : json_wf v → decodeJSON (encodeJSON v) = Some v.
Proof.
  intros Hv. destruct (json_roundtrip v Hv) as (b & Hm & Hu).
  unfold decodeJSON, encodeJSON. by rewrite Hm.
Qed.

(** ** The JSON forms *)

Definition u64_max : Z := 2 ^ 64 - 1.

Definition is_u64_field (z : Z) : Prop := 0 <= z <= u64_max.

(** *** LogEntry *)

Definition LogEntry_fields (e : LogEntry) : list (bytes * json) :=
  put "Term" (JNum (le_Term e)) ++
  put "Index" (JNum (le_Index e)) ++
  put "Command" (JStr (b64_encode (le_Command e))) ++ [].

Definition LogEntry_of (l : list (bytes * json)) : option LogEntry :=
  match get_int 0 u64_max "Term" l, get_int 0 u64_max "Index" l, get_bytes "Command" l with
  | Some t, Some i, Some c => Some (mkLogEntry t i c)
  | _, _, _ => None
  end.

Definition LogEntry_wf (e : LogEntry) : Prop := is_u64_field (le_Term e) ∧ is_u64_field (le_Index e).

Lemma LogEntry_of_fields e : LogEntry_wf e → LogEntry_of (LogEntry_fields e) = Some e.
Proof.
  intros [Ht Hi]. unfold LogEntry_of, LogEntry_fields, is_u64_field in *.
  rewrite (get_int_eq _ _ "Term" _ (le_Term e) false) by jfield_solve.
  rewrite (get_int_eq _ _ "Index" _ (le_Index e) false) by jfield_solve.
  rewrite (get_bytes_eq "Command" _ (le_Command e)) by jfield_solve.
  by destruct e.
Qed.

Lemma LogEntry_valid e : json_valid (JObj (LogEntry_fields e)) = true.
Proof.
  unfold LogEntry_fields. rewrite !members_valid_put.
  assert (json_valid (JStr (b64_encode (le_Command e))) = true) as ->
    by apply utf8_valid_ascii, b64_encode_ascii.
  done.
Qed.

(** *** RequestVoteArgs *)

Definition RequestVoteArgs_fields (a : RequestVoteArgs) : list (bytes * json) :=
  put "Term" (JNum (rv_Term a)) ++
  put "CandidateID" (jstr (rv_CandidateID a)) ++
  put "LastLogIndex" (JNum (rv_LastLogIndex a)) ++
  put "LastLogTerm" (JNum (rv_LastLogTerm a)) ++ [].

Definition RequestVoteArgs_of (l : list (bytes * json)) : option RequestVoteArgs :=
  match get_int 0 u64_max "Term" l, get_str "CandidateID" l with
  | Some t, Some c =>
      match get_int 0 u64_max "LastLogIndex" l, get_int 0 u64_max "LastLogTerm" l with
      | Some i, Some lt => Some (mkRequestVoteArgs t c i lt)
      | _, _ => None
      end
  | _, _ => None
  end.

Definition RequestVoteArgs_wf (a : RequestVoteArgs) : Prop :=
  is_u64_field (rv_Term a) ∧ str_valid (rv_CandidateID a) = true ∧
  is_u64_field (rv_LastLogIndex a) ∧ is_u64_field (rv_LastLogTerm a).

Lemma RequestVoteArgs_json_roundtrip a :
  RequestVoteArgs_wf a →
  ∃ b, Some (print (JObj (RequestVoteArgs_fields a))) = Some b ∧
       unmarshal_with RequestVoteArgs_of b = Some a.
Proof.
  intros (Ht & Hc & Hi & Hl). eexists. split; [reflexivity|]. rewrite unmarshal_with_print.
  - unfold RequestVoteArgs_of, RequestVoteArgs_fields, is_u64_field in *.
    rewrite (get_int_eq _ _ "Term" _ (rv_Term a) false) by jfield_solve.
    rewrite (get_str_eq "CandidateID" _ (rv_CandidateID a) false) by jfield_solve.
    rewrite (get_int_eq _ _ "LastLogIndex" _ (rv_LastLogIndex a) false) by jfield_solve.
    rewrite (get_int_eq _ _ "LastLogTerm" _ (rv_LastLogTerm a) false) by jfield_solve.
    by destruct a.
  - unfold RequestVoteArgs_fields. rewrite !members_valid_put. unfold str_valid in *.
    cbn [json_valid jstr]. by rewrite Hc.
Qed.

#[global] Instance RequestVoteArgsJson : JsonCodec RequestVoteArgs := {|
  json_Marshal := λ a, Some (print (JObj (RequestVoteArgs_fields a)));
  json_Unmarshal := unmarshal_with RequestVoteArgs_of;
  json_wf := RequestVoteArgs_wf;
  json_roundtrip := RequestVoteArgs_json_roundtrip;
|}.

(** *** RequestVoteReply *)

Definition RequestVoteReply_fields (r : RequestVoteReply) : list (bytes * json) :=
  put "Term" (JNum (vr_Term r)) ++ put "VoteGranted" (JBool (vr_VoteGranted r)) ++ [].

Definition RequestVoteReply_of (l : list (bytes * json)) : option RequestVoteReply :=
  match get_int 0 u64_max "Term" l, get_bool "VoteGranted" l with
  | Some t, Some g => Some (mkRequestVoteReply t g)
  | _, _ => None
  end.

Definition RequestVoteReply_wf (r : RequestVoteReply) : Prop := is_u64_field (vr_Term r).

Lemma RequestVoteReply_json_roundtrip r :
  RequestVoteReply_wf r →
  ∃ b, Some (print (JObj (RequestVoteReply_fields r))) = Some b ∧
       unmarshal_with RequestVoteReply_of b = Some r.
Proof.
  intros Ht. eexists. split; [reflexivity|]. rewrite unmarshal_with_print by done.
  unfold RequestVoteReply_of, RequestVoteReply_fields, RequestVoteReply_wf, is_u64_field in *.
  rewrite (get_int_eq _ _ "Term" _ (vr_Term r) false) by jfield_solve.
  rewrite (get_bool_eq "VoteGranted" _ (vr_VoteGranted r) false) by jfield_solve.
  by destruct r.
Qed.

#[global] Instance RequestVoteReplyJson : JsonCodec RequestVoteReply := {|
  json_Marshal := λ r, Some (print (JObj (RequestVoteReply_fields r)));
  json_Unmarshal := unmarshal_with RequestVoteReply_of;
  json_wf := RequestVoteReply_wf;
  json_roundtrip := RequestVoteReply_json_roundtrip;
|}.

(** *** AppendEntriesArgs *)

Definition AppendEntriesArgs_fields (a : AppendEntriesArgs) : list (bytes * json) :=
  put "Term" (JNum (ae_Term a)) ++
  put "LeaderID" (jstr (ae_LeaderID a)) ++
  put "PrevLogIndex" (JNum (ae_PrevLogIndex a)) ++
  put "PrevLogTerm" (JNum (ae_PrevLogTerm a)) ++
  put "Entries" (jobjs LogEntry_fields (ae_Entries a)) ++
  put "LeaderCommit" (JNum (ae_LeaderCommit a)) ++ [].

Definition AppendEntriesArgs_of (l : list (bytes * json)) : option AppendEntriesArgs :=
  match get_int 0 u64_max "Term" l, get_str "LeaderID" l, get_int 0 u64_max "PrevLogIndex" l with
  | Some t, Some id, Some pi =>
      match get_int 0 u64_max "PrevLogTerm" l, get_objs LogEntry_of "Entries" l,
            get_int 0 u64_max "LeaderCommit" l with
      | Some pt, Some es, Some lc => Some (mkAppendEntriesArgs t id pi pt es lc)
      | _, _, _ => None
      end
  | _, _, _ => None
  end.

Definition AppendEntriesArgs_wf (a : AppendEntriesArgs) : Prop :=
  is_u64_field (ae_Term a) ∧ str_valid (ae_LeaderID a) = true ∧
  is_u64_field (ae_PrevLogIndex a) ∧ is_u64_field (ae_PrevLogTerm a) ∧
  Forall LogEntry_wf (ae_Entries a) ∧ is_u64_field (ae_LeaderCommit a).

Lemma AppendEntriesArgs_json_roundtrip a :
  AppendEntriesArgs_wf a →
  ∃ b, Some (print (JObj (AppendEntriesArgs_fields a))) = Some b ∧
       unmarshal_with AppendEntriesArgs_of b = Some a.
Proof.
  intros (Ht & Hid & Hpi & Hpt & He & Hc). eexists. split; [reflexivity|].
  rewrite unmarshal_with_print.
  - unfold AppendEntriesArgs_of, AppendEntriesArgs_fields, is_u64_field in *.
    rewrite (get_int_eq _ _ "Term" _ (ae_Term a) false) by jfield_solve.
    rewrite (get_str_eq "LeaderID" _ (ae_LeaderID a) false) by jfield_solve.
    rewrite (get_int_eq _ _ "PrevLogIndex" _ (ae_PrevLogIndex a) false) by jfield_solve.
    rewrite (get_int_eq _ _ "PrevLogTerm" _ (ae_PrevLogTerm a) false) by jfield_solve.
    rewrite (get_objs_eq LogEntry_of LogEntry_fields "Entries" _ (ae_Entries a)).
    2: by jfield_eval.
    2: { eapply Forall_impl; [exact He|]. apply LogEntry_of_fields. }
    rewrite (get_int_eq _ _ "LeaderCommit" _ (ae_LeaderCommit a) false) by jfield_solve.
    by destruct a.
  - unfold AppendEntriesArgs_fields. rewrite !members_valid_put. unfold str_valid in *.
    rewrite jobjs_valid by (by apply Forall_true; intros e; apply LogEntry_valid).
    cbn [json_valid jstr]. by rewrite Hid.
Qed.

#[global] Instance AppendEntriesArgsJson : JsonCodec AppendEntriesArgs := {|
  json_Marshal := λ a, Some (print (JObj (AppendEntriesArgs_fields a)));
  json_Unmarshal := unmarshal_with AppendEntriesArgs_of;
  json_wf := AppendEntriesArgs_wf;
  json_roundtrip := AppendEntriesArgs_json_roundtrip;
|}.

(** *** AppendEntriesReply *)

Definition AppendEntriesReply_fields (r : AppendEntriesReply) : list (bytes * json) :=
  put "Term" (JNum (ar_Term r)) ++
  put "Success" (JBool (ar_Success r)) ++
  put "MatchIndex" (JNum (ar_MatchIndex r)) ++
  put "ConflictIndex" (JNum (ar_ConflictIndex r)) ++
  put "ConflictTerm" (JNum (ar_ConflictTerm r)) ++ [].

Definition AppendEntriesReply_of (l : list (bytes * json)) : option AppendEntriesReply :=
  match get_int 0 u64_max "Term" l, get_bool "Success" l, get_int 0 u64_max "MatchIndex" l with
  | Some t, Some s, Some m =>
      match get_int 0 u64_max "ConflictIndex" l, get_int 0 u64_max "ConflictTerm" l with
      | Some ci, Some ct => Some (mkAppendEntriesReply t s m ci ct)
      | _, _ => None
      end
  | _, _, _ => None
  end.

Definition AppendEntriesReply_wf (r : AppendEntriesReply) : Prop :=
  is_u64_field (ar_Term r) ∧ is_u64_field (ar_MatchIndex r) ∧
  is_u64_field (ar_ConflictIndex r) ∧ is_u64_field (ar_ConflictTerm r).

Lemma AppendEntriesReply_json_roundtrip r :
  AppendEntriesReply_wf r →
  ∃ b, Some (print (JObj (AppendEntriesReply_fields r))) = Some b ∧
       unmarshal_with AppendEntriesReply_of b = Some r.
Proof.
  intros (Ht & Hm & Hi & Hc). eexists. split; [reflexivity|]. rewrite unmarshal_with_print by done.
  unfold AppendEntriesReply_of, AppendEntriesReply_fields, is_u64_field in *.
  rewrite (get_int_eq _ _ "Term" _ (ar_Term r) false) by jfield_solve.
  rewrite (get_bool_eq "Success" _ (ar_Success r) false) by jfield_solve.
  rewrite (get_int_eq _ _ "MatchIndex" _ (ar_MatchIndex r) false) by jfield_solve.
  rewrite (get_int_eq _ _ "ConflictIndex" _ (ar_ConflictIndex r) false) by jfield_solve.
  rewrite (get_int_eq _ _ "ConflictTerm" _ (ar_ConflictTerm r) false) by jfield_solve.
  by destruct r.
Qed.

#[global] Instance AppendEntriesReplyJson : JsonCodec AppendEntriesReply := {|
  json_Marshal := λ r, Some (print (JObj (AppendEntriesReply_fields r)));
  json_Unmarshal := unmarshal_with AppendEntriesReply_of;
  json_wf := AppendEntriesReply_wf;
  json_roundtrip := AppendEntriesReply_json_roundtrip;
|}.
