(* ===== verification/Raft.v ===== *)
(** * A Raft node: [internal/cluster/raft/{node,election,replication,log}.go]

    One node as a record and one function per handler, each returning the
    node and the messages it hands to the transport.  [None] is an
    out-of-range slice index, which would panic. *)

From S2P Require Import Prelude GoLib Json RaftRpc.

Local Open Scope Z_scope.

(** ** The node *)

(** [nd_store] is what the persistent store holds and [nd_saves] whether its
    [Save] succeeds; [nd_proposals] are the indices somebody waits for,
    [nd_acked] those whose waiter was woken and [nd_applied] the commands
    handed to [apply]. *)
Record Node := mkNode {
  nd_selfID : string;
  nd_peers : list string;
  nd_peerAddrMap : gmap string string;
  nd_saves : bool;
  nd_store : PersistentState;
  nd_state : PersistentState;
  nd_role : Role;
  nd_leaderID : string;
  nd_leaderKnown : bool;
  nd_commitIndex : Z;
  nd_lastApplied : Z;
  nd_nextIndex : gmap string Z;
  nd_matchIndex : gmap string Z;
  nd_voteGranted : gset string;
  nd_proposals : gset Z;
  nd_acked : list Z;
  nd_applied : list bytes;
}.

Definition zero_state : PersistentState := mkPersistentState 0 "" [].

Definition NewNode (selfID : string) (peers : list string) (addrs : gmap string string)
    (saves : bool) (store : PersistentState) : Node :=
  mkNode selfID peers addrs saves store zero_state Follower "" false 0 0 ∅ ∅ ∅ ∅ [] [].

Definition set_state (n : Node) (s : PersistentState) : Node :=
  mkNode (nd_selfID n) (nd_peers n) (nd_peerAddrMap n) (nd_saves n) (nd_store n) s (nd_role n)
    (nd_leaderID n) (nd_leaderKnown n) (nd_commitIndex n) (nd_lastApplied n) (nd_nextIndex n)
    (nd_matchIndex n) (nd_voteGranted n) (nd_proposals n) (nd_acked n) (nd_applied n).

Definition set_store (n : Node) (s : PersistentState) : Node :=
  mkNode (nd_selfID n) (nd_peers n) (nd_peerAddrMap n) (nd_saves n) s (nd_state n) (nd_role n)
    (nd_leaderID n) (nd_leaderKnown n) (nd_commitIndex n) (nd_lastApplied n) (nd_nextIndex n)
    (nd_matchIndex n) (nd_voteGranted n) (nd_proposals n) (nd_acked n) (nd_applied n).

Definition set_role (n : Node) (r : Role) (leaderID : string) (known : bool) : Node :=
  mkNode (nd_selfID n) (nd_peers n) (nd_peerAddrMap n) (nd_saves n) (nd_store n) (nd_state n) r
    leaderID known (nd_commitIndex n) (nd_lastApplied n) (nd_nextIndex n) (nd_matchIndex n)
    (nd_voteGranted n) (nd_proposals n) (nd_acked n) (nd_applied n).

Definition set_votes (n : Node) (v : gset string) : Node :=
  mkNode (nd_selfID n) (nd_peers n) (nd_peerAddrMap n) (nd_saves n) (nd_store n) (nd_state n)
    (nd_role n) (nd_leaderID n) (nd_leaderKnown n) (nd_commitIndex n) (nd_lastApplied n)
    (nd_nextIndex n) (nd_matchIndex n) v (nd_proposals n) (nd_acked n) (nd_applied n).

Definition set_indexes (n : Node) (next mtch : gmap string Z) : Node :=
  mkNode (nd_selfID n) (nd_peers n) (nd_peerAddrMap n) (nd_saves n) (nd_store n) (nd_state n)
    (nd_role n) (nd_leaderID n) (nd_leaderKnown n) (nd_commitIndex n) (nd_lastApplied n) next mtch
    (nd_voteGranted n) (nd_proposals n) (nd_acked n) (nd_applied n).

Definition set_commit (n : Node) (commitIndex : Z) : Node :=
  mkNode (nd_selfID n) (nd_peers n) (nd_peerAddrMap n) (nd_saves n) (nd_store n) (nd_state n)
    (nd_role n) (nd_leaderID n) (nd_leaderKnown n) commitIndex (nd_lastApplied n) (nd_nextIndex n)
    (nd_matchIndex n) (nd_voteGranted n) (nd_proposals n) (nd_acked n) (nd_applied n).

Definition set_proposals (n : Node) (ps : gset Z) : Node :=
  mkNode (nd_selfID n) (nd_peers n) (nd_peerAddrMap n) (nd_saves n) (nd_store n) (nd_state n)
    (nd_role n) (nd_leaderID n) (nd_leaderKnown n) (nd_commitIndex n) (nd_lastApplied n)
    (nd_nextIndex n) (nd_matchIndex n) (nd_voteGranted n) ps (nd_acked n) (nd_applied n).

(** One entry applied: [lastApplied] is [idx] and its waiter, if any, is woken. *)
Definition applied_one (n : Node) (idx : Z) (cmd : bytes) : Node :=
  mkNode (nd_selfID n) (nd_peers n) (nd_peerAddrMap n) (nd_saves n) (nd_store n) (nd_state n)
    (nd_role n) (nd_leaderID n) (nd_leaderKnown n) (nd_commitIndex n) idx
    (nd_nextIndex n) (nd_matchIndex n) (nd_voteGranted n) (nd_proposals n ∖ {[idx]})
    (if bool_decide (idx ∈ nd_proposals n) then nd_acked n ++ [idx] else nd_acked n)
    (nd_applied n ++ [cmd]).

Definition term (n : Node) : Z := ps_CurrentTerm (nd_state n).

Definition voted (n : Node) : string := ps_VotedFor (nd_state n).

Definition rlog (n : Node) : list LogEntry := ps_Log (nd_state n).

Definition set_term (n : Node) (t : Z) (votedFor : string) : Node :=
  set_state n (mkPersistentState t votedFor (rlog n)).

Definition set_log (n : Node) (l : list LogEntry) : Node :=
  set_state n (mkPersistentState (term n) (voted n) l).

(** A failed [Save] is only logged. *)
Definition persistLocked (n : Node) : Node :=
  if nd_saves n then set_store n (nd_state n) else n.

Definition peerAddr (n : Node) (peerID : string) : string :=
  default peerID (nd_peerAddrMap n !! peerID).

(** [if addr != "" { _ = n.transport.SendRaft(addr, msg) }]. *)
Definition SendRaft (n : Node) (peer : string) (m : RaftMessage) : list (string * RaftMessage) :=
  let addr := peerAddr n peer in
  if bool_decide (addr = EmptyString) then [] else [(addr, m)].

Definition quorum (n : Node) : Z := (zlen (nd_peers n) + 1) / 2 + 1.

(** ** Election *)

Definition becomeLeaderLocked (n : Node) : Node :=
  let n := set_role n Leader (nd_selfID n) true in
  let lastIdx := zlen (rlog n) in
  set_indexes n
    (foldl (λ m p, <[p := u64 (lastIdx + 1)]> m) (nd_nextIndex n) (nd_peers n))
    (foldl (λ m p, <[p := 0]> m) (nd_matchIndex n) (nd_peers n)).

Definition handleElectionTimeout (n : Node) : Node * list (string * RaftMessage) :=
  if bool_decide (nd_role n = Leader) then (n, [])
  else
    let n := set_term n (u64 (term n + 1)) (nd_selfID n) in
    let n := set_role n Candidate "" false in
    let n := set_votes n {[nd_selfID n]} in
    let n := persistLocked n in
    match nd_peers n with
    | [] => (becomeLeaderLocked n, [])
    | _ =>
        let args := mkRequestVoteArgs (term n) (nd_selfID n) (zlen (rlog n))
                      (match last (rlog n) with Some e => le_Term e | None => 0 end) in
        let msg := mkRaftMessage MsgRaftRequestVote (nd_selfID n) (term n) (encodeJSON args) in
        (n, mjoin ((λ p, SendRaft n p msg) <$> nd_peers n))
    end.

Definition lastLogIndexAndTermLocked (n : Node) : Z * Z :=
  match last (rlog n) with
  | None => (0, 0)
  | Some e => (le_Index e, le_Term e)
  end.

(** Stepping down to a higher term. *)
Definition adopt_term (n : Node) (t : Z) (leaderID : string) (known : bool) : Node :=
  persistLocked (set_role (set_term n t "") Follower leaderID known).

(** The node, what it sends and whether the election timer is reset. *)
Definition handleRequestVote (n : Node) (msg : RaftMessage) :
    Node * list (string * RaftMessage) * bool :=
  match decodeJSON (rm_Body msg) with
  | None => (n, [], false)
  | Some args =>
      let n := if term n <? rv_Term args then adopt_term n (rv_Term args) "" false else n in
      let replyTerm := term n in
      let '(n, granted) :=
        if term n <=? rv_Term args then
          if bool_decide (voted n = EmptyString) || bool_decide (voted n = rv_CandidateID args) then
            let '(lastIdx, lastTerm) := lastLogIndexAndTermLocked n in
            let logUpToDate :=
              (lastTerm <? rv_LastLogTerm args) ||
              ((rv_LastLogTerm args =? lastTerm) && (lastIdx <=? rv_LastLogIndex args)) in
            if logUpToDate then (persistLocked (set_term n (term n) (rv_CandidateID args)), true)
            else (n, false)
          else (n, false)
        else (n, false) in
      let resp := mkRaftMessage MsgRaftVoteResponse (nd_selfID n) (term n)
                    (encodeJSON (mkRequestVoteReply replyTerm granted)) in
      (n, SendRaft n (rv_CandidateID args) resp, granted || (term n <? replyTerm))
  end.

(** ** Sending entries *)

(** The entries and the previous index and term for one peer; the third
    component is its clamped next index. *)
Definition append_args (n : Node) (peer : string) : AppendEntriesArgs * Z :=
  let logLen := zlen (rlog n) in
  let nextIdx := default 0 (nd_nextIndex n !! peer) in
  let nextIdx := if logLen <? nextIdx then u64 (logLen + 1) else nextIdx in
  let prevIdx := u64 (nextIdx - 1) in
  let prevTerm :=
    if (0 <? prevIdx) && (prevIdx <=? logLen) then
      match rlog n !! Z.to_nat (prevIdx - 1) with Some e => le_Term e | None => 0 end
    else 0 in
  let entries := if (nextIdx <=? logLen) && (1 <=? nextIdx) then drop (Z.to_nat (nextIdx - 1)) (rlog n) else [] in
  (mkAppendEntriesArgs (term n) (nd_selfID n) prevIdx prevTerm entries (nd_commitIndex n), nextIdx).

Fixpoint append_to (n : Node) (peers : list string) (out : list (string * RaftMessage)) :
    Node * list (string * RaftMessage) :=
  match peers with
  | [] => (n, out)
  | peer :: peers' =>
      let '(args, nextIdx) := append_args n peer in
      let n := if zlen (rlog n) <? default 0 (nd_nextIndex n !! peer)
               then set_indexes n (<[peer := nextIdx]> (nd_nextIndex n)) (nd_matchIndex n) else n in
      let msg := mkRaftMessage MsgRaftAppendEntries (nd_selfID n) (term n) (encodeJSON args) in
      append_to n peers' (out ++ SendRaft n peer msg)
  end.

Definition sendAppendEntriesToAll (n : Node) : Node * list (string * RaftMessage) :=
  if bool_decide (nd_role n = Leader) then append_to n (nd_peers n) [] else (n, []).

Definition handleVoteResponse (n : Node) (msg : RaftMessage) :
    Node * list (string * RaftMessage) * bool :=
  match decodeJSON (rm_Body msg) with
  | None => (n, [], false)
  | Some reply =>
      if term n <? vr_Term reply then (adopt_term n (vr_Term reply) "" false, [], true)
      else if negb (bool_decide (nd_role n = Candidate)) || negb (vr_Term reply =? term n) then
        (n, [], false)
      else if vr_VoteGranted reply then
        let n := set_votes n ({[rm_From msg]} ∪ nd_voteGranted n) in
        let votes := Z.of_nat (size (nd_voteGranted n)) in
        if quorum n <=? votes then
          let '(n, out) := sendAppendEntriesToAll (becomeLeaderLocked n) in (n, out, false)
        else (n, [], false)
      else (n, [], false)
  end.

(** ** Commitment *)

(** The loop of [applyCommittedLocked]; [k] entries are left to apply. *)
Fixpoint apply_loop (k : nat) (n : Node) : option Node :=
  match k with
  | O => Some n
  | S k =>
      let idx := nd_lastApplied n + 1 in
      match rlog n !! Z.to_nat (idx - 1) with
      | None => None
      | Some e => apply_loop k (applied_one n idx (le_Command e))
      end
  end.

Definition applyCommittedLocked (n : Node) : option Node :=
  apply_loop (Z.to_nat (nd_commitIndex n - nd_lastApplied n)) n.

(** Nodes known to hold index [idx], the leader included. *)
Definition replicated (n : Node) (idx : Z) : Z :=
  1 + zlen (filter (λ p, idx <= default 0 (nd_matchIndex n !! p)) (nd_peers n)).

(** [for idx := len(log); idx > commitIndex; idx--]. *)
Fixpoint advance_loop (n : Node) (idx : nat) : option Node :=
  match idx with
  | O => Some n
  | S i =>
      if nd_commitIndex n <? Z.of_nat idx then
        match rlog n !! i with
        | None => None
        | Some e =>
            if negb (le_Term e =? term n) then advance_loop n i
            else if quorum n <=? replicated n (Z.of_nat idx) then
              applyCommittedLocked (set_commit n (Z.of_nat idx))
            else advance_loop n i
        end
      else Some n
  end.

Definition advanceCommitIndexLocked (n : Node) : option Node :=
  if bool_decide (nd_role n = Leader) then advance_loop n (length (rlog n)) else Some n.

(** ** Accepting entries *)

(** [for ci > 1 && log[ci-2].Term == ct { ci-- }]. *)
Fixpoint conflict_start (log : list LogEntry) (ct : Z) (ci : nat) : nat :=
  match ci with
  | S (S i as ci') =>
      match log !! i with
      | Some e => if le_Term e =? ct then conflict_start log ct ci' else ci
      | None => ci
      end
  | _ => ci
  end.

(** The loop over the new entries, from the [i]-th. *)
Fixpoint merge_loop (log : list LogEntry) (start i : Z) (entries : list LogEntry) : list LogEntry :=
  match entries with
  | [] => log
  | newEntry :: entries' =>
      let idx := u64 (start + i) in
      if zlen log <? idx then log ++ entries
      else
        match log !! Z.to_nat (idx - 1) with
        | None => log
        | Some existing =>
            if negb (le_Term existing =? le_Term newEntry) then
              take (Z.to_nat (idx - 1)) log ++ entries
            else merge_loop log start (i + 1) entries'
        end
  end.

(** The node and [success, conflictIndex, conflictTerm]. *)
Definition appendEntriesFromLeader (n : Node) (prevIndex prevTerm : Z) (entries : list LogEntry) :
    Node * (bool * Z * Z) :=
  let log := rlog n in
  if zlen log <? prevIndex then (n, (false, u64 (zlen log + 1), 0))
  else
    let accept := (persistLocked (set_log n (merge_loop log (u64 (prevIndex + 1)) 0 entries)), (true, 0, 0)) in
    if 0 <? prevIndex then
      match log !! Z.to_nat (prevIndex - 1) with
      | None => accept
      | Some entry =>
          if negb (le_Term entry =? prevTerm) then
            let ct := le_Term entry in
            (n, (false, Z.of_nat (conflict_start log ct (Z.to_nat prevIndex)), ct))
          else accept
      end
    else accept.

Definition append_reply (n : Node) (leader : string) (reply : AppendEntriesReply) :
    list (string * RaftMessage) :=
  SendRaft n leader (mkRaftMessage MsgRaftAppendResponse (nd_selfID n) (term n) (encodeJSON reply)).

Definition handleAppendEntries (n : Node) (msg : RaftMessage) :
    option (Node * list (string * RaftMessage) * bool) :=
  match decodeJSON (rm_Body msg) with
  | None => Some (n, [], false)
  | Some args =>
      let n := if term n <? ae_Term args then adopt_term n (ae_Term args) (ae_LeaderID args) true else n in
      let replyTerm := term n in
      if ae_Term args <? term n then
        Some (n, append_reply n (ae_LeaderID args) (mkAppendEntriesReply replyTerm false 0 0 0), false)
      else
        let n := adopt_term n (ae_Term args) (ae_LeaderID args) true in
        let '(n, (success, conflictIndex, conflictTerm)) :=
          appendEntriesFromLeader n (ae_PrevLogIndex args) (ae_PrevLogTerm args) (ae_Entries args) in
        let reply :=
          mkAppendEntriesReply replyTerm success (if success then zlen (rlog n) else 0)
            (if success then 0 else conflictIndex) (if success then 0 else conflictTerm) in
        let advanced :=
          if success && (nd_commitIndex n <? ae_LeaderCommit args) then
            let newCommit :=
              if zlen (rlog n) <? ae_LeaderCommit args then zlen (rlog n) else ae_LeaderCommit args in
            applyCommittedLocked (set_commit n newCommit)
          else Some n in
        match advanced with
        | None => None
        | Some n => Some (n, append_reply n (ae_LeaderID args) reply, true)
        end
  end.

(** [for i := len(log); i > 0; i--]: the index after the last entry of the
    term, if there is one. *)
Fixpoint after_term (log : list LogEntry) (t : Z) (i : nat) : option Z :=
  match i with
  | O => None
  | S i' =>
      match log !! i' with
      | Some e => if le_Term e =? t then Some (u64 (Z.of_nat i + 1)) else after_term log t i'
      | None => None
      end
  end.

Definition handleAppendResponse (n : Node) (msg : RaftMessage) : option (Node * bool) :=
  match decodeJSON (rm_Body msg) with
  | None => Some (n, false)
  | Some reply =>
      if term n <? ar_Term reply then Some (adopt_term n (ar_Term reply) "" false, true)
      else if negb (bool_decide (nd_role n = Leader)) then Some (n, false)
      else
        let peer := rm_From msg in
        if ar_Success reply then
          let n := set_indexes n (<[peer := u64 (ar_MatchIndex reply + 1)]> (nd_nextIndex n))
                     (<[peer := ar_MatchIndex reply]> (nd_matchIndex n)) in
          (λ n, (n, false)) <$> advanceCommitIndexLocked n
        else
          let nextIdx :=
            if 0 <? ar_ConflictTerm reply then
              default (ar_ConflictIndex reply)
                (after_term (rlog n) (ar_ConflictTerm reply) (length (rlog n)))
            else ar_ConflictIndex reply in
          let nextIdx := if nextIdx <? 1 then 1 else nextIdx in
          Some (set_indexes n (<[peer := nextIdx]> (nd_nextIndex n)) (nd_matchIndex n), false)
  end.

(** ** The event loop *)

Definition dispatchMsg (n : Node) (msg : RaftMessage) :
    option (Node * list (string * RaftMessage) * bool) :=
  if rm_Type msg =? MsgRaftRequestVote then Some (handleRequestVote n msg)
  else if rm_Type msg =? MsgRaftVoteResponse then Some (handleVoteResponse n msg)
  else if rm_Type msg =? MsgRaftAppendEntries then handleAppendEntries n msg
  else if rm_Type msg =? MsgRaftAppendResponse then
    (λ r, (r.1, [], r.2)) <$> handleAppendResponse n msg
  else Some (n, [], false).

(** The message case of [run]: a leader that steps down fails its waiters. *)
Definition run_message (n : Node) (msg : RaftMessage) :
    option (Node * list (string * RaftMessage)) :=
  match dispatchMsg n msg with
  | None => None
  | Some (n', out, _) =>
      if bool_decide (nd_role n = Leader) && negb (bool_decide (nd_role n' = Leader))
      then Some (set_proposals n' ∅, out)
      else Some (n', out)
  end.

(** [Start]: [loaded] is what [Load] returns. *)
Definition Node_Start (n : Node) (loaded : option PersistentState) : Node :=
  let n := match loaded with Some s => set_state n s | None => n end in
  match nd_peers n with
  | [] => becomeLeaderLocked (persistLocked (set_term n (u64 (term n + 1)) (nd_selfID n)))
  | _ => n
  end.

Inductive propose_err :=
| ErrNotLeader
| ErrStopped
| ErrCtx.

(** [Propose] up to its wait. *)
Definition Node_Propose (n : Node) (cmd : bytes) :
    option (Node * list (string * RaftMessage) * result Z propose_err) :=
  if negb (bool_decide (nd_role n = Leader)) then Some (n, [], Error ErrNotLeader)
  else
    let index := u64 (zlen (rlog n) + 1) in
    let n := set_log n (rlog n ++ [mkLogEntry (term n) index cmd]) in
    let n := persistLocked n in
    let n := set_proposals n ({[index]} ∪ nd_proposals n) in
    let '(n, out) := sendAppendEntriesToAll n in
    match advanceCommitIndexLocked n with
    | None => None
    | Some n => Some (n, out, Ok index)
    end.

Definition Node_TruncateLogFrom (n : Node) (index : Z) : Node :=
  if (0 <? index) && (index <=? zlen (rlog n)) then
    persistLocked (set_log n (take (Z.to_nat (index - 1)) (rlog n)))
  else n.

Definition Node_IsLeader (n : Node) : bool := bool_decide (nd_role n = Leader).

Definition Node_LeaderID (n : Node) : string * bool := (nd_leaderID n, nd_leaderKnown n).

Record NodeSnapshot := mkNodeSnapshot {
  sn_Role : string;
  sn_Term : Z;
  sn_CommitIndex : Z;
  sn_LastApplied : Z;
  sn_LeaderID : string;
  sn_LogLength : Z;
  sn_MatchIndex : gmap string Z;
  sn_NextIndex : gmap string Z;
}.

Definition Node_Snapshot (n : Node) : NodeSnapshot :=
  mkNodeSnapshot
    (match nd_role n with Leader => "leader" | Follower => "follower" | Candidate => "candidate" end)
    (term n) (nd_commitIndex n) (nd_lastApplied n) (nd_leaderID n) (zlen (rlog n))
    (nd_matchIndex n) (nd_nextIndex n).
