(* ===== verification/RaftElection.v ===== *)
(** * Elections in a Raft cluster

    The nodes of [Raft.v] over a network that may lose, delay, duplicate and
    reorder messages, with crashes and restarts from the persistent store. *)

From S2P Require Import Prelude GoLib Json RaftRpc Raft.

Local Open Scope Z_scope.

(** ** The cluster *)

(** Every message ever handed to the transport can be delivered, any number
    of times. *)
Record cluster := mkCluster {
  cl_nodes : gmap string Node;
  cl_sent : list (string * RaftMessage);
}.

Definition update (c : cluster) (id : string) (n : Node) (out : list (string * RaftMessage)) :
    cluster := mkCluster (<[id := n]> (cl_nodes c)) (cl_sent c ++ out).

(** A message that carries the vote of its sender for [cand] in term [t]: a
    granted response, or the request of a candidate, which votes for itself. *)
Definition vote_msg (p : string * RaftMessage) (v : string) (t : Z) (cand : string) : Prop :=
  rm_From p.2 = v ∧
  ((rm_Type p.2 = MsgRaftVoteResponse ∧ p.1 = cand ∧
      decodeJSON (rm_Body p.2) = Some (mkRequestVoteReply t true)) ∨
   (rm_Type p.2 = MsgRaftRequestVote ∧ cand = v ∧ rm_Term p.2 = t)).

Definition voted_for (sent : list (string * RaftMessage)) (v : string) (t : Z) (cand : string) : Prop :=
  ∃ p, p ∈ sent ∧ vote_msg p v t cand.

(** The node would answer a vote request of its own term although it has
    voted in that term and its vote has been cleared since. *)
Definition forgotten_vote (c : cluster) (id : string) (n : Node) (m : RaftMessage) : Prop :=
  ∃ args cand, rm_Type m = MsgRaftRequestVote ∧ decodeJSON (rm_Body m) = Some args ∧
    rv_Term args = term n ∧ voted n = EmptyString ∧ voted_for (cl_sent c) id (term n) cand.

Inductive event :=
| EvTimeout (id : string)
| EvHeartbeat (id : string)
| EvPropose (id : string) (cmd : bytes)
| EvDeliver (id : string) (m : RaftMessage)
| EvRestart (id : string).

Inductive cluster_step (c : cluster) : event → cluster → Prop :=
| step_timeout id n n' out :
    cl_nodes c !! id = Some n → term n < u64_max → handleElectionTimeout n = (n', out) →
    cluster_step c (EvTimeout id) (update c id n' out)
| step_heartbeat id n n' out :
    cl_nodes c !! id = Some n → sendAppendEntriesToAll n = (n', out) →
    cluster_step c (EvHeartbeat id) (update c id n' out)
| step_propose id n n' out cmd r :
    cl_nodes c !! id = Some n → Node_Propose n cmd = Some (n', out, r) →
    cluster_step c (EvPropose id cmd) (update c id n' out)
| step_deliver id n n' out m :
    cl_nodes c !! id = Some n → (id, m) ∈ cl_sent c → run_message n m = Some (n', out) →
    cluster_step c (EvDeliver id m) (update c id n' out)
| step_restart id n :
    cl_nodes c !! id = Some n →
    cluster_step c (EvRestart id)
      (update c id
         (Node_Start (NewNode (nd_selfID n) (nd_peers n) (nd_peerAddrMap n) (nd_saves n) (nd_store n))
            (Some (nd_store n))) []).

(** A fresh cluster of the nodes [ids], whose saves succeed. *)
Definition fresh_cluster (ids : list string) : cluster :=
  mkCluster
    (list_to_map ((λ id, (id, NewNode id (filter (λ p, p ≠ id) ids) ∅ true zero_state)) <$> ids)) [].

(** No step answers a vote request with a forgotten vote. *)
Definition votes_kept (c : cluster) (e : event) : Prop :=
  match e with
  | EvDeliver id m => ∀ n, cl_nodes c !! id = Some n → ¬ forgotten_vote c id n m
  | _ => True
  end.

Inductive cluster_run (c0 : cluster) : cluster → Prop :=
| run_nil : cluster_run c0 c0
| run_step c e c' :
    cluster_run c0 c → votes_kept c e → cluster_step c e c' → cluster_run c0 c'.

(** ** What a handler does to a node's vote *)

Definition no_votes (out : list (string * RaftMessage)) : Prop :=
  ∀ p v t cand, p ∈ out → ¬ vote_msg p v t cand.

Definition same_config (n n' : Node) : Prop :=
  nd_selfID n' = nd_selfID n ∧ nd_peers n' = nd_peers n ∧ nd_peerAddrMap n' = nd_peerAddrMap n ∧
  nd_saves n' = nd_saves n.

(** Out of the way: steps that cast no vote. *)
Definition quiet (n n' : Node) (out : list (string * RaftMessage)) : Prop :=
  no_votes out ∧ term n <= term n' <= u64_max ∧
  (term n' = term n → voted n' = voted n ∨ voted n' = EmptyString) ∧
  (term n < term n' → voted n' = EmptyString) ∧
  (nd_role n' = Follower ∨
   (term n' = term n ∧ nd_role n' = nd_role n ∧ nd_voteGranted n' = nd_voteGranted n)).

Definition stands (n n' : Node) (out : list (string * RaftMessage)) : Prop :=
  term n' = term n + 1 ∧ voted n' = nd_selfID n ∧ nd_role n' = Candidate ∧
  nd_voteGranted n' = {[nd_selfID n]} ∧ out ≠ [] ∧
  Forall (λ p, rm_From p.2 = nd_selfID n ∧ rm_Type p.2 = MsgRaftRequestVote ∧ rm_Term p.2 = term n') out.

Definition grants (n n' : Node) (cand : string) (out : list (string * RaftMessage)) : Prop :=
  term n <= term n' <= u64_max ∧ voted n' = cand ∧
  (term n' = term n → voted n = EmptyString ∨ voted n = cand) ∧
  (nd_role n' = Follower ∨
   (term n' = term n ∧ nd_role n' = nd_role n ∧ nd_voteGranted n' = nd_voteGranted n)) ∧
  Forall (λ p, p.1 = cand ∧ rm_From p.2 = nd_selfID n ∧ rm_Type p.2 = MsgRaftVoteResponse ∧
               decodeJSON (rm_Body p.2) = Some (mkRequestVoteReply (term n') true)) out.

Definition tallies (n n' : Node) (from : string) (out : list (string * RaftMessage)) : Prop :=
  no_votes out ∧ term n' = term n ∧ voted n' = voted n ∧ nd_role n = Candidate ∧
  nd_voteGranted n' = {[from]} ∪ nd_voteGranted n ∧
  (nd_role n' = Candidate ∨
   (nd_role n' = Leader ∧ quorum n <= Z.of_nat (size (nd_voteGranted n')))).

(** ** Handlers, one by one *)

Lemma persist_eq n : nd_saves n = true → persistLocked n = set_store n (nd_state n).
Proof. unfold persistLocked. by intros ->. Qed.

Lemma get_int_range lo hi k l z :
  get_int lo hi k l = Some z → lo <= 0 <= hi → lo <= z <= hi.
Proof.
  unfold get_int. intros H H0. repeat (case_match; simplify_eq; try lia).
Qed.

Lemma decode_rv_range b args :
  decodeJSON (A := RequestVoteArgs) b = Some args → 0 <= rv_Term args <= u64_max.
Proof.
  unfold decodeJSON. cbn. intros [l H]%unmarshal_with_inv. unfold RequestVoteArgs_of in H.
  repeat (case_match; simplify_eq; try done). cbn.
  by eapply get_int_range; [|unfold u64_max; lia].
Qed.

Lemma decode_vr_range b r :
  decodeJSON (A := RequestVoteReply) b = Some r → 0 <= vr_Term r <= u64_max.
Proof.
  unfold decodeJSON. cbn. intros [l H]%unmarshal_with_inv. unfold RequestVoteReply_of in H.
  repeat (case_match; simplify_eq; try done). cbn.
  by eapply get_int_range; [|unfold u64_max; lia].
Qed.

Lemma decode_ae_range b args :
  decodeJSON (A := AppendEntriesArgs) b = Some args → 0 <= ae_Term args <= u64_max.
Proof.
  unfold decodeJSON. cbn. intros [l H]%unmarshal_with_inv. unfold AppendEntriesArgs_of in H.
  repeat (case_match; simplify_eq; try done). cbn.
  by eapply get_int_range; [|unfold u64_max; lia].
Qed.

Lemma decode_ar_range b r :
  decodeJSON (A := AppendEntriesReply) b = Some r → 0 <= ar_Term r <= u64_max.
Proof.
  unfold decodeJSON. cbn. intros [l H]%unmarshal_with_inv. unfold AppendEntriesReply_of in H.
  repeat (case_match; simplify_eq; try done). cbn.
  by eapply get_int_range; [|unfold u64_max; lia].
Qed.

Lemma vote_reply_decode t g : 0 <= t <= u64_max →
  decodeJSON (encodeJSON (mkRequestVoteReply t g)) = Some (mkRequestVoteReply t g).
Proof. intros Ht. apply decode_encode. exact Ht. Qed.

Lemma no_votes_nil : no_votes [].
Proof. intros p v t cand Hp. by apply elem_of_nil in Hp. Qed.

Lemma no_votes_type (out : list (string * RaftMessage)) :
  Forall (λ p, rm_Type p.2 = MsgRaftAppendEntries ∨ rm_Type p.2 = MsgRaftAppendResponse) out →
  no_votes out.
Proof.
  intros Hf p v t cand Hp (_ & [(Ht & _)|(Ht & _)]); rewrite Forall_forall in Hf;
    destruct (Hf p Hp) as [Hp'|Hp']; rewrite Hp' in Ht; discriminate Ht.
Qed.

Lemma SendRaft_Forall (P : string * RaftMessage → Prop) n peer m :
  P (peerAddr n peer, m) → Forall P (SendRaft n peer m).
Proof. unfold SendRaft. case_bool_decide; [constructor|]. intros HP. by constructor. Qed.

(** Everything but the role and the vote. *)
Record inert (n n' : Node) : Prop := {
  in_config : same_config n n';
  in_term : term n' = term n;
  in_voted : voted n' = voted n;
  in_role : nd_role n' = nd_role n;
  in_votes : nd_voteGranted n' = nd_voteGranted n;
  in_store : nd_store n = nd_state n → nd_store n' = nd_state n';
}.

Lemma inert_refl n : inert n n.
Proof. by split. Qed.

Lemma inert_trans n1 n2 n3 : inert n1 n2 → inert n2 n3 → inert n1 n3.
Proof.
  intros [(? & ? & ? & ?) ? ? ? ? ?] [(? & ? & ? & ?) ? ? ? ? ?].
  split; [split_and!| | | | |]; try congruence. auto.
Qed.

Lemma append_to_inert n peers out n' out' :
  append_to n peers out = (n', out') →
  inert n n' ∧ ∃ more, out' = out ++ more ∧ Forall (λ p, rm_Type p.2 = MsgRaftAppendEntries) more.
Proof.
  revert n out. induction peers as [|peer peers IH]; intros n out Heq.
  { simpl in Heq. simplify_eq. split; [apply inert_refl|]. exists []. by rewrite app_nil_r. }
  cbn [append_to] in Heq. destruct (append_args n peer) as [args nextIdx].
  set (n1 := if _ <? _ then _ else n) in Heq.
  assert (inert n n1) as H1 by (unfold n1; case_match; by split).
  apply IH in Heq as (H2 & more & -> & Hf). split; [by eapply inert_trans|].
  rewrite <- (assoc_L (++)). eexists. split; [done|]. apply Forall_app. split; [|done].
  by apply SendRaft_Forall.
Qed.

Lemma sendAll_inert n n' out :
  sendAppendEntriesToAll n = (n', out) →
  inert n n' ∧ Forall (λ p, rm_Type p.2 = MsgRaftAppendEntries) out.
Proof.
  unfold sendAppendEntriesToAll. case_bool_decide; intros Heq.
  - apply append_to_inert in Heq as (Hi & more & -> & Hf). by split.
  - simplify_eq. split; [apply inert_refl|constructor].
Qed.

Lemma apply_loop_inert k n n' : apply_loop k n = Some n' → inert n n'.
Proof.
  revert n. induction k as [|k IH]; intros n; cbn [apply_loop]; [intros [= ->]; apply inert_refl|].
  case_match; [|done]. intros Heq. apply IH in Heq. eapply inert_trans; [|exact Heq]. by split.
Qed.

Lemma advance_inert n n' : advanceCommitIndexLocked n = Some n' → inert n n'.
Proof.
  unfold advanceCommitIndexLocked. case_bool_decide; [|intros [= ->]; apply inert_refl].
  generalize (length (rlog n)) as k. induction k as [|k IH]; cbn [advance_loop].
  { intros [= ->]. apply inert_refl. }
  destruct (nd_commitIndex n <? Z.of_nat (S k)); [|intros [= ->]; apply inert_refl].
  destruct (rlog n !! k) as [e|]; [|done]. destruct (negb (le_Term e =? term n)); [done|].
  destruct (quorum n <=? replicated n (Z.of_nat (S k))); [|done].
  intros Heq. eapply inert_trans; [|by eapply apply_loop_inert]. by split.
Qed.

Lemma adopt_facts n t l k :
  nd_saves n = true →
  same_config n (adopt_term n t l k) ∧ term (adopt_term n t l k) = t ∧
  voted (adopt_term n t l k) = EmptyString ∧ nd_role (adopt_term n t l k) = Follower ∧
  nd_store (adopt_term n t l k) = nd_state (adopt_term n t l k).
Proof. intros Hs. unfold adopt_term. by rewrite persist_eq. Qed.

Lemma inert_quiet n n' out :
  inert n n' → no_votes out → 0 <= term n <= u64_max → quiet n n' out.
Proof.
  intros [_ Ht Hv Hr Hg _] Ho Hn. split_and!; [done|lia|lia|auto|lia|]. right. done.
Qed.

Lemma adopt_quiet n t l k out :
  nd_saves n = true → term n <= t <= u64_max → no_votes out → quiet n (adopt_term n t l k) out.
Proof.
  intros Hs Ht Ho. destruct (adopt_facts n t l k Hs) as (_ & Ht' & Hv & Hr & _).
  split_and!; [done|lia|lia|by right|done|by left].
Qed.

(** A node of a cluster of at least two, reached under its own name. *)
Definition config_ok (n : Node) : Prop :=
  nd_saves n = true ∧ nd_peers n ≠ [] ∧ nd_peerAddrMap n = ∅ ∧ EmptyString ∉ nd_peers n.

Lemma config_same n n' : same_config n n' → config_ok n → config_ok n'.
Proof. intros (_ & Hp & Ha & Hs) (H1 & H2 & H3 & H4). unfold config_ok. rewrite Hp, Ha, Hs. done. Qed.

Lemma peerAddr_id n p : config_ok n → peerAddr n p = p.
Proof. intros (_ & _ & Ha & _). unfold peerAddr. by rewrite Ha, lookup_empty. Qed.

(** What every handler keeps: the configuration, and that the store holds
    the node's persistent state. *)
Definition kept (n n' : Node) : Prop := same_config n n' ∧ nd_store n' = nd_state n'.

Lemma inert_kept n n' : inert n n' → nd_store n = nd_state n → kept n n'.
Proof. intros [Hc _ _ _ _ Hs] Hn. split; auto. Qed.

Lemma kept_trans n1 n2 n3 : same_config n1 n2 → kept n2 n3 → kept n1 n3.
Proof.
  intros (? & ? & ? & ?) [(? & ? & ? & ?) ?]. split; [|done]. split_and!; congruence.
Qed.

Lemma timeout_spec n n' out :
  config_ok n → nd_store n = nd_state n → 0 <= term n < u64_max →
  handleElectionTimeout n = (n', out) →
  kept n n' ∧ ((nd_role n = Leader ∧ n' = n ∧ out = []) ∨ stands n n' out).
Proof.
  intros Hc Hst Ht Heq. unfold handleElectionTimeout in Heq. case_bool_decide as Hr.
  { simplify_eq. split; [by split|]. by left. }
  destruct Hc as (Hs & Hp & Ha & He). rewrite persist_eq in Heq by done. cbn [nd_peers] in Heq.
  set (n1 := set_store _ _) in Heq.
  assert (nd_peers n1 = nd_peers n) as Hp1 by done. rewrite Hp1 in Heq.
  destruct (nd_peers n) as [|p0 ps] eqn:Eps; [done|].
  assert (term n1 = term n + 1) as Ht1.
  { change (u64 (term n + 1) = term n + 1). apply u64_id. unfold is_u64, u64_max in *. lia. }
  assert (config_ok n1) as Hc1 by (unfold config_ok; rewrite Hp1; by split_and!).
  apply pair_equal_spec in Heq as [<- <-]. split; [by split|]. right.
  split_and!; [done|done|done|done| |].
  - rewrite fmap_cons, mjoin_cons. unfold SendRaft at 1. rewrite peerAddr_id by done.
    rewrite bool_decide_eq_false_2; [done|]. intros ->. apply He. by left.
  - generalize (p0 :: ps) as l. intros l. induction l as [|p l IH]; [constructor|].
    rewrite fmap_cons, mjoin_cons. apply Forall_app. split; [|done]. by apply SendRaft_Forall.
Qed.

Lemma request_vote_spec n m n' out r :
  config_ok n → nd_store n = nd_state n → 0 <= term n <= u64_max →
  handleRequestVote n m = (n', out, r) →
  kept n n' ∧
  (quiet n n' out ∨
   ∃ args, decodeJSON (rm_Body m) = Some args ∧ rv_Term args = term n' ∧
     grants n n' (rv_CandidateID args) out).
Proof.
  intros Hc Hst Ht Heq. unfold handleRequestVote in Heq.
  destruct (decodeJSON (rm_Body m)) as [args|] eqn:Hd.
  2: { simplify_eq. split; [by split|]. left. apply inert_quiet; [apply inert_refl|apply no_votes_nil|done]. }
  pose proof (decode_rv_range _ _ Hd) as Hra.
  set (n1 := if term n <? rv_Term args then adopt_term n (rv_Term args) "" false else n) in Heq.
  assert (same_config n n1 ∧ nd_store n1 = nd_state n1 ∧ term n1 = Z.max (term n) (rv_Term args) ∧
    (term n1 = term n → voted n1 = voted n ∨ voted n1 = EmptyString) ∧
    (term n < term n1 → voted n1 = EmptyString) ∧
    (nd_role n1 = Follower ∨
     (term n1 = term n ∧ nd_role n1 = nd_role n ∧ nd_voteGranted n1 = nd_voteGranted n)) ∧
    (term n1 = term n → voted n1 = voted n))
    as (Hc1 & Hs1 & Ht1 & Hv1 & Hv1' & Hr1 & Hv1'').
  { unfold n1. destruct (Z.ltb_spec (term n) (rv_Term args)) as [Hlt|Hge].
    - destruct (adopt_facts n (rv_Term args) "" false) as (H1 & H2 & H3 & H4 & H5); [apply Hc|].
      split_and!; [done|done|lia|auto|auto|auto|lia].
    - split_and!; [by split_and!|done|lia|auto|lia|auto|auto]. }
  clearbody n1. pose proof (config_same _ _ Hc1 Hc) as Hco.
  assert (∀ g m', g = false → rm_Type m' = MsgRaftVoteResponse →
    rm_Body m' = encodeJSON (mkRequestVoteReply (term n1) g) → no_votes (SendRaft n1 (rv_CandidateID args) m'))
    as Hno.
  { intros g m' -> Hty Hb p v t cand Hp. unfold SendRaft in Hp. case_bool_decide; [by apply elem_of_nil in Hp|].
    apply list_elem_of_singleton in Hp as ->. intros (_ & [(_ & _ & Hdec)|(Hty' & _)]); cbn [snd] in *.
    - rewrite Hb, vote_reply_decode in Hdec by lia. done.
    - rewrite Hty in Hty'. discriminate. }
  assert (∀ m' r', (n1, SendRaft n1 (rv_CandidateID args) m', r') = (n', out, r) →
    no_votes (SendRaft n1 (rv_CandidateID args) m') → kept n n' ∧ quiet n n' out) as Hquiet.
  { intros m' r' Heq' Hn. injection Heq' as <- <- _. split; [by split|]. split_and!; [done|lia|lia|done|done|done]. }
  destruct (Z.leb_spec (term n1) (rv_Term args)) as [Hle|Hgt].
  2: { destruct (Hquiet _ _ Heq) as [H1 H2]; [by apply (Hno false)|]. auto. }
  destruct (bool_decide (voted n1 = EmptyString) || bool_decide (voted n1 = rv_CandidateID args)) eqn:Hv.
  2: { destruct (Hquiet _ _ Heq) as [H1 H2]; [by apply (Hno false)|]. auto. }
  destruct (lastLogIndexAndTermLocked n1) as [li lt].
  destruct (_ || _) in Heq.
  2: { destruct (Hquiet _ _ Heq) as [H1 H2]; [by apply (Hno false)|]. auto. }
  rewrite persist_eq in Heq by apply Hco.
  set (n2 := set_store _ _) in Heq.
  assert (term n2 = term n1) as Ht2 by done.
  injection Heq as <- <- _. split; [eapply kept_trans; [exact Hc1|by split]|].
  right. exists args. split_and!; [done|lia|].
  apply orb_true_iff in Hv. rewrite !bool_decide_eq_true in Hv.
  split_and!; [lia|lia|done| | |].
  - intros Hteq. rewrite <- (Hv1'' ltac:(lia)). done.
  - exact Hr1.
  - apply SendRaft_Forall. cbn [fst snd rm_From rm_Type rm_Body]. split_and!.
    + by rewrite peerAddr_id.
    + apply Hc1.
    + done.
    + rewrite Ht2. by apply vote_reply_decode; lia.
Qed.

Lemma vote_response_spec n m n' out r :
  config_ok n → nd_store n = nd_state n → 0 <= term n <= u64_max →
  handleVoteResponse n m = (n', out, r) →
  kept n n' ∧
  (quiet n n' out ∨
   decodeJSON (rm_Body m) = Some (mkRequestVoteReply (term n) true) ∧ tallies n n' (rm_From m) out).
Proof.
  intros Hc Hst Ht Heq. unfold handleVoteResponse in Heq.
  assert (kept n n ∧ quiet n n []) as [Hkn Hqn].
  { split; [by split|]. apply inert_quiet; [apply inert_refl|apply no_votes_nil|done]. }
  destruct (decodeJSON (rm_Body m)) as [reply|] eqn:Hd; [|simplify_eq; auto].
  pose proof (decode_vr_range _ _ Hd) as Hrr.
  destruct (Z.ltb_spec (term n) (vr_Term reply)) as [Hlt|Hge].
  { injection Heq as <- <- _.
    destruct (adopt_facts n (vr_Term reply) "" false) as (H1 & H2 & H3 & H4 & H5); [apply Hc|].
    split; [by split|]. left. apply adopt_quiet; [apply Hc|lia|apply no_votes_nil]. }
  destruct (negb (bool_decide (nd_role n = Candidate)) || negb (vr_Term reply =? term n)) eqn:Hg;
    [simplify_eq; auto|].
  apply orb_false_iff in Hg as [Hcand Hterm]. apply negb_false_iff in Hcand, Hterm.
  apply bool_decide_eq_true_1 in Hcand. apply Z.eqb_eq in Hterm.
  destruct reply as [t g]. cbn [vr_VoteGranted vr_Term] in *. subst t.
  destruct g; [|simplify_eq; auto].
  set (n1 := set_votes n _) in Heq.
  destruct (Z.leb_spec (quorum n1) (Z.of_nat (size (nd_voteGranted n1)))) as [Hq|Hq].
  2: { injection Heq as <- <- _. split; [by split|]. right. split; [done|].
       split_and!; [apply no_votes_nil|done|done|done|done|by left]. }
  destruct (sendAppendEntriesToAll (becomeLeaderLocked n1)) as [n2 out2] eqn:Es.
  injection Heq as <- <- _. apply sendAll_inert in Es as [Hi Hf].
  split; [apply (kept_trans _ (becomeLeaderLocked n1)); [done|by apply inert_kept]|].
  right. split; [done|]. destruct Hi as [_ Ht2 Hv2 Hr2 Hg2 _]. split_and!.
  - apply no_votes_type. eapply Forall_impl; [exact Hf|]. intros p Hp. by left.
  - by rewrite Ht2.
  - by rewrite Hv2.
  - done.
  - by rewrite Hg2.
  - right. rewrite Hr2, Hg2. done.
Qed.

Lemma append_from_leader_inert n pi pt es n' r :
  nd_saves n = true → nd_store n = nd_state n → appendEntriesFromLeader n pi pt es = (n', r) → inert n n'.
Proof.
  intros Hs Hst. unfold appendEntriesFromLeader. rewrite persist_eq by done.
  repeat case_match; intros Heq; simplify_eq; by split.
Qed.

Lemma append_reply_no_votes n l reply : no_votes (append_reply n l reply).
Proof.
  apply no_votes_type. unfold append_reply. apply SendRaft_Forall. by right.
Qed.

Lemma append_entries_spec n m n' out r :
  config_ok n → nd_store n = nd_state n → 0 <= term n <= u64_max →
  handleAppendEntries n m = Some (n', out, r) → kept n n' ∧ quiet n n' out.
Proof.
  intros Hc Hst Ht Heq. unfold handleAppendEntries in Heq.
  destruct (decodeJSON (rm_Body m)) as [args|] eqn:Hd.
  2: { simplify_eq. split; [by split|]. apply inert_quiet; [apply inert_refl|apply no_votes_nil|done]. }
  pose proof (decode_ae_range _ _ Hd) as Hra.
  set (n1 := if term n <? ae_Term args then _ else n) in Heq.
  assert (same_config n n1 ∧ (nd_store n1 = nd_state n1) ∧ term n1 = Z.max (term n) (ae_Term args) ∧
    (ae_Term args < term n1 → n1 = n)) as (Hc1 & Hs1 & Ht1 & Hn1).
  { unfold n1. destruct (Z.ltb_spec (term n) (ae_Term args)) as [Hlt|Hge].
    - destruct (adopt_facts n (ae_Term args) (ae_LeaderID args) true) as (H1 & H2 & H3 & H4 & H5); [apply Hc|].
      split_and!; [done|done|lia|lia].
    - split_and!; [by split_and!|done|lia|done]. }
  clearbody n1. pose proof (config_same _ _ Hc1 Hc) as Hco.
  destruct (Z.ltb_spec (ae_Term args) (term n1)) as [Hlt|Hge].
  { injection Heq as <- <- _. split; [by split|]. rewrite (Hn1 Hlt).
    apply inert_quiet; [apply inert_refl|apply append_reply_no_votes|done]. }
  destruct (adopt_facts n1 (ae_Term args) (ae_LeaderID args) true) as (H1 & H2 & H3 & H4 & H5); [apply Hco|].
  set (n2 := adopt_term n1 _ _ _) in *. clearbody n2.
  destruct (appendEntriesFromLeader n2 _ _ _) as [n3 [[success ci] ct]] eqn:Ea.
  apply append_from_leader_inert in Ea; [|by apply (config_same _ _ H1 Hco)|done].
  cbv zeta in Heq.
  destruct (if success && _ then _ else _) as [n4|] eqn:Eadv; [|done].
  assert (inert n3 n4) as Hi4.
  { clear Heq. destruct (success && _); [|injection Eadv as ->; apply inert_refl].
    eapply inert_trans; [|by eapply apply_loop_inert]. by split. }
  pose proof (inert_trans _ _ _ Ea Hi4) as [Hc4 Ht4 Hv4 Hr4 Hg4 Hs4].
  injection Heq as <- <- _. split.
  - eapply kept_trans; [exact Hc1|]. eapply kept_trans; [exact H1|]. split; auto.
  - split_and!.
    + apply append_reply_no_votes.
    + lia.
    + lia.
    + intros _. right. congruence.
    + congruence.
    + left. congruence.
Qed.

Lemma append_response_spec n m n' r :
  config_ok n → nd_store n = nd_state n → 0 <= term n <= u64_max →
  handleAppendResponse n m = Some (n', r) → kept n n' ∧ quiet n n' [].
Proof.
  intros Hc Hst Ht Heq. unfold handleAppendResponse in Heq.
  assert (∀ n2, inert n n2 → kept n n2 ∧ quiet n n2 []) as Hin.
  { intros n2 Hi. split; [by apply inert_kept|]. apply inert_quiet; [done|apply no_votes_nil|done]. }
  destruct (decodeJSON (rm_Body m)) as [reply|] eqn:Hd; [|simplify_eq; apply Hin, inert_refl].
  pose proof (decode_ar_range _ _ Hd) as Hrr.
  destruct (Z.ltb_spec (term n) (ar_Term reply)) as [Hlt|Hge].
  { injection Heq as <- _.
    destruct (adopt_facts n (ar_Term reply) "" false) as (H1 & H2 & H3 & H4 & H5); [apply Hc|].
    split; [by split|]. apply adopt_quiet; [apply Hc|lia|apply no_votes_nil]. }
  case_match; [simplify_eq; apply Hin, inert_refl|]. case_match.
  - apply fmap_Some in Heq as (n2 & Hadv & Heq). injection Heq as -> _. apply Hin.
    eapply inert_trans; [|by eapply advance_inert]. by split.
  - injection Heq as <- _. apply Hin. by split.
Qed.

Lemma run_message_spec n m n' out :
  config_ok n → nd_store n = nd_state n → 0 <= term n <= u64_max →
  run_message n m = Some (n', out) →
  kept n n' ∧
  (quiet n n' out ∨
   (rm_Type m = MsgRaftRequestVote ∧ ∃ args, decodeJSON (rm_Body m) = Some args ∧
      rv_Term args = term n' ∧ grants n n' (rv_CandidateID args) out) ∨
   (rm_Type m = MsgRaftVoteResponse ∧
      decodeJSON (rm_Body m) = Some (mkRequestVoteReply (term n) true) ∧ tallies n n' (rm_From m) out)).
Proof.
  intros Hc Hst Ht Heq. unfold run_message in Heq.
  destruct (dispatchMsg n m) as [[[n1 out1] r]|] eqn:Ed; [|done].
  assert (∃ ps, n' = set_proposals n1 ps ∧ out = out1) as (ps & -> & ->).
  { destruct (_ && _); simplify_eq; [by eexists|]. exists (nd_proposals n'). by destruct n'. }
  change (kept n (set_proposals n1 ps)) with (kept n n1).
  clear Heq. unfold dispatchMsg in Ed.
  destruct (Z.eqb_spec (rm_Type m) MsgRaftRequestVote) as [Hty|_].
  { injection Ed as Ed. destruct (request_vote_spec n m n1 out1 r Hc Hst Ht Ed) as [Hk Hs].
    split; [exact Hk|]. destruct Hs as [Hs|Hs]; [by left|]. right. left. done. }
  destruct (Z.eqb_spec (rm_Type m) MsgRaftVoteResponse) as [Hty|_].
  { injection Ed as Ed. destruct (vote_response_spec n m n1 out1 r Hc Hst Ht Ed) as [Hk Hs].
    split; [exact Hk|]. destruct Hs as [Hs|Hs]; [by left|]. right. right. done. }
  destruct (Z.eqb_spec (rm_Type m) MsgRaftAppendEntries) as [Hty|_].
  { destruct (append_entries_spec n m n1 out1 r Hc Hst Ht Ed) as [Hk Hs]. split; [exact Hk|by left]. }
  destruct (Z.eqb_spec (rm_Type m) MsgRaftAppendResponse) as [Hty|_].
  { apply fmap_Some in Ed as ([n2 r2] & Ed & Heq). cbn in Heq. injection Heq as -> -> ->.
    destruct (append_response_spec n m n2 r2 Hc Hst Ht Ed) as [Hk Hs]. split; [exact Hk|by left]. }
  injection Ed as <- <- _. split; [by split|]. left. change (quiet n n []).
  apply inert_quiet; [apply inert_refl|apply no_votes_nil|done].
Qed.

Lemma propose_spec n n' out cmd r :
  config_ok n → nd_store n = nd_state n → 0 <= term n <= u64_max →
  Node_Propose n cmd = Some (n', out, r) → kept n n' ∧ quiet n n' out.
Proof.
  intros Hc Hst Ht Heq. unfold Node_Propose in Heq. destruct (negb _).
  { injection Heq as <- <- _. split; [by split|].
    apply inert_quiet; [apply inert_refl|apply no_votes_nil|done]. }
  destruct (sendAppendEntriesToAll _) as [n2 out2] eqn:Es.
  destruct (advanceCommitIndexLocked n2) as [n3|] eqn:Ea; [|done]. injection Heq as <- <- _.
  apply sendAll_inert in Es as [Hi Hf]. apply advance_inert in Ea.
  assert (inert n n3) as Hi3.
  { refine (inert_trans _ _ _ (inert_trans _ _ _ _ Hi) Ea). rewrite persist_eq by apply Hc. by split. }
  split; [by apply inert_kept|]. apply inert_quiet; [done| |done].
  apply no_votes_type. eapply Forall_impl; [exact Hf|]. intros p Hp. by left.
Qed.

(** A restarted node has the term and the vote it had. *)
Lemma restart_spec n :
  config_ok n → nd_store n = nd_state n → 0 <= term n <= u64_max →
  let n' := Node_Start (NewNode (nd_selfID n) (nd_peers n) (nd_peerAddrMap n) (nd_saves n) (nd_store n))
              (Some (nd_store n)) in
  kept n n' ∧ quiet n n' [].
Proof.
  intros (Hs & Hp & _) Hst Ht n'.
  assert (n' = set_state (NewNode (nd_selfID n) (nd_peers n) (nd_peerAddrMap n) (nd_saves n) (nd_store n))
                 (nd_store n)) as ->.
  { unfold n', Node_Start. cbn [nd_peers set_state NewNode]. by destruct (nd_peers n). }
  split; [by split|]. unfold quiet, term, voted. cbn [nd_state set_state]. rewrite Hst.
  split_and!; [apply no_votes_nil|done|apply Ht|by left|lia|by left].
Qed.

(** ** The invariant *)

Record cluster_inv (ids : list string) (c : cluster) : Prop := {
  ci_dom : ∀ id, is_Some (cl_nodes c !! id) ↔ id ∈ ids;
  ci_config : ∀ id n, cl_nodes c !! id = Some n →
    nd_selfID n = id ∧ nd_peers n = filter (λ p, p ≠ id) ids ∧ config_ok n;
  ci_state : ∀ id n, cl_nodes c !! id = Some n →
    nd_store n = nd_state n ∧ 0 <= term n <= u64_max;
  ci_cast : ∀ v t cand, voted_for (cl_sent c) v t cand →
    ∃ n, cl_nodes c !! v = Some n ∧ t <= term n ∧
         (t = term n → voted n = cand ∨ voted n = EmptyString);
  ci_once : ∀ v t c1 c2, voted_for (cl_sent c) v t c1 → voted_for (cl_sent c) v t c2 → c1 = c2;
  ci_tally : ∀ id n, cl_nodes c !! id = Some n → nd_role n ≠ Follower →
    ∀ u, u ∈ nd_voteGranted n → voted_for (cl_sent c) u (term n) id;
  ci_leader : ∀ id n, cl_nodes c !! id = Some n → nd_role n = Leader →
    quorum n <= Z.of_nat (size (nd_voteGranted n));
}.

Lemma voted_for_app s o v t cand :
  voted_for (s ++ o) v t cand ↔ voted_for s v t cand ∨ voted_for o v t cand.
Proof.
  split.
  - intros (p & [Hp|Hp]%elem_of_app & Hv); [left|right]; by exists p.
  - intros [(p & Hp & Hv)|(p & Hp & Hv)]; exists p; rewrite elem_of_app; auto.
Qed.

Lemma no_votes_voted o v t cand : no_votes o → ¬ voted_for o v t cand.
Proof. intros Hn (p & Hp & Hv). by apply (Hn p v t cand). Qed.

(** One node steps and sends: what the invariant asks of the step. *)
Lemma cluster_update_inv ids c id n n' out :
  cluster_inv ids c → cl_nodes c !! id = Some n → kept n n' → term n <= term n' <= u64_max →
  (∀ v t cand, voted_for out v t cand → v = id ∧ t = term n' ∧ voted n' = cand ∧
     ∀ cand', voted_for (cl_sent c) id (term n') cand' → cand' = cand) →
  (∀ cand, voted_for (cl_sent c) id (term n') cand → voted n' = cand ∨ voted n' = EmptyString) →
  (nd_role n' ≠ Follower → ∀ u, u ∈ nd_voteGranted n' → voted_for (cl_sent c ++ out) u (term n') id) →
  (nd_role n' = Leader → quorum n' <= Z.of_nat (size (nd_voteGranted n'))) →
  cluster_inv ids (update c id n' out).
Proof.
  intros [Hdom Hcfg Hst Hcast Honce Htally Hlead] Hn [Hconf Hstore] Ht Hnew Hold Hrole Hl.
  destruct (Hcfg _ _ Hn) as (Hid & Hpeers & Hok). destruct (Hst _ _ Hn) as [_ Hrange].
  split; cbn [update cl_nodes cl_sent].
  - intros id'. rewrite lookup_insert_is_Some'. rewrite Hdom. split; [|auto].
    intros [<-|?]; [|done]. apply Hdom. by eexists.
  - intros id' n0 [[<- <-]|[_ Hn0]]%lookup_insert_Some; [|by apply (Hcfg id')].
    pose proof (config_same _ _ Hconf Hok). destruct Hconf as (-> & -> & _). done.
  - intros id' n0 [[<- <-]|[_ Hn0]]%lookup_insert_Some; [|by apply (Hst id')].
    split; [done|lia].
  - intros v t cand [Hv|Hv]%voted_for_app.
    + destruct (Hcast _ _ _ Hv) as (nv & Hnv & Hle & Hc).
      destruct (decide (id = v)) as [<-|Hne].
      * rewrite lookup_insert_eq. exists n'. simplify_eq. split_and!; [done|lia|].
        intros ->. by apply Hold.
      * exists nv. by rewrite lookup_insert_ne.
    + destruct (Hnew _ _ _ Hv) as (-> & -> & Hc & _). exists n'. rewrite lookup_insert_eq.
      split_and!; [done|lia|auto].
  - intros v t c1 c2 [H1|H1]%voted_for_app [H2|H2]%voted_for_app.
    + by eapply Honce.
    + destruct (Hnew _ _ _ H2) as (-> & -> & _ & Hu). by apply Hu.
    + destruct (Hnew _ _ _ H1) as (-> & -> & _ & Hu). symmetry. by apply Hu.
    + destruct (Hnew _ _ _ H1) as (_ & _ & <- & _). destruct (Hnew _ _ _ H2) as (_ & _ & <- & _). done.
  - intros id' n0 [[<- <-]|[_ Hn0]]%lookup_insert_Some; [by apply Hrole|].
    intros Hr u Hu. apply voted_for_app. left. by eapply Htally.
  - intros id' n0 [[<- <-]|[_ Hn0]]%lookup_insert_Some; [done|by apply (Hlead id')].
Qed.

Lemma quiet_inv ids c id n n' out :
  cluster_inv ids c → cl_nodes c !! id = Some n → kept n n' → quiet n n' out →
  cluster_inv ids (update c id n' out).
Proof.
  intros Hi Hn Hk (Hno & Ht & Hsame & Hup & Hrole).
  pose proof (ci_cast _ _ Hi) as Hcast.
  apply (cluster_update_inv ids c id n); [done|done|done|done| | | |].
  - intros v t cand Hv. by apply no_votes_voted in Hv.
  - intros cand Hv. destruct (Hcast _ _ _ Hv) as (n0 & Hn0 & Hle & Hc). simplify_eq.
    assert (term n' = term n) as Heq by lia. rewrite Heq in Hc.
    destruct (Hsame Heq) as [->| ->]; [by apply Hc|by right].
  - intros Hr u Hu. destruct Hrole as [?|(Heq & Hre & Hve)]; [done|]. rewrite Heq.
    apply voted_for_app. left. rewrite Hve in Hu. rewrite Hre in Hr. by apply (ci_tally _ _ Hi id n).
  - intros Hr. destruct Hrole as [Hf|(Heq & Hre & Hve)]; [congruence|]. rewrite Hve.
    destruct Hk as [(_ & Hp & _) _]. unfold quorum. rewrite Hp.
    apply (ci_leader _ _ Hi id n); congruence.
Qed.

Lemma stands_inv ids c id n n' out :
  cluster_inv ids c → cl_nodes c !! id = Some n → kept n n' → term n < u64_max → stands n n' out →
  cluster_inv ids (update c id n' out).
Proof.
  intros Hi Hn Hk Hmax (Ht & Hv & Hr & Hg & Hne & Hf).
  destruct (ci_config _ _ Hi _ _ Hn) as (Hid & _). rewrite Hid in Hv, Hg, Hf.
  assert (∀ cand, ¬ voted_for (cl_sent c) id (term n') cand) as Hfresh.
  { intros cand Hvf. destruct (ci_cast _ _ Hi _ _ _ Hvf) as (n0 & Hn0 & Hle & _). simplify_eq. lia. }
  apply (cluster_update_inv ids c id n); [done|done|done|lia| | | |].
  - intros v t cand (p & Hp & Hfrom & Hm). rewrite Forall_forall in Hf.
    destruct (Hf p Hp) as (Hpf & Hpt & Hpm). destruct Hm as [(Hty & _)|(_ & -> & Htm)].
    { rewrite Hpt in Hty. discriminate. }
    split_and!; [congruence|congruence|congruence|]. intros cand' Hc. by apply Hfresh in Hc.
  - intros cand Hc. by apply Hfresh in Hc.
  - intros _ u Hu. rewrite Hg in Hu. apply elem_of_singleton in Hu as ->.
    apply voted_for_app. right. destruct out as [|p out]; [done|].
    apply Forall_cons in Hf as [(Hpf & Hpt & Hpm) _]. exists p. split; [by left|].
    split; [done|]. by right.
  - congruence.
Qed.

Lemma grants_inv ids c id n n' out m args :
  cluster_inv ids c → cl_nodes c !! id = Some n → kept n n' →
  rm_Type m = MsgRaftRequestVote → decodeJSON (rm_Body m) = Some args → rv_Term args = term n' →
  ¬ forgotten_vote c id n m → grants n n' (rv_CandidateID args) out →
  cluster_inv ids (update c id n' out).
Proof.
  intros Hi Hn Hk Hty Hd Hta Hnf (Ht & Hv & Hsame & Hrole & Hf).
  destruct (ci_config _ _ Hi _ _ Hn) as (Hid & _). rewrite Hid in Hf.
  assert (∀ cand', voted_for (cl_sent c) id (term n') cand' → cand' = rv_CandidateID args) as Hu.
  { intros cand' Hvf. destruct (ci_cast _ _ Hi _ _ _ Hvf) as (n0 & Hn0 & Hle & Hc). simplify_eq.
    assert (term n' = term n) as Heq by lia. destruct (Hsame Heq) as [Hemp|Hcand].
    - exfalso. apply Hnf. exists args, cand'. rewrite <- Heq. done.
    - destruct (Hc Heq) as [?|Hemp]; [congruence|]. exfalso. apply Hnf.
      exists args, cand'. rewrite <- Heq. done. }
  apply (cluster_update_inv ids c id n); [done|done|done|done| | | |].
  - intros v t cand (p & Hp & Hfrom & Hm). rewrite Forall_forall in Hf.
    destruct (Hf p Hp) as (Hp1 & Hpf & Hpt & Hpd). destruct Hm as [(_ & <- & Hdec)|(Hty' & _)].
    2: { rewrite Hpt in Hty'. discriminate. }
    rewrite Hpd in Hdec. injection Hdec as <-.
    split_and!; [congruence|done|congruence|]. intros cand' Hc. rewrite Hp1. by apply Hu.
  - intros cand Hc. left. rewrite Hv. symmetry. by apply Hu.
  - intros Hr u Huu. destruct Hrole as [?|(Heq & Hre & Hve)]; [done|]. rewrite Heq.
    apply voted_for_app. left. rewrite Hve in Huu. rewrite Hre in Hr. by apply (ci_tally _ _ Hi id n).
  - intros Hr. destruct Hrole as [Hfo|(Heq & Hre & Hve)]; [congruence|]. rewrite Hve.
    destruct Hk as [(_ & Hp & _) _]. unfold quorum. rewrite Hp.
    apply (ci_leader _ _ Hi id n); congruence.
Qed.

Lemma tallies_inv ids c id n n' out m :
  cluster_inv ids c → cl_nodes c !! id = Some n → kept n n' → (id, m) ∈ cl_sent c →
  rm_Type m = MsgRaftVoteResponse →
  decodeJSON (rm_Body m) = Some (mkRequestVoteReply (term n) true) → tallies n n' (rm_From m) out →
  cluster_inv ids (update c id n' out).
Proof.
  intros Hi Hn Hk Hin Hty Hd (Hno & Ht & Hv & Hcand & Hg & Hrole).
  destruct (ci_state _ _ Hi _ _ Hn) as [_ Hrange].
  apply (cluster_update_inv ids c id n); [done|done|done|lia| | | |].
  - intros v t cand Hvf. by apply no_votes_voted in Hvf.
  - intros cand Hvf. destruct (ci_cast _ _ Hi _ _ _ Hvf) as (n0 & Hn0 & _ & Hc). simplify_eq.
    rewrite Hv. by apply Hc.
  - intros _ u Hu. rewrite Hg in Hu. rewrite Ht. apply voted_for_app. left.
    apply elem_of_union in Hu as [Hu%elem_of_singleton|Hu].
    + subst u. exists (id, m). split; [done|]. split; [done|]. left. done.
    + apply (ci_tally _ _ Hi id n); [done|congruence|done].
  - intros Hr. destruct Hrole as [?|[_ Hq]]; [congruence|].
    destruct Hk as [(_ & Hp & _) _]. unfold quorum in *. by rewrite Hp.
Qed.

Lemma step_inv ids c e c' :
  cluster_inv ids c → votes_kept c e → cluster_step c e c' → cluster_inv ids c'.
Proof.
  intros Hi Hv Hs. destruct Hs as [id n n' out Hn Hmax Heq|id n n' out Hn Heq|
    id n n' out cmd r Hn Heq|id n n' out m Hn Hin Heq|id n Hn];
    destruct (ci_config _ _ Hi _ _ Hn) as (Hid & Hps & Hc);
    destruct (ci_state _ _ Hi _ _ Hn) as [Hst Ht].
  - destruct (timeout_spec n n' out Hc Hst) as [Hk [(_ & -> & ->)|Hd]]; [lia|done| |].
    + apply (quiet_inv ids c id n); [done..|].
      apply inert_quiet; [apply inert_refl|apply no_votes_nil|done].
    + by apply (stands_inv ids c id n).
  - apply sendAll_inert in Heq as [Hin Hf]. apply (quiet_inv ids c id n); [done|done| |].
    + by apply inert_kept.
    + apply inert_quiet; [done| |done]. apply no_votes_type.
      eapply Forall_impl; [exact Hf|]. intros p Hp. by left.
  - destruct (propose_spec n n' out cmd r) as [Hk Hq]; [done..|]. by apply (quiet_inv ids c id n).
  - destruct (run_message_spec n m n' out) as [Hk [Hq|[(Hty & args & Hd & Hta & Hg)|(Hty & Hd & Hta)]]];
      [done..| | |].
    + by apply (quiet_inv ids c id n).
    + apply (grants_inv ids c id n n' out m args); try done. by apply Hv.
    + by apply (tallies_inv ids c id n n' out m).
  - destruct (restart_spec n) as [Hk Hq]; [done..|]. by apply (quiet_inv ids c id n).
Qed.

(** ** Fresh clusters *)

Lemma fresh_lookup ids id :
  NoDup ids →
  cl_nodes (fresh_cluster ids) !! id =
    (if decide (id ∈ ids) then Some (NewNode id (filter (λ p, p ≠ id) ids) ∅ true zero_state) else None).
Proof.
  intros Hnd. cbn [fresh_cluster cl_nodes].
  set (f := λ id, (id, NewNode id (filter (λ p, p ≠ id) ids) ∅ true zero_state)).
  assert ((f <$> ids).*1 = ids) as Hf.
  { rewrite <- list_fmap_compose. apply list_fmap_id. }
  case_decide as Hin.
  - apply elem_of_list_to_map_1; [by rewrite Hf|]. apply list_elem_of_fmap. by exists id.
  - apply not_elem_of_list_to_map_1. by rewrite Hf.
Qed.

Lemma peers_length (ids : list string) id :
  NoDup ids → id ∈ ids → S (length (filter (λ p, p ≠ id) ids)) = length ids.
Proof.
  intros Hnd Hin. apply list_elem_of_split in Hin as (l1 & l2 & ->).
  apply NoDup_app in Hnd as (_ & H1 & H2). apply NoDup_cons in H2 as [H2 _].
  rewrite filter_app, filter_cons, decide_False by tauto. rewrite !list_filter_all.
  - rewrite !length_app. simpl. lia.
  - apply Forall_forall. intros x Hx ->. done.
  - apply Forall_forall. intros x Hx ->. apply (H1 id Hx). by left.
Qed.

Lemma fresh_inv ids :
  NoDup ids → (2 <= length ids)%nat → EmptyString ∉ ids → cluster_inv ids (fresh_cluster ids).
Proof.
  intros Hnd Hlen Hne.
  assert (∀ id n, cl_nodes (fresh_cluster ids) !! id = Some n →
    id ∈ ids ∧ n = NewNode id (filter (λ p, p ≠ id) ids) ∅ true zero_state) as Hl.
  { intros id n. rewrite fresh_lookup by done. case_decide; [|done]. by intros [= <-]. }
  assert (∀ v t cand, ¬ voted_for (cl_sent (fresh_cluster ids)) v t cand) as Hno.
  { intros v t cand (p & Hp & _). by apply elem_of_nil in Hp. }
  split.
  - intros id. rewrite fresh_lookup by done. case_decide; [|by split; [intros [? ?]|]].
    split; [done|by eexists].
  - intros id n Hn. apply Hl in Hn as [Hin ->]. split_and!; [done|done|]. split_and!; [done| |done|].
    + cbn. intros Hnil. pose proof (peers_length ids id Hnd Hin) as Hp. rewrite Hnil in Hp.
      simpl in Hp. lia.
    + cbn. intros Hin'. by apply list_elem_of_filter in Hin' as [_ ?].
  - intros id n Hn. apply Hl in Hn as [Hin ->]. done.
  - intros v t cand Hv. by apply Hno in Hv.
  - intros v t c1 c2 Hv. by apply Hno in Hv.
  - intros id n Hn. by apply Hl in Hn as [Hin ->].
  - intros id n Hn. by apply Hl in Hn as [Hin ->].
Qed.

Lemma run_inv ids c0 c : cluster_inv ids c0 → cluster_run c0 c → cluster_inv ids c.
Proof. intros H0. induction 1 as [|c e c' _ IH Hv Hs]; [done|]. by eapply step_inv. Qed.

(** Two majorities of the nodes share a member. *)
Lemma majorities_meet (ids : list string) (v1 v2 : gset string) n :
  NoDup ids → v1 ⊆ list_to_set ids → v2 ⊆ list_to_set ids →
  Z.of_nat n = Z.of_nat (length ids) → Z.of_nat n / 2 + 1 <= Z.of_nat (size v1) →
  Z.of_nat n / 2 + 1 <= Z.of_nat (size v2) → ∃ v, v ∈ v1 ∧ v ∈ v2.
Proof.
  intros Hnd H1 H2 Hn Hs1 Hs2. destruct (decide (v1 ## v2)) as [Hd|Hd].
  - exfalso. assert (v1 ∪ v2 ⊆ list_to_set ids) as Hu by (apply union_subseteq; by split).
    apply subseteq_size in Hu. rewrite size_union in Hu by done.
    rewrite size_list_to_set in Hu by done. pose proof (Z.div_mod (Z.of_nat n) 2 ltac:(lia)).
    pose proof (Z.mod_pos_bound (Z.of_nat n) 2 ltac:(lia)). lia.
  - rewrite disjoint_intersection_L in Hd. apply set_choose_L in Hd as [v Hv].
    exists v. set_solver.
Qed.

(** ** Properties *)

(** C4: election safety: in a cluster of any size, under message loss, delay,
    duplication and reordering and under crashes with restart from the
    store, no two nodes are ever leaders of the same term, as long as no node
    answers a vote request of a term in which it has voted and had its vote
    cleared. *)
Theorem election_safety ids c id1 id2 n1 n2 :
  NoDup ids → (2 <= length ids)%nat → EmptyString ∉ ids →
  cluster_run (fresh_cluster ids) c →
  cl_nodes c !! id1 = Some n1 → cl_nodes c !! id2 = Some n2 →
  nd_role n1 = Leader → nd_role n2 = Leader → term n1 = term n2 → id1 = id2.
Proof.
  intros Hnd Hlen Hne Hrun Hn1 Hn2 Hl1 Hl2 Ht.
  pose proof (run_inv ids _ _ (fresh_inv ids Hnd Hlen Hne) Hrun) as Hi.
  assert (∀ id n, cl_nodes c !! id = Some n → nd_role n = Leader →
    nd_voteGranted n ⊆ list_to_set ids ∧
    Z.of_nat (length ids) / 2 + 1 <= Z.of_nat (size (nd_voteGranted n))) as Hmaj.
  { intros id n Hn Hl. split.
    - intros u Hu. apply elem_of_list_to_set. apply (ci_dom _ _ Hi).
      destruct (ci_cast _ _ Hi u (term n) id) as (nu & Hnu & _); [|by eexists].
      apply (ci_tally _ _ Hi id n); [done|congruence|done].
    - pose proof (ci_leader _ _ Hi id n Hn Hl) as Hq. unfold quorum, zlen in Hq.
      destruct (ci_config _ _ Hi id n Hn) as (_ & Hp & _). rewrite Hp in Hq.
      assert (id ∈ ids) as Hin by (apply (ci_dom _ _ Hi); by eexists).
      pose proof (peers_length ids id Hnd Hin) as Hpl.
      replace (Z.of_nat (length ids)) with (Z.of_nat (length (filter (λ p, p ≠ id) ids)) + 1) by lia.
      done. }
  destruct (Hmaj _ _ Hn1 Hl1) as [Hs1 Hq1]. destruct (Hmaj _ _ Hn2 Hl2) as [Hs2 Hq2].
  destruct (majorities_meet ids _ _ (length ids) Hnd Hs1 Hs2 eq_refl Hq1 Hq2) as (v & Hv1 & Hv2).
  apply (ci_once _ _ Hi v (term n1)).
  - apply (ci_tally _ _ Hi id1 n1); [done|congruence|done].
  - rewrite Ht. apply (ci_tally _ _ Hi id2 n2); [done|congruence|done].
Qed.

(** ** Concrete runs *)

(** A schedule: a timeout of a node, a proposal to it, or the delivery of the
    [k]-th message sent. *)
Inductive act :=
| ATimeout (id : string)
| APropose (id : string) (cmd : bytes)
| ADeliver (k : nat).

Definition exec_one (c : cluster) (a : act) : option cluster :=
  match a with
  | ATimeout id =>
      match cl_nodes c !! id with
      | Some n =>
          if term n <? u64_max then
            let '(n', out) := handleElectionTimeout n in Some (update c id n' out)
          else None
      | None => None
      end
  | APropose id cmd =>
      match cl_nodes c !! id with
      | Some n =>
          match Node_Propose n cmd with
          | Some (n', out, _) => Some (update c id n' out)
          | None => None
          end
      | None => None
      end
  | ADeliver k =>
      match cl_sent c !! k with
      | Some (id, m) =>
          match cl_nodes c !! id with
          | Some n =>
              match run_message n m with
              | Some (n', out) => Some (update c id n' out)
              | None => None
              end
          | None => None
          end
      | None => None
      end
  end.

Lemma exec_one_sound c a c' :
  exec_one c a = Some c' →
  ∃ e, cluster_step c e c' ∧
    match a with ADeliver k => ∃ id m, cl_sent c !! k = Some (id, m) ∧ e = EvDeliver id m | _ => votes_kept c e end.
Proof.
  destruct a as [id|id cmd|k]; cbn [exec_one].
  - destruct (cl_nodes c !! id) as [n|] eqn:Hn; [|done]. destruct (Z.ltb_spec (term n) u64_max); [|done].
    destruct (handleElectionTimeout n) as [n' out] eqn:Ht. intros [= <-].
    exists (EvTimeout id). split; [|done]. by eapply step_timeout.
  - destruct (cl_nodes c !! id) as [n|] eqn:Hn; [|done].
    destruct (Node_Propose n cmd) as [[[n' out] r]|] eqn:Hp; [|done]. intros [= <-].
    exists (EvPropose id cmd). split; [|done]. by eapply step_propose.
  - destruct (cl_sent c !! k) as [[id m]|] eqn:Hk; [|done].
    destruct (cl_nodes c !! id) as [n|] eqn:Hn; [|done].
    destruct (run_message n m) as [[n' out]|] eqn:Hm; [|done]. intros [= <-].
    exists (EvDeliver id m). split; [|by eauto]. eapply step_deliver; [done| |done].
    by eapply list_elem_of_lookup_2.
Qed.

Definition exec (c : cluster) (ss : list act) : option cluster :=
  foldl (λ c s, match c with Some c => exec_one c s | None => None end) (Some c) ss.

(** Any schedule of the program, the forgetful ones included. *)
Inductive free_run (c0 : cluster) : cluster → Prop :=
| free_nil : free_run c0 c0
| free_step c e c' : free_run c0 c → cluster_step c e c' → free_run c0 c'.

Lemma exec_free c0 ss c : exec c0 ss = Some c → free_run c0 c.
Proof.
  revert c. induction ss as [|s ss IH] using rev_ind; intros c; unfold exec in *.
  - intros [= <-]. constructor.
  - rewrite foldl_app. cbn [foldl]. destruct (foldl _ _ ss) as [c1|]; [|done].
    intros Hs. apply exec_one_sound in Hs as (e & Hs & _). eapply free_step; [by apply IH|done].
Qed.

Definition abc : list string := ["a"; "b"; "c"].

(** [a] and [b] stand in term 1; [c] votes for [a], is cleared by the first
    heartbeat of [a] and then grants [b]'s delayed request. *)
Definition double_vote : list act :=
  [ATimeout "a"; ATimeout "b"; ADeliver 1; ADeliver 4; ADeliver 6; ADeliver 3; ADeliver 8].

(** What is seen of a node of a cluster. *)
Definition observe {A} (f : Node → A) (id : string) (c : cluster) : option A := f <$> cl_nodes c !! id.

Definition office (n : Node) : Role * Z := (nd_role n, term n).

Lemma exec_observe {A} (f : cluster → A) c0 ss a :
  f <$> exec c0 ss = Some a → ∃ c, free_run c0 c ∧ f c = a.
Proof.
  intros (c & Hc & ->)%fmap_Some. exists c. split; [|done]. by eapply exec_free.
Qed.

(** The code as it stands elects two leaders of one term: from a fresh
    cluster of three nodes there is a schedule after which two nodes lead
    term 1. *)
Theorem two_leaders_one_term :
  ∃ c, free_run (fresh_cluster abc) c ∧
    (observe office "a" c, observe office "b" c) = (Some (Leader, 1), Some (Leader, 1)).
Proof.
  apply (exec_observe (λ c, (observe office "a" c, observe office "b" c)) _ double_vote).
  vm_compute. reflexivity.
Qed.

(** [b] leads term 1 and holds an entry nobody else has; [a] wins term 2 with
    the vote of [c] and its first, empty heartbeat makes [b] report its own
    entry as matching, so that [a]'s next proposal commits on the spot. *)
Definition early_commit : list act :=
  [ATimeout "b"; ADeliver 1; ADeliver 2; APropose "b" [Byte.x01];
   ATimeout "a"; ATimeout "a"; ADeliver 10; ADeliver 11; ADeliver 12; APropose "a" [Byte.x02]; ADeliver 14].

(** The code as it stands commits an entry that only the leader holds:
    from a fresh cluster of three nodes there is a schedule after which the
    leader has committed its first entry, while one other node has a different
    first entry and the third has none. *)
Theorem commit_without_replication :
  ∃ c, free_run (fresh_cluster abc) c ∧
    (observe (λ n, (nd_role n, nd_commitIndex n, rlog n)) "a" c, observe rlog "b" c, observe rlog "c" c) =
      (Some (Leader, 1, [mkLogEntry 2 1 [Byte.x02]]), Some [mkLogEntry 1 1 [Byte.x01]], Some []).
Proof.
  apply (exec_observe (λ c, (observe (λ n, (nd_role n, nd_commitIndex n, rlog n)) "a" c,
    observe rlog "b" c, observe rlog "c" c)) _ early_commit).
  vm_compute. reflexivity.
Qed.

(** A sufficient test that a delivery does not answer with a forgotten vote. *)
Definition keeps_vote (c : cluster) (a : act) : bool :=
  match a with
  | ADeliver k =>
      match cl_sent c !! k with
      | Some (id, m) =>
          match cl_nodes c !! id, decodeJSON (rm_Body m) with
          | Some n, Some args =>
              negb ((rm_Type m =? MsgRaftRequestVote) && (rv_Term args =? term n) &&
                    bool_decide (voted n = EmptyString))
          | _, _ => true
          end
      | None => true
      end
  | _ => true
  end.

Lemma keeps_vote_sound c a c' :
  keeps_vote c a = true → exec_one c a = Some c' → ∃ e, votes_kept c e ∧ cluster_step c e c'.
Proof.
  intros Hk Hs. apply exec_one_sound in Hs as (e & Hs & He). exists e. split; [|done].
  destruct a as [id|id cmd|k]; [done|done|]. destruct He as (id & m & Hl & ->). cbn [votes_kept].
  intros n Hn (args & cand & Hty & Hd & Ht & Hv & _). cbn [keeps_vote] in Hk.
  rewrite Hl, Hn, Hd, Hty, Ht, Hv, !Z.eqb_refl in Hk. by rewrite bool_decide_eq_true_2 in Hk.
Qed.

Fixpoint exec_kept (c : cluster) (ss : list act) : option cluster :=
  match ss with
  | [] => Some c
  | s :: ss' =>
      if keeps_vote c s then
        match exec_one c s with Some c' => exec_kept c' ss' | None => None end
      else None
  end.

Lemma exec_kept_run c0 c ss c' :
  cluster_run c0 c → exec_kept c ss = Some c' → cluster_run c0 c'.
Proof.
  revert c. induction ss as [|s ss IH]; intros c Hr; cbn [exec_kept]; [by intros [= <-]|].
  destruct (keeps_vote c s) eqn:Hk; [|done]. destruct (exec_one c s) as [c1|] eqn:He; [|done].
  apply IH. destruct (keeps_vote_sound _ _ _ Hk He) as (e & Hv & Hs). by eapply run_step.
Qed.

Definition one_election : list act := [ATimeout "a"; ADeliver 1; ADeliver 2].

Lemma election_safety_witness :
  ∃ c n, cluster_run (fresh_cluster abc) c ∧ cl_nodes c !! "a" = Some n ∧ nd_role n = Leader ∧
    ∀ id2 n2, cl_nodes c !! id2 = Some n2 → nd_role n2 = Leader → term n2 = 1 → "a"%string = id2.
Proof.
  assert (observe office "a" <$> exec_kept (fresh_cluster abc) one_election = Some (Some (Leader, 1)))
    as (c & E & Ho)%fmap_Some by (vm_compute; reflexivity).
  symmetry in Ho. unfold observe, office in Ho.
  apply fmap_Some in Ho as (n & Hn & Hl). injection Hl as Hl Ht.
  pose proof (exec_kept_run _ _ _ _ (run_nil _) E) as Hr.
  exists c, n. split; [exact Hr|]. split; [exact Hn|]. split; [congruence|].
  intros id2 n2 Hn2 Hl2 Ht2. apply (election_safety abc c "a" id2 n n2).
  - apply (bool_decide_unpack _). vm_compute. exact I.
  - vm_compute. lia.
  - apply (bool_decide_unpack _). vm_compute. exact I.
  - exact Hr.
  - exact Hn.
  - exact Hn2.
  - congruence.
  - exact Hl2.
  - congruence.
Defined.
