(* ===== verification/RaftLog.v ===== *)
(** * Log replication of a Raft node

    What [appendEntriesFromLeader] makes of a follower's log, which index a
    leader commits and what is applied. *)

From S2P Require Import Prelude GoLib Json RaftRpc Raft.

Local Open Scope Z_scope.

(** ** Reconciliation *)

Definition term_at (log : list LogEntry) (i : nat) : option Z := le_Term <$> log !! i.

(** The first [k] entries are in the log from position [p] on, by term. *)
Definition agrees (log : list LogEntry) (p k : nat) (entries : list LogEntry) : Prop :=
  ∀ j, (j < k)%nat → is_Some (entries !! j) ∧ term_at log (p + j) = term_at entries j.

(** What the entries leave of the log: they agree up to [k]; if that is all of
    them the log stays, and otherwise the rest replaces the log from there. *)
Definition reconciled (log : list LogEntry) (p : nat) (entries log' : list LogEntry) : Prop :=
  ∃ k, agrees log p k entries ∧
    ((k = length entries ∧ log' = log) ∨
     ((k < length entries)%nat ∧ log' = take (p + k) log ++ drop k entries ∧
      term_at log (p + k) ≠ term_at entries k)).

Lemma agrees_cons log p k e entries x :
  log !! p = Some x → le_Term x = le_Term e → agrees log (S p) k entries →
  agrees log p (S k) (e :: entries).
Proof.
  intros Hx Ht Ha [|j] Hj.
  - split; [by eexists|]. unfold term_at. rewrite Nat.add_0_r, Hx. simpl. by rewrite Ht.
  - rewrite Nat.add_succ_r. apply (Ha j). lia.
Qed.

Lemma merge_loop_spec log prev i entries :
  0 <= prev → 0 <= i → prev + i <= zlen log → prev + i + zlen entries < 2 ^ 64 →
  reconciled log (Z.to_nat (prev + i)) entries (merge_loop log (u64 (prev + 1)) i entries).
Proof.
  intros Hp. revert i. induction entries as [|e entries IH]; intros i Hi Hle Hlt; cbn [merge_loop].
  { exists 0%nat. split; [intros j Hj; lia|by left]. }
  rewrite zlen_cons in Hlt. pose proof (zlen_nonneg entries) as Hz.
  assert (u64 (u64 (prev + 1) + i) = prev + i + 1) as ->.
  { rewrite (u64_id (prev + 1)) by (unfold is_u64; lia). rewrite u64_id by (unfold is_u64; lia). lia. }
  replace (prev + i + 1 - 1) with (prev + i) by lia.
  destruct (Z.ltb_spec (zlen log) (prev + i + 1)) as [Hend|Hin].
  { assert (Z.to_nat (prev + i) = length log) as Hl by (unfold zlen in *; lia).
    exists 0%nat. split; [intros j Hj; lia|]. right. split; [simpl; lia|].
    rewrite Hl, Nat.add_0_r, take_ge by done. split; [done|].
    unfold term_at. by rewrite lookup_ge_None_2. }
  destruct (lookup_lt_is_Some_2 log (Z.to_nat (prev + i))) as [x Hx]; [unfold zlen in *; lia|].
  rewrite Hx. destruct (Z.eqb_spec (le_Term x) (le_Term e)) as [Heq|Hne]; cbn [negb].
  - destruct (IH (i + 1)) as (k & Ha & Hr); [lia|lia|lia|].
    replace (Z.to_nat (prev + (i + 1))) with (S (Z.to_nat (prev + i))) in Ha, Hr by lia.
    exists (S k). split; [by eapply agrees_cons|]. rewrite Nat.add_succ_r.
    destruct Hr as [[-> ->]|(Hk & -> & Ht)]; [by left|].
    right. split; [simpl; lia|]. split; [done|]. exact Ht.
  - exists 0%nat. split; [intros j Hj; lia|]. right. rewrite Nat.add_0_r.
    split; [simpl; lia|]. split; [done|]. unfold term_at. rewrite Hx. simpl. congruence.
Qed.

(** The log before the entries stays, and under log matching (equal terms at
    an index mean equal entries) the entries follow it. *)
Lemma reconciled_prefix log p entries log' :
  (p <= length log)%nat → reconciled log p entries log' → take p log' = take p log.
Proof.
  intros Hp (k & Ha & [[_ ->]|(Hk & -> & _)]); [done|].
  destruct (decide (k = 0%nat)) as [->|Hk0].
  - rewrite Nat.add_0_r, take_app_le, take_take by (rewrite length_take; lia). f_equal. lia.
  - destruct (Ha (k - 1)%nat) as [[e He] Ht]; [lia|].
    assert (p + (k - 1) < length log)%nat as Hlt.
    { unfold term_at in Ht. rewrite He in Ht. apply lookup_lt_is_Some. destruct (log !! _); [by eexists|done]. }
    rewrite take_app_le by (rewrite length_take; lia). rewrite take_take. f_equal. lia.
Qed.

Lemma reconciled_entries log p entries log' :
  (p <= length log)%nat → reconciled log p entries log' →
  (∀ j x e, log !! (p + j)%nat = Some x → entries !! j = Some e → le_Term x = le_Term e → x = e) →
  take (length entries) (drop p log') = entries.
Proof.
  intros Hp (k & Ha & Hr) Hm.
  assert (∀ j, (j < k)%nat → log !! (p + j)%nat = entries !! j) as Hj.
  { intros j Hj. destruct (Ha j Hj) as [[e He] Ht]. unfold term_at in Ht. rewrite He in Ht |- *.
    destruct (log !! (p + j)%nat) as [x|] eqn:Hx; [|done]. f_equal. simpl in Ht.
    apply (Hm j); [done|done|congruence]. }
  apply list_eq. intros j. destruct (decide (j < length entries)%nat) as [Hlt|Hge].
  2: { rewrite lookup_ge_None_2 by (rewrite length_take; lia). symmetry. apply lookup_ge_None_2. lia. }
  rewrite lookup_take_lt, lookup_drop by done. destruct Hr as [[-> ->]|(Hk & -> & _)]; [by apply Hj|].
  assert (k = 0 ∨ p + k <= length log)%nat as Hpk.
  { destruct k as [|k]; [by left|]. right. destruct (lookup_lt_is_Some_2 entries k) as [e He]; [lia|].
    specialize (Hj k ltac:(lia)). rewrite He in Hj. apply lookup_lt_Some in Hj. lia. }
  destruct (decide (j < k)%nat) as [Hjk|Hjk].
  - rewrite lookup_app_l by (rewrite length_take; lia). rewrite lookup_take_lt by lia. by apply Hj.
  - rewrite lookup_app_r by (rewrite length_take; lia). rewrite lookup_drop, length_take. f_equal. lia.
Qed.

(** The first index of the run of equal terms that ends at the conflict. *)
Lemma conflict_start_spec log ct ci :
  (0 < ci <= length log)%nat → term_at log (ci - 1) = Some ct →
  let c := conflict_start log ct ci in
  (0 < c <= ci)%nat ∧ (∀ i, (c <= i <= ci)%nat → term_at log (i - 1) = Some ct) ∧
  (c = 1%nat ∨ term_at log (c - 2) ≠ Some ct).
Proof.
  induction ci as [|ci IH]; intros Hc Ht; [lia|]. cbn [conflict_start].
  destruct ci as [|i].
  { split_and!; [lia|lia| |by left]. intros i Hi. replace i with 1%nat by lia. exact Ht. }
  destruct (lookup_lt_is_Some_2 log i) as [e He]; [lia|]. rewrite He.
  destruct (Z.eqb_spec (le_Term e) ct) as [Heq|Hne].
  - destruct IH as (H1 & H2 & H3); [lia| |].
    { unfold term_at. replace (S i - 1)%nat with i by lia. rewrite He. simpl. by f_equal. }
    split_and!; [lia|lia| |done]. intros j Hj. destruct (decide (j = S (S i))) as [->|]; [done|].
    apply H2. lia.
  - split_and!; [lia|lia| |].
    + intros j Hj. replace j with (S (S i)) by lia. exact Ht.
    + right. replace (S (S i) - 2)%nat with i by lia. unfold term_at. rewrite He. simpl. congruence.
Qed.

(** ** Application *)

Lemma apply_loop_spec k n :
  0 <= nd_lastApplied n → nd_lastApplied n + Z.of_nat k <= zlen (rlog n) →
  ∃ n', apply_loop k n = Some n' ∧
    nd_lastApplied n' = nd_lastApplied n + Z.of_nat k ∧
    nd_applied n' = nd_applied n ++ (le_Command <$> take k (drop (Z.to_nat (nd_lastApplied n)) (rlog n))) ∧
    rlog n' = rlog n ∧ nd_commitIndex n' = nd_commitIndex n.
Proof.
  revert n. induction k as [|k IH]; intros n H0 Hle; cbn [apply_loop].
  { exists n. rewrite take_0, app_nil_r. split_and!; [done|lia|done..]. }
  replace (nd_lastApplied n + 1 - 1) with (nd_lastApplied n) by lia.
  destruct (lookup_lt_is_Some_2 (rlog n) (Z.to_nat (nd_lastApplied n))) as [e He];
    [unfold zlen in *; lia|].
  rewrite He. destruct (IH (applied_one n (nd_lastApplied n + 1) (le_Command e))) as (n' & -> & Hl & Ha & Hg & Hc);
    [cbn; lia|cbn [applied_one nd_lastApplied]; change (rlog (applied_one _ _ _)) with (rlog n); lia|].
  exists n'. split; [done|]. cbn [applied_one nd_lastApplied nd_applied nd_commitIndex] in *.
  change (rlog (applied_one _ _ _)) with (rlog n) in *. split_and!; [lia| |done|done].
  rewrite Ha, (drop_S _ _ _ He). cbn [take fmap list_fmap]. rewrite <- (assoc_L (++)).
  replace (Z.to_nat (nd_lastApplied n + 1)) with (S (Z.to_nat (nd_lastApplied n))) by lia. done.
Qed.

(** ** Commitment *)

Definition may_commit (n : Node) (idx : Z) : Prop :=
  term_at (rlog n) (Z.to_nat (idx - 1)) = Some (term n) ∧ quorum n <= replicated n idx.

(** The highest index of the term that a quorum holds, and everything up to
    it applied. *)
Definition committed_to (n : Node) (idx : Z) (n' : Node) : Prop :=
  nd_commitIndex n' = idx ∧ nd_lastApplied n' = idx ∧ rlog n' = rlog n ∧
  nd_applied n' = nd_applied n ++
    (le_Command <$> take (Z.to_nat (idx - nd_lastApplied n)) (drop (Z.to_nat (nd_lastApplied n)) (rlog n))).

Lemma advance_loop_spec n i :
  0 <= nd_lastApplied n <= nd_commitIndex n → (i <= length (rlog n))%nat →
  (∃ idx n', advance_loop n i = Some n' ∧ nd_commitIndex n < idx <= Z.of_nat i ∧ may_commit n idx ∧
     (∀ j, idx < j <= Z.of_nat i → ¬ may_commit n j) ∧ committed_to n idx n') ∨
  (advance_loop n i = Some n ∧ ∀ j, nd_commitIndex n < j <= Z.of_nat i → ¬ may_commit n j).
Proof.
  intros Ha. induction i as [|i IH]; intros Hi; cbn [advance_loop].
  { right. split; [done|lia]. }
  destruct (Z.ltb_spec (nd_commitIndex n) (Z.of_nat (S i))) as [Hlt|Hge].
  2: { right. split; [done|lia]. }
  destruct (lookup_lt_is_Some_2 (rlog n) i) as [e He]; [lia|]. rewrite He.
  assert (term_at (rlog n) (Z.to_nat (Z.of_nat (S i) - 1)) = Some (le_Term e)) as Hte.
  { replace (Z.to_nat (Z.of_nat (S i) - 1)) with i by lia. unfold term_at. by rewrite He. }
  assert (¬ may_commit n (Z.of_nat (S i)) → (∃ idx n', advance_loop n i = Some n' ∧
      nd_commitIndex n < idx <= Z.of_nat (S i) ∧ may_commit n idx ∧
      (∀ j, idx < j <= Z.of_nat (S i) → ¬ may_commit n j) ∧ committed_to n idx n') ∨
    (advance_loop n i = Some n ∧ ∀ j, nd_commitIndex n < j <= Z.of_nat (S i) → ¬ may_commit n j)) as Hskip.
  { intros Hno. assert (∀ j, j <= Z.of_nat (S i) → j = Z.of_nat (S i) ∨ j <= Z.of_nat i) as Hj by lia.
    destruct IH as [(idx & n' & Heq & Hb & Hm & Hmax & Hc)|[Heq Hmax]]; [lia| |].
    - left. exists idx, n'. split_and!; [done|lia|lia|done| |done].
      intros j Hjr. destruct (Hj j) as [->|?]; [lia|done|]. apply Hmax. lia.
    - right. split; [done|]. intros j Hjr. destruct (Hj j) as [->|?]; [lia|done|]. apply Hmax. lia. }
  destruct (Z.eqb_spec (le_Term e) (term n)) as [Heq|Hne]; cbn [negb].
  2: { apply Hskip. intros [Hm _]. rewrite Hte in Hm. congruence. }
  destruct (Z.leb_spec (quorum n) (replicated n (Z.of_nat (S i)))) as [Hq|Hq].
  2: { apply Hskip. intros [_ Hm]. lia. }
  left. unfold applyCommittedLocked.
  destruct (apply_loop_spec (Z.to_nat (Z.of_nat (S i) - nd_lastApplied n)) (set_commit n (Z.of_nat (S i))))
    as (n' & Hap & Hl & Happ & Hg & Hc).
  { cbn. lia. }
  { change (rlog (set_commit _ _)) with (rlog n). cbn [set_commit nd_lastApplied]. unfold zlen. lia. }
  exists (Z.of_nat (S i)), n'. split; [exact Hap|]. split; [lia|].
  split; [split; [by rewrite Hte, Heq|done]|]. split; [lia|].
  split_and!; [exact Hc| |exact Hg|exact Happ]. cbn [set_commit nd_lastApplied] in Hl. lia.
Qed.

(** ** Properties *)

(** Log reconciliation: entries from a leader are rejected, changing
    nothing, exactly when the log has no entry of [prevTerm] at [prevIndex],
    and the reply names the first index of the conflicting term's run;
    otherwise nothing up to [prevIndex] changes, an agreeing log is never
    shortened, a conflicting one is cut at the first conflict, and, when equal
    terms at an index mean equal entries, the log continues with exactly the
    leader's entries. *)
Theorem append_entries_reconciles n prev prevTerm entries n' ok ci ct :
  0 <= prev → prev + zlen entries < 2 ^ 64 → zlen (rlog n) < 2 ^ 64 - 1 →
  appendEntriesFromLeader n prev prevTerm entries = (n', (ok, ci, ct)) →
  let p := Z.to_nat prev in
  let present := prev = 0 ∨ prev <= zlen (rlog n) ∧ term_at (rlog n) (p - 1) = Some prevTerm in
  (ok = true ↔ present) ∧
  (ok = false → n' = n ∧
     ((zlen (rlog n) < prev ∧ ci = zlen (rlog n) + 1 ∧ ct = 0) ∨
      (1 <= ci <= prev ∧ ct ≠ prevTerm ∧
       (∀ i, ci <= i <= prev → term_at (rlog n) (Z.to_nat i - 1) = Some ct) ∧
       (ci = 1 ∨ term_at (rlog n) (Z.to_nat ci - 2) ≠ Some ct)))) ∧
  (ok = true → reconciled (rlog n) p entries (rlog n') ∧ take p (rlog n') = take p (rlog n) ∧
     ((∀ j x e, rlog n !! (p + j)%nat = Some x → entries !! j = Some e → le_Term x = le_Term e → x = e) →
      take (length entries) (drop p (rlog n')) = entries)).
Proof.
  intros Hp Hlt Hlen Heq p present. unfold appendEntriesFromLeader in Heq.
  assert (prev <= zlen (rlog n) →
    (persistLocked (set_log n (merge_loop (rlog n) (u64 (prev + 1)) 0 entries)), (true, 0, 0)) =
      (n', (ok, ci, ct)) → ok = true ∧ reconciled (rlog n) p entries (rlog n') ∧
    take p (rlog n') = take p (rlog n) ∧
     ((∀ j x e, rlog n !! (p + j)%nat = Some x → entries !! j = Some e → le_Term x = le_Term e → x = e) →
      take (length entries) (drop p (rlog n')) = entries)) as Haccept.
  { intros Hle [= <- <- _ _]. split; [done|].
    assert (rlog (persistLocked (set_log n (merge_loop (rlog n) (u64 (prev + 1)) 0 entries))) =
      merge_loop (rlog n) (u64 (prev + 1)) 0 entries) as ->
      by (unfold persistLocked; by destruct (nd_saves (set_log _ _))).
    pose proof (merge_loop_spec (rlog n) prev 0 entries Hp ltac:(lia) ltac:(lia) ltac:(lia)) as Hr.
    rewrite Z.add_0_r in Hr. fold p in Hr.
    assert (p <= length (rlog n))%nat by (unfold p, zlen in *; lia).
    split; [done|]. split; [by eapply reconciled_prefix|]. by apply reconciled_entries. }
  destruct (Z.ltb_spec (zlen (rlog n)) prev) as [Hover|Hle].
  { injection Heq as <- <- <- <-. split; [|split; [|done]].
    - split; [done|]. intros [->|[? _]]; [pose proof (zlen_nonneg (rlog n)); lia|lia].
    - intros _. split; [done|]. left. split_and!; [done| |done]. apply u64_id. unfold is_u64.
      pose proof (zlen_nonneg (rlog n)). lia. }
  destruct (Z.ltb_spec 0 prev) as [Hpos|H0].
  2: { destruct (Haccept Hle Heq) as (-> & Hrest). split; [|split; [done|done]].
       split; [|done]. intros _. left. lia. }
  destruct (lookup_lt_is_Some_2 (rlog n) (Z.to_nat (prev - 1))) as [e He]; [unfold zlen in *; lia|].
  rewrite He in Heq. assert (term_at (rlog n) (p - 1) = Some (le_Term e)) as Hte.
  { unfold term_at, p. replace (Z.to_nat prev - 1)%nat with (Z.to_nat (prev - 1)) by lia. by rewrite He. }
  destruct (Z.eqb_spec (le_Term e) prevTerm) as [Het|Hne]; cbn [negb] in Heq.
  { destruct (Haccept Hle Heq) as (-> & Hrest). split; [|split; [done|done]].
    split; [|done]. intros _. right. split; [done|]. by rewrite Hte, Het. }
  injection Heq as <- <- <- <-. split; [|split; [|done]].
  { split; [done|]. intros [->|[_ Ht]]; [lia|]. rewrite Hte in Ht. congruence. }
  intros _. split; [done|]. right.
  destruct (conflict_start_spec (rlog n) (le_Term e) p) as (H1 & H2 & H3);
    [unfold p, zlen in *; lia|done|].
  assert (Z.of_nat p = prev) as Hpz by (unfold p; lia). fold p. cbv zeta in H1, H2, H3.
  split; [lia|]. split; [done|]. split.
  - intros i Hi. apply H2. lia.
  - rewrite Nat2Z.id. destruct H3 as [H3|H3]; [left; lia|by right].
Qed.

(** The commit rule: a leader commits the highest index of its own term
    that it knows a quorum to hold and applies everything up to it, in order
    and without skipping or repeating an entry; if no such index lies above
    its commit index it commits nothing.  It never runs out of its log. *)
Theorem leader_commits_quorum n :
  nd_role n = Leader → 0 <= nd_lastApplied n <= nd_commitIndex n →
  (∃ idx n', advanceCommitIndexLocked n = Some n' ∧ nd_commitIndex n < idx <= zlen (rlog n) ∧
     may_commit n idx ∧ (∀ j, idx < j <= zlen (rlog n) → ¬ may_commit n j) ∧ committed_to n idx n') ∨
  (advanceCommitIndexLocked n = Some n ∧
   ∀ j, nd_commitIndex n < j <= zlen (rlog n) → ¬ may_commit n j).
Proof.
  intros Hl Ha. unfold advanceCommitIndexLocked. rewrite bool_decide_eq_true_2 by done.
  by apply advance_loop_spec.
Qed.

(** ** Concrete nodes *)

Definition entry_of (t i : Z) : LogEntry := mkLogEntry t i [].

Definition demo_follower : Node :=
  set_log (NewNode "b" ["a"; "c"] ∅ true zero_state) [entry_of 1 1; entry_of 1 2; entry_of 2 3].

Lemma append_entries_reconciles_witness :
  ∃ n', appendEntriesFromLeader demo_follower 1 1 [entry_of 1 2; entry_of 3 3; entry_of 3 4] = (n', (true, 0, 0)) ∧
    take 3 (drop 1 (rlog n')) = [entry_of 1 2; entry_of 3 3; entry_of 3 4].
Proof.
  destruct (appendEntriesFromLeader demo_follower 1 1 [entry_of 1 2; entry_of 3 3; entry_of 3 4])
    as [n' [[ok ci] ct]] eqn:E.
  destruct (append_entries_reconciles demo_follower 1 1 [entry_of 1 2; entry_of 3 3; entry_of 3 4] n' ok ci ct)
    as (_ & _ & Hok); [lia|reflexivity|reflexivity|exact E|].
  assert (ok = true ∧ ci = 0 ∧ ct = 0) as (-> & -> & ->).
  { apply (f_equal snd) in E. vm_compute in E. injection E as <- <- <-. done. }
  exists n'. split; [reflexivity|]. apply Hok; [done|].
  intros [|[|j]] x e Hx He Ht.
  - vm_compute in Hx, He. congruence.
  - vm_compute in Hx, He. injection Hx as <-. injection He as <-. vm_compute in Ht. discriminate Ht.
  - vm_compute in Hx. destruct j; discriminate Hx.
Defined.

Definition demo_leader : Node :=
  set_indexes
    (set_role (set_log (set_term (NewNode "a" ["b"; "c"] ∅ true zero_state) 2 "a")
       [entry_of 1 1; entry_of 2 2; entry_of 2 3]) Leader "a" true)
    ∅ {["b"%string := 2]}.

Lemma leader_commits_quorum_witness :
  ∃ n', advanceCommitIndexLocked demo_leader = Some n' ∧ nd_commitIndex n' = 2.
Proof.
  assert (nd_commitIndex <$> advanceCommitIndexLocked demo_leader = Some 2) as Hv
    by (vm_compute; reflexivity).
  destruct (leader_commits_quorum demo_leader) as [(idx & n' & Heq & _)|[Heq _]].
  - reflexivity.
  - vm_compute. split; congruence.
  - exists n'. rewrite Heq in Hv. injection Hv as Hv. split; [exact Heq|exact Hv].
  - rewrite Heq in Hv. discriminate Hv.
Defined.
