(* ===== verification/RaftMatching.v ===== *)
(** * Log matching in a Raft cluster

    Over the runs of [RaftElection.v]: two logs with entries of one term at an
    index are equal up to there.  The ghost state is the history of the
    leaders: for each term its leader and the log it has built. *)

From S2P Require Import Prelude GoLib Json RaftRpc Raft RaftElection RaftLog.

Local Open Scope Z_scope.

(** ** Logs and the leaders that wrote them *)

Definition short (log : list LogEntry) : Prop := zlen log < 2 ^ 63.

Abbreviation reign := (gmap Z (string * list LogEntry)).

Implicit Type g : reign.

(** Up to each of its entries the log is the one of that entry's leader. *)
Definition written g (log : list LogEntry) : Prop :=
  ∀ i t, term_at log i = Some t → ∃ id h, g !! t = Some (id, h) ∧ take (S i) log = take (S i) h.

Definition log_ok g (log : list LogEntry) : Prop :=
  short log ∧ Forall LogEntry_wf log ∧ written g log.

(** What is sent is the rest of such a log after [prev], or is refused by
    every log for its [prev]. *)
Definition excerpt g (a : AppendEntriesArgs) : Prop :=
  2 ^ 63 <= ae_PrevLogIndex a ∨
  ∃ log, log_ok g log ∧ 0 <= ae_PrevLogIndex a <= zlen log ∧
    ae_Entries a = drop (Z.to_nat (ae_PrevLogIndex a)) log ∧
    (0 < ae_PrevLogIndex a →
     term_at log (Z.to_nat (ae_PrevLogIndex a) - 1) = Some (ae_PrevLogTerm a)).

(** Leaders stay and their logs grow. *)
Definition extends g g' : Prop :=
  ∀ t id h, g !! t = Some (id, h) → ∃ more, g' !! t = Some (id, h ++ more).

#[global] Instance extends_preorder : PreOrder extends.
Proof.
  split.
  - intros g t id h Hg. exists []. by rewrite app_nil_r.
  - intros g1 g2 g3 H1 H2 t id h Hg. destruct (H1 _ _ _ Hg) as [m1 Hg1].
    destruct (H2 _ _ _ Hg1) as [m2 Hg2]. exists (m1 ++ m2). by rewrite (assoc_L (++)).
Qed.

Lemma term_at_lt log i t : term_at log i = Some t → (i < length log)%nat.
Proof.
  unfold term_at. intros (e & He & _)%fmap_Some. by eapply lookup_lt_Some.
Qed.

Lemma term_at_take log i k : (i < k)%nat → term_at (take k log) i = term_at log i.
Proof. intros Hi. unfold term_at. by rewrite lookup_take_lt. Qed.

Lemma take_prefix {A} (l1 l2 : list A) i j : (i <= j)%nat → take j l1 = take j l2 → take i l1 = take i l2.
Proof. intros Hi Ht. replace i with (i `min` j)%nat by lia. by rewrite <- !take_take, Ht. Qed.

Lemma written_extends g g' log : extends g g' → written g log → written g' log.
Proof.
  intros He Hw i t Ht. destruct (Hw i t Ht) as (id & h & Hg & Htake).
  destruct (He _ _ _ Hg) as [more Hg']. exists id, (h ++ more). split; [done|].
  rewrite take_app_le; [done|]. apply (f_equal length) in Htake. rewrite !length_take in Htake.
  apply term_at_lt in Ht. lia.
Qed.

Lemma log_ok_extends g g' log : extends g g' → log_ok g log → log_ok g' log.
Proof. intros He (Hs & Hf & Hw). split_and!; [done|done|]. by eapply written_extends. Qed.

Lemma excerpt_extends g g' a : extends g g' → excerpt g a → excerpt g' a.
Proof.
  intros He [Ha|(log & Hl & Ha)]; [by left|]. right. exists log. split; [|done].
  by eapply log_ok_extends.
Qed.

(** Logs of one history match. *)
Lemma written_match g l1 l2 i t :
  written g l1 → written g l2 → term_at l1 i = Some t → term_at l2 i = Some t →
  take (S i) l1 = take (S i) l2.
Proof.
  intros H1 H2 Ht1 Ht2. destruct (H1 i t Ht1) as (id1 & h1 & Hg1 & ->).
  destruct (H2 i t Ht2) as (id2 & h2 & Hg2 & ->). congruence.
Qed.

Lemma written_take g log k : written g log → written g (take k log).
Proof.
  intros Hw i t Ht. assert (i < k)%nat as Hi.
  { apply term_at_lt in Ht. rewrite length_take in Ht. lia. }
  rewrite term_at_take in Ht by done. destruct (Hw i t Ht) as (id & h & Hg & Htake).
  exists id, h. split; [done|]. rewrite take_take, <- Htake. f_equal. lia.
Qed.

(** A log that takes in the rest of another keeps its entries or becomes the
    other log. *)
Lemma reconciled_written g f log p entries f' pt :
  written g f → written g log → (p <= length log)%nat → (p <= length f)%nat →
  entries = drop p log →
  ((0 < p)%nat → term_at log (p - 1) = Some pt ∧ term_at f (p - 1) = Some pt) →
  reconciled f p entries f' → (f' = f ∨ f' = log) ∧ take (length log) f' = log.
Proof.
  intros Hf Hl Hp Hpf -> Hpt (k & Ha & Hr).
  assert (k <= length (drop p log))%nat as Hkl by (destruct Hr as [[-> _]|[? _]]; lia).
  assert (take (p + k) f = take (p + k) log) as Htake.
  { destruct k as [|k].
    - rewrite Nat.add_0_r. destruct p as [|p]; [done|]. destruct Hpt as [H1 H2]; [lia|].
      replace (S p - 1)%nat with p in * by lia. by eapply written_match.
    - destruct (Ha k) as [[e He] Ht]; [lia|]. rewrite lookup_drop in He.
      assert (term_at log (p + k) = Some (le_Term e)) as Htl by (unfold term_at; by rewrite He).
      replace (p + S k)%nat with (S (p + k)) by lia.
      eapply written_match; [done|done| |exact Htl]. rewrite Ht. unfold term_at.
      by rewrite lookup_drop, He. }
  destruct Hr as [[-> ->]|(Hk & -> & _)].
  - split; [by left|]. rewrite length_drop in Htake. replace (p + (length log - p))%nat with (length log) in Htake by lia.
    rewrite Htake. by apply take_ge.
  - rewrite Htake, drop_drop, take_drop. split; [by right|]. by apply take_ge.
Qed.

(** ** What a handler does to a node's log *)

(** The volatile indexes stay in the range of [uint64]. *)
Definition ranges (n : Node) : Prop :=
  0 <= nd_commitIndex n <= u64_max ∧ map_Forall (λ _ z, 0 <= z <= u64_max) (nd_nextIndex n) ∧
  0 <= nd_lastApplied n.

Record log_kept (n n' : Node) : Prop := {
  lk_log : rlog n' = rlog n;
  lk_ranges : short (rlog n) → ranges n → ranges n';
}.

#[global] Instance log_kept_preorder : PreOrder log_kept.
Proof.
  split; [by split|]. intros n1 n2 n3 [H1 R1] [H2 R2]. split; [congruence|].
  intros Hs Hr. apply R2; [by rewrite H1|auto].
Qed.

Definition sends_excerpts g (out : list (string * RaftMessage)) : Prop :=
  Forall (λ p, rm_Type p.2 = MsgRaftAppendEntries →
    ∀ args, decodeJSON (rm_Body p.2) = Some args → excerpt g args) out.

Lemma sends_excerpts_type g t (out : list (string * RaftMessage)) :
  t ≠ MsgRaftAppendEntries → Forall (λ p, rm_Type p.2 = t) out → sends_excerpts g out.
Proof. intros Ht Hf. eapply Forall_impl; [exact Hf|]. intros p -> Hp. done. Qed.

Lemma u64_max_range z : 0 <= u64 z <= u64_max.
Proof. unfold u64, u64_max. pose proof (Z.mod_pos_bound z (2 ^ 64) ltac:(lia)). lia. Qed.

Lemma persist_log_kept n : log_kept n (persistLocked n).
Proof. unfold persistLocked. by destruct (nd_saves n). Qed.

Lemma adopt_log_kept n t l k : log_kept n (adopt_term n t l k).
Proof. unfold adopt_term. etrans; [|apply persist_log_kept]. by split. Qed.

Lemma set_indexes_kept n (next mtch : gmap string Z) :
  (map_Forall (λ _ z, 0 <= z <= u64_max) (nd_nextIndex n) → map_Forall (λ _ z, 0 <= z <= u64_max) next) →
  log_kept n (set_indexes n next mtch).
Proof. intros Hn. split; [done|]. intros _ (Hc & Hx & Ha). split_and!; [apply Hc..|by apply Hn|done]. Qed.

Lemma set_commit_kept n idx : 0 <= idx <= zlen (rlog n) → log_kept n (set_commit n idx).
Proof.
  intros Hi. split; [done|]. intros Hs [_ Hx]. split; [|done]. unfold short in Hs. unfold u64_max.
  cbn. lia.
Qed.

Lemma apply_loop_kept k n n' : apply_loop k n = Some n' → log_kept n n'.
Proof.
  revert n. induction k as [|k IH]; intros n; cbn [apply_loop]; [by intros [= ->]|].
  case_match; [|done]. intros Heq. apply IH in Heq. etrans; [|exact Heq]. split; [done|]. intros _ (Hc & Hx & Ha).
  split_and!; [apply Hc..|done|]. cbn. lia.
Qed.

Lemma advance_kept n n' : advanceCommitIndexLocked n = Some n' → log_kept n n'.
Proof.
  unfold advanceCommitIndexLocked. case_bool_decide; [|by intros [= ->]].
  assert (length (rlog n) <= length (rlog n))%nat as Hk by lia. revert Hk.
  generalize (length (rlog n)) at 1 3 as k.
  induction k as [|k IH]; intros Hk; cbn [advance_loop]; [by intros [= ->]|].
  destruct (nd_commitIndex n <? Z.of_nat (S k)); [|by intros [= ->]].
  destruct (rlog n !! k) as [e|]; [|done]. destruct (negb (le_Term e =? term n)); [apply IH; lia|].
  destruct (quorum n <=? replicated n (Z.of_nat (S k))); [|apply IH; lia].
  intros Heq. etrans; [|by eapply apply_loop_kept]. apply set_commit_kept. unfold zlen. lia.
Qed.

Lemma becomeLeader_kept n : log_kept n (becomeLeaderLocked n).
Proof.
  unfold becomeLeaderLocked. set (n1 := set_role n Leader (nd_selfID n) true).
  transitivity n1; [by split|]. apply set_indexes_kept. clearbody n1.
  generalize (nd_nextIndex n1) as m. induction (nd_peers n1) as [|p ps IH]; intros m Hm; cbn [foldl]; [done|].
  apply IH. apply map_Forall_insert_2; [apply u64_max_range|done].
Qed.

(** ** What a leader sends *)

(** What the messages of a node need to say what they mean. *)
Definition sender_ok (n : Node) : Prop :=
  0 <= term n <= u64_max ∧ str_valid (nd_selfID n) = true.

Lemma append_args_excerpt g n peer :
  log_ok g (rlog n) → ranges n → sender_ok n →
  excerpt g (append_args n peer).1 ∧ AppendEntriesArgs_wf (append_args n peer).1 ∧
  0 <= (append_args n peer).2 <= u64_max.
Proof.
  intros Hl (Hc & Hx & _) [Ht Hid]. pose proof Hl as (Hs & Hf & _). unfold append_args. cbn [fst snd].
  assert (0 <= default 0 (nd_nextIndex n !! peer) <= u64_max) as Hd.
  { destruct (nd_nextIndex n !! peer) eqn:E; [by apply (Hx peer)|cbn; unfold u64_max; lia]. }
  set (nextIdx := if zlen (rlog n) <? _ then _ else _).
  pose proof (zlen_nonneg (rlog n)) as Hz. unfold short in Hs.
  assert (0 <= nextIdx <= zlen (rlog n) + 1) as Hn.
  { unfold nextIdx. destruct (Z.ltb_spec (zlen (rlog n)) (default 0 (nd_nextIndex n !! peer))); [|lia].
    rewrite u64_id by (unfold is_u64; lia). lia. }
  clearbody nextIdx. set (prevIdx := u64 (nextIdx - 1)).
  assert (nextIdx = 0 ∧ prevIdx = 2 ^ 64 - 1 ∨ 1 <= nextIdx ∧ prevIdx = nextIdx - 1) as Hp.
  { unfold prevIdx. destruct (decide (nextIdx = 0)) as [->|Hne]; [by left|]. right. split; [lia|].
    apply u64_id. unfold is_u64. lia. }
  clearbody prevIdx.
  split; [|split; [|unfold u64_max; lia]].
  - destruct Hp as [(-> & ->)|[H1 ->]]; [left; cbn; lia|]. right. exists (rlog n). cbn.
    split; [done|]. split; [lia|]. split.
    + destruct (Z.leb_spec nextIdx (zlen (rlog n))); cbn [andb].
      * rewrite (proj2 (Z.leb_le _ _)) by lia. done.
      * rewrite drop_ge; [done|]. unfold zlen in *. lia.
    + intros H0. rewrite (proj2 (Z.ltb_lt _ _)), (proj2 (Z.leb_le _ _)) by lia. cbn [andb].
      replace (Z.to_nat (nextIdx - 1) - 1)%nat with (Z.to_nat (nextIdx - 1 - 1)) by lia.
      destruct (lookup_lt_is_Some_2 (rlog n) (Z.to_nat (nextIdx - 1 - 1))) as [e He];
        [unfold zlen in *; lia|].
      unfold term_at. by rewrite He.
  - split_and!; try done; cbn; unfold is_u64_field, u64_max in *.
    + destruct Hp as [(_ & ->)|[? ->]]; lia.
    + destruct (_ && _); [|lia]. destruct (rlog n !! _) as [e|] eqn:E; [|lia].
      eapply Forall_lookup_1 in Hf; [|done]. apply Hf.
    + destruct (_ && _); [by apply Forall_drop|constructor].
Qed.

Lemma append_to_excerpts g n peers out n' out' :
  log_ok g (rlog n) → ranges n → sender_ok n → append_to n peers out = (n', out') →
  sends_excerpts g out → log_kept n n' ∧ sends_excerpts g out'.
Proof.
  revert n out. induction peers as [|peer peers IH]; intros n out Hl Hr Hs Heq Ho.
  { simpl in Heq. by simplify_eq. }
  cbn [append_to] in Heq. destruct (append_args_excerpt g n peer Hl Hr Hs) as (He & Hw & Hn).
  destruct (append_args n peer) as [args nextIdx]. cbn [fst snd] in *.
  set (n1 := if _ <? _ then _ else n) in Heq.
  assert (log_kept n n1) as H1.
  { unfold n1. case_match; [|done]. apply set_indexes_kept. by apply map_Forall_insert_2. }
  assert (sender_ok n1) as Hs1 by (unfold n1; by case_match).
  pose proof (lk_log _ _ H1) as Hl1. pose proof (lk_ranges _ _ H1 (proj1 Hl) Hr) as Hr1.
  clearbody n1. rewrite <- Hl1 in Hl. apply IH in Heq as [H2 H3]; [|done|done|done|].
  { split; [by etrans|done]. }
  apply Forall_app. split; [done|]. apply SendRaft_Forall. cbn [snd rm_Body]. intros _ args' Hd.
  rewrite decode_encode in Hd by done. by injection Hd as <-.
Qed.

Lemma sendAll_excerpts g n n' out :
  log_ok g (rlog n) → ranges n → sender_ok n → sendAppendEntriesToAll n = (n', out) →
  log_kept n n' ∧ sends_excerpts g out.
Proof.
  intros Hl Hr Hs. unfold sendAppendEntriesToAll. case_bool_decide; intros Heq.
  - eapply append_to_excerpts; [done..|constructor].
  - simplify_eq. split; [done|constructor].
Qed.

Lemma sendAll_rlog n n' out : sendAppendEntriesToAll n = (n', out) → rlog n' = rlog n.
Proof.
  unfold sendAppendEntriesToAll. case_bool_decide as Hl; [clear Hl|by intros [= <- _]].
  generalize (@nil (string * RaftMessage)) as o. generalize (nd_peers n) as ps. intros ps. revert n.
  induction ps as [|p ps IH]; intros n o; cbn [append_to]; [by intros [= <- _]|].
  destruct (append_args n p). intros Heq. apply IH in Heq. rewrite Heq. by destruct (_ <? _).
Qed.

(** ** Message handlers *)

Lemma merge_excerpt g n args :
  log_ok g (rlog n) → excerpt g args → ae_PrevLogIndex args <= zlen (rlog n) →
  (0 < ae_PrevLogIndex args →
   term_at (rlog n) (Z.to_nat (ae_PrevLogIndex args) - 1) = Some (ae_PrevLogTerm args)) →
  log_ok g (merge_loop (rlog n) (u64 (ae_PrevLogIndex args + 1)) 0 (ae_Entries args)).
Proof.
  destruct args as [t id prev pt entries lc]. cbn. intros (Hs & Hf & Hw) He Hle Ht.
  unfold short in Hs. destruct He as [He|(log & Hl & Hp & Hes & Hpt)]; [cbn in He; lia|]. cbn in *.
  pose proof Hl as (Hsl & _ & Hwl). unfold short in Hsl.
  assert (prev + zlen entries = zlen log) as Hlen.
  { rewrite Hes. unfold zlen in *. rewrite length_drop. lia. }
  pose proof (merge_loop_spec (rlog n) prev 0 entries ltac:(lia) ltac:(lia) ltac:(lia) ltac:(lia)) as Hr.
  rewrite Z.add_0_r in Hr.
  destruct (reconciled_written g (rlog n) log (Z.to_nat prev) entries
    (merge_loop (rlog n) (u64 (prev + 1)) 0 entries) pt) as [[->| ->] _]; try done.
  - unfold zlen in *. lia.
  - unfold zlen in *. lia.
  - intros H0. split; [apply Hpt; lia|apply Ht; lia].
Qed.

Lemma append_from_leader_log g n args n' r :
  log_ok g (rlog n) → excerpt g args →
  appendEntriesFromLeader n (ae_PrevLogIndex args) (ae_PrevLogTerm args) (ae_Entries args) = (n', r) →
  log_ok g (rlog n') ∧ nd_role n' = nd_role n ∧ (ranges n → ranges n').
Proof.
  intros Hl He. unfold appendEntriesFromLeader.
  destruct (Z.ltb_spec (zlen (rlog n)) (ae_PrevLogIndex args)) as [Hlt|Hle].
  { intros [= <- _]. done. }
  assert ((0 < ae_PrevLogIndex args →
    term_at (rlog n) (Z.to_nat (ae_PrevLogIndex args) - 1) = Some (ae_PrevLogTerm args)) →
    (persistLocked (set_log n (merge_loop (rlog n) (u64 (ae_PrevLogIndex args + 1)) 0 (ae_Entries args))),
      (true, 0, 0)) = (n', r) →
    log_ok g (rlog n') ∧ nd_role n' = nd_role n ∧ (ranges n → ranges n')) as Haccept.
  { intros Ht [= <- _]. set (n1 := set_log n _).
    split; [|split; [unfold persistLocked; by case_match|by unfold ranges, persistLocked; case_match]].
    rewrite (lk_log _ _ (persist_log_kept n1)). by apply merge_excerpt. }
  destruct (Z.ltb_spec 0 (ae_PrevLogIndex args)) as [H0|H0]; [|by apply Haccept; lia].
  destruct (rlog n !! _) as [e|] eqn:Hlk.
  2: { apply lookup_ge_None_1 in Hlk. unfold zlen in *. lia. }
  destruct (Z.eqb_spec (le_Term e) (ae_PrevLogTerm args)) as [Heq|Hne]; cbn [negb].
  - apply Haccept. intros _. unfold term_at.
    replace (Z.to_nat (ae_PrevLogIndex args) - 1)%nat with (Z.to_nat (ae_PrevLogIndex args - 1)) by lia.
    by rewrite Hlk, <- Heq.
  - intros [= <- _]. done.
Qed.

Lemma handleAppendEntries_log g n m n' out r :
  log_ok g (rlog n) → ranges n →
  (∀ args, decodeJSON (rm_Body m) = Some args → excerpt g args) →
  handleAppendEntries n m = Some (n', out, r) →
  log_ok g (rlog n') ∧ ranges n' ∧ (rlog n' = rlog n ∨ nd_role n' = Follower) ∧ sends_excerpts g out.
Proof.
  intros Hl Hr He Heq. unfold handleAppendEntries in Heq.
  destruct (decodeJSON (rm_Body m)) as [args|]; [|simplify_eq; split_and!; [done..|by left|constructor]].
  specialize (He _ eq_refl).
  assert (∀ n1 l reply, sends_excerpts g (append_reply n1 l reply)) as Hrep.
  { intros n1 l reply. apply (sends_excerpts_type g MsgRaftAppendResponse); [done|].
    by apply SendRaft_Forall. }
  set (n1 := if term n <? ae_Term args then _ else n) in Heq.
  assert (log_kept n n1) as H1 by (unfold n1; destruct (_ <? _); [apply adopt_log_kept|done]).
  destruct (_ <? _) in Heq.
  { injection Heq as <- <- _. split_and!; [by rewrite (lk_log _ _ H1)| |left; apply H1|apply Hrep].
    apply H1; [apply Hl|done]. }
  clearbody n1. set (n2 := adopt_term n1 _ _ _) in Heq.
  assert (log_kept n n2) as H2 by (etrans; [exact H1|apply adopt_log_kept]).
  assert (nd_role n2 = Follower) as Hro by (unfold n2, adopt_term, persistLocked; by destruct (nd_saves _)).
  clearbody n2.
  destruct (appendEntriesFromLeader n2 _ _ _) as [n3 [[success ci] ct]] eqn:Ea.
  apply (append_from_leader_log g) in Ea as (Hl3 & Hro3 & Hr3); [|by rewrite (lk_log _ _ H2)|done].
  specialize (Hr3 (lk_ranges _ _ H2 (proj1 Hl) Hr)). cbv zeta in Heq.
  destruct (if success && _ then _ else _) as [n4|] eqn:Eadv; [|done]. injection Heq as <- <- _.
  assert (log_kept n3 n4 ∧ nd_role n4 = nd_role n3) as [H4 Hro4].
  { destruct (success && _) eqn:Es; [|by injection Eadv as ->].
    apply andb_true_iff in Es as [_ Hlt%Z.ltb_lt]. unfold applyCommittedLocked in Eadv. split.
    - etrans; [|by eapply apply_loop_kept]. apply set_commit_kept. destruct Hr3 as [Hr3 _].
      pose proof (zlen_nonneg (rlog n3)).
      destruct (Z.ltb_spec (zlen (rlog n3)) (ae_LeaderCommit args)); lia.
    - apply apply_loop_inert in Eadv as [_ _ _ Hx _ _]. done. }
  split_and!; [by rewrite (lk_log _ _ H4)|apply H4; [apply Hl3|done]|right; congruence|apply Hrep].
Qed.

Lemma handleAppendResponse_log n m n' r :
  handleAppendResponse n m = Some (n', r) → log_kept n n'.
Proof.
  unfold handleAppendResponse. destruct (decodeJSON (rm_Body m)) as [reply|] eqn:Hd; [|by intros [= <- _]].
  case_match; [intros [= <- _]; apply adopt_log_kept|]. case_match; [by intros [= <- _]|].
  destruct (ar_Success reply).
  - intros (n1 & Ha & Heq)%fmap_Some. injection Heq as <- _.
    etrans; [|by eapply advance_kept]. apply set_indexes_kept. intros Hx.
    apply map_Forall_insert_2; [apply u64_max_range|done].
  - intros [= <- _]. apply set_indexes_kept. intros Hx. apply map_Forall_insert_2; [|done].
    assert (0 <= ar_ConflictIndex reply <= u64_max) as Hci.
    { unfold decodeJSON in Hd. cbn in Hd. apply unmarshal_with_inv in Hd as [l Hd].
      unfold AppendEntriesReply_of in Hd.
      repeat (case_match; simplify_eq; try done). cbn.
      by eapply get_int_range; [|unfold u64_max; lia]. }
    assert (∀ log t i z, after_term log t i = Some z → 0 <= z <= u64_max) as Haf.
    { intros log t i. induction i as [|i IH]; intros z; cbn [after_term]; [done|].
      case_match; [|done]. case_match; [intros [= <-]; apply u64_max_range|apply IH]. }
    set (nx := if 0 <? ar_ConflictTerm reply then _ else _).
    assert (0 <= nx <= u64_max) as Hnx.
    { unfold nx. case_match; [|done]. destruct (after_term _ _ _) as [z|] eqn:E; [by eapply Haf|done]. }
    destruct (Z.ltb_spec nx 1); [unfold u64_max|]; lia.
Qed.

Lemma handleRequestVote_log g n m n' out r :
  handleRequestVote n m = (n', out, r) → log_kept n n' ∧ sends_excerpts g out.
Proof.
  unfold handleRequestVote. destruct (decodeJSON (rm_Body m)) as [args|].
  2: { intros [= <- <- _]. split; [done|constructor]. }
  set (n1 := if _ <? _ then _ else n).
  assert (log_kept n n1) as H1 by (unfold n1; destruct (_ <? _); [apply adopt_log_kept|done]).
  clearbody n1. set (nb := if _ <=? _ then _ else (n1, false)).
  assert (log_kept n1 nb.1) as H2.
  { unfold nb. destruct (_ <=? _); [|done]. destruct (_ || _); [|done].
    destruct (lastLogIndexAndTermLocked n1). destruct (_ || _); [|done].
    etrans; [|apply persist_log_kept]. by split. }
  destruct nb as [n2 granted]. intros [= <- <- _]. split; [by etrans|].
  apply (sends_excerpts_type g MsgRaftVoteResponse); [done|]. by apply SendRaft_Forall.
Qed.

Lemma handleVoteResponse_log g n m n' out r :
  log_ok g (rlog n) → ranges n → sender_ok n →
  handleVoteResponse n m = (n', out, r) → log_kept n n' ∧ sends_excerpts g out.
Proof.
  intros Hl Hr Hs. unfold handleVoteResponse.
  assert (log_kept n n ∧ sends_excerpts g []) as Hn by (split; [done|constructor]).
  destruct (decodeJSON (rm_Body m)) as [reply|]; [|by intros [= <- <- _]].
  destruct (_ <? _). { intros [= <- <- _]. split; [apply adopt_log_kept|constructor]. }
  destruct (_ || _); [by intros [= <- <- _]|]. destruct (vr_VoteGranted reply); [|by intros [= <- <- _]].
  set (n1 := set_votes n _). assert (log_kept n n1) as H1 by (by split).
  destruct (_ <=? _); [|by intros [= <- <- _]; split; [|constructor]].
  destruct (sendAppendEntriesToAll (becomeLeaderLocked n1)) as [n2 out2] eqn:Es. intros [= <- <- _].
  assert (log_kept n (becomeLeaderLocked n1)) as H2 by (etrans; [exact H1|apply becomeLeader_kept]).
  apply (sendAll_excerpts g) in Es as [H3 H4].
  - split; [by etrans|done].
  - by rewrite (lk_log _ _ H2).
  - by apply H2; [apply Hl|].
  - done.
Qed.

Lemma run_message_log g n m n' out :
  log_ok g (rlog n) → ranges n → sender_ok n →
  (rm_Type m = MsgRaftAppendEntries → ∀ args, decodeJSON (rm_Body m) = Some args → excerpt g args) →
  run_message n m = Some (n', out) →
  log_ok g (rlog n') ∧ ranges n' ∧ (rlog n' = rlog n ∨ nd_role n' = Follower) ∧ sends_excerpts g out.
Proof.
  intros Hl Hr Hs Hm Heq. unfold run_message in Heq.
  destruct (dispatchMsg n m) as [[[n1 out1] r]|] eqn:Ed; [|done].
  assert (∃ ps, n' = set_proposals n1 ps ∧ out = out1) as (ps & -> & ->).
  { destruct (_ && _); simplify_eq; [by eexists|]. exists (nd_proposals n'). by destruct n'. }
  change (rlog (set_proposals n1 ps)) with (rlog n1).
  change (ranges (set_proposals n1 ps)) with (ranges n1).
  change (nd_role (set_proposals n1 ps)) with (nd_role n1). clear Heq.
  assert (log_kept n n1 ∧ sends_excerpts g out1 → log_ok g (rlog n1) ∧ ranges n1 ∧
    (rlog n1 = rlog n ∨ nd_role n1 = Follower) ∧ sends_excerpts g out1) as Hkept.
  { intros [[Hk Hrk] Ho]. split_and!; [by rewrite Hk|apply Hrk; [apply Hl|done]|by left|done]. }
  unfold dispatchMsg in Ed.
  destruct (Z.eqb_spec (rm_Type m) MsgRaftRequestVote) as [Hty|_].
  { injection Ed as Ed. by eapply Hkept, handleRequestVote_log. }
  destruct (Z.eqb_spec (rm_Type m) MsgRaftVoteResponse) as [Hty|_].
  { injection Ed as Ed. by eapply Hkept, handleVoteResponse_log. }
  destruct (Z.eqb_spec (rm_Type m) MsgRaftAppendEntries) as [Hty|_].
  { eapply handleAppendEntries_log; [done|done|by apply Hm|done]. }
  destruct (Z.eqb_spec (rm_Type m) MsgRaftAppendResponse) as [Hty|_].
  - apply fmap_Some in Ed as ([n2 r2] & Ed & Heq). cbn in Heq. injection Heq as -> -> ->.
    apply Hkept. split; [by eapply handleAppendResponse_log|constructor].
  - injection Ed as <- <- _. apply Hkept. split; [done|constructor].
Qed.

(** A leader's proposal is its own entry; anybody else refuses it. *)
Lemma propose_log g n n' out cmd r :
  Node_Propose n cmd = Some (n', out, r) →
  (nd_role n ≠ Leader ∧ n' = n ∧ out = []) ∨
  (nd_role n = Leader ∧ nd_role n' = Leader ∧ term n' = term n ∧
   ∃ e, le_Term e = term n ∧ rlog n' = rlog n ++ [e] ∧
     (short (rlog n') → ranges n → sender_ok n → LogEntry_wf e ∧
      (log_ok g (rlog n') → ranges n' ∧ sends_excerpts g out))).
Proof.
  unfold Node_Propose. case_bool_decide as Hl; cbn [negb]; [|intros [= <- <- _]; by left].
  set (e := mkLogEntry (term n) (u64 (zlen (rlog n) + 1)) cmd).
  set (n1 := set_proposals (persistLocked (set_log n (rlog n ++ [e]))) _).
  assert (rlog n1 = rlog n ++ [e]) as Hn1.
  { unfold n1, persistLocked. by destruct (nd_saves (set_log n _)). }
  assert (ranges n → ranges n1) as Hr1.
  { unfold n1, persistLocked, ranges. by destruct (nd_saves (set_log n _)). }
  assert (sender_ok n → sender_ok n1) as Hs1.
  { unfold n1, persistLocked, sender_ok. by destruct (nd_saves (set_log n _)). }
  destruct (sendAppendEntriesToAll n1) as [n2 out2] eqn:Es.
  destruct (advanceCommitIndexLocked n2) as [n3|] eqn:Ea; [|done]. intros [= <- <- _].
  right. split; [done|].
  assert (nd_role n1 = Leader ∧ term n1 = term n) as [Hro1 Ht1].
  { unfold n1, persistLocked. by destruct (nd_saves (set_log n _)). }
  destruct (sendAll_inert _ _ _ Es) as [[_ Ht2 _ Hro2 _ _] _].
  destruct (advance_inert _ _ Ea) as [_ Ht3 _ Hro3 _ _].
  split_and!; [congruence|congruence|]. exists e. split; [done|].
  apply advance_kept in Ea.
  pose proof (sendAll_rlog _ _ _ Es) as Hn2.
  split; [by rewrite (lk_log _ _ Ea), Hn2, Hn1|]. rewrite (lk_log _ _ Ea), Hn2. intros Hs Hr Hse.
  split; [split; [apply Hse|apply u64_max_range]|]. intros Hl1.
  apply (sendAll_excerpts g) in Es as [Hk Ho]; [|done|by apply Hr1|by apply Hs1].
  split; [|done]. apply Ea; [by rewrite Hn2|]. apply Hk; [done|by apply Hr1].
Qed.

(** ** The invariant *)

Record node_ok g (id : string) (n : Node) : Prop := {
  no_log : log_ok g (rlog n);
  no_ranges : ranges n;
  no_leader : nd_role n = Leader → g !! term n = Some (id, rlog n);
  no_cand : nd_role n = Candidate → ∀ h, g !! term n ≠ Some (id, h);
  no_past : ∀ t h, g !! t = Some (id, h) → t <= term n;
}.

Record log_inv (ids : list string) g (c : cluster) : Prop := {
  li_nodes : ∀ id n, cl_nodes c !! id = Some n → node_ok g id n;
  li_sent : sends_excerpts g (cl_sent c);
  li_reign : ∀ t id h, g !! t = Some (id, h) →
    ∃ votes : gset string, (∀ u, u ∈ votes → voted_for (cl_sent c) u t id) ∧
      Z.of_nat (length ids) / 2 + 1 <= Z.of_nat (size votes);
}.

(** One node steps and sends; only the history of its own terms may grow. *)
Lemma log_update ids g g' c id n n' out :
  log_inv ids g c → cl_nodes c !! id = Some n → extends g g' →
  (∀ t id0 h, g' !! t = Some (id0, h) → g !! t = Some (id0, h) ∨
     id0 = id ∧ ((∃ h0, g !! t = Some (id, h0)) ∨
       ∃ votes : gset string, (∀ u, u ∈ votes → voted_for (cl_sent c ++ out) u t id) ∧
         Z.of_nat (length ids) / 2 + 1 <= Z.of_nat (size votes))) →
  node_ok g' id n' → sends_excerpts g' out → log_inv ids g' (update c id n' out).
Proof.
  intros [Hnodes Hsent Hreign] Hn He Hown Hn' Ho.
  assert (∀ votes t id0, (∀ u : string, u ∈ (votes : gset string) → voted_for (cl_sent c) u t id0) →
    ∀ u, u ∈ votes → voted_for (cl_sent c ++ out) u t id0) as Hmono.
  { intros votes t id0 Hv u Hu. apply voted_for_app. left. by apply Hv. }
  split; cbn [update cl_nodes cl_sent].
  - intros id2 n2 [[<- <-]|[Hne Hn2]]%lookup_insert_Some; [done|].
    destruct (Hnodes _ _ Hn2) as [Hl Hr Hle Hc Hp].
    assert (∀ t h, g' !! t = Some (id2, h) → g !! t = Some (id2, h)) as Hother.
    { intros t h Hg. destruct (Hown _ _ _ Hg) as [?|[-> _]]; done. }
    split.
    + by eapply log_ok_extends.
    + done.
    + intros Hrole. destruct (He _ _ _ (Hle Hrole)) as [more Hg'].
      pose proof (Hother _ _ Hg') as Hg. rewrite (Hle Hrole) in Hg. injection Hg as Hg.
      by rewrite Hg', <- Hg.
    + intros Hrole h Hg. by apply (Hc Hrole h), Hother.
    + intros t h Hg. by eapply Hp, Hother.
  - apply Forall_app. split; [|done]. eapply Forall_impl; [exact Hsent|].
    intros p Hp Hty args Hd. by eapply excerpt_extends, Hp.
  - intros t id0 h Hg. destruct (Hown _ _ _ Hg) as [Hg0|[-> [[h0 Hg0]|(votes & Hv & Hs)]]].
    + destruct (Hreign _ _ _ Hg0) as (votes & Hv & Hs). exists votes. split; [by apply Hmono|done].
    + destruct (Hreign _ _ _ Hg0) as (votes & Hv & Hs). exists votes. split; [by apply Hmono|done].
    + by exists votes.
Qed.

(** Steps that elect nobody and write nothing of their own. *)
Lemma log_quiet ids g c id n n' out :
  log_inv ids g c → cl_nodes c !! id = Some n → term n <= term n' →
  (nd_role n' = Follower ∨ (term n' = term n ∧ nd_role n' = nd_role n)) →
  log_ok g (rlog n') → ranges n' → (rlog n' = rlog n ∨ nd_role n' = Follower) →
  sends_excerpts g out → log_inv ids g (update c id n' out).
Proof.
  intros Hi Hn Ht Hro Hl Hr Hlog Ho. destruct (li_nodes _ _ _ Hi _ _ Hn) as [_ _ Hle Hc Hp].
  apply (log_update ids g g c id n); [done|done|done|by left| |done]. split; [done|done| | |].
  - intros Hrole. destruct Hro as [?|[-> Hr']]; [congruence|].
    destruct Hlog as [->|?]; [|congruence]. apply Hle. congruence.
  - intros Hrole h. destruct Hro as [?|[-> Hr']]; [congruence|]. apply Hc. congruence.
  - intros t h Hg. specialize (Hp _ _ Hg). lia.
Qed.

Lemma written_insert g t id log :
  (∀ i t', term_at log i = Some t' → t' ≠ t → ∃ id h, g !! t' = Some (id, h) ∧ take (S i) log = take (S i) h) →
  written (<[t := (id, log)]> g) log.
Proof.
  intros Hw i t' Ht. destruct (decide (t' = t)) as [->|Hne].
  - exists id, log. by rewrite lookup_insert_eq.
  - destruct (Hw i t' Ht Hne) as (id' & h & Hg & Hh). exists id', h. by rewrite lookup_insert_ne.
Qed.

Lemma log_elected ids g c id n n' out :
  NoDup ids → cluster_inv ids c → cluster_inv ids (update c id n' out) →
  log_inv ids g c → cl_nodes c !! id = Some n → nd_role n = Candidate → nd_role n' = Leader →
  term n' = term n → rlog n' = rlog n → ranges n' → sends_excerpts g out →
  ∃ g', extends g g' ∧ log_inv ids g' (update c id n' out).
Proof.
  intros Hnd Hci Hci' Hi Hn Hcand Hlead Ht Hlog Hr Ho.
  destruct (li_nodes _ _ _ Hi _ _ Hn) as [Hl _ _ Hc Hp].
  assert (cl_nodes (update c id n' out) !! id = Some n') as Hn' by apply lookup_insert_eq.
  assert (∀ u, u ∈ nd_voteGranted n' → voted_for (cl_sent c ++ out) u (term n) id) as Hv.
  { intros u Hu. rewrite <- Ht. apply (ci_tally _ _ Hci' id n'); [done|congruence|done]. }
  assert (Z.of_nat (length ids) / 2 + 1 <= Z.of_nat (size (nd_voteGranted n'))) as Hq.
  { pose proof (ci_leader _ _ Hci' id n' Hn' Hlead) as Hq. unfold quorum, zlen in Hq.
    destruct (ci_config _ _ Hci' id n' Hn') as (_ & Hps & _). rewrite Hps in Hq.
    assert (id ∈ ids) as Hin by (apply (ci_dom _ _ Hci'); by eexists).
    pose proof (peers_length ids id Hnd Hin) as Hpl.
    replace (Z.of_nat (length ids)) with (Z.of_nat (length (filter (λ p, p ≠ id) ids)) + 1) by lia.
    done. }
  assert (∀ (vs : gset string) t cand, (∀ u, u ∈ vs → voted_for (cl_sent c ++ out) u t cand) →
    vs ⊆ list_to_set ids) as Hsub.
  { intros vs t cand Hvs u Hu. apply elem_of_list_to_set. apply (ci_dom _ _ Hci').
    destruct (ci_cast _ _ Hci' u t cand) as (nu & Hnu & _); [by apply Hvs|by eexists]. }
  assert (g !! term n = None) as Hnone.
  { destruct (g !! term n) as [[id0 h0]|] eqn:Hg; [|done]. exfalso.
    destruct (li_reign _ _ _ Hi _ _ _ Hg) as (votes & Hvotes & Hsize).
    assert (∀ u, u ∈ votes → voted_for (cl_sent c ++ out) u (term n) id0) as Hvotes'.
    { intros u Hu. apply voted_for_app. left. by apply Hvotes. }
    destruct (majorities_meet ids votes (nd_voteGranted n') (length ids)) as (u & Hu1 & Hu2);
      [done|by eapply Hsub|by eapply Hsub|done|done|done|].
    assert (id0 = id) as -> by
      (apply (ci_once _ _ Hci' u (term n)); [by apply Hvotes'|by apply Hv]).
    by apply (Hc Hcand h0). }
  exists (<[term n := (id, rlog n)]> g).
  assert (extends g (<[term n := (id, rlog n)]> g)) as He.
  { intros t id0 h Hg. exists []. rewrite app_nil_r, lookup_insert_ne by congruence. done. }
  split; [done|]. apply (log_update ids g _ c id n); [done|done|done| | |].
  - intros t id0 h [[<- Heq]|[_ Hg]]%lookup_insert_Some; [|by left].
    injection Heq as <- <-. right. split; [done|]. right. by exists (nd_voteGranted n').
  - split.
    + rewrite Hlog. by eapply log_ok_extends.
    + done.
    + intros _. by rewrite Ht, Hlog, lookup_insert_eq.
    + congruence.
    + intros t h [[<- _]|[_ Hg]]%lookup_insert_Some; [lia|]. specialize (Hp _ _ Hg). lia.
  - eapply Forall_impl; [exact Ho|]. intros p Hpx Hty args Hd. by eapply excerpt_extends, Hpx.
Qed.

Lemma log_proposed ids g c id n n' out e :
  log_inv ids g c → cl_nodes c !! id = Some n → nd_role n = Leader → nd_role n' = Leader →
  term n' = term n → le_Term e = term n → rlog n' = rlog n ++ [e] → LogEntry_wf e → short (rlog n') →
  (∀ g', log_ok g' (rlog n') → ranges n' ∧ sends_excerpts g' out) →
  ∃ g', extends g g' ∧ log_inv ids g' (update c id n' out).
Proof.
  intros Hi Hn Hlead Hlead' Ht Hte Hlog Hwf Hs Hout.
  destruct (li_nodes _ _ _ Hi _ _ Hn) as [(_ & Hf & Hw) _ Hle _ Hp]. specialize (Hle Hlead).
  set (g' := <[term n := (id, rlog n')]> g). exists g'.
  assert (extends g g') as He.
  { intros t id0 h Hg. unfold g'. destruct (decide (t = term n)) as [->|Hne].
    - rewrite Hle in Hg. injection Hg as <- <-. exists [e]. by rewrite lookup_insert_eq, Hlog.
    - exists []. by rewrite app_nil_r, lookup_insert_ne. }
  assert (log_ok g' (rlog n')) as Hl'.
  { split_and!; [done| |].
    - rewrite Hlog. apply Forall_app. split; [done|]. by constructor.
    - apply written_insert. rewrite Hlog. intros i t' Hti Hne.
      destruct (decide (i < length (rlog n))%nat) as [Hlt|Hge].
      + unfold term_at in Hti. rewrite lookup_app_l in Hti by done.
        destruct (Hw i t' Hti) as (id' & h & Hg & Hh). exists id', h. split; [done|].
        rewrite <- Hh. by rewrite take_app_le by lia.
      + exfalso. pose proof (term_at_lt _ _ _ Hti) as Hlt. rewrite length_app in Hlt. simpl in Hlt.
        unfold term_at in Hti. rewrite lookup_app_r in Hti by lia.
        replace (i - length (rlog n))%nat with 0%nat in Hti by lia. cbn in Hti. congruence. }
  destruct (Hout g' Hl') as [Hr Ho].
  split; [done|]. apply (log_update ids g g' c id n); [done|done|done| | |done].
  - intros t id0 h [[<- Heq]|[_ Hg]]%lookup_insert_Some; [|by left].
    injection Heq as <- <-. right. split; [done|]. left. by eexists.
  - split; [done|done| | |].
    + intros _. unfold g'. by rewrite Ht, lookup_insert_eq.
    + congruence.
    + intros t h [[<- _]|[_ Hg]]%lookup_insert_Some; [lia|]. specialize (Hp _ _ Hg). lia.
Qed.

(** ** Runs *)

Definition all_short (c : cluster) : Prop := ∀ id n, cl_nodes c !! id = Some n → short (rlog n).

(** Runs that keep votes and whose logs stay below 2^63 entries. *)
Inductive steady_run (c0 : cluster) : cluster → Prop :=
| steady_nil : steady_run c0 c0
| steady_step c e c' :
    steady_run c0 c → votes_kept c e → cluster_step c e c' → all_short c' → steady_run c0 c'.

Lemma steady_cluster_run c0 c : steady_run c0 c → cluster_run c0 c.
Proof. induction 1 as [|c e c' _ IH Hv Hs _]; [constructor|]. by eapply run_step. Qed.

Lemma timeout_log n n' out : handleElectionTimeout n = (n', out) → log_kept n n'.
Proof.
  unfold handleElectionTimeout. case_bool_decide; [by intros [= <- _]|].
  set (n1 := set_votes _ _). assert (log_kept n n1) as H1 by done.
  assert (log_kept n (persistLocked n1)) as H2 by (etrans; [exact H1|apply persist_log_kept]).
  destruct (nd_peers (persistLocked n1)).
  - intros [= <- _]. etrans; [exact H2|apply becomeLeader_kept].
  - by intros [= <- _].
Qed.

Lemma restart_log n :
  config_ok n → nd_store n = nd_state n →
  let n' := Node_Start (NewNode (nd_selfID n) (nd_peers n) (nd_peerAddrMap n) (nd_saves n) (nd_store n))
              (Some (nd_store n)) in
  rlog n' = rlog n ∧ ranges n' ∧ nd_role n' = Follower.
Proof.
  intros (_ & Hp & _) Hst n'. unfold n', Node_Start. cbn [nd_peers set_state NewNode].
  destruct (nd_peers n); [done|]. unfold rlog. cbn. rewrite Hst. split_and!; [done| |done].
  split; [cbn; unfold u64_max; lia|]. split; [apply map_Forall_empty|done].
Qed.

Lemma log_step ids g c e c' :
  NoDup ids → Forall (λ id, str_valid id = true) ids → cluster_inv ids c → log_inv ids g c →
  votes_kept c e → cluster_step c e c' → all_short c' →
  ∃ g', extends g g' ∧ log_inv ids g' c'.
Proof.
  intros Hnd Hval Hci Hi Hv Hstep Hshort. pose proof (step_inv _ _ _ _ Hci Hv Hstep) as Hci'.
  assert (∀ id n, cl_nodes c !! id = Some n → sender_ok n) as Hsend.
  { intros id n Hn. destruct (ci_config _ _ Hci _ _ Hn) as (Hid & _).
    split; [by apply (ci_state _ _ Hci id)|]. rewrite Hid.
    eapply Forall_forall in Hval; [done|]. apply (ci_dom _ _ Hci). by eexists. }
  assert (∀ c', log_inv ids g c' → ∃ g', extends g g' ∧ log_inv ids g' c') as Hsame by (intros; by exists g).
  destruct Hstep as [id n n' out Hn Hmax Heq|id n n' out Hn Heq|
    id n n' out cmd r Hn Heq|id n n' out m Hn Hin Heq|id n Hn];
    destruct (ci_config _ _ Hci _ _ Hn) as (Hid & Hps & Hc);
    destruct (ci_state _ _ Hci _ _ Hn) as [Hst Ht];
    pose proof (li_nodes _ _ _ Hi _ _ Hn) as Hok; pose proof Hok as [Hl Hr Hle Hcand Hp].
  - destruct (timeout_log _ _ _ Heq) as [Hk Hrk].
    assert (log_ok g (rlog n') ∧ ranges n') as [Hl' Hr'].
    { rewrite Hk. split; [done|]. apply Hrk; [apply Hl|done]. }
    destruct (timeout_spec n n' out Hc Hst) as [_ [(_ & -> & ->)|(Ht' & _ & Hro & _ & _ & Hf)]]; [lia|done| |].
    + apply Hsame. apply (log_quiet ids g c id n); try done; [by right|by left|constructor].
    + apply Hsame. apply (log_update ids g g c id n); [done|done|done|by left| |].
      * split; [done|done|congruence| |].
        -- intros _ h Hg. specialize (Hp _ _ Hg). lia.
        -- intros t h Hg. specialize (Hp _ _ Hg). lia.
      * apply (sends_excerpts_type g MsgRaftRequestVote); [done|].
        eapply Forall_impl; [exact Hf|]. by intros p (_ & ? & _).
  - destruct (sendAll_excerpts g n n' out Hl Hr (Hsend _ _ Hn) Heq) as [[Hk Hrk] Ho].
    destruct (sendAll_inert _ _ _ Heq) as [[_ Ht' _ Hro _ _] _].
    apply Hsame. apply (log_quiet ids g c id n); try done; [lia|by right|by rewrite Hk| |by left].
    apply Hrk; [apply Hl|done].
  - destruct (propose_log g n n' out cmd r Heq) as [(_ & -> & ->)|(Hlead & Hlead' & Ht' & e & Hte & Hlog & Hrest)].
    { apply Hsame. apply (log_quiet ids g c id n); try done; [by right|by left|constructor]. }
    assert (short (rlog n')) as Hs' by (apply (Hshort id); apply lookup_insert_eq).
    apply (log_proposed ids g c id n n' out e); try done.
    + by apply Hrest; [| |apply (Hsend id)].
    + intros g' Hl'. destruct (propose_log g' n n' out cmd r Heq)
        as [(Hno & _)|(_ & _ & _ & e' & _ & _ & Hrest')]; [done|].
      apply Hrest'; [done|done|by apply (Hsend id)|done].
  - destruct (run_message_log g n m n' out Hl Hr (Hsend _ _ Hn)) as (Hl' & Hr' & Hlog & Ho); [|done|].
    { intros Hty. pose proof (li_sent _ _ _ Hi) as Hs. unfold sends_excerpts in Hs.
      rewrite Forall_forall in Hs. by apply (Hs (id, m)). }
    destruct (run_message_spec n m n' out Hc Hst Ht Heq) as [_ [Hq|[(_ & args & _ & _ & Hg)|(_ & _ & Hta)]]].
    + apply Hsame. destruct Hq as (_ & Hterm & _ & _ & Hro).
      apply (log_quiet ids g c id n); try done; [lia|]. destruct Hro as [?|(? & ? & _)]; auto.
    + apply Hsame. destruct Hg as (Hterm & _ & _ & Hro & _).
      apply (log_quiet ids g c id n); try done; [lia|]. destruct Hro as [?|(? & ? & _)]; auto.
    + destruct Hta as (_ & Hterm & _ & Hca & _ & Hro).
      destruct Hro as [Hro|[Hro _]].
      * apply Hsame. apply (log_quiet ids g c id n); try done; [lia|right; split; congruence].
      * apply (log_elected ids g c id n n'); try done. destruct Hlog as [?|?]; congruence.
  - destruct (restart_log n Hc Hst) as (Hk & Hr' & Hro). destruct (restart_spec n Hc Hst Ht) as [_ Hq].
    apply Hsame. destruct Hq as (_ & Hterm & _).
    apply (log_quiet ids g c id n); try done; [lia|by left|by rewrite Hk|by left|constructor].
Qed.

Lemma fresh_log_inv ids : NoDup ids → log_inv ids ∅ (fresh_cluster ids).
Proof.
  intros Hnd. split.
  - intros id n Hn. rewrite fresh_lookup in Hn by done. case_decide; [|done]. injection Hn as <-. split.
    + split_and!; [by unfold short|constructor|]. intros i t Ht. unfold term_at in Ht. done.
    + split; [cbn; unfold u64_max; lia|]. split; [apply map_Forall_empty|done].
    + done.
    + done.
    + intros t h. by rewrite lookup_empty.
  - constructor.
  - intros t id h. by rewrite lookup_empty.
Qed.

Lemma steady_log_inv ids c :
  NoDup ids → (2 <= length ids)%nat → EmptyString ∉ ids → Forall (λ id, str_valid id = true) ids →
  steady_run (fresh_cluster ids) c → cluster_inv ids c ∧ ∃ g, log_inv ids g c.
Proof.
  intros Hnd Hlen Hne Hval Hrun.
  split; [eapply run_inv; [by apply fresh_inv|by apply steady_cluster_run]|].
  induction Hrun as [|c e c' Hrun [g Hi] Hv Hs Hshort].
  { exists ∅. by apply fresh_log_inv. }
  assert (cluster_inv ids c) as Hci.
  { eapply run_inv; [by apply fresh_inv|by apply steady_cluster_run]. }
  destruct (log_step ids g c e c' Hnd Hval Hci Hi Hv Hs Hshort) as (g' & _ & Hi'). by exists g'.
Qed.

(** ** Property *)

(** C5: log matching: in any steady run of a cluster, under message loss, delay,
    duplication and reordering and under crashes, if the logs of two nodes have
    entries of the same term at an index, the logs are equal up to and including
    that index, entry by entry; and a leader's log contains, up to its own
    length, every entry of its term that any log holds. The runs are those of
    election safety: no node answers a vote request of a term in which it has
    forgotten the vote it cast (otherwise a term can have two leaders,
    [two_leaders_one_term]); logs have less than 2^63 entries, and the two or
    more nodes have distinct, non-empty names that are valid UTF-8. *)
Theorem log_matching ids c id1 id2 n1 n2 i t :
  NoDup ids → (2 <= length ids)%nat → EmptyString ∉ ids → Forall (λ id, str_valid id = true) ids →
  steady_run (fresh_cluster ids) c →
  cl_nodes c !! id1 = Some n1 → cl_nodes c !! id2 = Some n2 → term_at (rlog n1) i = Some t →
  (term_at (rlog n2) i = Some t → take (S i) (rlog n1) = take (S i) (rlog n2)) ∧
  (nd_role n2 = Leader → term n2 = t → take (S i) (rlog n1) = take (S i) (rlog n2)).
Proof.
  intros Hnd Hlen Hne Hval Hrun Hn1 Hn2 Ht1.
  destruct (steady_log_inv ids c Hnd Hlen Hne Hval Hrun) as (_ & g & Hi).
  destruct (li_nodes _ _ _ Hi _ _ Hn1) as [(_ & _ & Hw1) _ _ _ _].
  destruct (li_nodes _ _ _ Hi _ _ Hn2) as [(_ & _ & Hw2) _ Hl2 _ _].
  split; [by eapply written_match|]. intros Hlead <-.
  destruct (Hw1 i _ Ht1) as (id & h & Hg & ->). rewrite (Hl2 Hlead) in Hg. by injection Hg as _ <-.
Qed.

(** ** A concrete run *)

Definition shortb (c : cluster) : bool :=
  forallb (λ kn, zlen (rlog kn.2) <? 2 ^ 63) (map_to_list (cl_nodes c)).

Lemma shortb_sound c : shortb c = true → all_short c.
Proof.
  unfold shortb. rewrite forallb_forall. intros Hs id n Hn.
  specialize (Hs (id, n)). apply Z.ltb_lt, Hs, list_elem_of_In. by apply elem_of_map_to_list.
Qed.

Fixpoint exec_steady (c : cluster) (ss : list act) : option cluster :=
  match ss with
  | [] => Some c
  | s :: ss' =>
      if keeps_vote c s then
        match exec_one c s with
        | Some c' => if shortb c' then exec_steady c' ss' else None
        | None => None
        end
      else None
  end.

Lemma exec_steady_run c0 c ss c' :
  steady_run c0 c → exec_steady c ss = Some c' → steady_run c0 c'.
Proof.
  revert c. induction ss as [|s ss IH]; intros c Hr; cbn [exec_steady]; [by intros [= <-]|].
  destruct (keeps_vote c s) eqn:Hk; [|done]. destruct (exec_one c s) as [c1|] eqn:He; [|done].
  destruct (shortb c1) eqn:Hs; [|done]. apply IH.
  destruct (keeps_vote_sound _ _ _ Hk He) as (e & Hv & Hstep).
  eapply steady_step; [done..|]. by apply shortb_sound.
Qed.

(** [a] is elected, proposes two commands and both reach [b]. *)
Definition two_commands : list act :=
  [ATimeout "a"; ADeliver 1; ADeliver 2; APropose "a" [Byte.x01]; APropose "a" [Byte.x02]; ADeliver 7].

Definition abc_facts : Prop :=
  NoDup abc ∧ (2 <= length abc)%nat ∧ EmptyString ∉ abc ∧ Forall (λ id, str_valid id = true) abc.

Lemma abc_ok : abc_facts.
Proof.
  split_and!.
  - apply (bool_decide_unpack _). vm_compute. exact I.
  - vm_compute. lia.
  - apply (bool_decide_unpack _). vm_compute. exact I.
  - by repeat constructor.
Qed.

Lemma log_matching_witness :
  ∃ c n1 n2, steady_run (fresh_cluster abc) c ∧ cl_nodes c !! "b" = Some n1 ∧
    cl_nodes c !! "a" = Some n2 ∧ length (rlog n1) = 2%nat ∧ take 2 (rlog n1) = take 2 (rlog n2).
Proof.
  assert ((λ c, (observe (λ n, (le_Term <$> rlog n)) "b" c,
      observe (λ n, (nd_role n, term n, le_Term <$> rlog n)) "a" c)) <$>
    exec_steady (fresh_cluster abc) two_commands =
    Some (Some [1; 1], Some (Leader, 1, [1; 1]))) as (c & E & Ho)%fmap_Some by (vm_compute; reflexivity).
  symmetry in Ho. apply pair_equal_spec in Ho as [Hob Hoa]. unfold observe in Hob, Hoa.
  apply fmap_Some in Hob as (n1 & Hn1 & Hb). apply fmap_Some in Hoa as (n2 & Hn2 & Ha).
  symmetry in Hb. apply pair_equal_spec in Ha as [[_ _]%pair_equal_spec Ha]. symmetry in Ha.
  pose proof (exec_steady_run _ _ _ _ (steady_nil _) E) as Hr.
  assert (length (rlog n1) = 2%nat) as Hlen by (by rewrite <- (length_fmap le_Term), Hb).
  exists c, n1, n2. split_and!; [exact Hr|exact Hn1|exact Hn2|exact Hlen|].
  destruct abc_ok as (H1 & H2 & H3 & H4).
  assert (∀ n, le_Term <$> rlog n = [1; 1] → term_at (rlog n) 1 = Some 1) as Hat.
  { intros n Hn. unfold term_at. pose proof (list_lookup_fmap le_Term (rlog n) 1) as Hx.
    rewrite Hn in Hx. symmetry. exact Hx. }
  exact (proj1 (log_matching abc c "b" "a" n1 n2 1 1 H1 H2 H3 H4 Hr Hn1 Hn2 (Hat n1 Hb)) (Hat n2 Ha)).
Defined.
