(* ===== verification/RaftCatchUp.v ===== *)
(** * A leader brings a follower's log up to date

    The exchange of a heartbeat and its reply between a leader and another
    node of a reachable cluster, repeated: after as many exchanges as the
    leader's log has entries, and two, the other node holds that log. *)

From S2P Require Import Prelude GoLib Json RaftRpc Raft RaftElection RaftLog RaftMatching.

Local Open Scope Z_scope.

(** ** The exchange *)

Definition message_to (id : string) (out : list (string * RaftMessage)) : option RaftMessage :=
  snd <$> head (filter (λ p, p.1 = id) out).

(** A heartbeat of [l], its message handled by [f], and the reply by [l]. *)
Definition round (l f : Node) : option (Node * Node) :=
  let '(l, out) := sendAppendEntriesToAll l in
  m ← message_to (nd_selfID f) out;
  '(f, out') ← run_message f m;
  r ← message_to (nd_selfID l) out';
  '(l, _) ← run_message l r;
  Some (l, f).

Fixpoint rounds (k : nat) (l f : Node) : option (Node * Node) :=
  match k with
  | O => Some (l, f)
  | S k => '(l, f) ← round l f; rounds k l f
  end.

(** The index from which the next heartbeat offers entries to [f]. *)
Definition next_for (l f : Node) : Z := (append_args l (nd_selfID f)).2.

(** [f] holds the leader's log, and the leader knows. *)
Definition caught_up (l f : Node) : Prop :=
  take (length (rlog l)) (rlog f) = rlog l ∧
  nd_matchIndex l !! nd_selfID f = Some (zlen (rlog f)) ∧
  next_for l f = zlen (rlog l) + 1.

(** ** Sending *)

Lemma SendRaft_one n p m :
  nd_peerAddrMap n = ∅ → p ≠ EmptyString → SendRaft n p m = [(p, m)].
Proof.
  intros Ha Hp. unfold SendRaft, peerAddr. rewrite Ha, lookup_empty. cbn.
  by rewrite bool_decide_eq_false_2.
Qed.

Lemma set_indexes_id n : set_indexes n (nd_nextIndex n) (nd_matchIndex n) = n.
Proof. by destruct n. Qed.

Lemma append_args_other n p x peer :
  p ≠ peer →
  append_args (set_indexes n (<[p := x]> (nd_nextIndex n)) (nd_matchIndex n)) peer = append_args n peer.
Proof.
  intros Hp. unfold append_args. cbn [set_indexes nd_nextIndex].
  by rewrite lookup_insert_ne.
Qed.

Definition offer (n : Node) (peer : string) : RaftMessage :=
  mkRaftMessage MsgRaftAppendEntries (nd_selfID n) (term n) (encodeJSON (append_args n peer).1).

Lemma append_to_message peers n peer out n' out' :
  nd_peerAddrMap n = ∅ → EmptyString ∉ peers → NoDup peers →
  append_to n peers out = (n', out') →
  (∃ nx, n' = set_indexes n nx (nd_matchIndex n)) ∧
  filter (λ p, p.1 = peer) out' =
    filter (λ p, p.1 = peer) out ++ (if decide (peer ∈ peers) then [(peer, offer n peer)] else []).
Proof.
  revert n out. induction peers as [|p peers IH]; intros n out Ha He Hnd Heq.
  { cbn in Heq. simplify_eq. split; [eexists; symmetry; apply set_indexes_id|].
    rewrite decide_False by set_solver. by rewrite app_nil_r. }
  apply NoDup_cons in Hnd as [Hp Hnd]. cbn [append_to] in Heq.
  destruct (append_args n p) as [args nextIdx] eqn:Eargs.
  set (n1 := if _ <? _ then _ else n) in Heq.
  assert (∃ x, n1 = n ∨ n1 = set_indexes n (<[p := x]> (nd_nextIndex n)) (nd_matchIndex n)) as [x Hn1].
  { exists nextIdx. unfold n1. destruct (_ <? _); auto. }
  assert (∀ q m, q ≠ EmptyString → SendRaft n1 q m = [(q, m)]) as Hsend.
  { intros q m Hq. apply SendRaft_one; [|done]. by destruct Hn1 as [->| ->]. }
  apply IH in Heq as [[nx ->] Hf]; [|by destruct Hn1 as [->| ->]|set_solver|done].
  split. { exists nx. by destruct Hn1 as [->| ->]. }
  rewrite Hf, Hsend, filter_app, <- (assoc_L (++)) by set_solver. f_equal.
  rewrite filter_cons, filter_nil. cbn [fst].
  destruct (decide (p = peer)) as [->|Hne].
  - rewrite (decide_False (P := peer ∈ peers)), (decide_True (P := peer ∈ peer :: peers)) by set_solver.
    cbn. unfold offer. rewrite Eargs. by destruct Hn1 as [->| ->].
  - cbn. destruct (decide (peer ∈ peers)) as [Hin|Hin].
    + rewrite (decide_True (P := peer ∈ p :: peers)) by set_solver.
      unfold offer. destruct Hn1 as [->| ->]; [done|]. by rewrite append_args_other.
    + by rewrite (decide_False (P := peer ∈ p :: peers)) by set_solver.
Qed.

Lemma sendAll_message n peer n' out :
  config_ok n → NoDup (nd_peers n) → peer ∈ nd_peers n → nd_role n = Leader →
  sendAppendEntriesToAll n = (n', out) →
  (∃ nx, n' = set_indexes n nx (nd_matchIndex n)) ∧ message_to peer out = Some (offer n peer).
Proof.
  intros (_ & _ & Ha & He) Hnd Hp Hl. unfold sendAppendEntriesToAll.
  rewrite bool_decide_eq_true_2 by done. intros Heq.
  destruct (append_to_message _ _ peer _ _ _ Ha He Hnd Heq) as [Hn Hf].
  split; [done|]. unfold message_to. rewrite Hf, decide_True by done. done.
Qed.

(** ** Applying and committing never fail *)

Record rest_kept (n n' : Node) : Prop := {
  rk_inert : inert n n';
  rk_log : log_kept n n';
  rk_next : nd_nextIndex n' = nd_nextIndex n;
  rk_match : nd_matchIndex n' = nd_matchIndex n;
}.

Lemma apply_loop_ok k n :
  0 <= nd_lastApplied n → (k = 0%nat ∨ nd_lastApplied n + Z.of_nat k <= zlen (rlog n)) →
  ∃ n', apply_loop k n = Some n' ∧ nd_nextIndex n' = nd_nextIndex n ∧ nd_matchIndex n' = nd_matchIndex n.
Proof.
  revert n. induction k as [|k IH]; intros n H0 Hk; cbn [apply_loop]; [by eauto|].
  replace (nd_lastApplied n + 1 - 1) with (nd_lastApplied n) by lia.
  destruct Hk as [?|Hk]; [lia|].
  destruct (lookup_lt_is_Some_2 (rlog n) (Z.to_nat (nd_lastApplied n))) as [e ->]; [unfold zlen in *; lia|].
  destruct (IH (applied_one n (nd_lastApplied n + 1) (le_Command e))) as (n' & -> & Hn & Hm);
    [cbn; lia| |by exists n'].
  right. cbn [applied_one nd_lastApplied]. change (rlog (applied_one _ _ _)) with (rlog n). lia.
Qed.

Lemma applyCommitted_ok n :
  0 <= nd_lastApplied n → nd_commitIndex n <= zlen (rlog n) →
  ∃ n', applyCommittedLocked n = Some n' ∧ rest_kept n n'.
Proof.
  intros H0 Hc. unfold applyCommittedLocked.
  destruct (apply_loop_ok (Z.to_nat (nd_commitIndex n - nd_lastApplied n)) n H0) as (n' & Heq & Hn & Hm).
  { destruct (decide (nd_commitIndex n <= nd_lastApplied n)); [left|right]; lia. }
  exists n'. split; [done|]. split; [by eapply apply_loop_inert|by eapply apply_loop_kept|done|done].
Qed.

Lemma advance_ok n :
  0 <= nd_lastApplied n →
  ∃ n', advanceCommitIndexLocked n = Some n' ∧ rest_kept n n'.
Proof.
  intros H0.
  assert (∃ n', advanceCommitIndexLocked n = Some n' ∧ nd_nextIndex n' = nd_nextIndex n ∧
    nd_matchIndex n' = nd_matchIndex n) as (n' & Heq & Hn & Hm).
  2: { exists n'. split; [done|]. split; [by apply advance_inert|by apply advance_kept|done|done]. }
  unfold advanceCommitIndexLocked. case_bool_decide; [|by eauto].
  assert (length (rlog n) <= length (rlog n))%nat as Hk by lia. revert Hk.
  generalize (length (rlog n)) at 1 3 as k.
  induction k as [|k IH]; intros Hk; cbn [advance_loop]; [by eauto|].
  destruct (nd_commitIndex n <? Z.of_nat (S k)); [|by eauto].
  destruct (lookup_lt_is_Some_2 (rlog n) k Hk) as [e ->].
  destruct (negb (le_Term e =? term n)); [apply IH; lia|].
  destruct (quorum n <=? replicated n (Z.of_nat (S k))); [|apply IH; lia].
  destruct (applyCommitted_ok (set_commit n (Z.of_nat (S k)))) as (n' & -> & Hr).
  - done.
  - change (rlog (set_commit _ _)) with (rlog n). cbn. unfold zlen. lia.
  - exists n'. split; [done|]. destruct Hr as [_ _ -> ->]. done.
Qed.

(** ** What the follower answers and where the leader goes back to *)

(** The next index the leader takes from a refusal. *)
Definition back_to (log : list LogEntry) (ci ct : Z) : Z :=
  let nextIdx := if 0 <? ct then default ci (after_term log ct (length log)) else ci in
  if nextIdx <? 1 then 1 else nextIdx.

Lemma after_term_spec log t i z :
  (i <= length log)%nat → after_term log t i = Some z →
  ∃ j, (j < i)%nat ∧ term_at log j = Some t ∧ z = u64 (Z.of_nat j + 2).
Proof.
  intros Hi. induction i as [|i IH]; cbn [after_term]; [done|].
  destruct (log !! i) as [e|] eqn:He; [|done]. destruct (Z.eqb_spec (le_Term e) t) as [Ht|Ht].
  - intros [= <-]. exists i. split_and!; [lia|unfold term_at; by rewrite He, <- Ht|]. f_equal. lia.
  - intros Hz. destruct IH as (j & Hj & ? & ?); [lia|done|]. exists j. split_and!; [lia|done|done].
Qed.

Lemma entry_term_range g log i t : log_ok g log → term_at log i = Some t → 0 <= t <= u64_max.
Proof.
  intros (_ & Hf & _) Ht. unfold term_at in Ht. apply fmap_Some in Ht as (e & He & ->).
  eapply Forall_lookup_1 in Hf; [|done]. apply Hf.
Qed.

(** A refused offer makes the leader go back. *)
Lemma refused_goes_back g f log prev pt ci ct :
  log_ok g f → log_ok g log → 0 < prev <= zlen log → term_at log (Z.to_nat prev - 1) = Some pt →
  (zlen f < prev ∧ ci = zlen f + 1 ∧ ct = 0 ∨
   prev <= zlen f ∧ 1 <= ci <= prev ∧ term_at f (Z.to_nat prev - 1) = Some ct ∧ ct ≠ pt) →
  1 <= back_to log ci ct <= prev.
Proof.
  intros (Hsf & _ & Hwf) (Hsl & _ & Hwl) Hp Hpt H. unfold short in *.
  pose proof (zlen_nonneg f). unfold back_to.
  destruct H as [(Hlt & -> & ->)|(Hle & Hci & Hct & Hne)].
  { cbn. destruct (Z.ltb_spec (zlen f + 1) 1); lia. }
  destruct (0 <? ct); [|destruct (Z.ltb_spec ci 1); lia].
  destruct (after_term log ct (length log)) as [z|] eqn:Ez; cbn [default from_option id];
    [|destruct (Z.ltb_spec ci 1); lia].
  apply after_term_spec in Ez as (j & Hj & Htj & ->); [|lia].
  rewrite u64_id by (unfold is_u64, zlen in *; lia).
  assert (j < Z.to_nat prev - 1)%nat.
  { destruct (decide (j < Z.to_nat prev - 1)%nat) as [|Hge]; [done|]. exfalso. apply Hne.
    destruct (Hwf _ _ Hct) as (id & h & Hg & Hf'). destruct (Hwl _ _ Htj) as (id' & h' & Hg' & Hl').
    assert (h' = h) as -> by congruence.
    assert (take (S (Z.to_nat prev - 1)) log = take (S (Z.to_nat prev - 1)) f) as Heq.
    { rewrite Hf'. eapply take_prefix; [|exact Hl']. lia. }
    assert (term_at log (Z.to_nat prev - 1) = term_at f (Z.to_nat prev - 1)) as Ht.
    { rewrite <- (term_at_take log _ (S (Z.to_nat prev - 1))), Heq by lia. apply term_at_take. lia. }
    congruence. }
  destruct (Z.ltb_spec (Z.of_nat j + 2) 1); lia.
Qed.

(** The follower's side of an offer made from [log] at the next index [x]. *)
Lemma offer_spec g n log x prev pt entries n' ok ci ct :
  log_ok g (rlog n) → log_ok g log → 0 <= x <= zlen log + 1 → prev = u64 (x - 1) →
  (1 <= x → entries = drop (Z.to_nat prev) log) → (1 < x → term_at log (Z.to_nat prev - 1) = Some pt) →
  appendEntriesFromLeader n prev pt entries = (n', (ok, ci, ct)) →
  (ok = false ∧ n' = n ∧ is_u64_field ci ∧ is_u64_field ct ∧ 1 <= back_to log ci ct ∧
     (x = 0 ∨ back_to log ci ct < x) ∧
     ¬ (1 <= x ∧ take (length log) (rlog n) = log)) ∨
  (ok = true ∧ 1 <= x ∧ (rlog n' = rlog n ∨ rlog n' = log) ∧ take (length log) (rlog n') = log).
Proof.
  intros Hf Hl Hx -> Hes Hpt. pose proof Hf as (Hsf & _ & Hwf). pose proof Hl as (Hsl & _ & Hwl).
  unfold short in *. pose proof (zlen_nonneg (rlog n)) as Hzf. pose proof (zlen_nonneg log) as Hzl.
  unfold appendEntriesFromLeader.
  destruct (decide (x = 0)) as [->|Hx0].
  { assert (u64 (0 - 1) = 2 ^ 64 - 1) as -> by done. rewrite (proj2 (Z.ltb_lt _ _)) by lia.
    rewrite u64_id by (unfold is_u64; lia). intros [= <- <- <- <-]. left.
    assert (back_to log (zlen (rlog n) + 1) 0 = zlen (rlog n) + 1) as Hb.
    { unfold back_to. cbn. rewrite (proj2 (Z.ltb_ge _ _)) by lia. done. }
    unfold is_u64_field, u64_max. split_and!; try done; try lia. }
  set (prev := u64 (x - 1)) in *. assert (prev = x - 1) as Hprev by (apply u64_id; unfold is_u64; lia).
  clearbody prev. specialize (Hes ltac:(lia)).
  assert (ok = true → prev <= zlen (rlog n) →
    reconciled (rlog n) (Z.to_nat prev) entries (rlog n') →
    (1 < x → term_at (rlog n) (Z.to_nat prev - 1) = Some pt) →
    ok = true ∧ 1 <= x ∧ (rlog n' = rlog n ∨ rlog n' = log) ∧ take (length log) (rlog n') = log) as Hacc.
  { intros Hok Hle Hr Ht. destruct (reconciled_written g (rlog n) log (Z.to_nat prev) entries (rlog n') pt)
      as [Hlog Htake]; try done.
    - unfold zlen in *. lia.
    - unfold zlen in *. lia.
    - intros H0. split; [apply Hpt; lia|apply Ht; lia].
    - split_and!; [done|lia|done|done]. }
  assert (∀ n1, n1 = persistLocked (set_log n (merge_loop (rlog n) (u64 (prev + 1)) 0 entries)) →
    prev <= zlen (rlog n) → reconciled (rlog n) (Z.to_nat prev) entries (rlog n1)) as Hmerge.
  { intros n1 -> Hle. rewrite (lk_log _ _ (persist_log_kept _)).
    change (rlog (set_log n ?l)) with l.
    pose proof (merge_loop_spec (rlog n) prev 0 entries ltac:(lia) ltac:(lia) ltac:(lia)) as Hr.
    rewrite Z.add_0_r in Hr. apply Hr. rewrite Hes. unfold zlen in *. rewrite length_drop. lia. }
  destruct (Z.ltb_spec (zlen (rlog n)) prev) as [Hlt|Hle].
  { rewrite u64_id by (unfold is_u64; lia). intros [= <- <- <- <-]. left.
    destruct (refused_goes_back g (rlog n) log prev pt (zlen (rlog n) + 1) 0) as [H1 H2];
      [done|done|lia|apply Hpt; lia|by left|].
    unfold is_u64_field, u64_max. split_and!; try done; try lia.
    intros [_ Htake]. apply (f_equal length) in Htake. rewrite length_take in Htake. unfold zlen in *. lia. }
  destruct (Z.ltb_spec 0 prev) as [H0|H0].
  2: { intros [= <- <- _ _]. right. apply Hacc; [done|done|by apply Hmerge|lia]. }
  destruct (lookup_lt_is_Some_2 (rlog n) (Z.to_nat (prev - 1))) as [e He]; [unfold zlen in *; lia|].
  rewrite He. assert (term_at (rlog n) (Z.to_nat prev - 1) = Some (le_Term e)) as Hte.
  { unfold term_at. replace (Z.to_nat prev - 1)%nat with (Z.to_nat (prev - 1)) by lia. by rewrite He. }
  specialize (Hpt ltac:(lia)).
  destruct (Z.eqb_spec (le_Term e) pt) as [Heq|Hne]; cbn [negb].
  { intros [= <- <- _ _]. right. apply Hacc; [done|done|by apply Hmerge|]. intros _. by rewrite Hte, Heq. }
  intros [= <- <- <- <-]. left.
  destruct (conflict_start_spec (rlog n) (le_Term e) (Z.to_nat prev)) as (H1 & _ & _);
    [unfold zlen in *; lia|done|]. cbv zeta in H1.
  destruct (refused_goes_back g (rlog n) log prev pt
    (Z.of_nat (conflict_start (rlog n) (le_Term e) (Z.to_nat prev))) (le_Term e)) as [H2 H3];
    [done|done|lia|done|right; split_and!; [lia..|done|done]|].
  pose proof (entry_term_range _ _ _ _ Hf Hte).
  unfold is_u64_field, u64_max in *. split_and!; try done; try lia.
  intros [_ Htake]. apply Hne. cut (Some (le_Term e) = Some pt); [by intros [= ->]|].
  rewrite <- Hte, <- Hpt, <- Htake. symmetry. apply term_at_take. unfold zlen in *. lia.
Qed.

(** ** One exchange *)

(** A node of a cluster in good order. *)
Record good g (n : Node) : Prop := {
  go_config : config_ok n;
  go_store : nd_store n = nd_state n;
  go_sender : sender_ok n;
  go_log : log_ok g (rlog n);
  go_ranges : ranges n;
  go_name : nd_selfID n ≠ EmptyString;
}.

Record pair_ok g (l f : Node) : Prop := {
  po_leader : good g l;
  po_other : good g f;
  po_role : nd_role l = Leader;
  po_term : term f <= term l;
  po_peer : nd_selfID f ∈ nd_peers l;
  po_peers : NoDup (nd_peers l);
}.

Lemma good_message g n m n' out :
  good g n → (rm_Type m = MsgRaftAppendEntries → ∀ args, decodeJSON (rm_Body m) = Some args → excerpt g args) →
  run_message n m = Some (n', out) → good g n' ∧ same_config n n'.
Proof.
  intros [Hc Hs He Hl Hr Hn] Hm Heq.
  destruct (run_message_log g n m n' out Hl Hr He Hm Heq) as (Hl' & Hr' & _ & _).
  destruct (run_message_spec n m n' out Hc Hs (proj1 He) Heq) as [[Hcfg Hst] Hq].
  split; [|done]. split; [by eapply config_same|done| |done|done|].
  - split; [|destruct Hcfg as (-> & _); apply He]. destruct He as [He _].
    destruct Hq as [Hq|[(_ & ? & _ & _ & Hq)|(_ & _ & Hq)]].
    + destruct Hq as (_ & Hq & _). lia.
    + destruct Hq as (Hq & _). lia.
    + destruct Hq as (_ & -> & _). lia.
  - by destruct Hcfg as (-> & _).
Qed.

Lemma append_args_fields n peer :
  ae_Term (append_args n peer).1 = term n ∧ ae_LeaderID (append_args n peer).1 = nd_selfID n.
Proof. done. Qed.

Lemma offer_shape g n peer :
  log_ok g (rlog n) → ranges n → sender_ok n →
  let x := (append_args n peer).2 in let a := (append_args n peer).1 in
  0 <= x <= zlen (rlog n) + 1 ∧ ae_PrevLogIndex a = u64 (x - 1) ∧
  (1 <= x → ae_Entries a = drop (Z.to_nat (ae_PrevLogIndex a)) (rlog n)) ∧
  (1 < x → term_at (rlog n) (Z.to_nat (ae_PrevLogIndex a) - 1) = Some (ae_PrevLogTerm a)).
Proof.
  intros Hl (_ & Hx & _) _. pose proof Hl as (Hs & _ & _). unfold short in Hs.
  unfold append_args. cbn [fst snd].
  assert (0 <= default 0 (nd_nextIndex n !! peer) <= u64_max) as Hd.
  { destruct (nd_nextIndex n !! peer) eqn:E; [by apply (Hx peer)|cbn; unfold u64_max; lia]. }
  set (nextIdx := if zlen (rlog n) <? _ then _ else _). pose proof (zlen_nonneg (rlog n)) as Hz.
  assert (0 <= nextIdx <= zlen (rlog n) + 1) as Hn.
  { unfold nextIdx. destruct (Z.ltb_spec (zlen (rlog n)) (default 0 (nd_nextIndex n !! peer))); [|lia].
    rewrite u64_id by (unfold is_u64; lia). lia. }
  clearbody nextIdx. cbn [ae_PrevLogIndex ae_Entries ae_PrevLogTerm].
  split; [done|]. split; [done|]. split.
  - intros H1. rewrite u64_id by (unfold is_u64; lia). rewrite (proj2 (Z.leb_le 1 _)) by done.
    destruct (Z.leb_spec nextIdx (zlen (rlog n))); cbn [andb]; [done|].
    rewrite drop_ge; [done|]. unfold zlen in *. lia.
  - intros H1. rewrite u64_id by (unfold is_u64; lia).
    rewrite (proj2 (Z.ltb_lt _ _)), (proj2 (Z.leb_le _ _)) by lia. cbn [andb].
    replace (Z.to_nat (nextIdx - 1) - 1)%nat with (Z.to_nat (nextIdx - 1 - 1)) by lia.
    destruct (lookup_lt_is_Some_2 (rlog n) (Z.to_nat (nextIdx - 1 - 1))) as [e He];
      [unfold zlen in *; lia|].
    unfold term_at. by rewrite He.
Qed.

(** Failing the waiters is no matter. *)
Lemma released (P : Node → Prop) n (c : bool) :
  P n → (∀ ps, P n → P (set_proposals n ps)) → P (if c then set_proposals n ∅ else n).
Proof. destruct c; auto. Qed.

Lemma same_config_trans n1 n2 n3 : same_config n1 n2 → same_config n2 n3 → same_config n1 n3.
Proof. intros (? & ? & ? & ?) (? & ? & ? & ?). split_and!; congruence. Qed.

Lemma adopt_all n t id k :
  config_ok n →
  let n' := adopt_term n t id k in
  same_config n n' ∧ config_ok n' ∧ term n' = t ∧ nd_store n' = nd_state n' ∧ log_kept n n'.
Proof.
  intros Hc n'. destruct (adopt_facts n t id k) as (H1 & H2 & _ & _ & H3); [apply Hc|].
  split_and!; [done|by eapply config_same|done|done|apply adopt_log_kept].
Qed.

(** The node that a leader of a higher term, or of the same, is met with. *)
Lemma adopt_if n t id :
  config_ok n → nd_store n = nd_state n → term n <= t →
  let n' := if term n <? t then adopt_term n t id true else n in
  same_config n n' ∧ config_ok n' ∧ term n' = t ∧ log_kept n n'.
Proof.
  intros Hc Hs Ht n'. unfold n'. destruct (Z.ltb_spec (term n) t).
  - destruct (adopt_all n t id true Hc) as (? & ? & ? & _ & ?). done.
  - split_and!; try done. lia.
Qed.

Lemma follower_commit n lc (ok : bool) :
  0 <= nd_lastApplied n →
  ∃ n', (if ok && (nd_commitIndex n <? lc) then
      applyCommittedLocked (set_commit n (if zlen (rlog n) <? lc then zlen (rlog n) else lc))
    else Some n) = Some n' ∧ inert n n' ∧ rlog n' = rlog n.
Proof.
  intros H0. destruct (ok && _); [|by exists n; split_and!; [|apply inert_refl|]].
  destruct (applyCommitted_ok (set_commit n (if zlen (rlog n) <? lc then zlen (rlog n) else lc)))
    as (n' & Heq & [Hi [Hl _] _ _]).
  - done.
  - change (rlog (set_commit _ _)) with (rlog n). cbn. destruct (Z.ltb_spec (zlen (rlog n)) lc); lia.
  - exists n'. split; [done|]. split; [|done]. eapply inert_trans; [|exact Hi]. by split.
Qed.

(** The reply to an offer with the outcome of [appendEntriesFromLeader]. *)
Definition answer (t : Z) (ok : bool) (len ci ct : Z) : AppendEntriesReply :=
  mkAppendEntriesReply t ok (if ok then len else 0) (if ok then 0 else ci) (if ok then 0 else ct).

Definition response (f : Node) (t : Z) (rep : AppendEntriesReply) : RaftMessage :=
  mkRaftMessage MsgRaftAppendResponse (nd_selfID f) t (encodeJSON rep).

Lemma follower_handles g l f a x :
  pair_ok g l f → append_args l (nd_selfID f) = (a, x) →
  ∃ n2 n3 n4 ok ci ct,
    log_kept f n2 ∧
    appendEntriesFromLeader n2 (ae_PrevLogIndex a) (ae_PrevLogTerm a) (ae_Entries a) = (n3, (ok, ci, ct)) ∧
    handleAppendEntries f (offer l (nd_selfID f)) =
      Some (n4, [(nd_selfID l, response f (term l) (answer (term l) ok (zlen (rlog n3)) ci ct))], true) ∧
    term n4 = term l ∧ rlog n4 = rlog n3.
Proof.
  intros [[Hcl _ Hsel Hll Hrl Hnl] [Hcf Hsf _ Hlf Hrf _] _ Hterm _ _] Ea.
  destruct (append_args_excerpt g l (nd_selfID f) Hll Hrl Hsel) as (Hexc & Hwf & _).
  destruct (append_args_fields l (nd_selfID f)) as [Htm Hid].
  rewrite Ea in Hexc, Hwf, Htm, Hid. cbn [fst] in *.
  destruct (adopt_if f (ae_Term a) (ae_LeaderID a)) as (Hc1 & Hco1 & Ht1 & Hk1); [done|done|lia|].
  set (n1 := if term f <? ae_Term a then _ else f) in *.
  destruct (adopt_all n1 (ae_Term a) (ae_LeaderID a) true Hco1) as (Hc2 & Hco2 & Ht2 & Hst2 & Hk2).
  set (n2 := adopt_term n1 _ _ _) in *. assert (log_kept f n2) as Hk by (by etrans).
  assert (log_ok g (rlog n2)) as Hl2 by (by rewrite (lk_log _ _ Hk)).
  destruct (appendEntriesFromLeader n2 (ae_PrevLogIndex a) (ae_PrevLogTerm a) (ae_Entries a))
    as [n3 [[ok ci] ct]] eqn:Eapp.
  destruct (append_from_leader_log g n2 a n3 _ Hl2 Hexc Eapp) as (_ & _ & Hr3).
  specialize (Hr3 (lk_ranges _ _ Hk (proj1 Hlf) Hrf)).
  pose proof (append_from_leader_inert _ _ _ _ _ _ (proj1 Hco2) Hst2 Eapp) as Hi3.
  destruct (follower_commit n3 (ae_LeaderCommit a) ok) as (n4 & Hadv & Hi4 & Hl4); [apply Hr3|].
  pose proof (inert_trans _ _ _ Hi3 Hi4) as [Hc4 Ht4 _ _ _ _].
  exists n2, n3, n4, ok, ci, ct. split_and!; [done|done| |congruence|done].
  unfold handleAppendEntries. unfold offer. rewrite Ea. cbn [fst rm_Body]. rewrite decode_encode by done.
  fold n1. cbv zeta. rewrite (proj2 (Z.ltb_ge (ae_Term a) (term n1))) by lia. fold n2.
  rewrite Eapp, Hadv, Hid, Ht1, Htm.
  assert (same_config f n4) as (Hself & _ & Hmap & _) by (by repeat (eapply same_config_trans; [done|])).
  unfold append_reply. rewrite SendRaft_one; [|by rewrite Hmap; apply Hcf|done].
  unfold response, answer. rewrite Hself. replace (term n4) with (term l) by congruence. done.
Qed.

(** What the follower makes of the leader's offer. *)
Lemma follower_takes g l f :
  pair_ok g l f →
  ∃ f' rep, run_message f (offer l (nd_selfID f)) = Some (f', [(nd_selfID l, response f (term l) rep)]) ∧
    AppendEntriesReply_wf rep ∧ ar_Term rep = term l ∧ term f' = term l ∧
    ((ar_Success rep = false ∧ rlog f' = rlog f ∧
      1 <= back_to (rlog l) (ar_ConflictIndex rep) (ar_ConflictTerm rep) ∧
      (next_for l f = 0 ∨
       back_to (rlog l) (ar_ConflictIndex rep) (ar_ConflictTerm rep) < next_for l f) ∧
      ¬ (1 <= next_for l f ∧ take (length (rlog l)) (rlog f) = rlog l)) ∨
     (ar_Success rep = true ∧ ar_MatchIndex rep = zlen (rlog f') ∧
      take (length (rlog l)) (rlog f') = rlog l)).
Proof.
  intros Hok. pose proof Hok as [[_ _ Hsel Hll Hrl _] [_ _ _ Hlf _ _] _ _ _ _].
  destruct (offer_shape g l (nd_selfID f) Hll Hrl Hsel) as (Hx & Hprev & Hes & Hpt).
  destruct (append_args l (nd_selfID f)) as [a x] eqn:Ea.
  destruct (follower_handles g l f a x Hok Ea) as (n2 & n3 & n4 & ok & ci & ct & Hk & Eapp & Hh & Ht4 & Hl4).
  assert (next_for l f = x) as -> by (unfold next_for; by rewrite Ea). cbn [fst snd] in *.
  assert (log_ok g (rlog n2)) as Hl2 by (by rewrite (lk_log _ _ Hk)).
  pose proof (offer_spec g n2 (rlog l) x _ _ _ n3 ok ci ct Hl2 Hll Hx Hprev Hes Hpt Eapp) as Hoffer.
  rewrite (lk_log _ _ Hk) in Hoffer.
  set (c := bool_decide (nd_role f = Leader) && negb (bool_decide (nd_role n4 = Leader))).
  set (rep := answer (term l) ok (zlen (rlog n3)) ci ct) in *.
  pose proof (λ P, released P n4 c) as Hrel.
  exists (if c then set_proposals n4 ∅ else n4), rep.
  split. { unfold run_message, dispatchMsg. cbn. rewrite Hh. fold c. by destruct c. }
  assert (short (rlog n3)) as Hs3.
  { destruct Hoffer as [(_ & -> & _)|(_ & _ & [-> | ->] & _)]; [rewrite (lk_log _ _ Hk); apply Hlf|apply Hlf|apply Hll]. }
  unfold short in Hs3. pose proof (zlen_nonneg (rlog n3)). destruct Hsel as [Hterm _].
  split; [|split; [done|split; [by apply (Hrel (λ n, term n = term l))|]]].
  - destruct Hoffer as [(-> & _ & Hci & Hct & _)|(-> & _)]; cbn; unfold is_u64_field, u64_max in *;
      split_and!; cbn; unfold is_u64_field, u64_max in *; lia.
  - destruct Hoffer as [(-> & -> & _ & _ & Hy & Hback & Hno)|(-> & _ & _ & Htake)]; [left|right].
    + split_and!; [done| |done|done|done].
      apply (Hrel (λ n, rlog n = rlog f)); [rewrite Hl4; apply Hk|done].
    + split; [done|]. split.
      * symmetry. apply (Hrel (λ n, zlen (rlog n) = zlen (rlog n3))); [cbv beta; by rewrite Hl4|done].
      * apply (Hrel (λ n, take (length (rlog l)) (rlog n) = rlog l)); [cbv beta; by rewrite Hl4|done].
Qed.

(** What the leader makes of the reply. *)
Lemma leader_hears g l f nx rep zf :
  good g l → nd_role l = Leader → AppendEntriesReply_wf rep → ar_Term rep = term l →
  (ar_Success rep = true → ar_MatchIndex rep = zf) →
  ∃ l' out, run_message (set_indexes l nx (nd_matchIndex l)) (response f (term l) rep) = Some (l', out) ∧
    nd_role l' = Leader ∧ term l' = term l ∧ rlog l' = rlog l ∧ nd_selfID l' = nd_selfID l ∧
    nd_peers l' = nd_peers l ∧
    (if ar_Success rep
     then nd_matchIndex l' !! nd_selfID f = Some zf ∧
       nd_nextIndex l' !! nd_selfID f = Some (u64 (zf + 1))
     else nd_nextIndex l' !! nd_selfID f =
       Some (back_to (rlog l) (ar_ConflictIndex rep) (ar_ConflictTerm rep))).
Proof.
  intros [Hc _ _ Hl (_ & _ & Ha) _] Hrole Hwf Ht Hz. set (l1 := set_indexes l nx _).
  assert (∃ l', handleAppendResponse l1 (response f (term l) rep) = Some (l', false) ∧
    nd_role l' = Leader ∧ term l' = term l ∧ rlog l' = rlog l ∧ nd_selfID l' = nd_selfID l ∧
    nd_peers l' = nd_peers l ∧
    (if ar_Success rep
     then nd_matchIndex l' !! nd_selfID f = Some zf ∧
       nd_nextIndex l' !! nd_selfID f = Some (u64 (zf + 1))
     else nd_nextIndex l' !! nd_selfID f =
       Some (back_to (rlog l) (ar_ConflictIndex rep) (ar_ConflictTerm rep))))
    as (l' & Hh & Hro & Hrest).
  2: { exists l', []. split; [|exact (conj Hro Hrest)]. unfold run_message, dispatchMsg. cbn. rewrite Hh. cbn.
       rewrite Hro. by rewrite andb_false_r. }
  unfold handleAppendResponse. cbn [response rm_Body rm_From]. rewrite decode_encode by done.
  rewrite (proj2 (Z.ltb_ge _ _)) by (change (term l1) with (term l); lia).
  change (nd_role l1) with (nd_role l). rewrite Hrole. cbn [negb bool_decide decide decide_rel].
  rewrite bool_decide_eq_true_2 by done. cbn [negb].
  destruct (ar_Success rep).
  - rewrite Hz by done.
    destruct (advance_ok (set_indexes l1 (<[nd_selfID f := u64 (zf + 1)]> (nd_nextIndex l1))
      (<[nd_selfID f := zf]> (nd_matchIndex l1)))) as (l' & -> & [[Hcf Ht' _ Hr' _ _] [Hl' _] Hn Hm]); [done|].
    exists l'. split; [done|]. rewrite Hr', Ht', Hl', Hn, Hm. destruct Hcf as (-> & -> & _).
    split_and!; try done; cbn; apply lookup_insert_eq.
  - eexists. split; [reflexivity|]. split_and!; try done. cbn. apply lookup_insert_eq.
Qed.

Lemma next_for_of l f z :
  short (rlog l) → nd_nextIndex l !! nd_selfID f = Some z →
  next_for l f = if zlen (rlog l) <? z then zlen (rlog l) + 1 else z.
Proof.
  intros Hs Hz. unfold next_for, append_args. cbn [snd]. rewrite Hz. cbn [default from_option id].
  unfold short in Hs. pose proof (zlen_nonneg (rlog l)).
  destruct (_ <? _); [|done]. apply u64_id. unfold is_u64. lia.
Qed.

Lemma offer_excerpt g l p :
  good g l → ∀ args, decodeJSON (rm_Body (offer l p)) = Some args → excerpt g args.
Proof.
  intros Hgl args Hd. destruct (append_args_excerpt g l p) as (He & Hw & _); [by apply Hgl..|].
  pose proof (decode_encode (append_args l p).1 Hw) as Hd'.
  change (decodeJSON (encodeJSON (append_args l p).1) = Some args) in Hd.
  congruence.
Qed.

Lemma round_eq l f l1 out m f' out' r l' out2 :
  sendAppendEntriesToAll l = (l1, out) → message_to (nd_selfID f) out = Some m →
  run_message f m = Some (f', out') → message_to (nd_selfID l1) out' = Some r →
  run_message l1 r = Some (l', out2) → round l f = Some (l', f').
Proof. intros H1 H2 H3 H4 H5. unfold round. by rewrite H1, H2; cbn; rewrite H3; cbn; rewrite H4; cbn; rewrite H5. Qed.

Lemma message_to_one id m : message_to id [(id, m)] = Some m.
Proof. unfold message_to. by rewrite filter_cons_True. Qed.

Lemma good_indexes g n nx mx : good g n → ranges (set_indexes n nx mx) → good g (set_indexes n nx mx).
Proof. intros [? ? ? ? _ ?] Hr. by split. Qed.

(** An exchange brings the follower up to date or the leader one step back. *)
Lemma round_progress g l f :
  pair_ok g l f →
  ∃ l' f', round l f = Some (l', f') ∧ pair_ok g l' f' ∧ rlog l' = rlog l ∧ term l' = term l ∧
    nd_selfID f' = nd_selfID f ∧ term f' = term l ∧
    (caught_up l' f' ∨
     ¬ caught_up l f ∧ 1 <= next_for l' f' ∧ (next_for l f = 0 ∨ next_for l' f' < next_for l f)).
Proof.
  intros Hok. destruct (follower_takes g l f Hok) as (f' & rep & Hrf & Hwf & Hta & Htf & Hcase).
  pose proof Hok as [Hgl Hgf Hrole Hterm Hpeer Hnd].
  destruct (sendAppendEntriesToAll l) as [l1 out] eqn:Es.
  destruct (sendAll_message l (nd_selfID f) l1 out) as [[nx ->] Hmsg];
    [by apply Hgl|done|done|done|done|].
  destruct (leader_hears g l f nx rep (zlen (rlog f')) Hgl Hrole Hwf Hta)
    as (l' & out' & Hrl & Hro' & Ht' & Hl' & Hid' & Hp' & Hnext); [by destruct Hcase as [[-> _]|(_ & -> & _)]|].
  exists l', f'. split; [by eapply round_eq; [exact Es|exact Hmsg|exact Hrf|apply message_to_one|exact Hrl]|].
  assert (good g f' ∧ same_config f f') as [Hgf' (Hidf & _)].
  { eapply good_message; [done| |exact Hrf]. intros _. by apply offer_excerpt. }
  assert (good g l') as Hgl'.
  { apply (good_message g (set_indexes l nx (nd_matchIndex l)) (response f (term l) rep) l' out');
      [|discriminate|exact Hrl].
    destruct (sendAll_excerpts g l _ out (go_log _ _ Hgl) (go_ranges _ _ Hgl) (go_sender _ _ Hgl) Es)
      as [[_ Hk] _]. by apply good_indexes, Hk; [|apply Hgl..]. }
  assert (short (rlog l')) as Hs' by apply Hgl'.
  split; [|split; [exact Hl'|split; [exact Ht'|split; [exact Hidf|split; [exact Htf|]]]]].
  { split; [exact Hgl'|exact Hgf'|exact Hro'|rewrite Htf, Ht'; reflexivity|by rewrite Hidf, Hp'|by rewrite Hp']. }
  pose proof (zlen_nonneg (rlog l)) as Hz. pose proof (proj1 (go_log _ _ Hgf')) as Hsf. unfold short in Hsf.
  destruct Hcase as [(Hrej & Hlf & Hb & Hback & Hno)|(Hacc & _ & Htake)]; rewrite ?Hrej, ?Hacc in Hnext.
  - right. rewrite <- Hidf in Hnext. pose proof (next_for_of l' f' _ Hs' Hnext) as Hn. rewrite Hl' in Hn.
    split.
    + intros (Htake & _ & Hnx). apply Hno. split; [lia|done].
    + destruct (Z.ltb_spec (zlen (rlog l)) (back_to (rlog l) (ar_ConflictIndex rep) (ar_ConflictTerm rep))); lia.
  - left. destruct Hnext as [Hm Hn]. rewrite <- Hidf in Hm, Hn.
    assert (zlen (rlog l) <= zlen (rlog f')) as Hlen.
    { apply (f_equal length) in Htake. rewrite length_take in Htake. unfold zlen. lia. }
    split_and!; [by rewrite Hl'|done|]. rewrite (next_for_of l' f' _ Hs' Hn), Hl'.
    rewrite u64_id by (unfold is_u64; pose proof (zlen_nonneg (rlog f')); lia).
    rewrite (proj2 (Z.ltb_lt _ _)) by lia. done.
Qed.

(** ** Repeated exchanges *)

(** How many exchanges are left at most. *)
Definition left_to_go (l f : Node) : Z :=
  if decide (next_for l f = 0) then zlen (rlog l) + 2 else next_for l f.

Lemma next_for_range g l f : good g l → 0 <= next_for l f <= zlen (rlog l) + 1.
Proof. intros [_ _ Hs Hl Hr _]. by apply (offer_shape g l (nd_selfID f) Hl Hr Hs). Qed.

Lemma rounds_catch_up g k l f :
  pair_ok g l f → caught_up l f ∧ term f = term l ∨ left_to_go l f <= Z.of_nat k →
  ∃ l' f', rounds k l f = Some (l', f') ∧ pair_ok g l' f' ∧ rlog l' = rlog l ∧ term l' = term l ∧
    nd_selfID f' = nd_selfID f ∧ caught_up l' f' ∧ term f' = term l'.
Proof.
  revert l f. induction k as [|k IH]; intros l f Hok Hk; cbn [rounds].
  { exists l, f. destruct Hk as [[Hc Ht]|Hk]; [by split_and!|].
    exfalso. unfold left_to_go in Hk. pose proof (next_for_range g l f (po_leader _ _ _ Hok)).
    pose proof (zlen_nonneg (rlog l)). destruct (decide _); lia. }
  destruct (round_progress g l f Hok) as (l1 & f1 & -> & Hok1 & Hl1 & Ht1 & Hid1 & Htf1 & Hstep).
  cbn [mbind option_bind].
  destruct (IH l1 f1 Hok1) as (l2 & f2 & Hr & Hok2 & Hl2 & Ht2 & Hid2 & Hc2 & Htf2).
  { destruct Hstep as [Hc|(Hno & H1 & Hback)]; [left; split; [done|congruence]|right].
    destruct Hk as [[Hc _]|Hk]; [done|].
    pose proof (next_for_range g l1 f1 (po_leader _ _ _ Hok1)) as Hn. rewrite Hl1 in Hn.
    unfold left_to_go in *. rewrite decide_False by lia. destruct (decide (next_for l f = 0)); lia. }
  exists l2, f2. split_and!; try done; congruence.
Qed.

(** A reachable leader and another node are such a pair. *)
Lemma reachable_pair ids c idl idf l f :
  NoDup ids → (2 <= length ids)%nat → EmptyString ∉ ids → Forall (λ id, str_valid id = true) ids →
  steady_run (fresh_cluster ids) c → cl_nodes c !! idl = Some l → cl_nodes c !! idf = Some f →
  idl ≠ idf → nd_role l = Leader → term f <= term l → ∃ g, pair_ok g l f.
Proof.
  intros Hnd Hlen Hne Hval Hrun Hl Hf Hids Hrole Hterm.
  destruct (steady_log_inv ids c Hnd Hlen Hne Hval Hrun) as (Hci & g & Hi). exists g.
  assert (∀ id n, cl_nodes c !! id = Some n → id ∈ ids) as Hin.
  { intros id n Hn. apply (ci_dom _ _ Hci). by eexists. }
  assert (∀ id n, cl_nodes c !! id = Some n → good g n) as Hgood.
  { intros id n Hn. destruct (ci_config _ _ Hci _ _ Hn) as (Hid & _ & Hc).
    destruct (ci_state _ _ Hci _ _ Hn) as [Hst Ht]. destruct (li_nodes _ _ _ Hi _ _ Hn) as [Hlog Hr _ _ _].
    split; try done.
    - split; [done|]. rewrite Hid. eapply Forall_forall in Hval; [done|by eapply Hin].
    - rewrite Hid. intros ->. by apply Hne, (Hin _ _ Hn). }
  destruct (ci_config _ _ Hci _ _ Hl) as (_ & Hp & _). destruct (ci_config _ _ Hci _ _ Hf) as (Hidf & _ & _).
  split; [by eapply Hgood|by eapply Hgood|done|done| |].
  - rewrite Hp, Hidf. apply list_elem_of_filter. split; [congruence|by eapply Hin].
  - rewrite Hp. by apply NoDup_filter.
Qed.

(** ** Property *)

(** C6: a leader brings every node up to date. Take a leader and any other node
    of any cluster reached by a steady run (votes kept, logs short), whatever
    was lost before, the node's term being at most the leader's: a higher one
    makes the leader step down. While only the heartbeats of the leader to the
    node and its replies are delivered, then after two exchanges more than the
    leader's log has entries, and after any more, the node's log begins with the
    whole log of the leader, the leader still leads its term with the same log
    and its match index for the node is the length of the node's log. Going back
    over conflicting terms always makes progress, and no exchange panics. *)
Theorem leader_catches_up ids c idl idf l f k :
  NoDup ids → (2 <= length ids)%nat → EmptyString ∉ ids → Forall (λ id, str_valid id = true) ids →
  steady_run (fresh_cluster ids) c → cl_nodes c !! idl = Some l → cl_nodes c !! idf = Some f →
  idl ≠ idf → nd_role l = Leader → term f <= term l → (length (rlog l) + 2 <= k)%nat →
  ∃ l' f', rounds k l f = Some (l', f') ∧
    nd_role l' = Leader ∧ term l' = term l ∧ rlog l' = rlog l ∧
    term f' = term l ∧ take (length (rlog l)) (rlog f') = rlog l ∧
    nd_matchIndex l' !! nd_selfID f = Some (zlen (rlog f')).
Proof.
  intros Hnd Hlen Hne Hval Hrun Hl Hf Hids Hrole Hterm Hk.
  destruct (reachable_pair ids c idl idf l f Hnd Hlen Hne Hval Hrun Hl Hf Hids Hrole Hterm) as [g Hok].
  destruct (rounds_catch_up g k l f Hok) as (l' & f' & Hr & Hok' & Hl' & Ht' & Hid & (Htake & Hm & _) & Htf).
  { right. unfold left_to_go. pose proof (next_for_range g l f (po_leader _ _ _ Hok)).
    unfold zlen in *. destruct (decide _); lia. }
  exists l', f'. rewrite Hl' in Htake. rewrite Hid in Hm.
  split_and!; [done|apply Hok'|done|done|congruence|done|done].
Qed.

(** ** A concrete conflict

    [b] leads term 1 and keeps two entries of its own; [a] wins term 2 with the
    vote of [c] and proposes: the log of [b] is replaced by the leader's. *)

Definition conflicting : list act :=
  [ATimeout "b"; ADeliver 1; ADeliver 2; APropose "b" [Byte.x01]; APropose "b" [Byte.x03];
   ATimeout "a"; ATimeout "a"; ADeliver 12; ADeliver 13; APropose "a" [Byte.x02]].

Definition log_terms (n : Node) : Role * Z * list Z := (nd_role n, term n, le_Term <$> rlog n).

Lemma log_terms_eq n r t ts :
  log_terms n = (r, t, ts) → nd_role n = r ∧ term n = t ∧ le_Term <$> rlog n = ts.
Proof. intros H. by injection H as <- <- <-. Qed.

Lemma leader_catches_up_witness :
  ∃ c l f l' f', steady_run (fresh_cluster abc) c ∧
    cl_nodes c !! "a" = Some l ∧ cl_nodes c !! "b" = Some f ∧
    log_terms l = (Leader, 2, [2]) ∧ log_terms f = (Leader, 1, [1; 1]) ∧
    rounds 3 l f = Some (l', f') ∧ take 1 (rlog f') = rlog l.
Proof.
  assert ((λ c, (observe log_terms "a" c, observe log_terms "b" c)) <$>
    exec_steady (fresh_cluster abc) conflicting =
    Some (Some (Leader, 2, [2]), Some (Leader, 1, [1; 1]))) as (c & E & Ho)%fmap_Some
    by (vm_compute; reflexivity).
  symmetry in Ho. apply pair_equal_spec in Ho as [Hoa Hob]. unfold observe in Hob, Hoa.
  apply fmap_Some in Hoa as (l & Hl & Ha). apply fmap_Some in Hob as (f & Hf & Hb).
  symmetry in Ha, Hb. pose proof (exec_steady_run _ _ _ _ (steady_nil _) E) as Hr.
  destruct (log_terms_eq _ _ _ _ Ha) as (Hrole & Htl & Hll).
  destruct (log_terms_eq _ _ _ _ Hb) as (_ & Htf & _).
  assert (length (rlog l) = 1%nat) as Hlen.
  { rewrite <- (length_fmap le_Term), Hll. reflexivity. }
  destruct abc_ok as (H1 & H2 & H3 & H4).
  destruct (leader_catches_up abc c "a" "b" l f 3 H1 H2 H3 H4 Hr Hl Hf) as (l' & f' & Hrounds & _ & _ & _ & _ & Ht & _).
  - discriminate.
  - exact Hrole.
  - lia.
  - lia.
  - rewrite Hlen in Ht. exists c, l, f, l', f'. split_and!; assumption.
Defined.
