(* ===== verification/RaftStore.v ===== *)
(** * The Raft state file: [internal/cluster/raft/store.go]

    [Save] writes a temporary file, syncs it and renames it over the state
    file; [Load] reads the state file.  Every call may fail, and the machine
    may stop between any two of them. *)

From S2P Require Import Prelude GoLib Json RaftRpc Raft.

Local Open Scope Z_scope.

(** ** The JSON of the state *)

Definition PersistentState_fields (s : PersistentState) : list (bytes * json) :=
  put "CurrentTerm" (JNum (ps_CurrentTerm s)) ++
  put "VotedFor" (jstr (ps_VotedFor s)) ++
  put "Log" (jobjs LogEntry_fields (ps_Log s)) ++ [].

Definition PersistentState_of (l : list (bytes * json)) : option PersistentState :=
  match get_int 0 u64_max "CurrentTerm" l, get_str "VotedFor" l, get_objs LogEntry_of "Log" l with
  | Some t, Some v, Some es => Some (mkPersistentState t v es)
  | _, _, _ => None
  end.

Definition PersistentState_wf (s : PersistentState) : Prop :=
  is_u64_field (ps_CurrentTerm s) ∧ str_valid (ps_VotedFor s) = true ∧ Forall LogEntry_wf (ps_Log s).

Lemma PersistentState_json_roundtrip s :
  PersistentState_wf s →
  ∃ b, Some (print (JObj (PersistentState_fields s))) = Some b ∧ unmarshal_with PersistentState_of b = Some s.
Proof.
  intros (Ht & Hv & He). eexists. split; [reflexivity|]. rewrite unmarshal_with_print.
  - unfold PersistentState_of, PersistentState_fields, is_u64_field in *.
    rewrite (get_int_eq _ _ "CurrentTerm" _ (ps_CurrentTerm s) false) by jfield_solve.
    rewrite (get_str_eq "VotedFor" _ (ps_VotedFor s) false) by jfield_solve.
    rewrite (get_objs_eq LogEntry_of LogEntry_fields "Log" _ (ps_Log s)).
    2: by jfield_eval.
    2: { eapply Forall_impl; [exact He|]. apply LogEntry_of_fields. }
    by destruct s.
  - unfold PersistentState_fields. rewrite !members_valid_put. unfold str_valid in *.
    rewrite jobjs_valid by (by apply Forall_true; intros e; apply LogEntry_valid).
    cbn [json_valid jstr]. by rewrite Hv.
Qed.

#[global] Instance PersistentStateJson : JsonCodec PersistentState := {|
  json_Marshal := λ s, Some (print (JObj (PersistentState_fields s)));
  json_Unmarshal := unmarshal_with PersistentState_of;
  json_wf := PersistentState_wf;
  json_roundtrip := PersistentState_json_roundtrip;
|}.

(** ** The directory

    The state file, if there is one, and the temporary files by name with
    whether they are synced: what an unsynced file holds after a stop is
    unknown.  A rename is atomic and, as the source counts on, durable once it
    has returned; without that it may be lost in a stop. *)

Record tmp_file := mkTmp {
  tf_data : bytes;
  tf_synced : bool;
}.

Record raft_dir := mkDir {
  dir_state : option bytes;
  dir_tmp : gmap string tmp_file;
}.

(** ** Save *)

Inductive store_err :=
| CreateTempErr
| MarshalStateErr
| WriteTempErr
| SyncTempErr
| CloseTempErr
| RenameTempErr
| ReadStateErr
| UnmarshalStateErr.

(** The name [CreateTemp] gives and the outcomes of the calls; a failed write
    leaves the first [n] bytes. *)
Record SaveIO := mkSaveIO {
  sv_create : option string;
  sv_write : option nat;
  sv_sync : bool;
  sv_close : bool;
  sv_rename : bool;
  sv_remove : bool;
}.

Definition write_tmp (d : raft_dir) (name : string) (data : bytes) : raft_dir :=
  mkDir (dir_state d) (<[name := mkTmp data false]> (dir_tmp d)).

Definition sync_tmp (d : raft_dir) (name : string) : raft_dir :=
  mkDir (dir_state d) (alter (λ t, mkTmp (tf_data t) true) name (dir_tmp d)).

(** [os.Remove]; its error is ignored. *)
Definition remove_tmp (ok : bool) (d : raft_dir) (name : string) : raft_dir :=
  if ok then mkDir (dir_state d) (delete name (dir_tmp d)) else d.

Definition rename_tmp (d : raft_dir) (name : string) : raft_dir :=
  match dir_tmp d !! name with
  | Some t => mkDir (Some (tf_data t)) (delete name (dir_tmp d))
  | None => d
  end.

(** The directory after each call of [Save], the last one as it returns, and
    what it returns. *)
Definition Store_Save (io : SaveIO) (d : raft_dir) (state : PersistentState) : list raft_dir * result unit store_err :=
  match sv_create io with
  | None => ([d], Error CreateTempErr)
  | Some name =>
      let d1 := write_tmp d name [] in
      match json_Marshal state with
      | None => ([d1; remove_tmp (sv_remove io) d1 name], Error MarshalStateErr)
      | Some data =>
          match sv_write io with
          | Some n =>
              let d2 := write_tmp d1 name (take n data) in
              ([d1; d2; remove_tmp (sv_remove io) d2 name], Error WriteTempErr)
          | None =>
              let d2 := write_tmp d1 name data in
              if negb (sv_sync io) then ([d1; d2; remove_tmp (sv_remove io) d2 name], Error SyncTempErr)
              else
                let d3 := sync_tmp d2 name in
                if negb (sv_close io) then ([d1; d2; d3; remove_tmp (sv_remove io) d3 name], Error CloseTempErr)
                else if negb (sv_rename io) then ([d1; d2; d3; remove_tmp (sv_remove io) d3 name], Error RenameTempErr)
                else ([d1; d2; d3; rename_tmp d3 name], Ok tt)
          end
      end
  end.

(** ** Load

    [readable] is whether an existing state file can be read. *)
Definition Store_Load (readable : bool) (d : raft_dir) : result PersistentState store_err :=
  match dir_state d with
  | None => Ok zero_state
  | Some data =>
      if readable then
        match json_Unmarshal data with
        | Some state => Ok state
        | None => Error UnmarshalStateErr
        end
      else Error ReadStateErr
  end.

(** ** Stops and runs *)

(** A stop keeps the state file and the synced files; of an unsynced file it
    keeps anything or nothing. *)
Definition stopped (d d' : raft_dir) : Prop :=
  dir_state d' = dir_state d ∧
  ∀ name t, dir_tmp d !! name = Some t → tf_synced t = true → dir_tmp d' !! name = Some t.

(** A save that returns, or one cut short after some of its calls. *)
Inductive store_event :=
| SaveReturned (state : PersistentState) (r : result unit store_err)
| SaveStopped (state : PersistentState).

(** The directory a save leaves that makes its first [k] calls. *)
Definition after_calls (d : raft_dir) (steps : list raft_dir) (k : nat) : raft_dir := default d (last (take k steps)).

Inductive store_step (d : raft_dir) : store_event → raft_dir → Prop :=
| store_returned io state :
    store_step d (SaveReturned state (Store_Save io d state).2) (default d (last (Store_Save io d state).1))
| store_stopped io state k d' :
    stopped (after_calls d (Store_Save io d state).1 k) d' →
    store_step d (SaveStopped state) d'.

Inductive store_run (d0 : raft_dir) : list store_event → raft_dir → Prop :=
| store_run_nil : store_run d0 [] d0
| store_run_snoc evs d ev d' : store_run d0 evs d → store_step d ev d' → store_run d0 (evs ++ [ev]) d'.

(** What the interface promises: a register that a save replaces or leaves. *)
Inductive register_step (s : PersistentState) : store_event → PersistentState → Prop :=
| reg_saved state : register_step s (SaveReturned state (Ok tt)) state
| reg_failed state e : register_step s (SaveReturned state (Error e)) s
| reg_stopped_old state : register_step s (SaveStopped state) s
| reg_stopped_new state : register_step s (SaveStopped state) state.

Inductive register_run (s0 : PersistentState) : list store_event → PersistentState → Prop :=
| register_run_nil : register_run s0 [] s0
| register_run_snoc evs s ev s' : register_run s0 evs s → register_step s ev s' → register_run s0 (evs ++ [ev]) s'.

Definition event_state (ev : store_event) : PersistentState :=
  match ev with
  | SaveReturned state _ => state
  | SaveStopped state => state
  end.

(** ** Facts *)

Definition dir_holds (d : raft_dir) (s : PersistentState) : Prop := Store_Load true d = Ok s.

Lemma dir_holds_state d d' s : dir_state d' = dir_state d → dir_holds d s → dir_holds d' s.
Proof. unfold dir_holds, Store_Load. by intros ->. Qed.

(** After any number of its calls a save has replaced the state file by the
    new state's, or left it. *)
Lemma Save_steps io d state dd :
  dd ∈ (Store_Save io d state).1 →
  dir_state dd = dir_state d ∨ (Store_Save io d state).2 = Ok tt ∧ dir_state dd = json_Marshal state.
Proof.
  unfold Store_Save. destruct (sv_create io) as [name|]; [|intros ->%list_elem_of_singleton; by left].
  assert (∀ ok x n, dir_state (remove_tmp ok x n) = dir_state x) as Hrm by (by intros []).
  destruct (json_Marshal state) as [data|].
  2: { cbn [fst]. rewrite !elem_of_cons, elem_of_nil. intros [->|[->|[]]]; left; by rewrite ?Hrm. }
  destruct (sv_write io).
  { cbn [fst]. rewrite !elem_of_cons, elem_of_nil. intros [->|[->|[->|[]]]]; left; by rewrite ?Hrm. }
  destruct (sv_sync io); cbn [negb].
  2: { cbn [fst]. rewrite !elem_of_cons, elem_of_nil. intros [->|[->|[->|[]]]]; left; by rewrite ?Hrm. }
  destruct (sv_close io); cbn [negb].
  2: { cbn [fst]. rewrite !elem_of_cons, elem_of_nil. intros [->|[->|[->|[->|[]]]]]; left; by rewrite ?Hrm. }
  destruct (sv_rename io); cbn [negb fst snd]; rewrite !elem_of_cons, elem_of_nil;
    intros [->|[->|[->|[->|[]]]]]; try (left; by rewrite ?Hrm).
  right. split; [done|]. unfold rename_tmp, sync_tmp, write_tmp. cbn [dir_tmp dir_state].
  by rewrite lookup_alter_eq, lookup_insert_eq.
Qed.

Lemma holds_marshal d state : PersistentState_wf state → dir_state d = json_Marshal state → dir_holds d state.
Proof.
  intros Hwf Hd. assert (json_wf state) as Hj by exact Hwf. destruct (json_roundtrip state Hj) as (b & Hb & Hu).
  rewrite Hb in Hd. unfold dir_holds, Store_Load. by rewrite Hd, Hu.
Qed.

(** A save that returns leaves what its result says. *)
Lemma Save_final io d state :
  dir_state (default d (last (Store_Save io d state).1)) =
    if (Store_Save io d state).2 is Ok _ then json_Marshal state else dir_state d.
Proof.
  unfold Store_Save. destruct (sv_create io) as [name|]; [|done].
  destruct (json_Marshal state) as [data|]; [|by destruct (sv_remove io)].
  destruct (sv_write io); [by destruct (sv_remove io)|].
  destruct (sv_sync io); cbn [negb]; [|by destruct (sv_remove io)].
  destruct (sv_close io); cbn [negb]; [|by destruct (sv_remove io)].
  destruct (sv_rename io); cbn [negb]; [|by destruct (sv_remove io)]. cbn [fst snd last default from_option id].
  unfold rename_tmp, sync_tmp, write_tmp. cbn [dir_tmp dir_state]. by rewrite lookup_alter_eq, lookup_insert_eq.
Qed.

Lemma store_step_register d ev d' s :
  dir_holds d s → PersistentState_wf (event_state ev) → store_step d ev d' →
  ∃ s', register_step s ev s' ∧ dir_holds d' s'.
Proof.
  intros Hs Hwf Hstep. destruct Hstep as [io state|io state k d' [Hd' _]]; cbn [event_state] in Hwf.
  - pose proof (Save_final io d state) as Hf. destruct (Store_Save io d state).2 as [[]|e].
    + exists state. split; [constructor|]. by apply holds_marshal.
    + exists s. split; [constructor|]. by eapply dir_holds_state.
  - unfold after_calls in Hd'. destruct (last (take k (Store_Save io d state).1)) as [dd|] eqn:Hlast.
    + assert (dd ∈ (Store_Save io d state).1) as Hin.
      { apply last_Some in Hlast as [l Hl]. assert (dd ∈ take k (Store_Save io d state).1) as Hin.
        { rewrite Hl. apply elem_of_app. right. by left. }
        by apply elem_of_take in Hin as (i & Hi & _); apply list_elem_of_lookup_2 in Hi. }
      destruct (Save_steps io d state dd Hin) as [Hsame|[_ Hnew]].
      * exists s. split; [constructor|]. eapply dir_holds_state; [|exact Hs]. by rewrite Hd'.
      * exists state. split; [apply reg_stopped_new|]. apply holds_marshal; [done|]. by rewrite Hd'.
    + exists s. split; [constructor|]. by eapply dir_holds_state.
Qed.


Definition demo_save : SaveIO := mkSaveIO (Some "t1") None true true true true.
Definition voted_a : PersistentState := mkPersistentState 1 "a" [].
Definition empty_dir : raft_dir := mkDir None ∅.

