(* ===== verification/RaftLoop.v ===== *)
(** * The event loop of a Raft node and those who propose: [run], [OnMessage] and [Propose] of [internal/cluster/raft/node.go]

    The handlers are in [Raft].  Here they run under the loop with its election
    timer and its channel of messages, next to callers of [Propose], whose
    locked sections and wait are separate steps.  A caller waits on a channel of
    capacity one that the map [proposals] holds under the index of its entry;
    [nd_proposals] of [Raft] is the domain of that map. *)

From S2P Require Import Prelude GoLib Json RaftRpc Raft.

Local Open Scope Z_scope.

(** ** Timers, in milliseconds *)

(** [rand.Intn] panics unless its argument is positive. *)
Definition randomElectionTimeout (electionTimeoutMin electionTimeoutMax rnd : Z) : option Z :=
  let minMs := if 0 <? electionTimeoutMin then electionTimeoutMin else 150 in
  let maxMs := if 0 <? electionTimeoutMax then electionTimeoutMax else 301 in
  if maxMs - minMs <=? 0 then None else Some (minMs + rnd mod (maxMs - minMs)).

Definition heartbeatInterval (heartbeatIntervalMs : Z) : Z :=
  if 0 <? heartbeatIntervalMs then heartbeatIntervalMs else 50.

Lemma timeout_bounds lo hi rnd ms :
  randomElectionTimeout lo hi rnd = Some ms →
  (if 0 <? lo then lo else 150) <= ms < (if 0 <? hi then hi else 301).
Proof.
  unfold randomElectionTimeout. cbv zeta.
  generalize (if 0 <? lo then lo else 150) (if 0 <? hi then hi else 301). intros a b.
  destruct (Z.leb_spec (b - a) 0); intros; simplify_eq.
  pose proof (Z.mod_pos_bound rnd (b - a)). lia.
Qed.

(** A minimum above the default maximum, set alone, makes the loop panic. *)
Example minimum_alone_panics rnd : randomElectionTimeout 400 0 rnd = None.
Proof. reflexivity. Qed.

(** ** State *)

Inductive chan_state :=
| ChanOpen
| ChanSignalled
| ChanClosed.

(** Where a caller of [Propose] stands. *)
Inductive propose_stage :=
| ProposeSend
| ProposeAdvance
| ProposeWait
| ProposeDone (r : result Z propose_err).

Record Caller := mkCaller {
  ca_index : Z;
  ca_cmd : bytes;
  ca_chan : chan_state;
  ca_stage : propose_stage;
}.

(** The loop is at its [select], past a step-down but before it has closed the
    channels, or has returned. *)
Inductive run_stage :=
| RunSelect
| RunClosing
| RunReturned.

(** [rl_proposals] is the map [proposals], from an index to the caller whose
    channel it holds; [rl_timer] is when the election timer fires. *)
Record RaftLoop := mkRaftLoop {
  rl_node : Node;
  rl_proposals : gmap Z nat;
  rl_callers : gmap nat Caller;
  rl_inCh : list RaftMessage;
  rl_timer : Z;
  rl_stage : run_stage;
  rl_stopped : bool;
}.

Definition with_node (l : RaftLoop) (n : Node) : RaftLoop :=
  mkRaftLoop n (rl_proposals l) (rl_callers l) (rl_inCh l) (rl_timer l) (rl_stage l) (rl_stopped l).

Definition with_callers (l : RaftLoop) (ps : gmap Z nat) (cs : gmap nat Caller) : RaftLoop :=
  mkRaftLoop (rl_node l) ps cs (rl_inCh l) (rl_timer l) (rl_stage l) (rl_stopped l).

Definition with_timer (l : RaftLoop) (q : list RaftMessage) (timer : Z) : RaftLoop :=
  mkRaftLoop (rl_node l) (rl_proposals l) (rl_callers l) q timer (rl_stage l) (rl_stopped l).

Definition with_stage (l : RaftLoop) (st : run_stage) : RaftLoop :=
  mkRaftLoop (rl_node l) (rl_proposals l) (rl_callers l) (rl_inCh l) (rl_timer l) st (rl_stopped l).

Definition set_chan (st : chan_state) (c : Caller) : Caller := mkCaller (ca_index c) (ca_cmd c) st (ca_stage c).

Definition at_stage (st : propose_stage) (c : Caller) : Caller := mkCaller (ca_index c) (ca_cmd c) (ca_chan c) st.

(** ** Steps *)

(** The signal to the waiter of index [idx], if there is one. *)
Definition signal (l : RaftLoop) (idx : Z) : RaftLoop :=
  match rl_proposals l !! idx with
  | Some i => with_callers l (delete idx (rl_proposals l)) (alter (set_chan ChanSignalled) i (rl_callers l))
  | None => l
  end.

(** The node becomes [n]; the waiters it woke on the way are signalled. *)
Definition settle (l : RaftLoop) (n : Node) : RaftLoop :=
  foldl signal (with_node l n) (drop (length (nd_acked (rl_node l))) (nd_acked n)).

(** [for idx, ch := range n.proposals { close(ch); delete(n.proposals, idx) }]. *)
Definition close_proposals (l : RaftLoop) : RaftLoop :=
  with_callers (with_node l (set_proposals (rl_node l) ∅)) ∅
    (map_fold (λ _ i cs, alter (set_chan ChanClosed) i cs) (rl_callers l) (rl_proposals l)).

(** The first locked section of [Propose].  A slice has fewer than 2^63
    elements: [append] panics. *)
Definition propose_append (l : RaftLoop) (i : nat) (cmd : bytes) : option RaftLoop :=
  let n := rl_node l in
  if negb (bool_decide (nd_role n = Leader)) then
    Some (with_callers l (rl_proposals l)
            (<[i := mkCaller 0 cmd ChanClosed (ProposeDone (Error ErrNotLeader))]> (rl_callers l)))
  else if 2 ^ 63 - 1 <=? zlen (rlog n) then None
  else
    let index := u64 (zlen (rlog n) + 1) in
    let n := persistLocked (set_log n (rlog n ++ [mkLogEntry (term n) index cmd])) in
    let n := set_proposals n ({[index]} ∪ nd_proposals n) in
    Some (with_callers (with_node l n) (<[index := i]> (rl_proposals l))
            (<[i := mkCaller index cmd ChanOpen ProposeSend]> (rl_callers l))).

(** Which case of the last [select] of [Propose] is taken. *)
Inductive wake_case :=
| WakeChan
| WakeCtx
| WakeStop.

Definition propose_wake (stopped : bool) (w : wake_case) (c : Caller) : Caller :=
  match w with
  | WakeChan =>
      match ca_chan c with
      | ChanSignalled => at_stage (ProposeDone (Ok (ca_index c))) c
      | ChanClosed => at_stage (ProposeDone (Error ErrNotLeader)) c
      | ChanOpen => c
      end
  | WakeCtx => at_stage (ProposeDone (Error ErrCtx)) c
  | WakeStop => if stopped then at_stage (ProposeDone (Error ErrStopped)) c else c
  end.

Inductive loop_event :=
| LoopOnMessage (msg : RaftMessage) (drop : bool)
| LoopElection (now rnd : Z)
| LoopMessage (now rnd : Z)
| LoopClose
| LoopHeartbeat
| LoopReturn (ctx_done : bool)
| LoopStop
| CallPropose (i : nat) (cmd : bytes)
| CallSend (i : nat)
| CallAdvance (i : nat)
| CallWake (i : nat) (w : wake_case).

Section Run.
(** The overrides of the election timeout. *)
Context (tmin tmax : Z).

(** [drainTimer] and [Reset]: a tick that is due is lost. *)
Definition reset_timer (now rnd : Z) (l : RaftLoop) : option RaftLoop :=
  d ← randomElectionTimeout tmin tmax rnd; Some (with_timer l (rl_inCh l) (now + d)).

(** The case of [run] that takes a message. *)
Definition run_receive (now rnd : Z) (l : RaftLoop) (msg : RaftMessage) (q : list RaftMessage) :
    option (RaftLoop * list (string * RaftMessage)) :=
  let wasLeader := Node_IsLeader (rl_node l) in
  '(n, out, reset) ← dispatchMsg (rl_node l) msg;
  let l := settle (with_timer l q (rl_timer l)) n in
  l ← (if (reset : bool) then reset_timer now rnd l else Some l);
  Some (if wasLeader && negb (Node_IsLeader n) then with_stage l RunClosing else l, out).

(** A step that is not enabled leaves the state. *)
Definition loop_step (l : RaftLoop) (e : loop_event) : option (RaftLoop * list (string * RaftMessage)) :=
  match e with
  | LoopOnMessage msg drop =>
      if drop && rl_stopped l then Some (l, [])
      else if (length (rl_inCh l) <? 1024)%nat then Some (with_timer l (rl_inCh l ++ [msg]) (rl_timer l), [])
      else Some (l, [])
  | LoopElection now rnd =>
      match rl_stage l with
      | RunSelect =>
          if rl_timer l <=? now then
            let '(n, out) := handleElectionTimeout (rl_node l) in
            l ← reset_timer now rnd (with_node l n); Some (l, out)
          else Some (l, [])
      | _ => Some (l, [])
      end
  | LoopMessage now rnd =>
      match rl_stage l, rl_inCh l with
      | RunSelect, msg :: q => run_receive now rnd l msg q
      | _, _ => Some (l, [])
      end
  | LoopClose =>
      match rl_stage l with
      | RunClosing => Some (with_stage (close_proposals l) RunSelect, [])
      | _ => Some (l, [])
      end
  | LoopHeartbeat =>
      match rl_stage l with
      | RunSelect =>
          if Node_IsLeader (rl_node l) then
            let '(n, out) := sendAppendEntriesToAll (rl_node l) in Some (with_node l n, out)
          else Some (l, [])
      | _ => Some (l, [])
      end
  | LoopReturn ctx_done =>
      match rl_stage l with
      | RunSelect => Some (if ctx_done || rl_stopped l then with_stage l RunReturned else l, [])
      | _ => Some (l, [])
      end
  | LoopStop =>
      Some (mkRaftLoop (rl_node l) (rl_proposals l) (rl_callers l) (rl_inCh l) (rl_timer l) (rl_stage l) true, [])
  | CallPropose i cmd =>
      match rl_callers l !! i with
      | Some _ => Some (l, [])
      | None => l ← propose_append l i cmd; Some (l, [])
      end
  | CallSend i =>
      match rl_callers l !! i with
      | Some (mkCaller idx cmd ch ProposeSend) =>
          let '(n, out) := sendAppendEntriesToAll (rl_node l) in
          Some (with_callers (with_node l n) (rl_proposals l)
                  (<[i := mkCaller idx cmd ch ProposeAdvance]> (rl_callers l)), out)
      | _ => Some (l, [])
      end
  | CallAdvance i =>
      match rl_callers l !! i with
      | Some (mkCaller _ _ _ ProposeAdvance) =>
          n ← advanceCommitIndexLocked (rl_node l);
          let l := settle l n in
          Some (with_callers l (rl_proposals l) (alter (at_stage ProposeWait) i (rl_callers l)), [])
      | _ => Some (l, [])
      end
  | CallWake i w =>
      match rl_callers l !! i with
      | Some (mkCaller idx cmd ch ProposeWait) =>
          Some (with_callers l (rl_proposals l)
                  (<[i := propose_wake (rl_stopped l) w (mkCaller idx cmd ch ProposeWait)]> (rl_callers l)), [])
      | _ => Some (l, [])
      end
  end.

(** A run from the return of [Start]; [None] when the process panics. *)
Definition loop_run (l : RaftLoop) (es : list loop_event) : option RaftLoop :=
  foldl (λ l e, l ← l; fst <$> loop_step l e) (Some l) es.

End Run.

Definition started (n : Node) (timer : Z) : RaftLoop := mkRaftLoop n ∅ ∅ [] timer RunSelect false.

(** ** What a handler does to the waiters *)

(** The waiters woken were waiting, for an index applied by now; the others
    still wait; nothing is unapplied. *)
Definition moves (n n' : Node) : Prop :=
  nd_lastApplied n <= nd_lastApplied n' ∧
  ∃ woken, nd_acked n' = nd_acked n ++ woken ∧ nd_proposals n' = nd_proposals n ∖ list_to_set woken ∧
    Forall (λ idx, idx ∈ nd_proposals n ∧ idx <= nd_lastApplied n') woken.

Lemma moves_same n n' :
  nd_lastApplied n' = nd_lastApplied n → nd_acked n' = nd_acked n → nd_proposals n' = nd_proposals n → moves n n'.
Proof. intros H1 H2 H3. split; [lia|]. exists []. rewrite H2, H3, app_nil_r. set_solver. Qed.

#[export] Instance moves_preorder : PreOrder moves.
Proof.
  split; [intros n; by apply moves_same|].
  intros n1 n2 n3 (L1 & w1 & A1 & P1 & F1) (L2 & w2 & A2 & P2 & F2). split; [lia|].
  exists (w1 ++ w2). split_and!.
  - by rewrite A2, A1, app_assoc.
  - rewrite P2, P1. set_solver.
  - apply Forall_app. split; [eapply Forall_impl; [exact F1|]|eapply Forall_impl; [exact F2|]]; cbn beta.
    + intros x [? ?]. split; [done|lia].
    + intros x [Hx ?]. rewrite P1 in Hx. set_solver.
Qed.

Lemma applied_one_moves n idx cmd : nd_lastApplied n <= idx → moves n (applied_one n idx cmd).
Proof.
  intros Hi. split; [done|]. destruct (decide (idx ∈ nd_proposals n)) as [Hin|Hni].
  - exists [idx]. cbn [applied_one nd_acked nd_proposals nd_lastApplied]. rewrite bool_decide_eq_true_2 by done.
    split_and!; [done|set_solver|]. by repeat constructor.
  - exists []. cbn [applied_one nd_acked nd_proposals nd_lastApplied]. rewrite bool_decide_eq_false_2 by done.
    split_and!; [by rewrite app_nil_r|set_solver|constructor].
Qed.

(** Applying changes neither role nor log. *)
Definition stays (n n' : Node) : Prop := nd_role n' = nd_role n ∧ rlog n' = rlog n.

Lemma apply_loop_moves k n n' : apply_loop k n = Some n' → moves n n' ∧ stays n n'.
Proof.
  revert n. induction k as [|k IH]; intros n H; cbn in H; [by simplify_eq|].
  destruct (rlog n !! _) as [e|]; [|done]. destruct (IH _ H) as [Hm [Hr Hl]]. split; [|done].
  etransitivity; [|exact Hm]. apply applied_one_moves. lia.
Qed.

Lemma commit_moves n c n' : applyCommittedLocked (set_commit n c) = Some n' → moves n n' ∧ stays n n'.
Proof.
  intros H. apply apply_loop_moves in H as [Hm Hs]. split; [|done].
  etransitivity; [|exact Hm]. by apply moves_same.
Qed.

Lemma advance_moves n n' : advanceCommitIndexLocked n = Some n' → moves n n' ∧ stays n n'.
Proof.
  unfold advanceCommitIndexLocked. case_bool_decide; [|by intros [= ->]].
  induction (length (rlog n)) as [|i IH]; cbn; [by intros [= ->]|].
  destruct (_ <? _); [|by intros [= ->]]. destruct (rlog n !! i) as [e|]; [|done].
  destruct (negb _); [done|]. destruct (_ <=? _); [apply commit_moves|done].
Qed.

(** What most of a handler does: nothing to waiters, commitment and log. *)
Definition keeps (n n' : Node) : Prop :=
  nd_lastApplied n' = nd_lastApplied n ∧ nd_acked n' = nd_acked n ∧ nd_proposals n' = nd_proposals n ∧ rlog n' = rlog n.

#[export] Instance keeps_preorder : PreOrder keeps.
Proof.
  split; [done|]. intros n1 n2 n3 (A1 & A2 & A3 & A4) (B1 & B2 & B3 & B4). unfold keeps. split_and!; congruence.
Qed.

Lemma keeps_moves n n' : keeps n n' → moves n n'.
Proof. intros (? & ? & ? & _). by apply moves_same. Qed.

Lemma persist_keeps n : keeps n (persistLocked n) ∧ nd_role (persistLocked n) = nd_role n.
Proof. unfold persistLocked. by destruct (nd_saves n). Qed.

Lemma adopt_keeps n t id known : keeps n (adopt_term n t id known) ∧ nd_role (adopt_term n t id known) = Follower.
Proof.
  unfold adopt_term. destruct (persist_keeps (set_role (set_term n t "") Follower id known)) as [Hk ->].
  split; [|done]. etransitivity; [|exact Hk]. done.
Qed.

Lemma append_to_keeps n ps out n' out' :
  append_to n ps out = (n', out') → keeps n n' ∧ nd_role n' = nd_role n.
Proof.
  revert n out. induction ps as [|p ps IH]; intros n out H; cbn [append_to] in H; [by simplify_eq|].
  destruct (append_args n p) as [args nextIdx]. destruct (_ <? _) in H; by apply IH in H.
Qed.

Lemma send_keeps n n' out :
  sendAppendEntriesToAll n = (n', out) → keeps n n' ∧ nd_role n' = nd_role n.
Proof. unfold sendAppendEntriesToAll. case_bool_decide; [apply append_to_keeps|by intros [= <- <-]]. Qed.

Lemma timeout_keeps n n' out : handleElectionTimeout n = (n', out) → keeps n n'.
Proof.
  unfold handleElectionTimeout. case_bool_decide; [by intros [= <- <-]|]. cbv zeta.
  match goal with |- context [persistLocked ?x] =>
    destruct (persist_keeps x) as [Hk _]; revert Hk; generalize (persistLocked x) end.
  intros m Hk. destruct (nd_peers m); intros [= <- <-]; (etransitivity; [|exact Hk || (etransitivity; [exact Hk|done])]); done.
Qed.

Lemma request_vote_keeps n msg n' out r : handleRequestVote n msg = (n', out, r) → keeps n n'.
Proof.
  unfold handleRequestVote. destruct (decodeJSON _) as [args|]; [|by intros [= <- <- <-]]. cbv zeta.
  assert (∃ m, (if term n <? rv_Term args then adopt_term n (rv_Term args) "" false else n) = m ∧ keeps n m) as (m & -> & Hk).
  { eexists; split; [reflexivity|]. destruct (_ <? _); [apply adopt_keeps|done]. }
  destruct (lastLogIndexAndTermLocked m) as [lastIdx lastTerm].
  assert (keeps m (persistLocked (set_term m (term m) (rv_CandidateID args)))) as Hp.
  { etransitivity; [|apply persist_keeps]. done. }
  repeat case_match; intros; simplify_eq; first [done|by etransitivity].
Qed.

Lemma vote_response_keeps n msg n' out r : handleVoteResponse n msg = (n', out, r) → keeps n n'.
Proof.
  unfold handleVoteResponse. destruct (decodeJSON _) as [reply|]; [|by intros [= <- <- <-]].
  destruct (_ <? _); [intros [= <- <- <-]; apply adopt_keeps|]. destruct (_ || _); [by intros [= <- <- <-]|].
  destruct (vr_VoteGranted reply); [|by intros [= <- <- <-]]. cbv zeta. destruct (_ <=? _); [|by intros [= <- <- <-]].
  destruct (sendAppendEntriesToAll _) as [m o] eqn:E. intros [= <- <- <-].
  apply send_keeps in E as [E _]. etransitivity; [|exact E]. done.
Qed.

(** A handler that leaves the node the leader leaves its log. *)
Definition handled (n n' : Node) : Prop := moves n n' ∧ (nd_role n' = Leader → rlog n' = rlog n).

Lemma keeps_handled n n' : keeps n n' → handled n n'.
Proof. intros Hk. split; [by apply keeps_moves|]. by destruct Hk as (_ & _ & _ & ?). Qed.

Lemma append_entries_handled n msg n' out r : handleAppendEntries n msg = Some (n', out, r) → handled n n'.
Proof.
  unfold handleAppendEntries. destruct (decodeJSON _) as [args|]; [|by intros [= <- <- <-]; apply keeps_handled]. cbv zeta.
  assert (∃ m, (if term n <? ae_Term args then adopt_term n (ae_Term args) (ae_LeaderID args) true else n) = m ∧ keeps n m)
    as (m & -> & Hk).
  { eexists; split; [reflexivity|]. destruct (_ <? _); [apply adopt_keeps|done]. }
  destruct (_ <? _); [intros [= <- <- <-]; by apply keeps_handled|].
  destruct (adopt_keeps m (ae_Term args) (ae_LeaderID args) true) as [Hk' Hr].
  revert Hk' Hr. generalize (adopt_term m (ae_Term args) (ae_LeaderID args) true). intros a Ha Hra.
  assert (∃ b x, appendEntriesFromLeader a (ae_PrevLogIndex args) (ae_PrevLogTerm args) (ae_Entries args) = (b, x) ∧
    moves a b ∧ nd_role b = Follower) as (b & [[success ci] ct] & -> & Hab & Hrb).
  { destruct (appendEntriesFromLeader _ _ _ _) as [b x] eqn:E. exists b, x. split; [done|]. revert E.
    unfold appendEntriesFromLeader. cbv zeta.
    match goal with |- context [persistLocked ?y] => destruct (persist_keeps y) as [Hp Hq]; revert Hp Hq; generalize (persistLocked y) end.
    intros c Hp Hq. assert (moves a c) by (apply keeps_moves in Hp; etransitivity; [|exact Hp]; by apply moves_same).
    assert (nd_role c = Follower) by (rewrite Hq; exact Hra). repeat case_match; intros; simplify_eq; done. }
  assert (moves n b) as Hnb.
  { etransitivity; [apply keeps_moves, Hk|]. etransitivity; [apply keeps_moves, Ha|done]. }
  destruct (success && _).
  - destruct (applyCommittedLocked _) as [c|] eqn:E; [|done]. intros [= <- <- <-]. apply commit_moves in E as [Hm [Hr _]].
    split; [by etransitivity|]. rewrite Hr. cbn. by rewrite Hrb.
  - intros [= <- <- <-]. split; [done|]. by rewrite Hrb.
Qed.

Lemma append_response_handled n msg n' r : handleAppendResponse n msg = Some (n', r) → handled n n'.
Proof.
  unfold handleAppendResponse. destruct (decodeJSON _) as [reply|]; [|by intros [= <- <-]; apply keeps_handled].
  destruct (_ <? _); [intros [= <- <-]; apply keeps_handled, adopt_keeps|].
  destruct (negb _); [by intros [= <- <-]; apply keeps_handled|]. destruct (ar_Success reply).
  - cbv zeta. destruct (advanceCommitIndexLocked _) as [m|] eqn:E; [|done]. intros [= <- <-].
    apply advance_moves in E as [Hm [_ Hl]]. split; [|done]. etransitivity; [|exact Hm]. by apply moves_same.
  - intros [= <- <-]. by apply keeps_handled.
Qed.

Lemma dispatch_handled n msg n' out r : dispatchMsg n msg = Some (n', out, r) → handled n n'.
Proof.
  unfold dispatchMsg. repeat case_match; intros; simplify_eq.
  - destruct (handleRequestVote n msg) as [[m o] q] eqn:E. simplify_eq. by eapply keeps_handled, request_vote_keeps.
  - destruct (handleVoteResponse n msg) as [[m o] q] eqn:E. simplify_eq. by eapply keeps_handled, vote_response_keeps.
  - by eapply append_entries_handled.
  - destruct (handleAppendResponse n msg) as [[m q]|] eqn:E; [|done]. cbn in *. simplify_eq. by eapply append_response_handled.
  - by apply keeps_handled.
Qed.

(** ** Nobody who waits is forgotten *)

(** The map and the callers agree: it holds the open channels, under the
    indices of their entries. *)
Record channels (waiting : gset Z) (applied : Z) (l : RaftLoop) : Prop := {
  ch_dom : dom (rl_proposals l) = waiting;
  ch_wait : ∀ idx i, rl_proposals l !! idx = Some i →
    ∃ c, rl_callers l !! i = Some c ∧ ca_index c = idx ∧ ca_chan c = ChanOpen;
  ch_open : ∀ i c, rl_callers l !! i = Some c → ca_chan c = ChanOpen → rl_proposals l !! ca_index c = Some i;
  ch_signal : ∀ i c, rl_callers l !! i = Some c → ca_chan c = ChanSignalled → ca_index c <= applied;
  ch_done : ∀ i c k, rl_callers l !! i = Some c → ca_stage c = ProposeDone (Ok k) →
    k = ca_index c ∧ ca_chan c = ChanSignalled;
}.

Lemma signal_channels waiting applied l idx :
  channels waiting applied l → idx <= applied → channels (waiting ∖ {[idx]}) applied (signal l idx).
Proof.
  intros [Hd Hw Ho Hs Hf] Hi. unfold signal. destruct (rl_proposals l !! idx) as [j|] eqn:E.
  2: { split; try done. rewrite Hd. apply not_elem_of_dom in E. rewrite Hd in E. set_solver. }
  destruct (Hw _ _ E) as (cj & Hj & Hidx & Hopen).
  split; cbn [with_callers rl_proposals rl_callers].
  - by rewrite dom_delete_L, Hd.
  - intros k i [Hne Hk]%lookup_delete_Some. destruct (Hw _ _ Hk) as (c & Hc & <- & Hco). exists c.
    rewrite lookup_alter_ne; [done|]. intros ->. apply Hne. congruence.
  - intros i c Hc Hco. destruct (decide (j = i)) as [->|Hne].
    + rewrite lookup_alter_eq, Hj in Hc. cbn in Hc. by simplify_eq.
    + rewrite lookup_alter_ne in Hc by done. apply lookup_delete_Some. split; [|by apply Ho].
      intros ->. apply Hne. pose proof (Ho _ _ Hc Hco). congruence.
  - intros i c Hc. destruct (decide (j = i)) as [->|Hne].
    + rewrite lookup_alter_eq, Hj in Hc. cbn in Hc. simplify_eq. by cbn.
    + rewrite lookup_alter_ne in Hc by done. by apply (Hs i c).
  - intros i c k Hc. destruct (decide (j = i)) as [->|Hne].
    + rewrite lookup_alter_eq, Hj in Hc. cbn in Hc. simplify_eq. cbn. intros Hk. by destruct (Hf _ _ _ Hj Hk).
    + rewrite lookup_alter_ne in Hc by done. by apply (Hf i c k).
Qed.

(** Signalling leaves who calls for what. *)
Definition call_of (c : Caller) : Z * bytes * propose_stage := (ca_index c, ca_cmd c, ca_stage c).

Definition same_calls (l l' : RaftLoop) : Prop :=
  rl_proposals l' ⊆ rl_proposals l ∧ call_of <$> rl_callers l' = call_of <$> rl_callers l ∧
  rl_node l' = rl_node l ∧ rl_stage l' = rl_stage l ∧ rl_stopped l' = rl_stopped l ∧ rl_inCh l' = rl_inCh l ∧
  rl_timer l' = rl_timer l.

Lemma signal_calls l idx : same_calls l (signal l idx).
Proof.
  unfold signal, same_calls. destruct (_ !! _); [|done]. cbn. split_and!; try done; [apply delete_subseteq|].
  apply map_eq. intros i. rewrite !lookup_fmap. destruct (decide (n = i)) as [->|Hne].
  - rewrite lookup_alter_eq. by destruct (rl_callers l !! i).
  - by rewrite lookup_alter_ne.
Qed.

Lemma signals_calls ws l : same_calls l (foldl signal l ws).
Proof.
  revert l. induction ws as [|w ws IH]; intros l; [done|]. cbn.
  destruct (signal_calls l w) as (A1 & A2 & A3 & A4 & A5 & A6 & A7).
  destruct (IH (signal l w)) as (B1 & B2 & B3 & B4 & B5 & B6 & B7). unfold same_calls.
  split_and!; [by etransitivity|congruence..].
Qed.

Lemma signals_channels ws waiting applied l :
  channels waiting applied l → Forall (λ idx, idx <= applied) ws →
  channels (waiting ∖ list_to_set ws) applied (foldl signal l ws).
Proof.
  revert waiting l. induction ws as [|w ws IH]; intros waiting l Hc Hf; cbn.
  - by rewrite difference_empty_L.
  - apply Forall_cons in Hf as [Hw Hf]. rewrite difference_union_distr_r_L.
    replace (waiting ∖ {[w]} ∩ (waiting ∖ list_to_set ws)) with ((waiting ∖ {[w]}) ∖ list_to_set ws) by set_solver.
    apply IH; [by apply signal_channels|done].
Qed.

(** A leader has the entry of everyone who waits. *)
Definition entries_held (l : RaftLoop) : Prop :=
  nd_role (rl_node l) = Leader → ∀ idx i c, rl_proposals l !! idx = Some i → rl_callers l !! i = Some c →
    1 <= idx ∧ ∃ e, rlog (rl_node l) !! Z.to_nat (idx - 1) = Some e ∧ le_Command e = ca_cmd c.

Definition core (l : RaftLoop) : Prop :=
  channels (nd_proposals (rl_node l)) (nd_lastApplied (rl_node l)) l ∧ entries_held l.

Lemma settle_calls l n : same_calls (with_node l n) (settle l n).
Proof. apply signals_calls. Qed.

Lemma settle_node l n : rl_node (settle l n) = n.
Proof. by destruct (settle_calls l n) as (_ & _ & -> & _). Qed.

Lemma settle_stage l n : rl_stage (settle l n) = rl_stage l.
Proof. by destruct (settle_calls l n) as (_ & _ & _ & -> & _). Qed.

Lemma settle_keeps l n : keeps (rl_node l) n → settle l n = with_node l n.
Proof. intros (_ & Ha & _). unfold settle. by rewrite Ha, drop_all. Qed.

(** The node moves on; a node that leads afterwards has led before, or nobody waits. *)
Lemma settle_core l n :
  core l → moves (rl_node l) n →
  (nd_role n = Leader → rlog n = rlog (rl_node l) ∧ (nd_role (rl_node l) = Leader ∨ nd_proposals (rl_node l) = ∅)) →
  core (settle l n).
Proof.
  intros [Hc He] (Happ & ws & Hack & Hps & Hws) Hlead. split.
  - rewrite settle_node. unfold settle. rewrite Hack, drop_app_length, Hps. apply signals_channels.
    + destruct Hc as [Hd Hw Ho Hs Hf]. split; try done. intros i c Hi Hsig. pose proof (Hs i c Hi Hsig). lia.
    + eapply Forall_impl; [exact Hws|]. by intros ? [].
  - intros Hl. rewrite settle_node in *. destruct (Hlead Hl) as [Hlog Hor].
    intros idx i c Hp Hi. destruct (settle_calls l n) as (Hsub & Hcalls & _).
    assert (rl_proposals l !! idx = Some i) as Hp' by (eapply lookup_weaken; [exact Hp|exact Hsub]).
    destruct Hor as [Hor|Hor].
    2: { apply elem_of_dom_2 in Hp'. rewrite (ch_dom _ _ _ Hc), Hor in Hp'. set_solver. }
    apply (f_equal (.!! i)) in Hcalls. rewrite !lookup_fmap, Hi in Hcalls. cbn in Hcalls.
    destruct (rl_callers l !! i) as [c0|] eqn:E; [|done]. cbn in Hcalls. unfold call_of in Hcalls.
    rewrite Hlog. destruct (He Hor _ _ _ Hp' E) as [H1 (e & He1 & He2)]. split; [done|]. exists e.
    split; [done|]. congruence.
Qed.

(** Closing: a caller whose channel the map holds is closed, the others are as they were. *)
Lemma close_lookup (ps : gmap Z nat) (cs : gmap nat Caller) i c' :
  map_fold (λ _ i cs, alter (set_chan ChanClosed) i cs) cs ps !! i = Some c' →
  ∃ c, cs !! i = Some c ∧ ((c' = set_chan ChanClosed c ∧ ∃ idx, ps !! idx = Some i) ∨ (c' = c ∧ ∀ idx, ps !! idx ≠ Some i)).
Proof.
  revert i c'. apply (map_fold_weak_ind (λ cs' ps, ∀ i c', cs' !! i = Some c' →
    ∃ c, cs !! i = Some c ∧ ((c' = set_chan ChanClosed c ∧ ∃ idx, ps !! idx = Some i) ∨ (c' = c ∧ ∀ idx, ps !! idx ≠ Some i)))).
  - intros i c' Hc. exists c'. split; [done|]. right. split; [done|]. intros idx. by rewrite lookup_empty.
  - intros idx j m r Hm IH i c' Hc. destruct (decide (j = i)) as [->|Hne].
    + rewrite lookup_alter_eq in Hc. destruct (r !! i) as [c1|] eqn:E; [|done]. cbn in Hc. injection Hc as <-.
      destruct (IH _ _ E) as (c & Hc & Hor). exists c. split; [done|]. left. split.
      * by destruct Hor as [[-> _]|[-> _]].
      * exists idx. apply lookup_insert_eq.
    + rewrite lookup_alter_ne in Hc by done. destruct (IH _ _ Hc) as (c & Hc0 & Hor). exists c. split; [done|].
      destruct Hor as [[-> [k Hk]]|[-> Hno]]; [left|right]; (split; [done|]).
      * exists k. rewrite lookup_insert_ne; [done|]. intros ->. by rewrite Hm in Hk.
      * intros k Hk. apply lookup_insert_Some in Hk as [[_ ?]|[_ Hk]]; [done|]. by apply (Hno k).
Qed.

Lemma close_core l : core l → nd_role (rl_node l) ≠ Leader → core (close_proposals l).
Proof.
  intros [[Hd Hw Ho Hs Hf] _] Hr. split; [|done]. unfold close_proposals.
  split; cbn [with_callers with_node rl_proposals rl_callers rl_node set_proposals nd_proposals nd_lastApplied].
  - apply dom_empty_L.
  - intros idx i. by rewrite lookup_empty.
  - intros i c' Hc Hopen. destruct (close_lookup _ _ _ _ Hc) as (c & Hc0 & [[-> _]|[-> Hno]]); [done|].
    exfalso. by apply (Hno (ca_index c)), Ho.
  - intros i c' Hc Hsig. destruct (close_lookup _ _ _ _ Hc) as (c & Hc0 & [[-> _]|[-> Hno]]); [done|]. by apply (Hs i c).
  - intros i c' k Hc Hst. destruct (close_lookup _ _ _ _ Hc) as (c & Hc0 & [[-> [idx Hidx]]|[-> Hno]]); [|by apply (Hf i c k)].
    destruct (Hw _ _ Hidx) as (c1 & Hc1 & _ & Hop). cbn in *. destruct (Hf i c k Hc0 Hst). congruence.
Qed.

Lemma propose_core l i cmd l' :
  core l → rl_callers l !! i = None → propose_append l i cmd = Some l' →
  core l' ∧ rl_stage l' = rl_stage l ∧ nd_role (rl_node l') = nd_role (rl_node l) ∧
  (nd_role (rl_node l) ≠ Leader → nd_proposals (rl_node l') = nd_proposals (rl_node l)).
Proof.
  intros [[Hd Hw Ho Hs Hf] He] Hi. unfold propose_append.
  assert (∀ idx j c, rl_proposals l !! idx = Some j → (<[i:=c]> (rl_callers l)) !! j = rl_callers l !! j) as Hold.
  { intros idx j c Hp. destruct (Hw _ _ Hp) as (c1 & Hc1 & _). apply lookup_insert_ne. intros ->. congruence. }
  case_bool_decide as Hl; cbn [negb].
  - destruct (Z.leb_spec (2 ^ 63 - 1) (zlen (rlog (rl_node l)))) as [|Hlen]; [done|]. intros [= <-]. cbv zeta.
    set (n := rl_node l) in *. assert (u64 (zlen (rlog n) + 1) = zlen (rlog n) + 1) as Hu by (apply u64_id; unfold is_u64, zlen in *; lia).
    rewrite Hu. match goal with |- context [persistLocked ?x] => destruct (persist_keeps x) as [(P1 & P2 & P3 & P4) P5]; revert P1 P2 P3 P4 P5; generalize (persistLocked x) end.
    intros m P1 P2 P3 P4 P5. cbn in P1, P2, P3, P5. change (rlog m = rlog n ++ [mkLogEntry (term n) (zlen (rlog n) + 1) cmd]) in P4.
    assert (∀ idx j, rl_proposals l !! idx = Some j → idx <= zlen (rlog n)) as Hold_idx.
    { intros idx j Hp. destruct (Hw _ _ Hp) as (c & Hc & _). destruct (He Hl _ _ _ Hp Hc) as [? (e & Hlk & _)].
      apply lookup_lt_Some in Hlk. unfold n, zlen in *. lia. }
    split_and!; [|done|cbn; by rewrite P5|done]. split.
    + split; cbn [with_callers with_node rl_proposals rl_callers rl_node set_proposals nd_proposals nd_lastApplied].
      * rewrite dom_insert_L, Hd, P3. done.
      * intros idx j [[<- <-]|[Hne Hp]]%lookup_insert_Some.
        -- eexists. split; [apply lookup_insert_eq|done].
        -- erewrite Hold by done. by apply Hw.
      * intros j c [[<- <-]|[Hne Hc]]%lookup_insert_Some Hop; [apply lookup_insert_eq|].
        cbn in *. specialize (Ho _ _ Hc Hop). rewrite lookup_insert_ne; [done|]. specialize (Hold_idx _ _ Ho). lia.
      * intros j c [[<- <-]|[Hne Hc]]%lookup_insert_Some Hsig; [done|]. rewrite P1. by apply (Hs j c).
      * intros j c k [[<- <-]|[Hne Hc]]%lookup_insert_Some Hst; [done|]. by apply (Hf j c k).
    + intros _ idx j c. cbn [with_callers with_node rl_proposals rl_callers rl_node].
      change (rlog (set_proposals m _)) with (rlog m). rewrite P4.
      intros [[<- <-]|[Hne Hp]]%lookup_insert_Some Hc.
      * rewrite lookup_insert_eq in Hc. injection Hc as <-. split; [unfold zlen; lia|].
        eexists. split; [apply list_lookup_middle; unfold zlen; lia|done].
      * erewrite Hold in Hc by done. destruct (He Hl _ _ _ Hp Hc) as [H1 (e & He1 & He2)]. split; [done|].
        exists e. split; [by apply lookup_app_l_Some|done].
  - intros [= <-]. split_and!; [|done..]. split; [|done].
    split; cbn [with_callers rl_proposals rl_callers rl_node]; [done| | | |].
    + intros idx j Hp. erewrite Hold by done. by apply Hw.
    + intros j c [[<- <-]|[Hne Hc]]%lookup_insert_Some Hop; [done|]. by apply Ho.
    + intros j c [[<- <-]|[Hne Hc]]%lookup_insert_Some Hsig; [done|]. by apply (Hs j c).
    + intros j c k [[<- <-]|[Hne Hc]]%lookup_insert_Some Hst; [done|]. by apply (Hf j c k).
Qed.

Record loop_inv (l : RaftLoop) : Prop := {
  li_core : core l;
  li_idle : rl_stage l ≠ RunClosing → nd_role (rl_node l) ≠ Leader → nd_proposals (rl_node l) = ∅;
  li_closing : rl_stage l = RunClosing → nd_role (rl_node l) ≠ Leader;
}.

(** What the invariant does not look at. *)
Lemma core_ext l l' :
  rl_node l' = rl_node l → rl_proposals l' = rl_proposals l → rl_callers l' = rl_callers l → core l → core l'.
Proof.
  intros Hn Hp Hc [[Hd Hw Ho Hs Hf] He]. split.
  - split; rewrite ?Hn, ?Hp, ?Hc; done.
  - unfold entries_held. by rewrite Hn, Hp, Hc.
Qed.

Lemma loop_inv_ext l l' :
  rl_node l' = rl_node l → rl_proposals l' = rl_proposals l → rl_callers l' = rl_callers l → rl_stage l' = rl_stage l →
  loop_inv l → loop_inv l'.
Proof.
  intros Hn Hp Hc Hs [I1 I2 I3]. split; [by eapply core_ext|rewrite Hs, Hn; done|rewrite Hs, Hn; done].
Qed.

(** A caller's own progress. *)
Lemma caller_core l i c c' :
  core l → rl_callers l !! i = Some c → ca_index c' = ca_index c → ca_cmd c' = ca_cmd c → ca_chan c' = ca_chan c →
  (∀ k, ca_stage c' = ProposeDone (Ok k) → k = ca_index c ∧ ca_chan c = ChanSignalled) →
  core (with_callers l (rl_proposals l) (<[i := c']> (rl_callers l))).
Proof.
  intros [[Hd Hw Ho Hs Hf] He] Hi H1 H2 H3 H4.
  assert (∀ j x, <[i := c']> (rl_callers l) !! j = Some x →
    ∃ y, rl_callers l !! j = Some y ∧ ca_index x = ca_index y ∧ ca_cmd x = ca_cmd y ∧ ca_chan x = ca_chan y ∧
      (∀ k, ca_stage x = ProposeDone (Ok k) → k = ca_index y ∧ ca_chan y = ChanSignalled)) as Hback.
  { intros j x [[<- <-]|[Hne Hx]]%lookup_insert_Some; [by exists c|]. exists x. split_and!; try done. intros k. by apply (Hf j x k). }
  split; [split|]; cbn [with_callers rl_proposals rl_callers rl_node]; [done| | | | |].
  - intros idx j Hp. destruct (Hw _ _ Hp) as (y & Hy & <- & Hop). destruct (decide (i = j)) as [->|Hne].
    + exists c'. rewrite lookup_insert_eq. split_and!; congruence.
    + exists y. by rewrite lookup_insert_ne.
  - intros j x Hx Hop. destruct (Hback _ _ Hx) as (y & Hy & -> & _ & Hch & _). apply Ho; [done|congruence].
  - intros j x Hx Hsig. destruct (Hback _ _ Hx) as (y & Hy & -> & _ & Hch & _). apply (Hs j y); [done|congruence].
  - intros j x k Hx Hst. destruct (Hback _ _ Hx) as (y & Hy & -> & _ & -> & Hk). by apply Hk.
  - intros Hl idx j x. cbn [with_callers rl_proposals rl_callers rl_node] in *. intros Hp Hx.
    destruct (Hback _ _ Hx) as (y & Hy & _ & -> & _). by apply (He Hl idx j y).
Qed.

(** The node moves on under the loop, without stepping down. *)
Lemma settle_inv l n :
  loop_inv l → handled (rl_node l) n → (nd_role (rl_node l) = Leader → nd_role n = Leader) →
  (rl_stage l = RunClosing → nd_role n ≠ Leader) → loop_inv (settle l n).
Proof.
  intros [I1 I2 I3] [Hm Hlog] Hkeep Hclosing. destruct Hm as (Happ & ws & Hack & Hps & Hws).
  assert (nd_role n ≠ Leader → rl_stage l ≠ RunClosing → nd_proposals n = ∅) as Hempty.
  { intros Hn Hst. rewrite Hps, I2; [set_solver|done|]. intros Hl. by apply Hn, Hkeep. }
  split; rewrite ?settle_node, ?settle_stage; [|by intros; apply Hempty|done].
  apply settle_core; [done|by split; [|exists ws]|]. intros Hl. split; [by apply Hlog|].
  destruct (decide (nd_role (rl_node l) = Leader)); [by left|right]. apply I2; [|done]. intros Hc. by apply Hclosing.
Qed.

(** The section from the step-down to the closing of the channels. *)
Lemma step_down_inv l n :
  loop_inv l → handled (rl_node l) n → nd_role n ≠ Leader → loop_inv (with_stage (settle l n) RunClosing).
Proof.
  intros [I1 I2 I3] [Hm Hlog] Hn.
  assert (core (settle l n)) as Hc by (apply settle_core; [done|done|by intros ?]).
  split; cbn [with_stage rl_stage rl_node]; [by eapply core_ext, Hc|done|]. by rewrite settle_node.
Qed.

Section Runs.
Context (tmin tmax : Z).

Lemma reset_fields now rnd l l' :
  reset_timer tmin tmax now rnd l = Some l' →
  rl_node l' = rl_node l ∧ rl_proposals l' = rl_proposals l ∧ rl_callers l' = rl_callers l ∧ rl_stage l' = rl_stage l.
Proof. unfold reset_timer. destruct (randomElectionTimeout _ _ _); cbn; [|done]. by intros [= <-]. Qed.

Lemma reset_inv now rnd l l' : reset_timer tmin tmax now rnd l = Some l' → loop_inv l → loop_inv l'.
Proof. intros H. apply reset_fields in H as (? & ? & ? & ?). by apply loop_inv_ext. Qed.

Lemma leader_bool n : Node_IsLeader n = true ↔ nd_role n = Leader.
Proof. apply bool_decide_eq_true. Qed.

Lemma not_leader_bool n : Node_IsLeader n = false ↔ nd_role n ≠ Leader.
Proof. apply bool_decide_eq_false. Qed.

Lemma receive_inv now rnd l msg q l' out :
  loop_inv l → rl_stage l = RunSelect → run_receive tmin tmax now rnd l msg q = Some (l', out) → loop_inv l'.
Proof.
  intros Hi Hst. unfold run_receive. cbv zeta. destruct (dispatchMsg (rl_node l) msg) as [[[n o] reset]|] eqn:E; [|done]. cbn [mbind option_bind].
  apply dispatch_handled in E. set (l0 := with_timer l q (rl_timer l)).
  assert (loop_inv l0) as H0 by (by apply (loop_inv_ext l)).
  destruct (if reset then _ else _) as [l2|] eqn:Er; [|done]. cbn. intros [= <- <-].
  assert (rl_node l2 = rl_node (settle l0 n) ∧ rl_proposals l2 = rl_proposals (settle l0 n) ∧
          rl_callers l2 = rl_callers (settle l0 n) ∧ rl_stage l2 = rl_stage (settle l0 n)) as (F1 & F2 & F3 & F4).
  { destruct reset; [by apply reset_fields in Er|by simplify_eq]. }
  destruct (Node_IsLeader (rl_node l)) eqn:E1, (Node_IsLeader n) eqn:E2; cbn [andb negb];
    rewrite ?leader_bool, ?not_leader_bool in E1; rewrite ?leader_bool, ?not_leader_bool in E2.
  2: { apply (loop_inv_ext (with_stage (settle l0 n) RunClosing)); [done..|]. by apply step_down_inv. }
  all: apply (loop_inv_ext (settle l0 n)); [done..|]; apply settle_inv; [done|done|done|];
    change (rl_stage l0) with (rl_stage l); by rewrite Hst.
Qed.

Lemma loop_step_inv l e l' out : loop_inv l → loop_step tmin tmax l e = Some (l', out) → loop_inv l'.
Proof.
  intros Hi. pose proof Hi as [I1 I2 I3]. destruct e as [msg drop|now rnd|now rnd| | |ctx| |i cmd|i|i|i w]; cbn [loop_step].
  - repeat case_match; intros; simplify_eq; [done| |done]. by apply (loop_inv_ext l).
  - destruct (rl_stage l) eqn:Hst; [|by intros [= <- <-]..]. destruct (_ <=? _); [|by intros [= <- <-]].
    destruct (handleElectionTimeout (rl_node l)) as [n o] eqn:E.
    destruct (reset_timer _ _ _ _ _) as [l2|] eqn:Er; [|done]. intros [= <- <-]. eapply reset_inv; [exact Er|].
    assert (nd_role (rl_node l) = Leader → nd_role n = Leader) as Hl.
    { intros Hl. unfold handleElectionTimeout in E. rewrite bool_decide_eq_true_2 in E by done. by simplify_eq. }
    apply timeout_keeps in E. rewrite <- settle_keeps by done. apply settle_inv; [done|by apply keeps_handled|done|].
    by rewrite Hst.
  - destruct (rl_stage l) eqn:Hst; [|by intros [= <- <-]..]. destruct (rl_inCh l) as [|msg q]; [by intros [= <- <-]|].
    by apply receive_inv.
  - destruct (rl_stage l) eqn:Hst; [by intros [= <- <-]| |by intros [= <- <-]]. intros [= <- <-].
    pose proof (close_core l I1 (I3 eq_refl)) as Hc. split; [by eapply core_ext, Hc|done|done].
  - destruct (rl_stage l) eqn:Hst; [|by intros [= <- <-]..]. destruct (Node_IsLeader _); [|by intros [= <- <-]].
    destruct (sendAppendEntriesToAll _) as [n o] eqn:E. intros [= <- <-]. apply send_keeps in E as [Hk Hr].
    rewrite <- settle_keeps by done. apply settle_inv; [done|by apply keeps_handled|by rewrite Hr|by rewrite Hst].
  - destruct (rl_stage l) eqn:Hst; [|by intros [= <- <-]..]. intros [= <- <-]. destruct (_ || _); [|done].
    split; cbn; [by eapply core_ext, I1|by intros _; apply I2|done].
  - intros [= <- <-]. by apply (loop_inv_ext l).
  - destruct (rl_callers l !! i) as [c|] eqn:Ei; [by intros [= <- <-]|].
    destruct (propose_append l i cmd) as [l2|] eqn:E; [|done]. intros [= <- <-].
    destruct (propose_core _ _ _ _ I1 Ei E) as (Hc & Hst & Hr & Hp). split; [done|rewrite Hst, Hr|by rewrite Hst, Hr].
    intros H1 H2. rewrite Hp by done. by apply I2.
  - destruct (rl_callers l !! i) as [[idx cmd ch []]|] eqn:Ei; try by intros [= <- <-].
    destruct (sendAppendEntriesToAll _) as [n o] eqn:E. intros [= <- <-]. apply send_keeps in E as [Hk Hr].
    assert (loop_inv (with_node l n)) as [J1 J2 J3].
    { rewrite <- settle_keeps by done. apply settle_inv; [done|by apply keeps_handled|by rewrite Hr|]. rewrite Hr. done. }
    split; [|done|done]. by eapply (caller_core (with_node l n)); [exact J1|exact Ei|..].
  - destruct (rl_callers l !! i) as [[idx cmd ch []]|] eqn:Ei; try by intros [= <- <-].
    destruct (advanceCommitIndexLocked _) as [n|] eqn:E; [|done]. cbn [mbind option_bind]. intros [= <- <-].
    apply advance_moves in E as [Hm [Hr Hl]].
    assert (loop_inv (settle l n)) as [J1 J2 J3].
    { apply settle_inv; [done|by split|by rewrite Hr|]. rewrite Hr. done. }
    destruct (settle_calls l n) as (_ & Hcalls & _). apply (f_equal (.!! i)) in Hcalls.
    rewrite !lookup_fmap in Hcalls. cbn [with_node rl_callers] in Hcalls. rewrite Ei in Hcalls.
    destruct (rl_callers (settle l n) !! i) as [c|] eqn:Ec; [|done].
    split; [|done|done]. replace (alter (at_stage ProposeWait) i (rl_callers (settle l n)))
      with (<[i := at_stage ProposeWait c]> (rl_callers (settle l n))).
    + by eapply caller_core.
    + apply map_eq. intros j. destruct (decide (i = j)) as [->|Hne].
      * by rewrite lookup_insert_eq, lookup_alter_eq, Ec.
      * by rewrite lookup_insert_ne, lookup_alter_ne.
  - destruct (rl_callers l !! i) as [[idx cmd ch []]|] eqn:Ei; try by intros [= <- <-].
    intros [= <- <-]. split; [|done|done]. eapply caller_core; [exact I1|exact Ei|..];
      destruct w, ch, (rl_stopped l); cbn; try done; intros k [=]; by subst.
Qed.

Lemma loop_run_inv l es l' : loop_inv l → loop_run tmin tmax l es = Some l' → loop_inv l'.
Proof.
  unfold loop_run. revert l. induction es as [|e es IH]; intros l Hi; cbn [foldl mbind option_bind]; [by intros [= <-]|].
  destruct (loop_step tmin tmax l e) as [[l1 out]|] eqn:E; cbn.
  - apply IH. by eapply loop_step_inv.
  - clear. by induction es.
Qed.

Lemma started_inv n timer : nd_proposals n = ∅ → loop_inv (started n timer).
Proof.
  intros Hn. assert (∀ i c, rl_callers (started n timer) !! i ≠ Some c) as Hnone by (intros i c; apply lookup_empty_Some).
  assert (∀ idx i, rl_proposals (started n timer) !! idx ≠ Some i) as Hnop by (intros idx i; apply lookup_empty_Some).
  split; [|done|done]. split; [split|].
  - cbn. by rewrite Hn, dom_empty_L.
  - by intros idx i H%Hnop.
  - by intros i c H%Hnone.
  - by intros i c H%Hnone.
  - by intros i c k H%Hnone.
  - by intros _ idx i c H%Hnop.
Qed.

(** Nobody who proposes is forgotten.  However timers, messages, callers and
    the loop take turns: a channel nobody has signalled or closed is in the map
    under the index of its entry, so that committing the entry or a step-down
    will answer it; whenever the loop waits and the node does not lead, no
    caller waits on an open channel; and an index that [Propose] returns is the
    one of the caller's entry, and has been applied. *)
Theorem proposers_answered n timer es l :
  nd_proposals n = ∅ → loop_run tmin tmax (started n timer) es = Some l →
  (∀ i c, rl_callers l !! i = Some c → ca_chan c = ChanOpen → rl_proposals l !! ca_index c = Some i) ∧
  (rl_stage l ≠ RunClosing → Node_IsLeader (rl_node l) = false →
     ∀ i c, rl_callers l !! i = Some c → ca_chan c ≠ ChanOpen) ∧
  (∀ i c k, rl_callers l !! i = Some c → ca_stage c = ProposeDone (Ok k) →
     k = ca_index c ∧ k <= nd_lastApplied (rl_node l)).
Proof.
  intros Hn Hr. destruct (loop_run_inv _ _ _ (started_inv n timer Hn) Hr) as [[[Hd Hw Ho Hs Hf] _] I2 _].
  split_and!; [done| |].
  - intros Hst Hl i c Hc Hop. rewrite not_leader_bool in Hl. pose proof (I2 Hst Hl) as Hemp.
    pose proof (elem_of_dom_2 _ _ _ (Ho _ _ Hc Hop)) as Hin. rewrite Hd, Hemp in Hin. set_solver.
  - intros i c k Hc Hk. destruct (Hf _ _ _ Hc Hk) as [-> Hsig]. split; [done|]. by apply (Hs i c).
Qed.

End Runs.

(** ** Whose entry an answer is about *)

Section Answers.
Context (tmin tmax : Z).

(** A step that ends with the node leading has kept the log, or one caller has
    added to it; only the waiting loop makes a leader. *)
Lemma step_log l e l' out :
  loop_step tmin tmax l e = Some (l', out) → nd_role (rl_node l') = Leader →
  rlog (rl_node l) `prefix_of` rlog (rl_node l') ∧ (nd_role (rl_node l) = Leader ∨ rl_stage l = RunSelect).
Proof.
  intros Hs Hl. destruct e as [msg drop|now rnd|now rnd| | |ctx| |i cmd|i|i|i w]; cbn [loop_step] in Hs.
  - repeat case_match; simplify_eq; by (split; [|left]).
  - destruct (rl_stage l) eqn:Hst; [|simplify_eq; by (split; [|left])..].
    destruct (_ <=? _); [|simplify_eq; by (split; [|left])]. split; [|by right].
    destruct (handleElectionTimeout (rl_node l)) as [n o] eqn:E.
    destruct (reset_timer _ _ _ _ _) as [l2|] eqn:Er; [|done]. cbn [mbind option_bind] in Hs. simplify_eq.
    apply reset_fields in Er as (-> & _). apply timeout_keeps in E as (_ & _ & _ & E). cbn. by rewrite E.
  - destruct (rl_stage l) eqn:Hst; [|simplify_eq; by (split; [|left])..].
    destruct (rl_inCh l) as [|msg q]; [simplify_eq; by (split; [|left])|]. split; [|by right]. unfold run_receive in Hs. cbv zeta in Hs.
    destruct (dispatchMsg _ _) as [[[n o] reset]|] eqn:E; [|done]. cbn [mbind option_bind] in Hs.
    destruct (if reset then _ else _) as [l2|] eqn:Er; [|done]. cbn in Hs.
    assert (rl_node l2 = n) as H2.
    { destruct reset; [apply reset_fields in Er as (-> & _)|injection Er as <-]; apply settle_node. }
    apply dispatch_handled in E as [_ E].
    assert (rl_node l' = n) as Hn by (injection Hs as <- _; by destruct (_ && _)). rewrite Hn in Hl. by rewrite Hn, E.
  - destruct (rl_stage l); simplify_eq; by (split; [|left]).
  - destruct (rl_stage l) eqn:Hst; [|simplify_eq; by (split; [|left])..]. split; [|by right].
    destruct (Node_IsLeader _); [|by simplify_eq]. destruct (sendAppendEntriesToAll _) as [n o] eqn:E. simplify_eq.
    apply send_keeps in E as [(_ & _ & _ & E) _]. cbn. by rewrite E.
  - destruct (rl_stage l); simplify_eq; try by (split; [|left]). destruct (_ || _); by (split; [|left]).
  - simplify_eq. by (split; [|left]).
  - destruct (rl_callers l !! i); [simplify_eq; by (split; [|left])|]. destruct (propose_append l i cmd) as [l2|] eqn:E; [|done].
    cbn in Hs. simplify_eq. unfold propose_append in E. case_bool_decide; cbn [negb] in E; [|by simplify_eq].
    destruct (_ <=? _); [done|]. simplify_eq. split; [|by left]. cbn.
    change (rlog (set_proposals ?n _)) with (rlog n).
    match goal with |- context [persistLocked ?x] => destruct (persist_keeps x) as [(_ & _ & _ & ->) _] end.
    cbn. by apply prefix_app_r.
  - destruct (rl_callers l !! i) as [[idx cmd ch []]|] eqn:Ei; try by (simplify_eq; split; [|left]).
    destruct (sendAppendEntriesToAll _) as [n o] eqn:E. simplify_eq. apply send_keeps in E as [(_ & _ & _ & E) Hr].
    cbn in *. rewrite E. split; [done|left; congruence].
  - destruct (rl_callers l !! i) as [[idx cmd ch []]|] eqn:Ei; try by (simplify_eq; split; [|left]).
    destruct (advanceCommitIndexLocked _) as [n|] eqn:E; [|done]. cbn [mbind option_bind] in Hs. simplify_eq.
    apply advance_moves in E as [_ [Hr E]]. cbn in *. rewrite settle_node in *. rewrite E. split; [done|left; congruence].
  - destruct (rl_callers l !! i) as [[idx cmd ch []]|]; simplify_eq; by (split; [|left]).
Qed.

(** As long as the node leads, an answer is about the caller's own entry. *)
Lemma leader_answers_own l e l' out i c :
  loop_inv l → loop_step tmin tmax l e = Some (l', out) → Node_IsLeader (rl_node l') = true →
  rl_callers l !! i = Some c → ca_chan c = ChanOpen →
  ∃ entry, rlog (rl_node l') !! Z.to_nat (ca_index c - 1) = Some entry ∧ le_Command entry = ca_cmd c.
Proof.
  intros [[Hc He] I2 _] Hs Hl%leader_bool Hi Hop. destruct (step_log _ _ _ _ Hs Hl) as [Hpre Hor].
  pose proof (ch_open _ _ _ Hc i c Hi Hop) as Hp.
  destruct (decide (nd_role (rl_node l) = Leader)) as [Hlead|Hno].
  - destruct (He Hlead _ _ _ Hp Hi) as [_ (entry & He1 & He2)]. exists entry. split; [|done]. by eapply prefix_lookup_Some.
  - destruct Hor as [?|Hst]; [done|]. apply elem_of_dom_2 in Hp. rewrite (ch_dom _ _ _ Hc), I2 in Hp; [set_solver|by rewrite Hst|done].
Qed.

End Answers.

(** But a leader that steps down by a message that also commits signals its
    callers before it closes their channels: here the caller of "x" is told
    that index 1 is committed, and what is applied there is "y". *)
Definition lost_proposal : list loop_event :=
  [LoopElection 0 0;
   LoopOnMessage (mkRaftMessage MsgRaftVoteResponse "b" 1 (encodeJSON (mkRequestVoteReply 1 true))) false;
   LoopMessage 1 0;
   CallPropose 0 (bytes_of_string "x"); CallSend 0; CallAdvance 0;
   LoopOnMessage (mkRaftMessage MsgRaftAppendEntries "b" 2
     (encodeJSON (mkAppendEntriesArgs 2 "b" 0 0 [mkLogEntry 2 1 (bytes_of_string "y")] 1))) false;
   LoopMessage 2 0; CallWake 0 WakeChan; LoopClose].

Example replaced_entry_acknowledged :
  (λ l, (ca_cmd <$> rl_callers l !! 0%nat, ca_stage <$> rl_callers l !! 0%nat, nd_applied (rl_node l)))
    <$> loop_run 0 0 (started (NewNode "a" ["b"; "c"] ∅ true zero_state) 0) lost_proposal =
  Some (Some (bytes_of_string "x"), Some (ProposeDone (Ok 1)), [bytes_of_string "y"]).
Proof. vm_compute. reflexivity. Qed.

(** The locked sections of [Propose] in a row are [Node_Propose]. *)
Lemma propose_sections n cmd l i :
  rl_node l = n → rl_callers l !! i = None → nd_role n = Leader → zlen (rlog n) < 2 ^ 63 - 1 →
  match Node_Propose n cmd with
  | Some (n', out, Ok index) =>
      ∃ l1 l2 l3, loop_step 0 0 l (CallPropose i cmd) = Some (l1, []) ∧ loop_step 0 0 l1 (CallSend i) = Some (l2, out) ∧
        loop_step 0 0 l2 (CallAdvance i) = Some (l3, []) ∧ rl_node l3 = n' ∧ (ca_index <$> rl_callers l1 !! i) = Some index
  | Some (_, _, Error _) => False
  | None => True
  end.
Proof.
  intros <- Hi Hl Hlen. unfold Node_Propose. rewrite bool_decide_eq_true_2 by done. cbn [negb]. cbv zeta.
  match goal with |- context [sendAppendEntriesToAll ?x] => set (m := x); destruct (sendAppendEntriesToAll m) as [n1 out] eqn:E end.
  destruct (advanceCommitIndexLocked n1) as [n2|] eqn:Ea; [|done].
  eexists _, _, _. cbn [loop_step]. rewrite Hi. unfold propose_append. rewrite bool_decide_eq_true_2 by done. cbn [negb].
  destruct (Z.leb_spec (2 ^ 63 - 1) (zlen (rlog (rl_node l)))); [lia|]. cbn [mbind option_bind]. fold m.
  split; [reflexivity|]. cbn [with_callers with_node rl_callers rl_node rl_proposals]. rewrite lookup_insert_eq, E.
  split; [reflexivity|]. cbn [with_callers with_node rl_callers rl_node rl_proposals]. rewrite lookup_insert_eq, Ea.
  cbn [mbind option_bind]. split; [reflexivity|]. cbn [with_callers rl_node]. rewrite settle_node. split; [done|reflexivity].
Qed.
