(* ===== verification/WireJson.v ===== *)
(** * JSON of the request bodies: the struct tags of [internal/protocol/protocol.go]

    For every request the broker reads, the members written by
    [encoding/json] for the struct, the reader, and the round trip.  All
    instances have the same shape: the fields in declaration order, an omitted
    member being its zero value. *)

From S2P Require Import Prelude GoLib Json Types Protocol.

Local Open Scope Z_scope.

Definition u64_field_max : Z := 2 ^ 64 - 1.

(** An [*int64] with [omitempty]: nothing for the nil pointer. *)
Definition put_opt (k : string) (o : option Z) : list (bytes * json) :=
  match o with
  | Some z => put k (JNum z)
  | None => []
  end.

Lemma jfield_opt k k' o l :
  jfield k (put_opt k' o ++ l) =
    match jfield k l with
    | Some x => Some x
    | None => if (k' =? k)%string then JNum <$> o else None
    end.
Proof.
  destruct o as [z|]; cbn [put_opt].
  - rewrite jfield_put. by destruct (jfield k l), (k' =? k)%string.
  - simpl. by destruct (jfield k l), (k' =? k)%string.
Qed.

Lemma members_valid_opt k o l :
  str_valid k = true → json_valid (JObj (put_opt k o ++ l)) = json_valid (JObj l).
Proof. intros Hk. destruct o; [|done]. cbn [put_opt]. by rewrite members_valid_put, Hk. Qed.

Ltac wire_eval :=
  repeat first [rewrite jfield_put | rewrite jfield_omit | rewrite jfield_opt | rewrite jfield_nil];
  cbn [String.eqb Ascii.eqb Bool.eqb andb negb];
  rewrite ?andb_true_r, ?andb_false_r; cbv iota.

(** What the member holds, when it is omitted, and its range. *)
Ltac wire_solve :=
  first
    [ done
    | lia
    | by wire_eval
    | wire_eval; by case_bool_decide
    | wire_eval; by match goal with |- context [?z =? 0] => destruct (z =? 0) end
    | wire_eval; by match goal with |- context [negb ?b] => destruct b end
    | wire_eval; by match goal with |- context [JNum <$> ?o] => destruct o end
    | intros; z_bool; lia
    | intros; z_bool; done
    | by intros ?%negb_true_iff
    | intros z Hz; by match goal with H : forall z, _ = Some z -> _ |- _ => apply H in Hz; lia end ].

Ltac wire_bounds :=
  unfold is_i64, is_i32, i64_min, i64_max, i32_min, i32_max, u64_field_max in *.

(** The members written are valid JSON. *)
Ltac wire_valid :=
  repeat first [rewrite members_valid_put | rewrite members_valid_omit
               | rewrite members_valid_opt by reflexivity];
  unfold str_valid in *; cbn [json_valid jstr];
  repeat match goal with H : utf8_valid _ = true |- _ => rewrite H end;
  rewrite ?orb_true_r; reflexivity.

Lemma struct_roundtrip {A} (f : list (bytes * json) → option A) l (x : A) :
  json_valid (JObj l) = true → f l = Some x →
  ∃ b, Some (print (JObj l)) = Some b ∧ unmarshal_with f b = Some x.
Proof. intros Hv Hf. eexists. split; [reflexivity|]. by rewrite unmarshal_with_print. Qed.

(** ** AuthRequest *)

Definition AuthRequest_fields (r : AuthRequest) : list (bytes * json) :=
  put "api_key" (jstr (ar_APIKey r)) ++
  put "client_id" (jstr (ar_ClientID r)) ++ [].

Definition AuthRequest_of (l : list (bytes * json)) : option AuthRequest :=
  match get_str "api_key" l, get_str "client_id" l with
  | Some x0, Some x1 => Some (mkAuthRequest x0 x1)
  | _, _ => None
  end.

Definition AuthRequest_wf (r : AuthRequest) : Prop :=
  str_valid (ar_APIKey r) = true ∧
  str_valid (ar_ClientID r) = true.

Lemma AuthRequest_of_fields r : AuthRequest_wf r → AuthRequest_of (AuthRequest_fields r) = Some r.
Proof.
  intros (H0 & H1). unfold AuthRequest_of, AuthRequest_fields. wire_bounds.
  rewrite (get_str_eq "api_key" _ (ar_APIKey r) false) by wire_solve.
  rewrite (get_str_eq "client_id" _ (ar_ClientID r) false) by wire_solve.
  by destruct r.
Qed.

Lemma AuthRequest_valid r : AuthRequest_wf r → json_valid (JObj (AuthRequest_fields r)) = true.
Proof. intros (H0 & H1). unfold AuthRequest_fields. wire_valid. Qed.

Lemma AuthRequest_json_roundtrip r :
  AuthRequest_wf r → ∃ b, Some (print (JObj (AuthRequest_fields r))) = Some b ∧ unmarshal_with AuthRequest_of b = Some r.
Proof. intros Hr. by apply struct_roundtrip; [apply AuthRequest_valid|apply AuthRequest_of_fields]. Qed.

#[global] Instance AuthRequestJson : JsonCodec AuthRequest := {|
  json_Marshal := λ r, Some (print (JObj (AuthRequest_fields r)));
  json_Unmarshal := unmarshal_with AuthRequest_of;
  json_wf := AuthRequest_wf;
  json_roundtrip := AuthRequest_json_roundtrip;
|}.

(** ** PublishRequest *)

Definition PublishRequest_fields (r : PublishRequest) : list (bytes * json) :=
  put "topic" (jstr (pr_Topic r)) ++
  put_omit (bool_decide (pr_Key r = EmptyString)) "key" (jstr (pr_Key r)) ++
  put "payload" (JStr (b64_encode (pr_Payload r))) ++
  put_omit (bool_decide (pr_Headers r = ∅)) "headers" (jsmap (pr_Headers r)) ++
  put "delivery_mode" (JNum (pr_DeliveryMode r)) ++
  put_omit (pr_SeqNum r =? 0) "seq_num" (JNum (pr_SeqNum r)) ++
  put_omit (pr_Codec r =? 0) "codec" (JNum (pr_Codec r)) ++
  put_opt "target_offset" (pr_TargetOffset r) ++ [].

Definition PublishRequest_of (l : list (bytes * json)) : option PublishRequest :=
  match get_str "topic" l, get_str "key" l, get_bytes "payload" l with
  | Some x0, Some x1, Some x2 =>
        match get_smap "headers" l, get_int 0 255 "delivery_mode" l, get_int 0 u64_field_max "seq_num" l with
        | Some x3, Some x4, Some x5 =>
              match get_int 0 255 "codec" l, get_opt_int i64_min i64_max "target_offset" l with
              | Some x6, Some x7 => Some (mkPublishRequest x0 x1 x2 x3 x4 x5 x6 x7)
              | _, _ => None
              end
        | _, _, _ => None
        end
  | _, _, _ => None
  end.

Definition PublishRequest_wf (r : PublishRequest) : Prop :=
  str_valid (pr_Topic r) = true ∧
  str_valid (pr_Key r) = true ∧
  map_Forall (λ k v, str_valid k = true ∧ str_valid v = true) (pr_Headers r) ∧
  0 <= pr_DeliveryMode r <= 255 ∧
  0 <= pr_SeqNum r <= u64_field_max ∧
  0 <= pr_Codec r <= 255 ∧
  (∀ z, pr_TargetOffset r = Some z → i64_min <= z <= i64_max).

Lemma PublishRequest_of_fields r : PublishRequest_wf r → PublishRequest_of (PublishRequest_fields r) = Some r.
Proof.
  intros (H0 & H1 & H2 & H3 & H4 & H5 & H6). unfold PublishRequest_of, PublishRequest_fields. wire_bounds.
  rewrite (get_str_eq "topic" _ (pr_Topic r) false) by wire_solve.
  rewrite (get_str_eq "key" _ (pr_Key r) (bool_decide (pr_Key r = EmptyString))) by wire_solve.
  rewrite (get_bytes_eq "payload" _ (pr_Payload r)) by wire_solve.
  rewrite (get_smap_eq "headers" _ (pr_Headers r) (bool_decide (pr_Headers r = ∅))) by wire_solve.
  rewrite (get_int_eq _ _ "delivery_mode" _ (pr_DeliveryMode r) false) by wire_solve.
  rewrite (get_int_eq _ _ "seq_num" _ (pr_SeqNum r) (pr_SeqNum r =? 0)) by wire_solve.
  rewrite (get_int_eq _ _ "codec" _ (pr_Codec r) (pr_Codec r =? 0)) by wire_solve.
  rewrite (get_opt_int_eq _ _ "target_offset" _ (pr_TargetOffset r)) by wire_solve.
  by destruct r.
Qed.

Lemma PublishRequest_valid r : PublishRequest_wf r → json_valid (JObj (PublishRequest_fields r)) = true.
Proof.
  intros (H0 & H1 & H2 & H3 & H4 & H5 & H6). pose proof (jsmap_valid _ H2) as Hm.
  pose proof (utf8_valid_ascii _ (b64_encode_ascii (pr_Payload r))) as Hp.
  unfold PublishRequest_fields.
  repeat first [rewrite members_valid_put | rewrite members_valid_omit
               | rewrite members_valid_opt by reflexivity].
  rewrite Hm. unfold str_valid in *. cbn [json_valid jstr].
  rewrite Hp. repeat match goal with H : utf8_valid _ = true |- _ => rewrite H end.
  by rewrite !orb_true_r.
Qed.

Lemma PublishRequest_json_roundtrip r :
  PublishRequest_wf r → ∃ b, Some (print (JObj (PublishRequest_fields r))) = Some b ∧ unmarshal_with PublishRequest_of b = Some r.
Proof. intros Hr. by apply struct_roundtrip; [apply PublishRequest_valid|apply PublishRequest_of_fields]. Qed.

#[global] Instance PublishRequestJson : JsonCodec PublishRequest := {|
  json_Marshal := λ r, Some (print (JObj (PublishRequest_fields r)));
  json_Unmarshal := unmarshal_with PublishRequest_of;
  json_wf := PublishRequest_wf;
  json_roundtrip := PublishRequest_json_roundtrip;
|}.

(** ** SubscribeRequest *)

Definition SubscribeRequest_fields (r : SubscribeRequest) : list (bytes * json) :=
  put "topic" (jstr (sr_Topic r)) ++
  put "group" (jstr (sr_Group r)) ++
  put "consumer_id" (jstr (sr_ConsumerID r)) ++
  put_omit (negb (sr_Push r)) "push" (JBool (sr_Push r)) ++ [].

Definition SubscribeRequest_of (l : list (bytes * json)) : option SubscribeRequest :=
  match get_str "topic" l, get_str "group" l, get_str "consumer_id" l with
  | Some x0, Some x1, Some x2 =>
        match get_bool "push" l with
        | Some x3 => Some (mkSubscribeRequest x0 x1 x2 x3)
        | _ => None
        end
  | _, _, _ => None
  end.

Definition SubscribeRequest_wf (r : SubscribeRequest) : Prop :=
  str_valid (sr_Topic r) = true ∧
  str_valid (sr_Group r) = true ∧
  str_valid (sr_ConsumerID r) = true.

Lemma SubscribeRequest_of_fields r : SubscribeRequest_wf r → SubscribeRequest_of (SubscribeRequest_fields r) = Some r.
Proof.
  intros (H0 & H1 & H2). unfold SubscribeRequest_of, SubscribeRequest_fields. wire_bounds.
  rewrite (get_str_eq "topic" _ (sr_Topic r) false) by wire_solve.
  rewrite (get_str_eq "group" _ (sr_Group r) false) by wire_solve.
  rewrite (get_str_eq "consumer_id" _ (sr_ConsumerID r) false) by wire_solve.
  rewrite (get_bool_eq "push" _ (sr_Push r) (negb (sr_Push r))) by wire_solve.
  by destruct r.
Qed.

Lemma SubscribeRequest_valid r : SubscribeRequest_wf r → json_valid (JObj (SubscribeRequest_fields r)) = true.
Proof. intros (H0 & H1 & H2). unfold SubscribeRequest_fields. wire_valid. Qed.

Lemma SubscribeRequest_json_roundtrip r :
  SubscribeRequest_wf r → ∃ b, Some (print (JObj (SubscribeRequest_fields r))) = Some b ∧ unmarshal_with SubscribeRequest_of b = Some r.
Proof. intros Hr. by apply struct_roundtrip; [apply SubscribeRequest_valid|apply SubscribeRequest_of_fields]. Qed.

#[global] Instance SubscribeRequestJson : JsonCodec SubscribeRequest := {|
  json_Marshal := λ r, Some (print (JObj (SubscribeRequest_fields r)));
  json_Unmarshal := unmarshal_with SubscribeRequest_of;
  json_wf := SubscribeRequest_wf;
  json_roundtrip := SubscribeRequest_json_roundtrip;
|}.

(** ** FetchRequest *)

Definition FetchRequest_fields (r : FetchRequest) : list (bytes * json) :=
  put "topic" (jstr (fq_Topic r)) ++
  put "group" (jstr (fq_Group r)) ++
  put "partition" (JNum (fq_Partition r)) ++
  put "offset" (JNum (fq_Offset r)) ++
  put "max_count" (JNum (fq_MaxCount r)) ++
  put_omit (negb (fq_RawTransfer r)) "raw_transfer" (JBool (fq_RawTransfer r)) ++ [].

Definition FetchRequest_of (l : list (bytes * json)) : option FetchRequest :=
  match get_str "topic" l, get_str "group" l, get_int i32_min i32_max "partition" l with
  | Some x0, Some x1, Some x2 =>
        match get_int i64_min i64_max "offset" l, get_int i64_min i64_max "max_count" l, get_bool "raw_transfer" l with
        | Some x3, Some x4, Some x5 => Some (mkFetchRequest x0 x1 x2 x3 x4 x5)
        | _, _, _ => None
        end
  | _, _, _ => None
  end.

Definition FetchRequest_wf (r : FetchRequest) : Prop :=
  str_valid (fq_Topic r) = true ∧
  str_valid (fq_Group r) = true ∧
  is_i32 (fq_Partition r) ∧
  is_i64 (fq_Offset r) ∧
  is_i64 (fq_MaxCount r).

Lemma FetchRequest_of_fields r : FetchRequest_wf r → FetchRequest_of (FetchRequest_fields r) = Some r.
Proof.
  intros (H0 & H1 & H2 & H3 & H4). unfold FetchRequest_of, FetchRequest_fields. wire_bounds.
  rewrite (get_str_eq "topic" _ (fq_Topic r) false) by wire_solve.
  rewrite (get_str_eq "group" _ (fq_Group r) false) by wire_solve.
  rewrite (get_int_eq _ _ "partition" _ (fq_Partition r) false) by wire_solve.
  rewrite (get_int_eq _ _ "offset" _ (fq_Offset r) false) by wire_solve.
  rewrite (get_int_eq _ _ "max_count" _ (fq_MaxCount r) false) by wire_solve.
  rewrite (get_bool_eq "raw_transfer" _ (fq_RawTransfer r) (negb (fq_RawTransfer r))) by wire_solve.
  by destruct r.
Qed.

Lemma FetchRequest_valid r : FetchRequest_wf r → json_valid (JObj (FetchRequest_fields r)) = true.
Proof. intros (H0 & H1 & H2 & H3 & H4). unfold FetchRequest_fields. wire_valid. Qed.

Lemma FetchRequest_json_roundtrip r :
  FetchRequest_wf r → ∃ b, Some (print (JObj (FetchRequest_fields r))) = Some b ∧ unmarshal_with FetchRequest_of b = Some r.
Proof. intros Hr. by apply struct_roundtrip; [apply FetchRequest_valid|apply FetchRequest_of_fields]. Qed.

#[global] Instance FetchRequestJson : JsonCodec FetchRequest := {|
  json_Marshal := λ r, Some (print (JObj (FetchRequest_fields r)));
  json_Unmarshal := unmarshal_with FetchRequest_of;
  json_wf := FetchRequest_wf;
  json_roundtrip := FetchRequest_json_roundtrip;
|}.

(** ** CommitOffsetRequest *)

Definition CommitOffsetRequest_fields (r : CommitOffsetRequest) : list (bytes * json) :=
  put "group" (jstr (co_Group r)) ++
  put "consumer_id" (jstr (co_ConsumerID r)) ++
  put "topic" (jstr (co_Topic r)) ++
  put "partition" (JNum (co_Partition r)) ++
  put "offset" (JNum (co_Offset r)) ++ [].

Definition CommitOffsetRequest_of (l : list (bytes * json)) : option CommitOffsetRequest :=
  match get_str "group" l, get_str "consumer_id" l, get_str "topic" l with
  | Some x0, Some x1, Some x2 =>
        match get_int i32_min i32_max "partition" l, get_int i64_min i64_max "offset" l with
        | Some x3, Some x4 => Some (mkCommitOffsetRequest x0 x1 x2 x3 x4)
        | _, _ => None
        end
  | _, _, _ => None
  end.

Definition CommitOffsetRequest_wf (r : CommitOffsetRequest) : Prop :=
  str_valid (co_Group r) = true ∧
  str_valid (co_ConsumerID r) = true ∧
  str_valid (co_Topic r) = true ∧
  is_i32 (co_Partition r) ∧
  is_i64 (co_Offset r).

Lemma CommitOffsetRequest_of_fields r : CommitOffsetRequest_wf r → CommitOffsetRequest_of (CommitOffsetRequest_fields r) = Some r.
Proof.
  intros (H0 & H1 & H2 & H3 & H4). unfold CommitOffsetRequest_of, CommitOffsetRequest_fields. wire_bounds.
  rewrite (get_str_eq "group" _ (co_Group r) false) by wire_solve.
  rewrite (get_str_eq "consumer_id" _ (co_ConsumerID r) false) by wire_solve.
  rewrite (get_str_eq "topic" _ (co_Topic r) false) by wire_solve.
  rewrite (get_int_eq _ _ "partition" _ (co_Partition r) false) by wire_solve.
  rewrite (get_int_eq _ _ "offset" _ (co_Offset r) false) by wire_solve.
  by destruct r.
Qed.

Lemma CommitOffsetRequest_valid r : CommitOffsetRequest_wf r → json_valid (JObj (CommitOffsetRequest_fields r)) = true.
Proof. intros (H0 & H1 & H2 & H3 & H4). unfold CommitOffsetRequest_fields. wire_valid. Qed.

Lemma CommitOffsetRequest_json_roundtrip r :
  CommitOffsetRequest_wf r → ∃ b, Some (print (JObj (CommitOffsetRequest_fields r))) = Some b ∧ unmarshal_with CommitOffsetRequest_of b = Some r.
Proof. intros Hr. by apply struct_roundtrip; [apply CommitOffsetRequest_valid|apply CommitOffsetRequest_of_fields]. Qed.

#[global] Instance CommitOffsetRequestJson : JsonCodec CommitOffsetRequest := {|
  json_Marshal := λ r, Some (print (JObj (CommitOffsetRequest_fields r)));
  json_Unmarshal := unmarshal_with CommitOffsetRequest_of;
  json_wf := CommitOffsetRequest_wf;
  json_roundtrip := CommitOffsetRequest_json_roundtrip;
|}.

(** ** AckRequest *)

Definition AckRequest_fields (r : AckRequest) : list (bytes * json) :=
  put "consumer_id" (jstr (ack_ConsumerID r)) ++
  put "topic" (jstr (ack_Topic r)) ++
  put "partition" (JNum (ack_Partition r)) ++
  put "offset" (JNum (ack_Offset r)) ++ [].

Definition AckRequest_of (l : list (bytes * json)) : option AckRequest :=
  match get_str "consumer_id" l, get_str "topic" l, get_int i32_min i32_max "partition" l with
  | Some x0, Some x1, Some x2 =>
        match get_int i64_min i64_max "offset" l with
        | Some x3 => Some (mkAckRequest x0 x1 x2 x3)
        | _ => None
        end
  | _, _, _ => None
  end.

Definition AckRequest_wf (r : AckRequest) : Prop :=
  str_valid (ack_ConsumerID r) = true ∧
  str_valid (ack_Topic r) = true ∧
  is_i32 (ack_Partition r) ∧
  is_i64 (ack_Offset r).

Lemma AckRequest_of_fields r : AckRequest_wf r → AckRequest_of (AckRequest_fields r) = Some r.
Proof.
  intros (H0 & H1 & H2 & H3). unfold AckRequest_of, AckRequest_fields. wire_bounds.
  rewrite (get_str_eq "consumer_id" _ (ack_ConsumerID r) false) by wire_solve.
  rewrite (get_str_eq "topic" _ (ack_Topic r) false) by wire_solve.
  rewrite (get_int_eq _ _ "partition" _ (ack_Partition r) false) by wire_solve.
  rewrite (get_int_eq _ _ "offset" _ (ack_Offset r) false) by wire_solve.
  by destruct r.
Qed.

Lemma AckRequest_valid r : AckRequest_wf r → json_valid (JObj (AckRequest_fields r)) = true.
Proof. intros (H0 & H1 & H2 & H3). unfold AckRequest_fields. wire_valid. Qed.

Lemma AckRequest_json_roundtrip r :
  AckRequest_wf r → ∃ b, Some (print (JObj (AckRequest_fields r))) = Some b ∧ unmarshal_with AckRequest_of b = Some r.
Proof. intros Hr. by apply struct_roundtrip; [apply AckRequest_valid|apply AckRequest_of_fields]. Qed.

#[global] Instance AckRequestJson : JsonCodec AckRequest := {|
  json_Marshal := λ r, Some (print (JObj (AckRequest_fields r)));
  json_Unmarshal := unmarshal_with AckRequest_of;
  json_wf := AckRequest_wf;
  json_roundtrip := AckRequest_json_roundtrip;
|}.

(** ** NackRequest *)

Definition NackRequest_fields (r : NackRequest) : list (bytes * json) :=
  put "consumer_id" (jstr (nk_ConsumerID r)) ++
  put "topic" (jstr (nk_Topic r)) ++
  put "partition" (JNum (nk_Partition r)) ++
  put "offset" (JNum (nk_Offset r)) ++
  put_omit (bool_decide (nk_Group r = EmptyString)) "group" (jstr (nk_Group r)) ++
  put "requeue" (JBool (nk_Requeue r)) ++ [].

Definition NackRequest_of (l : list (bytes * json)) : option NackRequest :=
  match get_str "consumer_id" l, get_str "topic" l, get_int i32_min i32_max "partition" l with
  | Some x0, Some x1, Some x2 =>
        match get_int i64_min i64_max "offset" l, get_str "group" l, get_bool "requeue" l with
        | Some x3, Some x4, Some x5 => Some (mkNackRequest x0 x1 x2 x3 x4 x5)
        | _, _, _ => None
        end
  | _, _, _ => None
  end.

Definition NackRequest_wf (r : NackRequest) : Prop :=
  str_valid (nk_ConsumerID r) = true ∧
  str_valid (nk_Topic r) = true ∧
  is_i32 (nk_Partition r) ∧
  is_i64 (nk_Offset r) ∧
  str_valid (nk_Group r) = true.

Lemma NackRequest_of_fields r : NackRequest_wf r → NackRequest_of (NackRequest_fields r) = Some r.
Proof.
  intros (H0 & H1 & H2 & H3 & H4). unfold NackRequest_of, NackRequest_fields. wire_bounds.
  rewrite (get_str_eq "consumer_id" _ (nk_ConsumerID r) false) by wire_solve.
  rewrite (get_str_eq "topic" _ (nk_Topic r) false) by wire_solve.
  rewrite (get_int_eq _ _ "partition" _ (nk_Partition r) false) by wire_solve.
  rewrite (get_int_eq _ _ "offset" _ (nk_Offset r) false) by wire_solve.
  rewrite (get_str_eq "group" _ (nk_Group r) (bool_decide (nk_Group r = EmptyString))) by wire_solve.
  rewrite (get_bool_eq "requeue" _ (nk_Requeue r) false) by wire_solve.
  by destruct r.
Qed.

Lemma NackRequest_valid r : NackRequest_wf r → json_valid (JObj (NackRequest_fields r)) = true.
Proof. intros (H0 & H1 & H2 & H3 & H4). unfold NackRequest_fields. wire_valid. Qed.

Lemma NackRequest_json_roundtrip r :
  NackRequest_wf r → ∃ b, Some (print (JObj (NackRequest_fields r))) = Some b ∧ unmarshal_with NackRequest_of b = Some r.
Proof. intros Hr. by apply struct_roundtrip; [apply NackRequest_valid|apply NackRequest_of_fields]. Qed.

#[global] Instance NackRequestJson : JsonCodec NackRequest := {|
  json_Marshal := λ r, Some (print (JObj (NackRequest_fields r)));
  json_Unmarshal := unmarshal_with NackRequest_of;
  json_wf := NackRequest_wf;
  json_roundtrip := NackRequest_json_roundtrip;
|}.

(** ** CreateTopicRequest *)

Definition CreateTopicRequest_fields (r : CreateTopicRequest) : list (bytes * json) :=
  put "name" (jstr (ct_Name r)) ++
  put "partitions" (JNum (ct_Partitions r)) ++
  put "replication_factor" (JNum (ct_ReplicationFactor r)) ++
  put_omit (ct_RetentionHours r =? 0) "retention_hours" (JNum (ct_RetentionHours r)) ++
  put_omit (bool_decide (ct_CompactionMode r = EmptyString)) "compaction_mode" (jstr (ct_CompactionMode r)) ++ [].

Definition CreateTopicRequest_of (l : list (bytes * json)) : option CreateTopicRequest :=
  match get_str "name" l, get_int i64_min i64_max "partitions" l, get_int i64_min i64_max "replication_factor" l with
  | Some x0, Some x1, Some x2 =>
        match get_int i64_min i64_max "retention_hours" l, get_str "compaction_mode" l with
        | Some x3, Some x4 => Some (mkCreateTopicRequest x0 x1 x2 x3 x4)
        | _, _ => None
        end
  | _, _, _ => None
  end.

Definition CreateTopicRequest_wf (r : CreateTopicRequest) : Prop :=
  str_valid (ct_Name r) = true ∧
  is_i64 (ct_Partitions r) ∧
  is_i64 (ct_ReplicationFactor r) ∧
  is_i64 (ct_RetentionHours r) ∧
  str_valid (ct_CompactionMode r) = true.

Lemma CreateTopicRequest_of_fields r : CreateTopicRequest_wf r → CreateTopicRequest_of (CreateTopicRequest_fields r) = Some r.
Proof.
  intros (H0 & H1 & H2 & H3 & H4). unfold CreateTopicRequest_of, CreateTopicRequest_fields. wire_bounds.
  rewrite (get_str_eq "name" _ (ct_Name r) false) by wire_solve.
  rewrite (get_int_eq _ _ "partitions" _ (ct_Partitions r) false) by wire_solve.
  rewrite (get_int_eq _ _ "replication_factor" _ (ct_ReplicationFactor r) false) by wire_solve.
  rewrite (get_int_eq _ _ "retention_hours" _ (ct_RetentionHours r) (ct_RetentionHours r =? 0)) by wire_solve.
  rewrite (get_str_eq "compaction_mode" _ (ct_CompactionMode r) (bool_decide (ct_CompactionMode r = EmptyString))) by wire_solve.
  by destruct r.
Qed.

Lemma CreateTopicRequest_valid r : CreateTopicRequest_wf r → json_valid (JObj (CreateTopicRequest_fields r)) = true.
Proof. intros (H0 & H1 & H2 & H3 & H4). unfold CreateTopicRequest_fields. wire_valid. Qed.

Lemma CreateTopicRequest_json_roundtrip r :
  CreateTopicRequest_wf r → ∃ b, Some (print (JObj (CreateTopicRequest_fields r))) = Some b ∧ unmarshal_with CreateTopicRequest_of b = Some r.
Proof. intros Hr. by apply struct_roundtrip; [apply CreateTopicRequest_valid|apply CreateTopicRequest_of_fields]. Qed.

#[global] Instance CreateTopicRequestJson : JsonCodec CreateTopicRequest := {|
  json_Marshal := λ r, Some (print (JObj (CreateTopicRequest_fields r)));
  json_Unmarshal := unmarshal_with CreateTopicRequest_of;
  json_wf := CreateTopicRequest_wf;
  json_roundtrip := CreateTopicRequest_json_roundtrip;
|}.

(** ** DeleteTopicRequest *)

Definition DeleteTopicRequest_fields (r : DeleteTopicRequest) : list (bytes * json) :=
  put "name" (jstr (dt_Name r)) ++ [].

Definition DeleteTopicRequest_of (l : list (bytes * json)) : option DeleteTopicRequest :=
  match get_str "name" l with
  | Some x0 => Some (mkDeleteTopicRequest x0)
  | _ => None
  end.

Definition DeleteTopicRequest_wf (r : DeleteTopicRequest) : Prop :=
  str_valid (dt_Name r) = true.

Lemma DeleteTopicRequest_of_fields r : DeleteTopicRequest_wf r → DeleteTopicRequest_of (DeleteTopicRequest_fields r) = Some r.
Proof.
  intros H0. unfold DeleteTopicRequest_wf in H0. unfold DeleteTopicRequest_of, DeleteTopicRequest_fields. wire_bounds.
  rewrite (get_str_eq "name" _ (dt_Name r) false) by wire_solve.
  by destruct r.
Qed.

Lemma DeleteTopicRequest_valid r : DeleteTopicRequest_wf r → json_valid (JObj (DeleteTopicRequest_fields r)) = true.
Proof. intros H0. unfold DeleteTopicRequest_wf in H0. unfold DeleteTopicRequest_fields. wire_valid. Qed.

Lemma DeleteTopicRequest_json_roundtrip r :
  DeleteTopicRequest_wf r → ∃ b, Some (print (JObj (DeleteTopicRequest_fields r))) = Some b ∧ unmarshal_with DeleteTopicRequest_of b = Some r.
Proof. intros Hr. by apply struct_roundtrip; [apply DeleteTopicRequest_valid|apply DeleteTopicRequest_of_fields]. Qed.

#[global] Instance DeleteTopicRequestJson : JsonCodec DeleteTopicRequest := {|
  json_Marshal := λ r, Some (print (JObj (DeleteTopicRequest_fields r)));
  json_Unmarshal := unmarshal_with DeleteTopicRequest_of;
  json_wf := DeleteTopicRequest_wf;
  json_roundtrip := DeleteTopicRequest_json_roundtrip;
|}.

(** ** SeekRequest *)

Definition SeekRequest_fields (r : SeekRequest) : list (bytes * json) :=
  put "topic" (jstr (sk_Topic r)) ++
  put "group" (jstr (sk_Group r)) ++
  put "timestamp_ns" (JNum (sk_TimestampNs r)) ++
  put "to_end" (JBool (sk_ToEnd r)) ++
  put_opt "offset" (sk_Offset r) ++ [].

Definition SeekRequest_of (l : list (bytes * json)) : option SeekRequest :=
  match get_str "topic" l, get_str "group" l, get_int i64_min i64_max "timestamp_ns" l with
  | Some x0, Some x1, Some x2 =>
        match get_bool "to_end" l, get_opt_int i64_min i64_max "offset" l with
        | Some x3, Some x4 => Some (mkSeekRequest x0 x1 x2 x3 x4)
        | _, _ => None
        end
  | _, _, _ => None
  end.

Definition SeekRequest_wf (r : SeekRequest) : Prop :=
  str_valid (sk_Topic r) = true ∧
  str_valid (sk_Group r) = true ∧
  is_i64 (sk_TimestampNs r) ∧
  (∀ z, sk_Offset r = Some z → i64_min <= z <= i64_max).

Lemma SeekRequest_of_fields r : SeekRequest_wf r → SeekRequest_of (SeekRequest_fields r) = Some r.
Proof.
  intros (H0 & H1 & H2 & H3). unfold SeekRequest_of, SeekRequest_fields. wire_bounds.
  rewrite (get_str_eq "topic" _ (sk_Topic r) false) by wire_solve.
  rewrite (get_str_eq "group" _ (sk_Group r) false) by wire_solve.
  rewrite (get_int_eq _ _ "timestamp_ns" _ (sk_TimestampNs r) false) by wire_solve.
  rewrite (get_bool_eq "to_end" _ (sk_ToEnd r) false) by wire_solve.
  rewrite (get_opt_int_eq _ _ "offset" _ (sk_Offset r)) by wire_solve.
  by destruct r.
Qed.

Lemma SeekRequest_valid r : SeekRequest_wf r → json_valid (JObj (SeekRequest_fields r)) = true.
Proof. intros (H0 & H1 & H2 & H3). unfold SeekRequest_fields. wire_valid. Qed.

Lemma SeekRequest_json_roundtrip r :
  SeekRequest_wf r → ∃ b, Some (print (JObj (SeekRequest_fields r))) = Some b ∧ unmarshal_with SeekRequest_of b = Some r.
Proof. intros Hr. by apply struct_roundtrip; [apply SeekRequest_valid|apply SeekRequest_of_fields]. Qed.

#[global] Instance SeekRequestJson : JsonCodec SeekRequest := {|
  json_Marshal := λ r, Some (print (JObj (SeekRequest_fields r)));
  json_Unmarshal := unmarshal_with SeekRequest_of;
  json_wf := SeekRequest_wf;
  json_roundtrip := SeekRequest_json_roundtrip;
|}.

(** ** ResetGroupRequest *)

Definition ResetGroupRequest_fields (r : ResetGroupRequest) : list (bytes * json) :=
  put "group" (jstr (rg_Group r)) ++
  put "topic" (jstr (rg_Topic r)) ++ [].

Definition ResetGroupRequest_of (l : list (bytes * json)) : option ResetGroupRequest :=
  match get_str "group" l, get_str "topic" l with
  | Some x0, Some x1 => Some (mkResetGroupRequest x0 x1)
  | _, _ => None
  end.

Definition ResetGroupRequest_wf (r : ResetGroupRequest) : Prop :=
  str_valid (rg_Group r) = true ∧
  str_valid (rg_Topic r) = true.

Lemma ResetGroupRequest_of_fields r : ResetGroupRequest_wf r → ResetGroupRequest_of (ResetGroupRequest_fields r) = Some r.
Proof.
  intros (H0 & H1). unfold ResetGroupRequest_of, ResetGroupRequest_fields. wire_bounds.
  rewrite (get_str_eq "group" _ (rg_Group r) false) by wire_solve.
  rewrite (get_str_eq "topic" _ (rg_Topic r) false) by wire_solve.
  by destruct r.
Qed.

Lemma ResetGroupRequest_valid r : ResetGroupRequest_wf r → json_valid (JObj (ResetGroupRequest_fields r)) = true.
Proof. intros (H0 & H1). unfold ResetGroupRequest_fields. wire_valid. Qed.

Lemma ResetGroupRequest_json_roundtrip r :
  ResetGroupRequest_wf r → ∃ b, Some (print (JObj (ResetGroupRequest_fields r))) = Some b ∧ unmarshal_with ResetGroupRequest_of b = Some r.
Proof. intros Hr. by apply struct_roundtrip; [apply ResetGroupRequest_valid|apply ResetGroupRequest_of_fields]. Qed.

#[global] Instance ResetGroupRequestJson : JsonCodec ResetGroupRequest := {|
  json_Marshal := λ r, Some (print (JObj (ResetGroupRequest_fields r)));
  json_Unmarshal := unmarshal_with ResetGroupRequest_of;
  json_wf := ResetGroupRequest_wf;
  json_roundtrip := ResetGroupRequest_json_roundtrip;
|}.

(** ** BatchPublishRequest *)

Definition BatchPublishRequest_fields (r : BatchPublishRequest) : list (bytes * json) :=
  put "messages" (jobjs PublishRequest_fields (bp_Messages r)) ++ [].

Definition BatchPublishRequest_of (l : list (bytes * json)) : option BatchPublishRequest :=
  mkBatchPublishRequest <$> get_objs PublishRequest_of "messages" l.

Definition BatchPublishRequest_wf (r : BatchPublishRequest) : Prop :=
  Forall PublishRequest_wf (bp_Messages r).

Lemma BatchPublishRequest_json_roundtrip r :
  BatchPublishRequest_wf r →
  ∃ b, Some (print (JObj (BatchPublishRequest_fields r))) = Some b ∧
       unmarshal_with BatchPublishRequest_of b = Some r.
Proof.
  intros Hr. apply struct_roundtrip.
  - unfold BatchPublishRequest_fields. rewrite members_valid_put.
    rewrite jobjs_valid; [done|]. eapply Forall_impl; [exact Hr|]. apply PublishRequest_valid.
  - unfold BatchPublishRequest_of, BatchPublishRequest_fields.
    rewrite (get_objs_eq PublishRequest_of PublishRequest_fields "messages" _ (bp_Messages r)).
    + by destruct r.
    + by wire_eval.
    + eapply Forall_impl; [exact Hr|]. apply PublishRequest_of_fields.
Qed.

#[global] Instance BatchPublishRequestJson : JsonCodec BatchPublishRequest := {|
  json_Marshal := λ r, Some (print (JObj (BatchPublishRequest_fields r)));
  json_Unmarshal := unmarshal_with BatchPublishRequest_of;
  json_wf := BatchPublishRequest_wf;
  json_roundtrip := BatchPublishRequest_json_roundtrip;
|}.
