(* ===== verification/Cluster.v ===== *)
(** * Cluster state: [internal/cluster/{member,membership,isr,quorum,partition_map}.go]

    The members a node knows, the in-sync replicas of a partition and the wait
    for a quorum of them, and the assignment of partitions to nodes with its
    JSON form.  Each object has a lock of its own, taken for the whole of every
    method: a method is a function on the state. *)

From Stdlib Require Import DecimalString.
From S2P Require Import Prelude GoLib Json GoTime.

Local Open Scope Z_scope.

(** ** Members *)

(** [JoinedAt] is the time in nanoseconds. *)
Record Member := mkMember {
  mb_NodeID : string;
  mb_Addr : string;
  mb_HTTPAddr : string;
  mb_JoinedAt : Z;
}.

#[global] Instance Member_eq_dec : EqDecision Member.
Proof. solve_decision. Defined.

Definition zero_Member : Member := mkMember EmptyString EmptyString EmptyString zero_time.

Record Membership := mkMembership {
  ms_self : Member;
  ms_members : gmap string Member;
}.

Definition NewMembership (self : Member) : Membership :=
  mkMembership self {[ mb_NodeID self := self ]}.

Definition Membership_Self (m : Membership) : Member := ms_self m.

Definition Membership_Add (m : Membership) (member : Member) : Membership :=
  mkMembership (ms_self m) (<[mb_NodeID member := member]> (ms_members m)).

Definition Membership_Remove (m : Membership) (nodeID : string) : Membership :=
  if bool_decide (nodeID = mb_NodeID (ms_self m)) then m
  else mkMembership (ms_self m) (delete nodeID (ms_members m)).

Definition Membership_Get (m : Membership) (nodeID : string) : option Member := ms_members m !! nodeID.

(** The order of [sort.Slice] on [NodeID]. *)
Definition member_le : relation Member := λ a b, String.le (mb_NodeID a) (mb_NodeID b).

#[global] Instance member_le_dec a b : Decision (member_le a b) :=
  decide (String.le (mb_NodeID a) (mb_NodeID b)).

Definition Membership_All (m : Membership) : list Member :=
  merge_sort member_le ((map_to_list (ms_members m)).*2).

Definition Membership_Len (m : Membership) : Z := Z.of_nat (size (ms_members m)).

(** ** In-sync replicas *)

Record ISRState := mkISRState {
  is_NodeID : string;
  is_LastOffset : Z;
  is_LastContact : Z;
}.

Record ISRTracker := mkISRTracker {
  it_replicas : gmap string ISRState;
  it_maxLagMessages : Z;
  it_maxLagMs : Z;
}.

Definition NewISRTracker (maxLagMessages maxLagMs : Z) : ISRTracker :=
  mkISRTracker ∅ maxLagMessages (i64 (maxLagMs * millisecond)).

Definition ISRTracker_Update (now : Z) (t : ISRTracker) (nodeID : string) (offset : Z) : ISRTracker :=
  mkISRTracker (<[nodeID := mkISRState nodeID offset now]> (it_replicas t))
    (it_maxLagMessages t) (it_maxLagMs t).

Definition in_sync (now : Z) (t : ISRTracker) (leaderOffset : Z) (s : ISRState) : bool :=
  (i64 (leaderOffset - is_LastOffset s) <=? it_maxLagMessages t) &&
  (time_sub now (is_LastContact s) <=? it_maxLagMs t).

(** The test of the loop in [ISR]. *)
Definition isr_includes (now : Z) (t : ISRTracker) (leaderID : string) (leaderOffset : Z)
    (nodeID : string) : bool :=
  negb (bool_decide (nodeID = leaderID)) &&
  match it_replicas t !! nodeID with
  | Some s => in_sync now t leaderOffset s
  | None => false
  end.

(** [order] is the order in which the replica map is ranged over. *)
Definition ISRTracker_ISR (now : Z) (order : list string) (t : ISRTracker) (leaderID : string)
    (leaderOffset : Z) : list string :=
  leaderID :: filter (λ id, isr_includes now t leaderID leaderOffset id = true) order.

Definition ISRTracker_Remove (t : ISRTracker) (nodeID : string) : ISRTracker :=
  mkISRTracker (delete nodeID (it_replicas t)) (it_maxLagMessages t) (it_maxLagMs t).

Definition ISRTracker_Snapshot (order : list string) (t : ISRTracker) : list ISRState :=
  omap (λ id, it_replicas t !! id) order.

(** ** The wait for a quorum *)

Inductive quorum_outcome :=
| QuorumReached
| QuorumCtx
(** Still polling when the rounds are used up. *)
| QuorumWaiting.

(** One event of the [select]: a tick with the clock, the map order and the
    tracker as they are then, or the end of the context. *)
Inductive quorum_event :=
| QTick (now : Z) (order : list string) (t : ISRTracker)
| QDone.

Fixpoint quorum_loop (leaderID : string) (leaderOffset quorum : Z) (evs : list quorum_event) :
    quorum_outcome :=
  match evs with
  | [] => QuorumWaiting
  | QDone :: _ => QuorumCtx
  | QTick now order t :: evs' =>
      if quorum <=? zlen (ISRTracker_ISR now order t leaderID leaderOffset) then QuorumReached
      else quorum_loop leaderID leaderOffset quorum evs'
  end.

Definition WaitForQuorum (now : Z) (order : list string) (isr : ISRTracker) (leaderID : string)
    (leaderOffset quorum : Z) (evs : list quorum_event) : quorum_outcome :=
  if quorum <=? zlen (ISRTracker_ISR now order isr leaderID leaderOffset) then QuorumReached
  else quorum_loop leaderID leaderOffset quorum evs.

(** ** The partition map

    A nil map of the code reads as the empty one. *)

Record PartitionMap := mkPartitionMap { pm_owner : gmap string (gmap Z string) }.

#[global] Instance PartitionMap_eq_dec : EqDecision PartitionMap.
Proof. solve_decision. Defined.

(** [nodes[i%len(nodes)]] is in range, [nodes] being non-empty there. *)
Definition assign_partition (nodes : list string) (a : gmap Z string) (i : Z) : gmap Z string :=
  match round_robin nodes i with
  | Some n => <[i32 i := n]> a
  | None => a
  end.

Definition PartitionMap_Assign (pm : PartitionMap) (topic : string) (partitions : Z)
    (nodes : list string) : PartitionMap :=
  if bool_decide (nodes = []) || (partitions <=? 0) then pm
  else mkPartitionMap
    (<[topic := foldl (assign_partition nodes) ∅ (seqZ 0 partitions)]> (pm_owner pm)).

Definition PartitionMap_Owner (pm : PartitionMap) (topic : string) (partition : Z) : string :=
  default EmptyString (pm_owner pm !! topic ≫= (.!! partition)).

(** The partitions of one assignment that [nodeID] owns; a topic without one
    gets no entry. *)
Definition owned_partitions (nodeID : string) (assignment : gmap Z string) : option (list Z) :=
  match (map_to_list (filter (λ kv, kv.2 = nodeID) assignment)).*1 with
  | [] => None
  | ps => Some (merge_sort Z.le ps)
  end.

Definition PartitionMap_OwnedBy (pm : PartitionMap) (nodeID : string) : gmap string (list Z) :=
  omap (owned_partitions nodeID) (pm_owner pm).

(** *** JSON *)

Definition topic_key_le : relation (string * gmap Z string) := λ a b, String.le a.1 b.1.

#[global] Instance topic_key_le_dec a b : Decision (topic_key_le a b) := decide (String.le a.1 b.1).

(** One topic: partition numbers become string keys, by [strconv.Itoa]. *)
Definition key_strings (partitions : gmap Z string) : gmap string string := kmap fmt_d partitions.

Definition topic_json (partitions : gmap Z string) : json :=
  jsmap (key_strings partitions).

(** [partitionMapJSON], whose maps [json.Marshal] writes sorted by key. *)
Definition PartitionMap_fields (pm : PartitionMap) : list (bytes * json) :=
  put "owner" (JObj ((λ kv, (bytes_of_string kv.1, topic_json kv.2)) <$>
    merge_sort topic_key_le (map_to_list (pm_owner pm)))) ++ [].

Definition PartitionMap_MarshalJSON (pm : PartitionMap) : bytes := print (JObj (PartitionMap_fields pm)).

(** [map[string]map[string]string]. *)
Fixpoint topics_of_members (l : list (bytes * json)) : option (list (string * gmap string string)) :=
  match l with
  | [] => Some []
  | (k, v) :: l' =>
      match (match v with
             | JNull => Some ∅
             | JObj m => smap_of_members m
             | _ => None
             end), topics_of_members l' with
      | Some m, Some r => Some ((string_of_bytes k, m) :: r)
      | _, _ => None
      end
  end.

Definition partitionMapJSON_of (l : list (bytes * json)) : option (gmap string (gmap string string)) :=
  match jfield "owner" l with
  | None | Some JNull => Some ∅
  | Some (JObj m) =>
      match topics_of_members m with
      | Some r => Some (list_to_map (reverse r))
      | None => None
      end
  | _ => None
  end.

(** The loop over one topic: a key that is no number is an error. *)
Fixpoint assignment_loop (l : list (string * string)) (a : gmap Z string) : option (gmap Z string) :=
  match l with
  | [] => Some a
  | (pStr, nodeID) :: l' =>
      match ParseInt pStr with
      | Some p => assignment_loop l' (<[i32 p := nodeID]> a)
      | None => None
      end
  end.

Fixpoint owner_loop (l : list (string * gmap string string)) (o : gmap string (gmap Z string)) :
    option (gmap string (gmap Z string)) :=
  match l with
  | [] => Some o
  | (topic, partitions) :: l' =>
      match assignment_loop (map_to_list partitions) ∅ with
      | Some a => owner_loop l' (<[topic := a]> o)
      | None => None
      end
  end.

(** From the members of the document.  Ranging over the decoded maps: the order
    would show only where two keys denote one partition, such as ["1"] and
    ["+1"]. *)
Definition PartitionMap_of (l : list (bytes * json)) : option PartitionMap :=
  match partitionMapJSON_of l with
  | Some i => mkPartitionMap <$> owner_loop (map_to_list i) ∅
  | None => None
  end.

Definition PartitionMap_UnmarshalJSON (data : bytes) : option PartitionMap :=
  unmarshal_with PartitionMap_of data.

(** ** Facts: members *)

(** Every member is stored under its own [NodeID], and the node itself is one. *)
Definition membership_ok (m : Membership) : Prop :=
  map_Forall (λ k mb, mb_NodeID mb = k) (ms_members m) ∧
  is_Some (ms_members m !! mb_NodeID (ms_self m)).

Lemma NewMembership_ok self : membership_ok (NewMembership self).
Proof.
  split; simpl; [|by rewrite lookup_singleton_eq].
  intros k mb [<- <-]%lookup_singleton_Some. done.
Qed.

Lemma Membership_Add_ok m mb : membership_ok m → membership_ok (Membership_Add m mb).
Proof.
  intros [Hk Hs]. split; simpl.
  - apply map_Forall_insert_2; done.
  - destruct (decide (mb_NodeID mb = mb_NodeID (ms_self m))) as [->|Hne];
      [by rewrite lookup_insert_eq|by rewrite lookup_insert_ne].
Qed.

Lemma Membership_Remove_ok m id : membership_ok m → membership_ok (Membership_Remove m id).
Proof.
  intros [Hk Hs]. unfold Membership_Remove. case_bool_decide as Hid; [done|]. split; simpl.
  - by apply map_Forall_delete.
  - by rewrite lookup_delete_ne.
Qed.

Lemma Membership_All_elem m mb :
  membership_ok m → mb ∈ Membership_All m ↔ ms_members m !! mb_NodeID mb = Some mb.
Proof.
  intros [Hk _]. unfold Membership_All. rewrite merge_sort_Permutation, list_elem_of_fmap. split.
  - intros ([k mb'] & -> & Hin%elem_of_map_to_list). simpl. by rewrite (Hk _ _ Hin).
  - intros Hl. exists (mb_NodeID mb, mb). by rewrite elem_of_map_to_list.
Qed.

(** The ids [ReassignAll] and [AssignPartitions] work with. *)
Definition node_ids (m : Membership) : list string :=
  merge_sort String.le (mb_NodeID <$> Membership_All m).

Lemma node_ids_elem m id : membership_ok m → id ∈ node_ids m ↔ is_Some (ms_members m !! id).
Proof.
  intros Hok. unfold node_ids. rewrite merge_sort_Permutation, list_elem_of_fmap. split.
  - intros (mb & -> & Hin%Membership_All_elem); [by eexists|done].
  - intros [mb Hmb]. pose proof (proj1 Hok _ _ Hmb) as Hid. simpl in Hid. subst id.
    exists mb. split; [done|]. by apply Membership_All_elem.
Qed.

Lemma node_ids_nodup m : membership_ok m → NoDup (node_ids m).
Proof.
  intros [Hk _]. unfold node_ids, Membership_All. rewrite !merge_sort_Permutation.
  enough (mb_NodeID <$> (map_to_list (ms_members m)).*2 = (map_to_list (ms_members m)).*1) as ->
    by apply NoDup_fst_map_to_list.
  rewrite <- list_fmap_compose. apply list_fmap_ext. intros i [k mb] Hi.
  apply list_elem_of_lookup_2, elem_of_map_to_list in Hi. by apply Hk.
Qed.

Lemma node_ids_nonempty m : membership_ok m → node_ids m ≠ [].
Proof.
  intros Hok Hnil. pose proof (proj2 Hok) as Hs.
  apply node_ids_elem in Hs; [|done]. rewrite Hnil in Hs. by apply not_elem_of_nil in Hs.
Qed.

(** ** Facts: assignments *)

Lemma assign_fold_lookup nodes n p :
  nodes ≠ [] → 0 <= n <= 2 ^ 31 →
  foldl (assign_partition nodes) ∅ (seqZ 0 n) !! p =
    if decide (0 <= p < n) then round_robin nodes p else None.
Proof.
  intros Hne Hn. rewrite <- (Z2Nat.id n) in * by lia. revert Hn.
  induction (Z.to_nat n) as [|k IH]; intros Hn.
  { rewrite decide_False by lia. done. }
  rewrite seqZ_S, foldl_app, Z.add_0_l. cbn [foldl]. unfold assign_partition at 1.
  destruct (round_robin_some nodes (Z.of_nat k) Hne) as (x & Hx & _). rewrite Hx.
  rewrite i32_id by (unfold is_i32; lia).
  destruct (decide (p = Z.of_nat k)) as [->|Hp].
  - by rewrite lookup_insert_eq, decide_True by lia.
  - rewrite lookup_insert_ne, IH by lia. repeat case_decide; try done; lia.
Qed.

Lemma Assign_owner pm topic n nodes t p :
  nodes ≠ [] → 0 < n <= 2 ^ 31 →
  PartitionMap_Owner (PartitionMap_Assign pm topic n nodes) t p =
    if bool_decide (t = topic)
    then default EmptyString (if decide (0 <= p < n) then round_robin nodes p else None)
    else PartitionMap_Owner pm t p.
Proof.
  intros Hne Hn. unfold PartitionMap_Owner, PartitionMap_Assign.
  rewrite bool_decide_eq_false_2 by done. rewrite (proj2 (Z.leb_gt n 0)) by lia. cbn [orb pm_owner].
  case_bool_decide as Ht.
  - subst. rewrite lookup_insert_eq. cbn [mbind option_bind]. by rewrite assign_fold_lookup by (done || lia).
  - by rewrite lookup_insert_ne.
Qed.

(** ** Facts: the quorum *)

(** A quorum taken from the in-sync set itself is there at the first look. *)
Lemma quorum_of_isr now order t leader off evs :
  WaitForQuorum now order t leader off
    (zlen (ISRTracker_ISR now order t leader off) / 2 + 1) evs = QuorumReached.
Proof.
  unfold WaitForQuorum. rewrite (proj2 (Z.leb_le _ _)); [done|].
  unfold ISRTracker_ISR. rewrite zlen_cons. set (k := zlen (filter _ order)).
  assert (0 <= k) by apply zlen_nonneg.
  pose proof (Z.div_mod (k + 1) 2). pose proof (Z.mod_pos_bound (k + 1) 2). lia.
Qed.

(** ** Facts: the JSON form *)

Lemma string_of_digits_no_plus d : Byte.x2b ∉ bytes_of_string (NilZero.string_of_uint d).
Proof.
  assert (∀ u, Byte.x2b ∉ bytes_of_string (NilEmpty.string_of_uint u)) as Hu.
  { intros u. induction u; simpl; [apply not_elem_of_nil|..];
      (apply not_elem_of_cons; split; [discriminate|done]). }
  destruct d; try apply Hu. simpl. apply not_elem_of_cons. split; [discriminate|apply not_elem_of_nil].
Qed.

Lemma ParseInt_fmt_d z : is_i64 z → ParseInt (fmt_d z) = Some z.
Proof.
  intros Hz. unfold ParseInt.
  assert (Byte.x2b ∉ bytes_of_string (fmt_d z)) as Hp.
  { unfold fmt_d. destruct (Z.to_int z) as [d|d]; simpl; [apply string_of_digits_no_plus|].
    apply not_elem_of_cons. split; [discriminate|apply string_of_digits_no_plus]. }
  assert (match bytes_of_string (fmt_d z) with
          | Byte.x2b :: Byte.x2d :: _ => None
          | Byte.x2b :: t => scan_d (string_of_bytes t)
          | _ => scan_d (fmt_d z)
          end = scan_d (fmt_d z)) as ->.
  { destruct (bytes_of_string (fmt_d z)) as [|b t]; [done|].
    apply not_elem_of_cons in Hp as [Hp _]. by destruct b. }
  rewrite scan_fmt_d. unfold is_i64 in Hz.
  by rewrite (proj2 (Z.leb_le _ _)), (proj2 (Z.ltb_lt _ _)) by lia.
Qed.

#[global] Instance fmt_d_Inj : Inj eq eq fmt_d.
Proof. intros z z'. apply fmt_d_inj. Qed.

(** A loop that inserts builds the map of the list, later bindings winning. *)
Lemma foldl_insert {K A} `{Countable K} (l : list (K * A)) (m : gmap K A) :
  foldl (λ m kv, <[kv.1 := kv.2]> m) m l = list_to_map (reverse l) ∪ m.
Proof.
  revert m. induction l as [|[k v] l IH] using rev_ind; intros m.
  { change (m = ∅ ∪ m). by rewrite (left_id_L ∅ (∪)). }
  rewrite foldl_app, IH, reverse_app. change (reverse [(k, v)]) with [(k, v)].
  cbn [foldl fst snd app]. by rewrite list_to_map_cons, insert_union_l.
Qed.

Lemma foldl_insert_map {K A} `{Countable K} (m : gmap K A) (l : list (K * A)) :
  l ≡ₚ map_to_list m → foldl (λ m kv, <[kv.1 := kv.2]> m) ∅ l = m.
Proof.
  intros Hl. rewrite foldl_insert, (right_id_L ∅ (∪)).
  rewrite <- (list_to_map_to_list m). apply list_to_map_proper; rewrite reverse_Permutation, Hl;
    [apply NoDup_fst_map_to_list|done].
Qed.

Definition i32_keys (a : gmap Z string) : Prop := map_Forall (λ p _, is_i32 p) a.

Lemma assignment_loop_fmt (l : list (Z * string)) a0 :
  Forall (λ kv, is_i32 kv.1) l →
  assignment_loop (prod_map fmt_d id <$> l) a0 = Some (foldl (λ m kv, <[kv.1 := kv.2]> m) a0 l).
Proof.
  intros Hl. revert a0. induction Hl as [|[p v] l Hp _ IH]; intros a0; [done|].
  rewrite fmap_cons. cbn [assignment_loop prod_map fst snd id foldl].
  assert (is_i64 p) by (unfold is_i32, is_i64 in *; simpl in *; lia).
  rewrite ParseInt_fmt_d, (i32_id p) by done. apply IH.
Qed.

Lemma assignment_roundtrip (a : gmap Z string) :
  i32_keys a → assignment_loop (map_to_list (key_strings a)) ∅ = Some a.
Proof.
  intros Ha. pose proof (map_to_list_kmap fmt_d a : map_to_list (key_strings a) ≡ₚ _) as Hp.
  apply Permutation.Permutation_map_inv in Hp as (l & Hl & Hperm).
  etrans; [apply (f_equal (λ x, assignment_loop x ∅)), Hl|].
  etrans; [apply assignment_loop_fmt|].
  - rewrite <- Hperm. apply Forall_forall. intros [p v] Hin%elem_of_map_to_list. by apply (Ha _ _ Hin).
  - f_equal. by apply foldl_insert_map.
Qed.

Lemma owner_loop_fmap (l : list (string * gmap Z string)) o :
  Forall (λ kv, i32_keys kv.2) l →
  owner_loop (prod_map id (key_strings) <$> l) o = Some (foldl (λ m kv, <[kv.1 := kv.2]> m) o l).
Proof.
  intros Hl. revert o. induction Hl as [|[t a] l Ha _ IH]; intros o; [done|].
  rewrite fmap_cons. cbn [owner_loop prod_map fst snd id foldl].
  rewrite assignment_roundtrip by done. apply IH.
Qed.

Lemma owner_roundtrip (o : gmap string (gmap Z string)) :
  map_Forall (λ _ a, i32_keys a) o →
  owner_loop (map_to_list (key_strings <$> o : gmap string (gmap string string))) ∅ = Some o.
Proof.
  intros Ho. rewrite map_to_list_fmap, owner_loop_fmap.
  - f_equal. by apply foldl_insert_map.
  - apply Forall_forall. intros [t a] Hin%elem_of_map_to_list. by apply (Ho _ _ Hin).
Qed.

Lemma topics_of_members_fmap (l : list (string * gmap Z string)) :
  topics_of_members ((λ kv, (bytes_of_string kv.1, topic_json kv.2)) <$> l) =
    Some (prod_map id (key_strings) <$> l).
Proof.
  induction l as [|[t a] l IH]; [done|]. rewrite !fmap_cons. cbn [topics_of_members fst snd].
  rewrite IH. unfold topic_json at 1. unfold jsmap at 1. cbv iota beta.
  by rewrite smap_roundtrip, string_of_bytes_of_string.
Qed.

(** The maps the JSON form reproduces: topics and nodes valid UTF-8. *)
Definition PartitionMap_wf (pm : PartitionMap) : Prop :=
  map_Forall (λ t a, str_valid t = true ∧ i32_keys a ∧ map_Forall (λ _ n, str_valid n = true) a)
    (pm_owner pm).

Lemma fmt_d_valid z : str_valid (fmt_d z) = true.
Proof.
  apply utf8_valid_ascii. destruct (fmt_d_num z) as [Hn _]. eapply Forall_impl; [exact Hn|].
  intros b. destruct b; simpl; done.
Qed.

Lemma PartitionMap_fields_valid pm :
  PartitionMap_wf pm → json_valid (JObj (PartitionMap_fields pm)) = true.
Proof.
  intros Hwf. unfold PartitionMap_fields. rewrite members_valid_put.
  apply andb_true_intro; split; [|done]. apply andb_true_intro; split; [done|].
  cbn [json_valid]. apply forallb_forall. intros [k v] Hin.
  apply list_elem_of_In in Hin. apply list_elem_of_fmap in Hin as ([t a] & [= -> ->] & Hin).
  rewrite merge_sort_Permutation, elem_of_map_to_list in Hin.
  destruct (Hwf _ _ Hin) as (Ht & _ & Hn). unfold str_valid in Ht. cbn [fst snd]. rewrite Ht.
  apply jsmap_valid. intros k v Hkv. apply lookup_kmap_Some in Hkv as (p & -> & Hp); [|apply _].
  split; [apply fmt_d_valid|]. by apply (Hn _ _ Hp).
Qed.

Lemma PartitionMap_of_fields pm : PartitionMap_wf pm → PartitionMap_of (PartitionMap_fields pm) = Some pm.
Proof.
  intros Hwf. unfold PartitionMap_of, partitionMapJSON_of, PartitionMap_fields.
  rewrite jfield_put. cbn [String.eqb Ascii.eqb Bool.eqb].
  set (l := merge_sort topic_key_le (map_to_list (pm_owner pm))).
  assert (l ≡ₚ map_to_list (pm_owner pm)) as Hl by apply merge_sort_Permutation.
  simpl. rewrite topics_of_members_fmap.
  assert (list_to_map (reverse (prod_map id (key_strings) <$> l)) =
          (key_strings <$> pm_owner pm : gmap string (gmap string string))) as ->.
  { rewrite <- (list_to_map_to_list (key_strings <$> pm_owner pm)).
    apply list_to_map_proper; rewrite reverse_Permutation, ?Hl, <- map_to_list_fmap;
      [apply NoDup_fst_map_to_list|done]. }
  rewrite owner_roundtrip; [by destruct pm|]. intros t a Ha. by apply (Hwf t a Ha).
Qed.

Lemma PartitionMap_json_roundtrip pm :
  PartitionMap_wf pm → PartitionMap_UnmarshalJSON (PartitionMap_MarshalJSON pm) = Some pm.
Proof.
  intros Hwf. unfold PartitionMap_UnmarshalJSON, PartitionMap_MarshalJSON.
  rewrite unmarshal_with_print by by apply PartitionMap_fields_valid. by apply PartitionMap_of_fields.
Qed.

(** ** Facts: what a node owns *)

Lemma seqZ_sorted n m : StronglySorted Z.le (seqZ n m).
Proof.
  destruct (decide (0 <= m)) as [Hm|Hm]; [|by rewrite seqZ_nil by lia; constructor].
  rewrite <- (Z2Nat.id m) by lia. induction (Z.to_nat m) as [|k IH]; [constructor|].
  rewrite seqZ_S. apply sorted_snoc_iff. split; [done|].
  apply Forall_forall. intros p Hp%elem_of_seqZ. lia.
Qed.

Lemma owned_partitions_assign nodes n id :
  nodes ≠ [] → 0 <= n <= 2 ^ 31 →
  default [] (owned_partitions id (foldl (assign_partition nodes) ∅ (seqZ 0 n))) =
    filter (λ p, round_robin nodes p = Some id) (seqZ 0 n).
Proof.
  intros Hne Hn. set (a := foldl _ _ _). unfold owned_partitions.
  set (ps := (map_to_list _).*1). set (qs := filter _ (seqZ 0 n)).
  assert (ps ≡ₚ qs) as Hp.
  { apply NoDup_Permutation.
    - apply NoDup_fst_map_to_list.
    - apply NoDup_filter, NoDup_seqZ.
    - intros p. unfold ps, qs. rewrite list_elem_of_fmap, list_elem_of_filter, elem_of_seqZ. split.
      + intros ([p' x] & -> & Hin%elem_of_map_to_list). apply map_lookup_filter_Some in Hin as [Hl Hx].
        unfold a in Hl. rewrite assign_fold_lookup in Hl by done. simpl in *. subst x.
        case_decide; [|done]. split; [done|lia].
      + intros [Hr Hr']. exists (p, id). split; [done|]. apply elem_of_map_to_list, map_lookup_filter_Some.
        unfold a. rewrite assign_fold_lookup, decide_True by (done || lia). done. }
  assert (merge_sort Z.le ps = qs) as Hs.
  { apply (StronglySorted_unique Z.le).
    - apply StronglySorted_merge_sort; [intros x y z; lia|intros x y; lia].
    - eapply sorted_sublist; [apply seqZ_sorted|apply sublist_filter].
    - by rewrite merge_sort_Permutation. }
  destruct ps as [|p ps]; [|done]. symmetry in Hp. by apply Permutation_nil_r in Hp as ->.
Qed.

Lemma OwnedBy_Assign pm topic n nodes id :
  nodes ≠ [] → 0 < n <= 2 ^ 31 →
  default [] (PartitionMap_OwnedBy (PartitionMap_Assign pm topic n nodes) id !! topic) =
    filter (λ p, round_robin nodes p = Some id) (seqZ 0 n).
Proof.
  intros Hne Hn. unfold PartitionMap_OwnedBy, PartitionMap_Assign.
  rewrite bool_decide_eq_false_2 by done. rewrite (proj2 (Z.leb_gt n 0)) by lia. cbn [orb pm_owner].
  rewrite lookup_omap, lookup_insert_eq. cbn [mbind option_bind].
  apply owned_partitions_assign; [done|lia].
Qed.

Lemma OwnedBy_Assign_ne pm topic n nodes id t :
  t ≠ topic →
  PartitionMap_OwnedBy (PartitionMap_Assign pm topic n nodes) id !! t =
    PartitionMap_OwnedBy pm id !! t.
Proof.
  intros Ht. unfold PartitionMap_OwnedBy, PartitionMap_Assign. case_match; [done|].
  cbn [pm_owner]. by rewrite !lookup_omap, lookup_insert_ne.
Qed.
