(* ===== verification/Transport.v ===== *)
(** * Messages between nodes: [internal/cluster/transport.go]

    The message kinds and bodies with their JSON, the frame they travel in,
    the pool of outbound connections and the read loop of an inbound one. *)

From S2P Require Import Prelude GoLib Json GoTime Types Protocol WireJson Cluster.

Local Open Scope Z_scope.

(** ** Kinds, a [uint8] *)

Definition MsgHeartbeat : Z := 1.
Definition MsgVoteRequest : Z := 2.
Definition MsgVoteGrant : Z := 3.
Definition MsgVoteDeny : Z := 4.
Definition MsgJoin : Z := 5.
Definition MsgJoinAck : Z := 6.
Definition MsgLeave : Z := 7.
Definition MsgMetaSync : Z := 8.
Definition MsgReplicaFetch : Z := 9.
Definition MsgReplicaData : Z := 10.
Definition MsgReplicaAck : Z := 11.

Definition wireMagic0 : Init.Byte.byte := Byte.xcb.
Definition wireMagic1 : Init.Byte.byte := Byte.x01.
Definition maxMsgBody : Z := 4 * 1024 * 1024.

(** ** Bodies *)

Record ReplicaFetchBody := mkReplicaFetchBody {
  rf_Topic : string;
  rf_Partition : Z;
  rf_FromOffset : Z;
}.

(** [Messages] is a slice of pointers, which JSON can set to nil. *)
Record ReplicaDataBody := mkReplicaDataBody {
  rd_Topic : string;
  rd_Partition : Z;
  rd_Messages : list (option Message);
}.

Record ReplicaAckBody := mkReplicaAckBody {
  ra_Topic : string;
  ra_Partition : Z;
  ra_Offset : Z;
}.

Record ClusterMsg := mkClusterMsg {
  cm_Type : Z;
  cm_From : string;
  cm_Term : Z;
  cm_Body : bytes;
}.

#[global] Instance ClusterMsg_eq_dec : EqDecision ClusterMsg.
Proof. solve_decision. Defined.

(** ** Their JSON *)

Definition ReplicaFetchBody_fields (r : ReplicaFetchBody) : list (bytes * json) :=
  put "topic" (jstr (rf_Topic r)) ++
  put "partition" (JNum (rf_Partition r)) ++
  put "from_offset" (JNum (rf_FromOffset r)) ++ [].

Definition ReplicaFetchBody_of (l : list (bytes * json)) : option ReplicaFetchBody :=
  match get_str "topic" l, get_int i32_min i32_max "partition" l,
        get_int i64_min i64_max "from_offset" l with
  | Some t, Some p, Some o => Some (mkReplicaFetchBody t p o)
  | _, _, _ => None
  end.

Definition ReplicaFetchBody_wf (r : ReplicaFetchBody) : Prop :=
  str_valid (rf_Topic r) = true ∧ is_i32 (rf_Partition r) ∧ is_i64 (rf_FromOffset r).

Definition ReplicaAckBody_fields (r : ReplicaAckBody) : list (bytes * json) :=
  put "topic" (jstr (ra_Topic r)) ++
  put "partition" (JNum (ra_Partition r)) ++
  put "offset" (JNum (ra_Offset r)) ++ [].

Definition ReplicaAckBody_of (l : list (bytes * json)) : option ReplicaAckBody :=
  match get_str "topic" l, get_int i32_min i32_max "partition" l,
        get_int i64_min i64_max "offset" l with
  | Some t, Some p, Some o => Some (mkReplicaAckBody t p o)
  | _, _, _ => None
  end.

Definition ReplicaAckBody_wf (r : ReplicaAckBody) : Prop :=
  str_valid (ra_Topic r) = true ∧ is_i32 (ra_Partition r) ∧ is_i64 (ra_Offset r).

Definition message_json (m : option Message) : json :=
  match m with
  | Some m => JObj (Message_fields m)
  | None => JNull
  end.

Definition message_of_json (j : json) : option (option Message) :=
  match j with
  | JObj l => Some <$> Message_of_fields l
  | JNull => Some None
  | _ => None
  end.

Definition get_messages (k : string) (l : list (bytes * json)) : option (list (option Message)) :=
  match jfield k l with
  | None | Some JNull => Some []
  | Some (JArr js) => mapM message_of_json js
  | _ => None
  end.

Definition messages_json (ms : list (option Message)) : json :=
  match ms with
  | [] => JNull
  | _ => JArr (message_json <$> ms)
  end.

Definition ReplicaDataBody_fields (r : ReplicaDataBody) : list (bytes * json) :=
  put "topic" (jstr (rd_Topic r)) ++
  put "partition" (JNum (rd_Partition r)) ++
  put "messages" (messages_json (rd_Messages r)) ++ [].

Definition ReplicaDataBody_of (l : list (bytes * json)) : option ReplicaDataBody :=
  match get_str "topic" l, get_int i32_min i32_max "partition" l,
        get_messages "messages" l with
  | Some t, Some p, Some ms => Some (mkReplicaDataBody t p ms)
  | _, _, _ => None
  end.

Definition ReplicaDataBody_wf (r : ReplicaDataBody) : Prop :=
  str_valid (rd_Topic r) = true ∧ is_i32 (rd_Partition r) ∧ Forall (from_option Message_wf True) (rd_Messages r).

(** [Body] is a [[]byte] with [omitempty]: base64. *)
Definition ClusterMsg_fields (m : ClusterMsg) : list (bytes * json) :=
  put "type" (JNum (cm_Type m)) ++
  put "from" (jstr (cm_From m)) ++
  put "term" (JNum (cm_Term m)) ++
  put_omit (bool_decide (cm_Body m = [])) "body" (JStr (b64_encode (cm_Body m))) ++ [].

Definition ClusterMsg_of (l : list (bytes * json)) : option ClusterMsg :=
  match get_int 0 255 "type" l, get_str "from" l, get_int 0 u64_field_max "term" l, get_bytes "body" l with
  | Some ty, Some from, Some term, Some body => Some (mkClusterMsg ty from term body)
  | _, _, _, _ => None
  end.

Definition ClusterMsg_wf (m : ClusterMsg) : Prop :=
  0 <= cm_Type m < 2 ^ 8 ∧ str_valid (cm_From m) = true ∧ is_u64 (cm_Term m).

Definition Member_fields (t : bytes) (m : Member) : list (bytes * json) :=
  put "node_id" (jstr (mb_NodeID m)) ++
  put "addr" (jstr (mb_Addr m)) ++
  put "http_addr" (jstr (mb_HTTPAddr m)) ++
  put "joined_at" (JStr t) ++ [].

(** [time.Time] refuses years above 9999. *)
Definition Member_object (m : Member) : option json :=
  if time_ok (mb_JoinedAt m) then Some (JObj (Member_fields (time_string (mb_JoinedAt m)) m)) else None.

Definition Member_of (l : list (bytes * json)) : option Member :=
  match get_str "node_id" l, get_str "addr" l, get_str "http_addr" l, get_time zero_time "joined_at" l with
  | Some i, Some a, Some h, Some t => Some (mkMember i a h t)
  | _, _, _, _ => None
  end.

Definition Member_wf (m : Member) : Prop :=
  str_valid (mb_NodeID m) = true ∧ str_valid (mb_Addr m) = true ∧ str_valid (mb_HTTPAddr m) = true ∧
  time_ok (mb_JoinedAt m) = true.

(** [[]Member]: an array, [null] for the nil slice. *)
Definition Members_marshal (ms : list Member) : option bytes :=
  match mapM Member_object ms with
  | Some js => Some (print (JArr js))
  | None => None
  end.

Definition Members_unmarshal (b : bytes) : option (list Member) :=
  match parse b with
  | Some JNull => Some []
  | Some (JArr js) =>
      mapM (λ j, match j with JObj l => Member_of l | JNull => Member_of [] | _ => None end) js
  | _ => None
  end.

(** ** The frame: [ magic(2) | type(1) | bodyLen(4, big endian) | body ] *)

Definition put_be32 (z : Z) : bytes := reverse (put_u32 z).

Definition get_be32 (b : bytes) : Z := get_uint (reverse b).

Inductive transport_err :=
| MarshalErr
| ConnWriteErr
| ShortHeader (e : read_err)
| BadMagic
| MsgTooLarge (n : Z)
| ShortBody (e : read_err)
| MsgUnmarshalErr
| DialErr.

Definition msg_frame (ty : Z) (body : bytes) : bytes :=
  [wireMagic0; wireMagic1; byte.of_Z ty] ++ put_be32 (u32 (zlen body)) ++ body.

Section Wire.
Context `{JsonCodec ClusterMsg}.

(** [writeMsg]: [w] is what the peer has been sent; a failed [Write] sends the
    first [n] bytes. *)
Definition writeMsg (w : bytes) (msg : ClusterMsg) (fail : option nat) : bytes * result unit transport_err :=
  match json_Marshal msg with
  | None => (w, Error MarshalErr)
  | Some body =>
      let buf := msg_frame (cm_Type msg) body in
      match fail with
      | None => (w ++ buf, Ok tt)
      | Some n => (w ++ take n buf, Error ConnWriteErr)
      end
  end.

(** [readMsg]: the message and what is left of the stream. *)
Definition readMsg (r : bytes) : result (ClusterMsg * bytes) transport_err :=
  match io_ReadFull r 7 with
  | Error e => Error (ShortHeader e)
  | Ok (hdr, r1) =>
      if negb (bool_decide (slice 0 1 hdr = [wireMagic0])) || negb (bool_decide (slice 1 2 hdr = [wireMagic1]))
      then Error BadMagic
      else
        let bodyLen := get_be32 (slice 3 7 hdr) in
        if maxMsgBody <? bodyLen then Error (MsgTooLarge bodyLen)
        else
          match io_ReadFull r1 bodyLen with
          | Error e => Error (ShortBody e)
          | Ok (body, r2) =>
              match json_Unmarshal body with
              | None => Error MsgUnmarshalErr
              | Some msg => Ok (msg, r2)
              end
          end
  end.

(** [readLoop]: the messages put on [recvCh]; the first error closes the
    connection.  Every message takes seven bytes or more of the stream. *)
Fixpoint read_stream (fuel : nat) (r : bytes) : list ClusterMsg :=
  match fuel with
  | O => []
  | S fuel =>
      match readMsg r with
      | Ok (m, r') => m :: read_stream fuel r'
      | Error _ => []
      end
  end.

Definition readLoop (r : bytes) : list ClusterMsg := read_stream (length r) r.

(** ** The pool of outbound connections

    A connection is a number; [sent] is what each has carried. *)

Record Transport := mkTransport {
  tr_pool : gmap string Z;
  tr_sent : gmap Z bytes;
}.

(** [getOrDial]: [dial] is the outcome of the dial, [raced] the connection
    another goroutine has pooled meanwhile. *)
Definition getOrDial (t : Transport) (addr : string) (dial raced : option Z) : Transport * option Z :=
  match tr_pool t !! addr with
  | Some c => (t, Some c)
  | None =>
      match dial with
      | None => (t, None)
      | Some c =>
          match raced with
          | Some existing => (mkTransport (<[addr := existing]> (tr_pool t)) (tr_sent t), Some existing)
          | None => (mkTransport (<[addr := c]> (tr_pool t)) (tr_sent t), Some c)
          end
      end
  end.

Definition evict (t : Transport) (addr : string) (c : Z) : Transport :=
  match tr_pool t !! addr with
  | Some current => if current =? c then mkTransport (delete addr (tr_pool t)) (tr_sent t) else t
  | None => t
  end.

Definition write_on (t : Transport) (c : Z) (msg : ClusterMsg) (fail : option nat) :
    Transport * result unit transport_err :=
  let '(w, r) := writeMsg (default [] (tr_sent t !! c)) msg fail in
  (mkTransport (tr_pool t) (<[c := w]> (tr_sent t)), r).

(** What one [Send] meets: the dials, the races and the write outcomes of its
    two attempts. *)
Record SendIO := mkSendIO {
  sio_dial1 : option Z;
  sio_raced1 : option Z;
  sio_write1 : option nat;
  sio_dial2 : option Z;
  sio_raced2 : option Z;
  sio_write2 : option nat;
}.

Definition Transport_Send (io : SendIO) (t : Transport) (addr : string) (msg : ClusterMsg) :
    Transport * result unit transport_err :=
  match getOrDial t addr (sio_dial1 io) (sio_raced1 io) with
  | (t, None) => (t, Error DialErr)
  | (t, Some pc) =>
      match write_on t pc msg (sio_write1 io) with
      | (t, Ok _) => (t, Ok tt)
      | (t, Error writeErr) =>
          let t := evict t addr pc in
          match getOrDial t addr (sio_dial2 io) (sio_raced2 io) with
          | (t, None) => (t, Error writeErr)
          | (t, Some pc2) =>
              match write_on t pc2 msg (sio_write2 io) with
              | (t, Ok _) => (t, Ok tt)
              | (t, Error e) => (evict t addr pc2, Error e)
              end
          end
      end
  end.

(** ** Facts *)

Lemma put_be32_length z : length (put_be32 z) = 4%nat.
Proof. unfold put_be32. by rewrite length_reverse, put_u32_length. Qed.

Lemma get_put_be32 z : get_be32 (put_be32 z) = u32 z.
Proof. unfold get_be32, put_be32. by rewrite reverse_involutive, get_put_u32. Qed.

Definition msg_header (ty n : Z) : bytes := [wireMagic0; wireMagic1; byte.of_Z ty] ++ put_be32 (u32 n).

Lemma msg_frame_header ty body r :
  msg_frame ty body ++ r = msg_header ty (zlen body) ++ body ++ r.
Proof. unfold msg_frame, msg_header. by rewrite <- !app_assoc. Qed.

Lemma readMsg_header ty n r :
  0 <= n < 2 ^ 32 →
  readMsg (msg_header ty n ++ r) =
    if maxMsgBody <? n then Error (MsgTooLarge n)
    else
      match io_ReadFull r n with
      | Error e => Error (ShortBody e)
      | Ok (body, r2) =>
          match json_Unmarshal body with
          | None => Error MsgUnmarshalErr
          | Some msg => Ok (msg, r2)
          end
      end.
Proof.
  intros Hn. unfold readMsg.
  assert (zlen (msg_header ty n) = 7) as Hl.
  { unfold msg_header. rewrite zlen_app. unfold zlen. by rewrite put_be32_length. }
  rewrite (io_ReadFull_app _ r) by done.
  assert (slice 0 1 (msg_header ty n) = [wireMagic0]) as -> by done.
  assert (slice 1 2 (msg_header ty n) = [wireMagic1]) as -> by done.
  assert (slice 3 7 (msg_header ty n) = put_be32 (u32 n)) as ->.
  { unfold msg_header. rewrite slice_app_r by done. change (3 - length _)%nat with 0%nat.
    change (7 - length _)%nat with 4%nat. unfold slice. by rewrite drop_0, take_ge by (by rewrite put_be32_length). }
  rewrite get_put_be32, !u32_id by (rewrite ?u32_id by done; done). done.
Qed.

(** A message up to the cap reads back; a larger one is written all the same
    and makes the reader give up the connection. *)
Lemma readMsg_writeMsg m body r :
  json_wf m → json_Marshal m = Some body → zlen body <= maxMsgBody →
  readMsg (msg_frame (cm_Type m) body ++ r) = Ok (m, r).
Proof.
  intros Hwf Hb Hlen. rewrite msg_frame_header. pose proof (zlen_nonneg body).
  rewrite readMsg_header by (unfold maxMsgBody in *; lia).
  rewrite (proj2 (Z.ltb_ge _ _)) by done. rewrite io_ReadFull_app by done.
  destruct (json_roundtrip m Hwf) as (b & Hb' & Hu). rewrite Hb in Hb'. injection Hb' as <-.
  by rewrite Hu.
Qed.

Lemma readMsg_oversized ty body r :
  maxMsgBody < zlen body < 2 ^ 32 → readMsg (msg_frame ty body ++ r) = Error (MsgTooLarge (zlen body)).
Proof.
  intros Hlen. rewrite msg_frame_header, readMsg_header by (unfold maxMsgBody in *; lia).
  by rewrite (proj2 (Z.ltb_lt _ _)) by lia.
Qed.

Lemma read_stream_frames (ms : list (ClusterMsg * bytes)) fuel :
  Forall (λ mb, json_wf mb.1 ∧ json_Marshal mb.1 = Some mb.2 ∧ zlen mb.2 <= maxMsgBody) ms →
  (length ms <= fuel)%nat →
  read_stream fuel (mjoin ((λ mb, msg_frame (cm_Type mb.1) mb.2) <$> ms)) = ms.*1.
Proof.
  intros Hms. revert fuel. induction Hms as [|[m b] ms (Hwf & Hb & Hlen) _ IH]; intros fuel Hf.
  - by destruct fuel.
  - destruct fuel as [|fuel]; [simpl in Hf; lia|]. rewrite !fmap_cons, mjoin_cons.
    cbn [read_stream fst snd]. rewrite (readMsg_writeMsg m b) by done. f_equal. apply IH. simpl in Hf. lia.
Qed.
End Wire.

(** ** Round trips of the bodies *)

Lemma ReplicaFetchBody_json_roundtrip r :
  ReplicaFetchBody_wf r →
  ∃ b, Some (print (JObj (ReplicaFetchBody_fields r))) = Some b ∧ unmarshal_with ReplicaFetchBody_of b = Some r.
Proof.
  intros (Ht & Hp & Ho). wire_bounds. apply struct_roundtrip.
  - unfold ReplicaFetchBody_fields. wire_valid.
  - unfold ReplicaFetchBody_of, ReplicaFetchBody_fields. wire_bounds.
    rewrite (get_str_eq "topic" _ (rf_Topic r) false) by wire_solve.
    rewrite (get_int_eq _ _ "partition" _ (rf_Partition r) false) by wire_solve.
    rewrite (get_int_eq _ _ "from_offset" _ (rf_FromOffset r) false) by wire_solve.
    by destruct r.
Qed.

#[global] Instance ReplicaFetchBodyJson : JsonCodec ReplicaFetchBody := {|
  json_Marshal := λ r, Some (print (JObj (ReplicaFetchBody_fields r)));
  json_Unmarshal := unmarshal_with ReplicaFetchBody_of;
  json_wf := ReplicaFetchBody_wf;
  json_roundtrip := ReplicaFetchBody_json_roundtrip;
|}.

Lemma ReplicaAckBody_json_roundtrip r :
  ReplicaAckBody_wf r →
  ∃ b, Some (print (JObj (ReplicaAckBody_fields r))) = Some b ∧ unmarshal_with ReplicaAckBody_of b = Some r.
Proof.
  intros (Ht & Hp & Ho). wire_bounds. apply struct_roundtrip.
  - unfold ReplicaAckBody_fields. wire_valid.
  - unfold ReplicaAckBody_of, ReplicaAckBody_fields. wire_bounds.
    rewrite (get_str_eq "topic" _ (ra_Topic r) false) by wire_solve.
    rewrite (get_int_eq _ _ "partition" _ (ra_Partition r) false) by wire_solve.
    rewrite (get_int_eq _ _ "offset" _ (ra_Offset r) false) by wire_solve.
    by destruct r.
Qed.

#[global] Instance ReplicaAckBodyJson : JsonCodec ReplicaAckBody := {|
  json_Marshal := λ r, Some (print (JObj (ReplicaAckBody_fields r)));
  json_Unmarshal := unmarshal_with ReplicaAckBody_of;
  json_wf := ReplicaAckBody_wf;
  json_roundtrip := ReplicaAckBody_json_roundtrip;
|}.

Lemma messages_json_ok ms :
  Forall (from_option Message_wf True) ms →
  json_valid (messages_json ms) = true ∧ mapM message_of_json (message_json <$> ms) = Some ms.
Proof.
  intros Hms. split.
  - destruct ms as [|m ms]; [done|]. unfold messages_json. cbn [json_valid]. revert Hms.
    generalize (m :: ms) as l. induction 1 as [|x l Hx _ IH]; [done|].
    cbn [fmap list_fmap forallb]. rewrite IH, andb_true_r.
    destruct x; [by apply Message_fields_valid|done].
  - apply mapM_Some_2, Forall2_fmap_l. induction Hms as [|x l Hx _ IH]; constructor; [|done].
    destruct x as [m|]; [|done]. simpl. by rewrite Message_of_fields_ok.
Qed.

Lemma ReplicaDataBody_json_roundtrip r :
  ReplicaDataBody_wf r →
  ∃ b, Some (print (JObj (ReplicaDataBody_fields r))) = Some b ∧ unmarshal_with ReplicaDataBody_of b = Some r.
Proof.
  intros (Ht & Hp & Hm). wire_bounds. destruct (messages_json_ok _ Hm) as [Hv Hr]. apply struct_roundtrip.
  - unfold ReplicaDataBody_fields. rewrite !members_valid_put, Hv. unfold str_valid in *.
    cbn [json_valid jstr]. by rewrite Ht.
  - unfold ReplicaDataBody_of, ReplicaDataBody_fields. wire_bounds.
    rewrite (get_str_eq "topic" _ (rd_Topic r) false) by wire_solve.
    rewrite (get_int_eq _ _ "partition" _ (rd_Partition r) false) by wire_solve.
    assert (∀ l, jfield "messages" l = Some (messages_json (rd_Messages r)) →
      get_messages "messages" l = Some (rd_Messages r)) as Hg.
    { intros l Hl. unfold get_messages. rewrite Hl. destruct (rd_Messages r) as [|m ms]; [done|].
      cbn [messages_json]. exact Hr. }
    rewrite Hg by by wire_eval. by destruct r.
Qed.

#[global] Instance ReplicaDataBodyJson : JsonCodec ReplicaDataBody := {|
  json_Marshal := λ r, Some (print (JObj (ReplicaDataBody_fields r)));
  json_Unmarshal := unmarshal_with ReplicaDataBody_of;
  json_wf := ReplicaDataBody_wf;
  json_roundtrip := ReplicaDataBody_json_roundtrip;
|}.

Lemma ClusterMsg_json_roundtrip r :
  ClusterMsg_wf r →
  ∃ b, Some (print (JObj (ClusterMsg_fields r))) = Some b ∧ unmarshal_with ClusterMsg_of b = Some r.
Proof.
  intros (Ht & Hf & Htm). apply struct_roundtrip.
  - unfold ClusterMsg_fields. rewrite !members_valid_put, members_valid_omit.
    assert (json_valid (JStr (b64_encode (cm_Body r))) = true) as -> by
      apply utf8_valid_ascii, b64_encode_ascii.
    unfold str_valid in *. cbn [json_valid jstr]. by rewrite Hf, orb_true_r.
  - unfold ClusterMsg_of, ClusterMsg_fields, is_u64, u64_field_max in *.
    rewrite (get_int_eq _ _ "type" _ (cm_Type r) false) by wire_solve.
    rewrite (get_str_eq "from" _ (cm_From r) false) by wire_solve.
    rewrite (get_int_eq _ _ "term" _ (cm_Term r) false) by wire_solve.
    assert (∀ l, jfield "body" l = (if bool_decide (cm_Body r = []) then None
        else Some (JStr (b64_encode (cm_Body r)))) → get_bytes "body" l = Some (cm_Body r)) as Hg.
    { intros l Hl. unfold get_bytes. rewrite Hl. case_bool_decide as Hb; [by rewrite Hb|].
      apply b64_roundtrip. }
    rewrite Hg by (wire_eval; by case_bool_decide). by destruct r.
Qed.

#[global] Instance ClusterMsgJson : JsonCodec ClusterMsg := {|
  json_Marshal := λ r, Some (print (JObj (ClusterMsg_fields r)));
  json_Unmarshal := unmarshal_with ClusterMsg_of;
  json_wf := ClusterMsg_wf;
  json_roundtrip := ClusterMsg_json_roundtrip;
|}.

Lemma Member_valid m :
  Member_wf m → json_valid (JObj (Member_fields (time_string (mb_JoinedAt m)) m)) = true.
Proof.
  intros (Hi & Ha & Hh & _). unfold Member_fields. rewrite !members_valid_put.
  unfold str_valid in *. cbn [json_valid jstr]. by rewrite Hi, Ha, Hh, time_string_ascii.
Qed.

Lemma Member_of_fields m :
  Member_wf m → Member_of (Member_fields (time_string (mb_JoinedAt m)) m) = Some m.
Proof.
  intros (Hi & Ha & Hh & Ht). unfold Member_of, Member_fields.
  rewrite (get_str_eq "node_id" _ (mb_NodeID m) false) by wire_solve.
  rewrite (get_str_eq "addr" _ (mb_Addr m) false) by wire_solve.
  rewrite (get_str_eq "http_addr" _ (mb_HTTPAddr m) false) by wire_solve.
  rewrite (get_time_eq zero_time "joined_at" _ (mb_JoinedAt m)); [by destruct m|by wire_eval|done].
Qed.

Lemma Member_json_roundtrip m :
  Member_wf m → ∃ b, print <$> Member_object m = Some b ∧ unmarshal_with Member_of b = Some m.
Proof.
  intros Hm. unfold Member_object. rewrite (proj2 (proj2 (proj2 Hm))). eexists. split; [reflexivity|].
  rewrite unmarshal_with_print by by apply Member_valid. by apply Member_of_fields.
Qed.

#[global] Instance MemberJson : JsonCodec Member := {|
  json_Marshal := λ m, print <$> Member_object m;
  json_Unmarshal := unmarshal_with Member_of;
  json_wf := Member_wf;
  json_roundtrip := Member_json_roundtrip;
|}.

Lemma Members_roundtrip ms :
  Forall Member_wf ms → ∃ b, Members_marshal ms = Some b ∧ Members_unmarshal b = Some ms.
Proof.
  intros Hms. unfold Members_marshal, Members_unmarshal.
  set (js := (λ m, JObj (Member_fields (time_string (mb_JoinedAt m)) m)) <$> ms).
  assert (mapM Member_object ms = Some js) as ->.
  { apply mapM_Some_2, Forall2_fmap_r. induction Hms as [|m ms Hm _ IH]; constructor; [|done].
    unfold Member_object. by rewrite (proj2 (proj2 (proj2 Hm))). }
  eexists. split; [reflexivity|]. rewrite parse_print.
  - unfold js. apply mapM_Some_2, Forall2_fmap_l. induction Hms; constructor; [|done].
    by apply Member_of_fields.
  - cbn [json_valid]. unfold js. induction Hms as [|m ms Hm _ IH]; [done|].
    rewrite fmap_cons. cbn [forallb]. by rewrite IH, Member_valid.
Qed.

#[global] Instance MembersJson : JsonCodec (list Member) := {|
  json_Marshal := Members_marshal;
  json_Unmarshal := Members_unmarshal;
  json_wf := Forall Member_wf;
  json_roundtrip := Members_roundtrip;
|}.
