(* ===== verification/Bully.v ===== *)
(** * Bully election: [internal/cluster/election.go]

    The election state machine of a node that does not run Raft.  The lock
    makes every handler one step; the membership is read through its own lock,
    so a handler that reads it twice is given it twice. *)

From S2P Require Import Prelude GoLib Cluster Transport.

Local Open Scope Z_scope.

(** ** State *)

Inductive Role :=
| RoleFollower
| RoleCandidate
| RoleLeader.

#[global] Instance Role_eq_dec : EqDecision Role.
Proof. solve_decision. Defined.

(** The gauges and counters the election writes, when it has any. *)
Record ElectionMetrics := mkElectionMetrics {
  em_LeaderChanges : Z;
  em_IsLeader : bool;
  em_CurrentTerm : Z;
  em_ElectionCount : Z;
}.

(** [el_grantsNeeded] and [el_grantsHad] are maps that may be nil. *)
Record Election := mkElection {
  el_self : Member;
  el_role : Role;
  el_term : Z;
  el_leader : option Member;
  el_grantsNeeded : option (gset string);
  el_grantsHad : option (gset string);
  el_metrics : option ElectionMetrics;
}.

Definition NewElection (self : Member) : Election :=
  mkElection self RoleFollower 0 None None None None.

Definition Election_SetMetrics (e : Election) (m : option ElectionMetrics) : Election :=
  mkElection (el_self e) (el_role e) (el_term e) (el_leader e) (el_grantsNeeded e) (el_grantsHad e) m.

Definition self_id (e : Election) : string := mb_NodeID (el_self e).

(** What a handler leaves to be done after the lock: messages to send, and the
    goroutine that calls the leader callback. *)
Inductive effect :=
| Send (addr : string) (msg : ClusterMsg)
| FireLeaderCallback.

(** ** Accessors *)

Definition Election_Role (e : Election) : Role := el_role e.

Definition Election_Leader (e : Election) : option Member := el_leader e.

Definition Election_Term (e : Election) : Z := el_term e.

(** ** Helpers, called with the lock held *)

(** The loop that addresses every member but the node itself. *)
Definition broadcast (e : Election) (ms : Membership) (ty : Z) : list effect :=
  (λ m, Send (mb_Addr m) (mkClusterMsg ty (self_id e) (el_term e) [])) <$>
    filter (λ m, mb_NodeID m ≠ self_id e) (Membership_All ms).

Definition same_leader (old : option Member) (id : string) : bool :=
  match old with
  | Some m => bool_decide (mb_NodeID m = id)
  | None => false
  end.

Definition becomeLeaderLocked (ms : Membership) (e : Election) : Election * list effect :=
  let bm := (λ m, mkElectionMetrics
    (em_LeaderChanges m + (if same_leader (el_leader e) (self_id e) then 0 else 1))
    true (el_term e) (em_ElectionCount m)) <$> el_metrics e in
  let e' := mkElection (el_self e) RoleLeader (el_term e) (Some (el_self e)) None None bm in
  (e', FireLeaderCallback :: broadcast e' ms MsgHeartbeat).

Definition setLeaderLocked (ms : Membership) (e : Election) (nodeID : string) (term : Z) : Election :=
  match Membership_Get ms nodeID with
  | None => mkElection (el_self e) RoleFollower term (el_leader e) None None (el_metrics e)
  | Some m =>
      let changed := bool_decide (el_role e = RoleLeader) || negb (same_leader (el_leader e) nodeID) in
      let bm := (λ x, mkElectionMetrics (em_LeaderChanges x + (if changed then 1 else 0))
        false term (em_ElectionCount x)) <$> el_metrics e in
      mkElection (el_self e) RoleFollower term (Some m) None None bm
  end.

Definition emitElectionCountLocked (e : Election) : Election :=
  Election_SetMetrics e ((λ x, mkElectionMetrics (em_LeaderChanges x) (em_IsLeader x) (el_term e)
    (em_ElectionCount x + 1)) <$> el_metrics e).

Definition peerAddr (ms : Membership) (nodeID : string) : string :=
  match Membership_Get ms nodeID with
  | Some m => mb_Addr m
  | None => EmptyString
  end.

(** A reply, unless the peer has no known address. *)
Definition reply (e : Election) (ms : Membership) (ty : Z) (to : string) (term : Z) : list effect :=
  let addr := peerAddr ms to in
  if bool_decide (addr = EmptyString) then []
  else [Send addr (mkClusterMsg ty (self_id e) term [])].

(** ** The handlers *)

Definition with_term (e : Election) (t : Z) : Election :=
  mkElection (el_self e) (el_role e) t (el_leader e) (el_grantsNeeded e) (el_grantsHad e) (el_metrics e).

Definition conceded (e : Election) (t : Z) : Election :=
  mkElection (el_self e) RoleFollower t (el_leader e) None None (el_metrics e).

(** Go's [<] on strings. *)
Definition str_lt (a b : string) : bool :=
  match (a ?= b)%string with
  | Lt => true
  | _ => false
  end.

(** The members whose grant a candidate needs: those with a lower id. *)
Definition lower_ids (e : Election) (ms : Membership) : list string :=
  filter (λ id, str_lt id (self_id e) = true) (mb_NodeID <$> Membership_All ms).

Definition handleElectionTimeout (ms ms' : Membership) (e : Election) : Election * list effect :=
  let needed : gset string := list_to_set (lower_ids e ms) in
  let e := mkElection (el_self e) RoleCandidate (u64 (el_term e + 1)) (el_leader e)
    (Some needed) (Some ∅) (el_metrics e) in
  let e := emitElectionCountLocked e in
  if bool_decide (needed = ∅) then becomeLeaderLocked ms' e
  else (e, broadcast e ms' MsgVoteRequest).

(** [None] is the panic of a write to the nil map [grantsHad]. *)
Definition handleMsg (ms : Membership) (e : Election) (msg : ClusterMsg) :
    option (Election * bool * list effect) :=
  let e := if el_term e <? cm_Term msg then with_term e (cm_Term msg) else e in
  let higher := str_lt (self_id e) (cm_From msg) in
  if cm_Type msg =? MsgHeartbeat then
    if higher then Some (setLeaderLocked ms e (cm_From msg) (cm_Term msg), true, [])
    else Some (e, false, [])
  else if cm_Type msg =? MsgVoteRequest then
    if higher && (el_term e <=? cm_Term msg) then
      let e := conceded e (cm_Term msg) in
      Some (e, true, reply e ms MsgVoteGrant (cm_From msg) (cm_Term msg))
    else Some (e, false, reply e ms MsgVoteDeny (cm_From msg) (el_term e))
  else if cm_Type msg =? MsgVoteGrant then
    if bool_decide (el_role e = RoleCandidate) && (cm_Term msg =? el_term e) then
      match el_grantsHad e with
      | None => None
      | Some had =>
          let had := {[cm_From msg]} ∪ had in
          let e := mkElection (el_self e) (el_role e) (el_term e) (el_leader e) (el_grantsNeeded e)
            (Some had) (el_metrics e) in
          if bool_decide (default ∅ (el_grantsNeeded e) ⊆ had) then
            let '(e, effects) := becomeLeaderLocked ms e in Some (e, false, effects)
          else Some (e, false, [])
      end
    else Some (e, false, [])
  else Some (e, false, []).

Definition maybeSendHeartbeats (ms : Membership) (e : Election) : list effect :=
  if bool_decide (el_role e = RoleLeader) then broadcast e ms MsgHeartbeat else [].

Definition ForceBecomeLeader (ms : Membership) (e : Election) : Election * list effect :=
  if bool_decide (el_role e = RoleLeader) then (e, [])
  else
    let e := emitElectionCountLocked (with_term e (u64 (el_term e + 1))) in
    let '(e, _) := becomeLeaderLocked ms e in (e, [FireLeaderCallback]).

(** ** The election loop

    The [select] of [run]: the timer, a message, the heartbeat ticker.  The
    timer runs whatever the role is. *)

Inductive election_event :=
| ETimeout (ms ms' : Membership)
| EMsg (ms : Membership) (msg : ClusterMsg)
| ETick (ms : Membership).

Definition election_step (e : Election) (ev : election_event) : option (Election * list effect) :=
  match ev with
  | ETimeout ms ms' => Some (handleElectionTimeout ms ms' e)
  | EMsg ms msg =>
      match handleMsg ms e msg with
      | Some (e', _, effects) => Some (e', effects)
      | None => None
      end
  | ETick ms => Some (e, maybeSendHeartbeats ms e)
  end.

Fixpoint election_run (e : Election) (evs : list election_event) : option Election :=
  match evs with
  | [] => Some e
  | ev :: evs' =>
      match election_step e ev with
      | Some (e', _) => election_run e' evs'
      | None => None
      end
  end.

(** [applyEffects] hands the messages to the transport, if there is one; a
    failed [Send] is ignored. *)
Definition applyEffects (transport : bool) (effects : list effect) : list (string * ClusterMsg) :=
  if transport then omap (λ x, match x with Send a m => Some (a, m) | FireLeaderCallback => None end) effects
  else [].

(** [randomTimeout] in milliseconds, from the value of [rand.Intn]. *)
Definition randomTimeout (lo hi rnd : Z) : Z := if hi <=? lo then lo else lo + rnd mod (hi - lo).

(** ** A leader holds the grants of its election *)

(** A grant from [id] for term [t] or later among the events. *)
Definition granted (t : Z) (evs : list election_event) (id : string) : Prop :=
  ∃ ms msg, EMsg ms msg ∈ evs ∧ cm_Type msg = MsgVoteGrant ∧ cm_From msg = id ∧ t <= cm_Term msg.

(** The last timeout of a run: the membership it read and the term it opened. *)
Definition last_timeout (e0 : Election) (evs : list election_event) (ms : Membership) (t : Z)
    (post : list election_event) : Prop :=
  ∃ pre ms' e1, evs = pre ++ ETimeout ms ms' :: post ∧ election_run e0 pre = Some e1 ∧
    t = u64 (el_term e1 + 1) ∧ (∀ a b, ETimeout a b ∉ post).

Lemma election_run_app e evs1 evs2 :
  election_run e (evs1 ++ evs2) = match election_run e evs1 with
                                  | Some e' => election_run e' evs2
                                  | None => None
                                  end.
Proof.
  revert e. induction evs1 as [|ev evs1 IH]; intros e; [done|]. cbn [app election_run].
  destruct (election_step e ev) as [[e' effs]|]; [apply IH|done].
Qed.

Lemma granted_mono t evs ev id : granted t evs id → granted t (evs ++ [ev]) id.
Proof. intros (ms & msg & Hin & H). exists ms, msg. split; [by apply elem_of_app; left|done]. Qed.

(** What a state owes to the events that led to it. *)
Definition election_inv (e0 : Election) (evs : list election_event) (e : Election) : Prop :=
  el_self e = el_self e0 ∧
  match el_role e with
  | RoleFollower => True
  | RoleCandidate =>
      ∃ ms t post had, last_timeout e0 evs ms t post ∧ t <= el_term e ∧
        el_grantsNeeded e = Some (list_to_set (lower_ids e0 ms)) ∧ el_grantsHad e = Some had ∧
        ∀ id, id ∈ had → granted t post id
  | RoleLeader =>
      ∃ ms t post, last_timeout e0 evs ms t post ∧ t <= el_term e ∧
        ∀ id, id ∈ lower_ids e0 ms → granted t post id
  end.

Lemma last_timeout_snoc e0 evs ms t post ev :
  last_timeout e0 evs ms t post → (∀ a b, ev ≠ ETimeout a b) →
  last_timeout e0 (evs ++ [ev]) ms t (post ++ [ev]).
Proof.
  intros (pre & ms' & e1 & -> & Hrun & Ht & Hno) Hev. exists pre, ms', e1.
  split; [by rewrite <- app_assoc|]. split; [done|]. split; [done|].
  intros a b [Hin|Hin%list_elem_of_singleton]%elem_of_app; [by apply (Hno a b)|by apply (Hev a b)].
Qed.

Lemma election_inv_term e0 evs e t :
  election_inv e0 evs e → el_term e <= t → election_inv e0 evs (with_term e t).
Proof.
  intros [Hs Hr] Ht. split; [done|]. cbn [with_term el_role] in *. destruct (el_role e); [done|..].
  - destruct Hr as (ms & t' & post & had & Hl & Hle & Hrest). exists ms, t', post, had.
    split; [done|]. split; [cbn; lia|done].
  - destruct Hr as (ms & t' & post & Hl & Hle & Hrest). exists ms, t', post.
    split; [done|]. split; [cbn; lia|done].
Qed.

(** An event that is no timeout keeps what the role owes. *)
Lemma election_inv_snoc e0 evs e ev :
  election_inv e0 evs e → (∀ a b, ev ≠ ETimeout a b) → election_inv e0 (evs ++ [ev]) e.
Proof.
  intros [Hs Hr] Hev. split; [done|]. destruct (el_role e); [done|..].
  - destruct Hr as (ms & t' & post & had & Hl & Hle & Hn & Hh & Hg). exists ms, t', (post ++ [ev]), had.
    split; [by apply last_timeout_snoc|]. split; [done|]. split; [done|]. split; [done|].
    intros id Hid. by apply granted_mono, Hg.
  - destruct Hr as (ms & t' & post & Hl & Hle & Hg). exists ms, t', (post ++ [ev]).
    split; [by apply last_timeout_snoc|]. split; [done|]. intros id Hid. by apply granted_mono, Hg.
Qed.

Lemma election_inv_follower e0 evs e :
  el_self e = el_self e0 → el_role e = RoleFollower → election_inv e0 evs e.
Proof. intros Hs Hr. split; [done|]. by rewrite Hr. Qed.

Lemma handleMsg_inv e0 evs e ms msg :
  election_inv e0 evs e →
  ∃ e' b effs, handleMsg ms e msg = Some (e', b, effs) ∧
    election_inv e0 (evs ++ [EMsg ms msg]) e'.
Proof.
  intros Hinv. unfold handleMsg.
  set (e1 := if el_term e <? cm_Term msg then with_term e (cm_Term msg) else e).
  assert (election_inv e0 evs e1) as Hinv1.
  { unfold e1. destruct (Z.ltb_spec (el_term e) (cm_Term msg)); [|done]. apply election_inv_term; [done|lia]. }
  clearbody e1. clear Hinv.
  assert (election_inv e0 (evs ++ [EMsg ms msg]) e1) as Hkeep by by apply election_inv_snoc.
  destruct (cm_Type msg =? MsgHeartbeat).
  { destruct (str_lt _ _); [|by eauto 6]. eexists _, _, _. split; [reflexivity|].
    apply election_inv_follower; unfold setLeaderLocked; destruct (Membership_Get _ _); try done; apply Hkeep. }
  destruct (cm_Type msg =? MsgVoteRequest).
  { destruct (str_lt _ _ && _); [|by eauto 6]. eexists _, _, _. split; [reflexivity|].
    apply election_inv_follower; [apply Hkeep|done]. }
  destruct (cm_Type msg =? MsgVoteGrant) eqn:Hty; [|by eauto 6]. apply Z.eqb_eq in Hty.
  case_bool_decide as Hrole; [|by eauto 6].
  destruct (cm_Term msg =? el_term e1) eqn:Hterm; [|by eauto 6]. apply Z.eqb_eq in Hterm.
  cbn [andb]. destruct Hinv1 as [Hs Hr]. rewrite Hrole in Hr.
  destruct Hr as (ms0 & t & post & had & Hl & Hle & Hn & Hh & Hg). rewrite Hh, Hn. cbn [default].
  assert (last_timeout e0 (evs ++ [EMsg ms msg]) ms0 t (post ++ [EMsg ms msg])) as Hl'
    by by apply last_timeout_snoc.
  assert (∀ id, id ∈ {[cm_From msg]} ∪ had → granted t (post ++ [EMsg ms msg]) id) as Hg'.
  { intros id [->%elem_of_singleton|Hid]%elem_of_union; [|by apply granted_mono, Hg].
    exists ms, msg. split; [apply elem_of_app; right; by apply list_elem_of_singleton|]. split; [done|].
    split; [done|lia]. }
  case_bool_decide as Hall; eexists _, _, _; (split; [reflexivity|]).
  - split; [done|]. cbn [el_role]. exists ms0, t, (post ++ [EMsg ms msg]). split; [done|]. split; [done|].
    intros id Hid. apply Hg', Hall. by apply elem_of_list_to_set.
  - split; [done|]. cbn [el_role]. rewrite Hrole. exists ms0, t, (post ++ [EMsg ms msg]), ({[cm_From msg]} ∪ had).
    split; [done|]. split; [done|]. done.
Qed.

Lemma election_run_inv self m evs :
  ∃ e, election_run (Election_SetMetrics (NewElection self) m) evs = Some e ∧
       election_inv (Election_SetMetrics (NewElection self) m) evs e.
Proof.
  set (e0 := Election_SetMetrics (NewElection self) m).
  induction evs as [|ev evs IH] using rev_ind.
  { exists e0. split; [done|]. by apply election_inv_follower. }
  destruct IH as (e & Hrun & Hinv). rewrite election_run_app, Hrun. cbn [election_run].
  destruct ev as [ms ms'|ms msg|ms]; cbn [election_step].
  - destruct (handleElectionTimeout ms ms' e) as [e' effs] eqn:Ht. exists e'. split; [done|].
    assert (last_timeout e0 (evs ++ [ETimeout ms ms']) ms (u64 (el_term e + 1)) []) as Hl.
    { exists evs, ms', e. split; [done|]. split; [done|]. split; [done|]. intros a b. apply not_elem_of_nil. }
    assert (lower_ids e ms = lower_ids e0 ms) as Hlow by (unfold lower_ids, self_id; by rewrite (proj1 Hinv)).
    unfold handleElectionTimeout in Ht. rewrite Hlow in Ht. case_bool_decide as Hnone; injection Ht as <- <-.
    + split; [apply Hinv|]. cbn [el_role]. exists ms, (u64 (el_term e + 1)), []. split; [done|].
      split; [done|]. intros id Hid.
      assert (id ∈ (list_to_set (lower_ids e0 ms) : gset string)) as Hin by by apply elem_of_list_to_set.
      rewrite Hnone in Hin. by apply not_elem_of_empty in Hin.
    + split; [apply Hinv|]. cbn [el_role]. exists ms, (u64 (el_term e + 1)), [], ∅. split; [done|].
      split; [done|]. split; [done|]. split; [done|]. intros id Hid. by apply not_elem_of_empty in Hid.
  - destruct (handleMsg_inv e0 evs e ms msg Hinv) as (e' & b & effs & -> & Hinv'). by exists e'.
  - exists e. split; [done|]. by apply election_inv_snoc.
Qed.

(** The election never panics on its nil maps, and a node that leads has
    won an election: since the timeout that opened it, every member with a
    lower id that the node knew then has sent a grant for the election's term
    or a later one. *)
Theorem bully_leader_has_grants self m evs :
  ∃ e, election_run (Election_SetMetrics (NewElection self) m) evs = Some e ∧
    (el_role e = RoleLeader →
     ∃ ms t post,
       last_timeout (Election_SetMetrics (NewElection self) m) evs ms t post ∧
       t <= el_term e ∧
       ∀ id mb, Membership_Get ms id = Some mb → membership_ok ms →
         str_lt id (mb_NodeID self) = true → granted t post id).
Proof.
  destruct (election_run_inv self m evs) as (e & Hrun & Hs & Hr). exists e. split; [done|].
  intros Hrole. rewrite Hrole in Hr. destruct Hr as (ms & t & post & Hl & Hle & Hg).
  exists ms, t, post. split; [done|]. split; [done|]. intros id mb Hget Hok Hlt. apply Hg.
  unfold lower_ids. apply list_elem_of_filter. split; [done|]. apply list_elem_of_fmap. exists mb.
  pose proof (proj1 Hok _ _ Hget) as Hid. simpl in Hid. split; [done|].
  apply Membership_All_elem; [done|]. by rewrite Hid.
Qed.

(** ** A cluster that delivers its messages

    Nodes by address with one queue of messages in flight; a message to an
    address nobody has is dropped. *)

Record Net := mkNet {
  net_nodes : gmap string Election;
  net_queue : list (string * ClusterMsg);
}.

Definition sends (effects : list effect) : list (string * ClusterMsg) := applyEffects true effects.

(** The head of the queue reaches its node. *)
Definition net_deliver (ms : Membership) (n : Net) : Net :=
  match net_queue n with
  | [] => n
  | (a, msg) :: q =>
      match net_nodes n !! a with
      | None => mkNet (net_nodes n) q
      | Some e =>
          match handleMsg ms e msg with
          | Some (e', _, effs) => mkNet (<[a := e']> (net_nodes n)) (q ++ sends effs)
          | None => mkNet (net_nodes n) q
          end
      end
  end.

Fixpoint net_run (ms : Membership) (k : nat) (n : Net) : Net :=
  match k with
  | O => n
  | S k => net_run ms k (net_deliver ms n)
  end.

(** The timer of the node at [a] fires. *)
Definition net_timeout (ms : Membership) (a : string) (n : Net) : Net :=
  match net_nodes n !! a with
  | None => n
  | Some e =>
      let '(e', effs) := handleElectionTimeout ms ms e in
      mkNet (<[a := e']> (net_nodes n)) (net_queue n ++ sends effs)
  end.

Lemma net_run_add ms j k n : net_run ms (j + k) n = net_run ms k (net_run ms j n).
Proof. revert n. induction j as [|j IH]; intros n; [done|]. apply IH. Qed.

Lemma sends_broadcast e ms ty :
  sends (broadcast e ms ty) =
    (λ m, (mb_Addr m, mkClusterMsg ty (self_id e) (el_term e) [])) <$>
      filter (λ m, mb_NodeID m ≠ self_id e) (Membership_All ms).
Proof. unfold sends, applyEffects, broadcast. generalize (filter (λ m, mb_NodeID m ≠ self_id e) (Membership_All ms)) as l.
  induction l as [|m l IH]; [done|]. cbn. by rewrite <- IH.
Qed.

(** *** The setting: a membership all share, with distinct known addresses *)

Section Convergence.
Context (ms : Membership) (hm : Member).

Definition others : list Member := filter (λ m, mb_NodeID m ≠ mb_NodeID hm) (Membership_All ms).

(** [hm] has the highest id. *)
Definition addressed : Prop :=
  membership_ok ms ∧ Membership_Get ms (mb_NodeID hm) = Some hm ∧
  (∀ m m', m ∈ Membership_All ms → m' ∈ Membership_All ms → mb_Addr m = mb_Addr m' → m = m') ∧
  (∀ m, m ∈ Membership_All ms → mb_Addr m ≠ EmptyString) ∧
  (∀ m, m ∈ others → str_lt (mb_NodeID m) (mb_NodeID hm) = true).

(** Every member runs at its address, with a term that has room to grow;
    [hm] itself has the state [h]. *)
Definition populated (nodes : gmap string Election) (h : Election) : Prop :=
  nodes !! mb_Addr hm = Some h ∧ el_self h = hm ∧
  ∀ m, m ∈ others → ∃ e, nodes !! mb_Addr m = Some e ∧ el_self e = m.

Definition all_terms (nodes : gmap string Election) (t : Z) : Prop :=
  ∀ m e, m ∈ others → nodes !! mb_Addr m = Some e → 0 <= el_term e <= t.

Context (Hms : addressed).

Lemma ltb_irrefl s : str_lt s s = false.
Proof. unfold str_lt. pose proof (String.compare_antisym s s) as H. by destruct (s ?= s)%string. Qed.

Lemma ltb_asym a b : str_lt a b = true → str_lt b a = false.
Proof. unfold str_lt. rewrite (String.compare_antisym a b). by destruct (b ?= a)%string. Qed.

Lemma others_all m : m ∈ others → m ∈ Membership_All ms.
Proof. unfold others. by intros [_ ?]%list_elem_of_filter. Qed.

Lemma hm_all : hm ∈ Membership_All ms.
Proof. destruct Hms as (Hok & Hget & _). by apply Membership_All_elem. Qed.

Lemma others_addr_ne m : m ∈ others → mb_Addr m ≠ mb_Addr hm.
Proof.
  intros Hm Ha. pose proof (others_all _ Hm) as Hin.
  pose proof (proj1 (proj2 (proj2 Hms)) _ _ Hin hm_all Ha) as ->.
  unfold others in Hm. apply list_elem_of_filter in Hm as [Hne _]. done.
Qed.

Lemma All_nodup : NoDup (Membership_All ms).
Proof.
  apply (NoDup_fmap_1 mb_NodeID). destruct Hms as [Hok _]. pose proof (node_ids_nodup ms Hok) as Hn.
  unfold node_ids in Hn. by rewrite merge_sort_Permutation in Hn.
Qed.

Lemma others_nodup : NoDup others.
Proof. apply NoDup_filter, All_nodup. Qed.

Lemma peerAddr_member m : m ∈ Membership_All ms → peerAddr ms (mb_NodeID m) = mb_Addr m.
Proof.
  intros Hm. unfold peerAddr, Membership_Get. apply Membership_All_elem in Hm; [by rewrite Hm|].
  apply Hms.
Qed.

Lemma reply_to_hm e ty t :
  reply e ms ty (mb_NodeID hm) t = [Send (mb_Addr hm) (mkClusterMsg ty (self_id e) t [])].
Proof.
  unfold reply. rewrite peerAddr_member by apply hm_all. rewrite bool_decide_eq_false_2; [done|].
  apply Hms, hm_all.
Qed.

(** *** First phase: the requests *)

(** What a node does with the candidate's request: its state and its reply. *)
Definition asked (t : Z) (e : Election) : Election * ClusterMsg :=
  if el_term e <=? t then (conceded e t, mkClusterMsg MsgVoteGrant (self_id e) t [])
  else (e, mkClusterMsg MsgVoteDeny (self_id e) (el_term e) []).

Definition request (t : Z) : ClusterMsg := mkClusterMsg MsgVoteRequest (mb_NodeID hm) t [].

Lemma handle_request t e :
  el_self e ∈ others →
  ∃ b, handleMsg ms e (request t) =
    Some ((asked t e).1, b, [Send (mb_Addr hm) (asked t e).2]).
Proof.
  intros He. assert (str_lt (self_id e) (mb_NodeID hm) = true) as Hlt by by apply Hms.
  unfold handleMsg, request, asked. cbn [cm_Term cm_Type cm_From].
  change (MsgVoteRequest =? MsgHeartbeat) with false. change (MsgVoteRequest =? MsgVoteRequest) with true.
  cbv iota. destruct (Z.ltb_spec (el_term e) t) as [Hlt'|Hge].
  - change (self_id (with_term e t)) with (self_id e). change (el_term (with_term e t)) with t.
    rewrite Hlt, (proj2 (Z.leb_le t t)), (proj2 (Z.leb_le (el_term e) t)) by lia. cbn [andb fst snd].
    rewrite reply_to_hm. by eexists.
  - rewrite Hlt. cbn [andb]. destruct (Z.leb_spec (el_term e) t); cbn [fst snd]; rewrite reply_to_hm; by eexists.
Qed.

(** One message to every member of [l], each answering by [f]: the nodes
    afterwards and the answers. *)
Fixpoint serve_all (f : Election → Election * list (string * ClusterMsg)) (l : list Member)
    (nodes : gmap string Election) : gmap string Election * list (string * ClusterMsg) :=
  match l with
  | [] => (nodes, [])
  | m :: l =>
      match nodes !! mb_Addr m with
      | Some e =>
          let '(nodes', rs) := serve_all f l (<[mb_Addr m := (f e).1]> nodes) in
          (nodes', (f e).2 ++ rs)
      | None => serve_all f l nodes
      end
  end.

(** The members of [l] run at their addresses. *)
Definition present (l : list Member) (nodes : gmap string Election) : Prop :=
  NoDup l ∧ ∀ m, m ∈ l → m ∈ others ∧ ∃ e, nodes !! mb_Addr m = Some e ∧ el_self e = m.

Lemma present_tail m l nodes e :
  present (m :: l) nodes → present l (<[mb_Addr m := e]> nodes).
Proof.
  intros [[Hm Hnd]%NoDup_cons Hl]. split; [done|]. intros m' Hm'.
  destruct (Hl m') as (Ho' & e' & He' & Hself'); [by right|]. split; [done|].
  exists e'. split; [|done]. rewrite lookup_insert_ne; [done|]. intros Ha.
  destruct (Hl m) as [Ho _]; [by left|].
  assert (m = m') as -> by (apply Hms; [by apply others_all..|done]). done.
Qed.

Lemma serve_all_run msg f l : ∀ nodes R,
  (∀ e, el_self e ∈ others → ∃ b effs, handleMsg ms e msg = Some ((f e).1, b, effs) ∧ sends effs = (f e).2) →
  present l nodes →
  net_run ms (length l) (mkNet nodes (((λ m, (mb_Addr m, msg)) <$> l) ++ R)) =
    mkNet (serve_all f l nodes).1 (R ++ (serve_all f l nodes).2).
Proof.
  induction l as [|m l IH]; intros nodes R Hf Hl.
  { cbn. by rewrite app_nil_r. }
  pose proof (present_tail _ _ _ (f (default (NewElection m) (nodes !! mb_Addr m))).1 Hl) as Hl'.
  destruct Hl as [_ Hl]. destruct (Hl m) as (Ho & e & He & Hself); [by left|].
  rewrite He in Hl'. cbn [default from_option id] in Hl'.
  rewrite fmap_cons. cbn [length net_run app]. unfold net_deliver at 1. cbn [net_queue net_nodes].
  rewrite He. destruct (Hf e) as (b & effs & -> & ->); [by rewrite Hself|].
  rewrite <- app_assoc, IH by done. cbn [serve_all]. rewrite He.
  destruct (serve_all f l _) as [nodes' rs]. cbn [fst snd]. by rewrite <- app_assoc.
Qed.

(** Each member's own state and answer, and nobody else's. *)
Lemma serve_all_spec f l : ∀ nodes,
  present l nodes →
  (∀ m e, m ∈ l → nodes !! mb_Addr m = Some e → (serve_all f l nodes).1 !! mb_Addr m = Some (f e).1) ∧
  (∀ a, (∀ m, m ∈ l → mb_Addr m ≠ a) → (serve_all f l nodes).1 !! a = nodes !! a) ∧
  (∀ r, r ∈ (serve_all f l nodes).2 ↔ ∃ m e, m ∈ l ∧ nodes !! mb_Addr m = Some e ∧ r ∈ (f e).2).
Proof.
  induction l as [|m l IH]; intros nodes Hl.
  { split; [by intros m e ?%not_elem_of_nil|]. split; [done|]. intros r. split.
    - by intros ?%not_elem_of_nil.
    - by intros (m & e & ?%not_elem_of_nil & _). }
  pose proof (present_tail _ _ _ (f (default (NewElection m) (nodes !! mb_Addr m))).1 Hl) as Hl'.
  destruct Hl as [[Hm Hnd]%NoDup_cons Hl]. destruct (Hl m) as (Ho & e & He & Hself); [by left|].
  rewrite He in Hl'. cbn [default from_option id] in Hl'.
  destruct (IH _ Hl') as (Hin & Hout & Hrep). cbn [serve_all]. rewrite He.
  destruct (serve_all f l _) as [nodes' rs]. cbn [fst snd] in *.
  assert (∀ m', m' ∈ l → mb_Addr m' ≠ mb_Addr m) as Hne.
  { intros m' Hm' Ha. destruct (Hl m') as [Ho' _]; [by right|].
    assert (m' = m) as -> by (apply Hms; [by apply others_all..|done]). done. }
  split; [|split].
  - intros m' e' [->|Hm']%elem_of_cons Hl2.
    + rewrite He in Hl2. injection Hl2 as <-. rewrite Hout by done. by rewrite lookup_insert_eq.
    + apply Hin; [done|]. by rewrite lookup_insert_ne by (apply not_eq_sym; by apply Hne).
  - intros a Ha. rewrite Hout by (intros m' Hm'; apply Ha; by right).
    rewrite lookup_insert_ne; [done|]. apply Ha. by left.
  - intros r. rewrite elem_of_app, Hrep. split.
    + intros [Hr|(m' & e' & Hm' & Hl2 & Hr)]; [exists m, e; split; [by left|done]|].
      exists m', e'. split; [by right|]. by rewrite lookup_insert_ne in Hl2 by (apply not_eq_sym; by apply Hne).
    + intros (m' & e' & [->|Hm']%elem_of_cons & Hl2 & Hr).
      * rewrite He in Hl2. injection Hl2 as <-. by left.
      * right. exists m', e'. split; [done|]. by rewrite lookup_insert_ne by (apply not_eq_sym; by apply Hne).
Qed.

(** *** Second phase: the replies *)

(** The candidate takes one message. *)
Definition take_msg (h : Election) (r : ClusterMsg) : Election * list effect :=
  match handleMsg ms h r with
  | Some (h', _, effs) => (h', effs)
  | None => (h, [])
  end.

Fixpoint absorb (h : Election) (rs : list ClusterMsg) : Election * list (string * ClusterMsg) :=
  match rs with
  | [] => (h, [])
  | r :: rs =>
      let '(h1, e1) := take_msg h r in
      let '(h2, e2) := absorb h1 rs in
      (h2, sends e1 ++ e2)
  end.

Lemma absorb_run rs : ∀ nodes h R,
  nodes !! mb_Addr hm = Some h →
  net_run ms (length rs) (mkNet nodes ((pair (mb_Addr hm) <$> rs) ++ R)) =
    mkNet (<[mb_Addr hm := (absorb h rs).1]> nodes) (R ++ (absorb h rs).2).
Proof.
  induction rs as [|r rs IH]; intros nodes h R Hh.
  { cbn. by rewrite app_nil_r, insert_id. }
  rewrite fmap_cons. cbn [length net_run app absorb]. unfold net_deliver at 1. cbn [net_queue net_nodes].
  rewrite Hh. unfold take_msg. destruct (handleMsg ms h r) as [[[h1 b] effs]|].
  - rewrite <- app_assoc, (IH _ h1) by apply lookup_insert_eq. rewrite insert_insert_eq.
    destruct (absorb h1 rs) as [h2 e2]. cbn [fst snd]. by rewrite <- app_assoc.
  - rewrite (IH _ h) by done. by destruct (absorb h rs).
Qed.

Definition heartbeats (t : Z) : list (string * ClusterMsg) :=
  (λ m, (mb_Addr m, mkClusterMsg MsgHeartbeat (mb_NodeID hm) t [])) <$> others.

Definition is_vote (r : ClusterMsg) : Prop := cm_Type r = MsgVoteGrant ∨ cm_Type r = MsgVoteDeny.

Lemma becomeLeader_heartbeats h :
  el_self h = hm → sends (becomeLeaderLocked ms h).2 = heartbeats (el_term h).
Proof.
  intros Hs. unfold becomeLeaderLocked. cbn [snd]. change (sends (FireLeaderCallback :: ?l)) with (sends l).
  rewrite sends_broadcast. unfold self_id. cbn [el_self el_term]. by rewrite Hs.
Qed.

(** A candidate's map of grants is not nil. *)
Definition sound (h : Election) : Prop := el_role h = RoleCandidate → is_Some (el_grantsHad h).

Lemma take_vote h r :
  el_self h = hm → sound h → is_vote r →
  let '(h', effs) := take_msg h r in
  el_self h' = hm ∧ sound h' ∧ el_term h' = Z.max (el_term h) (cm_Term r) ∧
  (el_role h = RoleLeader → el_role h' = RoleLeader) ∧
  (sends effs = [] ∨ el_role h' = RoleLeader ∧ el_role h ≠ RoleLeader ∧ sends effs = heartbeats (el_term h')).
Proof.
  intros Hs Hsound Hr. unfold take_msg, handleMsg.
  set (h1 := if el_term h <? cm_Term r then with_term h (cm_Term r) else h).
  assert (el_self h1 = hm ∧ el_term h1 = Z.max (el_term h) (cm_Term r) ∧ el_role h1 = el_role h ∧
          el_grantsHad h1 = el_grantsHad h) as (Hs1 & Ht1 & Hr1 & Hh1).
  { unfold h1. destruct (Z.ltb_spec (el_term h) (cm_Term r)); cbn; split_and!; try done; lia. }
  assert (sound h1) as Hsound1 by (unfold sound; by rewrite Hr1, Hh1).
  clearbody h1. rewrite <- Hr1.
  assert (el_self h1 = hm ∧ sound h1 ∧ el_term h1 = Z.max (el_term h) (cm_Term r) ∧
    (el_role h1 = RoleLeader → el_role h1 = RoleLeader) ∧
    (sends [] = [] ∨ el_role h1 = RoleLeader ∧ el_role h1 ≠ RoleLeader ∧ sends [] = heartbeats (el_term h1)))
    as Hsame by (split_and!; [done|done|done|done|by left]).
  destruct Hr as [-> | ->]; [|exact Hsame].
  change (MsgVoteGrant =? MsgHeartbeat) with false. change (MsgVoteGrant =? MsgVoteRequest) with false.
  change (MsgVoteGrant =? MsgVoteGrant) with true. cbv iota.
  case_bool_decide as Hc; [|exact Hsame]. cbn [andb].
  destruct (cm_Term r =? el_term h1); [|exact Hsame].
  destruct (Hsound1 Hc) as [had ->]. case_bool_decide as Hall.
  - set (h2 := mkElection _ _ _ _ _ _ _). pose proof (becomeLeader_heartbeats h2 Hs1) as Hb.
    destruct (becomeLeaderLocked ms h2) as [h3 effs] eqn:Hbl.
    unfold becomeLeaderLocked in Hbl. injection Hbl as <- <-. cbn [el_self el_term el_role].
    split_and!; [done|done|done|done|]. right. split_and!; [done|by rewrite Hc|exact Hb].
  - cbn [el_self el_term el_role]. split_and!; [done|by eexists|done|done|by left].
Qed.

(** After the replies the candidate's term is the highest it has seen, and it
    has announced itself at most once. *)
Lemma absorb_votes rs : ∀ h,
  el_self h = hm → sound h → Forall is_vote rs →
  el_self (absorb h rs).1 = hm ∧ el_term h <= el_term (absorb h rs).1 ∧
  (∀ r, r ∈ rs → cm_Term r <= el_term (absorb h rs).1) ∧
  (∀ T, el_term h <= T → Forall (λ r, cm_Term r <= T) rs → el_term (absorb h rs).1 <= T) ∧
  (el_role h = RoleLeader → (absorb h rs).2 = []) ∧
  ((absorb h rs).2 = [] ∨ ∃ t, (absorb h rs).2 = heartbeats t ∧ el_term h <= t <= el_term (absorb h rs).1).
Proof.
  induction rs as [|r rs IH]; intros h Hs Hsound Hrs.
  { cbn. split_and!; [done|done|by intros r ?%not_elem_of_nil|done|done|by left]. }
  apply Forall_cons in Hrs as [Hr Hrs]. pose proof (take_vote h r Hs Hsound Hr) as Ht. cbn [absorb].
  destruct (take_msg h r) as [h1 e1]. destruct Ht as (Hs1 & Hsound1 & Ht1 & Hl1 & He1).
  destruct (IH h1 Hs1 Hsound1 Hrs) as (Hs2 & Hle & Hall & Hbound & Hlead & Hq).
  destruct (absorb h1 rs) as [h2 e2]. cbn [fst snd] in *. split; [done|]. split; [lia|]. split.
  { intros r' [->|Hr']%elem_of_cons; [lia|by apply Hall]. }
  split.
  { intros T HT [HrT HT']%Forall_cons. apply Hbound; [lia|done]. }
  destruct He1 as [He1|(Hnow & Hnot & He1)]; rewrite He1.
  - split; [by intros ?; apply Hlead, Hl1|]. destruct Hq as [->|(t & -> & Ht)]; [by left|].
    right. exists t. split; [done|lia].
  - split; [done|]. rewrite (Hlead Hnow), app_nil_r. right. exists (el_term h1). split; [done|lia].
Qed.

(** *** Third phase: the heartbeats *)

Definition followed (t : Z) (e : Election) : Election :=
  setLeaderLocked ms (if el_term e <? t then with_term e t else e) (mb_NodeID hm) t.

Lemma handle_heartbeat t e :
  el_self e ∈ others →
  handleMsg ms e (mkClusterMsg MsgHeartbeat (mb_NodeID hm) t []) = Some (followed t e, true, []).
Proof.
  intros He. assert (str_lt (self_id e) (mb_NodeID hm) = true) as Hlt by by apply Hms.
  unfold handleMsg, followed. cbn [cm_Term cm_Type cm_From].
  change (MsgHeartbeat =? MsgHeartbeat) with true. cbv iota.
  assert (self_id (if el_term e <? t then with_term e t else e) = self_id e) as ->
    by by destruct (el_term e <? t).
  by rewrite Hlt.
Qed.

Lemma followed_spec t e :
  el_self (followed t e) = el_self e ∧ el_role (followed t e) = RoleFollower ∧
  el_leader (followed t e) = Some hm ∧ el_term (followed t e) = t.
Proof.
  unfold followed, setLeaderLocked. rewrite (proj1 (proj2 Hms)). cbn. by destruct (el_term e <? t).
Qed.

(** *** A round: a timeout of [hm] and the delivery of all that follows *)

Definition net_round (n : Net) : Net :=
  net_run ms (3 * length others) (net_timeout ms (mb_Addr hm) n).

Lemma net_run_idle k nodes : net_run ms k (mkNet nodes []) = mkNet nodes [].
Proof. induction k as [|k IH]; [done|]. exact IH. Qed.

Lemma lower_ids_others h id :
  el_self h = hm → id ∈ lower_ids h ms ↔ ∃ m, m ∈ others ∧ id = mb_NodeID m.
Proof.
  intros Hs. unfold lower_ids, self_id. rewrite Hs, list_elem_of_filter, list_elem_of_fmap. split.
  - intros (Hlt & m & -> & Hm). exists m. split; [|done]. apply list_elem_of_filter. split; [|done].
    intros Heq. by rewrite Heq, ltb_irrefl in Hlt.
  - intros (m & Hm & ->). split; [by apply Hms|]. exists m. split; [done|by apply others_all].
Qed.

Lemma populated_present nodes h : populated nodes h → present others nodes.
Proof.
  intros (_ & _ & Ho). split; [apply others_nodup|]. intros m Hm. split; [done|by apply Ho].
Qed.

Definition ask (t : Z) (e : Election) : Election * list (string * ClusterMsg) :=
  ((asked t e).1, [(mb_Addr hm, (asked t e).2)]).

Definition beat (t : Z) (e : Election) : Election * list (string * ClusterMsg) := (followed t e, []).

Lemma serve_all_length f l : ∀ nodes,
  (∀ e, length (f e).2 = 1%nat) → (length (serve_all f l nodes).2 <= length l)%nat.
Proof.
  induction l as [|m l IH]; intros nodes Hf; [done|]. cbn [serve_all].
  destruct (nodes !! mb_Addr m) as [e|]; [|specialize (IH nodes Hf); simpl; lia].
  specialize (IH (<[mb_Addr m := (f e).1]> nodes) Hf). destruct (serve_all f l _) as [nodes' rs].
  cbn [fst snd] in *. rewrite length_app, Hf. simpl. lia.
Qed.

Lemma serve_all_silent f l : ∀ nodes, (∀ e, (f e).2 = []) → (serve_all f l nodes).2 = [].
Proof.
  induction l as [|m l IH]; intros nodes Hf; [done|]. cbn [serve_all].
  destruct (nodes !! mb_Addr m) as [e|]; [|by apply IH].
  specialize (IH (<[mb_Addr m := (f e).1]> nodes) Hf). destruct (serve_all f l _) as [nodes' rs].
  cbn [fst snd] in *. by rewrite Hf, IH.
Qed.

(** The candidate's state, the members' after its requests, and their replies. *)
Definition standing (h : Election) : Election := (handleElectionTimeout ms ms h).1.

Definition polled (nodes : gmap string Election) (h : Election) :
    gmap string Election * list (string * ClusterMsg) :=
  serve_all (ask (el_term h + 1)) others (<[mb_Addr hm := standing h]> nodes).

Definition replies (nodes : gmap string Election) (h : Election) : list ClusterMsg := (polled nodes h).2.*2.

Lemma populated_insert nodes h h' :
  populated nodes h → el_self h' = hm → populated (<[mb_Addr hm := h']> nodes) h'.
Proof.
  intros (_ & _ & Ho) Hs. split; [by apply lookup_insert_eq|]. split; [done|].
  intros m Hm. destruct (Ho m Hm) as (e & He & Hse). exists e. split; [|done].
  rewrite lookup_insert_ne; [done|]. by apply not_eq_sym, others_addr_ne.
Qed.

Lemma standing_spec h :
  el_self h = hm → 0 <= el_term h < 2 ^ 64 - 1 → others ≠ [] →
  el_self (standing h) = hm ∧ el_term (standing h) = el_term h + 1 ∧ el_role (standing h) = RoleCandidate ∧
  el_grantsNeeded (standing h) = Some (list_to_set (lower_ids h ms)) ∧ el_grantsHad (standing h) = Some ∅ ∧
  sends (handleElectionTimeout ms ms h).2 = (λ m, (mb_Addr m, request (el_term h + 1))) <$> others.
Proof.
  intros Hs Ht Hne. unfold standing, handleElectionTimeout. rewrite bool_decide_eq_false_2.
  - cbn [fst snd]. rewrite sends_broadcast. unfold self_id, emitElectionCountLocked, Election_SetMetrics.
    cbn [el_self el_term el_role el_grantsNeeded el_grantsHad]. rewrite Hs, u64_id by (unfold is_u64; lia).
    done.
  - destruct others as [|m l] eqn:Ho; [done|]. intros Hempty.
    assert (mb_NodeID m ∈ (list_to_set (lower_ids h ms) : gset string)) as Hin.
    { apply elem_of_list_to_set, (lower_ids_others h); [done|]. exists m. rewrite Ho. split; [by left|done]. }
    rewrite Hempty in Hin. by apply not_elem_of_empty in Hin.
Qed.

Lemma net_round_shape nodes h :
  populated nodes h → 0 <= el_term h < 2 ^ 64 - 1 → others ≠ [] →
  ∃ k, (length others <= k)%nat ∧
    net_round (mkNet nodes []) =
      net_run ms k (mkNet (<[mb_Addr hm := (absorb (standing h) (replies nodes h)).1]> (polled nodes h).1)
        (absorb (standing h) (replies nodes h)).2).
Proof.
  intros Hpop Ht Hne. destruct (standing_spec h (proj1 (proj2 Hpop)) Ht Hne) as (Hs & _ & _ & _ & _ & Hq).
  pose proof (populated_insert _ _ _ Hpop Hs) as Hpop1.
  unfold net_round, net_timeout. cbn [net_nodes]. rewrite (proj1 Hpop).
  unfold standing in *. destruct (handleElectionTimeout ms ms h) as [h0 effs] eqn:He. cbn [fst snd net_queue app] in *.
  rewrite Hq. set (t := el_term h + 1) in *.
  assert (polled nodes h = serve_all (ask t) others (<[mb_Addr hm := h0]> nodes)) as Hpoll
    by (unfold polled, standing; by rewrite He).
  pose proof (serve_all_length (ask t) others (<[mb_Addr hm := h0]> nodes) (λ _, eq_refl)) as Hlen.
  destruct (serve_all_spec (ask t) others _ (populated_present _ _ Hpop1)) as (_ & Hout & Hrep).
  assert (length (replies nodes h) = length (polled nodes h).2) as Hlr by (unfold replies; by rewrite length_fmap).
  rewrite <- Hpoll in *.
  assert (pair (mb_Addr hm) <$> replies nodes h = (polled nodes h).2) as Hpair.
  { unfold replies. rewrite <- list_fmap_compose. rewrite <- (list_fmap_id (polled nodes h).2) at 2.
    apply list_fmap_ext. intros i [a r] Hi. apply list_elem_of_lookup_2 in Hi.
    apply Hrep in Hi as (m & e & _ & _ & Hi). apply list_elem_of_singleton in Hi as [= -> ->]. done. }
  exists (3 * length others - length others - length (replies nodes h))%nat. split; [lia|].
  replace (3 * length others)%nat with
    (length others + (length (replies nodes h) + (3 * length others - length others - length (replies nodes h))))%nat at 1 by lia.
  rewrite net_run_add. rewrite <- (app_nil_r (_ <$> others)).
  rewrite (serve_all_run _ (ask t)); [|intros e Hse|by eapply populated_present].
  - rewrite <- Hpoll, net_run_add. cbn [app]. rewrite <- Hpair, <- (app_nil_r (pair _ <$> _)).
    rewrite (absorb_run _ _ h0); [done|]. rewrite Hout; [by apply Hpop1|]. intros m Hm. by apply others_addr_ne.
  - destruct (handle_request t e Hse) as (b & ->). by eexists _, _.
Qed.

(** The state and reply of one member, from its state before the round. *)
Lemma polled_spec nodes h :
  populated nodes h → 0 <= el_term h < 2 ^ 64 - 1 → others ≠ [] →
  (∀ m e, m ∈ others → nodes !! mb_Addr m = Some e →
    (polled nodes h).1 !! mb_Addr m = Some (asked (el_term h + 1) e).1) ∧
  (∀ r, r ∈ replies nodes h ↔
    ∃ m e, m ∈ others ∧ nodes !! mb_Addr m = Some e ∧ r = (asked (el_term h + 1) e).2).
Proof.
  intros Hpop Ht Hne. destruct (standing_spec h (proj1 (proj2 Hpop)) Ht Hne) as (Hs & _).
  pose proof (populated_insert _ _ _ Hpop Hs) as Hpop1.
  destruct (serve_all_spec (ask (el_term h + 1)) others _ (populated_present _ _ Hpop1)) as (Hin & _ & Hrep).
  assert (∀ m, m ∈ others → <[mb_Addr hm := standing h]> nodes !! mb_Addr m = nodes !! mb_Addr m) as Hl.
  { intros m Hm. rewrite lookup_insert_ne; [done|]. by apply not_eq_sym, others_addr_ne. }
  split.
  - intros m e Hm He. apply (Hin m e Hm). by rewrite Hl.
  - intros r. unfold replies. rewrite list_elem_of_fmap. split.
    + intros ([a r'] & -> & Hr). apply Hrep in Hr as (m & e & Hm & He & Hr).
      apply list_elem_of_singleton in Hr as [= -> ->]. exists m, e. by rewrite <- Hl.
    + intros (m & e & Hm & He & ->). exists (mb_Addr hm, (asked (el_term h + 1) e).2). split; [done|].
      apply Hrep. exists m, e. rewrite Hl by done. split; [done|]. split; [done|].
      by apply list_elem_of_singleton.
Qed.

Lemma asked_facts t e :
  el_self (asked t e).1 = el_self e ∧ el_term (asked t e).1 = Z.max t (el_term e) ∧
  is_vote (asked t e).2 ∧ cm_Term (asked t e).2 = Z.max t (el_term e) ∧
  cm_From (asked t e).2 = mb_NodeID (el_self e) ∧
  (el_term e <= t → cm_Type (asked t e).2 = MsgVoteGrant).
Proof.
  unfold asked. destruct (Z.leb_spec (el_term e) t); cbn; (split_and!; [done|lia| |lia|done|]).
  - by left.
  - done.
  - by right.
  - lia.
Qed.

Lemma replies_votes nodes h :
  populated nodes h → 0 <= el_term h < 2 ^ 64 - 1 → others ≠ [] → Forall is_vote (replies nodes h).
Proof.
  intros Hpop Ht Hne. destruct (polled_spec nodes h Hpop Ht Hne) as [_ Hrep].
  apply Forall_forall. intros r Hr. apply Hrep in Hr as (m & e & _ & _ & ->). by apply asked_facts.
Qed.

(** The nodes once the candidate has taken the replies: [q] is what it sends. *)
Lemma heartbeats_run k nodes h t :
  populated nodes h → (length others <= k)%nat →
  ∃ nodes', net_run ms k (mkNet nodes (heartbeats t)) = mkNet nodes' [] ∧ populated nodes' h ∧
    ∀ m e, m ∈ others → nodes !! mb_Addr m = Some e → nodes' !! mb_Addr m = Some (followed t e).
Proof.
  intros Hpop Hk. pose proof (populated_present _ _ Hpop) as Hpres.
  destruct (serve_all_spec (beat t) others nodes Hpres) as (Hin & Hout & _).
  exists (serve_all (beat t) others nodes).1. split; [|split].
  - replace k with (length others + (k - length others))%nat by lia. rewrite net_run_add.
    unfold heartbeats. rewrite <- (app_nil_r (_ <$> others)).
    rewrite (serve_all_run _ (beat t)) by (done || intros e He; rewrite handle_heartbeat by done; by eexists _, _).
    rewrite serve_all_silent by done. apply net_run_idle.
  - destruct Hpop as (Hh & Hs & Ho). split; [|split; [done|]].
    + rewrite Hout; [done|]. intros m Hm. by apply others_addr_ne.
    + intros m Hm. destruct (Ho m Hm) as (e & He & Hse). exists (followed t e).
      split; [by apply (Hin m e)|]. by rewrite (proj1 (followed_spec t e)).
  - intros m e Hm He. by apply (Hin m e).
Qed.

(** Alone, the node wins at once and has nobody to tell. *)
Lemma net_round_alone nodes h :
  populated nodes h → 0 <= el_term h < 2 ^ 64 - 1 → others = [] →
  net_round (mkNet nodes []) = mkNet (<[mb_Addr hm := standing h]> nodes) [] ∧
  el_self (standing h) = hm ∧ el_term (standing h) = el_term h + 1 ∧
  el_role (standing h) = RoleLeader ∧ el_leader (standing h) = Some hm.
Proof.
  intros Hpop Ht Ho.
  set (h0 := emitElectionCountLocked (mkElection (el_self h) RoleCandidate (u64 (el_term h + 1)) (el_leader h)
    (Some (list_to_set (lower_ids h ms))) (Some ∅) (el_metrics h))).
  assert (handleElectionTimeout ms ms h = becomeLeaderLocked ms h0) as Hw.
  { unfold handleElectionTimeout. rewrite bool_decide_eq_true_2; [done|].
    apply set_eq. intros id. rewrite elem_of_list_to_set, (lower_ids_others h) by apply Hpop.
    rewrite Ho. split; [by intros (m & ?%not_elem_of_nil & _)|by intros ?%not_elem_of_empty]. }
  pose proof (becomeLeader_heartbeats h0 (proj1 (proj2 Hpop))) as Hb.
  unfold heartbeats in Hb. rewrite Ho in Hb. split.
  - unfold net_round, net_timeout, standing. rewrite Ho. cbn [length Nat.mul net_run net_nodes net_queue].
    rewrite (proj1 Hpop), Hw. destruct (becomeLeaderLocked ms h0) as [h1 effs]. cbn [fst snd app] in *.
    by rewrite Hb.
  - unfold standing. rewrite Hw. cbn. rewrite (proj1 (proj2 Hpop)), u64_id by (unfold is_u64; lia). done.
Qed.

(** The members and the candidate between the replies and what follows. *)
Lemma polled_populated nodes h h2 :
  populated nodes h → 0 <= el_term h < 2 ^ 64 - 1 → others ≠ [] → el_self h2 = hm →
  populated (<[mb_Addr hm := h2]> (polled nodes h).1) h2.
Proof.
  intros Hpop Ht Hne Hs. destruct (polled_spec nodes h Hpop Ht Hne) as [Hst _].
  split; [by apply lookup_insert_eq|]. split; [done|]. intros m Hm.
  destruct (proj2 (proj2 Hpop) m Hm) as (e & He & Hse). exists (asked (el_term h + 1) e).1. split.
  - rewrite lookup_insert_ne by (by apply not_eq_sym, others_addr_ne). by apply Hst.
  - by rewrite (proj1 (asked_facts _ e)).
Qed.

(** After a round the highest node has caught up with every term. *)
Lemma net_round_terms nodes h T :
  populated nodes h → 0 <= el_term h < T → T < 2 ^ 64 → all_terms nodes T →
  ∃ nodes' h', net_round (mkNet nodes []) = mkNet nodes' [] ∧ populated nodes' h' ∧
    0 <= el_term h' <= T ∧ all_terms nodes' (el_term h').
Proof.
  intros Hpop Ht HT Hall. assert (0 <= el_term h < 2 ^ 64 - 1) as Ht' by lia.
  destruct (decide (others = [])) as [Ho|Hne].
  { destruct (net_round_alone nodes h Hpop Ht' Ho) as (-> & Hs & Hst & _).
    eexists _, _. split; [done|]. split; [by eapply populated_insert|]. split; [lia|].
    intros m e Hm. rewrite Ho in Hm. by apply not_elem_of_nil in Hm. }
  destruct (standing_spec h (proj1 (proj2 Hpop)) Ht' Hne) as (Hs & Hst & Hrole & _ & Hhad & _).
  destruct (net_round_shape nodes h Hpop Ht' Hne) as (k & Hk & ->).
  destruct (polled_spec nodes h Hpop Ht' Hne) as [Hst2 Hrep].
  destruct (absorb_votes (replies nodes h) (standing h) Hs) as (Hs2 & Hle & Hmax & Hbound & _ & Hq);
    [by intros _; rewrite Hhad|by apply replies_votes|].
  set (h2 := (absorb (standing h) (replies nodes h)).1) in *.
  assert (el_term h2 <= T) as HT2.
  { apply Hbound; [lia|]. apply Forall_forall. intros r Hr. apply Hrep in Hr as (m & e & Hm & He & ->).
    destruct (asked_facts (el_term h + 1) e) as (_ & _ & _ & -> & _). specialize (Hall m e Hm He). lia. }
  pose proof (polled_populated nodes h h2 Hpop Ht' Hne Hs2) as Hpop2.
  assert (all_terms (<[mb_Addr hm := h2]> (polled nodes h).1) (el_term h2)) as Hall2.
  { intros m e' Hm He'. rewrite lookup_insert_ne in He' by (by apply not_eq_sym, others_addr_ne).
    destruct (proj2 (proj2 Hpop) m Hm) as (e & He & _). rewrite (Hst2 m e Hm He) in He'. injection He' as <-.
    destruct (asked_facts (el_term h + 1) e) as (_ & Hte & _ & Htr & _).
    pose proof (Hmax (asked (el_term h + 1) e).2 ltac:(apply Hrep; by exists m, e)). specialize (Hall m e Hm He). lia. }
  destruct Hq as [->|(t & -> & Htb)].
  - rewrite net_run_idle. eexists _, h2. split; [done|]. split; [done|]. split; [lia|done].
  - destruct (heartbeats_run k _ h2 t Hpop2 Hk) as (nodes' & -> & Hpop' & Hf).
    exists nodes', h2. split; [done|]. split; [done|]. split; [lia|].
    intros m e' Hm He'. destruct (proj2 (proj2 Hpop2) m Hm) as (e & He & _).
    rewrite (Hf m e Hm He) in He'. injection He' as <-. destruct (followed_spec t e) as (_ & _ & _ & ->). lia.
Qed.

Lemma take_vote_leader h r :
  el_role h = RoleLeader → is_vote r → cm_Term r <= el_term h → take_msg h r = (h, []).
Proof.
  intros Hl Hr Ht. unfold take_msg, handleMsg. rewrite (proj2 (Z.ltb_ge _ _)) by done.
  destruct Hr as [-> | ->]; [|done]. cbn. by rewrite Hl.
Qed.

Lemma absorb_leader h rs :
  el_role h = RoleLeader → Forall (λ r, is_vote r ∧ cm_Term r <= el_term h) rs → absorb h rs = (h, []).
Proof.
  intros Hl. induction 1 as [|r rs [Hr Ht] _ IH]; [done|]. cbn [absorb].
  rewrite take_vote_leader by done. by rewrite IH.
Qed.

(** Grants from everybody needed make the candidate a leader. *)
Lemma absorb_grants rs : ∀ h needed had,
  el_self h = hm → el_role h = RoleCandidate → el_grantsNeeded h = Some needed → el_grantsHad h = Some had →
  Forall (λ r, cm_Type r = MsgVoteGrant ∧ cm_Term r = el_term h) rs →
  needed ⊆ list_to_set (cm_From <$> rs) ∪ had → ¬ needed ⊆ had →
  ∃ h', absorb h rs = (h', heartbeats (el_term h)) ∧ el_self h' = hm ∧ el_role h' = RoleLeader ∧
    el_leader h' = Some hm ∧ el_term h' = el_term h.
Proof.
  induction rs as [|r rs IH]; intros h needed had Hs Hc Hn Hh Hrs Hall Hnot.
  { exfalso. apply Hnot. set_solver. }
  apply Forall_cons in Hrs as [[Hty Ht] Hrs]. cbn [absorb]. unfold take_msg, handleMsg.
  rewrite (proj2 (Z.ltb_ge _ _)), Hty, Hc, Ht, Z.eqb_refl, Hh, Hn by lia.
  change (MsgVoteGrant =? MsgHeartbeat) with false. change (MsgVoteGrant =? MsgVoteRequest) with false.
  change (MsgVoteGrant =? MsgVoteGrant) with true. cbv iota. cbn [bool_decide decide_rel andb default from_option id].
  rewrite bool_decide_eq_true_2, Z.eqb_refl by done. cbn [andb]. case_bool_decide as Hin.
  - set (h2 := mkElection _ _ _ _ _ _ _). pose proof (becomeLeader_heartbeats h2 Hs) as Hb.
    destruct (becomeLeaderLocked ms h2) as [h3 effs] eqn:Hbl. cbn [snd] in Hb. cbv beta iota. rewrite Hb.
    unfold becomeLeaderLocked in Hbl. injection Hbl as <- _. rewrite absorb_leader, app_nil_r; [|done|].
    + eexists. split; [reflexivity|]. cbn. by rewrite Hs.
    + eapply Forall_impl; [exact Hrs|]. intros r' [Hty' Ht']. split; [by left|]. cbn. lia.
  - set (h2 := mkElection _ _ _ _ _ _ _).
    destruct (IH h2 needed ({[cm_From r]} ∪ had)) as (h' & -> & Hrest); try done.
    + set_solver.
    + exists h'. done.
Qed.

(** A node that knows of no higher term wins in one round, and all follow it. *)
Lemma net_round_wins nodes h :
  populated nodes h → 0 <= el_term h < 2 ^ 64 - 1 → all_terms nodes (el_term h + 1) →
  ∃ nodes' h', net_round (mkNet nodes []) = mkNet nodes' [] ∧ populated nodes' h' ∧
    el_role h' = RoleLeader ∧ el_leader h' = Some hm ∧ el_term h' = el_term h + 1 ∧
    ∀ m e, m ∈ others → nodes' !! mb_Addr m = Some e →
      el_role e = RoleFollower ∧ el_leader e = Some hm ∧ el_term e = el_term h + 1.
Proof.
  intros Hpop Ht Hall. destruct (decide (others = [])) as [Ho|Hne].
  { destruct (net_round_alone nodes h Hpop Ht Ho) as (-> & Hs & Hst & Hr & Hl).
    eexists _, _. split; [done|]. split; [by eapply populated_insert|]. split_and!; try done.
    intros m e Hm. rewrite Ho in Hm. by apply not_elem_of_nil in Hm. }
  destruct (standing_spec h (proj1 (proj2 Hpop)) Ht Hne) as (Hs & Hst & Hrole & Hneed & Hhad & _).
  destruct (net_round_shape nodes h Hpop Ht Hne) as (k & Hk & ->).
  destruct (polled_spec nodes h Hpop Ht Hne) as [Hst2 Hrep].
  destruct (absorb_grants (replies nodes h) (standing h) _ _ Hs Hrole Hneed Hhad) as (h2 & Heq & Hs2 & Hr2 & Hl2 & Ht2).
  - apply Forall_forall. intros r Hr. apply Hrep in Hr as (m & e & Hm & He & ->). specialize (Hall m e Hm He).
    destruct (asked_facts (el_term h + 1) e) as (_ & _ & _ & -> & _ & Hg). split; [apply Hg; lia|lia].
  - intros id Hid. apply elem_of_list_to_set, lower_ids_others in Hid as (m & Hm & ->); [|apply Hpop].
    apply elem_of_union_l, elem_of_list_to_set, list_elem_of_fmap.
    destruct (proj2 (proj2 Hpop) m Hm) as (e & He & Hse). exists (asked (el_term h + 1) e).2.
    split; [|apply Hrep; by exists m, e].
    destruct (asked_facts (el_term h + 1) e) as (_ & _ & _ & _ & -> & _). by rewrite Hse.
  - intros Hempty. destruct others as [|m l] eqn:Ho; [done|].
    assert (mb_NodeID m ∈ (∅ : gset string)) as Hin; [|by apply not_elem_of_empty in Hin].
    apply Hempty, elem_of_list_to_set, lower_ids_others; [apply Hpop|]. exists m. rewrite Ho. split; [by left|done].
  - rewrite Heq. cbn [fst snd]. rewrite Hst in *.
    pose proof (polled_populated nodes h h2 Hpop Ht Hne Hs2) as Hpop2.
    destruct (heartbeats_run k _ h2 (el_term h + 1) Hpop2 Hk) as (nodes' & -> & Hpop' & Hf).
    exists nodes', h2. split; [done|]. split; [done|]. split; [done|]. split; [done|]. split; [lia|].
    intros m e' Hm He'. destruct (proj2 (proj2 Hpop2) m Hm) as (e & He & _).
    rewrite (Hf m e Hm He) in He'. injection He' as <-. by destruct (followed_spec (el_term h + 1) e) as (_ & -> & -> & ->).
Qed.
End Convergence.

(** ** What the algorithm promises, and where it does not deliver *)

(** C10: the highest member takes over. Whatever roles, terms and leaders the
    members start with, after two timeouts of the member with the highest id,
    each followed by the delivery of all that is sent, oldest first, with no
    other timeout in between, it leads, and every other member follows it in its
    term; nothing is left in flight. One timeout is not enough when its term
    lags behind. The members agree on the membership, have distinct addresses
    and terms below 2^64 - 2. *)
Theorem bully_highest_takes_over ms hm nodes h T :
  addressed ms hm → populated ms hm nodes h → 0 <= el_term h <= T → all_terms ms hm nodes T →
  T < 2 ^ 64 - 2 →
  ∃ nodes' h', net_round ms hm (net_round ms hm (mkNet nodes [])) = mkNet nodes' [] ∧
    nodes' !! mb_Addr hm = Some h' ∧ el_role h' = RoleLeader ∧ el_leader h' = Some hm ∧
    ∀ m, m ∈ others ms hm → ∃ e, nodes' !! mb_Addr m = Some e ∧ el_self e = m ∧
      el_role e = RoleFollower ∧ el_leader e = Some hm ∧ el_term e = el_term h'.
Proof.
  intros Hms Hpop Ht Hall HT.
  assert (all_terms ms hm nodes (T + 1)) as Hall' by (intros m e Hm He; specialize (Hall m e Hm He); lia).
  destruct (net_round_terms ms hm Hms nodes h (T + 1)) as (n1 & h1 & -> & Hpop1 & Ht1 & Hall1); [done|lia|lia|done|].
  destruct (net_round_wins ms hm Hms n1 h1) as (n2 & h2 & -> & Hpop2 & Hr & Hl & Hterm & Hf); [done|lia| |].
  { intros m e Hm He. specialize (Hall1 m e Hm He). lia. }
  exists n2, h2. split; [done|]. split; [apply Hpop2|]. split; [done|]. split; [done|].
  intros m Hm. destruct (proj2 (proj2 Hpop2) m Hm) as (e & He & Hse). exists e. rewrite Hterm.
  by destruct (Hf m e Hm He) as (-> & -> & ->).
Qed.

(** The timer does not spare a leader: it opens an election against itself and
    no longer leads until every lower member has answered. *)
Lemma leader_timeout_steps_down ms ms' e m :
  m ∈ Membership_All ms → str_lt (mb_NodeID m) (self_id e) = true →
  el_role (handleElectionTimeout ms ms' e).1 = RoleCandidate.
Proof.
  intros Hm Hlt. unfold handleElectionTimeout. rewrite bool_decide_eq_false_2; [done|]. intros Hempty.
  assert (mb_NodeID m ∈ (list_to_set (lower_ids e ms) : gset string)) as Hin.
  { apply elem_of_list_to_set. unfold lower_ids. apply list_elem_of_filter. split; [done|].
    apply list_elem_of_fmap. by exists m. }
  rewrite Hempty in Hin. by apply not_elem_of_empty in Hin.
Qed.

(** A member that no longer answers keeps every higher node from leading. *)
Lemma silent_member_blocks self mt evs dead :
  str_lt dead (mb_NodeID self) = true →
  (∀ ms ms', ETimeout ms ms' ∈ evs → dead ∈ mb_NodeID <$> Membership_All ms) →
  (∀ ms msg, EMsg ms msg ∈ evs → cm_Type msg = MsgVoteGrant → cm_From msg ≠ dead) →
  ∃ e, election_run (Election_SetMetrics (NewElection self) mt) evs = Some e ∧ el_role e ≠ RoleLeader.
Proof.
  intros Hlt Hknown Hsilent. destruct (election_run_inv self mt evs) as (e & Hrun & Hs & Hr).
  exists e. split; [done|]. intros Hrole. rewrite Hrole in Hr.
  destruct Hr as (ms & t & post & (pre & ms' & e1 & -> & _) & _ & Hg).
  destruct (Hg dead) as (ms2 & msg & Hin & Hty & Hfrom & _).
  - unfold lower_ids. apply list_elem_of_filter. split; [done|]. apply (Hknown ms ms').
    apply elem_of_app. right. by left.
  - apply (Hsilent ms2 msg); [|done|done]. apply elem_of_app. right. by right.
Qed.

(** ** A cluster of three *)

Definition member_a : Member := mkMember "a" "h:1" "" 0.
Definition member_b : Member := mkMember "b" "h:2" "" 0.
Definition member_c : Member := mkMember "c" "h:3" "" 0.

Definition abc_members : Membership :=
  Membership_Add (Membership_Add (NewMembership member_a) member_b) member_c.

(** [b] thinks it leads in term 9, [a] is a candidate of term 3, [c] is behind. *)
Definition abc_nodes : gmap string Election :=
  <["h:1" := mkElection member_a RoleCandidate 3 None (Some ∅) (Some ∅) None]>
  (<["h:2" := mkElection member_b RoleLeader 9 (Some member_b) None None None]>
  {["h:3" := with_term (NewElection member_c) 2]}).

Lemma abc_all : Membership_All abc_members = [member_a; member_b; member_c].
Proof. vm_compute. reflexivity. Qed.

Lemma abc_others : others abc_members member_c = [member_a; member_b].
Proof. vm_compute. reflexivity. Qed.

Lemma abc_addressed : addressed abc_members member_c.
Proof.
  split; [do 2 apply Membership_Add_ok; apply NewMembership_ok|]. split; [reflexivity|].
  rewrite abc_all, abc_others. split; [|split].
  - intros m m' Hm Hm'. rewrite !elem_of_cons, elem_of_nil in Hm, Hm'. naive_solver.
  - intros m Hm. rewrite !elem_of_cons, elem_of_nil in Hm. naive_solver.
  - intros m Hm. rewrite !elem_of_cons, elem_of_nil in Hm. naive_solver.
Qed.

Lemma bully_highest_takes_over_witness :
  ∃ nodes' h',
    net_round abc_members member_c (net_round abc_members member_c (mkNet abc_nodes [])) = mkNet nodes' [] ∧
    nodes' !! mb_Addr member_c = Some h' ∧ el_role h' = RoleLeader ∧ el_leader h' = Some member_c ∧
    ∀ m, m ∈ others abc_members member_c → ∃ e, nodes' !! mb_Addr m = Some e ∧ el_self e = m ∧
      el_role e = RoleFollower ∧ el_leader e = Some member_c ∧ el_term e = el_term h'.
Proof.
  apply (bully_highest_takes_over abc_members member_c abc_nodes (with_term (NewElection member_c) 2) 9).
  - apply abc_addressed.
  - split; [reflexivity|]. split; [reflexivity|]. intros m Hm. rewrite abc_others in Hm.
    rewrite !elem_of_cons, elem_of_nil in Hm. destruct Hm as [->|[->|[]]]; eexists; split; reflexivity.
  - cbn. lia.
  - intros m e Hm He. rewrite abc_others in Hm. rewrite !elem_of_cons, elem_of_nil in Hm.
    destruct Hm as [->|[->|[]]]; vm_compute in He; injection He as <-; cbn; lia.
  - lia.
Defined.

(** Without any partition or loss: [b] wins term 1 with [a]'s grant; [a] then
    times out, needs nobody's grant and leads term 2; its heartbeat moves [b]
    to term 2, still leading. *)
Lemma bully_two_leaders :
  let ms := Membership_Add (NewMembership member_a) member_b in
  let start := mkNet (<["h:1" := NewElection member_a]> {["h:2" := NewElection member_b]}) [] in
  let n1 := net_run ms 3 (net_timeout ms "h:2" start) in
  let n2 := net_run ms 1 (net_timeout ms "h:1" n1) in
  net_queue n1 = [] ∧
  (λ e, (el_role e, el_term e)) <$> net_nodes n2 !! "h:1" = Some (RoleLeader, 2) ∧
  (λ e, (el_role e, el_term e)) <$> net_nodes n2 !! "h:2" = Some (RoleLeader, 2).
Proof. vm_compute. split; [reflexivity|]. split; reflexivity. Qed.

(** A heartbeat of an older term from a higher node takes the term back. *)
Lemma heartbeat_lowers_term :
  (λ r, el_term r.1.1) <$> handleMsg abc_members (with_term (NewElection member_a) 9)
    (mkClusterMsg MsgHeartbeat "c" 3 []) = Some 3.
Proof. vm_compute. reflexivity. Qed.
