(* ===== verification/Replicator.v ===== *)
(** * Replication between nodes: [internal/cluster/replicator.go]

    Followers fetch from the leader and the leader pushes to its followers;
    both sides as functions on the replicator's state, over any [LogStore].
    The logs behind the registered pointers and the trackers attached to them
    are part of the state.  What [transport.Send] returns only reaches a log
    line or the caller's, so a send is an entry of the returned list. *)

From S2P Require Import Prelude GoLib Json Types Segment Topic WireJson Cluster Transport Bully.

Local Open Scope Z_scope.

(** ** State *)

Definition partKey : Type := string * Z.

Section Replicator.
Context {L : Type} `{LogStore L}.

Record Replicator := mkReplicator {
  rp_self : Member;
  rp_membership : Membership;
  rp_partitions : gmap partKey L;
  rp_isr : gmap partKey ISRTracker;
  rp_followerOffsets : gmap string (gmap partKey Z);
  rp_lastFetch : gmap partKey Z;
  rp_prevRole : Role;
}.

Definition NewReplicator (self : Member) (ms : Membership) : Replicator :=
  mkReplicator self ms ∅ ∅ ∅ ∅ RoleFollower.

Definition RegisterPartition (r : Replicator) (topic : string) (partition : Z) (pl : L) : Replicator :=
  mkReplicator (rp_self r) (rp_membership r) (<[(topic, partition) := pl]> (rp_partitions r)) (rp_isr r)
    (rp_followerOffsets r) (rp_lastFetch r) (rp_prevRole r).

Definition set_log (r : Replicator) (key : partKey) (pl : L) : Replicator :=
  mkReplicator (rp_self r) (rp_membership r) (<[key := pl]> (rp_partitions r)) (rp_isr r)
    (rp_followerOffsets r) (rp_lastFetch r) (rp_prevRole r).

Definition set_lastFetch (r : Replicator) (key : partKey) (now : Z) : Replicator :=
  mkReplicator (rp_self r) (rp_membership r) (rp_partitions r) (rp_isr r) (rp_followerOffsets r)
    (<[key := now]> (rp_lastFetch r)) (rp_prevRole r).

Definition set_isr (r : Replicator) (key : partKey) (t : ISRTracker) : Replicator :=
  mkReplicator (rp_self r) (rp_membership r) (rp_partitions r) (<[key := t]> (rp_isr r))
    (rp_followerOffsets r) (rp_lastFetch r) (rp_prevRole r).

Definition set_prevRole (r : Replicator) (role : Role) : Replicator :=
  mkReplicator (rp_self r) (rp_membership r) (rp_partitions r) (rp_isr r) (rp_followerOffsets r)
    (rp_lastFetch r) role.

(** ** Follower offsets *)

Definition getFollowerOffset (r : Replicator) (nodeID : string) (key : partKey) : Z :=
  default 0 (rp_followerOffsets r !! nodeID ≫= (.!! key)).

Definition setFollowerOffset (r : Replicator) (nodeID : string) (key : partKey) (offset : Z) : Replicator :=
  mkReplicator (rp_self r) (rp_membership r) (rp_partitions r) (rp_isr r)
    (<[nodeID := <[key := offset]> (default ∅ (rp_followerOffsets r !! nodeID))]> (rp_followerOffsets r))
    (rp_lastFetch r) (rp_prevRole r).

(** ** Messages *)

Definition self_msg {A} `{JsonCodec A} (r : Replicator) (ty : Z) (body : A) : option ClusterMsg :=
  (λ b, mkClusterMsg ty (mb_NodeID (rp_self r)) 0 b) <$> json_Marshal body.

Definition data_msg (r : Replicator) (key : partKey) (msgs : list Message) : option ClusterMsg :=
  self_msg r MsgReplicaData (mkReplicaDataBody key.1 key.2 (Some <$> msgs)).

Definition fetch_msg (r : Replicator) (key : partKey) (from : Z) : option ClusterMsg :=
  self_msg r MsgReplicaFetch (mkReplicaFetchBody key.1 key.2 from).

Definition ack_msg (r : Replicator) (key : partKey) (offset : Z) : option ClusterMsg :=
  self_msg r MsgReplicaAck (mkReplicaAckBody key.1 key.2 offset).

Definition send_to (addr : string) (msg : option ClusterMsg) : list (string * ClusterMsg) :=
  match msg with
  | Some m => [(addr, m)]
  | None => []
  end.

(** ** The leader's tick

    [io] is the outcome of each read; [order] the order in which the
    partitions are ranged over. *)

Definition tick_member (io : ReadIO) (r : Replicator) (key : partKey) (pl : L) (m : Member) :
    list (string * ClusterMsg) :=
  if bool_decide (mb_NodeID m = mb_NodeID (rp_self r)) then []
  else
    let followerOff := getFollowerOffset r (mb_NodeID m) key in
    if ls_next pl <=? followerOff then []
    else
      match ls_read io pl followerOff 256 with
      | Error _ | Ok [] => []
      | Ok msgs => send_to (mb_Addr m) (data_msg r key msgs)
      end.

Definition leaderTick (io : partKey → string → ReadIO) (order : list partKey) (r : Replicator) :
    list (string * ClusterMsg) :=
  mjoin ((λ key,
    match rp_partitions r !! key with
    | Some pl =>
        mjoin ((λ m, tick_member (io key (mb_NodeID m)) r key pl m) <$> Membership_All (rp_membership r))
    | None => []
    end) <$> order).

(** ** The follower's tick *)

Definition retry_window : Z := 500 * millisecond.

(** The loop over the partitions; [all] sends to every one ([sendFetchAll]). *)
Fixpoint fetch_loop (all : bool) (now : Z) (leaderAddr : string) (order : list partKey) (r : Replicator) :
    Replicator * list (string * ClusterMsg) :=
  match order with
  | [] => (r, [])
  | key :: order' =>
      match rp_partitions r !! key with
      | None => fetch_loop all now leaderAddr order' r
      | Some pl =>
          let waits :=
            match rp_lastFetch r !! key with
            | Some last => time_sub now last <? retry_window
            | None => false
            end in
          if negb all && waits then fetch_loop all now leaderAddr order' r
          else
            let out := send_to leaderAddr (fetch_msg r key (ls_next pl)) in
            let '(r', outs) := fetch_loop all now leaderAddr order' (set_lastFetch r key now) in
            (r', out ++ outs)
      end
  end.

Definition followerTick (now : Z) (order : list partKey) (leader : option Member) (r : Replicator) :
    Replicator * list (string * ClusterMsg) :=
  match leader with
  | None => (r, [])
  | Some ld =>
      if bool_decide (mb_NodeID ld = mb_NodeID (rp_self r)) then (r, [])
      else fetch_loop false now (mb_Addr ld) order r
  end.

Definition sendFetchAll (now : Z) (order : list partKey) (leader : Member) (r : Replicator) :
    Replicator * list (string * ClusterMsg) :=
  fetch_loop true now (mb_Addr leader) order r.

(** One turn of [run]: the role and leader the election reports. *)
Definition replicator_tick (io : partKey → string → ReadIO) (now : Z) (order order' : list partKey)
    (role : Role) (leader : option Member) (r : Replicator) : Replicator * list (string * ClusterMsg) :=
  let '(r, out1) :=
    if bool_decide (role = RoleFollower) && negb (bool_decide (rp_prevRole r = RoleFollower)) then
      match leader with
      | Some ld => sendFetchAll now order ld r
      | None => (r, [])
      end
    else (r, []) in
  let r := set_prevRole r role in
  match role with
  | RoleLeader => (r, out1 ++ leaderTick io order' r)
  | RoleFollower => let '(r, out2) := followerTick now order' leader r in (r, out1 ++ out2)
  | RoleCandidate => (r, out1)
  end.

(** ** The handlers *)

Inductive repl_err :=
| ReplUnmarshal
| ReplRead (e : seg_err)
| ReplMarshal
| ReplUnexpected (ty : Z).

Definition reply_outcome (r : Replicator) (addr : string) (msg : option ClusterMsg) :
    Replicator * list (string * ClusterMsg) * option repl_err :=
  match msg with
  | Some m => (r, [(addr, m)], None)
  | None => (r, [], Some ReplMarshal)
  end.

Definition handleFetch (io : ReadIO) (r : Replicator) (msg : ClusterMsg) :
    Replicator * list (string * ClusterMsg) * option repl_err :=
  match json_Unmarshal (A := ReplicaFetchBody) (cm_Body msg) with
  | None => (r, [], Some ReplUnmarshal)
  | Some body =>
      let key := (rf_Topic body, rf_Partition body) in
      match rp_partitions r !! key with
      | None => (r, [], None)
      | Some pl =>
          let r := setFollowerOffset r (cm_From msg) key (rf_FromOffset body) in
          if ls_next pl <=? rf_FromOffset body then (r, [], None)
          else
            match ls_read io pl (rf_FromOffset body) 256 with
            | Error e => (r, [], Some (ReplRead e))
            | Ok [] => (r, [], None)
            | Ok msgs =>
                match Membership_Get (rp_membership r) (cm_From msg) with
                | None => (r, [], None)
                | Some follower => reply_outcome r (mb_Addr follower) (data_msg r key msgs)
                end
            end
      end
  end.

(** The loop over the messages: the log, and the highest offset held.  [io k]
    is what the [k]-th append meets.  [None] is the dereference of a nil
    message. *)
Fixpoint data_loop (io : nat → AppendIO) (k : nat) (pl : L) (highest : Z) (msgs : list (option Message)) :
    option (L * Z) :=
  match msgs with
  | [] => Some (pl, highest)
  | None :: _ => None
  | Some m :: msgs' =>
      if msg_Offset m <? ls_next pl then
        data_loop io k pl (if highest <? msg_Offset m then msg_Offset m else highest) msgs'
      else
        match ls_append (io k) pl m with
        | (pl', _, Error _) => data_loop io (S k) pl' highest msgs'
        | (pl', _, Ok offset) =>
            data_loop io (S k) pl' (if highest <? offset then offset else highest) msgs'
        end
  end.

Definition handleData (now : Z) (io : nat → AppendIO) (r : Replicator) (msg : ClusterMsg) :
    option (Replicator * list (string * ClusterMsg) * option repl_err) :=
  match json_Unmarshal (A := ReplicaDataBody) (cm_Body msg) with
  | None => Some (r, [], Some ReplUnmarshal)
  | Some body =>
      let key := (rd_Topic body, rd_Partition body) in
      match rp_partitions r !! key with
      | None => Some (r, [], None)
      | Some pl =>
          let r := set_lastFetch r key now in
          match data_loop io 0 pl (-1) (rd_Messages body) with
          | None => None
          | Some (pl', highestOffset) =>
              let r := set_log r key pl' in
              if highestOffset <? 0 then Some (r, [], None)
              else
                match Membership_Get (rp_membership r) (cm_From msg) with
                | None => Some (r, [], None)
                | Some sender => Some (reply_outcome r (mb_Addr sender) (ack_msg r key highestOffset))
                end
          end
      end
  end.

Definition handleAck (now : Z) (r : Replicator) (msg : ClusterMsg) :
    Replicator * list (string * ClusterMsg) * option repl_err :=
  match json_Unmarshal (A := ReplicaAckBody) (cm_Body msg) with
  | None => (r, [], Some ReplUnmarshal)
  | Some body =>
      let key := (ra_Topic body, ra_Partition body) in
      let r := setFollowerOffset r (cm_From msg) key (i64 (ra_Offset body + 1)) in
      match rp_partitions r !! key, rp_isr r !! key with
      | Some _, Some isr => (set_isr r key (ISRTracker_Update now isr (cm_From msg) (ra_Offset body)), [], None)
      | _, _ => (r, [], None)
      end
  end.

Definition Replicator_OnMessage (rio : ReadIO) (now : Z) (io : nat → AppendIO) (r : Replicator)
    (msg : ClusterMsg) : option (Replicator * list (string * ClusterMsg) * option repl_err) :=
  if cm_Type msg =? MsgReplicaFetch then Some (handleFetch rio r msg)
  else if cm_Type msg =? MsgReplicaData then handleData now io r msg
  else if cm_Type msg =? MsgReplicaAck then Some (handleAck now r msg)
  else Some (r, [], Some (ReplUnexpected (cm_Type msg))).

(** ** Facts *)

(** No message changes what the replicator knows of the members. *)
Lemma OnMessage_membership rio now io r msg r' out err :
  Replicator_OnMessage rio now io r msg = Some (r', out, err) → rp_membership r' = rp_membership r.
Proof.
  unfold Replicator_OnMessage, handleFetch, handleData, handleAck, reply_outcome. intros Hon.
  repeat case_match; simplify_eq; done.
Qed.
End Replicator.
Arguments Replicator : clear implicits.
