(* ===== verification/ReplicaLog.v ===== *)
(** * What replication keeps: the replicas of a partition

    A cluster of replicators as a step relation with loss, duplication and
    reordering of messages: as long as one node takes the publishes, its logs
    start at offset zero and no append fails, every replica is a prefix of
    that node's log; a pair that exchanges messages catches up.  Without the
    conditions the logs part, which the last section computes. *)

From S2P Require Import Prelude GoLib Json Types Segment Topic WireJson Cluster Transport Bully Replicator.

Local Open Scope Z_scope.

(** ** Dense logs *)

(** The message at position [i] has offset [i] and travels through JSON. *)
Definition dense (ms : list Message) : Prop :=
  ∀ i m, ms !! i = Some m → msg_Offset m = Z.of_nat i ∧ Message_wf m.

Lemma dense_prefix ms ms' : ms `prefix_of` ms' → dense ms' → dense ms.
Proof. intros [k ->] Hd i m Hi. apply Hd. by apply lookup_app_l_Some. Qed.

Lemma dense_snoc ms m :
  dense ms → msg_Offset m = zlen ms → Message_wf m → dense (ms ++ [m]).
Proof.
  intros Hd Ho Hm i x Hi. apply lookup_app_Some in Hi as [Hi|[Hlen Hi]]; [by apply Hd|].
  apply list_lookup_singleton_Some in Hi as [Hz <-]. split; [|done]. unfold zlen in Ho. lia.
Qed.

Lemma dense_filter ms : ∀ n start,
  (∀ i m, ms !! i = Some m → msg_Offset m = Z.of_nat (n + i)) →
  filter (λ m, Z.of_nat start <= msg_Offset m) ms = drop (start - n) ms.
Proof.
  induction ms as [|m ms IH]; intros n start Hd; [by rewrite drop_nil|].
  assert (∀ i x, ms !! i = Some x → msg_Offset x = Z.of_nat (S n + i)) as Hd'.
  { intros i x Hi. rewrite (Hd (S i) x Hi). f_equal. lia. }
  specialize (IH (S n) start Hd'). pose proof (Hd 0%nat m eq_refl) as Hm.
  rewrite filter_cons. case_decide as Hle.
  - rewrite IH. replace (start - n)%nat with 0%nat by lia. replace (start - S n)%nat with 0%nat by lia.
    by rewrite !drop_0.
  - rewrite IH. by replace (start - n)%nat with (S (start - S n)) by lia.
Qed.

(** Reading a dense log from an offset is dropping so many messages. *)
Lemma read_from_dense ms start max :
  dense ms → 0 <= start → read_from ms start max = take (Z.to_nat max) (drop (Z.to_nat start) ms).
Proof.
  intros Hd Hs. unfold read_from. f_equal. etrans.
  - apply (list_filter_iff _ (λ m, Z.of_nat (Z.to_nat start) <= msg_Offset m)).
    intros m. by rewrite Z2Nat.id.
  - rewrite (dense_filter ms 0); [by rewrite Nat.sub_0_r|]. intros i m Hi. by apply Hd.
Qed.

(** A stretch of the log from position [s]. *)
Definition stretch (master : list Message) (s n : nat) : list Message := take n (drop s master).

Lemma stretch_cons master s n m l :
  stretch master s n = m :: l → master !! s = Some m ∧ ∃ n', n = S n' ∧ l = stretch master (S s) n'.
Proof.
  unfold stretch. intros Hst. destruct n as [|n']; [done|].
  destruct (drop s master) as [|x d] eqn:Hd; [done|]. injection Hst as -> <-.
  assert (master !! s = Some m) as Hm by (rewrite <- (Nat.add_0_r s), <- lookup_drop; by rewrite Hd).
  split; [done|]. exists n'. split; [done|]. rewrite (drop_S _ _ _ Hm) in Hd. by injection Hd as ->.
Qed.

Section Safety.
Context {L : Type} `{LogStore L}.

(** ** One batch at a follower *)

(** The appends the batch calls for go through. *)
Fixpoint data_ready (io : nat → AppendIO) (k : nat) (pl : L) (msgs : list (option Message)) : Prop :=
  match msgs with
  | [] => True
  | None :: _ => False
  | Some m :: msgs' =>
      if msg_Offset m <? ls_next pl then data_ready io k pl msgs'
      else ls_ready (io k) pl m ∧ data_ready io (S k) (ls_append (io k) pl m).1.1 msgs'
  end.

(** A log and the messages it holds, a prefix of the master's. *)
Definition replica (master : list Message) (pl : L) (n : nat) : Prop :=
  (n <= length master)%nat ∧ ls_inv pl (take n master) ∧ ls_next pl = Z.of_nat n.

Lemma set_offset_same m : set_offset m (msg_Offset m) = m.
Proof. by destruct m. Qed.

(** A stretch of the master's log that starts within the replica extends it. *)
Lemma data_loop_replica io master l : ∀ k pl highest s n r,
  dense master → replica master pl r → (s <= r)%nat → stretch master s n = l →
  data_ready io k pl (Some <$> l) →
  ∃ pl', data_loop io k pl highest (Some <$> l) =
      Some (pl', if l is [] then highest else Z.max highest (Z.of_nat (s + length l) - 1)) ∧
    replica master pl' (r `max` (s + length l)).
Proof.
  induction l as [|m l IH]; intros k pl highest s n r Hd Hrep Hs Hst Hready.
  { exists pl. split; [done|]. simpl. by rewrite Nat.max_l by lia. }
  apply stretch_cons in Hst as (Hm & n' & -> & Hl). destruct (Hd s m Hm) as [Ho _].
  rewrite fmap_cons in *. cbn [data_loop data_ready] in *. rewrite Ho in *.
  destruct Hrep as (Hle & Hinv & Hnext). rewrite Hnext in *.
  destruct (Z.ltb_spec (Z.of_nat s) (Z.of_nat r)) as [Hlt|Hge].
  - destruct (IH k pl (if highest <? Z.of_nat s then Z.of_nat s else highest) (S s) n' r) as (pl' & -> & Hrep'); try done; [lia|].
    exists pl'. split.
    + do 2 f_equal. destruct l; destruct (Z.ltb_spec highest (Z.of_nat s)); cbn [length]; lia.
    + by rewrite Nat.add_succ_comm in Hrep'.
  - assert (s = r) as -> by lia. destruct Hready as [Hready Hrest].
    destruct (ls_append_ok (io k) pl (take r master) m Hinv Hready) as (pl1 & Heq & Hinv1 & Hnext1).
    rewrite Heq in *. cbn [fst] in Hrest. rewrite Hnext, <- Ho, set_offset_same in Hinv1.
    pose proof (lookup_lt_Some _ _ _ Hm) as Hlt.
    assert (replica master pl1 (S r)) as Hrep1.
    { split; [lia|]. split; [by rewrite (take_S_r _ _ _ Hm)|]. rewrite Hnext1, Hnext. lia. }
    rewrite Hnext.
    destruct (IH (S k) pl1 (if highest <? Z.of_nat r then Z.of_nat r else highest) (S r) n' (S r)) as (pl' & -> & Hrep'); try done.
    exists pl'. split.
    + do 2 f_equal. destruct l; destruct (Z.ltb_spec highest (Z.of_nat r)); cbn [length]; lia.
    + rewrite Nat.max_r in Hrep' by lia. rewrite Nat.max_r by (cbn [length]; lia).
      by rewrite Nat.add_succ_comm in Hrep'.
Qed.

Lemma replica_extends M M' pl n : M `prefix_of` M' → replica M pl n → replica M' pl n.
Proof.
  intros [k ->] (Hle & Hinv & Hn). split; [rewrite length_app; lia|]. split; [|done].
  by rewrite take_app_le by lia.
Qed.

(** ** The cluster *)

(** The members share a membership; a message stays in [rs_net] for ever: it
    may be delivered later, again, out of order or never. *)
Record rsys := mkRsys {
  rs_nodes : gmap string (Replicator L);
  rs_net : list (string * ClusterMsg);
}.

Context (ms : Membership) (master : string).

Definition read_fine (io : ReadIO) : Prop := rio_open io = true ∧ rio_seek io = true.

(** No append the message calls for fails. *)
Definition appends_fine (io : nat → AppendIO) (r : Replicator L) (msg : ClusterMsg) : Prop :=
  ∀ body pl, cm_Type msg = MsgReplicaData → json_Unmarshal (cm_Body msg) = Some body →
    rp_partitions r !! (rd_Topic body, rd_Partition body) = Some pl →
    data_ready io 0 pl (rd_Messages body).

Inductive repl_step (s : rsys) : rsys → Prop :=
(** A publish reaches a log of the node that takes them. *)
| step_publish r key pl io m pl' m' off :
    rs_nodes s !! master = Some r → rp_partitions r !! key = Some pl →
    ls_ready io pl m → ls_append io pl m = (pl', m', Ok off) →
    Message_wf (set_offset m (ls_next pl)) → ls_next pl + 1 < 2 ^ 63 →
    repl_step s (mkRsys (<[master := set_log r key pl']> (rs_nodes s)) (rs_net s))
(** A tick of any node, in whatever role. *)
| step_tick id r io now order order' role leader r' out :
    rs_nodes s !! id = Some r → (∀ key f, read_fine (io key f)) →
    replicator_tick io now order order' role leader r = (r', out) →
    repl_step s (mkRsys (<[id := r']> (rs_nodes s)) (rs_net s ++ out))
(** A message arrives. *)
| step_deliver id r msg rio now io r' out err :
    rs_nodes s !! id = Some r → (mb_Addr (rp_self r), msg) ∈ rs_net s → read_fine rio →
    appends_fine io r msg → Replicator_OnMessage rio now io r msg = Some (r', out, err) →
    repl_step s (mkRsys (<[id := r']> (rs_nodes s)) (rs_net s ++ out)).

Definition key_ok (key : partKey) : Prop := str_valid key.1 = true ∧ is_i32 key.2.

(** [l] stands in the log from position [s]. *)
Definition chunk (M : list Message) (s : nat) (l : list Message) : Prop := stretch M s (length l) = l.

(** What a message in flight to address [a] promises. *)
Definition msg_ok (nodes : gmap string (Replicator L)) (M : partKey → list Message) (a : string)
    (msg : ClusterMsg) : Prop :=
  (cm_Type msg = MsgReplicaData → ∀ body, json_Unmarshal (cm_Body msg) = Some body →
    ∃ s l, rd_Messages body = Some <$> l ∧ chunk (M (rd_Topic body, rd_Partition body)) s l ∧
      ∀ d r pl, nodes !! d = Some r → mb_Addr (rp_self r) = a →
        rp_partitions r !! (rd_Topic body, rd_Partition body) = Some pl → Z.of_nat s <= ls_next pl) ∧
  (cm_Type msg = MsgReplicaAck → ∀ body, json_Unmarshal (cm_Body msg) = Some body →
    0 <= ra_Offset body < 2 ^ 63 - 1 ∧
    ∀ r pl, nodes !! cm_From msg = Some r → rp_partitions r !! (ra_Topic body, ra_Partition body) = Some pl →
      ra_Offset body < ls_next pl) ∧
  (cm_Type msg = MsgReplicaFetch → ∀ body, json_Unmarshal (cm_Body msg) = Some body →
    0 <= rf_FromOffset body ∧
    ∀ r pl, nodes !! cm_From msg = Some r → rp_partitions r !! (rf_Topic body, rf_Partition body) = Some pl →
      rf_FromOffset body <= ls_next pl).

(** Node [r] keeps, for every other node, an offset it has reached. *)
Definition offsets_ok (nodes : gmap string (Replicator L)) (r : Replicator L) : Prop :=
  ∀ f key, 0 <= getFollowerOffset r f key ∧
    ∀ rf pl, nodes !! f = Some rf → rp_partitions rf !! key = Some pl → getFollowerOffset r f key <= ls_next pl.

(** The logs of node [id] are prefixes of the master's; the master's own are whole. *)
Definition logs_ok (M : partKey → list Message) (id : string) (r : Replicator L) : Prop :=
  ∀ key pl, rp_partitions r !! key = Some pl →
    key_ok key ∧ ∃ n, replica (M key) pl n ∧ (id = master → n = length (M key)).

Definition node_ok (id : string) (r : Replicator L) : Prop :=
  mb_NodeID (rp_self r) = id ∧ rp_membership r = ms ∧ Membership_Get ms id = Some (rp_self r).

Definition masters_ok (M : partKey → list Message) : Prop :=
  ∀ key, dense (M key) ∧ zlen (M key) < 2 ^ 63.

Record repl_inv (s : rsys) (M : partKey → list Message) : Prop := mkReplInv {
  ri_masters : masters_ok M;
  ri_node : ∀ id r, rs_nodes s !! id = Some r → node_ok id r;
  ri_logs : ∀ id r, rs_nodes s !! id = Some r → logs_ok M id r;
  ri_offsets : ∀ id r, rs_nodes s !! id = Some r → offsets_ok (rs_nodes s) r;
  ri_net : ∀ a msg, (a, msg) ∈ rs_net s → msg_ok (rs_nodes s) M a msg;
}.

Lemma chunk_extends M M' s l : M `prefix_of` M' → chunk M s l → chunk M' s l.
Proof.
  intros [k ->] Hc. unfold chunk, stretch in *.
  pose proof (f_equal length Hc) as Hlen. rewrite length_take, length_drop in Hlen.
  destruct (decide (length l = 0%nat)) as [Hz|Hz].
  { apply nil_length_inv in Hz as ->. apply take_0. }
  rewrite drop_app_le by lia. by rewrite take_app_le by (rewrite length_drop; lia).
Qed.

(** No log shrinks from [nodes] to [nodes']. *)
Definition grows (nodes nodes' : gmap string (Replicator L)) : Prop :=
  ∀ id r', nodes' !! id = Some r' → ∃ r, nodes !! id = Some r ∧ rp_self r' = rp_self r ∧
    ∀ key pl', rp_partitions r' !! key = Some pl' →
      ∃ pl, rp_partitions r !! key = Some pl ∧ ls_next pl <= ls_next pl'.

Lemma msg_ok_grows nodes nodes' M M' a msg :
  grows nodes nodes' → (∀ key, M key `prefix_of` M' key) → msg_ok nodes M a msg → msg_ok nodes' M' a msg.
Proof.
  intros Hg HM (Hd & Ha & Hf). split; [|split].
  - intros Ht body Hb. destruct (Hd Ht body Hb) as (s & l & Hl & Hc & Hs). exists s, l. split; [done|].
    split; [eapply chunk_extends; [apply HM|done]|]. intros d r' pl' Hr' Haddr Hpl'.
    destruct (Hg d r' Hr') as (r & Hr & Hself & Hlogs). destruct (Hlogs _ _ Hpl') as (pl & Hpl & Hle).
    specialize (Hs d r pl Hr). rewrite <- Hself in Hs. specialize (Hs Haddr Hpl). lia.
  - intros Ht body Hb. destruct (Ha Ht body Hb) as [Hpos Hlt]. split; [done|]. intros r' pl' Hr' Hpl'.
    destruct (Hg _ r' Hr') as (r & Hr & _ & Hlogs).
    destruct (Hlogs _ _ Hpl') as (pl & Hpl & Hle). specialize (Hlt r pl Hr Hpl). lia.
  - intros Ht body Hb. destruct (Hf Ht body Hb) as [Hpos Hlt]. split; [done|]. intros r' pl' Hr' Hpl'.
    destruct (Hg _ r' Hr') as (r & Hr & _ & Hlogs).
    destruct (Hlogs _ _ Hpl') as (pl & Hpl & Hle). specialize (Hlt r pl Hr Hpl). lia.
Qed.

(** One node changes. *)
Lemma node_update_inv s M M' id r r' :
  repl_inv s M → rs_nodes s !! id = Some r →
  rp_self r' = rp_self r → rp_membership r' = rp_membership r →
  masters_ok M' → (∀ key, M key `prefix_of` M' key) → (id = master ∨ M' = M) →
  logs_ok M' id r' →
  (∀ key pl', rp_partitions r' !! key = Some pl' →
     ∃ pl, rp_partitions r !! key = Some pl ∧ ls_next pl <= ls_next pl') →
  offsets_ok (<[id := r']> (rs_nodes s)) r' →
  repl_inv (mkRsys (<[id := r']> (rs_nodes s)) (rs_net s)) M'.
Proof.
  intros Hinv Hr Hself Hmem HM' HMM Hid Hlogs Hgrow Hoff.
  assert (grows (rs_nodes s) (<[id := r']> (rs_nodes s))) as Hg.
  { intros d rd Hd. destruct (decide (d = id)) as [->|Hne].
    - rewrite lookup_insert_eq in Hd. injection Hd as <-. by exists r.
    - rewrite lookup_insert_ne in Hd by done. exists rd. split; [done|]. split; [done|].
      intros key pl Hpl. by exists pl. }
  split; cbn [rs_nodes rs_net].
  - done.
  - intros d rd Hd. destruct (decide (d = id)) as [->|Hne].
    + rewrite lookup_insert_eq in Hd. injection Hd as <-. destruct (ri_node _ _ Hinv _ _ Hr) as (H1 & H2 & H3).
      split; [by rewrite Hself|]. split; [by rewrite Hmem|by rewrite Hself].
    + rewrite lookup_insert_ne in Hd by done. by apply (ri_node _ _ Hinv).
  - intros d rd Hd. destruct (decide (d = id)) as [->|Hne].
    + rewrite lookup_insert_eq in Hd. by injection Hd as <-.
    + rewrite lookup_insert_ne in Hd by done. intros key pl Hpl.
      destruct (ri_logs _ _ Hinv d rd Hd key pl Hpl) as (Hk & n & Hrep & Hmas). split; [done|]. exists n.
      split; [eapply replica_extends; [apply HMM|done]|]. intros ->. destruct Hid as [->| ->]; [done|by apply Hmas].
  - intros d rd Hd. destruct (decide (d = id)) as [->|Hne].
    + rewrite lookup_insert_eq in Hd. by injection Hd as <-.
    + rewrite lookup_insert_ne in Hd by done. intros f key.
      destruct (ri_offsets _ _ Hinv d rd Hd f key) as [Hpos Hle]. split; [done|]. intros rf pl Hf Hpl.
      destruct (Hg f rf Hf) as (rf0 & Hrf0 & _ & Hl). destruct (Hl key pl Hpl) as (pl0 & Hpl0 & Hle0).
      specialize (Hle rf0 pl0 Hrf0 Hpl0). lia.
  - intros a msg Hin. eapply msg_ok_grows; [done|done|]. by apply (ri_net _ _ Hinv).
Qed.

(** Messages are sent. *)
Lemma send_inv s M out :
  repl_inv s M → (∀ a msg, (a, msg) ∈ out → msg_ok (rs_nodes s) M a msg) →
  repl_inv (mkRsys (rs_nodes s) (rs_net s ++ out)) M.
Proof.
  intros [H1 H2 H3 H4 H5] Hout. split; [done..|]. cbn [rs_net rs_nodes].
  intros a msg [Hin|Hin]%elem_of_app; [by apply H5|by apply Hout].
Qed.

(** *** What is sent *)

Context (Hms : membership_ok ms)
  (Haddr : ∀ m m', m ∈ Membership_All ms → m' ∈ Membership_All ms → mb_Addr m = mb_Addr m' → m = m').

Lemma node_at (nodes : gmap string (Replicator L)) m d rd :
  (∀ id r, nodes !! id = Some r → node_ok id r) → Membership_Get ms (mb_NodeID m) = Some m →
  nodes !! d = Some rd → mb_Addr (rp_self rd) = mb_Addr m → d = mb_NodeID m.
Proof.
  intros Hnodes Hm Hd Ha. destruct (Hnodes d rd Hd) as (Hid & _ & Hget). rewrite <- Hid in Hget.
  assert (rp_self rd = m) as Hself.
  { apply Haddr; [by apply Membership_All_elem..|done]. }
  by rewrite <- Hid, Hself.
Qed.

Lemma chunk_wf M s l : dense M → chunk M s l → Forall Message_wf l.
Proof.
  intros Hd Hc. apply Forall_forall. intros m Hm. rewrite <- Hc in Hm. unfold stretch in Hm.
  apply list_elem_of_lookup_1 in Hm as [i Hi]. apply lookup_take_Some in Hi as [Hi _].
  rewrite lookup_drop in Hi. by apply (Hd _ _ Hi).
Qed.

Lemma take_own_length (l : list Message) j : take (length (take j l)) l = take j l.
Proof.
  rewrite length_take. destruct (decide (j <= length l)%nat); [by rewrite Nat.min_l|].
  by rewrite Nat.min_r, !take_ge by lia.
Qed.

Lemma read_chunk M pl n io off l :
  dense M → replica M pl n → read_fine io → 0 <= off → ls_read io pl off 256 = Ok l → chunk M (Z.to_nat off) l.
Proof.
  intros Hd (Hn & Hinv & _) [Hio Hio'] Hoff Hl. rewrite (ls_read_ok io pl _ off 256 Hinv) in Hl by done.
  injection Hl as <-. rewrite read_from_dense; [|by eapply dense_prefix; [apply prefix_take|]|done].
  unfold chunk, stretch. rewrite skipn_firstn_comm, take_take. apply take_own_length.
Qed.

Lemma self_msg_spec {A} `{JsonCodec A} (r : Replicator L) ty (body : A) msg :
  json_wf body → self_msg r ty body = Some msg →
  cm_Type msg = ty ∧ cm_From msg = mb_NodeID (rp_self r) ∧ json_Unmarshal (cm_Body msg) = Some body.
Proof.
  intros Hwf Hm. unfold self_msg in Hm. destruct (json_roundtrip body Hwf) as (b & Hb & Hu).
  rewrite Hb in Hm. injection Hm as <-. done.
Qed.

Lemma data_msg_ok nodes M (r : Replicator L) key l s msg a :
  key_ok key → dense (M key) → chunk (M key) s l → data_msg r key l = Some msg →
  (∀ d rd pl, nodes !! d = Some rd → mb_Addr (rp_self rd) = a → rp_partitions rd !! key = Some pl →
     Z.of_nat s <= ls_next pl) →
  msg_ok nodes M a msg.
Proof.
  intros [Hk1 Hk2] Hd Hc Hm Hdest. apply self_msg_spec in Hm as (Hty & Hfrom & Hu).
  - split; [|split]; rewrite Hty; [|done..]. intros _ body Hb. rewrite Hu in Hb. injection Hb as <-.
    exists s, l. cbn. by destruct key.
  - split; [done|]. split; [done|]. cbn. apply Forall_fmap. apply (chunk_wf _ _ _ Hd Hc).
Qed.

Lemma fetch_msg_ok nodes M (r : Replicator L) key from msg a :
  key_ok key → 0 <= from < 2 ^ 63 → fetch_msg r key from = Some msg →
  (∀ rd pl, nodes !! mb_NodeID (rp_self r) = Some rd → rp_partitions rd !! key = Some pl → from <= ls_next pl) →
  msg_ok nodes M a msg.
Proof.
  intros [Hk1 Hk2] Hf Hm Hown. apply self_msg_spec in Hm as (Hty & Hfrom & Hu).
  - split; [|split]; rewrite Hty; [done..|]. intros _ body Hb. rewrite Hu in Hb. injection Hb as <-.
    rewrite Hfrom. cbn. split; [lia|]. destruct key. apply Hown.
  - split; [done|]. split; [done|]. cbn. unfold is_i64. lia.
Qed.

Lemma ack_msg_ok nodes M (r : Replicator L) key off msg a :
  key_ok key → 0 <= off < 2 ^ 63 - 1 → ack_msg r key off = Some msg →
  (∀ rd pl, nodes !! mb_NodeID (rp_self r) = Some rd → rp_partitions rd !! key = Some pl → off < ls_next pl) →
  msg_ok nodes M a msg.
Proof.
  intros [Hk1 Hk2] Hf Hm Hown. apply self_msg_spec in Hm as (Hty & Hfrom & Hu).
  - split; [|split]; rewrite Hty; [done| |done]. intros _ body Hb. rewrite Hu in Hb. injection Hb as <-.
    rewrite Hfrom. cbn. split; [lia|]. destruct key. apply Hown.
  - split; [done|]. split; [done|]. cbn. unfold is_i64. lia.
Qed.

Lemma send_to_elem a addr msg m : (a, m) ∈ send_to addr msg → a = addr ∧ msg = Some m.
Proof. destruct msg; cbn; [intros [= -> ->]%list_elem_of_singleton; done|intros ?%not_elem_of_nil; done]. Qed.

(** A batch read at an offset that the receiver has reached. *)
Lemma batch_ok s M id r key pl io off l m msg :
  repl_inv s M → rs_nodes s !! id = Some r → rp_partitions r !! key = Some pl → read_fine io → 0 <= off →
  ls_read io pl off 256 = Ok l → data_msg r key l = Some msg → Membership_Get ms (mb_NodeID m) = Some m →
  (∀ rd pl', rs_nodes s !! mb_NodeID m = Some rd → rp_partitions rd !! key = Some pl' → off <= ls_next pl') →
  msg_ok (rs_nodes s) M (mb_Addr m) msg.
Proof.
  intros Hinv Hr Hpl Hio Hoff Hread Hmsg Hm Hle.
  destruct (ri_logs _ _ Hinv _ _ Hr key pl Hpl) as (Hk & n & Hrep & _).
  eapply data_msg_ok; [done|by apply Hinv|eapply read_chunk; [by apply Hinv|done..]|done|].
  intros d rd pl' Hd Ha Hpl'. pose proof (node_at _ m d rd (ri_node _ _ Hinv) Hm Hd Ha) as ->.
  specialize (Hle _ _ Hd Hpl'). lia.
Qed.

(** What the state of node [id] has to offer. *)
Lemma leaderTick_ok s M id r io order :
  repl_inv s M → rs_nodes s !! id = Some r → (∀ key f, read_fine (io key f)) →
  ∀ a msg, (a, msg) ∈ leaderTick io order r → msg_ok (rs_nodes s) M a msg.
Proof.
  intros Hinv Hr Hio a msg Hin. unfold leaderTick in Hin.
  apply list_elem_of_join in Hin as (outs & Hin & (key & -> & _)%list_elem_of_fmap).
  destruct (rp_partitions r !! key) as [pl|] eqn:Hpl; [|by apply not_elem_of_nil in Hin].
  apply list_elem_of_join in Hin as (outs & Hin & (m & -> & Hm)%list_elem_of_fmap).
  rewrite (proj1 (proj2 (ri_node _ _ Hinv _ _ Hr))) in Hm.
  unfold tick_member in Hin. case_bool_decide as Hself; [by apply not_elem_of_nil in Hin|].
  destruct (ls_next pl <=? _); [by apply not_elem_of_nil in Hin|].
  destruct (ls_read _ pl _ 256) as [l|e] eqn:Hread; [|by apply not_elem_of_nil in Hin].
  assert ((a, msg) ∈ send_to (mb_Addr m) (data_msg r key l)) as Hs by (destruct l; [by apply not_elem_of_nil in Hin|done]).
  apply send_to_elem in Hs as [-> Hmsg].
  destruct (ri_offsets _ _ Hinv _ _ Hr (mb_NodeID m) key) as [Hpos Hle].
  eapply batch_ok; [done|done|done|apply Hio|done|done|done| |].
  - by apply Membership_All_elem in Hm.
  - intros rd pl' Hd Hpl'. by apply (Hle rd pl').
Qed.

(** A tick changes neither logs nor what is known of the followers. *)
Definition same_logs (r r' : Replicator L) : Prop :=
  rp_self r' = rp_self r ∧ rp_membership r' = rp_membership r ∧ rp_partitions r' = rp_partitions r ∧
  rp_followerOffsets r' = rp_followerOffsets r.

Lemma fetch_loop_ok s M id all now addr order : ∀ r,
  repl_inv s M → (∃ r0, rs_nodes s !! id = Some r0 ∧ same_logs r0 r) →
  same_logs r (fetch_loop all now addr order r).1 ∧
  ∀ a msg, (a, msg) ∈ (fetch_loop all now addr order r).2 → msg_ok (rs_nodes s) M a msg.
Proof.
  induction order as [|key order IH]; intros r Hinv Hr.
  { split; [done|]. by intros a msg ?%not_elem_of_nil. }
  cbn [fetch_loop]. destruct (rp_partitions r !! key) as [pl|] eqn:Hpl; [|by apply IH].
  destruct (negb all && _); [by apply IH|].
  destruct (IH (set_lastFetch r key now) Hinv) as [Hsame Hout].
  { destruct Hr as (r0 & Hr0 & Hs0). by exists r0. }
  destruct (fetch_loop all now addr order _) as [r' outs]. cbn [fst snd] in *. split; [exact Hsame|].
  intros a msg [Hin|Hin]%elem_of_app; [|by apply Hout].
  apply send_to_elem in Hin as [-> Hmsg]. destruct Hr as (r0 & Hr0 & Hs1 & Hs2 & Hs3 & Hs4).
  rewrite Hs3 in Hpl. destruct (ri_logs _ _ Hinv _ _ Hr0 key pl Hpl) as (Hk & n & (Hn & _ & Hnext) & _).
  destruct (ri_masters _ _ Hinv key) as [_ Hlen]. unfold zlen in Hlen.
  eapply fetch_msg_ok; [done| |done|].
  - lia.
  - intros rd pl' Hd Hpl'. rewrite Hs1, (proj1 (ri_node _ _ Hinv _ _ Hr0)), Hr0 in Hd.
    injection Hd as <-. rewrite Hpl in Hpl'. by injection Hpl' as <-.
Qed.

(** ** Every step keeps the invariant *)

Lemma same_logs_trans r1 r2 r3 : same_logs r1 r2 → same_logs r2 r3 → same_logs r1 r3.
Proof. intros (?&?&?&?) (?&?&?&?). split_and!; congruence. Qed.

Lemma grows_one nodes id r r' :
  nodes !! id = Some r → rp_self r' = rp_self r →
  (∀ key pl', rp_partitions r' !! key = Some pl' →
     ∃ pl, rp_partitions r !! key = Some pl ∧ ls_next pl <= ls_next pl') →
  grows nodes (<[id := r']> nodes).
Proof.
  intros Hr Hself Hl d rd Hd. destruct (decide (d = id)) as [->|Hne].
  - rewrite lookup_insert_eq in Hd. injection Hd as <-. by exists r.
  - rewrite lookup_insert_ne in Hd by done. exists rd. split; [done|]. split; [done|].
    intros key pl Hpl. by exists pl.
Qed.

(** A node whose logs stay as they are. *)
Lemma quiet_update_inv s M id r r' :
  repl_inv s M → rs_nodes s !! id = Some r → rp_self r' = rp_self r → rp_membership r' = rp_membership r →
  rp_partitions r' = rp_partitions r → offsets_ok (rs_nodes s) r' →
  repl_inv (mkRsys (<[id := r']> (rs_nodes s)) (rs_net s)) M.
Proof.
  intros Hinv Hr Hself Hmem Hparts Hoff.
  assert (∀ key pl', rp_partitions r' !! key = Some pl' →
    ∃ pl, rp_partitions r !! key = Some pl ∧ ls_next pl <= ls_next pl') as Hl.
  { intros key pl' Hpl. rewrite Hparts in Hpl. by exists pl'. }
  apply (node_update_inv s M M id r r'); try done.
  - apply Hinv.
  - by right.
  - intros key pl Hpl. rewrite Hparts in Hpl. by apply (ri_logs _ _ Hinv id r Hr).
  - intros f key. destruct (Hoff f key) as [Hpos Hle]. split; [done|]. intros rf pl Hf Hpl.
    destruct (grows_one (rs_nodes s) id r r' Hr Hself Hl f rf Hf) as (rf0 & Hrf0 & _ & Hl0).
    destruct (Hl0 key pl Hpl) as (pl0 & Hpl0 & Hle0). specialize (Hle rf0 pl0 Hrf0 Hpl0). lia.
Qed.

Lemma same_logs_inv s M id r r' :
  repl_inv s M → rs_nodes s !! id = Some r → same_logs r r' →
  repl_inv (mkRsys (<[id := r']> (rs_nodes s)) (rs_net s)) M.
Proof.
  intros Hinv Hr (Hs & Hm & Hp & Ho). eapply quiet_update_inv; try done.
  intros f key. unfold getFollowerOffset. rewrite Ho. by apply (ri_offsets _ _ Hinv id r Hr).
Qed.

Lemma replicator_tick_inv s M id r io now order order' role leader r' out :
  repl_inv s M → rs_nodes s !! id = Some r → (∀ key f, read_fine (io key f)) →
  replicator_tick io now order order' role leader r = (r', out) →
  repl_inv (mkRsys (<[id := r']> (rs_nodes s)) (rs_net s ++ out)) M.
Proof.
  intros Hinv Hr Hio Ht.
  enough (same_logs r r' ∧ ∀ a msg, (a, msg) ∈ out → msg_ok (rs_nodes s) M a msg) as [Hsame Hout].
  { pose proof (same_logs_inv s M id r r' Hinv Hr Hsame) as Hinv'.
    apply (send_inv _ M out) in Hinv'; [done|]. intros a msg Hin. cbn [rs_nodes].
    eapply msg_ok_grows; [|done|by apply Hout]. eapply grows_one; [done|apply Hsame|].
    intros key pl Hpl. rewrite (proj1 (proj2 (proj2 Hsame))) in Hpl. by exists pl. }
  assert (∀ all addr ord r1, same_logs r r1 →
    same_logs r (fetch_loop all now addr ord r1).1 ∧
    ∀ a msg, (a, msg) ∈ (fetch_loop all now addr ord r1).2 → msg_ok (rs_nodes s) M a msg) as Hfetch.
  { intros all addr ord r1 Hs. destruct (fetch_loop_ok s M id all now addr ord r1 Hinv) as [Hs' Ho']; [by exists r|].
    split; [by eapply same_logs_trans|done]. }
  unfold replicator_tick in Ht.
  set (first := if _ && _ then _ else (r, [])) in Ht.
  assert (same_logs r first.1 ∧ ∀ a msg, (a, msg) ∈ first.2 → msg_ok (rs_nodes s) M a msg) as [Hs1 Ho1].
  { unfold first, sendFetchAll. destruct (_ && _); [destruct leader; [by apply Hfetch|]|];
      (split; [done|]; by intros a msg ?%not_elem_of_nil). }
  destruct first as [r1 out1]. cbn [fst snd] in *.
  assert (same_logs r (set_prevRole r1 role)) as Hs2 by done.
  destruct role.
  - unfold followerTick in Ht. destruct leader as [ld|].
    + case_bool_decide.
      * injection Ht as <- <-. rewrite app_nil_r. done.
      * destruct (Hfetch false (mb_Addr ld) order' (set_prevRole r1 RoleFollower) Hs2) as [Hs3 Ho3].
        destruct (fetch_loop false _ _ _ _) as [r3 out3]. injection Ht as <- <-. split; [done|].
        intros a msg [Hin|Hin]%elem_of_app; [by apply Ho1|by apply Ho3].
    + injection Ht as <- <-. rewrite app_nil_r. done.
  - injection Ht as <- <-. done.
  - injection Ht as <- <-. split; [done|]. intros a msg [Hin|Hin]%elem_of_app; [by apply Ho1|].
    assert (leaderTick io order' (set_prevRole r1 RoleLeader) = leaderTick io order' r) as Heq.
    { destruct Hs2 as (E1 & E2 & E3 & E4). unfold leaderTick, tick_member, getFollowerOffset, data_msg, self_msg.
      by rewrite E1, E2, E3, E4. }
    rewrite Heq in Hin. by eapply leaderTick_ok.
Qed.

(** A handler that records an offset [f] has reached. *)
Lemma set_offset_inv s M id r f key off :
  repl_inv s M → rs_nodes s !! id = Some r → 0 <= off →
  (∀ rf pl, rs_nodes s !! f = Some rf → rp_partitions rf !! key = Some pl → off <= ls_next pl) →
  repl_inv (mkRsys (<[id := setFollowerOffset r f key off]> (rs_nodes s)) (rs_net s)) M.
Proof.
  intros Hinv Hr Hpos Hle. eapply quiet_update_inv; try done.
  intros g k. destruct (ri_offsets _ _ Hinv id r Hr g k) as [Hp Hl].
  assert (getFollowerOffset (setFollowerOffset r f key off) g k =
    if bool_decide (g = f ∧ k = key) then off else getFollowerOffset r g k) as ->.
  { unfold getFollowerOffset, setFollowerOffset. cbn [rp_followerOffsets]. case_bool_decide as Hgk.
    - destruct Hgk as [-> ->]. by rewrite lookup_insert_eq; cbn; rewrite lookup_insert_eq.
    - destruct (decide (g = f)) as [->|Hne]; [|by rewrite lookup_insert_ne].
      rewrite lookup_insert_eq. cbn. rewrite lookup_insert_ne by naive_solver.
      by destruct (rp_followerOffsets r !! f). }
  case_bool_decide as Hgk; [|done]. destruct Hgk as [-> ->]. done.
Qed.

Lemma handleFetch_inv s M id r msg io :
  repl_inv s M → rs_nodes s !! id = Some r → read_fine io → cm_Type msg = MsgReplicaFetch →
  msg_ok (rs_nodes s) M (mb_Addr (rp_self r)) msg →
  let '(r', out, _) := handleFetch io r msg in
  repl_inv (mkRsys (<[id := r']> (rs_nodes s)) (rs_net s ++ out)) M.
Proof.
  intros Hinv Hr Hio Hty (_ & _ & Hf). unfold handleFetch.
  assert (∀ r', repl_inv (mkRsys (<[id := r']> (rs_nodes s)) (rs_net s)) M →
    repl_inv (mkRsys (<[id := r']> (rs_nodes s)) (rs_net s ++ [])) M) as Hnil by (intros r'; by rewrite app_nil_r).
  assert (repl_inv (mkRsys (<[id := r]> (rs_nodes s)) (rs_net s ++ [])) M) as Hid.
  { rewrite app_nil_r, insert_id by done. by destruct s. }
  destruct (json_Unmarshal (cm_Body msg)) as [body|]; [|done].
  destruct (Hf Hty body eq_refl) as [Hpos Hle]. set (key := (rf_Topic body, rf_Partition body)) in *.
  destruct (rp_partitions r !! key) as [pl|] eqn:Hpl; [|done].
  pose proof (set_offset_inv s M id r (cm_From msg) key (rf_FromOffset body) Hinv Hr Hpos Hle) as Hset.
  set (r1 := setFollowerOffset r (cm_From msg) key (rf_FromOffset body)) in *.
  destruct (ls_next pl <=? _); [by apply Hnil|].
  destruct (ls_read io pl _ 256) as [l|e] eqn:Hread; [|by apply Hnil].
  destruct l as [|m0 l0]; [by apply Hnil|].
  destruct (Membership_Get (rp_membership r1) (cm_From msg)) as [follower|] eqn:Hget; [|by apply Hnil].
  unfold reply_outcome. destruct (data_msg r1 key (m0 :: l0)) as [out|] eqn:Hmsg; [|by apply Hnil].
  apply (send_inv _ M [(mb_Addr follower, out)] Hset).
  intros a msg' [= -> ->]%list_elem_of_singleton.
  change (rp_membership r1) with (rp_membership r) in Hget.
  rewrite (proj1 (proj2 (ri_node _ _ Hinv _ _ Hr))) in Hget.
  pose proof (proj1 Hms _ _ Hget) as Hfid. simpl in Hfid.
  eapply (batch_ok (mkRsys (<[id := r1]> (rs_nodes s)) (rs_net s)) M id r1 key pl io);
    [done|apply lookup_insert_eq|done|done|exact Hpos|done|done|by rewrite Hfid|].
  cbn [rs_nodes]. rewrite Hfid. intros rd pl' Hd Hpl'.
  destruct (decide (cm_From msg = id)) as [Heq|Hne].
  - rewrite Heq, lookup_insert_eq in Hd. injection Hd as <-. apply (Hle r pl'); [by rewrite Heq|done].
  - rewrite lookup_insert_ne in Hd by done. by apply (Hle rd pl').
Qed.

Lemma handleAck_inv s M id r msg now :
  repl_inv s M → rs_nodes s !! id = Some r → cm_Type msg = MsgReplicaAck →
  msg_ok (rs_nodes s) M (mb_Addr (rp_self r)) msg →
  let '(r', out, _) := handleAck now r msg in
  repl_inv (mkRsys (<[id := r']> (rs_nodes s)) (rs_net s ++ out)) M.
Proof.
  intros Hinv Hr Hty (_ & Ha & _). unfold handleAck.
  destruct (json_Unmarshal (cm_Body msg)) as [body|].
  - destruct (Ha Hty body eq_refl) as [Hpos Hlt]. set (key := (ra_Topic body, ra_Partition body)) in *.
    rewrite i64_id by (unfold is_i64; lia).
    pose proof (set_offset_inv s M id r (cm_From msg) key (ra_Offset body + 1) Hinv Hr ltac:(lia)) as Hset.
    set (r1 := setFollowerOffset r (cm_From msg) key (ra_Offset body + 1)) in *.
    assert (repl_inv (mkRsys (<[id := r1]> (rs_nodes s)) (rs_net s)) M) as Hinv1.
    { apply Hset. intros rf pl Hf Hpl. specialize (Hlt rf pl Hf Hpl). lia. }
    destruct (rp_partitions r1 !! key); [|by rewrite app_nil_r].
    destruct (rp_isr r1 !! key) as [isr|]; [|by rewrite app_nil_r]. rewrite app_nil_r.
    eapply (same_logs_inv _ M id r1) in Hinv1; [|apply lookup_insert_eq|].
    + cbn [rs_nodes rs_net] in Hinv1. rewrite insert_insert_eq in Hinv1. exact Hinv1.
    + done.
  - rewrite app_nil_r, insert_id by done. by destruct s.
Qed.

(** Replacing one log of a node by a longer replica. *)
Lemma set_log_inv s M M' id r key pl pl' n :
  repl_inv s M → rs_nodes s !! id = Some r → rp_partitions r !! key = Some pl → ls_next pl <= ls_next pl' →
  masters_ok M' → (∀ k, M k `prefix_of` M' k) → (∀ k, k ≠ key → M' k = M k) → (id = master ∨ M' = M) →
  replica (M' key) pl' n → (id = master → n = length (M' key)) →
  repl_inv (mkRsys (<[id := set_log r key pl']> (rs_nodes s)) (rs_net s)) M'.
Proof.
  intros Hinv Hr Hpl Hle HM' HMM Hkey Hid Hrep Hmas.
  assert (∀ k q, rp_partitions (set_log r key pl') !! k = Some q →
    ∃ q0, rp_partitions r !! k = Some q0 ∧ ls_next q0 <= ls_next q) as Hgrow.
  { intros k q Hq. cbn [set_log rp_partitions] in Hq. destruct (decide (k = key)) as [->|Hne].
    - rewrite lookup_insert_eq in Hq. injection Hq as <-. by exists pl.
    - rewrite lookup_insert_ne in Hq by done. by exists q. }
  apply (node_update_inv s M M' id r); try done.
  - intros k q Hq. cbn [set_log rp_partitions] in Hq. destruct (decide (k = key)) as [->|Hne].
    + rewrite lookup_insert_eq in Hq. injection Hq as <-.
      split; [by apply (ri_logs _ _ Hinv id r Hr key pl)|]. by exists n.
    + rewrite lookup_insert_ne in Hq by done. rewrite (Hkey k Hne). by apply (ri_logs _ _ Hinv id r Hr).
  - intros f k. destruct (ri_offsets _ _ Hinv id r Hr f k) as [Hpos Hl]. split; [done|].
    intros rf q Hf Hq. destruct (grows_one (rs_nodes s) id r (set_log r key pl') Hr eq_refl Hgrow f rf Hf)
      as (rf0 & Hrf0 & _ & Hl0). destruct (Hl0 k q Hq) as (q0 & Hq0 & Hle0). specialize (Hl rf0 q0 Hrf0 Hq0).
    change (getFollowerOffset (set_log r key pl') f k) with (getFollowerOffset r f k). lia.
Qed.

Lemma handleData_inv s M id r msg now io r' out err :
  repl_inv s M → rs_nodes s !! id = Some r → cm_Type msg = MsgReplicaData →
  msg_ok (rs_nodes s) M (mb_Addr (rp_self r)) msg → appends_fine io r msg →
  handleData now io r msg = Some (r', out, err) →
  repl_inv (mkRsys (<[id := r']> (rs_nodes s)) (rs_net s ++ out)) M.
Proof.
  intros Hinv Hr Hty (Hd & _ & _) Hfine Hh. unfold handleData in Hh.
  destruct (json_Unmarshal (cm_Body msg)) as [body|] eqn:Hb.
  2: { injection Hh as <- <- <-. rewrite app_nil_r, insert_id by done. by destruct s. }
  destruct (Hd Hty body eq_refl) as (st & l & Hl & Hc & Hst). specialize (Hfine body).
  set (key := (rd_Topic body, rd_Partition body)) in *.
  destruct (rp_partitions r !! key) as [pl|] eqn:Hpl.
  2: { injection Hh as <- <- <-. rewrite app_nil_r, insert_id by done. by destruct s. }
  specialize (Hfine pl Hty Hb eq_refl). specialize (Hst id r pl Hr eq_refl Hpl).
  destruct (ri_logs _ _ Hinv id r Hr key pl Hpl) as (Hk & n & Hrep & Hmas).
  destruct (ri_masters _ _ Hinv key) as [Hdense Hlen]. unfold zlen in Hlen. rewrite Hl in Hfine, Hh.
  pose proof Hrep as (Hn & _ & Hnext).
  assert (st <= n)%nat as Hstn by lia.
  destruct (data_loop_replica io (M key) l 0 pl (-1) st (length l) n Hdense Hrep Hstn Hc Hfine)
    as (pl' & Hloop & Hrep'). rewrite Hloop in Hh.
  assert ((n `max` (st + length l) <= length (M key))%nat) as Hmax by apply Hrep'.
  assert (repl_inv (mkRsys (<[id := set_log (set_lastFetch r key now) key pl']> (rs_nodes s)) (rs_net s)) M) as Hinv'.
  { pose proof (same_logs_inv s M id r (set_lastFetch r key now) Hinv Hr ltac:(done)) as H1.
    pose proof (set_log_inv _ M M id (set_lastFetch r key now) key pl pl' (n `max` (st + length l))%nat
      H1 (lookup_insert_eq _ _ _) Hpl) as H2.
    cbn [rs_nodes rs_net] in H2. rewrite insert_insert_eq in H2. apply H2; try done.
    - destruct Hrep' as (_ & _ & ->). lia.
    - apply Hinv.
    - by right.
    - intros ->. specialize (Hmas eq_refl). lia. }
  set (r1 := set_log (set_lastFetch r key now) key pl') in *.
  set (hi := if l is [] then -1 else _) in *.
  destruct (Z.ltb_spec hi 0) as [Hneg|Hpos]; [by injection Hh as <- <- <-; rewrite app_nil_r|].
  destruct (Membership_Get (rp_membership r1) (cm_From msg)) as [sender|];
    [|by injection Hh as <- <- <-; rewrite app_nil_r].
  unfold reply_outcome in Hh.
  destruct (ack_msg r1 key hi) as [ack|] eqn:Hack; injection Hh as <- <- <-; [|by rewrite app_nil_r].
  apply (send_inv _ M [(mb_Addr sender, ack)] Hinv'). intros a m [= -> ->]%list_elem_of_singleton.
  assert (hi < Z.of_nat (n `max` (st + length l))) as Hhi.
  { unfold hi in *. destruct l; [done|]. cbn [length] in *. lia. }
  eapply ack_msg_ok; [exact Hk| |exact Hack|].
  - lia.
  - cbn [rs_nodes]. intros rd q Hrd Hq. change (rp_self r1) with (rp_self r) in Hrd.
    rewrite (proj1 (ri_node _ _ Hinv _ _ Hr)), lookup_insert_eq in Hrd. injection Hrd as <-.
    cbn [r1 set_log rp_partitions] in Hq. rewrite lookup_insert_eq in Hq. injection Hq as <-.
    destruct Hrep' as (_ & _ & ->). done.
Qed.

Lemma publish_inv s M r key pl io m pl' m' off :
  repl_inv s M → rs_nodes s !! master = Some r → rp_partitions r !! key = Some pl →
  ls_ready io pl m → ls_append io pl m = (pl', m', Ok off) →
  Message_wf (set_offset m (ls_next pl)) → ls_next pl + 1 < 2 ^ 63 →
  ∃ M', repl_inv (mkRsys (<[master := set_log r key pl']> (rs_nodes s)) (rs_net s)) M' ∧
    ∀ k, M k `prefix_of` M' k.
Proof.
  intros Hinv Hr Hpl Hready Happ Hwf Hsmall.
  destruct (ri_logs _ _ Hinv master r Hr key pl Hpl) as (Hk & n & (Hn & Hli & Hnext) & Hmas).
  specialize (Hmas eq_refl). subst n. rewrite take_ge in Hli by done.
  destruct (ls_append_ok io pl (M key) m Hli Hready) as (pl1 & Heq & Hli' & Hnext').
  rewrite Happ in Heq. injection Heq as -> _ _. set (x := set_offset m (ls_next pl)) in *.
  set (M' := λ k, if decide (k = key) then M key ++ [x] else M k).
  assert (M' key = M key ++ [x]) as HMk by (unfold M'; by rewrite decide_True).
  assert (∀ k, M k `prefix_of` M' k) as HMM.
  { intros k. unfold M'. case_decide as Hkey; [subst; by exists [x]|done]. }
  exists M'. split; [|done].
  apply (set_log_inv s M M' master r key pl pl1 (length (M' key))); try done.
  - lia.
  - intros k. unfold M'. case_decide as Hkey; [|apply Hinv]. destruct (ri_masters _ _ Hinv key) as [Hd _].
    split; [by apply dense_snoc|]. rewrite zlen_app. unfold zlen in *. simpl. lia.
  - intros k Hne. unfold M'. by rewrite decide_False.
  - by left.
  - split; [done|]. rewrite HMk, take_ge by done. split; [done|]. rewrite length_app, Hnext', Hnext. simpl. lia.
Qed.

Lemma repl_step_inv s s' M :
  repl_inv s M → repl_step s s' → ∃ M', repl_inv s' M' ∧ ∀ k, M k `prefix_of` M' k.
Proof.
  intros Hinv Hstep. destruct Hstep as [r key pl io m pl' m' off|id r io now order order' role leader r' out Hr Hio Ht
    |id r msg rio now io r' out err Hr Hin Hrio Hfine Hon].
  - by eapply publish_inv.
  - exists M. split; [by eapply replicator_tick_inv|done].
  - exists M. split; [|done]. pose proof (ri_net _ _ Hinv _ _ Hin) as Hmsg.
    unfold Replicator_OnMessage in Hon.
    destruct (cm_Type msg =? MsgReplicaFetch) eqn:Hf.
    { apply Z.eqb_eq in Hf. pose proof (handleFetch_inv s M id r msg rio Hinv Hr Hrio Hf Hmsg) as Hi.
      injection Hon as Hon. by rewrite Hon in Hi. }
    destruct (cm_Type msg =? MsgReplicaData) eqn:Hd.
    { apply Z.eqb_eq in Hd. by eapply handleData_inv. }
    destruct (cm_Type msg =? MsgReplicaAck) eqn:Ha.
    { apply Z.eqb_eq in Ha. pose proof (handleAck_inv s M id r msg now Hinv Hr Ha Hmsg) as Hi.
      injection Hon as Hon. by rewrite Hon in Hi. }
    injection Hon as <- <- _. rewrite app_nil_r, insert_id by done. by destruct s.
Qed.

(** ** Runs *)

Inductive repl_run (s0 : rsys) : rsys → Prop :=
| repl_run_refl : repl_run s0 s0
| repl_run_step s s' : repl_run s0 s → repl_step s s' → repl_run s0 s'.

(** The start: empty logs, nothing known, nothing in flight. *)
Definition repl_start (s : rsys) : Prop :=
  rs_net s = [] ∧
  ∀ id r, rs_nodes s !! id = Some r →
    node_ok id r ∧ rp_followerOffsets r = ∅ ∧
    ∀ key pl, rp_partitions r !! key = Some pl → key_ok key ∧ ls_inv pl [] ∧ ls_next pl = 0.

Lemma repl_start_inv s : repl_start s → repl_inv s (λ _, []).
Proof.
  intros [Hnet Hs]. split.
  - intros key. split; [by intros i m ?|done].
  - intros id r Hr. by apply Hs.
  - intros id r Hr key pl Hpl. destruct (Hs id r Hr) as (_ & _ & Hl).
    destruct (Hl key pl Hpl) as (Hk & Hi & Hn). split; [done|]. exists 0%nat. by repeat split.
  - intros id r Hr f key. destruct (Hs id r Hr) as (_ & Ho & _). unfold getFollowerOffset. rewrite Ho.
    rewrite lookup_empty. cbn. split; [done|]. intros rf pl Hf Hpl.
    destruct (Hs f rf Hf) as (_ & _ & Hl). destruct (Hl key pl Hpl) as (_ & _ & ->). done.
  - rewrite Hnet. by intros a msg ?%not_elem_of_nil.
Qed.

Lemma repl_run_inv s0 s : repl_start s0 → repl_run s0 s → ∃ M, repl_inv s M.
Proof.
  intros Hs Hrun. induction Hrun as [|s s' _ [M Hinv] Hstep].
  - exists (λ _, []). by apply repl_start_inv.
  - destruct (repl_step_inv s s' M Hinv Hstep) as (M' & HM' & _). by exists M'.
Qed.
End Safety.

(** ** The replicas of a cluster *)

(** C7: As long as one node takes the publishes, the logs start empty, reads
    open their file and no append fails, then after any run of publishes,
    ticks in any role and deliveries - late, repeated, out of order, lost - of
    the messages sent, every partition has one sequence of messages, numbered
    from zero without gaps, of which every replica in the cluster holds a
    prefix: its next offset is the prefix's length and a read from any offset
    returns the prefix's messages from there.  The publishing node's replica
    is the whole sequence, so no follower is ever ahead of it. *)
Theorem replicas_stay_prefixes {L} `{LogStore L} (ms : Membership) (master : string) (s0 s : rsys) :
  membership_ok ms →
  (∀ m m', m ∈ Membership_All ms → m' ∈ Membership_All ms → mb_Addr m = mb_Addr m' → m = m') →
  repl_start ms s0 → repl_run master s0 s →
  ∀ key, ∃ M, dense M ∧
    ∀ id r pl, rs_nodes s !! id = Some r → rp_partitions r !! key = Some pl →
      ∃ n, (n <= length M)%nat ∧ ls_next pl = Z.of_nat n ∧ (id = master → n = length M) ∧
        ∀ io off max, read_fine io → 0 <= off →
          ls_read io pl off max = Ok (take (Z.to_nat max) (drop (Z.to_nat off) (take n M))).
Proof.
  intros Hms Haddr Hs Hrun key. destruct (repl_run_inv ms master Hms Haddr s0 s Hs Hrun) as [M Hinv].
  destruct (ri_masters _ _ _ _ Hinv key) as [Hd _]. exists (M key). split; [done|].
  intros id r pl Hr Hpl. destruct (ri_logs _ _ _ _ Hinv id r Hr key pl Hpl) as (_ & n & (Hn & Hli & Hnext) & Hmas).
  exists n. split; [done|]. split; [done|]. split; [done|]. intros io off max [Ho Hk] Hoff.
  rewrite (ls_read_ok io pl _ off max Hli Ho Hk). f_equal. apply read_from_dense; [|done].
  by eapply dense_prefix; [apply prefix_take|].
Qed.

(** ** A pair of nodes catches up *)

Section CatchUp.
Context {L : Type} `{LogStore L}.

(** The leader pushes to [m], which takes the batch; the leader takes the
    acknowledgement. *)
Definition catch_up_round (io : ReadIO) (now : Z) (aio : nat → AppendIO) (key : partKey) (m : Member)
    (s : Replicator L * Replicator L) : Replicator L * Replicator L :=
  match rp_partitions s.1 !! key with
  | None => s
  | Some pl =>
      match tick_member io s.1 key pl m with
      | [] => s
      | (_, d) :: _ =>
          match Replicator_OnMessage io now aio s.2 d with
          | Some (q, (_, a) :: _, _) =>
              match Replicator_OnMessage io now aio s.1 a with
              | Some (r, _, _) => (r, q)
              | None => (s.1, q)
              end
          | Some (q, [], _) => (s.1, q)
          | None => s
          end
      end
  end.

(** The leader [s.1] holds [M] and knows [m] to have [o] messages of it; the
    follower [s.2] is [m] and has [n]. *)
Record paired (M : list Message) (key : partKey) (m : Member) (o n : nat) (s : Replicator L * Replicator L) :
    Prop := mkPaired {
  pa_dense : dense M;
  pa_small : zlen M < 2 ^ 63 - 1;
  pa_key : key_ok key;
  pa_le : (o <= n)%nat;
  pa_leader : ∃ pl, rp_partitions s.1 !! key = Some pl ∧ replica M pl (length M);
  pa_follower : ∃ ql, rp_partitions s.2 !! key = Some ql ∧ replica M ql n;
  pa_offset : getFollowerOffset s.1 (mb_NodeID m) key = Z.of_nat o;
  pa_self : mb_NodeID m = mb_NodeID (rp_self s.2);
  pa_other : mb_NodeID m ≠ mb_NodeID (rp_self s.1);
  pa_known : is_Some (Membership_Get (rp_membership s.2) (mb_NodeID (rp_self s.1)));
}.

Lemma self_msg_total {A} `{JsonCodec A} (r : Replicator L) ty (body : A) :
  json_wf body → ∃ msg, self_msg r ty body = Some msg.
Proof.
  intros Hwf. unfold self_msg. destruct (json_roundtrip body Hwf) as (b & -> & _). by eexists.
Qed.

Lemma data_msg_total (r : Replicator L) key M s l :
  key_ok key → dense M → chunk M s l → ∃ msg, data_msg r key l = Some msg ∧ cm_Type msg = MsgReplicaData ∧
    cm_From msg = mb_NodeID (rp_self r) ∧
    json_Unmarshal (cm_Body msg) = Some (mkReplicaDataBody key.1 key.2 (Some <$> l)).
Proof.
  intros [Hk1 Hk2] Hd Hc. assert (json_wf (mkReplicaDataBody key.1 key.2 (Some <$> l))) as Hwf.
  { split; [done|]. split; [done|]. cbn. apply Forall_fmap. apply (chunk_wf _ _ _ Hd Hc). }
  destruct (self_msg_total r MsgReplicaData _ Hwf) as [msg Hmsg]. exists msg. split; [done|].
  by apply (self_msg_spec r).
Qed.

Lemma ack_msg_total (r : Replicator L) key off :
  key_ok key → 0 <= off < 2 ^ 63 → ∃ msg, ack_msg r key off = Some msg ∧ cm_Type msg = MsgReplicaAck ∧
    cm_From msg = mb_NodeID (rp_self r) ∧
    json_Unmarshal (cm_Body msg) = Some (mkReplicaAckBody key.1 key.2 off).
Proof.
  intros [Hk1 Hk2] Ho. assert (json_wf (mkReplicaAckBody key.1 key.2 off)) as Hwf.
  { split; [done|]. split; [done|]. cbn. unfold is_i64. lia. }
  destruct (self_msg_total r MsgReplicaAck _ Hwf) as [msg Hmsg]. exists msg. split; [done|].
  by apply (self_msg_spec r).
Qed.

(** The appends of a catch-up go through. *)
Definition appends_ready (aio : nat → AppendIO) (M : list Message) : Prop :=
  ∀ i j pl m, ls_inv pl (take j M) → M !! j = Some m → ls_ready (aio i) pl m.

Lemma data_ready_of aio M l : ∀ k pl s n r,
  appends_ready aio M → dense M → replica M pl r → (s <= r)%nat → stretch M s n = l →
  data_ready aio k pl (Some <$> l).
Proof.
  induction l as [|m l IH]; intros k pl s n r Haio Hd Hrep Hs Hst; [done|].
  apply stretch_cons in Hst as (Hm & n' & -> & Hl). destruct (Hd s m Hm) as [Ho _].
  destruct Hrep as (Hle & Hinv & Hnext). rewrite fmap_cons. cbn [data_ready]. rewrite Ho, Hnext.
  destruct (Z.ltb_spec (Z.of_nat s) (Z.of_nat r)).
  - eapply IH; [done|done| |..|done]; [done|lia].
  - assert (s = r) as -> by lia. pose proof (Haio k r pl m Hinv Hm) as Hr. split; [done|].
    destruct (ls_append_ok (aio k) pl (take r M) m Hinv Hr) as (pl1 & -> & Hinv1 & Hnext1). cbn [fst].
    rewrite Hnext, <- Ho, set_offset_same in Hinv1. pose proof (lookup_lt_Some _ _ _ Hm).
    eapply (IH _ _ (S r) n' (S r)); [done|done| |lia|done].
    split; [lia|]. split; [by rewrite (take_S_r _ _ _ Hm)|]. rewrite Hnext1, Hnext. lia.
Qed.
(** What the leader's tick sends to a follower that is behind. *)
Lemma tick_member_behind io M key m o n s pl :
  paired M key m o n s → (o < length M)%nat → read_fine io → rp_partitions s.1 !! key = Some pl →
  replica M pl (length M) →
  ∃ d, tick_member io s.1 key pl m = [(mb_Addr m, d)] ∧ cm_Type d = MsgReplicaData ∧
    cm_From d = mb_NodeID (rp_self s.1) ∧
    json_Unmarshal (cm_Body d) = Some (mkReplicaDataBody key.1 key.2 (Some <$> stretch M o 256)).
Proof.
  intros Hp Ho [Hio Hio'] Hpl (_ & Hinv & Hnext). rewrite take_ge in Hinv by done.
  unfold tick_member. rewrite bool_decide_false by apply (pa_other _ _ _ _ _ _ Hp).
  rewrite (pa_offset _ _ _ _ _ _ Hp), Hnext. destruct (Z.leb_spec (Z.of_nat (length M)) (Z.of_nat o)); [lia|].
  rewrite (ls_read_ok io pl M _ 256 Hinv Hio Hio').
  rewrite read_from_dense by (by apply Hp || lia). rewrite Nat2Z.id. change (Z.to_nat 256) with 256%nat.
  fold (stretch M o 256).
  destruct (data_msg_total s.1 key M o (stretch M o 256)) as (d & Hd & Hspec); [apply Hp..| |].
  { unfold chunk. unfold stretch at 1 3. apply take_own_length. }
  exists d. split; [|done]. rewrite Hd. destruct (stretch M o 256) as [|x l] eqn:Hl; [|done].
  apply (f_equal length) in Hl. unfold stretch in Hl. rewrite length_take, length_drop in Hl. cbn [length] in Hl. lia.
Qed.

(** What the follower makes of it. *)
Lemma handleData_behind now aio M key m o n s d :
  paired M key m o n s → (o < length M)%nat → appends_ready aio M → cm_Type d = MsgReplicaData →
  cm_From d = mb_NodeID (rp_self s.1) →
  json_Unmarshal (cm_Body d) = Some (mkReplicaDataBody key.1 key.2 (Some <$> stretch M o 256)) →
  ∃ q ql a addr, Replicator_OnMessage rio_fine now aio s.2 d = Some (q, [(addr, a)], None) ∧
    rp_self q = rp_self s.2 ∧ rp_membership q = rp_membership s.2 ∧ rp_partitions q !! key = Some ql ∧
    replica M ql (n `max` ((o + 256) `min` length M)) ∧ cm_Type a = MsgReplicaAck ∧
    cm_From a = mb_NodeID (rp_self s.2) ∧
    json_Unmarshal (cm_Body a) = Some (mkReplicaAckBody key.1 key.2 (Z.of_nat ((o + 256) `min` length M) - 1)).
Proof.
  intros Hp Ho Haio Hty Hfrom Hu. destruct (pa_follower _ _ _ _ _ _ Hp) as (ql & Hql & Hrep).
  pose proof (pa_small _ _ _ _ _ _ Hp) as Hsmall. unfold zlen in Hsmall. pose proof (pa_le _ _ _ _ _ _ Hp) as Hle.
  assert (length (stretch M o 256) = (256 `min` (length M - o))%nat) as Hlen
    by (unfold stretch; by rewrite length_take, length_drop).
  destruct (data_loop_replica aio M (stretch M o 256) 0 ql (-1) o 256 n) as (ql' & Hloop & Hrep');
    [apply Hp|done|done|done|by eapply data_ready_of; [done|apply Hp|..]|].
  unfold Replicator_OnMessage. rewrite Hty. cbn [Z.eqb]. change (MsgReplicaData =? MsgReplicaFetch) with false.
  change (MsgReplicaData =? MsgReplicaData) with true. cbv iota. unfold handleData. rewrite Hu.
  cbn [rd_Topic rd_Partition rd_Messages]. cbv zeta. replace (key.1, key.2) with key by (by destruct key).
  unfold partKey in *.
  rewrite Hql, Hloop, Hfrom. set (e := ((o + 256) `min` length M)%nat).
  assert ((o + length (stretch M o 256))%nat = e) as He by (unfold e; lia). rewrite He in *.
  replace (if stretch M o 256 is [] then -1 else _) with (Z.of_nat e - 1) by
    (destruct (stretch M o 256); [cbn [length] in Hlen|]; lia).
  destruct (Z.ltb_spec (Z.of_nat e - 1) 0); [lia|].
  destruct (pa_known _ _ _ _ _ _ Hp) as [sender Hsender]. cbn [set_log set_lastFetch rp_membership].
  rewrite Hsender. set (q := set_log _ key ql'). unfold reply_outcome.
  destruct (ack_msg_total q key (Z.of_nat e - 1)) as (a & -> & Hat & Haf & Hau); [apply Hp|lia|].
  exists q, ql', a, (mb_Addr sender). split; [done|]. split; [done|]. split; [done|].
  split; [apply lookup_insert_eq|]. split; [done|]. by split.
Qed.

(** What an acknowledgement changes at the leader. *)
Lemma handleAck_spec now (r : Replicator L) msg body :
  json_Unmarshal (cm_Body msg) = Some body →
  ∃ r', handleAck now r msg = (r', [], None) ∧ rp_self r' = rp_self r ∧ rp_partitions r' = rp_partitions r ∧
    rp_followerOffsets r' = rp_followerOffsets
      (setFollowerOffset r (cm_From msg) (ra_Topic body, ra_Partition body) (i64 (ra_Offset body + 1))).
Proof.
  intros Hu. unfold handleAck. rewrite Hu. set (r1 := setFollowerOffset r _ _ _).
  destruct (rp_partitions r1 !! _); [|by exists r1]. destruct (rp_isr r1 !! _); [by eexists|by exists r1].
Qed.

Lemma OnMessage_ack rio now aio (r : Replicator L) msg :
  cm_Type msg = MsgReplicaAck → Replicator_OnMessage rio now aio r msg = Some (handleAck now r msg).
Proof. intros Ht. unfold Replicator_OnMessage. by rewrite Ht. Qed.

(** One round moves the known offset, and the follower, by a batch. *)
Lemma catch_up_round_advances now aio M key m o n s :
  paired M key m o n s → (o < length M)%nat → appends_ready aio M →
  let e := ((o + 256) `min` length M)%nat in
  paired M key m e (n `max` e) (catch_up_round rio_fine now aio key m s).
Proof.
  intros Hp Ho Haio e. destruct (pa_leader _ _ _ _ _ _ Hp) as (pl & Hpl & Hrep).
  pose proof (pa_small _ _ _ _ _ _ Hp) as Hsmall. unfold zlen in Hsmall.
  destruct (tick_member_behind rio_fine M key m o n s pl Hp Ho ltac:(by split) Hpl Hrep) as (d & Hd & Hdt & Hdf & Hdu).
  destruct (handleData_behind now aio M key m o n s d Hp Ho Haio Hdt Hdf Hdu)
    as (q & ql & a & addr & Hq & Hqs & Hqm & Hqp & Hqr & Hat & Haf & Hau). fold e in Hqr, Hau.
  destruct (handleAck_spec now s.1 a _ Hau) as (r2 & Ha & H1 & H2 & H3). cbn [ra_Topic ra_Partition ra_Offset] in *.
  assert (e <= length M)%nat as He by (unfold e; lia).
  rewrite Z.sub_add, i64_id, Haf, <- (pa_self _ _ _ _ _ _ Hp), <- surjective_pairing in H3 by (unfold is_i64; lia).
  unfold catch_up_round. rewrite Hpl, Hd, Hq, (OnMessage_ack rio_fine now aio s.1 a Hat), Ha.
  split; cbn [fst snd]; try apply Hp.
  - lia.
  - exists pl. by rewrite H2.
  - by exists ql.
  - unfold getFollowerOffset. rewrite H3. cbn [setFollowerOffset rp_followerOffsets].
    rewrite lookup_insert_eq. cbn. by rewrite lookup_insert_eq.
  - rewrite Hqs. apply Hp.
  - rewrite H1. apply Hp.
  - rewrite H1, Hqm. apply Hp.
Qed.

(** With nothing more to send a round changes nothing. *)
Lemma catch_up_round_idle io now aio M key m o n s :
  paired M key m o n s → o = length M → catch_up_round io now aio key m s = s.
Proof.
  intros Hp ->. destruct (pa_leader _ _ _ _ _ _ Hp) as (pl & Hpl & _ & _ & Hnext).
  unfold catch_up_round, tick_member. rewrite Hpl, (pa_offset _ _ _ _ _ _ Hp), Hnext, Z.leb_refl.
  by destruct (bool_decide _).
Qed.

Lemma catch_up_rounds now aio M key m k : ∀ o n s,
  paired M key m o n s → appends_ready aio M →
  ∃ n', paired M key m ((o + 256 * k) `min` length M) n' (Nat.iter k (catch_up_round rio_fine now aio key m) s).
Proof.
  induction k as [|k IH]; intros o n s Hp Haio.
  - exists n. destruct (pa_follower _ _ _ _ _ _ Hp) as (ql & _ & Hn & _).
    pose proof (pa_le _ _ _ _ _ _ Hp). by replace ((o + 256 * 0) `min` length M)%nat with o by lia.
  - rewrite Nat.iter_succ_r. destruct (decide (o < length M)%nat) as [Hlt|Hge].
    + destruct (IH _ _ _ (catch_up_round_advances now aio M key m o n s Hp Hlt Haio) Haio) as [n' Hn'].
      exists n'. by replace ((o + 256 * S k) `min` length M)%nat with
        (((o + 256) `min` length M + 256 * k) `min` length M)%nat by lia.
    + destruct (pa_follower _ _ _ _ _ _ Hp) as (ql & _ & Hn & _). pose proof (pa_le _ _ _ _ _ _ Hp).
      rewrite (catch_up_round_idle rio_fine now aio M key m o n s Hp) by lia.
      destruct (IH _ _ _ Hp Haio) as [n' Hn']. exists n'.
      by replace ((o + 256 * S k) `min` length M)%nat with ((o + 256 * k) `min` length M)%nat by lia.
Qed.
End CatchUp.

(** C9: A follower catches up: when the leader's log is dense from offset 0, the
    follower's is a prefix of it, the leader's record of the follower is no
    further than that prefix, each knows the other and no call fails, then after
    [k] rounds of push, batch and acknowledgement, with [256 * k] at least the
    messages beyond the leader's record, the follower's log holds exactly the
    leader's messages and the leader's record says so. Rounds are counted from
    the record, which may lag behind the follower. A log that retention has
    trimmed is excluded: see [trimmed_leader_repeats]. *)
Theorem replica_catches_up {L} `{LogStore L} now aio M key m o n k (s : Replicator L * Replicator L) :
  paired M key m o n s → appends_ready aio M → (length M <= o + 256 * k)%nat →
  let s' := Nat.iter k (catch_up_round rio_fine now aio key m) s in
  getFollowerOffset s'.1 (mb_NodeID m) key = zlen M ∧
  ∃ ql, rp_partitions s'.2 !! key = Some ql ∧ ls_inv ql M ∧ ls_next ql = zlen M.
Proof.
  intros Hp Haio Hk s'. destruct (catch_up_rounds now aio M key m k o n s Hp Haio) as [n' Hp'].
  fold s' in Hp'. replace ((o + 256 * k) `min` length M)%nat with (length M) in Hp' by lia.
  split; [apply Hp'|]. destruct (pa_follower _ _ _ _ _ _ Hp') as (ql & Hql & Hn & Hi & Hnext).
  pose proof (pa_le _ _ _ _ _ _ Hp'). exists ql. split; [done|]. rewrite take_ge in Hi by lia. split; [done|].
  unfold zlen. rewrite Hnext. lia.
Qed.

(** ** Concrete clusters *)

Definition repl_a : Member := mkMember "a" "h:1" "" 0.
Definition repl_b : Member := mkMember "b" "h:2" "" 0.
Definition repl_ab : Membership := Membership_Add (NewMembership repl_a) repl_b.

Definition orders0 : partKey := ("orders", 0).

Definition repl_msg (id : string) (off : Z) : Message := mkMessage id "orders" 0 [] ∅ "" 0 off 0.

Definition repl_node (self : Member) (l : list Message) : Replicator (list Message) :=
  RegisterPartition (NewReplicator self repl_ab) "orders" 0 l.

(** [a] takes a publish, ticks as the leader, and [b] gets the batch. *)
Definition demo0 : rsys := mkRsys {["a" := repl_node repl_a []; "b" := repl_node repl_b []]} [].
Definition demo1 : rsys := mkRsys (<["a" := repl_node repl_a [repl_msg "x" 0]]> (rs_nodes demo0)) [].
Definition demo_tick : Replicator (list Message) * list (string * ClusterMsg) :=
  replicator_tick (λ _ _, rio_fine) 0 [orders0] [orders0] RoleLeader (Some repl_a) (repl_node repl_a [repl_msg "x" 0]).
Definition demo2 : rsys := mkRsys (<["a" := demo_tick.1]> (rs_nodes demo1)) (rs_net demo1 ++ demo_tick.2).
Definition demo_io : nat → AppendIO := λ _, mkAppendIO rio_fine true io_fine 0.
Definition demo_data : ClusterMsg := default (mkClusterMsg 0 "" 0 []) (snd <$> head demo_tick.2).
Definition demo_got : Replicator (list Message) * list (string * ClusterMsg) * option repl_err :=
  default (repl_node repl_b [], [], None)
    (Replicator_OnMessage rio_fine 0 demo_io (repl_node repl_b []) demo_data).
Definition demo3 : rsys := mkRsys (<["b" := demo_got.1.1]> (rs_nodes demo2)) (rs_net demo2 ++ demo_got.1.2).

Lemma demo_start : repl_start repl_ab demo0.
Proof.
  split; [done|]. intros id r Hr.
  assert ((id = "a" ∧ r = repl_node repl_a []) ∨ (id = "b" ∧ r = repl_node repl_b [])) as [[-> ->]|[-> ->]].
  { unfold demo0 in Hr. cbn [rs_nodes] in Hr. rewrite lookup_insert_Some, lookup_singleton_Some in Hr. naive_solver. }
  all: (split; [done|]); (split; [done|]); intros key pl Hpl;
    apply (lookup_singleton_Some orders0 key ([] : list Message) pl) in Hpl as [<- <-]; split; [by vm_compute|done].
Qed.

Lemma demo_run : repl_run "a" demo0 demo3.
Proof.
  eapply repl_run_step; [eapply repl_run_step; [eapply repl_run_step; [apply repl_run_refl|]|]|].
  - by eapply (step_publish "a" demo0 (repl_node repl_a []) orders0 [] (demo_io 0) (repl_msg "x" 0)
      [repl_msg "x" 0] (repl_msg "x" 0) 0).
  - apply (step_tick "a" demo1 "a" (repl_node repl_a [repl_msg "x" 0]) (λ _ _, rio_fine) 0 [orders0] [orders0]
      RoleLeader (Some repl_a)); [apply lookup_insert_eq|by split|apply surjective_pairing].
  - apply (step_deliver "a" demo2 "b" (repl_node repl_b []) demo_data rio_fine 0 demo_io demo_got.1.1
      demo_got.1.2 demo_got.2).
    + done.
    + by vm_compute; left.
    + by split.
    + intros body pl _ Hb Hpl. vm_compute in Hb. injection Hb as <-. vm_compute in Hpl. injection Hpl as <-.
      vm_compute. by repeat split.
    + by vm_compute.
Qed.

Lemma replicas_stay_prefixes_witness :
  (rp_partitions demo_got.1.1 !! orders0 = Some [repl_msg "x" 0]) ∧
  ∃ M, dense M ∧
    ∀ id r pl, rs_nodes demo3 !! id = Some r → rp_partitions r !! orders0 = Some pl →
      ∃ n, (n <= length M)%nat ∧ ls_next pl = Z.of_nat n ∧ (id = "a" → n = length M) ∧
        ∀ io off max, read_fine io → 0 <= off →
          ls_read io pl off max = Ok (take (Z.to_nat max) (drop (Z.to_nat off) (take n M))).
Proof.
  split; [by vm_compute|].
  apply (replicas_stay_prefixes repl_ab "a" demo0 demo3).
  - apply Membership_Add_ok, NewMembership_ok.
  - intros m m' Hm Hm'. assert (Membership_All repl_ab = [repl_a; repl_b]) as Hall by (by vm_compute).
    rewrite Hall, !elem_of_cons, elem_of_nil in Hm, Hm'.
    destruct Hm as [->|[->|[]]], Hm' as [->|[->|[]]]; first [reflexivity|discriminate].
  - apply demo_start.
  - apply demo_run.
Defined.

Definition demo_pair : Replicator (list Message) * Replicator (list Message) :=
  (repl_node repl_a [repl_msg "x" 0; repl_msg "y" 1], repl_node repl_b [repl_msg "x" 0]).

Lemma demo_paired : paired [repl_msg "x" 0; repl_msg "y" 1] orders0 repl_b 0 1 demo_pair.
Proof.
  split; try done.
  - intros i m Hi. destruct i as [|[|i]]; cbn in Hi; [injection Hi as <-..|done];
      (split; [done|]); repeat split; done.
  - lia.
  - eexists. split; [apply lookup_insert_eq|]. split; [done|]. by split.
  - eexists. split; [apply lookup_insert_eq|]. split; [cbn; lia|]. by split.
Qed.

Lemma replica_catches_up_witness :
  let s' := Nat.iter 1 (catch_up_round rio_fine 0 demo_io orders0 repl_b) demo_pair in
  getFollowerOffset s'.1 (mb_NodeID repl_b) orders0 = zlen [repl_msg "x" 0; repl_msg "y" 1] ∧
  ∃ ql, rp_partitions s'.2 !! orders0 = Some ql ∧ ls_inv ql [repl_msg "x" 0; repl_msg "y" 1] ∧
    ls_next ql = zlen [repl_msg "x" 0; repl_msg "y" 1].
Proof.
  apply (replica_catches_up 0 demo_io [repl_msg "x" 0; repl_msg "y" 1] orders0 repl_b 0 1 1 demo_pair).
  - apply demo_paired.
  - intros i j pl m _ _. by split.
  - cbn. lia.
Defined.

(** ** Without the conditions *)

(** The follower appends at its own next offset, whatever the offset the
    message has. *)
Lemma data_ignores_gaps {L} `{LogStore L} io k pl ms m highest :
  ls_inv pl ms → ls_next pl <= msg_Offset m → ls_ready (io k) pl m →
  ∃ pl', data_loop io k pl highest [Some m] = Some (pl', Z.max highest (ls_next pl)) ∧
    ls_inv pl' (ms ++ [set_offset m (ls_next pl)]).
Proof.
  intros Hinv Hle Hready. cbn [data_loop]. destruct (Z.ltb_spec (msg_Offset m) (ls_next pl)); [lia|].
  destruct (ls_append_ok (io k) pl ms m Hinv Hready) as (pl' & -> & Hinv' & _). exists pl'.
  split; [|done]. do 2 f_equal. destruct (Z.ltb_spec highest (ls_next pl)); lia.
Qed.

(** A message the follower has an offset for already is never compared: the
    logs of two former leaders stay apart, and the offset is acknowledged. *)
Lemma data_keeps_conflict {L} `{LogStore L} io k pl m highest :
  msg_Offset m < ls_next pl →
  data_loop io k pl highest [Some m] = Some (pl, Z.max highest (msg_Offset m)).
Proof.
  intros Hlt. cbn [data_loop]. destruct (Z.ltb_spec (msg_Offset m) (ls_next pl)); [|lia].
  do 2 f_equal. destruct (Z.ltb_spec highest (msg_Offset m)); lia.
Qed.

Definition fail_first : nat → AppendIO := λ k,
  mkAppendIO rio_fine true (if (k =? 0)%nat then mkWriteIO (Some 0%nat) true None else io_fine) 0.

(** One failed append shifts the rest of the batch; the offset acknowledged
    makes the next batch skip the message lost. *)
Lemma failed_append_shifts :
  data_loop fail_first 0 ([] : list Message) (-1) [Some (repl_msg "x" 0); Some (repl_msg "y" 1)] =
    Some ([repl_msg "y" 0], 0).
Proof. by vm_compute. Qed.

(** The leader's log starts at offset 2 after retention; a new follower takes
    the same batch again until its own offset passes it. *)
Lemma trimmed_leader_repeats :
  let batch := [Some (repl_msg "x" 2); Some (repl_msg "y" 3)] in
  ∃ l1 l2, data_loop demo_io 0 ([] : list Message) (-1) batch = Some (l1, 1) ∧
    data_loop demo_io 0 l1 (-1) batch = Some (l2, 3) ∧
    (msg_ID <$> l1) = ["x"; "y"] ∧ (msg_ID <$> l2) = ["x"; "y"; "x"; "y"].
Proof. cbn zeta. eexists _, _. split; [by vm_compute|]. split; [by vm_compute|]. by split. Qed.
