(* ===== verification/ReplicationManager.v ===== *)
(** * Pull replication: [internal/replication/manager.go]

    The older replication between a leader and followers that poll it: the
    replicas a node knows and whether they are in sync, what a leader sends
    over a connection, what a follower makes of the answer to its fetch, and
    the heartbeat.  Each replica has a lock of its own, taken for one field
    access at a time; the methods here are not interleaved with each other. *)

From S2P Require Import Prelude GoLib Json Types Protocol WireJson Segment Topic ReplicaLog.

Local Open Scope Z_scope.

(** ** Replica state *)

Record ReplicaState := mkReplicaState {
  rs_NodeID : string;
  rs_Addr : string;
  rs_NextOffset : Z;
  rs_LastContact : Z;
  rs_InSync : bool;
  rs_Topic : string;
  rs_Partition : Z;
}.

Definition ReplicaState_update (now : Z) (r : ReplicaState) (offset : Z) : ReplicaState :=
  mkReplicaState (rs_NodeID r) (rs_Addr r) offset now true (rs_Topic r) (rs_Partition r).

Definition ReplicaState_lag (r : ReplicaState) (leaderOffset : Z) : Z :=
  let lag := i64 (leaderOffset - rs_NextOffset r) in
  if lag <? 0 then 0 else lag.

(** A [json.RawMessage] whose text is compact already: it is copied. *)
Record RawMessage := mkRaw { raw : bytes }.

Lemma RawMessage_roundtrip (x : RawMessage) : True → ∃ b, Some (raw x) = Some b ∧ Some (mkRaw b) = Some x.
Proof. intros _. exists (raw x). by destruct x. Qed.

#[global] Instance RawMessageJson : JsonCodec RawMessage := {|
  json_Marshal := λ x, Some (raw x);
  json_Unmarshal := λ b, Some (mkRaw b);
  json_wf := λ _, True;
  json_roundtrip := RawMessage_roundtrip;
|}.

Section Manager.
Context {L : Type} `{LogStore L}.

(** [mgr_lag] is the gauge [ReplicationLag]. *)
Record ReplManager := mkReplManager {
  mgr_nodeID : string;
  mgr_isLeader : bool;
  mgr_replicas : gmap string ReplicaState;
  mgr_partitionLogs : gmap string L;
  mgr_syncInterval : Z;
  mgr_lag : Z;
}.

Definition NewManager (nodeID : string) (syncInterval : Z) : ReplManager :=
  mkReplManager nodeID false ∅ ∅ syncInterval 0.

Definition mgr_with (m : ReplManager) (rs : gmap string ReplicaState) (logs : gmap string L) : ReplManager :=
  mkReplManager (mgr_nodeID m) (mgr_isLeader m) rs logs (mgr_syncInterval m) (mgr_lag m).

Definition RegisterReplica (now : Z) (m : ReplManager) (nodeID addr : string) : ReplManager :=
  mgr_with m (<[nodeID := mkReplicaState nodeID addr 0 now false "" 0]> (mgr_replicas m)) (mgr_partitionLogs m).

Definition AddReplica (now : Z) (m : ReplManager) (nodeID leaderAddr : string) (pl : L) : ReplManager :=
  mgr_with m (<[nodeID := mkReplicaState nodeID leaderAddr 0 now false "" 0]> (mgr_replicas m))
    (<[nodeID := pl]> (mgr_partitionLogs m)).

Definition SetPartitionLog (m : ReplManager) (nodeID : string) (pl : L) : ReplManager :=
  mgr_with m (mgr_replicas m) (<[nodeID := pl]> (mgr_partitionLogs m)).

Definition SetReplicaPartition (m : ReplManager) (nodeID topic : string) (partition : Z) : ReplManager :=
  match mgr_replicas m !! nodeID with
  | None => m
  | Some r =>
      mgr_with m (<[nodeID := mkReplicaState (rs_NodeID r) (rs_Addr r) (rs_NextOffset r) (rs_LastContact r)
        (rs_InSync r) topic partition]> (mgr_replicas m)) (mgr_partitionLogs m)
  end.

Definition SetLeader (m : ReplManager) (leader : bool) : ReplManager :=
  mkReplManager (mgr_nodeID m) leader (mgr_replicas m) (mgr_partitionLogs m) (mgr_syncInterval m) (mgr_lag m).

(** The loops over the replicas: their results do not depend on the order. *)
Definition ReplicaLag (m : ReplManager) (leaderOffset : Z) : Z :=
  foldr (λ r maxLag, let l := ReplicaState_lag r leaderOffset in if maxLag <? l then l else maxLag) 0
    (map_to_list (mgr_replicas m)).*2.

Definition staleBefore (now : Z) (m : ReplManager) : Z := now + i64 (-3 * mgr_syncInterval m).

Definition ISRCount (now : Z) (m : ReplManager) : Z :=
  1 + zlen (filter (λ r, (rs_InSync r && (staleBefore now m <? rs_LastContact r)) = true)
              (map_to_list (mgr_replicas m)).*2).

Definition checkReplicaHealth (now : Z) (m : ReplManager) : ReplManager :=
  mgr_with m ((λ r, if rs_InSync r && (rs_LastContact r <? staleBefore now m)
    then mkReplicaState (rs_NodeID r) (rs_Addr r) (rs_NextOffset r) (rs_LastContact r) false (rs_Topic r) (rs_Partition r)
    else r) <$> mgr_replicas m) (mgr_partitionLogs m).

(** ** The leader sends *)

Inductive repl_mgr_err :=
| ReplReadErr (e : seg_err)
| ReplSendErr (e : proto_err)
| PullDial
| PullSend (e : proto_err)
| PullDecode
| PullAppend (e : seg_err).

(** The text of a message; a failed [Marshal] is ignored and sends [null]. *)
Definition message_text (m : Message) : bytes := default (bytes_of_string "null") (json_Marshal m).

(** [io k] is the outcome of the two writes of the [k]-th frame. *)
Fixpoint send_loop (io : nat → bool * bool) (k : nat) (w : bytes) (msgs : list Message) : bytes * result unit proto_err :=
  match msgs with
  | [] => (w, Ok tt)
  | msg :: msgs' =>
      match Encoder_Encode w CmdPublish 0 (Some (mkRaw (message_text msg))) (io k).1 (io k).2 with
      | (w', Error e) => (w', Error e)
      | (w', Ok _) => send_loop io (S k) w' msgs'
      end
  end.

Definition Replicate (now : Z) (rio : ReadIO) (io : nat → bool * bool) (m : ReplManager) (followerNodeID : string)
    (pl : L) (fromOffset : Z) (conn : bytes) : ReplManager * bytes * result unit repl_mgr_err :=
  match ls_read rio pl fromOffset 256 with
  | Error e => (m, conn, Error (ReplReadErr e))
  | Ok msgs =>
      if zlen msgs =? 0 then (m, conn, Ok tt)
      else
      match send_loop io 0 conn msgs with
      | (conn, Error e) => (m, conn, Error (ReplSendErr e))
      | (conn, Ok _) =>
          let rs := match mgr_replicas m !! followerNodeID with
                    | Some r => <[followerNodeID := ReplicaState_update now r (i64 (fromOffset + zlen msgs))]> (mgr_replicas m)
                    | None => mgr_replicas m
                    end in
          let m := mgr_with m rs (mgr_partitionLogs m) in
          (mkReplManager (mgr_nodeID m) (mgr_isLeader m) (mgr_replicas m) (mgr_partitionLogs m)
             (mgr_syncInterval m) (ReplicaLag m (ls_next pl)), conn, Ok tt)
      end
  end.

(** ** The follower pulls

    [resp] is what the connection delivers before it ends or the deadline
    passes; each frame takes eighteen bytes or more of it. *)
Fixpoint pull_loop (fuel : nat) (io : nat → AppendIO) (k : nat) (pl : L) (resp : bytes) :
    L * result unit repl_mgr_err :=
  match fuel with
  | O => (pl, Ok tt)
  | S fuel =>
      match Decoder_Decode resp with
      | Error _ => (pl, Ok tt)
      | Ok (f, resp') =>
          if negb (fr_Command f =? CmdPublish) then (pl, Ok tt)
          else
            match Unmarshal f (mkMessage "" "" 0 [] ∅ "" 0 0 0) with
            | None => (pl, Error PullDecode)
            | Some msg =>
                match ls_append (io k) pl msg with
                | (pl', _, Error e) => (pl', Error (PullAppend e))
                | (pl', _, Ok _) => pull_loop fuel io (S k) pl' resp'
                end
            end
      end
  end.

Definition pull_request (topic : string) (partition : Z) (pl : L) : FetchRequest :=
  mkFetchRequest topic "" partition (ls_next pl) 256 false.

(** [dial] says whether the leader is reached; the result is the log, what was
    sent and the error. *)
Definition Pull (dial : bool) (sendio : bool * bool) (io : nat → AppendIO) (topic : string) (partition : Z) (pl : L)
    (resp : bytes) : L * bytes * result unit repl_mgr_err :=
  if negb dial then (pl, [], Error PullDial)
  else
    match Encoder_Encode [] CmdFetch 0 (Some (pull_request topic partition pl)) sendio.1 sendio.2 with
    | (sent, Error e) => (pl, sent, Error (PullSend e))
    | (sent, Ok _) => let '(pl', r) := pull_loop (S (length resp)) io 0 pl resp in (pl', sent, r)
    end.

(** What one pull meets. *)
Record PullIO := mkPullIO {
  pio_dial : bool;
  pio_send : bool * bool;
  pio_append : nat → AppendIO;
  pio_resp : bytes;
}.

(** The targets, and the pull of each: the log of the replica [id]. *)
Definition pull_targets (order : list string) (m : ReplManager) : list (string * ReplicaState * L) :=
  omap (λ id, match mgr_replicas m !! id with
              | None => None
              | Some r => if bool_decide (rs_Addr r = EmptyString) then None
                          else (λ pl, (id, r, pl)) <$> mgr_partitionLogs m !! id
              end) order.

Definition pullFromLeaders (order : list string) (io : string → PullIO) (m : ReplManager) : ReplManager :=
  foldl (λ m t, let '(id, r, pl) := t in
    let p := io id in
    SetPartitionLog m id
      (Pull (pio_dial p) (pio_send p) (pio_append p) (rs_Topic r) (rs_Partition r) pl (pio_resp p)).1.1) m (pull_targets order m).

Definition heartbeat (now : Z) (order : list string) (io : string → PullIO) (m : ReplManager) : ReplManager :=
  if mgr_isLeader m then checkReplicaHealth now m else pullFromLeaders order io m.

(** ** Facts *)

Definition text_frame (msg : Message) : Frame := mkFrame CmdPublish 0 (message_text msg).

(** A message whose text fits a frame and reads back. *)
Definition sendable (msg : Message) : Prop := Message_wf msg ∧ zlen (message_text msg) <= MaxBodySize.

Lemma message_text_read msg :
  Message_wf msg → 0 < zlen (message_text msg) ∧ json_Unmarshal (message_text msg) = Some msg.
Proof.
  intros Hwf. assert (json_wf msg) as Hj by exact Hwf.
  unfold message_text. destruct (json_roundtrip msg Hj) as (b & Hb & Hu).
  rewrite Hb. cbn [default from_option id]. split; [|done].
  destruct b; [|rewrite zlen_cons; pose proof (zlen_nonneg b0); lia].
  cbn in Hu. done.
Qed.

Lemma text_frame_wf msg : sendable msg → frame_wf (text_frame msg).
Proof. intros [_ Hs]. unfold frame_wf, text_frame, is_u64, CmdPublish. cbn [fr_Command fr_RequestID fr_Body]. lia. Qed.

Lemma Encode_text w msg :
  sendable msg → Encoder_Encode w CmdPublish 0 (Some (mkRaw (message_text msg))) true true =
    (w ++ frame_bytes (text_frame msg), Ok tt).
Proof.
  intros [Hwf Hs]. destruct (message_text_read msg Hwf) as [Hpos _]. unfold Encoder_Encode. cbn [json_Marshal RawMessageJson raw].
  rewrite u32_id by (unfold MaxBodySize in *; lia). rewrite (proj2 (Z.ltb_ge _ _)) by done.
  unfold Encoder_writeFrame. cbn [negb fr_Body]. rewrite (proj2 (Z.ltb_lt _ _)) by done.
  unfold frame_bytes, text_frame. by rewrite app_assoc.
Qed.

Lemma send_loop_ok msgs : ∀ k w,
  Forall sendable msgs →
  send_loop (λ _, (true, true)) k w msgs = (w ++ mjoin ((frame_bytes ∘ text_frame) <$> msgs), Ok tt).
Proof.
  induction msgs as [|msg msgs IH]; intros k w Hall; [by rewrite app_nil_r|].
  apply Forall_cons in Hall as [Hm Hall]. cbn [send_loop fst snd]. rewrite Encode_text by done.
  rewrite IH by done. by rewrite fmap_cons, mjoin_cons, app_assoc.
Qed.

(** The appends the messages call for go through. *)
Fixpoint pull_ready (io : nat → AppendIO) (k : nat) (pl : L) (msgs : list Message) : Prop :=
  match msgs with
  | [] => True
  | m :: msgs' => ls_ready (io k) pl m ∧ pull_ready io (S k) (ls_append (io k) pl m).1.1 msgs'
  end.

Lemma pull_loop_frames io msgs : ∀ k fuel pl M s n,
  dense M → replica M pl s → stretch M s n = msgs → Forall sendable msgs → (length msgs < fuel)%nat →
  pull_ready io k pl msgs →
  ∃ pl', pull_loop fuel io k pl (mjoin ((frame_bytes ∘ text_frame) <$> msgs)) = (pl', Ok tt) ∧
    replica M pl' (s + length msgs).
Proof.
  induction msgs as [|msg msgs IH]; intros k fuel pl M s n Hd Hrep Hst Hall Hf Hready.
  { exists pl. rewrite Nat.add_0_r. split; [|done]. by destruct fuel. }
  destruct fuel as [|fuel]; [simpl in Hf; lia|]. apply stretch_cons in Hst as (Hm & n' & -> & Hl).
  destruct (Hd s msg Hm) as [Ho Hwf]. apply Forall_cons in Hall as [Hs Hall].
  rewrite fmap_cons, mjoin_cons. cbn [pull_loop compose].
  unfold frame_bytes at 1. rewrite <- app_assoc. fold (frame_bytes (text_frame msg)).
  rewrite app_assoc. fold (frame_bytes (text_frame msg)).
  rewrite (Decoder_Decode_frame (text_frame msg)) by by apply text_frame_wf.
  change (fr_Command (text_frame msg)) with CmdPublish. rewrite Z.eqb_refl. cbn [negb].
  destruct (message_text_read msg Hwf) as [Hpos Hu]. unfold Unmarshal. change (fr_Body (text_frame msg)) with (message_text msg).
  rewrite (proj2 (Z.eqb_neq _ 0)) by lia. rewrite Hu. destruct Hrep as (Hle & Hinv & Hnext).
  cbn [pull_ready] in Hready. destruct Hready as [Hr Hready].
  destruct (ls_append_ok (io k) pl (take s M) msg Hinv Hr) as (pl1 & Heq & Hinv1 & Hnext1). rewrite Heq in *.
  cbn [fst] in Hready. rewrite Hnext, <- Ho, set_offset_same in Hinv1. pose proof (lookup_lt_Some _ _ _ Hm).
  destruct (IH (S k) fuel pl1 M (S s) n' Hd) as (pl' & -> & Hrep');
    [|exact (eq_sym Hl)|exact Hall| |exact Hready|].
  - split; [lia|]. split; [by rewrite (take_S_r _ _ _ Hm)|]. rewrite Hnext1, Hnext. lia.
  - simpl in Hf. lia.
  - exists pl'. split; [done|]. cbn [length]. by rewrite <- Nat.add_succ_comm.
Qed.
End Manager.
Arguments ReplManager : clear implicits.

(** ** Properties *)

(** What the leader writes for a follower at its next offset is what the
    follower's pull turns into its log: when the follower's log is a prefix of
    the leader's, every message fits a frame and no call fails, the pull of
    the bytes [Replicate] wrote leaves the follower with up to 256 messages
    more of the leader's log, and nothing else; the leader then has the
    follower in sync at the follower's new next offset. *)
Theorem pull_replicates {L} `{LogStore L} now rio aio (m : ReplManager L) id r (pl ql : L) M n topic partition :
  dense M → replica M pl (length M) → replica M ql n → (n < length M)%nat → read_fine rio →
  Forall sendable M → pull_ready aio 0 ql (stretch M n 256) →
  mgr_replicas m !! id = Some r → zlen M < 2 ^ 63 →
  Encoder_Encode [] CmdFetch 0 (Some (pull_request topic partition ql)) true true =
    ((Encoder_Encode [] CmdFetch 0 (Some (pull_request topic partition ql)) true true).1, Ok tt) →
  ∃ m' conn ql' sent,
    Replicate now rio (λ _, (true, true)) m id pl (ls_next ql) [] = (m', conn, Ok tt) ∧
    Pull true (true, true) aio topic partition ql conn = (ql', sent, Ok tt) ∧
    replica M ql' ((n + 256) `min` length M) ∧
    ∃ r', mgr_replicas m' !! id = Some r' ∧ rs_InSync r' = true ∧ rs_NextOffset r' = ls_next ql'.
Proof.
  intros Hd (Hple & Hpinv & Hpnext) Hq Hn [Ho Hk] Hall Hready Hr Hsmall Hsend.
  pose proof Hq as (_ & _ & Hqnext). rewrite take_ge in Hpinv by done. set (l := stretch M n 256) in *.
  assert (length l = (256 `min` (length M - n))%nat) as Hlen by (unfold l, stretch; by rewrite length_take, length_drop).
  assert (ls_read rio pl (ls_next ql) 256 = Ok l) as Hread.
  { rewrite (ls_read_ok rio pl M _ 256 Hpinv Ho Hk), Hqnext, read_from_dense by (done || lia). by rewrite Nat2Z.id. }
  assert (Forall sendable l) as Hl by (unfold l, stretch; by apply Forall_take, Forall_drop).
  unfold Replicate. rewrite Hread, (proj2 (Z.eqb_neq _ 0)) by (unfold zlen; lia). rewrite send_loop_ok by done. rewrite app_nil_l, Hr.
  set (conn := mjoin _).
  destruct (pull_loop_frames aio l 0 (S (length conn)) ql M n 256 Hd Hq eq_refl Hl) as (ql' & Hpull & Hrep).
  { unfold conn. clear. induction l as [|x l IH]; [cbn; lia|].
    rewrite fmap_cons, mjoin_cons, length_app. cbn [length compose]. enough (1 <= length (frame_bytes (text_frame x)))%nat by lia.
    unfold frame_bytes. rewrite length_app. pose proof (frame_header_length (text_frame x)) as Hh. unfold zlen, HeaderSize in Hh. lia. }
  { done. }
  eexists _, conn, ql', _. split; [reflexivity|]. split.
  { unfold Pull. cbn [negb fst snd]. rewrite Hsend.
    change (mjoin ((frame_bytes ∘ text_frame) <$> l)) with conn in Hpull. by rewrite Hpull. }
  replace ((n + 256) `min` length M)%nat with (n + length l)%nat by lia. split; [done|].
  eexists. split; [apply lookup_insert_eq|]. split; [done|]. cbn [rs_NextOffset ReplicaState_update].
  destruct Hrep as (_ & _ & ->). rewrite Hqnext. unfold zlen in *. rewrite i64_id by (unfold is_i64; lia). lia.
Qed.

Definition pull_manager : ReplManager (list Message) := RegisterReplica 0 (NewManager "a" (10 ^ 9)) "b" "".

Lemma pull_replicates_witness :
  let M := [repl_msg "x" 0; repl_msg "y" 1] in
  ∃ m' conn ql' sent,
    Replicate 0 rio_fine (λ _, (true, true)) pull_manager "b" M (ls_next [repl_msg "x" 0]) [] = (m', conn, Ok tt) ∧
    Pull true (true, true) demo_io "orders" 0 [repl_msg "x" 0] conn = (ql', sent, Ok tt) ∧
    replica M ql' ((1 + 256) `min` length M) ∧
    ∃ r', mgr_replicas m' !! "b" = Some r' ∧ rs_InSync r' = true ∧ rs_NextOffset r' = ls_next ql'.
Proof.
  intros M. eapply (pull_replicates 0 rio_fine demo_io pull_manager "b" _ M [repl_msg "x" 0] M 1 "orders" 0).
  - intros i m Hi. destruct i as [|[|i]]; cbn in Hi; [injection Hi as <-..|done];
      (split; [done|]); repeat split; done.
  - split; [done|]. by split.
  - split; [cbn; lia|]. by split.
  - cbn. lia.
  - by split.
  - repeat constructor; try done; by vm_compute.
  - by split.
  - apply lookup_insert_eq.
  - done.
  - by vm_compute.
Defined.

(** ** Where it stops *)

(** An answer of any other command ends the pull without an error: the broker
    answers a fetch with [CmdResponse], so nothing is ever pulled. *)
Lemma pull_stops_at_response {L} `{LogStore L} fuel io k (pl : L) f resp rest :
  Decoder_Decode resp = Ok (f, rest) → fr_Command f ≠ CmdPublish → pull_loop fuel io k pl resp = (pl, Ok tt).
Proof. intros Hd Hc. destruct fuel; [done|]. cbn [pull_loop]. rewrite Hd. by rewrite (proj2 (Z.eqb_neq _ _)). Qed.
