(* ===== verification/ClusterNode.v ===== *)
(** * The cluster node: [internal/cluster/node.go], [internal/broker/cluster.go]

    The coordinator that ties membership, election, Raft, replication and the
    partition map together: its start, the join and leave handshake, the
    synchronisation of members and of the partition map, and the broker's view
    of partition ownership.  What [transport.Send] returns only reaches the
    log, so a send is an entry of the list a handler returns. *)

From S2P Require Import Prelude GoLib Json GoTime RaftRpc Raft.
From S2P Require Import Types Segment Topic WireJson Cluster Transport Bully Replicator.

Local Open Scope Z_scope.

(** ** Payloads *)

Record TopicInfo := mkTopicInfo {
  ti_Name : string;
  ti_Partitions : Z;
}.

Definition metaSyncMember : string := "member".
Definition metaSyncPartitions : string := "partitions".

(** A [json.RawMessage] is the value its text denotes; [None] is the one that
    an absent field leaves empty, which does not unmarshal. *)
Record metaSyncPayload := mkMetaSyncPayload {
  msp_Kind : string;
  msp_Data : option json;
}.

Definition metaSyncPayload_fields (p : metaSyncPayload) : list (bytes * json) :=
  put "kind" (jstr (msp_Kind p)) ++ put "data" (default JNull (msp_Data p)) ++ [].

Definition metaSyncPayload_of (l : list (bytes * json)) : option metaSyncPayload :=
  (λ kind, mkMetaSyncPayload kind (jfield "data" l)) <$> get_str "kind" l.

Definition metaSyncPayload_marshal (p : metaSyncPayload) : bytes := print (JObj (metaSyncPayload_fields p)).

(** [json.Unmarshal] of the raw message into a struct. *)
Definition raw_unmarshal {A} (f : list (bytes * json) → option A) (data : option json) : option A :=
  match data with
  | Some (JObj l) => f l
  | Some JNull => f []
  | _ => None
  end.

(** ** Configuration *)

(** The fields of [config.ClusterConfig] that [NewNode] and [Start] read. *)
Record ClusterConfig := mkClusterConfig {
  cc_NodeID : string;
  cc_BindAddr : string;
  cc_Seeds : list string;
  cc_HeartbeatInterval : Z;
  cc_ElectionTimeoutMin : Z;
  cc_ElectionTimeoutMax : Z;
  cc_ConsensusAlgorithm : string;
}.

Definition or_default (v d : Z) : Z := if v <=? 0 then d else v.

(** Heartbeat interval, least and greatest election timeout, in milliseconds. *)
Definition election_timing (cfg : ClusterConfig) : Z * Z * Z :=
  (or_default (cc_HeartbeatInterval cfg) 150, or_default (cc_ElectionTimeoutMin cfg) 450,
   or_default (cc_ElectionTimeoutMax cfg) 750).

Inductive node_err :=
| NodeIDRequired
| BindAddrRequired
| TransportFailed
| MarshalSelf.

Section ClusterNode.
Context {L : Type} `{LogStore L}.

(** ** State

    The node, its replicator and its election point to one [Membership]: it
    is kept in the replicator, and the election is handed it.  [cn_topics] is
    what the topic provider returns, [None] when none is set; [cn_notify] says
    whether a partition-change callback is. *)

Record Node := mkNode {
  cn_cfg : ClusterConfig;
  cn_self : Member;
  cn_election : Election;
  cn_replicator : Replicator L;
  cn_raftNode : option Raft.Node;
  cn_partMap : PartitionMap;
  cn_topics : option (list TopicInfo);
  cn_notify : bool;
}.

Definition cn_membership (n : Node) : Membership := rp_membership (cn_replicator n).

Definition set_membership (n : Node) (ms : Membership) : Node :=
  let r := cn_replicator n in
  mkNode (cn_cfg n) (cn_self n) (cn_election n)
    (mkReplicator (rp_self r) ms (rp_partitions r) (rp_isr r) (rp_followerOffsets r) (rp_lastFetch r) (rp_prevRole r))
    (cn_raftNode n) (cn_partMap n) (cn_topics n) (cn_notify n).

Definition set_partMap (n : Node) (pm : PartitionMap) : Node :=
  mkNode (cn_cfg n) (cn_self n) (cn_election n) (cn_replicator n) (cn_raftNode n) pm (cn_topics n) (cn_notify n).

Definition set_election (n : Node) (e : Election) : Node :=
  mkNode (cn_cfg n) (cn_self n) e (cn_replicator n) (cn_raftNode n) (cn_partMap n) (cn_topics n) (cn_notify n).

Definition set_replicator (n : Node) (r : Replicator L) : Node :=
  mkNode (cn_cfg n) (cn_self n) (cn_election n) r (cn_raftNode n) (cn_partMap n) (cn_topics n) (cn_notify n).

Definition set_raftNode (n : Node) (r : option Raft.Node) : Node :=
  mkNode (cn_cfg n) (cn_self n) (cn_election n) (cn_replicator n) r (cn_partMap n) (cn_topics n) (cn_notify n).

Definition SetTopicProvider (n : Node) (topics : option (list TopicInfo)) : Node :=
  mkNode (cn_cfg n) (cn_self n) (cn_election n) (cn_replicator n) (cn_raftNode n) (cn_partMap n) topics (cn_notify n).

Definition SetPartitionChangeCallback (n : Node) (b : bool) : Node :=
  mkNode (cn_cfg n) (cn_self n) (cn_election n) (cn_replicator n) (cn_raftNode n) (cn_partMap n) (cn_topics n) b.

(** What an operation does besides changing the node: send, call the
    partition-change callback, start the goroutine of the leader callback, put
    a message in the inbox of the election or of Raft. *)
Inductive node_effect :=
| NSend (addr : string) (msg : ClusterMsg)
| NPartitionsChanged (pm : PartitionMap)
| NLeaderCallback
| NToElection (msg : ClusterMsg)
| NToRaft (msg : RaftMessage).

(** ** Construction *)

(** [listen] is the address the transport's listener got, [None] when it
    failed; [saves] and [store] describe the Raft state file.  The peers are
    taken from the membership as it is here. *)
Definition NewNode (cfg : ClusterConfig) (now : Z) (listen : option string) (saves : bool)
    (store : PersistentState) : result Node node_err :=
  if bool_decide (cc_NodeID cfg = EmptyString) then Error NodeIDRequired
  else if bool_decide (cc_BindAddr cfg = EmptyString) then Error BindAddrRequired
  else
    match listen with
    | None => Error TransportFailed
    | Some addr =>
        let self := mkMember (cc_NodeID cfg) addr EmptyString now in
        let membership := NewMembership self in
        let peerIDs := merge_sort String.le
          (filter (λ id, id ≠ mb_NodeID self) (mb_NodeID <$> Membership_All membership)) in
        Ok (mkNode cfg self (NewElection self) (NewReplicator self membership)
              (if bool_decide (cc_ConsensusAlgorithm cfg = "raft")
               then Some (Raft.NewNode (mb_NodeID self) peerIDs ∅ saves store) else None)
              (mkPartitionMap ∅) None false)
    end.

(** ** Queries *)

Definition Node_IsLeader (n : Node) : bool :=
  match cn_raftNode n with
  | Some r => Raft.Node_IsLeader r
  | None => bool_decide (Election_Role (cn_election n) = RoleLeader)
  end.

Definition Node_Leader (n : Node) : option Member :=
  match cn_raftNode n with
  | Some r => let '(id, ok) := Node_LeaderID r in if ok then Membership_Get (cn_membership n) id else None
  | None => Election_Leader (cn_election n)
  end.

Definition Node_Members (n : Node) : list Member := Membership_All (cn_membership n).

Definition SelfID (n : Node) : string := mb_NodeID (cn_self n).

Definition OwnerOf (n : Node) (topic : string) (partition : Z) : string :=
  PartitionMap_Owner (cn_partMap n) topic partition.

Definition OwnsPartition (n : Node) (topic : string) (partition : Z) : bool :=
  let owner := OwnerOf n topic partition in
  bool_decide (owner = EmptyString) || bool_decide (owner = SelfID n).

(** ** Partition assignment *)

(** The members a message of the node goes to. *)
Definition send_others (n : Node) (skip : string → bool) (ms : list Member) (msg : ClusterMsg) : list node_effect :=
  (λ m, NSend (mb_Addr m) msg) <$> filter (λ m, mb_NodeID m ≠ SelfID n ∧ skip (mb_NodeID m) = false) ms.

Definition metaSync_msg (n : Node) (kind : string) (data : json) : ClusterMsg :=
  mkClusterMsg MsgMetaSync (SelfID n) 0 (metaSyncPayload_marshal (mkMetaSyncPayload kind (Some data))).

Definition broadcastPartitionMap (n : Node) (pm : PartitionMap) : list node_effect :=
  send_others n (λ _, false) (Node_Members n) (metaSync_msg n metaSyncPartitions (JObj (PartitionMap_fields pm))).

Definition AssignPartitions (n : Node) (topic : string) (partitions : Z) : Node * list node_effect :=
  let pm := PartitionMap_Assign (cn_partMap n) topic partitions (node_ids (cn_membership n)) in
  (set_partMap n pm, broadcastPartitionMap n pm).

Definition assign_all (nodes : list string) (pm : PartitionMap) (topics : list TopicInfo) : PartitionMap :=
  foldl (λ pm t, PartitionMap_Assign pm (ti_Name t) (ti_Partitions t) nodes) pm topics.

Definition ReassignAll (n : Node) : Node * list node_effect :=
  match cn_topics n with
  | None => (n, [])
  | Some topics =>
      let pm := assign_all (node_ids (cn_membership n)) (cn_partMap n) topics in
      (set_partMap n pm, broadcastPartitionMap n pm)
  end.

Definition onBecomeLeader (n : Node) : Node * list node_effect := ReassignAll n.

Definition Node_RegisterPartition (n : Node) (topic : string) (partition : Z) (pl : L) : Node :=
  set_replicator n (RegisterPartition (cn_replicator n) topic partition pl).

(** ** Handlers *)

Definition handleJoin (n : Node) (msg : ClusterMsg) : Node * list node_effect :=
  match json_Unmarshal (A := Member) (cm_Body msg) with
  | None => (n, [])
  | Some joiner =>
      let n := set_membership n (Membership_Add (cn_membership n) joiner) in
      let members := Node_Members n in
      match json_Marshal members with
      | None => (n, [])
      | Some ackBody =>
          let ack := NSend (mb_Addr joiner) (mkClusterMsg MsgJoinAck (SelfID n) 0 ackBody) in
          match Member_object joiner with
          | None => (n, [ack])
          | Some joinerData =>
              let syncs := send_others n (λ id, bool_decide (id = mb_NodeID joiner)) members
                             (metaSync_msg n metaSyncMember joinerData) in
              if Node_IsLeader n then let '(n, out) := ReassignAll n in (n, ack :: syncs ++ out)
              else (n, ack :: syncs)
          end
      end
  end.

Definition handleJoinAck (n : Node) (msg : ClusterMsg) : Node :=
  match json_Unmarshal (A := list Member) (cm_Body msg) with
  | None => n
  | Some members => set_membership n (foldl Membership_Add (cn_membership n) members)
  end.

Definition handleLeave (n : Node) (msg : ClusterMsg) : Node * list node_effect :=
  let n := set_membership n (Membership_Remove (cn_membership n) (cm_From msg)) in
  if Node_IsLeader n then ReassignAll n else (n, []).

Definition handleMetaSync (n : Node) (msg : ClusterMsg) : Node * list node_effect :=
  match unmarshal_with metaSyncPayload_of (cm_Body msg) with
  | None => (n, [])
  | Some payload =>
      if bool_decide (msp_Kind payload = metaSyncMember) then
        match raw_unmarshal Member_of (msp_Data payload) with
        | None => (n, [])
        | Some m => (set_membership n (Membership_Add (cn_membership n) m), [])
        end
      else if bool_decide (msp_Kind payload = metaSyncPartitions) then
        match raw_unmarshal PartitionMap_of (msp_Data payload) with
        | None => (n, [])
        | Some pm => (set_partMap n pm, if cn_notify n then [NPartitionsChanged pm] else [])
        end
      else (n, [])
  end.

(** ** The dispatch loop

    [None] is the panic of the replicator on a null message. *)

Definition is_raft_type (ty : Z) : bool :=
  (ty =? MsgRaftRequestVote) || (ty =? MsgRaftVoteResponse) || (ty =? MsgRaftAppendEntries) ||
  (ty =? MsgRaftAppendResponse).

Definition is_election_type (ty : Z) : bool :=
  (ty =? MsgHeartbeat) || (ty =? MsgVoteRequest) || (ty =? MsgVoteGrant) || (ty =? MsgVoteDeny).

Definition dispatch (rio : ReadIO) (now : Z) (io : nat → AppendIO) (n : Node) (msg : ClusterMsg) :
    option (Node * list node_effect) :=
  let ty := cm_Type msg in
  if is_election_type ty then
    Some (n, match cn_raftNode n with None => [NToElection msg] | Some _ => [] end)
  else if is_raft_type ty then
    Some (n, match cn_raftNode n with
             | Some _ => [NToRaft (mkRaftMessage ty (cm_From msg) (cm_Term msg) (cm_Body msg))]
             | None => []
             end)
  else if ty =? MsgJoin then Some (handleJoin n msg)
  else if ty =? MsgJoinAck then Some (handleJoinAck n msg, [])
  else if ty =? MsgLeave then Some (handleLeave n msg)
  else if ty =? MsgMetaSync then Some (handleMetaSync n msg)
  else if (ty =? MsgReplicaFetch) || (ty =? MsgReplicaData) || (ty =? MsgReplicaAck) then
    match Replicator_OnMessage rio now io (cn_replicator n) msg with
    | None => None
    | Some (r, out, _) => Some (set_replicator n r, (λ am, NSend am.1 am.2) <$> out)
    end
  else Some (n, []).

(** ** Start and stop *)

(** [loaded] is what the Raft store's [Load] returns. *)
Definition Node_Start (loaded : option PersistentState) (n : Node) : Node * list node_effect * result unit node_err :=
  match json_Marshal (cn_self n) with
  | None => (n, [], Error MarshalSelf)
  | Some selfBody =>
      let joins := (λ seed, NSend seed (mkClusterMsg MsgJoin (SelfID n) 0 selfBody)) <$>
        filter (λ seed, seed ≠ mb_Addr (cn_self n)) (cc_Seeds (cn_cfg n)) in
      let '(e, effs) :=
        if Membership_Len (cn_membership n) <=? 1 then ForceBecomeLeader (cn_membership n) (cn_election n)
        else (cn_election n, []) in
      let n := set_election n e in
      let n := set_raftNode n ((λ r, Raft.Node_Start r loaded) <$> cn_raftNode n) in
      (n, joins ++ omap (λ eff, match eff with
                                | FireLeaderCallback => Some NLeaderCallback
                                | Send a m => Some (NSend a m)
                                end) effs, Ok tt)
  end.

Definition Node_Stop (n : Node) : list node_effect :=
  send_others n (λ _, false) (Node_Members n) (mkClusterMsg MsgLeave (SelfID n) 0 []).
End ClusterNode.
Arguments Node : clear implicits.

(** ** Facts: the partition map *)

(** Topics with distinct names, each with partitions that [int32] can number. *)
Definition topics_ok (topics : list TopicInfo) : Prop :=
  NoDup (ti_Name <$> topics) ∧
  Forall (λ t, str_valid (ti_Name t) = true ∧ 0 < ti_Partitions t <= 2 ^ 31) topics.

Lemma assign_all_cons nodes pm t topics :
  assign_all nodes pm (t :: topics) =
    assign_all nodes (PartitionMap_Assign pm (ti_Name t) (ti_Partitions t) nodes) topics.
Proof. done. Qed.

Lemma assign_all_notin nodes topics t : ∀ pm,
  t ∉ ti_Name <$> topics → pm_owner (assign_all nodes pm topics) !! t = pm_owner pm !! t.
Proof.
  induction topics as [|x topics IH]; intros pm Hnot; [done|]. rewrite fmap_cons in Hnot.
  apply not_elem_of_cons in Hnot as [Hne Hnot]. rewrite assign_all_cons, IH by done. unfold PartitionMap_Assign. case_match; [done|]. cbn [pm_owner].
  by rewrite lookup_insert_ne.
Qed.

(** What the loop leaves for a topic is what the one call for it leaves. *)
Lemma assign_all_topic nodes topics t : ∀ pm,
  nodes ≠ [] → topics_ok topics → t ∈ topics →
  pm_owner (assign_all nodes pm topics) !! ti_Name t =
    pm_owner (PartitionMap_Assign pm (ti_Name t) (ti_Partitions t) nodes) !! ti_Name t.
Proof.
  induction topics as [|x topics IH]; intros pm Hne [Hnd Hall] Hin; [by apply not_elem_of_nil in Hin|].
  rewrite fmap_cons in Hnd. apply NoDup_cons in Hnd as [Hx Hnd]. apply Forall_cons in Hall as [Hxo Hall].
  rewrite assign_all_cons. apply elem_of_cons in Hin as [->|Hin].
  - by rewrite (assign_all_notin nodes topics).
  - rewrite IH by (try done; by split).
    unfold PartitionMap_Assign at 1 3. apply list_elem_of_fmap_2 with (f := ti_Name) in Hin as Hname.
    rewrite Forall_forall in Hall. destruct (Hall t Hin) as [_ Hn].
    rewrite bool_decide_eq_false_2 by done. rewrite (proj2 (Z.leb_gt _ 0)) by lia. cbn [orb pm_owner].
    by rewrite !lookup_insert_eq.
Qed.

Lemma Assign_wf pm topic n nodes :
  PartitionMap_wf pm → str_valid topic = true → Forall (λ id, str_valid id = true) nodes → n <= 2 ^ 31 →
  PartitionMap_wf (PartitionMap_Assign pm topic n nodes).
Proof.
  intros Hwf Ht Hnodes Hn. unfold PartitionMap_Assign. destruct (bool_decide_reflect (nodes = [])); [done|].
  destruct (Z.leb_spec n 0); [done|]. cbn [orb]. unfold PartitionMap_wf. cbn [pm_owner].
  apply map_Forall_insert_2; [|done]. split; [done|]. rewrite Forall_forall in Hnodes.
  split; intros p x Hp; rewrite assign_fold_lookup in Hp by (done || lia); case_decide; try done.
  - unfold is_i32. lia.
  - destruct (round_robin_some nodes p) as (y & Hy & Hin); [done|]. rewrite Hy in Hp.
    injection Hp as <-. by apply Hnodes.
Qed.

Lemma assign_all_wf nodes topics : ∀ pm,
  PartitionMap_wf pm → Forall (λ id, str_valid id = true) nodes → topics_ok topics →
  PartitionMap_wf (assign_all nodes pm topics).
Proof.
  induction topics as [|t topics IH]; intros pm Hwf Hnodes [Hnd Hall]; [done|].
  rewrite fmap_cons in Hnd. apply NoDup_cons in Hnd as [_ Hnd]. apply Forall_cons in Hall as [[Ht Hn] Hall].
  apply IH; [|done|by split]. apply Assign_wf; [done..|lia].
Qed.

(** ** Facts: the payload *)

Lemma metaSync_unmarshal kind data :
  str_valid kind = true → json_valid data = true →
  unmarshal_with metaSyncPayload_of (metaSyncPayload_marshal (mkMetaSyncPayload kind (Some data))) =
    Some (mkMetaSyncPayload kind (Some data)).
Proof.
  intros Hk Hd. unfold metaSyncPayload_marshal. rewrite unmarshal_with_print.
  - unfold metaSyncPayload_of, metaSyncPayload_fields. cbn [msp_Kind msp_Data default].
    rewrite (get_str_eq "kind" _ kind false) by wire_solve. done.
  - unfold metaSyncPayload_fields. cbn [msp_Kind msp_Data default from_option id].
    rewrite !members_valid_put, Hd.
    unfold jstr. cbn [json_valid]. unfold str_valid in Hk. by rewrite Hk.
Qed.

(** ** Facts: the handlers *)

Section Facts.
Context {L : Type} `{LogStore L}.

Lemma ids_elem (n : Node L) id : id ∈ node_ids (cn_membership n) ↔ id ∈ mb_NodeID <$> Node_Members n.
Proof. unfold node_ids, Node_Members. by rewrite merge_sort_Permutation. Qed.

(** A partition map that arrives replaces the node's own. *)
Lemma dispatch_partitions rio now io (n f : Node L) pm :
  PartitionMap_wf pm →
  dispatch rio now io f (metaSync_msg n metaSyncPartitions (JObj (PartitionMap_fields pm))) =
    Some (set_partMap f pm, if cn_notify f then [NPartitionsChanged pm] else []).
Proof.
  intros Hwf. unfold dispatch. change (cm_Type (metaSync_msg _ _ _)) with MsgMetaSync. cbv zeta. change (is_election_type MsgMetaSync) with false.
  change (is_raft_type MsgMetaSync) with false. change (MsgMetaSync =? MsgJoin) with false.
  change (MsgMetaSync =? MsgJoinAck) with false. change (MsgMetaSync =? MsgLeave) with false.
  rewrite Z.eqb_refl. cbv iota. unfold handleMetaSync, metaSync_msg. cbn [cm_Body].
  rewrite metaSync_unmarshal by (try done; by apply PartitionMap_fields_valid).
  cbn [msp_Kind msp_Data]. rewrite bool_decide_eq_false_2, bool_decide_eq_true_2 by done.
  cbn [raw_unmarshal]. by rewrite PartitionMap_of_fields.
Qed.

(** Who owns a partition under a map. *)
Lemma OwnsPartition_iff (f : Node L) topic p id :
  PartitionMap_Owner (cn_partMap f) topic p = id → id ≠ EmptyString →
  OwnsPartition f topic p = bool_decide (SelfID f = id).
Proof.
  intros Ho Hne. unfold OwnsPartition, OwnerOf. rewrite Ho, bool_decide_eq_false_2 by done. cbn [orb].
  apply bool_decide_ext. naive_solver.
Qed.

(** Every operation keeps the members under their own ids. *)
Lemma dispatch_membership_ok rio now io (n n' : Node L) msg out :
  membership_ok (cn_membership n) → dispatch rio now io n msg = Some (n', out) → membership_ok (cn_membership n').
Proof.
  intros Hok Hd.
  assert (∀ m : Node L, membership_ok (cn_membership m) → membership_ok (cn_membership (ReassignAll m).1)) as Hre.
  { intros m Hm. unfold ReassignAll. by destruct (cn_topics m). }
  unfold dispatch in Hd.
  destruct (is_election_type _); [by injection Hd as <- _|]. destruct (is_raft_type _); [by injection Hd as <- _|].
  destruct (_ =? MsgJoin).
  { injection Hd as Hd. unfold handleJoin in Hd. destruct (json_Unmarshal _) as [j|]; [|by injection Hd as <- _].
    set (n1 := set_membership n _) in Hd.
    assert (membership_ok (cn_membership n1)) as Hn1 by by apply Membership_Add_ok.
    destruct (json_Marshal _); [|by injection Hd as <- _]. destruct (Member_object j); [|by injection Hd as <- _].
    destruct (Node_IsLeader n1); [|by injection Hd as <- _].
    specialize (Hre n1 Hn1). destruct (ReassignAll n1). by injection Hd as <- _. }
  destruct (_ =? MsgJoinAck).
  { injection Hd as <- _. unfold handleJoinAck. destruct (json_Unmarshal _) as [l|]; [|done].
    cbn [cn_membership set_membership cn_replicator rp_membership].
    revert Hok. generalize (cn_membership n). induction l as [|m l IH]; intros ms Hms; [done|].
    cbn [foldl]. apply IH. by apply Membership_Add_ok. }
  destruct (_ =? MsgLeave).
  { injection Hd as Hd. unfold handleLeave in Hd. set (n1 := set_membership n _) in Hd.
    assert (membership_ok (cn_membership n1)) as Hn1 by by apply Membership_Remove_ok.
    specialize (Hre n1 Hn1). destruct (Node_IsLeader n1); [|by injection Hd as <- _].
    by destruct (ReassignAll n1); injection Hd as <- _. }
  destruct (_ =? MsgMetaSync).
  { injection Hd as Hd. unfold handleMetaSync in Hd. destruct (unmarshal_with _ _) as [p|]; [|by injection Hd as <- _].
    case_bool_decide.
    - destruct (raw_unmarshal Member_of _); injection Hd as <- _; [by apply Membership_Add_ok|done].
    - case_bool_decide; [|by injection Hd as <- _].
      by destruct (raw_unmarshal PartitionMap_of _); injection Hd as <- _. }
  destruct (_ || _); [|by injection Hd as <- _].
  destruct (Replicator_OnMessage rio now io (cn_replicator n) msg) as [[[r o] e]|] eqn:Hr; [|done].
  injection Hd as <- _. change (membership_ok (rp_membership r)).
  by rewrite (OnMessage_membership _ _ _ _ _ _ _ _ Hr).
Qed.

(** What a join leaves with the node that took it, and what it sends. *)
Lemma handleJoin_spec (n : Node L) msg joiner :
  membership_ok (cn_membership n) → map_Forall (λ _ m, Member_wf m) (ms_members (cn_membership n)) →
  Member_wf joiner → json_Unmarshal (cm_Body msg) = Some joiner →
  let n1 := set_membership n (Membership_Add (cn_membership n) joiner) in
  ∃ ackBody joinerData, json_Marshal (Node_Members n1) = Some ackBody ∧ Member_object joiner = Some joinerData ∧
    cn_membership (handleJoin n msg).1 = cn_membership n1 ∧
    NSend (mb_Addr joiner) (mkClusterMsg MsgJoinAck (SelfID n) 0 ackBody) ∈ (handleJoin n msg).2 ∧
    ∀ m, m ∈ Node_Members n1 → mb_NodeID m ≠ SelfID n → mb_NodeID m ≠ mb_NodeID joiner →
      NSend (mb_Addr m) (metaSync_msg n1 metaSyncMember joinerData) ∈ (handleJoin n msg).2.
Proof.
  intros Hok Hwf Hj Hu n1. assert (membership_ok (cn_membership n1)) as Hok1 by by apply Membership_Add_ok.
  assert (Forall Member_wf (Node_Members n1)) as Hall.
  { apply Forall_forall. intros m Hm%Membership_All_elem; [|done].
    assert (map_Forall (λ _ m, Member_wf m) (ms_members (cn_membership n1))) as H1 by by apply map_Forall_insert_2.
    by apply (H1 _ _ Hm). }
  assert (json_wf (Node_Members n1)) as Hjw by exact Hall.
  destruct (json_roundtrip _ Hjw) as (ackBody & Hb & _).
  assert (∃ d, Member_object joiner = Some d) as [d Hd].
  { unfold Member_object. rewrite (proj2 (proj2 (proj2 Hj))). by eexists. }
  exists ackBody, d. split; [done|]. split; [done|]. unfold handleJoin. rewrite Hu. fold n1. rewrite Hb, Hd.
  set (ack := NSend (mb_Addr joiner) _). set (syncs := send_others _ _ _ _).
  assert (∀ m, m ∈ Node_Members n1 → mb_NodeID m ≠ SelfID n → mb_NodeID m ≠ mb_NodeID joiner →
    NSend (mb_Addr m) (metaSync_msg n1 metaSyncMember d) ∈ syncs) as Hs.
  { intros m Hm Hs Hnj. apply list_elem_of_fmap_2' with m; [|done]. apply list_elem_of_filter.
    split; [|done]. split; [done|]. by apply bool_decide_eq_false_2. }
  destruct (Node_IsLeader n1).
  - destruct (ReassignAll n1) as [n2 out] eqn:Hr. cbn [fst snd].
    assert (n2 = n1 ∨ ∃ pm, n2 = set_partMap n1 pm) as Hn2.
    { unfold ReassignAll in Hr. destruct (cn_topics n1); injection Hr as <- _; [right; by eexists|by left]. }
    split; [by destruct Hn2 as [->|[pm ->]]|]. split; [by left|].
    intros m Hm H1 H2. right. apply elem_of_app. left. by apply Hs.
  - split; [done|]. split; [by left|]. intros m Hm H1 H2. right. by apply Hs.
Qed.

Lemma Add_all_get (l : list Member) ms m :
  NoDup (mb_NodeID <$> l) → m ∈ l →
  Membership_Get (foldl Membership_Add ms l) (mb_NodeID m) = Some m.
Proof.
  revert ms. induction l as [|x l IH]; intros ms Hnd Hin; [by apply not_elem_of_nil in Hin|].
  rewrite fmap_cons in Hnd. apply NoDup_cons in Hnd as [Hx Hnd]. cbn [foldl].
  apply elem_of_cons in Hin as [->|Hin]; [|by apply IH].
  assert (Membership_Get (Membership_Add ms x) (mb_NodeID x) = Some x) as Hg by apply lookup_insert_eq.
  revert Hg. generalize (Membership_Add ms x). clear IH Hnd. induction l as [|y l IH]; intros ms' Hg; [done|].
  rewrite fmap_cons in Hx. apply not_elem_of_cons in Hx as [Hne Hx]. cbn [foldl]. apply IH; [done|].
  unfold Membership_Get, Membership_Add. cbn [ms_members]. by rewrite lookup_insert_ne.
Qed.

Lemma members_nodup (ms : Membership) : membership_ok ms → NoDup (mb_NodeID <$> Membership_All ms).
Proof.
  intros Hok. pose proof (node_ids_nodup ms Hok) as Hnd. unfold node_ids in Hnd.
  by rewrite merge_sort_Permutation in Hnd.
Qed.

(** What the join's messages do where they arrive. *)
Lemma dispatch_ack rio now io (f : Node L) from body members :
  json_Unmarshal body = Some members →
  dispatch rio now io f (mkClusterMsg MsgJoinAck from 0 body) =
    Some (set_membership f (foldl Membership_Add (cn_membership f) members), []).
Proof. intros Hu. unfold dispatch. cbn. unfold handleJoinAck. cbn [cm_Body]. by rewrite Hu. Qed.

Lemma dispatch_member rio now io (n f : Node L) m d :
  Member_wf m → Member_object m = Some d →
  dispatch rio now io f (metaSync_msg n metaSyncMember d) =
    Some (set_membership f (Membership_Add (cn_membership f) m), []).
Proof.
  intros Hwf Hd. unfold Member_object in Hd. rewrite (proj2 (proj2 (proj2 Hwf))) in Hd. injection Hd as <-.
  unfold dispatch. change (cm_Type (metaSync_msg _ _ _)) with MsgMetaSync. cbv zeta.
  change (is_election_type MsgMetaSync) with false. change (is_raft_type MsgMetaSync) with false.
  change (MsgMetaSync =? MsgJoin) with false. change (MsgMetaSync =? MsgJoinAck) with false.
  change (MsgMetaSync =? MsgLeave) with false. rewrite Z.eqb_refl. cbv iota.
  unfold handleMetaSync, metaSync_msg. cbn [cm_Body].
  rewrite metaSync_unmarshal by (try done; by apply Member_valid). cbn [msp_Kind msp_Data].
  rewrite bool_decide_eq_true_2 by done. cbn [raw_unmarshal]. by rewrite Member_of_fields.
Qed.
End Facts.

(** ** Properties *)

(** C8: After the leader reassigns the topics of its provider, the map it
    broadcasts replaces the map of every member that takes it, and under that
    map every partition of every topic has one owner, a member: a node owns it,
    by its own test, exactly when it is that member. Of each topic by itself,
    with [k] partitions, each member owns between [k/n] rounded down and [k/n]
    rounded up, [n] the number of members; the topics are not balanced against
    each other ([first_partitions_pile_up]). For members with valid, non-empty
    ids and topics with distinct valid names and 1 to 2^31 partitions. *)
Theorem partition_ownership_agrees {L} `{LogStore L} (n : Node L) topics :
  membership_ok (cn_membership n) → PartitionMap_wf (cn_partMap n) →
  Forall (λ m, str_valid (mb_NodeID m) = true ∧ mb_NodeID m ≠ EmptyString) (Node_Members n) →
  cn_topics n = Some topics → topics_ok topics →
  let n' := (ReassignAll n).1 in
  let size := zlen (Node_Members n) in
  (∀ m, m ∈ Node_Members n → mb_NodeID m ≠ SelfID n →
     ∃ msg, NSend (mb_Addr m) msg ∈ (ReassignAll n).2 ∧
       ∀ (f : Node L) rio now io, ∃ effs, dispatch rio now io f msg = Some (set_partMap f (cn_partMap n'), effs)) ∧
  ∀ t, t ∈ topics →
    (∀ p, 0 <= p < ti_Partitions t → ∃ m, m ∈ Node_Members n ∧
       ∀ f : Node L, cn_partMap f = cn_partMap n' →
         OwnsPartition f (ti_Name t) p = bool_decide (SelfID f = mb_NodeID m)) ∧
    ∀ m, m ∈ Node_Members n →
      ti_Partitions t / size <=
        zlen (default [] (PartitionMap_OwnedBy (cn_partMap n') (mb_NodeID m) !! ti_Name t)) <=
        (ti_Partitions t + size - 1) / size.
Proof.
  intros Hok Hwf Hids Htop Hts. unfold ReassignAll. rewrite Htop. cbn zeta. cbn [fst snd cn_partMap set_partMap].
  set (ids := node_ids (cn_membership n)). set (pm := assign_all ids (cn_partMap n) topics).
  assert (ids ≠ []) as Hne by by apply node_ids_nonempty.
  assert (∀ id, id ∈ ids → str_valid id = true ∧ id ≠ EmptyString) as Hid.
  { intros id Hin. apply ids_elem, list_elem_of_fmap in Hin as (m & -> & Hm).
    rewrite Forall_forall in Hids. by apply Hids. }
  assert (PartitionMap_wf pm) as Hpm.
  { apply assign_all_wf; [done| |done]. apply Forall_forall. intros id Hin. by apply Hid. }
  split.
  - intros m Hm Hne'. exists (metaSync_msg n metaSyncPartitions (JObj (PartitionMap_fields pm))). split.
    + apply list_elem_of_fmap_2' with m; [|done]. by apply list_elem_of_filter.
    + intros f rio now io. eexists. by apply dispatch_partitions.
  - intros t Ht. pose proof Hts as [_ Hall]. rewrite Forall_forall in Hall. destruct (Hall t Ht) as [_ Hn].
    pose proof (assign_all_topic ids topics t (cn_partMap n) Hne Hts Ht) as Hsame. fold pm in Hsame. split.
    + intros p Hp. destruct (round_robin_some ids p Hne) as (id & Hrr & Hin).
      pose proof Hin as (m & -> & Hm)%ids_elem%list_elem_of_fmap. exists m. split; [done|].
      intros f Hf. apply OwnsPartition_iff; [|by apply Hid]. rewrite Hf.
      pose proof (Assign_owner (cn_partMap n) (ti_Name t) (ti_Partitions t) ids (ti_Name t) p Hne Hn) as Ho.
      unfold PartitionMap_Owner in *. rewrite Hsame, Ho, bool_decide_eq_true_2, decide_True, Hrr by done. done.
    + intros m Hm.
      pose proof (OwnedBy_Assign (cn_partMap n) (ti_Name t) (ti_Partitions t) ids (mb_NodeID m) Hne Hn) as Ho.
      unfold PartitionMap_OwnedBy in *. rewrite lookup_omap, Hsame, <- lookup_omap, Ho.
      assert (zlen (Node_Members n) = zlen ids) as ->.
      { unfold ids, node_ids, zlen. by rewrite merge_sort_Permutation, length_fmap. }
      apply round_robin_count; [by apply node_ids_nodup| |lia]. apply ids_elem. by apply list_elem_of_fmap_2.
Qed.

(** The assignment of every topic begins at the same node: partition 0 of all
    of them is the first node's, so that topics of one partition all go to one
    node, however many nodes and topics there are. *)
Lemma first_partitions_pile_up nodes pm topics t :
  nodes ≠ [] → topics_ok topics → t ∈ topics →
  head nodes = Some (PartitionMap_Owner (assign_all nodes pm topics) (ti_Name t) 0).
Proof.
  intros Hne Hts Ht. pose proof (assign_all_topic nodes topics t pm Hne Hts Ht) as Hsame.
  destruct Hts as [_ Hall]. rewrite Forall_forall in Hall. destruct (Hall t Ht) as [_ Hn].
  pose proof (Assign_owner pm (ti_Name t) (ti_Partitions t) nodes (ti_Name t) 0 Hne Hn) as Ho.
  unfold PartitionMap_Owner in *. rewrite Hsame, Ho, bool_decide_eq_true_2, decide_True by (done || lia).
  by destruct nodes.
Qed.

(** The join handshake: the node that takes a join knows the joiner
    afterwards; its acknowledgement, wherever it is taken, brings in every
    member the node knows, and each other member is sent a message that makes
    it know the joiner under the address it joined with. *)
Theorem join_reaches_members {L} `{LogStore L} (n : Node L) msg joiner :
  membership_ok (cn_membership n) → map_Forall (λ _ m, Member_wf m) (ms_members (cn_membership n)) →
  Member_wf joiner → json_Unmarshal (cm_Body msg) = Some joiner →
  let n' := (handleJoin n msg).1 in
  let out := (handleJoin n msg).2 in
  Membership_Get (cn_membership n') (mb_NodeID joiner) = Some joiner ∧
  (∃ ack, NSend (mb_Addr joiner) ack ∈ out ∧
     ∀ (f : Node L) rio now io, ∃ f', dispatch rio now io f ack = Some (f', []) ∧
       ∀ m, m ∈ Node_Members n' → Membership_Get (cn_membership f') (mb_NodeID m) = Some m) ∧
  ∀ m, m ∈ Node_Members n' → mb_NodeID m ≠ SelfID n → mb_NodeID m ≠ mb_NodeID joiner →
    ∃ sync, NSend (mb_Addr m) sync ∈ out ∧
      ∀ (f : Node L) rio now io, ∃ f', dispatch rio now io f sync = Some (f', []) ∧
        Membership_Get (cn_membership f') (mb_NodeID joiner) = Some joiner.
Proof.
  intros Hok Hwf Hj Hu n' out. destruct (handleJoin_spec n msg joiner Hok Hwf Hj Hu) as
    (ackBody & d & Hb & Hd & Hm & Hack & Hsync). set (n1 := set_membership n _) in *.
  fold n' in Hm. fold out in Hack, Hsync.
  assert (membership_ok (cn_membership n1)) as Hok1 by by apply Membership_Add_ok.
  assert (Node_Members n' = Node_Members n1) as Hmem by (unfold Node_Members; by rewrite Hm).
  split; [rewrite Hm; apply lookup_insert_eq|]. rewrite Hmem. split.
  - eexists. split; [exact Hack|]. intros f rio now io.
    assert (Forall Member_wf (Node_Members n1)) as Hall.
    { apply Forall_forall. intros m Hin%Membership_All_elem; [|done].
      assert (map_Forall (λ _ m, Member_wf m) (ms_members (cn_membership n1))) as H1 by by apply map_Forall_insert_2.
      by apply (H1 _ _ Hin). }
    assert (json_wf (Node_Members n1)) as Hjw by exact Hall.
    destruct (json_roundtrip _ Hjw) as (b & Hb' & Hub). rewrite Hb in Hb'. injection Hb' as <-.
    eexists. split; [by apply dispatch_ack|]. intros m Hin. by apply Add_all_get; [apply members_nodup|].
  - intros m Hin Hs Hnj. eexists. split; [by apply Hsync|]. intros f rio now io.
    eexists. split; [by apply dispatch_member|]. apply lookup_insert_eq.
Qed.

(** ** Concrete nodes *)

Definition cfg_of (id addr consensus : string) : ClusterConfig :=
  mkClusterConfig id addr [] 0 0 0 consensus.

(** A node without Raft, as [NewNode] leaves it, with its join time zero. *)
Definition fresh_node (id addr : string) : Node (list Message) :=
  let self := mkMember id addr "" 0 in
  mkNode (cfg_of id addr "bully") self (NewElection self) (NewReplicator self (NewMembership self)) None
    (mkPartitionMap ∅) None false.

Lemma fresh_node_new id addr store :
  id ≠ EmptyString → addr ≠ EmptyString →
  NewNode (L := list Message) (cfg_of id addr "bully") 0 (Some addr) true store = Ok (fresh_node id addr).
Proof.
  intros Hi Ha. unfold NewNode. cbn [cfg_of cc_NodeID cc_BindAddr].
  by rewrite !bool_decide_eq_false_2 by done.
Qed.

Definition node_b : Member := mkMember "b" "h:2" "" 0.
Definition lead_node : Node (list Message) :=
  SetTopicProvider (set_membership (fresh_node "a" "h:1")
    (Membership_Add (NewMembership (mkMember "a" "h:1" "" 0)) node_b)) (Some [mkTopicInfo "orders" 3]).

Lemma lead_members : Node_Members lead_node = [mkMember "a" "h:1" "" 0; node_b].
Proof. by vm_compute. Qed.

Lemma lead_ok : membership_ok (cn_membership lead_node).
Proof. apply Membership_Add_ok, NewMembership_ok. Qed.

Lemma partition_ownership_agrees_witness :
  (∃ m, m ∈ Node_Members lead_node ∧
     ∀ f : Node (list Message), cn_partMap f = cn_partMap (ReassignAll lead_node).1 →
       OwnsPartition f "orders" 2 = bool_decide (SelfID f = mb_NodeID m)) ∧
  1 <= zlen (default [] (PartitionMap_OwnedBy (cn_partMap (ReassignAll lead_node).1) "b" !! "orders")) <= 2.
Proof.
  assert (mkTopicInfo "orders" 3 ∈ [mkTopicInfo "orders" 3]) as Hin by by left.
  assert (node_b ∈ Node_Members lead_node) as Hb by (rewrite lead_members; right; by left).
  destruct (partition_ownership_agrees lead_node [mkTopicInfo "orders" 3]) as [_ Hown].
  - apply lead_ok.
  - by intros k a Ha.
  - rewrite lead_members. repeat constructor; done.
  - reflexivity.
  - split; [apply NoDup_singleton|]. repeat constructor; cbn; lia.
  - destruct (Hown _ Hin) as [Hone Hload]. split; [apply Hone; cbn; lia|].
    specialize (Hload node_b Hb). by rewrite lead_members in Hload.
Defined.

Definition join_msg : ClusterMsg :=
  mkClusterMsg MsgJoin "c" 0 (default [] (json_Marshal (mkMember "c" "h:3" "" 0))).

Lemma join_reaches_members_witness :
  Membership_Get (cn_membership (handleJoin lead_node join_msg).1) "c" = Some (mkMember "c" "h:3" "" 0).
Proof.
  apply (join_reaches_members lead_node join_msg (mkMember "c" "h:3" "" 0)).
  - apply lead_ok.
  - intros k m Hm. unfold lead_node in Hm. cbn in Hm.
    apply lookup_insert_Some in Hm as [[_ <-]|[_ [_ <-]%lookup_singleton_Some]]; by repeat split.
  - by repeat split.
  - by vm_compute.
Defined.

(** ** Where the cluster parts *)

Lemma alone_members self : Membership_All (NewMembership self) = [self].
Proof. unfold Membership_All, NewMembership. cbn [ms_members]. by rewrite map_to_list_singleton. Qed.

Lemma NewNode_raft {L} `{LogStore L} cfg now listen saves store (n : Node L) :
  cc_ConsensusAlgorithm cfg = "raft" → NewNode cfg now listen saves store = Ok n →
  cn_raftNode n = Some (Raft.NewNode (cc_NodeID cfg) [] ∅ saves store).
Proof.
  intros Hc Hn. unfold NewNode in Hn. case_bool_decide; [done|]. case_bool_decide; [done|].
  destruct listen as [addr|]; [|done]. injection Hn as <-. cbn [cn_raftNode].
  rewrite (bool_decide_eq_true_2 _ Hc), alone_members, fmap_cons. cbn [mb_NodeID].
  by rewrite filter_cons_False by naive_solver.
Qed.

(** With Raft configured the peers are the members known when the node is
    created - none - so every node starts as the leader of a cluster of one. *)
Lemma raft_node_leads_alone {L} `{LogStore L} cfg now listen saves store loaded (n n' : Node L) out :
  cc_ConsensusAlgorithm cfg = "raft" → NewNode cfg now listen saves store = Ok n →
  Node_Start loaded n = (n', out, Ok tt) → Node_IsLeader n' = true.
Proof.
  intros Hc Hn Hs. pose proof (NewNode_raft cfg now listen saves store n Hc Hn) as Hr.
  unfold Node_Start in Hs. destruct (json_Marshal _); [|done].
  destruct (if _ <=? 1 then _ else _) as [e effs]. injection Hs as <- _.
  unfold Node_IsLeader. cbn [set_raftNode cn_raftNode]. change (cn_raftNode (set_election n e)) with (cn_raftNode n).
  rewrite Hr. by destruct loaded.
Qed.

(** A leader that learns of a member from another node does not reassign. *)
Lemma member_sync_keeps_map {L} `{LogStore L} rio now io (n f f' : Node L) m d out :
  Member_wf m → Member_object m = Some d →
  dispatch rio now io f (metaSync_msg n metaSyncMember d) = Some (f', out) →
  cn_partMap f' = cn_partMap f ∧ out = [].
Proof.
  intros Hm Hd Hf. rewrite (dispatch_member _ _ _ n f m d Hm Hd) in Hf. by injection Hf as <- <-.
Qed.

(** A node that joins through a follower gets the members and no partition
    map: it takes itself for the owner of every partition, while the leader's
    map gives it none. *)
Lemma join_via_follower_owns_all {L} `{LogStore L} rio now io (f f' : Node L) from body out topic p :
  cn_partMap f = mkPartitionMap ∅ → dispatch rio now io f (mkClusterMsg MsgJoinAck from 0 body) = Some (f', out) →
  OwnsPartition f' topic p = true.
Proof.
  intros Hpm Hd. unfold dispatch in Hd. cbn in Hd. injection Hd as <- _. unfold handleJoinAck.
  destruct (json_Unmarshal _); unfold OwnsPartition, OwnerOf; cbn [set_membership cn_partMap]; by rewrite Hpm.
Qed.
