(* ===== verification/BrokerCluster.v ===== *)
(** * The broker in a cluster: [internal/broker/cluster.go] and its callers

    Ownership of partitions as the publish handler tests it, the trackers of
    in-sync replicas and the wait for a quorum, and what the broker does when
    a partition map arrives.  The tracker of a partition is one object that
    the broker, the log and the replicator point to; the replicator keeps it. *)

From S2P Require Import Prelude GoLib Json GoTime Types Segment Partition Topic.
From S2P Require Import WireJson Cluster Transport Bully Replicator ClusterNode.

Local Open Scope Z_scope.

Section BrokerCluster.
Context {L : Type} `{LogStore L}.

(** ** Ownership *)

Definition Broker_OwnsPartition (clusterNode : option (Node L)) (topicName : string) (partition : Z) : bool :=
  match clusterNode with
  | None => true
  | Some n =>
      let owner := OwnerOf n topicName partition in
      if bool_decide (owner = EmptyString) then true else bool_decide (owner = SelfID n)
  end.

Definition Broker_IsLeader (clusterNode : option (Node L)) : bool :=
  match clusterNode with
  | None => true
  | Some n => Node_IsLeader n
  end.

(** The check of [handlePublish]: the owner it names when it refuses.  [part]
    is the partition assigned, 0 when the assignment failed; [partitions] the
    count of the topic, [None] when there is no such topic. *)
Definition owner_check (clusterNode : option (Node L)) (partitions : option Z) (topicName : string) (part : Z) :
    option string :=
  match clusterNode, partitions with
  | Some n, Some k =>
      if (0 <? i32 k) && negb (Broker_OwnsPartition clusterNode topicName part)
      then Some (OwnerOf n topicName part) else None
  | _, _ => None
  end.

(** The assignment before the check, whose error is dropped. *)
Definition check_part (p : HashPartitioner) (topicName key : string) : HashPartitioner * Z :=
  match HashPartitioner_Assign p topicName key with
  | (p', Ok part) => (p', part)
  | (p', Error _) => (p', 0)
  end.

(** ** Trackers *)

Definition wirePartition (n : Node L) (topicName : string) (partition : Z) (pl : L) : Node L :=
  let n := set_replicator n (set_isr (cn_replicator n) (topicName, partition) (NewISRTracker 1000 10000)) in
  Node_RegisterPartition n topicName partition pl.

(** The loop over the partitions of a created topic; a partition without a
    log is passed over. *)
Definition wire_topic (n : Node L) (topicName : string) (logs : list (option L)) : Node L :=
  foldl (λ n pl, match pl.2 with
                 | Some l => wirePartition n topicName pl.1 l
                 | None => n
                 end) n (imap (λ p pl, (Z.of_nat p, pl)) logs).

Definition getISRTracker (n : Node L) (topicName : string) (partition : Z) : option ISRTracker :=
  rp_isr (cn_replicator n) !! (topicName, partition).

(** What [handleCreateTopic] does in a cluster after the topic is there. *)
Definition created_in_cluster (n : Node L) (topicName : string) (logs : list (option L)) : Node L * list node_effect :=
  let n := wire_topic n topicName logs in
  if Node_IsLeader n then ReassignAll n else (n, []).

(** ** The wait for a quorum

    [now], [order] belong to the set computed here; [now'], [order'] and
    [evs] to [WaitForQuorum], whose context ends after the timeout. *)
Definition waitForQuorum (now : Z) (order : list string) (now' : Z) (order' : list string)
    (evs : list quorum_event) (clusterNode : option (Node L)) (topicName : string) (partition offset : Z) :
    quorum_outcome :=
  match clusterNode with
  | None => QuorumReached
  | Some n =>
      match getISRTracker n topicName partition with
      | None => QuorumReached
      | Some tracker =>
          let isr := ISRTracker_ISR now order tracker (SelfID n) offset in
          let quorum := zlen isr / 2 + 1 in
          if quorum <=? 1 then QuorumReached
          else WaitForQuorum now' order' tracker (SelfID n) offset quorum evs
      end
  end.

Definition quorum_timeout (ms : Z) : Z := if ms <=? 0 then 5000 else ms.
End BrokerCluster.

(** ** A partition map arrives *)

Inductive ownership_event :=
| Acquired (topic : string) (partition : Z)
| Released (topic : string) (partition : Z).

Definition prevOwns (prevOwned : gmap string (gmap Z bool)) (topic : string) (partition : Z) : bool :=
  default false (prevOwned !! topic ≫= (.!! partition)).

Definition note_partition (newPM : PartitionMap) (nodeID name : string)
    (st : gmap string (gmap Z bool) * list ownership_event) (p : Z) :
    gmap string (gmap Z bool) * list ownership_event :=
  let '(prevOwned, evs) := st in
  let part := i32 p in
  let newOwns := bool_decide (PartitionMap_Owner newPM name part = nodeID) in
  let oldOwns := prevOwns prevOwned name part in
  let evs := if negb oldOwns && newOwns then evs ++ [Acquired name part]
             else if oldOwns && negb newOwns then evs ++ [Released name part] else evs in
  (<[name := <[part := newOwns]> (default ∅ (prevOwned !! name))]> prevOwned, evs).

Definition onClusterMetaSync (nodeID : string) (topics : list TopicConfig) (newPM : PartitionMap)
    (prevOwned : gmap string (gmap Z bool)) : gmap string (gmap Z bool) * list ownership_event :=
  foldl (λ st tc, foldl (note_partition newPM nodeID (tc_Name tc)) st (seqZ 0 (tc_Partitions tc)))
    (prevOwned, []) topics.

(** ** Facts *)

Section Facts.
Context {L : Type} `{LogStore L}.

(** The broker's test is the node's. *)
Lemma Broker_OwnsPartition_node (n : Node L) topic p :
  Broker_OwnsPartition (Some n) topic p = OwnsPartition n topic p.
Proof. unfold Broker_OwnsPartition, OwnsPartition. by case_bool_decide. Qed.

(** With one view of the in-sync set the quorum is always there. *)
Lemma waitForQuorum_never_waits now order evs (clusterNode : option (Node L)) topic p offset :
  waitForQuorum now order now order evs clusterNode topic p offset = QuorumReached.
Proof.
  unfold waitForQuorum. destruct clusterNode as [n|]; [|done]. destruct (getISRTracker n topic p) as [t|]; [|done].
  case_match; [done|]. apply quorum_of_isr.
Qed.

(** A keyless publish is checked for one partition and goes to the next. *)
Lemma keyless_checked_elsewhere (p : HashPartitioner) t n c :
  hp_topics p !! t = Some n → hp_rrCur p !! t = Some c → 1 < n < 2 ^ 31 → 0 <= c < 2 ^ 63 - 2 →
  ∃ i j p' p'', check_part p t "" = (p', i) ∧ HashPartitioner_Assign p' t "" = (p'', Ok j) ∧ i ≠ j.
Proof.
  intros Ht Hc Hn Hr. unfold check_part. rewrite (Assign_keyless p t n c) by (done || lia).
  eexists (c mod n), ((c + 1) mod n), _, _. split; [done|]. split.
  - apply Assign_keyless; [done|apply lookup_insert_eq|lia|lia].
  - pose proof (Z.div_mod c n). pose proof (Z.div_mod (c + 1) n).
    pose proof (Z.mod_pos_bound c n). pose proof (Z.mod_pos_bound (c + 1) n).
    intros Heq. assert (n * ((c + 1) / n - c / n) = 1) by lia.
    assert ((c + 1) / n - c / n <> 0) by nia. nia.
Qed.

(** A keyed publish passes the check on one node alone: the owner of the
    partition the key hashes to, on every node that has the map. *)
Lemma keyed_publish_one_owner (p : HashPartitioner) t key k pm id (f : Node L) :
  hp_topics p !! t = Some k → key ≠ EmptyString → 0 < k < 2 ^ 31 →
  PartitionMap_Owner pm t (hashPartition key k) = id → id ≠ EmptyString → cn_partMap f = pm →
  check_part p t key = (p, hashPartition key k) ∧
  owner_check (Some f) (Some k) t (hashPartition key k) = if bool_decide (SelfID f = id) then None else Some id.
Proof.
  intros Ht Hkey Hk Ho Hid Hf. unfold check_part, HashPartitioner_Assign. rewrite Ht.
  rewrite (bool_decide_eq_false_2 (key = EmptyString)) by done. cbn [negb]. split; [done|].
  unfold owner_check. rewrite i32_id by (unfold is_i32; lia). rewrite (proj2 (Z.ltb_lt 0 k)) by lia.
  rewrite Broker_OwnsPartition_node, (OwnsPartition_iff f t _ id) by (by rewrite ?Hf).
  unfold OwnerOf. rewrite Hf, Ho. by destruct (bool_decide _).
Qed.
End Facts.

(** ** Facts: ownership changes *)

(** What the map changes for one partition. *)
Definition owner_change (newPM : PartitionMap) (nodeID : string) (prevOwned : gmap string (gmap Z bool))
    (np : string * Z) : list ownership_event :=
  let newOwns := bool_decide (PartitionMap_Owner newPM np.1 np.2 = nodeID) in
  let oldOwns := prevOwns prevOwned np.1 np.2 in
  if negb oldOwns && newOwns then [Acquired np.1 np.2]
  else if oldOwns && negb newOwns then [Released np.1 np.2] else [].

Lemma note_partition_spec newPM nodeID name prev evs p :
  is_i32 p →
  ∃ prev', note_partition newPM nodeID name (prev, evs) p =
      (prev', evs ++ owner_change newPM nodeID prev (name, p)) ∧
    ∀ t q, prevOwns prev' t q = if bool_decide ((t, q) = (name, p))
                                then bool_decide (PartitionMap_Owner newPM name p = nodeID) else prevOwns prev t q.
Proof.
  intros Hp. unfold note_partition, owner_change. rewrite (i32_id p) by done. cbn [fst snd]. eexists. split.
  - f_equal. by destruct (prevOwns _ _ _), (bool_decide _); cbn; rewrite ?app_nil_r.
  - intros t q. unfold prevOwns. destruct (decide (t = name)) as [->|Hne].
    + rewrite lookup_insert_eq. cbn [mbind option_bind]. destruct (decide (q = p)) as [->|Hq].
      * rewrite lookup_insert_eq. by rewrite (bool_decide_eq_true_2 ((name, p) = (name, p))).
      * rewrite lookup_insert_ne by done. rewrite bool_decide_eq_false_2 by naive_solver.
        destruct (prev !! name); [done|]. cbn. by rewrite lookup_empty.
    + rewrite lookup_insert_ne by done. by rewrite bool_decide_eq_false_2 by naive_solver.
Qed.

Lemma note_all newPM nodeID (l : list (string * Z)) : ∀ prev evs,
  NoDup l → Forall (λ np, is_i32 np.2) l →
  ∃ prev', foldl (λ st np, note_partition newPM nodeID np.1 st np.2) (prev, evs) l =
      (prev', evs ++ mjoin (owner_change newPM nodeID prev <$> l)) ∧
    ∀ t q, prevOwns prev' t q = if bool_decide ((t, q) ∈ l)
                                then bool_decide (PartitionMap_Owner newPM t q = nodeID) else prevOwns prev t q.
Proof.
  induction l as [|[n p] l IH]; intros prev evs Hnd Hl.
  { exists prev. split; [by rewrite app_nil_r|]. intros t q. by rewrite bool_decide_eq_false_2 by apply not_elem_of_nil. }
  apply NoDup_cons in Hnd as [Hx Hnd]. apply Forall_cons in Hl as [Hp Hl]. cbn [foldl].
  destruct (note_partition_spec newPM nodeID n prev evs p Hp) as (prev1 & Heq & Hown). cbn [fst snd] in *. rewrite Heq.
  destruct (IH prev1 (evs ++ owner_change newPM nodeID prev (n, p)) Hnd Hl) as (prev' & Heq' & Hown').
  exists prev'. rewrite Heq'. split.
  - f_equal. rewrite <- app_assoc, fmap_cons, mjoin_cons. do 3 f_equal. apply list_fmap_ext.
    intros i [t q] Hi%list_elem_of_lookup_2. unfold owner_change. cbn [fst snd].
    by rewrite Hown, (bool_decide_eq_false_2 ((t, q) = (n, p))) by naive_solver.
  - intros t q. rewrite Hown', Hown. destruct (decide ((t, q) = (n, p))) as [[= -> ->]|Hne].
    + rewrite (bool_decide_eq_false_2 ((n, p) ∈ l)) by done.
      rewrite (bool_decide_eq_true_2 ((n, p) = (n, p))) by done.
      by rewrite (bool_decide_eq_true_2 ((n, p) ∈ (n, p) :: l)) by by left.
    + rewrite (bool_decide_eq_false_2 ((t, q) = (n, p))) by done.
      rewrite (bool_decide_ext ((t, q) ∈ (n, p) :: l) ((t, q) ∈ l)); [done|].
      rewrite elem_of_cons. naive_solver.
Qed.

Definition topic_parts (topics : list TopicConfig) : list (string * Z) :=
  mjoin ((λ tc, (λ p, (tc_Name tc, p)) <$> seqZ 0 (tc_Partitions tc)) <$> topics).

Lemma onClusterMetaSync_parts nodeID topics newPM prevOwned :
  onClusterMetaSync nodeID topics newPM prevOwned =
    foldl (λ st np, note_partition newPM nodeID np.1 st np.2) (prevOwned, []) (topic_parts topics).
Proof.
  unfold onClusterMetaSync. generalize (prevOwned, @nil ownership_event). intros st.
  revert st. induction topics as [|tc topics IH]; intros st; [done|].
  unfold topic_parts. rewrite fmap_cons, mjoin_cons, foldl_app. cbn [foldl]. rewrite IH. f_equal.
  generalize (seqZ 0 (tc_Partitions tc)). intros l. revert st. induction l as [|p l IHl]; intros st; [done|].
  rewrite fmap_cons. cbn [foldl fst snd]. apply IHl.
Qed.

Lemma topic_parts_nodup topics :
  NoDup (tc_Name <$> topics) → NoDup (topic_parts topics).
Proof.
  intros Hnd. induction topics as [|tc topics IH]; [apply NoDup_nil_2|].
  rewrite fmap_cons in Hnd. apply NoDup_cons in Hnd as [Hx Hnd]. unfold topic_parts.
  rewrite fmap_cons, mjoin_cons. apply NoDup_app. split; [|split; [|by apply IH]].
  - apply NoDup_fmap_2; [|apply NoDup_seqZ]. by intros p q [= ->].
  - intros np (p & -> & _)%list_elem_of_fmap Hin.
    apply list_elem_of_join in Hin as (l & Hin & (tc' & -> & Htc)%list_elem_of_fmap).
    apply list_elem_of_fmap in Hin as (q & [= Hn _] & _). apply Hx. rewrite Hn. by apply list_elem_of_fmap_2.
Qed.

(** When a partition map arrives, the broker reports one acquisition for
    each listed partition the map gives to this node and the node did not own
    before, one release for each it loses, in the order of the topics and
    nothing else, and remembers exactly the ownership the map states: the same
    map arriving again reports nothing. *)
Theorem ownership_changes_exact nodeID topics newPM prevOwned :
  NoDup (tc_Name <$> topics) → Forall (λ tc, tc_Partitions tc <= 2 ^ 31) topics →
  ∃ prev', onClusterMetaSync nodeID topics newPM prevOwned =
      (prev', mjoin (owner_change newPM nodeID prevOwned <$> topic_parts topics)) ∧
    (∀ t p, prevOwns prev' t p = if bool_decide ((t, p) ∈ topic_parts topics)
      then bool_decide (PartitionMap_Owner newPM t p = nodeID) else prevOwns prevOwned t p) ∧
    (onClusterMetaSync nodeID topics newPM prev').2 = [].
Proof.
  intros Hnd Hp. pose proof (topic_parts_nodup topics Hnd) as Hnd'.
  assert (Forall (λ np, is_i32 np.2) (topic_parts topics)) as Hall.
  { apply Forall_forall. intros np Hin. rewrite Forall_forall in Hp.
    apply list_elem_of_join in Hin as (l & Hin & (tc & -> & Htc)%list_elem_of_fmap).
    apply list_elem_of_fmap in Hin as (p & -> & Hpin%elem_of_seqZ). specialize (Hp tc Htc). unfold is_i32. cbn. lia. }
  rewrite onClusterMetaSync_parts.
  destruct (note_all newPM nodeID (topic_parts topics) prevOwned [] Hnd' Hall) as (prev' & Heq & Hown).
  exists prev'. split; [done|]. split; [done|]. rewrite onClusterMetaSync_parts.
  destruct (note_all newPM nodeID (topic_parts topics) prev' [] Hnd' Hall) as (prev2 & Heq2 & _).
  rewrite Heq2. cbn [snd app].
  assert (∀ np, np ∈ topic_parts topics → owner_change newPM nodeID prev' np = []) as Hnone.
  { intros [t p] Hin. unfold owner_change. cbn [fst snd]. rewrite Hown, bool_decide_eq_true_2 by done.
    by destruct (bool_decide _). }
  clear -Hnone. induction (topic_parts topics) as [|np l IH]; [done|]. rewrite fmap_cons, mjoin_cons.
  rewrite Hnone by by left. apply IH. intros x Hx. apply Hnone. by right.
Qed.

Lemma ownership_changes_exact_witness :
  let tc := mkTopicConfig "orders" 2 1 0 0 0 0 0 "" in
  let pm := PartitionMap_Assign (mkPartitionMap ∅) "orders" 2 ["a"; "b"] in
  ∃ prev', onClusterMetaSync "a" [tc] pm ∅ =
      (prev', mjoin (owner_change pm "a" ∅ <$> topic_parts [tc])) ∧
    (∀ t p, prevOwns prev' t p = if bool_decide ((t, p) ∈ topic_parts [tc])
      then bool_decide (PartitionMap_Owner pm t p = "a") else prevOwns ∅ t p) ∧
    (onClusterMetaSync "a" [tc] pm prev').2 = [].
Proof.
  intros tc pm. apply (ownership_changes_exact "a" [tc] pm ∅).
  - apply NoDup_singleton.
  - repeat constructor. cbn. lia.
Defined.
