(* ===== verification/Auth.v ===== *)
(** * Authentication and authorization: [internal/auth/{auth,rbac}.go] and the
      identity of a connection ([internal/networking/connection.go])

    Roles and their permissions, the decision of an identity, API keys looked
    up by their SHA-256, and what a connection is allowed. *)

From S2P Require Import Prelude GoLib Types.

Local Open Scope Z_scope.

(** ** SHA-256, as [crypto/sha256] computes it *)

Module Sha256.

Definition rotr (x n : Z) : Z := Z.lor (Z.shiftr x n) (u32 (Z.shiftl x (32 - n))).

(** The constants are the first 32 bits of the fractional parts of the cube
    roots (the rounds) and square roots (the initial state) of the first
    primes. *)
Definition is_prime (n : nat) : bool :=
  forallb (λ d, negb (n mod d =? 0)%nat) (seq 2 (n - 2)).

Definition primes : list Z := Z.of_nat <$> filter (λ n, is_prime n = true) (seq 2 310).

(** The largest [r] below [2^bits] with [r^3 <= x], bit by bit. *)
Fixpoint cbrt_bits (bits : nat) (x r : Z) : Z :=
  match bits with
  | O => r
  | S b =>
      let r' := r + 2 ^ Z.of_nat b in
      cbrt_bits b x (if r' ^ 3 <=? x then r' else r)
  end.

Definition round_constants : list Z := (λ p, u32 (cbrt_bits 35 (p * 2 ^ 96) 0)) <$> primes.

Definition initial : list Z := (λ p, u32 (Z.sqrt (p * 2 ^ 64))) <$> take 8 primes.

Definition be_word (b : bytes) : Z := foldl (λ a x, Z.lor (Z.shiftl a 8) (byte.unsigned x)) 0 b.

Definition be_bytes (n : nat) (z : Z) : bytes := reverse (le_split n z).

(** One 0x80 byte, zeros, and the length in bits, to a multiple of 64 bytes. *)
Definition pad (m : bytes) : bytes :=
  m ++ Byte.x80 :: replicate (Z.to_nat ((55 - zlen m) mod 64)) Byte.x00 ++ be_bytes 8 (8 * zlen m).

Definition nth_word (ws : list Z) (i : nat) : Z := default 0 (ws !! i).

(** The message schedule, newest word first. *)
Fixpoint schedule (n : nat) (ws : list Z) : list Z :=
  match n with
  | O => ws
  | S n =>
      let w15 := nth_word ws 14 in
      let w2 := nth_word ws 1 in
      let s0 := Z.lxor (Z.lxor (rotr w15 7) (rotr w15 18)) (Z.shiftr w15 3) in
      let s1 := Z.lxor (Z.lxor (rotr w2 17) (rotr w2 19)) (Z.shiftr w2 10) in
      schedule n (u32 (nth_word ws 15 + s0 + nth_word ws 6 + s1) :: ws)
  end.

Definition round (st : list Z) (kw : Z * Z) : list Z :=
  match st with
  | [a; b; c; d; e; f; g; h] =>
      let s1 := Z.lxor (Z.lxor (rotr e 6) (rotr e 11)) (rotr e 25) in
      let ch := Z.lxor (Z.land e f) (Z.land (Z.lxor e 0xffffffff) g) in
      let t1 := u32 (h + s1 + ch + kw.1 + kw.2) in
      let s0 := Z.lxor (Z.lxor (rotr a 2) (rotr a 13)) (rotr a 22) in
      let maj := Z.lxor (Z.lxor (Z.land a b) (Z.land a c)) (Z.land b c) in
      [u32 (t1 + u32 (s0 + maj)); a; b; c; u32 (d + t1); e; f; g]
  | _ => st
  end.

Fixpoint words (n : nat) (b : bytes) : list Z :=
  match n with
  | O => []
  | S n => be_word (take 4 b) :: words n (drop 4 b)
  end.

Definition block (st : list Z) (b : bytes) : list Z :=
  let ws := reverse (schedule 48 (reverse (words 16 b))) in
  zip_with (λ x y, u32 (x + y)) st (foldl round st (zip round_constants ws)).

Fixpoint blocks (n : nat) (st : list Z) (b : bytes) : list Z :=
  match n with
  | O => st
  | S n => blocks n (block st (take 64 b)) (drop 64 b)
  end.

Definition Sum256 (m : bytes) : bytes :=
  let p := pad m in
  mjoin (be_bytes 4 <$> blocks (length p / 64) initial p).

End Sha256.

Definition hashKey (key : string) : string :=
  string_of_bytes (hex_of (Sha256.Sum256 (bytes_of_string key))).

(** The digests of FIPS 180-2, and of a two-block message. *)
Example hashKey_abc :
  hashKey "abc" = "ba7816bf8f01cfea414140de5dae2223b00361a396177a9cb410ff61f20015ad"%string.
Proof. vm_compute. reflexivity. Qed.

Example hashKey_448_bits :
  hashKey "abcdbcdecdefdefgefghfghighijhijkijkljklmklmnlmnomnopnopq" =
  "248d6a61d20638b8e5c026930c3e6039a33ce45964ff2167f6ecedd419db06c1"%string.
Proof. vm_compute. reflexivity. Qed.

(** ** Roles and permissions *)

Definition RoleAdmin : string := "admin".
Definition RoleProducer : string := "producer".
Definition RoleConsumer : string := "consumer".
Definition RoleViewer : string := "viewer".

Definition PermPublish : string := "publish".
Definition PermSubscribe : string := "subscribe".
Definition PermFetch : string := "fetch".
Definition PermCommit : string := "commit".
Definition PermCreateTopic : string := "create_topic".
Definition PermDeleteTopic : string := "delete_topic".
Definition PermListTopics : string := "list_topics".
Definition PermSeek : string := "seek".
Definition PermAdmin : string := "admin".

(** A role the map does not have gives the nil slice. *)
Definition RolePermissions (r : string) : list string :=
  if bool_decide (r = RoleAdmin) then
    [PermPublish; PermSubscribe; PermFetch; PermCommit; PermCreateTopic; PermDeleteTopic;
     PermListTopics; PermSeek; PermAdmin]
  else if bool_decide (r = RoleProducer) then [PermPublish; PermListTopics]
  else if bool_decide (r = RoleConsumer) then
    [PermSubscribe; PermFetch; PermCommit; PermSeek; PermListTopics]
  else if bool_decide (r = RoleViewer) then [PermListTopics]
  else [].

Record Identity := mkIdentity {
  id_ClientID : string;
  id_Role : string;
  id_Topics : list string;
}.

Definition Identity_Can (id : Identity) (perm topic : string) : bool :=
  if negb (bool_decide (topic = EmptyString)) && (0 <? zlen (id_Topics id)) &&
     negb (existsb (λ t, bool_decide (t = topic)) (id_Topics id))
  then false
  else existsb (λ p, bool_decide (p = perm)) (RolePermissions (id_Role id)).

(** The first entry that names a role decides. *)
Fixpoint roleFromLegacy (perms : list string) : string :=
  match perms with
  | [] => RoleViewer
  | p :: perms =>
      if bool_decide (p = "admin"%string) then RoleAdmin
      else if bool_decide (p = "publish"%string) then RoleProducer
      else if bool_decide (p = "subscribe"%string) then RoleConsumer
      else roleFromLegacy perms
  end.

(** ** API keys *)

Record APIKeyEntry := mkAPIKeyEntry {
  ak_Key : string;
  ak_ClientID : string;
  ak_Permissions : list string;
  ak_Role : string;
  ak_Topics : list string;
}.

Record AuthConfig := mkAuthConfig {
  ac_Enabled : bool;
  ac_APIKeys : list APIKeyEntry;
}.

(** Keys by the digest of their text. *)
Record Authenticator := mkAuthenticator {
  au_keys : gmap string Identity;
  au_enabled : bool;
}.

Definition identity_of (k : APIKeyEntry) : Identity :=
  mkIdentity (ak_ClientID k)
    (if bool_decide (ak_Role k = EmptyString) then roleFromLegacy (ak_Permissions k) else ak_Role k)
    (ak_Topics k).

Definition NewAuthenticator (cfg : AuthConfig) : Authenticator :=
  mkAuthenticator (foldl (λ m k, <[hashKey (ak_Key k) := identity_of k]> m) ∅ (ac_APIKeys cfg))
    (ac_Enabled cfg).

Inductive auth_err :=
| UnknownAPIKey.

Definition anonymous_admin : Identity := mkIdentity "anonymous" RoleAdmin [].

Definition Authenticator_Authenticate (a : Authenticator) (key : string) : result Identity auth_err :=
  if negb (au_enabled a) then Ok anonymous_admin
  else
    match au_keys a !! hashKey key with
    | Some id => Ok id
    | None => Error UnknownAPIKey
    end.

Definition Authenticator_AddKey (a : Authenticator) (key clientID role : string)
    (topics : list string) : Authenticator :=
  mkAuthenticator (<[hashKey key := mkIdentity clientID role topics]> (au_keys a)) (au_enabled a).

Definition Authenticator_RemoveKey (a : Authenticator) (key : string) : Authenticator :=
  mkAuthenticator (delete (hashKey key) (au_keys a)) (au_enabled a).

(** ** Connections *)

Record Conn := mkConn {
  cn_authed : bool;
  cn_clientID : string;
  cn_perms : list string;
  cn_identity : option Identity;
}.

Definition newConn : Conn := mkConn false "" [] None.

Definition Conn_SetAuth (c : Conn) (clientID : string) (perms : list string) : Conn :=
  mkConn true clientID perms (cn_identity c).

Definition Conn_SetIdentity (c : Conn) (id : Identity) : Conn :=
  mkConn (cn_authed c) (cn_clientID c) (cn_perms c) (Some id).

Definition Conn_Can (c : Conn) (perm topic : string) : bool :=
  match cn_identity c with
  | Some id => Identity_Can id perm topic
  | None =>
      existsb (λ p, bool_decide (p = perm) || bool_decide (p = "admin"%string)) (cn_perms c)
  end.

Definition Conn_HasPerm (c : Conn) (perm : string) : bool := Conn_Can c perm "".

(** ** The decision *)

Lemma existsb_elem (P : string) (l : list string) :
  existsb (λ t, bool_decide (t = P)) l = true ↔ P ∈ l.
Proof.
  rewrite existsb_exists. setoid_rewrite <- list_elem_of_In. setoid_rewrite bool_decide_eq_true.
  split; [by intros (x & Hx & ->)|]. intros Hx. by exists P.
Qed.

Lemma Identity_Can_spec id perm topic :
  Identity_Can id perm topic = true ↔
    perm ∈ RolePermissions (id_Role id) ∧
    (topic = EmptyString ∨ id_Topics id = [] ∨ topic ∈ id_Topics id).
Proof.
  unfold Identity_Can. rewrite <- (existsb_elem perm), <- (existsb_elem topic).
  destruct (decide (topic = EmptyString)) as [->|Ht]; [naive_solver|].
  rewrite bool_decide_eq_false_2 by done. cbn [negb andb].
  destruct (id_Topics id) as [|t ts] eqn:E; [naive_solver|].
  assert (0 <? zlen (t :: ts) = true) as -> by (apply Z.ltb_lt; unfold zlen; simpl; lia).
  cbn [andb]. destruct (existsb _ (t :: ts)); cbn [negb]; naive_solver.
Qed.

(** ** Histories of keys *)

Inductive key_op :=
| KAdd (key clientID role : string) (topics : list string)
| KRemove (key : string).

Definition key_step (a : Authenticator) (o : key_op) : Authenticator :=
  match o with
  | KAdd k c r t => Authenticator_AddKey a k c r t
  | KRemove k => Authenticator_RemoveKey a k
  end.

Definition op_key (o : key_op) : string :=
  match o with KAdd k _ _ _ => k | KRemove k => k end.

(** The last operation on a key with the digest of [key] decides. *)
Fixpoint last_op (key : string) (ops : list key_op) : option key_op :=
  match ops with
  | [] => None
  | o :: ops =>
      match last_op key ops with
      | Some o' => Some o'
      | None => if bool_decide (hashKey (op_key o) = hashKey key) then Some o else None
      end
  end.

Lemma key_steps_lookup ops a key :
  au_enabled (foldl key_step a ops) = au_enabled a ∧
  au_keys (foldl key_step a ops) !! hashKey key =
    match last_op key ops with
    | Some (KAdd _ c r t) => Some (mkIdentity c r t)
    | Some (KRemove _) => None
    | None => au_keys a !! hashKey key
    end.
Proof.
  revert a. induction ops as [|o ops IH]; intros a; [done|]. cbn [foldl last_op].
  destruct (IH (key_step a o)) as [-> ->]. split; [by destruct o|].
  destruct (last_op key ops) as [[k c r t|k]|]; [done|done|].
  destruct o as [k c r t|k]; cbn [key_step Authenticator_AddKey Authenticator_RemoveKey au_keys op_key].
  - case_bool_decide as Hh; [by rewrite Hh, lookup_insert_eq|by rewrite lookup_insert_ne].
  - case_bool_decide as Hh; [by rewrite Hh, lookup_delete_eq|by rewrite lookup_delete_ne].
Qed.
