(* ===== verification/AuditLog.v ===== *)
(** * The audit log: [internal/audit/audit.go]

    The ring buffer behind [GET /audit/recent] and the logger that feeds it,
    with the ring refined to the list of the newest events. *)

From S2P Require Import Prelude Ring.

Local Open Scope Z_scope.

(** ** Events *)

Definition EventAuth : string := "auth".
Definition EventPublish : string := "publish".
Definition EventSubscribe : string := "subscribe".
Definition EventCreateTopic : string := "create_topic".
Definition EventDeleteTopic : string := "delete_topic".
Definition EventSeek : string := "seek".
Definition EventForbidden : string := "forbidden".
Definition EventConfigReload : string := "config_reload".

(** [ev_Time] is [None] for the zero time. *)
Record Event := mkEvent {
  ev_Time : option Z;
  ev_Type : string;
  ev_ClientID : string;
  ev_RemoteAddr : string;
  ev_Topic : string;
  ev_Success : bool;
  ev_Error : string;
  ev_Details : gmap string string;
}.

Definition zero_event : Event := mkEvent None "" "" "" "" false "" ∅.

Definition stamped (now : Z) (e : Event) : Event :=
  match ev_Time e with
  | Some _ => e
  | None =>
      mkEvent (Some now) (ev_Type e) (ev_ClientID e) (ev_RemoteAddr e) (ev_Topic e)
        (ev_Success e) (ev_Error e) (ev_Details e)
  end.

(** ** The logger

    [lg_lines] are the events whose line the writer took. *)
Record Logger := mkLogger {
  lg_lines : list Event;
  lg_rb : RingBuffer Event;
}.

Definition NewLogger : Logger :=
  mkLogger [] (mkRingBuffer (replicate 1000 zero_event) 1000 0 0).

(** [ok] is the outcome of the write; a failure is dropped. *)
Definition Logger_Log (now : Z) (ok : bool) (l : Logger) (e : Event) : Logger :=
  let e := stamped now e in
  mkLogger (if ok then lg_lines l ++ [e] else lg_lines l) (RingBuffer_Add (lg_rb l) e).

Definition Logger_Recent (l : Logger) (n : Z) : list Event :=
  let snap := RingBuffer_Snapshot zero_event (lg_rb l) in
  if (0 <? n) && (n <? zlen snap) then take (Z.to_nat n) snap else snap.

Lemma Log_all_rep calls : ∀ l es,
  ring_rep (lg_rb l) es →
  ring_rep (lg_rb (foldl (λ l c, Logger_Log c.1.1 c.1.2 l c.2) l calls))
    (es ++ ((λ c, stamped c.1.1 c.2) <$> calls)) ∧
  rb_capacity (lg_rb (foldl (λ l c, Logger_Log c.1.1 c.1.2 l c.2) l calls)) = rb_capacity (lg_rb l).
Proof.
  induction calls as [|c calls IH]; intros l es Hr; cbn [foldl].
  { by rewrite app_nil_r. }
  destruct (IH (Logger_Log c.1.1 c.1.2 l c.2) (es ++ [stamped c.1.1 c.2])) as [Hr' Hc'].
  { by apply RingBuffer_Add_rep. }
  rewrite <- app_assoc in Hr'. by split.
Qed.

(** ** Property *)

(** The audit log serves the newest events.  After any series of calls
    of [Log], whether or not the file took their lines, the events kept are
    exactly the last thousand logged, each stamped with the clock of its
    call, and [Recent n] gives them newest first: the last [n], or all of them
    when [n] is not positive. *)
Theorem audit_keeps_newest (calls : list (Z * bool * Event)) n :
  let l := foldl (λ l c, Logger_Log c.1.1 c.1.2 l c.2) NewLogger calls in
  let newest := take 1000 (reverse ((λ c, stamped c.1.1 c.2) <$> calls)) in
  Logger_Recent l n = (if n <=? 0 then newest else take (Z.to_nat n) newest) ∧
  lg_lines l = (λ c, stamped c.1.1 c.2) <$> filter (λ c, c.1.2 = true) calls.
Proof.
  intros l newest. split.
  - destruct (Log_all_rep calls NewLogger []) as [Hr Hc].
    { eapply (NewRingBuffer_rep zero_event 1000). reflexivity. }
    apply (Snapshot_rep zero_event) in Hr. rewrite Hc in Hr. change (Z.to_nat _) with 1000%nat in Hr.
    unfold Logger_Recent. fold l. fold l in Hr. rewrite Hr.
    change (take 1000 _) with newest.
    destruct (Z.leb_spec n 0); destruct (Z.ltb_spec 0 n); try lia; [done|].
    cbn [andb]. destruct (Z.ltb_spec n (zlen newest)); [done|].
    rewrite take_ge; [done|]. unfold zlen in *. lia.
  - assert (∀ l0, lg_lines (foldl (λ l c, Logger_Log c.1.1 c.1.2 l c.2) l0 calls) =
      lg_lines l0 ++ ((λ c, stamped c.1.1 c.2) <$> filter (λ c, c.1.2 = true) calls)) as Ha.
    { clear. induction calls as [|c calls IH]; intros l0; cbn [foldl]; [by rewrite app_nil_r|].
      rewrite IH, filter_cons. cbn. destruct c as [[now []] e]; cbn; [|done].
      by rewrite <- app_assoc. }
    apply (Ha NewLogger).
Qed.
