(* ===== verification/RateLimit.v ===== *)
(** * Rate limiting: [internal/auth/rate_limiter.go]

    Token buckets per client and per topic.  Token counts are [float64]: the
    binary64 numbers of [SpecFloat], rounded to nearest even, with multiply
    and add as two operations. *)

From S2P Require Import Prelude GoLib.
From Stdlib Require Import Floats.SpecFloat.

Local Open Scope Z_scope.

(** ** binary64 *)

Definition f64_prec : Z := 53.
Definition f64_emax : Z := 1024.

Definition f64_of_int (z : Z) : spec_float := binary_normalize f64_prec f64_emax z 0 false.
Definition f64_add : spec_float → spec_float → spec_float := SFadd f64_prec f64_emax.
Definition f64_sub : spec_float → spec_float → spec_float := SFsub f64_prec f64_emax.
Definition f64_mul : spec_float → spec_float → spec_float := SFmul f64_prec f64_emax.
Definition f64_div : spec_float → spec_float → spec_float := SFdiv f64_prec f64_emax.

(** [Duration.Seconds]. *)
Definition duration_seconds (d : Z) : spec_float :=
  f64_add (f64_of_int (Z.quot d (10 ^ 9))) (f64_div (f64_of_int (Z.rem d (10 ^ 9))) (f64_of_int (10 ^ 9))).

(** ** Buckets *)

(** [None] is the zero time. *)
Record bucket := mkBucket {
  bk_tokens : spec_float;
  bk_last : option Z;
  bk_lastSeen : option Z;
}.

Definition new_bucket : bucket := mkBucket (S754_zero false) None None.

Definition bucket_refill (b : bucket) (rate burst now : Z) : bucket :=
  let burst := if burst <=? 0 then 1 else burst in
  match bk_last b with
  | None => mkBucket (f64_of_int burst) (Some now) (bk_lastSeen b)
  | Some last =>
      let elapsed := duration_seconds (time_sub now last) in
      let tokens :=
        if SFltb (S754_zero false) elapsed && (0 <? rate)
        then f64_add (bk_tokens b) (f64_mul elapsed (f64_of_int rate)) else bk_tokens b in
      let tokens := if SFltb (f64_of_int burst) tokens then f64_of_int burst else tokens in
      mkBucket tokens (Some now) (bk_lastSeen b)
  end.

Definition bucket_allow (b : bucket) (rate burst now : Z) : bucket * bool :=
  let b := bucket_refill b rate burst now in
  if SFleb (f64_of_int 1) (bk_tokens b)
  then (mkBucket (f64_sub (bk_tokens b) (f64_of_int 1)) (bk_last b) (Some now), true)
  else (mkBucket (bk_tokens b) (bk_last b) (Some now), false).

(** ** The limiter *)

Record RateLimitConfig := mkRateLimitConfig {
  rl_Enabled : bool;
  rl_PerClientRPS : Z;
  rl_PerTopicRPS : Z;
  rl_BurstMultiplier : Z;
}.

Definition zero_RateLimitConfig : RateLimitConfig := mkRateLimitConfig false 0 0 0.

Record RateLimiter := mkRateLimiter {
  rl_cfg : RateLimitConfig;
  rl_clients : gmap string bucket;
  rl_topics : gmap string bucket;
}.

Definition NewRateLimiter (cfg : option RateLimitConfig) : RateLimiter :=
  mkRateLimiter (default zero_RateLimitConfig cfg) ∅ ∅.

(** The body shared by [clientBurst] and [topicBurst]. *)
Definition burst_of (rps mult : Z) : Z :=
  if rps <=? 0 then 1
  else
    let b := i64 (rps * mult) in
    let b := if mult <=? 0 then rps else b in
    if b <? 1 then 1 else b.

Definition RateLimiter_clientBurst (r : RateLimiter) : Z :=
  burst_of (rl_PerClientRPS (rl_cfg r)) (rl_BurstMultiplier (rl_cfg r)).

Definition RateLimiter_topicBurst (r : RateLimiter) : Z :=
  burst_of (rl_PerTopicRPS (rl_cfg r)) (rl_BurstMultiplier (rl_cfg r)).

Definition RateLimiter_AllowClient (now : Z) (r : RateLimiter) (id : string) : RateLimiter * bool :=
  if negb (rl_Enabled (rl_cfg r)) then (r, true)
  else
    let b := default new_bucket (rl_clients r !! id) in
    let '(b, ok) := bucket_allow b (rl_PerClientRPS (rl_cfg r)) (RateLimiter_clientBurst r) now in
    (mkRateLimiter (rl_cfg r) (<[id := b]> (rl_clients r)) (rl_topics r), ok).

Definition RateLimiter_AllowTopic (now : Z) (r : RateLimiter) (topic : string) : RateLimiter * bool :=
  if negb (rl_Enabled (rl_cfg r)) then (r, true)
  else
    let b := default new_bucket (rl_topics r !! topic) in
    let '(b, ok) := bucket_allow b (rl_PerTopicRPS (rl_cfg r)) (RateLimiter_topicBurst r) now in
    (mkRateLimiter (rl_cfg r) (rl_clients r) (<[topic := b]> (rl_topics r)), ok).

(** [cb.tokens++] gives the client its token back. *)
Definition refund (b : bucket) : bucket :=
  mkBucket (f64_add (bk_tokens b) (f64_of_int 1)) (bk_last b) (bk_lastSeen b).

Definition RateLimiter_Allow (now : Z) (r : RateLimiter) (clientID topic : string) :
    RateLimiter * bool :=
  if negb (rl_Enabled (rl_cfg r)) then (r, true)
  else
    let cb := default new_bucket (rl_clients r !! clientID) in
    let '(cb, ok) := bucket_allow cb (rl_PerClientRPS (rl_cfg r)) (RateLimiter_clientBurst r) now in
    let clients := <[clientID := cb]> (rl_clients r) in
    if negb ok then (mkRateLimiter (rl_cfg r) clients (rl_topics r), false)
    else
      let tb := default new_bucket (rl_topics r !! topic) in
      let '(tb, ok) := bucket_allow tb (rl_PerTopicRPS (rl_cfg r)) (RateLimiter_topicBurst r) now in
      let topics := <[topic := tb]> (rl_topics r) in
      if negb ok
      then (mkRateLimiter (rl_cfg r) (<[clientID := refund cb]> clients) topics, false)
      else (mkRateLimiter (rl_cfg r) clients topics, true).

Definition RateLimiter_UpdateLimits (r : RateLimiter) (cfg : option RateLimitConfig) : RateLimiter :=
  mkRateLimiter (default zero_RateLimitConfig cfg) ∅ ∅.

(** The test of the two loops of [evictIdle]. *)
Definition bucket_idle (ttl now : Z) (b : bucket) : bool :=
  match bk_lastSeen b with
  | None => false
  | Some seen => ttl <? time_sub now seen
  end.

Definition RateLimiter_evictIdle (ttl now : Z) (r : RateLimiter) : RateLimiter :=
  mkRateLimiter (rl_cfg r)
    (filter (λ kv, bucket_idle ttl now kv.2 = false) (rl_clients r))
    (filter (λ kv, bucket_idle ttl now kv.2 = false) (rl_topics r)).

(** One request a second with bursts of two: the third request of an instant
    is refused, and half a second later too; a second later one goes through. *)
Example limiter_run :
  let cfg := mkRateLimitConfig true 1 10 2 in
  let step := λ s now, let '(r, oks) := s in
    let '(r', ok) := RateLimiter_Allow now r "c" "t" in (r', oks ++ [ok]) in
  (foldl step (NewRateLimiter (Some cfg), []) [0; 0; 0; 500000000; 1000000000; 1000000000]).2 =
  [true; true; false; false; true; false].
Proof. vm_compute. reflexivity. Qed.
