(* ===== verification/FloatExact.v ===== *)
(** * Sums of integers in binary64

    Adding whole numbers below 2^53 is exact: the sum of two of them as floats
    is the float of their sum. *)

From S2P Require Import Prelude GoLib RateLimit.
From Stdlib Require Import Floats.SpecFloat.

Local Open Scope Z_scope.

(** ** Digits and shifts *)

Lemma digits2_log2 m : Z.pos (digits2_pos m) = Z.log2 (Z.pos m) + 1.
Proof.
  induction m as [m IH|m IH|]; [..|done]; cbn [digits2_pos]; rewrite Pos2Z.inj_succ, IH.
  - rewrite Pos2Z.inj_xI, Z.log2_succ_double; lia.
  - rewrite Pos2Z.inj_xO, Z.log2_double; lia.
Qed.

Lemma iter_xO m d : Z.pos (Pos.iter xO m d) = Z.pos m * 2 ^ Z.pos d.
Proof.
  induction d as [|d IH] using Pos.peano_ind; [cbn; lia|].
  rewrite Pos.iter_succ, Pos2Z.inj_xO, IH, Pos2Z.inj_succ, Z.pow_succ_r; lia.
Qed.

Lemma shr_1_double z :
  0 < z → shr_1 (Build_shr_record (2 * z) false false) = Build_shr_record z false false.
Proof. by destruct z. Qed.

Lemma pow2_xO p : 2 ^ Z.pos (xO p) = 2 ^ Z.pos p * 2 ^ Z.pos p.
Proof. rewrite <- Z.pow_add_r by lia. f_equal. lia. Qed.

Lemma pow2_xI p : 2 ^ Z.pos (xI p) = 2 * (2 ^ Z.pos p * 2 ^ Z.pos p).
Proof. rewrite <- Z.pow_add_r, <- Z.pow_succ_r by lia. f_equal. lia. Qed.

Lemma iter_shr_1 p : ∀ z, 0 < z →
  iter_pos shr_1 p (Build_shr_record (z * 2 ^ Z.pos p) false false) = Build_shr_record z false false.
Proof.
  induction p as [p IH|p IH|]; intros z Hz; cbn [iter_pos].
  - replace (z * 2 ^ Z.pos p~1) with (2 * (z * 2 ^ Z.pos p * 2 ^ Z.pos p))
      by (rewrite pow2_xI; ring).
    rewrite shr_1_double by lia. by rewrite !IH by lia.
  - replace (z * 2 ^ Z.pos p~0) with (z * 2 ^ Z.pos p * 2 ^ Z.pos p)
      by (rewrite pow2_xO; ring).
    by rewrite !IH by lia.
  - rewrite Z.mul_comm. by apply shr_1_double.
Qed.

Lemma shr_exact z n e :
  0 < z → 0 <= n → shr (Build_shr_record (z * 2 ^ n) false false) e n = (Build_shr_record z false false, e + n).
Proof.
  intros Hz Hn. destruct n as [|p|p]; [|unfold shr; by rewrite iter_shr_1|lia].
  cbn. by rewrite Z.mul_1_r, Z.add_0_r.
Qed.

Lemma shl_align_down m e e' :
  e' <= e → Z.pos (shl_align m e e').1 = Z.pos m * 2 ^ (e - e').
Proof.
  intros He. unfold shl_align. destruct (e' - e) as [|p|p] eqn:Hd; cbn [fst].
  - replace (e - e') with 0 by lia. lia.
  - lia.
  - rewrite iter_xO. f_equal. f_equal. lia.
Qed.

(** ** The float of a whole number *)

(** The 53 digits of the mantissa begin with the number's first. *)
Definition f64_whole (m : Z) : spec_float :=
  S754_finite false (Z.to_pos (m * 2 ^ (52 - Z.log2 m))) (Z.log2 m - 52).

Lemma Zdigits2_log2 z : 0 < z → Zdigits2 z = Z.log2 z + 1.
Proof. destruct z; [done|intros _; apply digits2_log2|done]. Qed.

Lemma shr_fexp_exact z n e :
  0 < z → Z.log2 z = 52 → 0 <= n → - 1074 <= e →
  shr_fexp f64_prec f64_emax (z * 2 ^ n) (e - n) loc_Exact = (Build_shr_record z false false, e).
Proof.
  intros Hz Hl Hn He. unfold shr_fexp, fexp, emin, f64_prec, f64_emax, shr_record_of_loc.
  rewrite Zdigits2_log2, Z.log2_mul_pow2, Hl by lia.
  match goal with |- shr _ _ ?k = _ => replace k with n by lia end.
  rewrite shr_exact by done. f_equal. lia.
Qed.

Lemma round_whole z n e :
  0 < z → Z.log2 z = 52 → 0 <= n → - 1074 <= e <= 971 →
  binary_round_aux f64_prec f64_emax false (z * 2 ^ n) (e - n) loc_Exact = S754_finite false (Z.to_pos z) e.
Proof.
  intros Hz Hl Hn He. unfold binary_round_aux. rewrite shr_fexp_exact by lia.
  cbn [shr_m loc_of_shr_record round_nearest_even].
  pose proof (shr_fexp_exact z 0 e Hz Hl ltac:(lia) ltac:(lia)) as H0.
  rewrite Z.mul_1_r, Z.sub_0_r in H0. rewrite H0. cbn [shr_m].
  destruct z as [|p|p]; try lia. unfold f64_prec, f64_emax. by rewrite (proj2 (Z.leb_le _ _)) by lia.
Qed.

Lemma normalize_whole m k :
  0 < m < 2 ^ 53 → 0 <= k →
  binary_normalize f64_prec f64_emax (m * 2 ^ k) (- k) false = f64_whole m.
Proof.
  intros [Hm Hm'] Hk. pose proof (Z.log2_nonneg m) as Hl0.
  assert (Z.log2 m < 53) as Hl by (by apply Z.log2_lt_pow2).
  destruct (m * 2 ^ k) as [|p|p] eqn:Hp; [lia| |lia]. unfold binary_normalize, binary_round.
  assert (fexp f64_prec f64_emax (Z.pos (digits2_pos p) + - k) = Z.log2 m - 52) as ->.
  { rewrite digits2_log2, <- Hp, Z.log2_mul_pow2 by lia. unfold fexp, emin, f64_prec, f64_emax. lia. }
  set (e := Z.log2 m - 52). unfold f64_whole. fold e. replace (52 - Z.log2 m) with (- e) by lia.
  assert (0 < m * 2 ^ (- e)) as Hpos by lia.
  assert (Z.log2 (m * 2 ^ (- e)) = 52) as Hlog by (rewrite Z.log2_mul_pow2; lia).
  destruct (Z.le_gt_cases (- k) e) as [Hle|Hgt].
  - assert (shl_align p (- k) e = (p, - k)) as ->.
    { unfold shl_align. destruct (e - - k) eqn:E; [done|done|lia]. }
    rewrite <- Hp. replace (m * 2 ^ k) with (m * 2 ^ (- e) * 2 ^ (k + e))
      by (rewrite <- Z.mul_assoc, <- Z.pow_add_r by lia; do 2 f_equal; lia).
    replace (- k) with (e - (k + e)) by lia. apply round_whole; lia.
  - pose proof (shl_align_down p (- k) e ltac:(lia)) as Hs.
    assert ((shl_align p (- k) e).2 = e) as Hs2.
    { unfold shl_align. destruct (e - - k) eqn:E; [lia|lia|done]. }
    destruct (shl_align p (- k) e) as [q e2]. cbn [fst snd] in *. subst e2. rewrite Hs, <- Hp.
    replace (m * 2 ^ k * 2 ^ (- k - e)) with (m * 2 ^ (- e) * 2 ^ 0)
      by (rewrite Z.mul_1_r, <- Z.mul_assoc, <- Z.pow_add_r by lia; do 2 f_equal; lia).
    pose proof (round_whole (m * 2 ^ (- e)) 0 e Hpos Hlog ltac:(lia) ltac:(lia)) as Hr.
    rewrite Z.sub_0_r in Hr. exact Hr.
Qed.

Lemma f64_of_whole m : 0 < m < 2 ^ 53 → f64_of_int m = f64_whole m.
Proof. intros Hm. rewrite <- (normalize_whole m 0) by lia. by rewrite Z.mul_1_r. Qed.

(** ** Sums *)

Lemma f64_add_whole a c :
  0 <= a → 0 <= c → a + c < 2 ^ 53 → f64_add (f64_of_int a) (f64_of_int c) = f64_of_int (a + c).
Proof.
  intros Ha Hc Hs. destruct (Z.eq_dec a 0) as [->|Ha0].
  { rewrite Z.add_0_l. destruct (Z.eq_dec c 0) as [->|]; [done|]. by rewrite (f64_of_whole c) by lia. }
  destruct (Z.eq_dec c 0) as [->|Hc0]; [rewrite Z.add_0_r; by rewrite (f64_of_whole a) by lia|].
  rewrite (f64_of_whole a), (f64_of_whole c), (f64_of_whole (a + c)) by lia.
  pose proof (Z.log2_nonneg a). pose proof (Z.log2_nonneg c).
  assert (Z.log2 a < 53 ∧ Z.log2 c < 53) as [Hla Hlc] by (split; apply Z.log2_lt_pow2; lia).
  remember (f64_whole (a + c)) as R eqn:HR. unfold f64_add, SFadd, f64_whole. cbv beta iota zeta. subst R.
  set (e := Z.min (Z.log2 a - 52) (Z.log2 c - 52)).
  cbn [cond_Zopp]. rewrite !shl_align_down by lia.
  rewrite !Z2Pos.id by lia. fold e.
  assert (∀ x l, 0 <= l < 53 → e <= l - 52 → x * 2 ^ (52 - l) * 2 ^ (l - 52 - e) = x * 2 ^ (- e)) as Hx.
  { intros x l Hl He. rewrite <- Z.mul_assoc, <- Z.pow_add_r by lia. do 2 f_equal. lia. }
  rewrite !Hx by (unfold e; lia). rewrite <- Z.mul_add_distr_r.
  assert (e <= 0) as He by (unfold e; lia). clearbody e.
  pose proof (normalize_whole (a + c) (- e) ltac:(lia) ltac:(lia)) as Hn.
  rewrite Z.opp_involutive in Hn. exact Hn.
Qed.
