(* ===== verification/Broker.v ===== *)
(** * The broker: [internal/broker/broker.go], [handlers_auth.go], [handlers_topic.go],
    [handlers_publish.go]

    The state the orchestrator ties together (on a single node: the cluster
    node is nil), what a handler meets and answers, and the handlers for
    authentication, topics and publishing.  A handler is a function from the
    broker and the connection to an outcome; its calls are the component
    operations in the order of the code.  Tracing spans have no effect on the
    state and are left out. *)

From S2P Require Import Prelude GoLib Json Types Protocol WireJson Record Segment PartitionLog.
From S2P Require Import Wal WalStores Partition Topic Dedup Producer DeadLetter Consumer.
From S2P Require Import AuditLog RateLimit Auth.

Local Open Scope Z_scope.

(** ** State *)

(** The counters the handlers advance; [MessagesPublished] and
    [MessagesErrored] are shared with the producer, which holds them. *)
Record Metrics := mkMetrics {
  mt_BytesPublished : Z;
  mt_BytesConsumed : Z;
  mt_MessagesConsumed : Z;
  mt_MessagesAcked : Z;
  mt_MessagesNacked : Z;
  mt_WALBytesTotal : Z;
  mt_WALEntriesTotal : Z;
}.

Definition zero_metrics : Metrics := mkMetrics 0 0 0 0 0 0 0.

Definition mt_published (m : Metrics) (n : Z) : Metrics :=
  mkMetrics (u64 (mt_BytesPublished m + n)) (mt_BytesConsumed m) (mt_MessagesConsumed m)
    (mt_MessagesAcked m) (mt_MessagesNacked m) (mt_WALBytesTotal m) (mt_WALEntriesTotal m).

Definition mt_consumed (m : Metrics) (nbytes n : Z) : Metrics :=
  mkMetrics (mt_BytesPublished m) (u64 (mt_BytesConsumed m + nbytes)) (u64 (mt_MessagesConsumed m + n))
    (mt_MessagesAcked m) (mt_MessagesNacked m) (mt_WALBytesTotal m) (mt_WALEntriesTotal m).

Definition mt_acked (m : Metrics) : Metrics :=
  mkMetrics (mt_BytesPublished m) (mt_BytesConsumed m) (mt_MessagesConsumed m)
    (u64 (mt_MessagesAcked m + 1)) (mt_MessagesNacked m) (mt_WALBytesTotal m) (mt_WALEntriesTotal m).

Definition mt_nacked (m : Metrics) : Metrics :=
  mkMetrics (mt_BytesPublished m) (mt_BytesConsumed m) (mt_MessagesConsumed m)
    (mt_MessagesAcked m) (u64 (mt_MessagesNacked m + 1)) (mt_WALBytesTotal m) (mt_WALEntriesTotal m).

Definition mt_logged (m : Metrics) (n : Z) : Metrics :=
  mkMetrics (mt_BytesPublished m) (mt_BytesConsumed m) (mt_MessagesConsumed m)
    (mt_MessagesAcked m) (mt_MessagesNacked m) (u64 (mt_WALBytesTotal m + n))
    (u64 (mt_WALEntriesTotal m + 1)).

(** What the live tap is handed: [ExplorerHub.Publish] with its arguments. *)
Record TapEvent := mkTapEvent {
  te_Topic : string;
  te_Partition : Z;
  te_ClientID : string;
  te_Message : Message;
}.

(** The partitioner is the one of the topic manager, the offset store and the
    dead-letter queue those of the group manager. *)
Record Broker (L : Type) := mkBroker {
  b_topics : Manager L;
  b_producers : Producer;
  b_consumers : GroupManager;
  b_auth : Authenticator;
  b_rateLimiter : RateLimiter;
  b_msgWAL : WAL;
  b_walEntries : list WalEntry;
  b_offsetWAL : OffsetWAL;
  b_commitCount : Z;
  b_topicWAL : WAL;
  b_pendingWALBytes : Z;
  b_walThreshold : Z;
  b_audit : option Logger;
  b_metrics : Metrics;
  b_explorer : list TapEvent;
}.
Arguments mkBroker {L} _ _ _ _ _ _ _ _ _ _ _ _ _ _ _.
Arguments b_topics {L} _.
Arguments b_producers {L} _.
Arguments b_consumers {L} _.
Arguments b_auth {L} _.
Arguments b_rateLimiter {L} _.
Arguments b_msgWAL {L} _.
Arguments b_walEntries {L} _.
Arguments b_offsetWAL {L} _.
Arguments b_commitCount {L} _.
Arguments b_topicWAL {L} _.
Arguments b_pendingWALBytes {L} _.
Arguments b_walThreshold {L} _.
Arguments b_audit {L} _.
Arguments b_metrics {L} _.
Arguments b_explorer {L} _.

Section Setters.
Context {L : Type}.
Implicit Type b : Broker L.

Definition set_topics b (m : Manager L) : Broker L :=
  mkBroker m (b_producers b) (b_consumers b) (b_auth b) (b_rateLimiter b) (b_msgWAL b)
    (b_walEntries b) (b_offsetWAL b) (b_commitCount b) (b_topicWAL b) (b_pendingWALBytes b)
    (b_walThreshold b) (b_audit b) (b_metrics b) (b_explorer b).

Definition set_producers b (p : Producer) : Broker L :=
  mkBroker (b_topics b) p (b_consumers b) (b_auth b) (b_rateLimiter b) (b_msgWAL b)
    (b_walEntries b) (b_offsetWAL b) (b_commitCount b) (b_topicWAL b) (b_pendingWALBytes b)
    (b_walThreshold b) (b_audit b) (b_metrics b) (b_explorer b).

Definition set_consumers b (g : GroupManager) : Broker L :=
  mkBroker (b_topics b) (b_producers b) g (b_auth b) (b_rateLimiter b) (b_msgWAL b)
    (b_walEntries b) (b_offsetWAL b) (b_commitCount b) (b_topicWAL b) (b_pendingWALBytes b)
    (b_walThreshold b) (b_audit b) (b_metrics b) (b_explorer b).

Definition set_rateLimiter b (r : RateLimiter) : Broker L :=
  mkBroker (b_topics b) (b_producers b) (b_consumers b) (b_auth b) r (b_msgWAL b)
    (b_walEntries b) (b_offsetWAL b) (b_commitCount b) (b_topicWAL b) (b_pendingWALBytes b)
    (b_walThreshold b) (b_audit b) (b_metrics b) (b_explorer b).

Definition set_msgWAL b (w : WAL) : Broker L :=
  mkBroker (b_topics b) (b_producers b) (b_consumers b) (b_auth b) (b_rateLimiter b) w
    (b_walEntries b) (b_offsetWAL b) (b_commitCount b) (b_topicWAL b) (b_pendingWALBytes b)
    (b_walThreshold b) (b_audit b) (b_metrics b) (b_explorer b).

Definition set_walEntries b (es : list WalEntry) : Broker L :=
  mkBroker (b_topics b) (b_producers b) (b_consumers b) (b_auth b) (b_rateLimiter b) (b_msgWAL b)
    es (b_offsetWAL b) (b_commitCount b) (b_topicWAL b) (b_pendingWALBytes b)
    (b_walThreshold b) (b_audit b) (b_metrics b) (b_explorer b).

Definition set_offsetWAL b (w : OffsetWAL) : Broker L :=
  mkBroker (b_topics b) (b_producers b) (b_consumers b) (b_auth b) (b_rateLimiter b) (b_msgWAL b)
    (b_walEntries b) w (b_commitCount b) (b_topicWAL b) (b_pendingWALBytes b)
    (b_walThreshold b) (b_audit b) (b_metrics b) (b_explorer b).

Definition set_commitCount b (n : Z) : Broker L :=
  mkBroker (b_topics b) (b_producers b) (b_consumers b) (b_auth b) (b_rateLimiter b) (b_msgWAL b)
    (b_walEntries b) (b_offsetWAL b) n (b_topicWAL b) (b_pendingWALBytes b)
    (b_walThreshold b) (b_audit b) (b_metrics b) (b_explorer b).

Definition set_topicWAL b (w : WAL) : Broker L :=
  mkBroker (b_topics b) (b_producers b) (b_consumers b) (b_auth b) (b_rateLimiter b) (b_msgWAL b)
    (b_walEntries b) (b_offsetWAL b) (b_commitCount b) w (b_pendingWALBytes b)
    (b_walThreshold b) (b_audit b) (b_metrics b) (b_explorer b).

Definition set_audit b (a : option Logger) : Broker L :=
  mkBroker (b_topics b) (b_producers b) (b_consumers b) (b_auth b) (b_rateLimiter b) (b_msgWAL b)
    (b_walEntries b) (b_offsetWAL b) (b_commitCount b) (b_topicWAL b) (b_pendingWALBytes b)
    (b_walThreshold b) a (b_metrics b) (b_explorer b).

Definition set_metrics b (m : Metrics) : Broker L :=
  mkBroker (b_topics b) (b_producers b) (b_consumers b) (b_auth b) (b_rateLimiter b) (b_msgWAL b)
    (b_walEntries b) (b_offsetWAL b) (b_commitCount b) (b_topicWAL b) (b_pendingWALBytes b)
    (b_walThreshold b) (b_audit b) m (b_explorer b).

(** [pendingWALBytes.Add]. *)
Definition add_pending b (n : Z) : Broker L :=
  mkBroker (b_topics b) (b_producers b) (b_consumers b) (b_auth b) (b_rateLimiter b) (b_msgWAL b)
    (b_walEntries b) (b_offsetWAL b) (b_commitCount b) (b_topicWAL b)
    (i64 (b_pendingWALBytes b + n)) (b_walThreshold b) (b_audit b) (b_metrics b) (b_explorer b).

(** [explorerHub.Publish]. *)
Definition tap b (e : TapEvent) : Broker L :=
  mkBroker (b_topics b) (b_producers b) (b_consumers b) (b_auth b) (b_rateLimiter b) (b_msgWAL b)
    (b_walEntries b) (b_offsetWAL b) (b_commitCount b) (b_topicWAL b) (b_pendingWALBytes b)
    (b_walThreshold b) (b_audit b) (b_metrics b) (b_explorer b ++ [e]).

End Setters.

(** ** What a handler meets *)

(** For one message: the outcome of its WAL append, what its publish meets,
    the clock, and how the dispatch runs. *)
Record MsgEnv := mkMsgEnv {
  mv_wal : WalIO;
  mv_pub : PubEnv;
  mv_now : Z;
  mv_order : list string;
  mv_corder : string → list string;
  mv_slow : string → Z → Consumer → Consumer;
}.

Definition fine_msg_env : MsgEnv :=
  mkMsgEnv wal_io_fine (mkPubEnv "" 0 [] []) 0 [] (λ _, []) (λ _ _ c, c).

(** [he_open] is what opening the directory of a partition gives, [he_walios]
    the outcomes of offset and topic WAL writes, [he_rounds] what the later
    rounds of a poll meet, [he_replay] the dispatch of the replayed messages. *)
Record HandlerEnv (L : Type) := mkHandlerEnv {
  he_conn : Z;
  he_remote : string;
  he_write : bool;
  he_now : Z;
  he_auditok : bool;
  he_msgs : list MsgEnv;
  he_rio : ReadIO;
  he_open : string → Z → result L seg_err;
  he_walios : list WalIO;
  he_rounds : list (ReadIO * L * bool);
  he_fails : list (option nat);
  he_replay : Message → MsgEnv;
}.
Arguments mkHandlerEnv {L} _ _ _ _ _ _ _ _ _ _ _ _.
Arguments he_conn {L} _.
Arguments he_remote {L} _.
Arguments he_write {L} _.
Arguments he_now {L} _.
Arguments he_auditok {L} _.
Arguments he_msgs {L} _.
Arguments he_rio {L} _.
Arguments he_open {L} _.
Arguments he_walios {L} _.
Arguments he_rounds {L} _.
Arguments he_fails {L} _.
Arguments he_replay {L} _.

(** ** What a handler answers *)

(** The text of an error reply: a constant, or the error it wraps. *)
Inductive reason :=
| Why (s : string)
| WhyTopic (e : topic_err)
| WhyPub (e : pub_err)
| WhyGroup (e : group_err)
| WhyWal (e : wal_err)
| WhyRead (offset : Z) (e : seg_err)
| WhySeg (e : seg_err)
| WhyMixed (first other : string)
| WhyOverload (total : Z)
| WhyUnknown (cmd : string)
| WhyWrite.

Inductive reply_body :=
| BError (code : string) (why : reason)
| BOK
| BPong
| BAuth (r : AuthResponse)
| BPublish (r : PublishResponse)
| BBatch (rs : list PublishResponse)
| BFetch (r : FetchResponse)
| BRaw (raw : bytes)
| BTopics (l : list (string * Z))
| BSeek (offsets : gmap string Z)
| BPush (f : PushFrame).

Record reply := mkReply {
  rp_RequestID : Z;
  rp_body : reply_body;
}.

(** The frames handed to the connection with the states after; a panic (a send
    on a closed channel); a handler still waiting. *)
Inductive outcome (L : Type) :=
| Replied (b : Broker L) (c : Conn) (out : list reply)
| Panicked
| Waiting.
Arguments Replied {L} _ _ _.
Arguments Panicked {L}.
Arguments Waiting {L}.

Definition ErrBadRequest : string := "BAD_REQUEST".
Definition ErrForbidden : string := "FORBIDDEN".

(** [strings.Contains]. *)
Definition str_contains (s sub : string) : bool :=
  match String.index 0 sub s with Some _ => true | None => false end.

Section Brokers.
Context {L : Type} `{LogStore L} `{Deflate}.
Implicit Type b : Broker L.
Implicit Type env : HandlerEnv L.

Definition send b (c : Conn) (f : Frame) (r : reply_body) : outcome L :=
  Replied b c [mkReply (fr_RequestID f) r].

Definition SendError b (c : Conn) (f : Frame) (code : string) (why : reason) : outcome L :=
  send b c f (BError code why).

Definition SendOK b (c : Conn) (f : Frame) : outcome L := send b c f BOK.

Definition Broker_logAudit env b (c : Conn) (evType topic : string) (success : bool)
    (errMsg : string) : Broker L :=
  match b_audit b with
  | None => b
  | Some l =>
      set_audit b (Some (Logger_Log (he_now env) (he_auditok env) l
        (mkEvent None evType (cn_clientID c) (he_remote env) topic success errMsg ∅)))
  end.

(** The refusal of every permission gate. *)
Definition forbid env b (c : Conn) (f : Frame) (topic what msg : string) : outcome L :=
  SendError (Broker_logAudit env b c EventForbidden topic false ("FORBIDDEN: " +:+ what)) c f
    ErrForbidden (Why msg).

(** ** Authentication *)

Definition identityPerms (id : Identity) : list string := RolePermissions (id_Role id).

Definition Broker_handleAuth env b (c : Conn) (f : Frame) : outcome L :=
  match Unmarshal f (mkAuthRequest "" "") with
  | None =>
      SendError (Broker_logAudit env b c EventAuth "" false "bad auth body") c f
        ErrBadRequest (Why "invalid auth body")
  | Some req =>
      match Authenticator_Authenticate (b_auth b) (ar_APIKey req) with
      | Error UnknownAPIKey =>
          let msg := "auth: unknown API key" in
          send (Broker_logAudit env b c EventAuth "" false msg) c f
            (BAuth (mkAuthResponse false msg []))
      | Ok id =>
          let perms := identityPerms id in
          let c := Conn_SetIdentity (Conn_SetAuth c (id_ClientID id) perms) id in
          send (Broker_logAudit env b c EventAuth "" true "") c f (BAuth (mkAuthResponse true "" perms))
      end
  end.

(** ** Topics *)

Definition topic_config (req : CreateTopicRequest) : TopicConfig :=
  mkTopicConfig (ct_Name req) (ct_Partitions req) (ct_ReplicationFactor req)
    (ct_RetentionHours req) 0 0 0 0 (ct_CompactionMode req).

(** The code of the reply to a failed creation. *)
Definition create_code (e : topic_err) : string :=
  match e with
  | TopicBrokerErr be => ErrorCode_string (be_Code be)
  | InvalidName _ => ErrBadRequest
  | _ => ErrorCode_string ErrInternal
  end.

Definition wal_io (ios : list WalIO) : WalIO := default wal_io_fine (head ios).

Definition Broker_handleCreateTopic env b (c : Conn) (f : Frame) : outcome L :=
  match Unmarshal f (mkCreateTopicRequest "" 0 0 0 "") with
  | None => SendError b c f ErrBadRequest (Why "invalid create-topic body")
  | Some req =>
      if bool_decide (ct_Name req = EmptyString)
      then SendError b c f ErrBadRequest (Why "topic name required")
      else if negb (Conn_Can c PermCreateTopic (ct_Name req))
      then forbid env b c f (ct_Name req) "create_topic" "insufficient permissions to create topic"
      else
        let req := mkCreateTopicRequest (ct_Name req)
          (if ct_Partitions req <=? 0 then 1 else ct_Partitions req)
          (if ct_ReplicationFactor req <=? 0 then 1 else ct_ReplicationFactor req)
          (ct_RetentionHours req) (ct_CompactionMode req) in
        match Manager_Create (he_open env (ct_Name req)) (b_topics b) (topic_config req) with
        | (m, Error e) => SendError (set_topics b m) c f (create_code e) (WhyTopic e)
        | (m, Ok _) =>
            let b := set_topics b m in
            let b := set_topicWAL b
              (TopicWAL_Append (wal_io (he_walios env)) (b_topicWAL b) (topic_config req)).1 in
            SendOK (Broker_logAudit env b c EventCreateTopic (ct_Name req) true "") c f
        end
  end.

Definition Broker_handleDeleteTopic env b (c : Conn) (f : Frame) : outcome L :=
  match Unmarshal f (mkDeleteTopicRequest "") with
  | None => SendError b c f ErrBadRequest (Why "invalid delete-topic body")
  | Some req =>
      if negb (Conn_Can c PermDeleteTopic (dt_Name req))
      then forbid env b c f (dt_Name req) "delete_topic" "insufficient permissions to delete topic"
      else
        match Manager_Delete (b_topics b) (dt_Name req) with
        | (m, Error e) =>
            SendError (set_topics b m) c f (ErrorCode_string ErrTopicNotFound) (WhyTopic e)
        | (m, Ok _) =>
            let b := set_topics b m in
            let b := set_topicWAL b
              (TopicWAL_Delete (wal_io (he_walios env)) (b_topicWAL b) (dt_Name req)).1 in
            SendOK (Broker_logAudit env b c EventDeleteTopic (dt_Name req) true "") c f
        end
  end.

(** The creation times listed are not part of the topics modelled. *)
Definition Broker_handleListTopics env b (c : Conn) (f : Frame) : outcome L :=
  if negb (Conn_Can c PermListTopics "")
  then forbid env b c f "" "list_topics" "insufficient permissions to list topics"
  else send b c f (BTopics ((λ cfg, (tc_Name cfg, tc_Partitions cfg)) <$> Manager_List (b_topics b))).

(** ** Publishing *)

Definition zero_PublishRequest : PublishRequest := mkPublishRequest "" "" [] ∅ 0 0 0 None.

(** [part, _ := b.partitioner.Assign(...)]: zero when it errs. *)
Definition Broker_assign b (topic key : string) : Broker L * Z :=
  let '(hp, r) := HashPartitioner_Assign (mg_partitioner (b_topics b)) topic key in
  (set_topics b (mg_with (b_topics b) (mg_topics (b_topics b)) hp),
   match r with Ok part => part | Error _ => 0 end).

(** The offset the partition log will assign next, when there is such a log. *)
Definition next_offset_of (m : Manager L) (topic : string) (part : Z) : option Z :=
  match Manager_Get m topic with
  | Error _ => None
  | Ok tp =>
      match Topic_PartitionLog tp part with
      | Error _ => None
      | Ok pl => Some (ls_next pl)
      end
  end.

Definition with_target (req : PublishRequest) (o : option Z) : PublishRequest :=
  mkPublishRequest (pr_Topic req) (pr_Key req) (pr_Payload req) (pr_Headers req)
    (pr_DeliveryMode req) (pr_SeqNum req) (pr_Codec req) o.

(** The request keeps the target it came with when there is no such log. *)
Definition capture_target b (req : PublishRequest) (part : Z) : PublishRequest :=
  match next_offset_of (b_topics b) (pr_Topic req) part with
  | Some o => with_target req (Some o)
  | None => req
  end.

(** The arguments of [b.producers.Publish]: no client id is passed. *)
Definition publish_args (req : PublishRequest) : PubArgs :=
  mkPubArgs (pr_Topic req) (pr_Key req) (pr_Payload req) (pr_Headers req)
    (DeliveryMode_of (pr_DeliveryMode req)) (pr_SeqNum req) (pr_Codec req) "".

Definition Broker_publish b (pe : PubEnv) (req : PublishRequest) :
    Broker L * result PublishResult pub_err :=
  let '(p, m, r) := Producer_Publish pe (b_producers b) (b_topics b) (publish_args req) in
  (set_topics (set_producers b p) m, r).

(** The message built for dispatch and tap. *)
Definition dispatched_message (now : Z) (topic : string) (req : PublishRequest) (r : PublishResult) :
    Message :=
  mkMessage (res_MessageID r) topic now (pr_Payload req) (pr_Headers req) (pr_Key req)
    (res_Partition r) (res_Offset r) 0.

Definition Broker_dispatch (mv : MsgEnv) b (msg : Message) : option (Broker L) :=
  set_consumers b <$>
    GroupManager_Dispatch (mv_now mv) (mv_order mv) (mv_corder mv) (mv_slow mv) (b_consumers b) msg.

(** The counters of a message published: the producer counted it before. *)
Definition count_published b (req : PublishRequest) : Broker L :=
  set_producers (set_metrics b (mt_published (b_metrics b) (zlen (pr_Payload req))))
    (incr_published (b_producers b)).

Definition Broker_handlePublish env b (c : Conn) (f : Frame) : outcome L :=
  match Unmarshal f zero_PublishRequest with
  | None => SendError b c f ErrBadRequest (Why "invalid publish body")
  | Some req =>
      if bool_decide (pr_Topic req = EmptyString)
      then SendError b c f ErrBadRequest (Why "topic required")
      else if negb (Conn_Can c PermPublish (pr_Topic req))
      then forbid env b c f (pr_Topic req) "publish" "insufficient permissions to publish"
      else
        let '(b, part) := Broker_assign b (pr_Topic req) (pr_Key req) in
        let '(rl, allowed) :=
          RateLimiter_Allow (he_now env) (b_rateLimiter b) (cn_clientID c) (pr_Topic req) in
        let b := set_rateLimiter b rl in
        if negb allowed
        then SendError b c f (ErrorCode_string ErrBrokerOverloaded) (Why "rate limit exceeded")
        else
          let req := capture_target b req part in
          match json_Marshal req with
          | None => SendError b c f (ErrorCode_string ErrInternal) (Why "wal marshal error")
          | Some walData =>
              let n := zlen walData in
              let b := add_pending b n in
              if (0 <? b_walThreshold b) && (b_walThreshold b <? b_pendingWALBytes b)
              then SendError (add_pending b (- n)) c f (ErrorCode_string ErrBrokerOverloaded)
                     (Why "broker WAL backpressure: too many pending writes")
              else
                let mv := default fine_msg_env (head (he_msgs env)) in
                match WAL_Append (mv_wal mv) (b_msgWAL b) walData with
                | (w, Error e) =>
                    SendError (add_pending (set_msgWAL b w) (- n)) c f
                      (ErrorCode_string ErrInternal) (WhyWal e)
                | (w, Ok _) =>
                    let b := set_msgWAL b w in
                    let b := set_metrics b (mt_logged (b_metrics b) n) in
                    let '(b, r) := Broker_publish b (mv_pub mv) req in
                    let b := add_pending b (- n) in
                    match r with
                    | Error e => SendError b c f (ErrorCode_string ErrInternal) (WhyPub e)
                    | Ok r =>
                        let b := count_published b req in
                        let msg := dispatched_message (mv_now mv) (pr_Topic req) req r in
                        match Broker_dispatch mv b msg with
                        | None => Panicked
                        | Some b =>
                            let b := tap b (mkTapEvent (pr_Topic req) (res_Partition r) (cn_clientID c) msg) in
                            let b := Broker_logAudit env b c EventPublish (pr_Topic req) true "" in
                            send b c f (BPublish (mkPublishResponse (res_MessageID r)
                              (res_Partition r) (res_Offset r)))
                        end
                    end
                end
          end
  end.

(** The first loop of a batch: one message after the other under its
    partition's lock.  The second component collects results and the requests
    as changed by the capture. *)
Fixpoint batch_publish (mvs : list MsgEnv) b (batchPending : Z) (reqs : list PublishRequest) :
    Broker L * result (list (PublishRequest * result PublishResult pub_err)) reason :=
  match reqs with
  | [] => (b, Ok [])
  | req :: reqs =>
      let mv := default fine_msg_env (head mvs) in
      let '(b, part) := Broker_assign b (pr_Topic req) (pr_Key req) in
      let req := capture_target b req part in
      match json_Marshal req with
      | None => (add_pending b (- batchPending), Error (Why "batch wal marshal error"))
      | Some walData =>
          let n := zlen walData in
          let b := add_pending b n in
          let batchPending := batchPending + n in
          match WAL_Append (mv_wal mv) (b_msgWAL b) walData with
          | (w, Error e) => (add_pending (set_msgWAL b w) (- batchPending), Error (WhyWal e))
          | (w, Ok _) =>
              let b := set_msgWAL b w in
              let b := set_metrics b (mt_logged (b_metrics b) n) in
              let '(b, r) := Broker_publish b (mv_pub mv) req in
              let b := add_pending b (- n) in
              match batch_publish (tail mvs) b (batchPending - n) reqs with
              | (b, Error e) => (b, Error e)
              | (b, Ok rs) => (b, Ok ((req, r) :: rs))
              end
          end
      end
  end.

(** The second loop: dispatch, and a zero response for a failed message. *)
Fixpoint batch_dispatch (mvs : list MsgEnv) (topic clientID : string) b
    (rs : list (PublishRequest * result PublishResult pub_err)) :
    option (Broker L * list PublishResponse) :=
  match rs with
  | [] => Some (b, [])
  | (req, Error _) :: rs =>
      match batch_dispatch (tail mvs) topic clientID b rs with
      | None => None
      | Some (b, out) => Some (b, mkPublishResponse "" 0 0 :: out)
      end
  | (req, Ok r) :: rs =>
      let mv := default fine_msg_env (head mvs) in
      let msg := dispatched_message (mv_now mv) topic req r in
      match Broker_dispatch mv b msg with
      | None => None
      | Some b =>
          let b := count_published (tap b (mkTapEvent topic (res_Partition r) clientID msg)) req in
          match batch_dispatch (tail mvs) topic clientID b rs with
          | None => None
          | Some (b, out) =>
              Some (b, mkPublishResponse (res_MessageID r) (res_Partition r) (res_Offset r) :: out)
          end
      end
  end.

(** The topic of the first message that has another one. *)
Definition mixed_topic (first : string) (ms : list PublishRequest) : option string :=
  (pr_Topic ∘ snd) <$> list_find (λ m, pr_Topic m ≠ first) ms.

Definition total_payload (ms : list PublishRequest) : Z :=
  foldl (λ n m, n + zlen (pr_Payload m)) 0 ms.

Definition Broker_handleBatchPublish env b (c : Conn) (f : Frame) : outcome L :=
  match Unmarshal f (mkBatchPublishRequest []) with
  | None => SendError b c f ErrBadRequest (Why "invalid batch-publish body")
  | Some (mkBatchPublishRequest []) => SendError b c f ErrBadRequest (Why "batch is empty")
  | Some (mkBatchPublishRequest (m0 :: ms)) =>
      let firstTopic := pr_Topic m0 in
      match mixed_topic firstTopic ms with
      | Some other => SendError b c f ErrBadRequest (WhyMixed firstTopic other)
      | None =>
          if negb (Conn_Can c PermPublish firstTopic)
          then forbid env b c f firstTopic "publish" "insufficient permissions to publish"
          else
            let '(rl, allowed) :=
              RateLimiter_Allow (he_now env) (b_rateLimiter b) (cn_clientID c) firstTopic in
            let b := set_rateLimiter b rl in
            if negb allowed
            then SendError b c f (ErrorCode_string ErrBrokerOverloaded) (Why "rate limit exceeded")
            else
              let total := total_payload (m0 :: ms) in
              if (0 <? b_walThreshold b) && (b_walThreshold b <? b_pendingWALBytes b + total)
              then SendError b c f (ErrorCode_string ErrBrokerOverloaded) (WhyOverload total)
              else
                match batch_publish (he_msgs env) b 0 (m0 :: ms) with
                | (b, Error e) => SendError b c f (ErrorCode_string ErrInternal) e
                | (b, Ok rs) =>
                    match batch_dispatch (he_msgs env) firstTopic (cn_clientID c) b rs with
                    | None => Panicked
                    | Some (b, out) => send b c f (BBatch out)
                    end
                end
      end
  end.

End Brokers.
