(* ===== verification/BrokerConsumer.v ===== *)
(** * The broker's consumer side: [internal/broker/handlers_consumer.go], [handlers_seek.go]

    Subscribing and the replay to a new group, the push delivery loop, fetch,
    offset commits, acknowledgements, seeking and resetting. *)

From S2P Require Import Prelude GoLib Json Types Protocol WireJson Record Segment PartitionLog.
From S2P Require Import Wal WalStores Partition Topic Dedup Producer DeadLetter Consumer.
From S2P Require Import AuditLog RateLimit Auth Broker.

Local Open Scope Z_scope.

Section BrokerConsumers.
Context {L : Type} `{LogStore L} `{Deflate}.
Implicit Type b : Broker L.
Implicit Type env : HandlerEnv L.

(** ** Subscribing *)

Definition zero_SubscribeRequest : SubscribeRequest := mkSubscribeRequest "" "" "" false.

(** A change made through the pointer to a subscribed consumer. *)
Definition update_consumer (g : GroupManager) (group topic cid : string) (fn : Consumer → Consumer) :
    GroupManager :=
  gm_with g
    (alter (λ gr, gr_with gr (alter fn cid (gr_consumers gr))) (groupKey group topic) (gm_groups g))
    (gm_offsets g) (gm_dlq g).

Definition find_consumer (g : GroupManager) (group topic cid : string) : option Consumer :=
  gr ← gm_groups g !! groupKey group topic; gr_consumers gr !! cid.

(** [strings.Contains(err.Error(), "invalid group name")]: the text of the
    other error quotes the consumer id. *)
Definition says_invalid_group (e : group_err) : bool :=
  match e with
  | InvalidGroupName _ => true
  | AlreadyInGroup cid _ | NotInGroup cid _ => str_contains cid "invalid group name"
  | GroupNotFound group _ => str_contains group "invalid group name"
  end.

(** The messages of one read, dispatched in order. *)
Fixpoint dispatch_read env (g : GroupManager) (group topic : string) (p : Z) (msgs : list Message) :
    option GroupManager :=
  match msgs with
  | [] => Some g
  | msg :: msgs =>
      let mv := he_replay env msg in
      let key := groupKey group topic in
      match GroupManager_DispatchToGroup (mv_now mv) (mv_corder mv key) (mv_slow mv key) g group topic p
              (Some msg) with
      | None => None
      | Some (g, _) => dispatch_read env g group topic p msgs
      end
  end.

(** The reads of one partition, a hundred messages at a time. *)
Fixpoint replay_partition (fuel : nat) env (g : GroupManager) (group topic : string) (p : Z) (pl : L)
    (offset : Z) : option GroupManager :=
  match fuel with
  | O => Some g
  | S fuel =>
      match ls_read (he_rio env) pl offset 100 with
      | Error _ => Some g
      | Ok msgs =>
          match last msgs with
          | None => Some g
          | Some lst =>
              match dispatch_read env g group topic p msgs with
              | None => None
              | Some g => replay_partition fuel env g group topic p pl (i64 (msg_Offset lst + 1))
              end
          end
      end
  end.

(** Every round moves past at least one offset below the next one. *)
Definition replay_fuel (pl : L) : nat := S (Z.to_nat (ls_next pl)).

Fixpoint Broker_replayToConsumer env (g : GroupManager) (tp : Topic L) (group topic : string)
    (ps : list Z) : option GroupManager :=
  match ps with
  | [] => Some g
  | p :: ps =>
      match Topic_PartitionLog tp p with
      | Error _ => Broker_replayToConsumer env g tp group topic ps
      | Ok pl =>
          match replay_partition (replay_fuel pl) env g group topic p pl 0 with
          | None => None
          | Some g => Broker_replayToConsumer env g tp group topic ps
          end
      end
  end.

Definition Broker_handleSubscribe env b (c : Conn) (f : Frame) : outcome L :=
  match Unmarshal f zero_SubscribeRequest with
  | None => SendError b c f ErrBadRequest (Why "invalid subscribe body")
  | Some req =>
      let topic := sr_Topic req in
      if negb (Conn_Can c PermSubscribe topic)
      then forbid env b c f topic "subscribe" "insufficient permissions to subscribe"
      else
        match Manager_Get (b_topics b) topic with
        | Error e => SendError b c f (ErrorCode_string ErrTopicNotFound) (WhyTopic e)
        | Ok tp =>
            let partCount := i32 (tc_Partitions (Topic_Config tp)) in
            match GroupManager_Subscribe (he_now env) (b_consumers b) (sr_Group req) (sr_ConsumerID req)
                    (cn_clientID c) topic partCount with
            | (g, Error e) =>
                SendError (set_consumers b g) c f
                  (if says_invalid_group e then ErrBadRequest else ErrorCode_string ErrInternal)
                  (WhyGroup e)
            | (g, Ok _) =>
                let b := set_consumers b g in
                if sr_Push req then
                  let g := update_consumer g (sr_Group req) topic (sr_ConsumerID req)
                             (λ cs, Consumer_SetSink cs (Some (he_conn env))) in
                  let b := Broker_logAudit env (set_consumers b g) c EventSubscribe topic true "" in
                  if negb (he_write env) then SendOK b c f
                  else if GroupManager_HasCommittedOffset g (sr_Group req) topic 0 then SendOK b c f
                  else
                    match Broker_replayToConsumer env g tp (sr_Group req) topic (seqZ 0 partCount) with
                    | None => Panicked
                    | Some g => SendOK (set_consumers b g) c f
                    end
                else SendOK (Broker_logAudit env b c EventSubscribe topic true "") c f
            end
        end
  end.

(** [Unsubscribe] closes the consumer's channel. *)
Definition Broker_handleUnsubscribe env b (c : Conn) (f : Frame) : outcome L :=
  match Unmarshal f zero_SubscribeRequest with
  | None => SendError b c f ErrBadRequest (Why "invalid unsubscribe body")
  | Some req =>
      match GroupManager_Unsubscribe (he_now env) (b_consumers b) (sr_Group req) (sr_ConsumerID req)
              (sr_Topic req) with
      | None => Panicked
      | Some g => SendOK (set_consumers b g) c f
      end
  end.

(** ** The push delivery loop *)

Definition chan_pop (ch : Chan) : option (Message * Chan) :=
  match ch_buf ch with
  | [] => None
  | m :: buf => Some (m, mkChan buf (ch_cap ch) (ch_closed ch))
  end.

(** The consumer a loop points to: still the member of its group under its id,
    or one that has left the group and that only the loop still reads; another
    consumer may have the id by then. *)
Inductive push_ref :=
| Joined
| Departed (c : Consumer).

Definition push_deref (g : GroupManager) (group topic cid : string) (r : push_ref) : option Consumer :=
  match r with
  | Joined => find_consumer g group topic cid
  | Departed c => Some c
  end.

(** A change made through that pointer. *)
Definition push_update (g : GroupManager) (group topic cid : string) (r : push_ref)
    (fn : Consumer → Consumer) : GroupManager * push_ref :=
  match r with
  | Joined => (update_consumer g group topic cid fn, Joined)
  | Departed c => (g, Departed (fn c))
  end.

Definition push_full (g : GroupManager) (group topic cid : string) (r : push_ref) : bool :=
  match c ← push_deref g group topic cid r; cs_pushCh c with
  | Some ch => zlen (ch_buf ch) =? ch_cap ch
  | None => false
  end.

(** [PushWaits]: no message; [PushSent]: the frame written; [PushDropped]: to
    the dead-letter queue; [PushEnds]: the loop has ended, with the message it
    had taken from the channel and neither written nor dead-lettered. *)
Inductive push_event :=
| PushWaits
| PushSent (f : PushFrame)
| PushDropped (m : Message)
| PushEnds (lost : option Message).

(** The deferred calls when the loop ends: the sink is cleared through the
    pointer, the subscription is dropped by the names. *)
Definition push_exit (now : Z) (g : GroupManager) (group cid topic : string) (r : push_ref)
    (lost : option Message) : option (GroupManager * push_ref * push_event) :=
  let '(g, r) := push_update g group topic cid r (λ c, Consumer_SetSink c None) in
  (λ g, (g, r, PushEnds lost)) <$> GroupManager_Unsubscribe now g group cid topic.

(** One turn of the loop.  [stop] tells whether the first [select] takes the
    end of the consumer or of the broker, [stop_paused] whether the one of the
    pause does; [others1] and [others2] are what the other goroutines do to
    the groups and to the loop's consumer before the test of the channel and
    during the pause. *)
Definition pushDelivery_turn (now : Z) (stop stop_paused write_ok : bool)
    (others1 others2 : GroupManager * push_ref → GroupManager * push_ref) (pause : string)
    (g : GroupManager) (group cid topic : string) (r : push_ref) :
    option (GroupManager * push_ref * push_event) :=
  if stop then push_exit now g group cid topic r None
  else
    match c ← push_deref g group topic cid r; cs_pushCh c with
    | None => Some (g, r, PushWaits)
    | Some ch =>
        match chan_pop ch with
        | None => if ch_closed ch then push_exit now g group cid topic r None else Some (g, r, PushWaits)
        | Some (msg, ch') =>
            let '(g, r) := others1 (push_update g group topic cid r (λ c, with_pushCh c ch')) in
            let write := λ g r,
              if write_ok
              then Some (g, r, PushSent (mkPushFrame (msg_Topic msg) group cid (msg_Partition msg) [msg]))
              else push_exit now g group cid topic r (Some msg) in
            if push_full g group topic cid r then
              let '(g, r) := others2 (g, r) in
              if stop_paused then push_exit now g group cid topic r (Some msg)
              else if push_full g group topic cid r
              then
                Some (gm_with g (gm_groups g) (gm_offsets g)
                        (DLQ_Push now (gm_dlq g)
                           (mkDLQEntry (Some msg) ""
                              ("push channel full after " +:+ pause +:+ " pause, consumer " +:+ cid) 1 0)),
                      r, PushDropped msg)
              else write g r
            else write g r
        end
    end.

(** ** Fetching *)

Definition zero_FetchRequest : FetchRequest := mkFetchRequest "" "" 0 0 0 false.

Definition fetch_max (n : Z) : Z := if (n <=? 0) || (1000 <? n) then 100 else n.

Definition payload_bytes (msgs : list Message) : Z :=
  foldl (λ n m, u64 (n + zlen (msg_Payload m))) 0 msgs.

Definition max_raw_bytes : Z := 4 * 1024 * 1024.

(** The messages, or the error, of either way to read; [None] while a poll
    waits. *)
Definition fetch_messages env b (req : FetchRequest) (pl : L) :
    option (result (list Message) poll_err) :=
  let maxCount := fetch_max (fq_MaxCount req) in
  if bool_decide (fq_Group req = EmptyString) then
    Some (match ls_read (he_rio env) pl (fq_Offset req) maxCount with
          | Ok msgs => Ok msgs
          | Error e => Error (PollRead e)
          end)
  else
    GroupManager_PollPartitionLog (b_consumers b) (fq_Group req) (fq_Topic req) (fq_Partition req)
      maxCount ((he_rio env, pl, false) :: he_rounds env).

Definition Broker_handleFetch env b (c : Conn) (f : Frame) : outcome L :=
  match Unmarshal f zero_FetchRequest with
  | None => SendError b c f ErrBadRequest (Why "invalid fetch body")
  | Some req =>
      let topic := fq_Topic req in
      let response := λ msgs raw n, mkFetchResponse topic (fq_Partition req) msgs raw n in
      if negb (Conn_Can c PermFetch topic)
      then forbid env b c f topic "fetch" "insufficient permissions to fetch"
      else
        match Manager_Get (b_topics b) topic with
        | Error e => SendError b c f (ErrorCode_string ErrTopicNotFound) (WhyTopic e)
        | Ok tp =>
            match Topic_PartitionLog tp (fq_Partition req) with
            | Error e => SendError b c f (ErrorCode_string ErrPartitionNotFound) (WhyTopic e)
            | Ok pl =>
                match fetch_messages env b req pl with
                | None => Waiting
                | Some (Error PollCtx) => send b c f (BFetch (response [] false 0))
                | Some (Error (PollRead e)) =>
                    SendError b c f (ErrorCode_string ErrInternal) (WhySeg e)
                | Some (Ok msgs) =>
                    let b := set_metrics b
                      (mt_consumed (b_metrics b) (payload_bytes msgs) (zlen msgs)) in
                    let plain := mkReply (fr_RequestID f) (BFetch (response msgs false 0)) in
                    if fq_RawTransfer req then
                      let '(raw, ok) :=
                        ls_send (he_rio env) (he_fails env) pl (fq_Offset req) max_raw_bytes in
                      let streamed := mkReply (fr_RequestID f) (BRaw raw) in
                      if ok
                      then Replied b c [streamed; mkReply (fr_RequestID f)
                                          (BFetch (response [] true (zlen raw)))]
                      else Replied b c [streamed; plain]
                    else Replied b c [plain]
                end
            end
        end
  end.

(** ** Offsets *)

Definition Broker_handleCommitOffset env b (c : Conn) (f : Frame) : outcome L :=
  match Unmarshal f (mkCommitOffsetRequest "" "" "" 0 0) with
  | None => SendError b c f ErrBadRequest (Why "invalid commit-offset body")
  | Some req =>
      match GroupManager_CommitOffset (b_consumers b) (co_Group req) (co_ConsumerID req)
              (co_Topic req) (co_Partition req) (co_Offset req) with
      | (g, Error e) => SendError (set_consumers b g) c f (ErrorCode_string ErrInternal) (WhyGroup e)
      | (g, Ok _) =>
          let b := set_consumers b g in
          let b := set_offsetWAL b (OffsetWAL_Commit (wal_io (he_walios env)) (b_offsetWAL b)
                     (co_Group req) (co_Topic req) (co_Partition req) (co_Offset req)).1 in
          SendOK (set_commitCount b (b_commitCount b + 1)) c f
      end
  end.

(** The offset is stored under the consumer's id. *)
Definition Broker_handleAck b (c : Conn) (f : Frame) : outcome L :=
  if negb (cn_authed c)
  then SendError b c f (ErrorCode_string ErrUnauthorized) (Why "authentication required")
  else
    match Unmarshal f (mkAckRequest "" "" 0 0) with
    | None => SendError b c f ErrBadRequest (Why "invalid ack body")
    | Some req =>
        let b := set_consumers b (GroupManager_SeekGroupOffset (b_consumers b) (ack_ConsumerID req)
                   (ack_Topic req) (ack_Partition req) (ack_Offset req)) in
        SendOK (set_metrics b (mt_acked (b_metrics b))) c f
    end.

(** Redelivery to the group named, or to all groups when none is. *)
Definition nack_requeue (mv : MsgEnv) (g : GroupManager) (req : NackRequest) (msg : option Message) :
    option GroupManager :=
  match msg with
  | None => Some g
  | Some m =>
      if bool_decide (nk_Group req = EmptyString)
      then GroupManager_Dispatch (mv_now mv) (mv_order mv) (mv_corder mv) (mv_slow mv) g m
      else
        let key := groupKey (nk_Group req) (nk_Topic req) in
        fst <$> GroupManager_DispatchToGroup (mv_now mv) (mv_corder mv key) (mv_slow mv key) g
                  (nk_Group req) (nk_Topic req) (nk_Partition req) (Some m)
  end.

Definition nack_entry (req : NackRequest) (msg : option Message) : DLQEntry :=
  mkDLQEntry msg "" ("nack from consumer " +:+ nk_ConsumerID req) 1 0.

Definition Broker_handleNack env b (c : Conn) (f : Frame) : outcome L :=
  if negb (cn_authed c)
  then SendError b c f (ErrorCode_string ErrUnauthorized) (Why "authentication required")
  else
    match Unmarshal f (mkNackRequest "" "" 0 0 "" false) with
    | None => SendError b c f ErrBadRequest (Why "invalid nack body")
    | Some req =>
        match Manager_Get (b_topics b) (nk_Topic req) with
        | Error e => SendError b c f (ErrorCode_string ErrTopicNotFound) (WhyTopic e)
        | Ok tp =>
            match Topic_PartitionLog tp (nk_Partition req) with
            | Error e => SendError b c f (ErrorCode_string ErrPartitionNotFound) (WhyTopic e)
            | Ok pl =>
                match ls_read (he_rio env) pl (nk_Offset req) 1 with
                | Error e => SendError b c f (ErrorCode_string ErrInternal) (WhyRead (nk_Offset req) e)
                | Ok msgs =>
                    let msg := head msgs in
                    let b := set_metrics b (mt_nacked (b_metrics b)) in
                    if nk_Requeue req then
                      let mv := default fine_msg_env (head (he_msgs env)) in
                      match nack_requeue mv (b_consumers b) req msg with
                      | None => Panicked
                      | Some g => SendOK (set_consumers b g) c f
                      end
                    else
                      let g := b_consumers b in
                      let q := DLQ_Push (he_now env) (gm_dlq g) (nack_entry req msg) in
                      SendOK (set_consumers b (gm_with g (gm_groups g) (gm_offsets g) q)) c f
                end
            end
        end
    end.

(** ** Seeking *)

Definition zero_SeekRequest : SeekRequest := mkSeekRequest "" "" 0 false None.

(** The switch: the offset stored for one partition. *)
Definition seek_offset env (req : SeekRequest) (pl : L) : Z :=
  match sk_Offset req with
  | Some o =>
      if 0 <=? o then (if o - 1 <? -1 then -1 else o - 1)
      else if sk_ToEnd req then (if 0 <? ls_next pl then ls_next pl - 1 else 0)
      else if sk_TimestampNs req =? 0 then -1
      else let found := ls_offset_for (he_rio env) pl (sk_TimestampNs req) in
           if 0 <? found then found - 1 else -1
  | None =>
      if sk_ToEnd req then (if 0 <? ls_next pl then ls_next pl - 1 else 0)
      else if sk_TimestampNs req =? 0 then -1
      else let found := ls_offset_for (he_rio env) pl (sk_TimestampNs req) in
           if 0 <? found then found - 1 else -1
  end.

(** Both calls that store the new offset of a partition. *)
Definition store_offset (io : WalIO) b (group topic : string) (p newOff : Z) : Broker L :=
  let b := set_consumers b (GroupManager_SeekGroupOffset (b_consumers b) group topic p newOff) in
  set_offsetWAL b (OffsetWAL_Commit io (b_offsetWAL b) group topic p newOff).1.

Fixpoint seek_loop env (ios : list WalIO) b (tp : Topic L) (req : SeekRequest) (ps : list Z)
    (offsets : gmap string Z) : Broker L * gmap string Z :=
  match ps with
  | [] => (b, offsets)
  | p :: ps =>
      match Topic_PartitionLog tp (i32 p) with
      | Error _ => seek_loop env ios b tp req ps offsets
      | Ok pl =>
          let newOff := seek_offset env req pl in
          let b := store_offset (wal_io ios) b (sk_Group req) (sk_Topic req) (i32 p) newOff in
          let reportOff := if newOff + 1 <? 0 then 0 else newOff + 1 in
          seek_loop env (tail ios) b tp req ps (<[fmt_d p := reportOff]> offsets)
      end
  end.

Definition Broker_handleSeek env b (c : Conn) (f : Frame) : outcome L :=
  match Unmarshal f zero_SeekRequest with
  | None => SendError b c f ErrBadRequest (Why "invalid seek body")
  | Some req =>
      let topic := sk_Topic req in
      if bool_decide (topic = EmptyString) || bool_decide (sk_Group req = EmptyString)
      then SendError b c f ErrBadRequest (Why "topic and group are required")
      else if negb (Conn_Can c PermSeek topic)
      then forbid env b c f topic "seek" "insufficient permissions to seek"
      else
        match Manager_Get (b_topics b) topic with
        | Error e => SendError b c f (ErrorCode_string ErrTopicNotFound) (WhyTopic e)
        | Ok tp =>
            let '(b, offsets) :=
              seek_loop env (he_walios env) b tp req (seqZ 0 (tc_Partitions (Topic_Config tp))) ∅ in
            send (Broker_logAudit env b c EventSeek topic true "") c f (BSeek offsets)
        end
  end.

Fixpoint reset_loop (ios : list WalIO) b (group topic : string) (ps : list Z) : Broker L :=
  match ps with
  | [] => b
  | p :: ps => reset_loop (tail ios) (store_offset (wal_io ios) b group topic (i32 p) (-1)) group topic ps
  end.

Definition Broker_handleResetGroup env b (c : Conn) (f : Frame) : outcome L :=
  match Unmarshal f (mkResetGroupRequest "" "") with
  | None => SendError b c f ErrBadRequest (Why "invalid reset-group body")
  | Some req =>
      let topic := rg_Topic req in
      if bool_decide (topic = EmptyString) || bool_decide (rg_Group req = EmptyString)
      then SendError b c f ErrBadRequest (Why "topic and group are required")
      else if negb (Conn_Can c PermSeek topic)
      then forbid env b c f topic "reset_group" "insufficient permissions to reset group"
      else
        match Manager_Get (b_topics b) topic with
        | Error e => SendError b c f (ErrorCode_string ErrTopicNotFound) (WhyTopic e)
        | Ok tp =>
            SendOK (reset_loop (he_walios env) b (rg_Group req) topic
                      (seqZ 0 (tc_Partitions (Topic_Config tp)))) c f
        end
  end.

End BrokerConsumers.
