(* ===== verification/BrokerDispatch.v ===== *)
(** * The broker's frame loop and life cycle: [internal/broker/handlers_dispatch.go],
    [checkpoint.go], [lifecycle.go] and [New] and [Start] of [broker.go] *)

From S2P Require Import Prelude GoLib Json Types Protocol WireJson Record Segment PartitionLog.
From S2P Require Import Wal WalStores Partition Topic Dedup Producer DeadLetter Consumer.
From S2P Require Import AuditLog RateLimit Auth Broker BrokerConsumer.

Local Open Scope Z_scope.

Section BrokerDispatches.
Context {L : Type} `{LogStore L} `{Deflate}.
Implicit Type b : Broker L.
Implicit Type env : HandlerEnv L.

(** ** Frames *)

Definition Broker_dispatch_frame env b (c : Conn) (f : Frame) : outcome L :=
  let cmd := fr_Command f in
  if cmd =? CmdAuth then Broker_handleAuth env b c f
  else if cmd =? CmdPing then send b c f BPong
  else if cmd =? CmdCreateTopic then Broker_handleCreateTopic env b c f
  else if cmd =? CmdDeleteTopic then Broker_handleDeleteTopic env b c f
  else if cmd =? CmdListTopics then Broker_handleListTopics env b c f
  else if cmd =? CmdPublish then Broker_handlePublish env b c f
  else if cmd =? CmdBatchPublish then Broker_handleBatchPublish env b c f
  else if cmd =? CmdSubscribe then Broker_handleSubscribe env b c f
  else if cmd =? CmdUnsubscribe then Broker_handleUnsubscribe env b c f
  else if cmd =? CmdFetch then Broker_handleFetch env b c f
  else if cmd =? CmdCommitOffset then Broker_handleCommitOffset env b c f
  else if cmd =? CmdAck then Broker_handleAck b c f
  else if cmd =? CmdNack then Broker_handleNack env b c f
  else if cmd =? CmdSeek then Broker_handleSeek env b c f
  else if cmd =? CmdResetGroup then Broker_handleResetGroup env b c f
  else SendError b c f "UNKNOWN_COMMAND" (WhyUnknown (Command_String cmd)).

(** The connection at the start of [Handle]. *)
Definition Broker_Handle_open (authEnabled : bool) (c : Conn) : Conn :=
  if authEnabled then c
  else Conn_SetIdentity (Conn_SetAuth c "anonymous" []) anonymous_admin.

(** One frame of the loop of [Handle]; [authEnabled] is the setting read when
    the connection was opened.  A reply that cannot be written is followed by
    an error reply. *)
Definition Broker_Handle_frame (authEnabled : bool) env b (c : Conn) (f : Frame) : outcome L :=
  if authEnabled && negb (cn_authed c) && negb (fr_Command f =? CmdAuth) && negb (fr_Command f =? CmdPing)
  then SendError b c f (ErrorCode_string ErrUnauthorized) (Why "authentication required")
  else
    match Broker_dispatch_frame env b c f with
    | Replied b c out =>
        if he_write env then Replied b c out
        else Replied b c
               (out ++ [mkReply (fr_RequestID f) (BError (ErrorCode_string ErrInternal) WhyWrite)])
    | o => o
    end.

(** A connection's frames, one after the other. *)
Fixpoint Broker_Handle (authEnabled : bool) b (c : Conn) (calls : list (HandlerEnv L * Frame)) :
    outcome L :=
  match calls with
  | [] => Replied b c []
  | (env, f) :: calls =>
      match Broker_Handle_frame authEnabled env b c f with
      | Replied b c out =>
          match Broker_Handle authEnabled b c calls with
          | Replied b c out' => Replied b c (out ++ out')
          | o => o
          end
      | o => o
      end
  end.

(** ** Offset checkpoints *)

(** [order] is the order in which the snapshot map is ranged over. *)
Definition Broker_runOffsetCheckpoint (trunc_ok seek_ok : bool) (ios : list WalIO)
    (order : list (string * Z)) b : Broker L :=
  match order with
  | [] => b
  | _ =>
      match OffsetWAL_Checkpoint trunc_ok seek_ok ios (b_offsetWAL b) order with
      | (w, Error _) => set_offsetWAL b w
      | (w, Ok _) => set_commitCount (set_offsetWAL b w) 0
      end
  end.

(** The polled trigger of the checkpoint loop. *)
Definition Broker_checkpoint_due b : bool := 1000 <=? b_commitCount b.

(** ** Start *)

(** [New], with the WAL files as they are found. *)
Definition NewBroker (uuid : string) (walThreshold : Z) (retention : option RetentionConfig)
    (auth : AuthConfig) (limits : option RateLimitConfig) (audit : bool)
    (msgFile offsetFile topicFile : bytes) : Broker L :=
  let '(msgWAL, entries) := wal_open msgFile in
  mkBroker (mkManager ∅ NewHashPartitioner retention) (NewProducer uuid 3 (200 * 10 ^ 6))
    (NewGroupManager NewOffsetStore (NewDLQ 10000) 3 (500 * 10 ^ 6) 512)
    (NewAuthenticator auth) (NewRateLimiter limits) msgWAL entries (OpenOffsetWAL offsetFile) 0
    (OpenTopicWAL topicFile) 0 walThreshold (if audit then Some NewLogger else None) zero_metrics [].

Definition Broker_replayOffsetWAL b : Broker L :=
  let '(w, restored) := OffsetWAL_Replay (b_offsetWAL b) in
  let g := b_consumers b in
  set_offsetWAL (set_consumers b
    (gm_with g (gm_groups g) (OffsetStore_Restore (gm_offsets g) restored) (gm_dlq g))) w.

(** [order] is the order in which the created topics are ranged over. *)
Definition Broker_replayTopicWAL (open : string → Z → result L seg_err)
    (order : gmap string TopicConfig → list TopicConfig) b : Broker L :=
  let '(creates, deletes) := TopicWAL_Replay (b_topicWAL b) in
  let m := foldl (λ m name, (Manager_Delete m name).1) (b_topics b) deletes in
  set_topics b (foldl (λ m cfg, (Manager_Create (open (tc_Name cfg)) m cfg).1) m (order creates)).

(** The test that an entry has been written before the crash. *)
Definition already_written b (req : PublishRequest) : Broker L * bool :=
  match pr_TargetOffset req with
  | None => (b, false)
  | Some target =>
      match Manager_Get (b_topics b) (pr_Topic req) with
      | Error _ => (b, false)
      | Ok tp =>
          let '(b, part) := Broker_assign b (pr_Topic req) (pr_Key req) in
          (b, match Topic_PartitionLog tp part with
              | Error _ => false
              | Ok pl => target <? ls_next pl
              end)
      end
  end.

(** One entry of the message WAL; [pe] is what its publish would meet. *)
Definition replay_entry (pe : PubEnv) b (e : WalEntry) : Broker L :=
  match json_Unmarshal (A := PublishRequest) (we_Data e) with
  | None => b
  | Some req =>
      let '(b, written) := already_written b req in
      if written : bool then b else (Broker_publish b pe req).1
  end.

Fixpoint replay_entries (pes : list PubEnv) b (es : list WalEntry) : Broker L :=
  match es with
  | [] => b
  | e :: es => replay_entries (tail pes) (replay_entry (default (mkPubEnv "" 0 [] []) (head pes)) b e) es
  end.

Definition Broker_replayMessageWAL (pes : list PubEnv) b : Broker L :=
  match b_walEntries b with
  | [] => b
  | es => set_walEntries (replay_entries pes b es) []
  end.

(** [Start] up to the point where connections are accepted. *)
Definition Broker_Start (open : string → Z → result L seg_err)
    (order : gmap string TopicConfig → list TopicConfig) (pes : list PubEnv) b : Broker L :=
  let b := Broker_replayOffsetWAL b in
  let b := Broker_replayTopicWAL open order b in
  let b := Broker_replayMessageWAL pes b in
  set_msgWAL b (WAL_Truncate true true [] (b_msgWAL b) []).1.

End BrokerDispatches.

(** ** A concrete broker

    One node over logs that are lists, with the topic [orders] of as many
    partitions as there are logs. *)

Definition demo_broker (ls : list (list Message)) : Broker (list Message) :=
  mkBroker (demo_mgr ls) (NewProducer "u" 3 100) (NewGroupManager NewOffsetStore (NewDLQ 10) 1 0 8)
    (NewAuthenticator (mkAuthConfig true [])) (NewRateLimiter None) (mkWAL [] 0) []
    (mkOffsetWAL (mkWAL [] 0) 0) 0 (mkWAL [] 0) 0 0 (Some NewLogger) zero_metrics [].

Definition demo_henv : HandlerEnv (list Message) :=
  mkHandlerEnv 1 "10.0.0.1:4000" true 5 true [] rio_fine (λ _, demo_open) [] [] []
    (λ _, fine_msg_env).

(** A connection authenticated with a role. *)
Definition demo_conn (role : string) : Conn :=
  mkConn true "client" (RolePermissions role) (Some (mkIdentity "client" role [])).

(** A frame with the JSON of a request. *)
Definition demo_frame `{JsonCodec A} (cmd : Z) (req : A) : Frame :=
  mkFrame cmd 7 (default [] (json_Marshal req)).

Definition demo_request (key payload : string) : PublishRequest :=
  mkPublishRequest "orders" key (bytes_of_string payload) ∅ 1 0 0 None.
