(* ===== verification/BrokerAuthz.v ===== *)
(** * Authorization of the broker's frames

    What permission each command asks for, that a frame without it changes
    nothing but the audit log, and that a connection that may not publish,
    create or delete never changes a log, whatever frames it sends. *)

From S2P Require Import Prelude GoLib Json Types Protocol WireJson Record Segment PartitionLog.
From S2P Require Import Wal WalStores Partition Topic Dedup Producer DeadLetter Consumer.
From S2P Require Import AuditLog RateLimit Auth Broker BrokerConsumer BrokerDispatch.

Local Open Scope Z_scope.

Section Authz.
Context {L : Type} `{LogStore L} `{Deflate}.
Implicit Type b : Broker L.
Implicit Type env : HandlerEnv L.

(** ** The permission a frame needs *)

(** The permission and topic of the gate a well-formed request meets; [None]
    when the command has no gate or the request is refused before it. *)
Definition required (f : Frame) : option (string * string) :=
  let cmd := fr_Command f in
  if cmd =? CmdCreateTopic then
    req ← Unmarshal f (mkCreateTopicRequest "" 0 0 0 "");
    if bool_decide (ct_Name req = EmptyString) then None else Some (PermCreateTopic, ct_Name req)
  else if cmd =? CmdDeleteTopic then
    req ← Unmarshal f (mkDeleteTopicRequest ""); Some (PermDeleteTopic, dt_Name req)
  else if cmd =? CmdListTopics then Some (PermListTopics, EmptyString)
  else if cmd =? CmdPublish then
    req ← Unmarshal f zero_PublishRequest;
    if bool_decide (pr_Topic req = EmptyString) then None else Some (PermPublish, pr_Topic req)
  else if cmd =? CmdBatchPublish then
    req ← Unmarshal f (mkBatchPublishRequest []);
    match bp_Messages req with
    | [] => None
    | m :: ms =>
        match mixed_topic (pr_Topic m) ms with
        | Some _ => None
        | None => Some (PermPublish, pr_Topic m)
        end
    end
  else if cmd =? CmdSubscribe then
    req ← Unmarshal f zero_SubscribeRequest; Some (PermSubscribe, sr_Topic req)
  else if cmd =? CmdFetch then
    req ← Unmarshal f zero_FetchRequest; Some (PermFetch, fq_Topic req)
  else if cmd =? CmdSeek then
    req ← Unmarshal f zero_SeekRequest;
    if bool_decide (sk_Topic req = EmptyString) || bool_decide (sk_Group req = EmptyString)
    then None else Some (PermSeek, sk_Topic req)
  else if cmd =? CmdResetGroup then
    req ← Unmarshal f (mkResetGroupRequest "" "");
    if bool_decide (rg_Topic req = EmptyString) || bool_decide (rg_Group req = EmptyString)
    then None else Some (PermSeek, rg_Topic req)
  else None.

(** The command codes are pairwise distinct: deciding one decides all. *)
Ltac by_command f :=
  unfold required, Broker_dispatch_frame; cbv zeta;
  repeat match goal with
  | |- context [fr_Command f =? ?k] =>
      destruct (Z.eqb_spec (fr_Command f) k) as [->|];
      [cbn [Z.eqb CmdAuth CmdPing CmdCreateTopic CmdDeleteTopic CmdListTopics CmdPublish CmdBatchPublish
            CmdSubscribe CmdUnsubscribe CmdFetch CmdCommitOffset CmdAck CmdNack CmdSeek CmdResetGroup
            Pos.eqb]|]
  end.

(** The refusal, as it leaves the broker. *)
Definition refused (b : Broker L) (c : Conn) (f : Frame) (topic : string) (o : outcome L) : Prop :=
  ∃ env what why,
    o = Replied (Broker_logAudit env b c EventForbidden topic false what) c
          [mkReply (fr_RequestID f) (BError ErrForbidden why)].

Lemma forbid_refused env b c f topic what msg : refused b c f topic (forbid env b c f topic what msg).
Proof. by eexists _, _, _. Qed.

Lemma dispatch_refused env b c f perm topic :
  required f = Some (perm, topic) → Conn_Can c perm topic = false →
  refused b c f topic (Broker_dispatch_frame env b c f).
Proof.
  by_command f; intros Hr Hc; try done.
  - unfold Broker_handleCreateTopic. destruct (Unmarshal f _) as [req|]; [|done]. cbn in Hr.
    case_bool_decide; simplify_eq. rewrite Hc. apply forbid_refused.
  - unfold Broker_handleDeleteTopic. destruct (Unmarshal f _) as [req|]; [|done]. cbn in Hr.
    simplify_eq. rewrite Hc. apply forbid_refused.
  - unfold Broker_handleListTopics. simplify_eq. rewrite Hc. apply forbid_refused.
  - unfold Broker_handlePublish. destruct (Unmarshal f _) as [req|]; [|done]. cbn in Hr.
    case_bool_decide; simplify_eq. rewrite Hc. apply forbid_refused.
  - unfold Broker_handleBatchPublish. destruct (Unmarshal f _) as [[[|m ms]]|]; [done| |done].
    cbn in Hr. cbv zeta. destruct (mixed_topic _ ms); simplify_eq. rewrite Hc. apply forbid_refused.
  - unfold Broker_handleSubscribe. destruct (Unmarshal f _) as [req|]; [|done]. cbn in Hr.
    simplify_eq. cbv zeta. rewrite Hc. apply forbid_refused.
  - unfold Broker_handleFetch. destruct (Unmarshal f _) as [req|]; [|done]. cbn in Hr.
    simplify_eq. cbv zeta. rewrite Hc. apply forbid_refused.
  - unfold Broker_handleSeek. destruct (Unmarshal f _) as [req|]; [|done]. cbn in Hr. cbv zeta.
    destruct (_ || _); simplify_eq. rewrite Hc. apply forbid_refused.
  - unfold Broker_handleResetGroup. destruct (Unmarshal f _) as [req|]; [|done]. cbn in Hr. cbv zeta.
    destruct (_ || _); simplify_eq. rewrite Hc. apply forbid_refused.
Qed.

(** Nothing but the audit log differs. *)
Definition audit_only b b' : Prop := b' = set_audit b (b_audit b').

Lemma logAudit_only env b c ev topic ok msg : audit_only b (Broker_logAudit env b c ev topic ok msg).
Proof. unfold audit_only, Broker_logAudit. destruct b as [? ? ? ? ? ? ? ? ? ? ? ? [l|] ? ?]; done. Qed.

(** ** Connections that may not write *)

(** Logs, registry, producer and the WALs of messages and topics. *)
Definition logs_kept b b' : Prop :=
  mg_topics (b_topics b') = mg_topics (b_topics b) ∧ b_msgWAL b' = b_msgWAL b ∧
  b_topicWAL b' = b_topicWAL b ∧ b_producers b' = b_producers b.

#[global] Instance logs_kept_preorder : PreOrder logs_kept.
Proof.
  split; [done|]. intros b1 b2 b3 (?&?&?&?) (?&?&?&?). unfold logs_kept. split_and!; congruence.
Qed.

Definition keeps b (c : Conn) (o : outcome L) : Prop :=
  match o with
  | Replied b' c' _ => c' = c ∧ logs_kept b b'
  | _ => True
  end.

Lemma keeps_logAudit env b c ev topic ok msg b' :
  logs_kept b b' → logs_kept b (Broker_logAudit env b' c ev topic ok msg).
Proof. unfold Broker_logAudit. by destruct (b_audit b'). Qed.

Lemma keeps_send b b' c f r : logs_kept b b' → keeps b c (send b' c f r).
Proof. by split. Qed.

Lemma keeps_forbid env b c f topic what msg : keeps b c (forbid env b c f topic what msg).
Proof. apply keeps_send, keeps_logAudit. reflexivity. Qed.

Lemma keeps_subscribe env b c f : keeps b c (Broker_handleSubscribe env b c f).
Proof.
  unfold Broker_handleSubscribe. destruct (Unmarshal f _) as [req|]; [|by apply keeps_send]. cbv zeta.
  destruct (negb _); [apply keeps_forbid|].
  destruct (Manager_Get _ _) as [tp|e]; [|by apply keeps_send].
  destruct (GroupManager_Subscribe _ _ _ _ _ _ _) as [g [[]|e]]; [|by apply keeps_send].
  destruct (sr_Push req); [|by apply keeps_send, keeps_logAudit].
  destruct (negb _); [by apply keeps_send, keeps_logAudit|].
  destruct (GroupManager_HasCommittedOffset _ _ _ _); [by apply keeps_send, keeps_logAudit|].
  destruct (Broker_replayToConsumer _ _ _ _ _ _); [|done]. apply keeps_send.
  exact (keeps_logAudit _ _ _ _ _ _ _ (set_consumers b _) ltac:(done)).
Qed.

Lemma keeps_unsubscribe env b c f : keeps b c (Broker_handleUnsubscribe env b c f).
Proof.
  unfold Broker_handleUnsubscribe. destruct (Unmarshal f _) as [req|]; [|by apply keeps_send].
  destruct (GroupManager_Unsubscribe _ _ _ _ _); by try apply keeps_send.
Qed.

Lemma keeps_fetch env b c f : keeps b c (Broker_handleFetch env b c f).
Proof.
  unfold Broker_handleFetch. destruct (Unmarshal f _) as [req|]; [|by apply keeps_send]. cbv zeta.
  destruct (negb _); [apply keeps_forbid|].
  destruct (Manager_Get _ _) as [tp|e]; [|by apply keeps_send].
  destruct (Topic_PartitionLog _ _) as [pl|e]; [|by apply keeps_send].
  destruct (fetch_messages _ _ _ _) as [[msgs|[e|]]|]; [|by apply keeps_send..|done].
  destruct (fq_RawTransfer req); [|done]. by destruct (ls_send _ _ _ _ _) as [raw []].
Qed.

Lemma keeps_commit env b c f : keeps b c (Broker_handleCommitOffset env b c f).
Proof.
  unfold Broker_handleCommitOffset. destruct (Unmarshal f _) as [req|]; [|by apply keeps_send].
  destruct (GroupManager_CommitOffset _ _ _ _ _ _) as [g [[]|e]]; by apply keeps_send.
Qed.

Lemma keeps_ack b c f : keeps b c (Broker_handleAck b c f).
Proof.
  unfold Broker_handleAck. destruct (negb _); [by apply keeps_send|].
  destruct (Unmarshal f _) as [req|]; by apply keeps_send.
Qed.

Lemma keeps_nack env b c f : keeps b c (Broker_handleNack env b c f).
Proof.
  unfold Broker_handleNack. destruct (negb _); [by apply keeps_send|].
  destruct (Unmarshal f _) as [req|]; [|by apply keeps_send].
  destruct (Manager_Get _ _) as [tp|e]; [|by apply keeps_send].
  destruct (Topic_PartitionLog _ _) as [pl|e]; [|by apply keeps_send].
  destruct (ls_read _ _ _ _) as [msgs|e]; [|by apply keeps_send]. cbv zeta.
  destruct (nk_Requeue req); [|by apply keeps_send].
  destruct (nack_requeue _ _ _ _); by try apply keeps_send.
Qed.

Lemma store_offset_keeps io b group topic p o : logs_kept b (store_offset io b group topic p o).
Proof. done. Qed.

Lemma seek_loop_keeps env tp req ps : ∀ ios b offsets,
  logs_kept b (seek_loop env ios b tp req ps offsets).1.
Proof.
  induction ps as [|p ps IH]; intros ios b offsets; [done|]. cbn [seek_loop].
  destruct (Topic_PartitionLog tp (i32 p)); [|apply IH].
  etrans; [apply store_offset_keeps|apply IH].
Qed.

Lemma reset_loop_keeps group topic ps : ∀ ios b, logs_kept b (reset_loop ios b group topic ps).
Proof.
  induction ps as [|p ps IH]; intros ios b; [done|]. cbn [reset_loop].
  etrans; [apply store_offset_keeps|apply IH].
Qed.

Lemma keeps_seek env b c f : keeps b c (Broker_handleSeek env b c f).
Proof.
  unfold Broker_handleSeek. destruct (Unmarshal f _) as [req|]; [|by apply keeps_send]. cbv zeta.
  destruct (_ || _); [by apply keeps_send|]. destruct (negb _); [apply keeps_forbid|].
  destruct (Manager_Get _ _) as [tp|e]; [|by apply keeps_send].
  pose proof (seek_loop_keeps env tp req (seqZ 0 (tc_Partitions (Topic_Config tp)))
    (he_walios env) b ∅) as Hk.
  destruct (seek_loop _ _ _ _ _ _ _) as [b' offsets]. by apply keeps_send, keeps_logAudit.
Qed.

Lemma keeps_reset env b c f : keeps b c (Broker_handleResetGroup env b c f).
Proof.
  unfold Broker_handleResetGroup. destruct (Unmarshal f _) as [req|]; [|by apply keeps_send]. cbv zeta.
  destruct (_ || _); [by apply keeps_send|]. destruct (negb _); [apply keeps_forbid|].
  destruct (Manager_Get _ _) as [tp|e]; [|by apply keeps_send].
  apply keeps_send, reset_loop_keeps.
Qed.

(** No permission to publish, create or delete, on any topic. *)
Definition read_only (c : Conn) : Prop :=
  ∀ topic, Conn_Can c PermPublish topic = false ∧ Conn_Can c PermCreateTopic topic = false ∧
    Conn_Can c PermDeleteTopic topic = false.

Lemma dispatch_read_only env b c f :
  read_only c → fr_Command f ≠ CmdAuth → keeps b c (Broker_dispatch_frame env b c f).
Proof.
  intros Hc Ha. unfold Broker_dispatch_frame. cbv zeta. rewrite (proj2 (Z.eqb_neq _ _) Ha).
  repeat case_match;
    auto using keeps_subscribe, keeps_unsubscribe, keeps_fetch, keeps_commit, keeps_ack, keeps_nack,
      keeps_seek, keeps_reset; try by apply keeps_send.
  - unfold Broker_handleCreateTopic. destruct (Unmarshal f _) as [req|]; [|by apply keeps_send].
    case_bool_decide; [by apply keeps_send|]. destruct (Hc (ct_Name req)) as (_ & -> & _).
    apply keeps_forbid.
  - unfold Broker_handleDeleteTopic. destruct (Unmarshal f _) as [req|]; [|by apply keeps_send].
    destruct (Hc (dt_Name req)) as (_ & _ & ->). apply keeps_forbid.
  - unfold Broker_handleListTopics. destruct (negb _); [apply keeps_forbid|by apply keeps_send].
  - unfold Broker_handlePublish. destruct (Unmarshal f _) as [req|]; [|by apply keeps_send].
    case_bool_decide; [by apply keeps_send|]. destruct (Hc (pr_Topic req)) as (-> & _).
    apply keeps_forbid.
  - unfold Broker_handleBatchPublish. destruct (Unmarshal f _) as [[[|m ms]]|]; [by apply keeps_send| |by apply keeps_send].
    cbv zeta. destruct (mixed_topic _ ms); [by apply keeps_send|].
    destruct (Hc (pr_Topic m)) as (-> & _). apply keeps_forbid.
Qed.

Lemma Handle_frame_read_only ae env b c f :
  read_only c → fr_Command f ≠ CmdAuth → keeps b c (Broker_Handle_frame ae env b c f).
Proof.
  intros Hc Ha. unfold Broker_Handle_frame. destruct (_ && _); [by apply keeps_send|].
  pose proof (dispatch_read_only env b c f Hc Ha) as Hk.
  destruct (Broker_dispatch_frame env b c f) as [b' c' out| |]; [|done..].
  by destruct (he_write env).
Qed.

(** ** Properties *)

(** C17: a frame without its permission changes nothing.  When the command of a
    frame asks for a permission on a topic and the connection's identity does
    not grant it, the answer is exactly one error reply, and topics, logs,
    producer, groups, offsets, dead letters, limits, WALs and counters are as
    before.  A connection that has not authenticated gets UNAUTHORIZED; any
    other gets FORBIDDEN, and the refusal is in the audit log.  If the write
    of FORBIDDEN fails the loop tries one INTERNAL reply, and nothing else. *)
Theorem forbidden_changes_nothing ae env b c f perm topic :
  required f = Some (perm, topic) → Conn_Can c perm topic = false →
  ∃ b' out,
    Broker_Handle_frame ae env b c f = Replied b' c out ∧ audit_only b b' ∧
    if ae && negb (cn_authed c) then
      b' = b ∧
      out = [mkReply (fr_RequestID f)
               (BError (ErrorCode_string ErrUnauthorized) (Why "authentication required"))]
    else
      (∃ why,
        out = mkReply (fr_RequestID f) (BError ErrForbidden why) ::
          if he_write env then []
          else [mkReply (fr_RequestID f) (BError (ErrorCode_string ErrInternal) WhyWrite)]) ∧
      ∃ env what, b' = Broker_logAudit env b c EventForbidden topic false what.
Proof.
  intros Hr Hc. unfold Broker_Handle_frame.
  assert (fr_Command f =? CmdAuth = false ∧ fr_Command f =? CmdPing = false) as [-> ->].
  { split; apply Z.eqb_neq; intros He; unfold required in Hr; rewrite He in Hr; done. }
  cbn [negb]. rewrite !andb_true_r. destruct (ae && negb (cn_authed c)).
  { eexists _, _. split_and!; [reflexivity|by destruct b|done|done]. }
  destruct (dispatch_refused env b c f perm topic Hr Hc) as (env' & what & why & ->).
  destruct (he_write env); (eexists _, _; split_and!;
    [reflexivity|apply logAudit_only|by exists why|by eexists _, _]).
Qed.

(** A connection that may not write never writes.  Whatever frames other
    than a new authentication a connection sends whose identity lacks the
    permissions to publish, create and delete, with whatever outcomes of the
    input and output they meet, every partition log, the topic registry, the
    producer's state and the WALs of messages and topics stay as they are, and
    so does the connection's identity. *)
Theorem unprivileged_never_writes ae (calls : list (HandlerEnv L * Frame)) b c b' c' out :
  read_only c → Forall (λ call, fr_Command call.2 ≠ CmdAuth) calls →
  Broker_Handle ae b c calls = Replied b' c' out →
  c' = c ∧ mg_topics (b_topics b') = mg_topics (b_topics b) ∧ b_producers b' = b_producers b ∧
  b_msgWAL b' = b_msgWAL b ∧ b_topicWAL b' = b_topicWAL b.
Proof.
  intros Hc Hf Hh.
  assert (keeps b c (Broker_Handle ae b c calls)) as Hk.
  { clear Hh. revert b. induction Hf as [|[env f] calls Ha _ IH]; intros b; cbn [Broker_Handle]; [done|].
    pose proof (Handle_frame_read_only ae env b c f Hc Ha) as Hk.
    destruct (Broker_Handle_frame ae env b c f) as [b1 c1 out1| |]; [|done..].
    destruct Hk as [-> Hk]. specialize (IH b1). destruct (Broker_Handle ae b1 c calls); [|done..].
    destruct IH as [-> IH]. split; [done|]. by etrans. }
  rewrite Hh in Hk. destruct Hk as [-> (? & ? & ? & ?)]. by split_and!.
Qed.

(** Authentication attaches the identity of the key.  After any history of
    keys added and removed, an authentication frame with a key that was last
    added gives the connection the client id, role and topics it was added
    with and the permissions of the role, and is the only kind of answer that
    says so; a key last removed, or never added to an authenticator without
    keys, is refused and the connection stays as it was. *)
Theorem auth_attaches_key_identity env b c f req ops auth0 :
  Unmarshal f (mkAuthRequest "" "") = Some req → au_enabled auth0 = true → au_keys auth0 = ∅ →
  b_auth b = foldl key_step auth0 ops →
  ∃ b' c' r, Broker_handleAuth env b c f = Replied b' c' [mkReply (fr_RequestID f) (BAuth r)] ∧
    audit_only b b' ∧
    match last_op (ar_APIKey req) ops with
    | Some (KAdd _ client role topics) =>
        aresp_OK r = true ∧ aresp_Perms r = RolePermissions role ∧ cn_authed c' = true ∧
        cn_clientID c' = client ∧
        ∀ perm topic, Conn_Can c' perm topic = true ↔
          perm ∈ RolePermissions role ∧ (topic = EmptyString ∨ topics = [] ∨ topic ∈ topics)
    | _ => aresp_OK r = false ∧ c' = c
    end.
Proof.
  intros Hu He Hk Hb. unfold Broker_handleAuth. rewrite Hu.
  destruct (key_steps_lookup ops auth0 (ar_APIKey req)) as [Hen Hl].
  unfold Authenticator_Authenticate. rewrite Hb, Hen, He. cbn [negb]. rewrite Hl, Hk, lookup_empty.
  destruct (last_op (ar_APIKey req) ops) as [[key client role topics|key]|].
  - eexists _, _, _. split_and!; [reflexivity|apply logAudit_only|done..|].
    intros perm topic. apply Identity_Can_spec.
  - eexists _, _, _. by split_and!; [reflexivity|apply logAudit_only|..].
  - eexists _, _, _. by split_and!; [reflexivity|apply logAudit_only|..].
Qed.

End Authz.

(** ** Concrete frames *)

Lemma forbidden_changes_nothing_witness :
  ∃ b' why,
    Broker_Handle_frame true demo_henv (demo_broker [[]]) (demo_conn RoleConsumer)
      (demo_frame CmdPublish (demo_request "k" "v")) =
      Replied b' (demo_conn RoleConsumer) [mkReply 7 (BError ErrForbidden why)].
Proof.
  destruct (forbidden_changes_nothing true demo_henv (demo_broker [[]]) (demo_conn RoleConsumer)
    (demo_frame CmdPublish (demo_request "k" "v")) PermPublish "orders")
    as (b' & out & Hh & _ & [why ->] & _).
  - vm_compute. reflexivity.
  - vm_compute. reflexivity.
  - exists b', why. exact Hh.
Defined.

Definition demo_reader_calls : list (HandlerEnv (list Message) * Frame) :=
  [(demo_henv, demo_frame CmdPublish (demo_request "k" "v"));
   (demo_henv, demo_frame CmdSubscribe (mkSubscribeRequest "orders" "g" "c1" false));
   (demo_henv, demo_frame CmdCommitOffset (mkCommitOffsetRequest "g" "c1" "orders" 0 3));
   (demo_henv, demo_frame CmdDeleteTopic (mkDeleteTopicRequest "orders"))].

Lemma read_only_consumer : read_only (demo_conn RoleConsumer).
Proof.
  intros topic. split_and!; apply not_true_is_false; intros [Hp _]%Identity_Can_spec;
    vm_compute in Hp; repeat (apply elem_of_cons in Hp as [Hp|Hp]; [discriminate Hp|]);
    by apply elem_of_nil in Hp.
Qed.

Lemma unprivileged_never_writes_witness :
  ∃ b' c' out, Broker_Handle true (demo_broker [[]]) (demo_conn RoleConsumer) demo_reader_calls =
      Replied b' c' out ∧ b_msgWAL b' = mkWAL [] 0.
Proof.
  assert (match Broker_Handle true (demo_broker [[]]) (demo_conn RoleConsumer) demo_reader_calls with
          | Replied _ _ _ => true | _ => false end = true) as Hr by (vm_compute; reflexivity).
  destruct (Broker_Handle true (demo_broker [[]]) (demo_conn RoleConsumer) demo_reader_calls)
    as [b' c' out| |] eqn:E; [|discriminate Hr..].
  exists b', c', out. split; [reflexivity|].
  destruct (unprivileged_never_writes true demo_reader_calls (demo_broker [[]])
    (demo_conn RoleConsumer) b' c' out) as (_ & _ & _ & Hw & _).
  - exact read_only_consumer.
  - repeat constructor; discriminate.
  - exact E.
  - exact Hw.
Defined.

Definition demo_key_ops : list key_op :=
  [KAdd "k1" "alice" RoleProducer ["orders"]; KAdd "k2" "bob" RoleConsumer []; KRemove "k2"].

Lemma auth_attaches_key_identity_witness :
  ∃ b' c' r, Broker_handleAuth demo_henv
      (mkBroker (demo_mgr [@nil Message]) (NewProducer "u" 3 100)
         (NewGroupManager NewOffsetStore (NewDLQ 10) 1 0 8)
         (foldl key_step (mkAuthenticator ∅ true) demo_key_ops) (NewRateLimiter None) (mkWAL [] 0) []
         (mkOffsetWAL (mkWAL [] 0) 0) 0 (mkWAL [] 0) 0 0 None zero_metrics [])
      newConn (demo_frame CmdAuth (mkAuthRequest "k1" "")) =
    Replied b' c' [mkReply 7 (BAuth r)] ∧ cn_clientID c' = "alice"%string.
Proof.
  destruct (auth_attaches_key_identity demo_henv
    (mkBroker (demo_mgr [@nil Message]) (NewProducer "u" 3 100)
       (NewGroupManager NewOffsetStore (NewDLQ 10) 1 0 8)
       (foldl key_step (mkAuthenticator ∅ true) demo_key_ops) (NewRateLimiter None) (mkWAL [] 0) []
       (mkOffsetWAL (mkWAL [] 0) 0) 0 (mkWAL [] 0) 0 0 None zero_metrics [])
    newConn (demo_frame CmdAuth (mkAuthRequest "k1" "")) (mkAuthRequest "k1" "") demo_key_ops
    (mkAuthenticator ∅ true)) as (b' & c' & r & Hh & _ & Hl).
  - vm_compute. reflexivity.
  - reflexivity.
  - reflexivity.
  - reflexivity.
  - exists b', c', r. split; [exact Hh|].
    assert (last_op "k1" demo_key_ops = Some (KAdd "k1" "alice" RoleProducer ["orders"%string])) as Hop
      by (vm_compute; reflexivity).
    cbn [ar_APIKey] in Hl. rewrite Hop in Hl. by destruct Hl as (_ & _ & _ & ? & _).
Defined.
