(* ===== verification/BrokerBatch.v ===== *)
(** * Batches: [handleBatchPublish] against [handlePublish]

    A batch is worth its messages published one by one: the same final state,
    the same results.  The batch publishes all messages and then dispatches
    them, the single handler alternates; the proof commutes the two. *)

From S2P Require Import Prelude GoLib Json Types Protocol WireJson Record Segment PartitionLog.
From S2P Require Import Wal WalStores Partition Topic Dedup Producer DeadLetter Consumer.
From S2P Require Import AuditLog RateLimit Auth Broker BrokerConsumer BrokerDispatch.

Local Open Scope Z_scope.

Section Batch.
Context {L : Type} `{LogStore L} `{Deflate}.
Implicit Type b : Broker L.
Implicit Type env : HandlerEnv L.

(** ** One message *)

(** Capture, WAL append and publish under the partition lock, when the WAL
    append goes through. *)
Definition publish_step (mv : MsgEnv) b (req : PublishRequest) :
    Broker L * (PublishRequest * result PublishResult pub_err) :=
  let '(b, part) := Broker_assign b (pr_Topic req) (pr_Key req) in
  let req := capture_target b req part in
  let walData := default [] (json_Marshal req) in
  let b := set_msgWAL (add_pending b (zlen walData)) (WAL_Append (mv_wal mv) (b_msgWAL b) walData).1 in
  let b := set_metrics b (mt_logged (b_metrics b) (zlen walData)) in
  let '(b, r) := Broker_publish b (mv_pub mv) req in
  (add_pending b (- zlen walData), (req, r)).

(** What a dispatch, its tap event and its counters do to the broker. *)
Definition after_dispatch (g : GroupManager) (e : TapEvent) (req : PublishRequest) b : Broker L :=
  count_published (tap (set_consumers b g) e) req.

Definition wal_fine (mv : MsgEnv) : Prop := ∀ w data, ∃ o, (WAL_Append (mv_wal mv) w data).2 = Ok o.

Lemma wal_io_fine_ok : wal_fine fine_msg_env.
Proof. by eexists. Qed.

Lemma marshal_publish (req : PublishRequest) : json_Marshal req = Some (default [] (json_Marshal req)).
Proof. done. Qed.

Lemma batch_publish_step mvs b p req reqs :
  wal_fine (default fine_msg_env (head mvs)) →
  batch_publish mvs b p (req :: reqs) =
    let '(b', x) := publish_step (default fine_msg_env (head mvs)) b req in
    let n := zlen (default [] (json_Marshal x.1)) in
    match batch_publish (tail mvs) b' (p + n - n) reqs with
    | (b, Error e) => (b, Error e)
    | (b, Ok rs) => (b, Ok (x :: rs))
    end.
Proof.
  intros Hw. cbn [batch_publish]. unfold publish_step.
  destruct (Broker_assign b (pr_Topic req) (pr_Key req)) as [b1 part].
  set (req' := capture_target b1 req part). rewrite marshal_publish. cbv zeta. cbn [from_option default].
  change (b_msgWAL (add_pending b1 _)) with (b_msgWAL b1).
  destruct (Hw (b_msgWAL b1) (default [] (json_Marshal req'))) as [o Ho].
  destruct (WAL_Append _ _ _) as [w [o'|e]]; [|discriminate Ho]. cbn [fst].
  destruct (Broker_publish _ _ _) as [b2 r]. cbn [fst]. reflexivity.
Qed.

(** All messages published, in order. *)
Fixpoint publish_steps (mvs : list MsgEnv) b (reqs : list PublishRequest) :
    Broker L * list (PublishRequest * result PublishResult pub_err) :=
  match reqs with
  | [] => (b, [])
  | req :: reqs =>
      let '(b, x) := publish_step (default fine_msg_env (head mvs)) b req in
      let '(b, xs) := publish_steps (tail mvs) b reqs in (b, x :: xs)
  end.

Lemma batch_publish_steps mvs reqs : ∀ b p,
  Forall wal_fine mvs →
  batch_publish mvs b p reqs = ((publish_steps mvs b reqs).1, Ok (publish_steps mvs b reqs).2).
Proof.
  revert mvs. induction reqs as [|req reqs IH]; intros mvs b p Hw; [done|].
  rewrite batch_publish_step by (destruct Hw; [apply wal_io_fine_ok|done]).
  cbn [publish_steps]. destruct (publish_step _ b req) as [b1 x]. cbv zeta.
  rewrite IH by (by destruct Hw). by destruct (publish_steps (tail mvs) b1 reqs).
Qed.

(** ** Publishing and dispatching commute *)

(** The published counter has no influence on a publish. *)
Lemma publish_to_counted pe p a part msg (l : L) :
  publish_to pe (incr_published p) a part msg l =
    let '(p', l', r) := publish_to pe p a part msg l in (incr_published p', l', r).
Proof.
  unfold publish_to. destruct (pa_mode a); cbn.
  - by destruct (ls_append _ l msg) as [[? ?] [?|?]].
  - by destruct (Producer_publishWithRetry pe p l msg) as [[[? ?] [?|?]] ?] eqn:E;
      unfold Producer_publishWithRetry in *; cbn in *; rewrite E.
  - destruct (pa_seqNum a =? 0); [done|].
    change (cached_result (incr_published p)) with (cached_result p).
    change (dedup_id (incr_published p) a) with (dedup_id p a).
    destruct (cached_result p _ _ part); [done|].
    change (Producer_publishWithRetry pe (incr_published p) l msg)
      with (Producer_publishWithRetry pe p l msg).
    by destruct (Producer_publishWithRetry pe p l msg) as [[[? ?] [?|?]] ?].
  - done.
Qed.

Lemma Publish_counted pe p (m : Manager L) a :
  Producer_Publish pe (incr_published p) m a =
    let '(p', m', r) := Producer_Publish pe p m a in (incr_published p', m', r).
Proof.
  unfold Producer_Publish. destruct (Manager_Get m (pa_topic a)) as [tp|]; [|done].
  destruct (HashPartitioner_Assign _ _ _) as [hp [i|]]; [|done].
  destruct (Topic_PartitionLog tp i) as [pl|]; [|done].
  destruct (build_message _ _ a i) as [msg|]; [|done].
  rewrite publish_to_counted. by destruct (publish_to pe p a i msg pl) as [[? ?] ?].
Qed.

Lemma publish_step_after g e req0 mv b req :
  publish_step mv (after_dispatch g e req0 b) req =
    let '(b', x) := publish_step mv b req in (after_dispatch g e req0 b', x).
Proof.
  unfold publish_step, Broker_assign.
  cbn [after_dispatch count_published set_producers set_metrics tap set_consumers b_topics].
  destruct (HashPartitioner_Assign _ _ _) as [hp r].
  set (part := match r with Ok p => p | Error _ => 0 end).
  unfold capture_target. cbn [set_topics b_topics].
  set (req' := match next_offset_of _ _ _ with Some o => with_target req (Some o) | None => req end).
  unfold Broker_publish.
  cbn [set_topics set_msgWAL set_metrics add_pending b_topics b_producers b_msgWAL b_metrics
    after_dispatch count_published set_producers tap set_consumers].
  rewrite Publish_counted. by destruct (Producer_Publish _ _ _ _) as [[p' m'] r'].
Qed.

Lemma publish_steps_after g e req0 reqs : ∀ mvs b,
  publish_steps mvs (after_dispatch g e req0 b) reqs =
    let '(b', xs) := publish_steps mvs b reqs in (after_dispatch g e req0 b', xs).
Proof.
  induction reqs as [|req reqs IH]; intros mvs b; [done|]. cbn [publish_steps].
  rewrite publish_step_after. destruct (publish_step _ b req) as [b1 x].
  rewrite IH. by destruct (publish_steps (tail mvs) b1 reqs).
Qed.

Lemma publish_step_consumers mv b req : b_consumers (publish_step mv b req).1 = b_consumers b.
Proof.
  unfold publish_step, Broker_assign. destruct (HashPartitioner_Assign _ _ _) as [hp r].
  unfold Broker_publish. by destruct (Producer_Publish _ _ _ _) as [[p' m'] r'].
Qed.

Lemma publish_steps_consumers reqs : ∀ mvs b,
  b_consumers (publish_steps mvs b reqs).1 = b_consumers b.
Proof.
  induction reqs as [|req reqs IH]; intros mvs b; [done|]. cbn [publish_steps].
  pose proof (publish_step_consumers (default fine_msg_env (head mvs)) b req) as Hs.
  destruct (publish_step _ b req) as [b1 x]. cbn [fst] in Hs.
  specialize (IH (tail mvs) b1). destruct (publish_steps (tail mvs) b1 reqs). cbn in *. congruence.
Qed.

(** ** The single handler *)

(** The settings under which the two handlers are compared: the checks made
    once per batch and once per message pass, and no audit log. *)
Record open_gates b (c : Conn) (topic : string) : Prop := mkOpenGates {
  og_topic : topic ≠ EmptyString;
  og_can : Conn_Can c PermPublish topic = true;
  og_limits : rl_Enabled (rl_cfg (b_rateLimiter b)) = false;
  og_threshold : b_walThreshold b <= 0;
  og_audit : b_audit b = None;
}.

Definition published_reply (f : Frame) (b : Broker L) (c : Conn) (r : PublishResult) : outcome L :=
  send b c f (BPublish (mkPublishResponse (res_MessageID r) (res_Partition r) (res_Offset r))).

Definition single_tail (mv : MsgEnv) (topic : string) b (c : Conn) (f : Frame)
    (x : PublishRequest * result PublishResult pub_err) : outcome L :=
  match x.2 with
  | Error e => SendError b c f (ErrorCode_string ErrInternal) (WhyPub e)
  | Ok r =>
      let msg := dispatched_message (mv_now mv) topic x.1 r in
      match GroupManager_Dispatch (mv_now mv) (mv_order mv) (mv_corder mv) (mv_slow mv)
              (b_consumers b) msg with
      | None => Panicked
      | Some g =>
          published_reply f
            (after_dispatch g (mkTapEvent topic (res_Partition r) (cn_clientID c) msg) x.1 b) c r
      end
  end.

Lemma handlePublish_step env mv b c f req topic :
  open_gates b c topic → pr_Topic req = topic → he_msgs env = [mv] → wal_fine mv →
  Unmarshal f zero_PublishRequest = Some req →
  Broker_handlePublish env b c f =
    let '(b', x) := publish_step mv b req in single_tail mv topic b' c f x.
Proof.
  intros [Ht Hc Hl Hth Ha] <- Hm Hw Hu. unfold Broker_handlePublish, publish_step. rewrite Hu.
  rewrite bool_decide_eq_false_2 by done. rewrite Hc. cbn [negb].
  assert (b_audit (Broker_assign b (pr_Topic req) (pr_Key req)).1 = None ∧
    rl_Enabled (rl_cfg (b_rateLimiter (Broker_assign b (pr_Topic req) (pr_Key req)).1)) = false ∧
    b_walThreshold (Broker_assign b (pr_Topic req) (pr_Key req)).1 <= 0) as (Ha1 & Hl1 & Hth1).
  { unfold Broker_assign. by destruct (HashPartitioner_Assign _ _ _). }
  destruct (Broker_assign b (pr_Topic req) (pr_Key req)) as [b1 part]. cbn [fst] in *.
  unfold RateLimiter_Allow. rewrite Hl1. cbn [negb].
  assert (set_rateLimiter b1 (b_rateLimiter b1) = b1) as -> by (by destruct b1).
  set (req' := capture_target b1 req part). rewrite (marshal_publish req'). cbv zeta. cbn [from_option].
  assert (0 <? b_walThreshold (add_pending b1 (zlen (default [] (json_Marshal req')))) = false) as ->
    by (apply Z.ltb_ge; done).
  cbn [andb]. rewrite Hm. cbn [head from_option].
  change (b_msgWAL (add_pending b1 _)) with (b_msgWAL b1).
  destruct (Hw (b_msgWAL b1) (default [] (json_Marshal req'))) as [o Ho].
  destruct (WAL_Append _ _ _) as [w [o'|e]]; [|discriminate Ho]. cbn [fst].
  assert (pr_Topic req' = pr_Topic req) as Htop
    by (unfold req', capture_target; by destruct (next_offset_of _ _ _)).
  unfold Broker_publish.
  cbn [b_producers b_topics set_metrics set_msgWAL add_pending b_metrics].
  destruct (Producer_Publish _ _ _ _) as [[p' m'] [r|e]]; [|done].
  unfold single_tail. cbn [snd fst]. unfold Broker_dispatch.
  cbn [b_consumers count_published set_producers set_metrics add_pending set_topics b_producers b_metrics
    b_topics set_msgWAL].
  rewrite Htop. destruct (GroupManager_Dispatch _ _ _ _ _ _) as [g|]; [|done]. cbn.
  unfold Broker_logAudit. cbn. rewrite Ha1. done.
Qed.

(** ** The second loop of a batch *)

Definition batch_tail (mvs : list MsgEnv) (topic cid : string) b
    (rs : list (PublishRequest * result PublishResult pub_err)) :
    option (Broker L * list PublishResponse) := batch_dispatch mvs topic cid b rs.

(** The response a batch lists for the reply of the single handler. *)
Definition batch_view (r : reply) : PublishResponse :=
  match rp_body r with
  | BPublish p => p
  | _ => mkPublishResponse "" 0 0
  end.

Lemma after_dispatch_gates g e req0 b c topic :
  open_gates b c topic → open_gates (after_dispatch g e req0 b) c topic.
Proof. by intros [? ? ? ? ?]. Qed.

Lemma publish_step_gates mv b req c topic :
  open_gates b c topic → open_gates (publish_step mv b req).1 c topic.
Proof.
  intros [? ? ? ? ?]. unfold publish_step, Broker_assign.
  destruct (HashPartitioner_Assign _ _ _) as [hp r]. unfold Broker_publish.
  by destruct (Producer_Publish _ _ _ _) as [[p' m'] r'].
Qed.

(** A call of the single handler for a message of the batch. *)
Definition call_for (topic : string) (call : HandlerEnv L * Frame) (item : MsgEnv * PublishRequest) :
    Prop :=
  he_msgs call.1 = [item.1] ∧ he_write call.1 = true ∧ fr_Command call.2 = CmdPublish ∧
  Unmarshal call.2 zero_PublishRequest = Some item.2 ∧ pr_Topic item.2 = topic ∧ wal_fine item.1.

Lemma Handle_publish ae env b c f :
  (ae = true → cn_authed c = true) → he_write env = true → fr_Command f = CmdPublish →
  Broker_Handle_frame ae env b c f = Broker_handlePublish env b c f.
Proof.
  intros Ha Hw Hf. unfold Broker_Handle_frame, Broker_dispatch_frame. rewrite Hf, Hw.
  assert (ae && negb (cn_authed c) = false) as -> by (destruct ae; [by rewrite Ha|done]).
  cbn. by destruct (Broker_handlePublish env b c f).
Qed.

Lemma sequence_is_batch ae topic calls items : ∀ b c,
  (ae = true → cn_authed c = true) → open_gates b c topic → Forall2 (call_for topic) calls items →
  let '(b1, xs) := publish_steps items.*1 b items.*2 in
  match Broker_Handle ae b c calls with
  | Replied b' c' outs =>
      c' = c ∧ batch_dispatch items.*1 topic (cn_clientID c) b1 xs = Some (b', batch_view <$> outs)
  | Panicked => batch_dispatch items.*1 topic (cn_clientID c) b1 xs = None
  | Waiting => False
  end.
Proof.
  intros b c Ha Hg Hf. revert b Hg.
  induction Hf as [|[env f] [mv req] calls items (Hm & Hw & Hcmd & Hu & Ht & Hfine) _ IH]; intros b Hg;
    [done|].
  cbn [fst snd fmap list_fmap publish_steps Broker_Handle head from_option id tail] in *.
  rewrite Handle_publish, (handlePublish_step env mv b c f req topic) by done.
  pose proof (publish_step_gates mv b req c topic Hg) as Hg1.
  destruct (publish_step mv b req) as [b1 x] eqn:Ex. cbn [fst] in Hg1.
  unfold single_tail. destruct x as [req' [r|e]]; cbn [fst snd]; cbv beta iota.
  - pose proof (publish_steps_consumers items.*2 items.*1 b1) as Hcons.
    destruct (publish_steps items.*1 b1 items.*2) as [b2 xs] eqn:E2. cbn [fst] in Hcons.
    cbn [batch_dispatch head from_option id tail]. unfold Broker_dispatch. rewrite Hcons.
    destruct (GroupManager_Dispatch _ _ _ _ _ _) as [g|]; [|done]. cbn [option_fmap option_map fmap].
    unfold published_reply, send.
    set (e := mkTapEvent topic (res_Partition r) (cn_clientID c) _).
    specialize (IH _ (after_dispatch_gates g e req' b1 c topic Hg1)).
    rewrite publish_steps_after, E2 in IH.
    change (count_published (tap (set_consumers b2 g) e) req') with (after_dispatch g e req' b2).
    destruct (Broker_Handle ae _ c calls) as [b' c' outs| |]; [|by rewrite IH|done].
    destruct IH as [-> ->]. by split.
  - specialize (IH b1 Hg1). destruct (publish_steps items.*1 b1 items.*2) as [b2 xs].
    cbn [batch_dispatch tail]. unfold SendError, send.
    destruct (Broker_Handle ae b1 c calls) as [b' c' outs| |]; [|by rewrite IH|done].
    destruct IH as [-> ->]. by split.
Qed.

(** ** Property *)

(** C18: a batch is worth its messages. When the gates are open ([open_gates]:
    permission granted; rate limiting, WAL threshold and audit log off, which a
    batch meets once and single publishes each time) and the appends to the
    message WAL go through, publishing the messages of a batch frame of one
    topic one by one, in order and with the same outcomes of input and output,
    ends in the same broker state (logs, producer, WAL bytes, group channels,
    dead letters, counters, live tap) as the one batch frame, and the batch
    lists for each message the response it got, or a zero response for a message
    that failed. *)
Theorem batch_equals_sequence ae env b c f calls items topic m0 ms :
  Unmarshal f (mkBatchPublishRequest []) = Some (mkBatchPublishRequest (m0 :: ms)) →
  items.*2 = m0 :: ms → he_msgs env = items.*1 → Forall2 (call_for topic) calls items →
  (ae = true → cn_authed c = true) → open_gates b c topic →
  match Broker_Handle ae b c calls with
  | Replied b' c' outs =>
      c' = c ∧ Broker_handleBatchPublish env b c f =
        Replied b' c [mkReply (fr_RequestID f) (BBatch (batch_view <$> outs))]
  | Panicked => Broker_handleBatchPublish env b c f = Panicked
  | Waiting => False
  end.
Proof.
  intros Hu Hi Hm Hf Ha Hg. pose proof (sequence_is_batch ae topic calls items b c Ha Hg Hf) as Hs.
  assert (Forall (λ m, pr_Topic m = topic) items.*2) as Htop.
  { clear -Hf. induction Hf as [|call [mv req] calls items (_ & _ & _ & _ & Ht & _) _ IH];
      constructor; done. }
  assert (Forall wal_fine items.*1) as Hw.
  { clear -Hf. induction Hf as [|call [mv req] calls items (_ & _ & _ & _ & _ & Hw) _ IH];
      constructor; done. }
  rewrite Hi in Htop. apply Forall_cons in Htop as [Ht0 Hts].
  unfold Broker_handleBatchPublish. rewrite Hu. cbv zeta. rewrite Ht0.
  assert (mixed_topic topic ms = None) as ->.
  { unfold mixed_topic. rewrite (proj2 (list_find_None _ _)); [done|].
    eapply Forall_impl; [exact Hts|]. intros m Hmt Hne. by apply Hne. }
  destruct Hg as [Hne Hc Hl Hth Hau]. rewrite Hc. cbn [negb].
  unfold RateLimiter_Allow. rewrite Hl. cbn [negb].
  assert (set_rateLimiter b (b_rateLimiter b) = b) as -> by (by destruct b).
  assert (0 <? b_walThreshold b = false) as -> by (apply Z.ltb_ge; done). cbn [andb].
  rewrite Hm, batch_publish_steps, <- Hi by done.
  destruct (publish_steps items.*1 b items.*2) as [b1 xs]. cbn [fst snd].
  destruct (Broker_Handle ae b c calls) as [b' c' outs| |]; [|by rewrite Hs|done].
  destruct Hs as [-> ->]. by split.
Qed.

End Batch.

(** ** A batch of two *)

Definition demo_batch : list PublishRequest := [demo_request "k" "a"; demo_request "k" "b"].

Definition demo_open_broker : Broker (list Message) := set_audit (demo_broker [[]; []]) None.

Definition demo_msgs_env (mvs : list MsgEnv) : HandlerEnv (list Message) :=
  mkHandlerEnv 1 "10.0.0.1:4000" true 5 true mvs rio_fine (λ _, demo_open) [] [] []
    (λ _, fine_msg_env).

Definition demo_batch_calls : list (HandlerEnv (list Message) * Frame) :=
  (λ r, (demo_msgs_env [fine_msg_env], demo_frame CmdPublish r)) <$> demo_batch.

Lemma batch_equals_sequence_witness :
  ∃ b' rs, Broker_handleBatchPublish (demo_msgs_env [fine_msg_env; fine_msg_env]) demo_open_broker (demo_conn RoleProducer)
      (demo_frame CmdBatchPublish (mkBatchPublishRequest demo_batch)) =
    Replied b' (demo_conn RoleProducer) [mkReply 7 (BBatch rs)] ∧
    pres_Offset <$> rs = [0; 1].
Proof.
  pose proof (batch_equals_sequence true (demo_msgs_env [fine_msg_env; fine_msg_env]) demo_open_broker
    (demo_conn RoleProducer) (demo_frame CmdBatchPublish (mkBatchPublishRequest demo_batch))
    demo_batch_calls ((λ r, (fine_msg_env, r)) <$> demo_batch) "orders"
    (demo_request "k" "a") [demo_request "k" "b"]) as Hb.
  assert (match Broker_Handle true demo_open_broker (demo_conn RoleProducer) demo_batch_calls with
    | Replied _ _ outs => pres_Offset <$> (batch_view <$> outs) = [0; 1]
    | _ => False end) as Ho by (vm_compute; reflexivity).
  destruct (Broker_Handle true demo_open_broker (demo_conn RoleProducer) demo_batch_calls) as [b' c' outs| |];
    [|destruct Ho..].
  destruct Hb as [_ Hb].
  - vm_compute. reflexivity.
  - reflexivity.
  - reflexivity.
  - repeat constructor; try (vm_compute; reflexivity); intros w data; by eexists.
  - reflexivity.
  - split; try (vm_compute; reflexivity). + discriminate. + vm_compute. discriminate.
  - exists b', (batch_view <$> outs). split; [exact Hb|exact Ho].
Defined.
