(* ===== verification/BrokerInv.v ===== *)
(** * The invariant of the broker

    Registry and router agree, every group has the shares of its last
    rebalance and open channels, the dead-letter queue is within its bound and
    the audit ring is well formed.  Every frame, push turn and checkpoint keeps
    this, and none of them panics. *)

From S2P Require Import Prelude GoLib Ring Json Types Protocol WireJson Record Segment PartitionLog.
From S2P Require Import Wal WalStores Partition Topic Dedup Producer DeadLetter Consumer.
From S2P Require Import AuditLog RateLimit Auth Broker BrokerConsumer BrokerDispatch.

Local Open Scope Z_scope.

(** ** Groups, in whatever order the maps are visited *)

(** The groups and the queue their dispatches feed. *)
Definition groups_ok (g : GroupManager) : Prop := gm_ok g ∧ dlq_bounded (gm_dlq g).

Lemma gr_with_with g cs cs' : gr_with (gr_with g cs) cs' = gr_with g cs'.
Proof. done. Qed.

Lemma dispatch_loop_any g order m : ∀ cs,
  group_ok (gr_with g cs) →
  ∃ cs' r, dispatch_loop order cs m = Some (cs', r) ∧ group_ok (gr_with g cs').
Proof.
  induction order as [|cid order IH]; intros cs Hg; cbn [dispatch_loop]; [by eauto|].
  destruct (cs !! cid) as [c|] eqn:Hc; [|by apply IH]. case_bool_decide; [|by apply IH].
  destruct (Hg cid c Hc) as [Ha Ho]. rewrite deliver_spec by done.
  destruct (received_ok c m Ho) as [Ho' Ha'].
  destruct (has_room c).
  - apply IH. rewrite <- (gr_with_with g cs). by eapply group_ok_insert.
  - eexists _, _. split; [done|]. rewrite <- (gr_with_with g cs). by eapply group_ok_insert.
Qed.

Lemma DLQ_Push_bounded now q e : dlq_bounded q → dlq_bounded (DLQ_Push now q e).
Proof. intros Hq. by apply (dlq_step_bounded q (DPush now e)). Qed.

Lemma Group_Dispatch_any now order env g q m :
  group_ok g → env_ok env → dlq_bounded q →
  ∃ g' q', Group_Dispatch now order env g (Some q) m = Some (g', Some q') ∧ group_ok g' ∧ dlq_bounded q'.
Proof.
  intros Hg He Hq. unfold Group_Dispatch.
  destruct (dispatch_loop_any g order m (gr_consumers g)) as (cs & r & -> & Hcs); [by destruct g|].
  destruct r as [slow|]; [|by eauto]. destruct (cs !! slow) as [c|] eqn:Hc; [|by eauto].
  destruct (Hcs slow c Hc) as [_ Ho]. unfold Group_handleSlowConsumer.
  destruct (slow_loop_spec env (Z.to_nat (gr_maxRetries g)) 1 c m He Ho)
    as [(k & _ & _ & _ & ->)|[_ ->]].
  - destruct (after_ok env k 1 c He Ho) as [Ho' Ha]. destruct (received_ok _ m Ho') as [Hr Hs].
    eexists _, _. split_and!; [done| |done]. rewrite <- (gr_with_with g cs).
    eapply group_ok_insert; [done..|congruence|done].
  - destruct (after_ok env (Z.to_nat (gr_maxRetries g)) 1 c He Ho) as [Ho' Ha].
    eexists _, _. split_and!; [done| |by apply DLQ_Push_bounded]. rewrite <- (gr_with_with g cs).
    by eapply group_ok_insert.
Qed.

Lemma groups_ok_dispatched g key gr gr' q :
  groups_ok g → gm_groups g !! key = Some gr → gr_id gr' = gr_id gr → gr_topic gr' = gr_topic gr →
  group_ok gr' → dlq_bounded q →
  groups_ok (gm_with g (<[key := gr']> (gm_groups g)) (gm_offsets g) q).
Proof.
  intros [Hg Hq] Hk Hi Ht Hok Hq'. destruct (Hg _ _ Hk) as (H1 & H2 & _). split; [|done].
  apply gm_ok_insert; [done|congruence|congruence|done].
Qed.

Lemma Dispatch_any now order corder env g m :
  groups_ok g → (∀ key, env_ok (env key)) →
  ∃ g', GroupManager_Dispatch now order corder env g m = Some g' ∧ groups_ok g'.
Proof.
  intros Hg He. revert g Hg. induction order as [|key order IH]; intros g Hg;
    cbn [GroupManager_Dispatch]; [by eauto|].
  destruct (gm_groups g !! key) as [gr|] eqn:Hk; [|by apply IH]. case_bool_decide; [|by apply IH].
  destruct (Hg) as [Hm Hq]. destruct (Hm _ _ Hk) as (_ & _ & Hgr).
  destruct (Group_Dispatch_any now (corder key) (env key) gr (gm_dlq g) m Hgr (He key) Hq)
    as (gr' & q' & Hd & Hgr' & Hq').
  rewrite Hd. destruct (Group_Dispatch_name _ _ _ _ _ _ _ _ Hd). apply IH. cbn [default from_option id].
  by eapply groups_ok_dispatched.
Qed.

Lemma DispatchToGroup_any now corder env g group topic p msg :
  groups_ok g → env_ok env →
  ∃ g' m', GroupManager_DispatchToGroup now corder env g group topic p msg = Some (g', m') ∧ groups_ok g'.
Proof.
  intros Hg He. unfold GroupManager_DispatchToGroup. destruct msg as [msg|]; [|by eauto]. cbv zeta.
  destruct (gm_groups g !! groupKey group topic) as [gr|] eqn:Hk; [|by eauto].
  destruct (Hg) as [Hm Hq]. destruct (Hm _ _ Hk) as (_ & _ & Hgr).
  destruct (Group_Dispatch_any now corder env gr (gm_dlq g) (set_partition msg p) Hgr He Hq)
    as (gr' & q' & Hd & Hgr' & Hq').
  rewrite Hd. destruct (Group_Dispatch_name _ _ _ _ _ _ _ _ Hd). eexists _, _. split; [done|].
  by eapply groups_ok_dispatched.
Qed.

(** Changing one consumer, its share kept and its channels open. *)
Lemma update_consumer_ok g group topic cid fn :
  groups_ok g →
  (∀ c, open_consumer c → open_consumer (fn c) ∧ cs_assignments (fn c) = cs_assignments c) →
  groups_ok (update_consumer g group topic cid fn).
Proof.
  intros [Hg Hq] Hf. split; [|done]. intros key gr. cbn.
  destruct (decide (groupKey group topic = key)) as [<-|Hne].
  - rewrite lookup_alter_eq. intros (gr0 & <- & Hgr)%fmap_Some_1 || (intros Hx; apply fmap_Some in Hx as (gr0 & Hgr & ->)).
    destruct (Hg _ _ Hgr) as (H1 & H2 & Hok). split_and!; [done|done|].
    destruct (gr_consumers gr0 !! cid) as [c|] eqn:Hc.
    + destruct (Hok cid c Hc) as [_ Ho]. destruct (Hf c Ho).
      replace (alter fn cid (gr_consumers gr0)) with (<[cid := fn c]> (gr_consumers gr0)).
      * by eapply group_ok_insert.
      * apply map_eq. intros k. destruct (decide (cid = k)) as [<-|].
        -- by rewrite lookup_insert_eq, lookup_alter_eq, Hc.
        -- by rewrite lookup_insert_ne, lookup_alter_ne.
    + replace (alter fn cid (gr_consumers gr0)) with (gr_consumers gr0); [by destruct gr0|].
      apply map_eq. intros k. destruct (decide (cid = k)) as [<-|].
      * by rewrite lookup_alter_eq, Hc.
      * by rewrite lookup_alter_ne.
  - rewrite lookup_alter_ne by done. apply Hg.
Qed.

Lemma SetSink_open c s :
  open_consumer c → open_consumer (Consumer_SetSink c s) ∧
    cs_assignments (Consumer_SetSink c s) = cs_assignments c.
Proof.
  intros [Ho Hp]. split; [|done]. split; [done|]. cbn. intros ch.
  destruct s as [s|]; [|by apply Hp]. destruct (cs_pushCh c) as [ch0|] eqn:E; [by apply Hp|].
  by intros [= <-].
Qed.

Lemma Subscribe_groups_ok now g group cid client topic n :
  groups_ok g → groups_ok (GroupManager_Subscribe now g group cid client topic n).1.
Proof.
  intros [Hg Hq]. split; [by apply Subscribe_ok|]. unfold GroupManager_Subscribe.
  destruct (negb _); [done|]. by destruct (Group_Join _ _ _ _ _).
Qed.

Lemma Unsubscribe_groups_ok now g group cid topic :
  groups_ok g → ∃ g', GroupManager_Unsubscribe now g group cid topic = Some g' ∧ groups_ok g'.
Proof.
  intros [Hg Hq]. destruct (Unsubscribe_ok now g group cid topic Hg) as (g' & Hu & Hg').
  exists g'. split; [done|]. split; [done|]. unfold GroupManager_Unsubscribe in Hu.
  destruct (gm_groups g !! groupKey group topic); [|by simplify_eq].
  destruct (Group_Leave now g0 cid) as [[? ?]|]; by simplify_eq.
Qed.

Lemma CommitOffset_groups_ok g group cid topic p o :
  groups_ok g → groups_ok (GroupManager_CommitOffset g group cid topic p o).1.
Proof.
  intros Hg. unfold GroupManager_CommitOffset. destruct (gm_groups g !! _); [|done].
  by destruct (Group_CommitOffset _ _ _ _ _).
Qed.

(** ** The broker *)

Section Inv.
Context {L : Type} `{LogStore L} `{Deflate}.
Implicit Type b : Broker L.
Implicit Type env : HandlerEnv L.

Definition audit_ok (a : option Logger) : Prop :=
  ∀ l, a = Some l → ∃ es, ring_rep (lg_rb l) es.

Definition broker_ok b : Prop :=
  mg_inv (b_topics b) ∧ groups_ok (b_consumers b) ∧ audit_ok (b_audit b).

Definition ok_outcome (o : outcome L) : Prop :=
  match o with
  | Replied b _ _ => broker_ok b
  | Panicked => False
  | Waiting => True
  end.

(** Other goroutines do not close a consumer that a dispatch is retrying. *)
Definition msg_env_ok (mv : MsgEnv) : Prop := ∀ key, env_ok (mv_slow mv key).

Definition env_fits env : Prop :=
  Forall msg_env_ok (he_msgs env) ∧ ∀ m, msg_env_ok (he_replay env m).

(** A topic is created with a number of partitions an [int32] holds. *)
Definition frame_fits (f : Frame) : Prop :=
  ∀ req, Unmarshal f (mkCreateTopicRequest "" 0 0 0 "") = Some req → ct_Partitions req < 2 ^ 31.

Lemma fine_msg_env_ok : msg_env_ok fine_msg_env.
Proof. by intros key a c. Qed.

Lemma head_env_ok mvs : Forall msg_env_ok mvs → msg_env_ok (default fine_msg_env (head mvs)).
Proof. intros []; [apply fine_msg_env_ok|done]. Qed.

Lemma tail_env_ok mvs : Forall msg_env_ok mvs → Forall msg_env_ok (tail mvs).
Proof. by intros []. Qed.

Hint Resolve head_env_ok tail_env_ok fine_msg_env_ok : core.

Lemma logAudit_ok env b c ev topic ok msg :
  broker_ok b → broker_ok (Broker_logAudit env b c ev topic ok msg).
Proof.
  intros (Hm & Hg & Ha). unfold Broker_logAudit. destruct (b_audit b) as [l|] eqn:E; [|by split_and!; [..|rewrite E]].
  destruct (Ha l) as [es Hes]; [done|]. split_and!; [done|done|]. intros l' [= <-].
  eexists. by apply RingBuffer_Add_rep.
Qed.

Lemma send_ok b c f r : broker_ok b → ok_outcome (send b c f r).
Proof. done. Qed.

Lemma forbid_ok env b c f topic what msg : broker_ok b → ok_outcome (forbid env b c f topic what msg).
Proof. intros Hb. by apply send_ok, logAudit_ok. Qed.

Hint Resolve logAudit_ok forbid_ok : core.
Hint Extern 1 (ok_outcome _) => apply send_ok : core.

Lemma set_consumers_ok b g : broker_ok b → groups_ok g → broker_ok (set_consumers b g).
Proof. by intros (? & _ & ?) ?. Qed.

Lemma set_topics_ok b m : broker_ok b → mg_inv m → broker_ok (set_topics b m).
Proof. by intros (_ & ? & ?) ?. Qed.

(** ** Topics and publishing *)

Lemma with_partitioner_inv (m : Manager L) topic key hp r :
  mg_inv m → HashPartitioner_Assign (mg_partitioner m) topic key = (hp, r) →
  mg_inv (mg_with m (mg_topics m) hp).
Proof.
  intros [Hhp Ht] Ha. destruct (Assign_inv _ _ _ _ _ Hhp Ha) as [Hhp' Heq].
  split; [done|]. intros name. cbn. rewrite Heq. apply Ht.
Qed.

Lemma Publish_inv pe p (m : Manager L) a p' m' r :
  mg_inv m → Producer_Publish pe p m a = (p', m', r) → mg_inv m'.
Proof.
  intros Hm. unfold Producer_Publish. destruct (Manager_Get m (pa_topic a)); [|by intros [= _ <- _]].
  destruct (HashPartitioner_Assign _ _ _) as [hp [i|]] eqn:Ha;
    pose proof (with_partitioner_inv _ _ _ _ _ Hm Ha); [|by intros [= _ <- _]].
  destruct (Topic_PartitionLog _ i); [|by intros [= _ <- _]].
  destruct (build_message _ _ a i); [|by intros [= _ <- _]].
  destruct (publish_to _ _ _ _ _ _) as [[p1 pl1] r1]. intros [= _ <- _]. by apply update_inv.
Qed.

Lemma assign_ok b topic key : broker_ok b → broker_ok (Broker_assign b topic key).1.
Proof.
  intros Hb. unfold Broker_assign. destruct (HashPartitioner_Assign _ _ _) as [hp r] eqn:Ha.
  apply set_topics_ok; [done|]. eapply with_partitioner_inv; [apply Hb|done].
Qed.

Lemma publish_ok b pe req : broker_ok b → broker_ok (Broker_publish b pe req).1.
Proof.
  intros Hb. unfold Broker_publish. destruct (Producer_Publish _ _ _ _) as [[p m] r] eqn:Hp.
  apply (set_topics_ok (set_producers b p)); [done|]. eapply Publish_inv; [apply Hb|done].
Qed.

Lemma dispatch_msg_ok mv b msg :
  broker_ok b → msg_env_ok mv → ∃ b', Broker_dispatch mv b msg = Some b' ∧ broker_ok b'.
Proof.
  intros Hb He. unfold Broker_dispatch.
  destruct (Dispatch_any (mv_now mv) (mv_order mv) (mv_corder mv) (mv_slow mv) (b_consumers b) msg)
    as (g & -> & Hg); [apply Hb|done|].
  eexists. split; [done|]. by apply set_consumers_ok.
Qed.

Lemma handleAuth_ok env b c f : broker_ok b → ok_outcome (Broker_handleAuth env b c f).
Proof.
  intros Hb. unfold Broker_handleAuth. destruct (Unmarshal f _); [|by auto].
  destruct (Authenticator_Authenticate _ _) as [id|[]]; auto.
Qed.

Lemma handleCreateTopic_ok env b c f :
  broker_ok b → frame_fits f → ok_outcome (Broker_handleCreateTopic env b c f).
Proof.
  intros Hb Hf. unfold Broker_handleCreateTopic. destruct (Unmarshal f _) as [req|] eqn:Hu; [|by auto].
  specialize (Hf _ Hu). case_bool_decide; [by auto|]. destruct (negb _); [by auto|]. cbv zeta.
  destruct (Manager_Create _ _ _) as [m r] eqn:Hm.
  assert (mg_inv m) as Hinv.
  { eapply Create_inv; [apply Hb| |exact Hm]. cbn. case_match; lia. }
  destruct r; [|by apply send_ok, set_topics_ok].
  apply send_ok, logAudit_ok. by apply (set_topics_ok b m).
Qed.

Lemma handleDeleteTopic_ok env b c f : broker_ok b → ok_outcome (Broker_handleDeleteTopic env b c f).
Proof.
  intros Hb. unfold Broker_handleDeleteTopic. destruct (Unmarshal f _) as [req|]; [|by auto].
  destruct (negb _); [by auto|]. destruct (Manager_Delete _ _) as [m r] eqn:Hm.
  assert (mg_inv m) as Hinv by (eapply Delete_inv; [apply Hb|done]).
  destruct r; [|by apply send_ok, set_topics_ok].
  apply send_ok, logAudit_ok. by apply (set_topics_ok b m).
Qed.

Lemma handlePublish_ok env b c f :
  broker_ok b → env_fits env → ok_outcome (Broker_handlePublish env b c f).
Proof.
  intros Hb [He _]. unfold Broker_handlePublish. destruct (Unmarshal f _) as [req|]; [|by auto].
  case_bool_decide; [by auto|]. destruct (negb _); [by auto|].
  pose proof (assign_ok b (pr_Topic req) (pr_Key req) Hb) as Hb1.
  destruct (Broker_assign b _ _) as [b1 part]. cbn [fst] in Hb1.
  destruct (RateLimiter_Allow _ _ _ _) as [rl allowed]. cbv zeta.
  destruct (negb allowed); [by apply send_ok|].
  destruct (json_Marshal _) as [walData|]; [|by apply send_ok].
  destruct (_ && _); [by apply send_ok|].
  destruct (WAL_Append _ _ _) as [w [o|e]]; [|by apply send_ok].
  set (b2 := set_metrics _ _).
  pose proof (publish_ok b2 (mv_pub (default fine_msg_env (head (he_msgs env))))
    (capture_target (set_rateLimiter b1 rl) req part) Hb1) as Hb3.
  destruct (Broker_publish b2 _ _) as [b3 r]. cbn [fst] in Hb3.
  destruct r as [r|e]; [|by apply send_ok].
  destruct (dispatch_msg_ok (default fine_msg_env (head (he_msgs env)))
    (count_published (add_pending b3 (- zlen walData)) (capture_target (set_rateLimiter b1 rl) req part))
    (dispatched_message (mv_now (default fine_msg_env (head (he_msgs env))))
       (pr_Topic (capture_target (set_rateLimiter b1 rl) req part))
       (capture_target (set_rateLimiter b1 rl) req part) r)) as (b4 & -> & Hb4); [done|auto|].
  by apply send_ok, logAudit_ok.
Qed.

Lemma batch_publish_ok reqs : ∀ mvs b p,
  broker_ok b → broker_ok (batch_publish mvs b p reqs).1.
Proof.
  induction reqs as [|req reqs IH]; intros mvs b p Hb; [done|]. cbn [batch_publish].
  pose proof (assign_ok b (pr_Topic req) (pr_Key req) Hb) as Hb1.
  destruct (Broker_assign b _ _) as [b1 part]. cbn [fst] in Hb1. cbv zeta.
  destruct (json_Marshal _) as [walData|]; [|done].
  destruct (WAL_Append _ _ _) as [w [o|e]]; [|done]. set (b2 := set_metrics _ _).
  pose proof (publish_ok b2 (mv_pub (default fine_msg_env (head mvs))) (capture_target b1 req part) Hb1)
    as Hb3.
  destruct (Broker_publish b2 _ _) as [b3 r]. cbn [fst] in Hb3.
  specialize (IH (tail mvs) (add_pending b3 (- zlen walData)) (p + zlen walData - zlen walData) Hb3).
  by destruct (batch_publish _ _ _ reqs) as [b4 [rs|e]].
Qed.

Lemma batch_dispatch_ok rs : ∀ mvs topic cid b,
  broker_ok b → Forall msg_env_ok mvs →
  ∃ b' out, batch_dispatch mvs topic cid b rs = Some (b', out) ∧ broker_ok b'.
Proof.
  induction rs as [|[req [r|e]] rs IH]; intros mvs topic cid b Hb He; cbn [batch_dispatch]; [by eauto| |].
  - cbv zeta. destruct (dispatch_msg_ok (default fine_msg_env (head mvs)) b
      (dispatched_message (mv_now (default fine_msg_env (head mvs))) topic req r)) as (b1 & -> & Hb1);
      [done|auto|].
    set (b2 := count_published _ _).
    destruct (IH (tail mvs) topic cid b2) as (b3 & out & -> & Hb3); [done|auto|]. by eauto.
  - destruct (IH (tail mvs) topic cid b) as (b3 & out & -> & Hb3); [done|auto|]. by eauto.
Qed.

Lemma handleBatchPublish_ok env b c f :
  broker_ok b → env_fits env → ok_outcome (Broker_handleBatchPublish env b c f).
Proof.
  intros Hb [He _]. unfold Broker_handleBatchPublish.
  destruct (Unmarshal f _) as [[[|m0 ms]]|]; [by auto| |by auto]. cbv zeta.
  destruct (mixed_topic _ _); [by auto|]. destruct (negb _); [by auto|].
  destruct (RateLimiter_Allow _ _ _ _) as [rl allowed]. destruct (negb allowed); [by apply send_ok|].
  destruct (_ && _); [by apply send_ok|].
  pose proof (batch_publish_ok (m0 :: ms) (he_msgs env) (set_rateLimiter b rl) 0 Hb) as Hb1.
  destruct (batch_publish _ _ _ _) as [b1 [rs|e]]; [|by apply send_ok]. cbn [fst] in Hb1.
  destruct (batch_dispatch_ok rs (he_msgs env) (pr_Topic m0) (cn_clientID c) b1 Hb1 He)
    as (b2 & out & -> & Hb2). by apply send_ok.
Qed.

(** ** The consumer side *)

Lemma dispatch_read_ok env group topic p msgs : ∀ g,
  groups_ok g → env_fits env → ∃ g', dispatch_read env g group topic p msgs = Some g' ∧ groups_ok g'.
Proof.
  induction msgs as [|m msgs IH]; intros g Hg He; cbn [dispatch_read]; [by eauto|]. cbv zeta.
  destruct (DispatchToGroup_any (mv_now (he_replay env m))
    (mv_corder (he_replay env m) (groupKey group topic))
    (mv_slow (he_replay env m) (groupKey group topic)) g group topic p (Some m))
    as (g' & m' & -> & Hg'); [done|apply He|]. by apply IH.
Qed.

Lemma replay_partition_ok fuel env group topic p pl : ∀ g o,
  groups_ok g → env_fits env →
  ∃ g', replay_partition fuel env g group topic p pl o = Some g' ∧ groups_ok g'.
Proof.
  induction fuel as [|fuel IH]; intros g o Hg He; cbn [replay_partition]; [by eauto|].
  destruct (ls_read _ _ _ _) as [msgs|e]; [|by eauto]. destruct (last msgs); [|by eauto].
  destruct (dispatch_read_ok env group topic p msgs g Hg He) as (g' & -> & Hg'). by apply IH.
Qed.

Lemma replayToConsumer_ok env tp group topic ps : ∀ g,
  groups_ok g → env_fits env →
  ∃ g', Broker_replayToConsumer env g tp group topic ps = Some g' ∧ groups_ok g'.
Proof.
  induction ps as [|p ps IH]; intros g Hg He; cbn [Broker_replayToConsumer]; [by eauto|].
  destruct (Topic_PartitionLog tp p) as [pl|]; [|by apply IH].
  destruct (replay_partition_ok (replay_fuel pl) env group topic p pl g 0 Hg He) as (g' & -> & Hg').
  by apply IH.
Qed.

Lemma handleSubscribe_ok env b c f :
  broker_ok b → env_fits env → ok_outcome (Broker_handleSubscribe env b c f).
Proof.
  intros Hb He. unfold Broker_handleSubscribe. destruct (Unmarshal f _) as [req|]; [|by auto]. cbv zeta.
  destruct (negb _); [by auto|]. destruct (Manager_Get _ _) as [tp|e]; [|by auto].
  destruct (Hb) as (_ & Hg & _).
  pose proof (Subscribe_groups_ok (he_now env) (b_consumers b) (sr_Group req) (sr_ConsumerID req)
    (cn_clientID c) (sr_Topic req) (i32 (tc_Partitions (Topic_Config tp))) Hg) as Hg1.
  destruct (GroupManager_Subscribe _ _ _ _ _ _ _) as [g [[]|e]]; cbn [fst] in Hg1;
    [|by apply send_ok, set_consumers_ok].
  destruct (sr_Push req); [|by apply send_ok, logAudit_ok, set_consumers_ok].
  set (g2 := update_consumer _ _ _ _ _).
  assert (groups_ok g2) as Hg2.
  { apply update_consumer_ok; [done|]. intros cs. apply SetSink_open. }
  set (b2 := Broker_logAudit _ _ _ _ _ _ _).
  assert (broker_ok b2) as Hb2.
  { apply logAudit_ok. by apply (set_consumers_ok b g2). }
  destruct (negb _); [by apply send_ok|].
  destruct (GroupManager_HasCommittedOffset _ _ _ _); [by apply send_ok|].
  destruct (replayToConsumer_ok env tp (sr_Group req) (sr_Topic req)
    (seqZ 0 (i32 (tc_Partitions (Topic_Config tp)))) g2 Hg2 He) as (g3 & -> & Hg3).
  by apply send_ok, set_consumers_ok.
Qed.

Lemma handleUnsubscribe_ok env b c f : broker_ok b → ok_outcome (Broker_handleUnsubscribe env b c f).
Proof.
  intros Hb. unfold Broker_handleUnsubscribe. destruct (Unmarshal f _) as [req|]; [|by auto].
  destruct (Unsubscribe_groups_ok (he_now env) (b_consumers b) (sr_Group req) (sr_ConsumerID req)
    (sr_Topic req)) as (g & -> & Hg); [apply Hb|]. by apply send_ok, set_consumers_ok.
Qed.

Lemma handleFetch_ok env b c f : broker_ok b → ok_outcome (Broker_handleFetch env b c f).
Proof.
  intros Hb. unfold Broker_handleFetch. destruct (Unmarshal f _) as [req|]; [|by auto]. cbv zeta.
  destruct (negb _); [by auto|]. destruct (Manager_Get _ _) as [tp|e]; [|by auto].
  destruct (Topic_PartitionLog _ _) as [pl|e]; [|by auto].
  destruct (fetch_messages _ _ _ _) as [[msgs|[e|]]|]; [|by auto..|done].
  destruct (fq_RawTransfer req); [|done]. by destruct (ls_send _ _ _ _ _) as [raw []].
Qed.

Lemma handleCommitOffset_ok env b c f : broker_ok b → ok_outcome (Broker_handleCommitOffset env b c f).
Proof.
  intros Hb. unfold Broker_handleCommitOffset. destruct (Unmarshal f _) as [req|]; [|by auto].
  destruct (Hb) as (_ & Hg & _).
  pose proof (CommitOffset_groups_ok (b_consumers b) (co_Group req) (co_ConsumerID req) (co_Topic req)
    (co_Partition req) (co_Offset req) Hg) as Hg1.
  destruct (GroupManager_CommitOffset _ _ _ _ _ _) as [g [[]|e]]; cbn [fst] in Hg1;
    by apply send_ok, (set_consumers_ok b g).
Qed.

Lemma handleAck_ok b c f : broker_ok b → ok_outcome (Broker_handleAck b c f).
Proof.
  intros Hb. unfold Broker_handleAck. destruct (negb _); [by auto|].
  destruct (Unmarshal f _) as [req|]; by auto.
Qed.

Lemma nack_requeue_ok mv g req msg :
  groups_ok g → msg_env_ok mv → ∃ g', nack_requeue mv g req msg = Some g' ∧ groups_ok g'.
Proof.
  intros Hg He. unfold nack_requeue. destruct msg as [m|]; [|by eauto]. case_bool_decide.
  - by apply Dispatch_any.
  - destruct (DispatchToGroup_any (mv_now mv) (mv_corder mv (groupKey (nk_Group req) (nk_Topic req)))
      (mv_slow mv (groupKey (nk_Group req) (nk_Topic req))) g (nk_Group req) (nk_Topic req)
      (nk_Partition req) (Some m)) as (g' & m' & -> & Hg'); [done|apply He|]. by eauto.
Qed.

Lemma handleNack_ok env b c f : broker_ok b → env_fits env → ok_outcome (Broker_handleNack env b c f).
Proof.
  intros Hb [He _]. unfold Broker_handleNack. destruct (negb _); [by auto|].
  destruct (Unmarshal f _) as [req|]; [|by auto].
  destruct (Manager_Get _ _) as [tp|e]; [|by auto].
  destruct (Topic_PartitionLog _ _) as [pl|e]; [|by auto].
  destruct (ls_read _ _ _ _) as [msgs|e]; [|by auto]. cbv zeta.
  destruct (Hb) as (_ & Hg & _). destruct (nk_Requeue req).
  - destruct (nack_requeue_ok (default fine_msg_env (head (he_msgs env))) (b_consumers b) req (head msgs))
      as (g & Hn & Hg'); [done|auto|].
    change (b_consumers (set_metrics b _)) with (b_consumers b). rewrite Hn.
    by apply send_ok, (set_consumers_ok b g).
  - apply send_ok, (set_consumers_ok b). + done.
    + destruct Hg as [Hm Hq]. split; [exact Hm|]. by apply DLQ_Push_bounded.
Qed.

Lemma seek_loop_ok env tp req ps : ∀ ios b offsets,
  broker_ok b → broker_ok (seek_loop env ios b tp req ps offsets).1.
Proof.
  induction ps as [|p ps IH]; intros ios b offsets Hb; [done|]. cbn [seek_loop].
  destruct (Topic_PartitionLog tp (i32 p)); [|by apply IH]. by apply IH.
Qed.

Lemma reset_loop_ok group topic ps : ∀ ios b,
  broker_ok b → broker_ok (reset_loop ios b group topic ps).
Proof. induction ps as [|p ps IH]; intros ios b Hb; [done|]. by apply IH. Qed.

Lemma handleSeek_ok env b c f : broker_ok b → ok_outcome (Broker_handleSeek env b c f).
Proof.
  intros Hb. unfold Broker_handleSeek. destruct (Unmarshal f _) as [req|]; [|by auto]. cbv zeta.
  destruct (_ || _); [by auto|]. destruct (negb _); [by auto|].
  destruct (Manager_Get _ _) as [tp|e]; [|by auto].
  pose proof (seek_loop_ok env tp req (seqZ 0 (tc_Partitions (Topic_Config tp))) (he_walios env) b ∅ Hb).
  destruct (seek_loop _ _ _ _ _ _ _). by auto.
Qed.

Lemma handleResetGroup_ok env b c f : broker_ok b → ok_outcome (Broker_handleResetGroup env b c f).
Proof.
  intros Hb. unfold Broker_handleResetGroup. destruct (Unmarshal f _) as [req|]; [|by auto]. cbv zeta.
  destruct (_ || _); [by auto|]. destruct (negb _); [by auto|].
  destruct (Manager_Get _ _) as [tp|e]; [|by auto]. by apply send_ok, reset_loop_ok.
Qed.

Lemma dispatch_frame_ok env b c f :
  broker_ok b → env_fits env → frame_fits f → ok_outcome (Broker_dispatch_frame env b c f).
Proof.
  intros Hb He Hf. unfold Broker_dispatch_frame. cbv zeta.
  repeat case_match;
    auto using handleAuth_ok, handleCreateTopic_ok, handleDeleteTopic_ok, handlePublish_ok,
      handleBatchPublish_ok, handleSubscribe_ok, handleUnsubscribe_ok, handleFetch_ok,
      handleCommitOffset_ok, handleAck_ok, handleNack_ok, handleSeek_ok, handleResetGroup_ok;
    try by apply send_ok.
  unfold Broker_handleListTopics. destruct (negb _); auto.
Qed.

Lemma Handle_frame_ok ae env b c f :
  broker_ok b → env_fits env → frame_fits f → ok_outcome (Broker_Handle_frame ae env b c f).
Proof.
  intros Hb He Hf. unfold Broker_Handle_frame. destruct (_ && _); [by apply send_ok|].
  pose proof (dispatch_frame_ok env b c f Hb He Hf) as Ho.
  destruct (Broker_dispatch_frame env b c f); [|done..]. by destruct (he_write env).
Qed.

(** ** Push turns *)

Lemma push_update_ok g group topic cid r fn :
  groups_ok g → (∀ c, open_consumer c → open_consumer (fn c) ∧ cs_assignments (fn c) = cs_assignments c) →
  groups_ok (push_update g group topic cid r fn).1.
Proof. intros Hg Hf. destruct r; [|done]. by apply update_consumer_ok. Qed.

Lemma push_exit_ok now g group cid topic r lost :
  groups_ok g → ∃ g' r', push_exit now g group cid topic r lost = Some (g', r', PushEnds lost) ∧ groups_ok g'.
Proof.
  intros Hg. unfold push_exit.
  pose proof (push_update_ok g group topic cid r (λ c, Consumer_SetSink c None) Hg
    (λ c, SetSink_open c None)) as Hu.
  destruct (push_update _ _ _ _ _ _) as [g1 r1].
  destruct (Unsubscribe_groups_ok now g1 group cid topic Hu) as (g2 & -> & Hg2). by eexists _, _.
Qed.

Lemma push_write_ok now write_ok msg g group cid topic r :
  groups_ok g →
  ∃ g' r' ev,
    (if write_ok : bool
     then Some (g, r, PushSent (mkPushFrame (msg_Topic msg) group cid (msg_Partition msg) [msg]))
     else push_exit now g group cid topic r (Some msg)) = Some (g', r', ev) ∧ groups_ok g'.
Proof.
  intros Hg. destruct write_ok; [by eauto|].
  destruct (push_exit_ok now g group cid topic r (Some msg) Hg) as (g' & r' & -> & Hg'). by eauto.
Qed.

(** Popping a message through the loop's pointer. *)
Lemma push_pop_ok g group topic cid r c ch msg ch' :
  groups_ok g → push_deref g group topic cid r = Some c → cs_pushCh c = Some ch →
  chan_pop ch = Some (msg, ch') →
  groups_ok (push_update g group topic cid r (λ c, with_pushCh c ch')).1.
Proof.
  intros Hg Hc Hch Hpop. destruct r as [|c0]; [|done]. cbn [push_deref] in Hc.
  assert (ch_closed ch' = false) as Hop.
  { unfold find_consumer in Hc. apply bind_Some in Hc as (gr & Hgr & Hc).
    destruct Hg as [Hm _]. destruct (Hm _ _ Hgr) as (_ & _ & Hok). destruct (Hok cid c Hc) as (_ & _ & Hp).
    unfold chan_pop in Hpop. destruct (ch_buf ch); simplify_eq. by apply (Hp ch). }
  apply update_consumer_ok; [done|]. intros c0 [Ho Hp]. split; [|done]. split; [done|].
  cbn. by intros ch0 [= <-].
Qed.

Lemma push_turn_ok now stop stop2 write_ok o1 o2 pause g group cid topic r :
  groups_ok g → (∀ x, groups_ok x.1 → groups_ok (o1 x).1) → (∀ x, groups_ok x.1 → groups_ok (o2 x).1) →
  ∃ g' r' ev, pushDelivery_turn now stop stop2 write_ok o1 o2 pause g group cid topic r = Some (g', r', ev) ∧
    groups_ok g'.
Proof.
  intros Hg H1 H2. unfold pushDelivery_turn.
  destruct (push_exit_ok now g group cid topic r None Hg) as (ge & re & He & Hge). rewrite He.
  destruct stop; [by eauto|].
  destruct (push_deref g group topic cid r) as [c|] eqn:Hc; [|by eauto]. cbn [mbind option_bind].
  destruct (cs_pushCh c) as [ch|] eqn:Hch; [|by eauto].
  destruct (chan_pop ch) as [[msg ch']|] eqn:Hpop; [|by destruct (ch_closed ch); eauto].
  pose proof (H1 _ (push_pop_ok g group topic cid r c ch msg ch' Hg Hc Hch Hpop)) as Hg1.
  destruct (o1 _) as [g1 r1]. cbv beta zeta. cbn [fst] in Hg1.
  destruct (push_full g1 group topic cid r1); [|by apply push_write_ok].
  pose proof (H2 (g1, r1) Hg1) as Hg2. destruct (o2 (g1, r1)) as [g2 r2]. cbn [fst] in Hg2.
  destruct stop2.
  { destruct (push_exit_ok now g2 group cid topic r2 (Some msg) Hg2) as (g3 & r3 & -> & Hg3). by eauto. }
  destruct (push_full g2 group topic cid r2); [|by apply push_write_ok].
  eexists _, _, _. split; [done|]. destruct Hg2 as [Hm2 Hq2]. split; [exact Hm2|]. by apply DLQ_Push_bounded.
Qed.

Lemma rebalance_lookup_None now g cid :
  gr_consumers g !! cid = None → gr_consumers (Group_rebalance now g) !! cid = None.
Proof.
  intros Hc. unfold Group_rebalance. case_bool_decide; [done|].
  cbn [gr_rebalanced gr_with gr_consumers]. by rewrite map_lookup_imap, Hc.
Qed.

(** A loop whose consumer has left ends by dropping the subscription its names
    have now: a consumer that subscribed under the same id in the meantime is
    removed from the group and closed. *)
Lemma stale_push_loop_evicts now stop2 write_ok o1 o2 pause g group cid topic c c' :
  groups_ok g → find_consumer g group topic cid = Some c' →
  ∃ g', pushDelivery_turn now true stop2 write_ok o1 o2 pause g group cid topic (Departed c) =
      Some (g', Departed (Consumer_SetSink c None), PushEnds None) ∧
    find_consumer g' group topic cid = None.
Proof.
  intros Hg Hc'. unfold pushDelivery_turn, push_exit. cbn [push_update].
  destruct (Unsubscribe_groups_ok now g group cid topic Hg) as (g' & Hu & _). rewrite Hu.
  eexists. split; [done|]. revert Hu Hc'. unfold GroupManager_Unsubscribe, find_consumer.
  destruct (gm_groups g !! groupKey group topic) as [gr|] eqn:Hgr; [|done].
  cbn [mbind option_bind]. intros Hu Hc'. unfold Group_Leave in Hu. rewrite Hc' in Hu.
  destruct (Consumer_close c') as [c2|]; [|done]. simplify_eq. cbn [gm_with gm_groups].
  rewrite lookup_insert_eq. cbn [mbind option_bind]. apply rebalance_lookup_None.
  cbn [gr_with gr_consumers]. apply lookup_delete_eq.
Qed.

(** ** Runs *)

(** What happens to a broker: it starts, frames arrive on its connections,
    push loops turn, offsets are checkpointed. *)
Inductive event :=
| EvStart (open : string → Z → result L seg_err) (order : gmap string TopicConfig → list TopicConfig)
    (pes : list PubEnv)
| EvFrame (authEnabled : bool) env (c : Conn) (f : Frame)
| EvPush (now : Z) (stop stop_paused write_ok : bool)
    (others1 others2 : GroupManager * push_ref → GroupManager * push_ref)
    (pause group cid topic : string) (r : push_ref)
| EvCheckpoint (trunc_ok seek_ok : bool) (ios : list WalIO) (order : list (string * Z)).

Definition event_fits (e : event) : Prop :=
  match e with
  | EvStart _ order _ => ∀ m cfg, cfg ∈ order m → tc_Partitions cfg < 2 ^ 31
  | EvFrame _ env _ f => env_fits env ∧ frame_fits f
  | EvPush _ _ _ _ o1 o2 _ _ _ _ _ =>
      (∀ x, groups_ok x.1 → groups_ok (o1 x).1) ∧ (∀ x, groups_ok x.1 → groups_ok (o2 x).1)
  | EvCheckpoint _ _ _ _ => True
  end.

(** The broker after an event; [None] is a panic. *)
Definition run_event b (e : event) : option (Broker L) :=
  match e with
  | EvStart open order pes => Some (Broker_Start open order pes b)
  | EvFrame ae env c f =>
      match Broker_Handle_frame ae env b c f with
      | Replied b' _ _ => Some b'
      | Panicked => None
      | Waiting => Some b
      end
  | EvPush now stop stop2 write_ok o1 o2 pause group cid topic r =>
      match pushDelivery_turn now stop stop2 write_ok o1 o2 pause (b_consumers b) group cid topic r with
      | Some (g, _, _) => Some (set_consumers b g)
      | None => None
      end
  | EvCheckpoint t s ios order => Some (Broker_runOffsetCheckpoint t s ios order b)
  end.

Fixpoint run_events b (es : list event) : option (Broker L) :=
  match es with
  | [] => Some b
  | e :: es => b' ← run_event b e; run_events b' es
  end.

Lemma NewBroker_ok uuid thr ret auth limits audit f1 f2 f3 :
  broker_ok (NewBroker uuid thr ret auth limits audit f1 f2 f3 : Broker L).
Proof.
  unfold NewBroker. destruct (wal_open f1) as [w es]. split_and!.
  - split.
    + intros t. cbn. by rewrite !lookup_empty.
    + intros name. cbn. by rewrite !lookup_empty.
  - split.
    + intros key g. cbn. by rewrite lookup_empty.
    + by split.
  - intros l Hl. destruct audit; simplify_eq/=. exists [].
    apply (NewRingBuffer_rep zero_event 1000). reflexivity.
Qed.

Lemma already_written_ok b req : broker_ok b → broker_ok (already_written b req).1.
Proof.
  intros Hb. unfold already_written. destruct (pr_TargetOffset req); [|done].
  destruct (Manager_Get _ _); [|done].
  pose proof (assign_ok b (pr_Topic req) (pr_Key req) Hb). by destruct (Broker_assign b _ _).
Qed.

Lemma replay_entries_ok es : ∀ pes b, broker_ok b → broker_ok (replay_entries pes b es).
Proof.
  induction es as [|e es IH]; intros pes b Hb; [done|]. cbn [replay_entries]. apply IH.
  unfold replay_entry. destruct (json_Unmarshal _) as [req|]; [|done].
  pose proof (already_written_ok b req Hb). destruct (already_written b req) as [b1 []]; [done|].
  by apply publish_ok.
Qed.

Lemma Start_ok open order pes b :
  (∀ m cfg, cfg ∈ order m → tc_Partitions cfg < 2 ^ 31) → broker_ok b →
  broker_ok (Broker_Start open order pes b).
Proof.
  intros Ho Hb. unfold Broker_Start. cbv zeta.
  assert (broker_ok (Broker_replayOffsetWAL b)) as Hb1.
  { unfold Broker_replayOffsetWAL. by destruct (OffsetWAL_Replay _). }
  assert (broker_ok (Broker_replayTopicWAL open order (Broker_replayOffsetWAL b))) as Hb2.
  { unfold Broker_replayTopicWAL. destruct (TopicWAL_Replay _) as [creates deletes].
    apply set_topics_ok; [done|].
    assert (mg_inv (foldl (λ m name, (Manager_Delete m name).1)
      (b_topics (Broker_replayOffsetWAL b)) deletes)) as Hm.
    { generalize (proj1 Hb1). generalize (b_topics (Broker_replayOffsetWAL b)). clear.
      induction deletes as [|name deletes IH]; intros m Hm; [done|]. cbn [foldl]. apply IH.
      destruct (Manager_Delete m name) eqn:E. by eapply Delete_inv. }
    specialize (Ho creates). revert Hm. generalize (foldl (λ m name, (Manager_Delete m name).1)
      (b_topics (Broker_replayOffsetWAL b)) deletes). revert Ho. generalize (order creates). clear.
    intros cfgs. induction cfgs as [|cfg cfgs IH]; intros Ho m Hm; [done|]. cbn [foldl]. apply IH.
    - intros cfg' Hin. apply Ho. by right.
    - destruct (Manager_Create (open (tc_Name cfg)) m cfg) as [m' r] eqn:E.
      refine (Create_inv _ _ _ _ _ Hm _ E). apply Ho. by left. }
  unfold Broker_replayMessageWAL. destruct (b_walEntries _); [done|].
  by apply (replay_entries_ok (w :: l)).
Qed.

(** ** Property *)

(** C11: the broker stays well formed and never panics.  From a new broker,
    whatever files it finds, through any sequence of starts, frames of any
    command and content on any connections, turns of push loops and
    checkpoints, with any outcomes of the input and output: no handler panics,
    the registry and the router agree on the partitions of every topic, every
    member of every group has exactly the share of the last rebalance and open
    channels, the dead-letter queue is within its bound and the audit ring is
    well formed.  The other goroutines are assumed not to close a consumer
    while a dispatch retries it, and topics to have at most 2^31 - 1
    partitions. *)
Theorem broker_run_safe uuid thr ret auth limits audit f1 f2 f3 (es : list event) :
  Forall event_fits es →
  ∃ b, run_events (NewBroker uuid thr ret auth limits audit f1 f2 f3) es = Some b ∧
    mg_inv (b_topics b) ∧ gm_ok (b_consumers b) ∧ dlq_bounded (gm_dlq (b_consumers b)) ∧
    ∀ l, b_audit b = Some l → ∃ evs, ring_rep (lg_rb l) evs.
Proof.
  intros Hes.
  assert (∀ b, broker_ok b → ∃ b', run_events b es = Some b' ∧ broker_ok b') as Hrun.
  { induction Hes as [|e es He _ IH]; intros b Hb; [by eauto|]. cbn [run_events].
    assert (∃ b1, run_event b e = Some b1 ∧ broker_ok b1) as (b1 & -> & Hb1); [|by apply IH].
    destruct e as [open order pes|ae env c f|now stop stop2 w o1 o2 pause group cid topic r|t s ios order];
      cbn [run_event event_fits] in *.
    - eexists. split; [done|]. by apply Start_ok.
    - destruct He as [He Hf]. pose proof (Handle_frame_ok ae env b c f Hb He Hf).
      destruct (Broker_Handle_frame ae env b c f); [by eauto|done|by eauto].
    - destruct He as [H1 H2].
      destruct (push_turn_ok now stop stop2 w o1 o2 pause (b_consumers b) group cid topic r)
        as (g & r' & ev & -> & Hg); [apply Hb|done..|].
      eexists. split; [done|]. by apply set_consumers_ok.
    - eexists. split; [done|]. unfold Broker_runOffsetCheckpoint. destruct order; [done|].
      by destruct (OffsetWAL_Checkpoint _ _ _ _ _) as [w [[]|e]]. }
  destruct (Hrun _ (NewBroker_ok uuid thr ret auth limits audit f1 f2 f3)) as (b & Hb & Hm & [Hg Hq] & Ha).
  by exists b.
Qed.

End Inv.

(** ** A concrete run *)

Definition demo_events : list (@event (list Message)) :=
  let frame := λ f, EvFrame false demo_henv (demo_conn RoleAdmin) f in
  [EvStart (λ _, demo_open) (λ m, []) [];
   frame (demo_frame CmdCreateTopic (mkCreateTopicRequest "orders" 2 1 0 ""));
   frame (demo_frame CmdSubscribe (mkSubscribeRequest "orders" "g" "c1" true));
   frame (demo_frame CmdPublish (demo_request "k" "v"));
   EvPush 6 false false true id id "100ms" "g" "c1" "orders" Joined;
   EvCheckpoint true true [] []].

Lemma broker_run_safe_witness :
  ∃ b, run_events (NewBroker "u" 0 None (mkAuthConfig false []) None true [] [] []) demo_events = Some b ∧
    mg_inv (b_topics b).
Proof.
  destruct (broker_run_safe "u" 0 None (mkAuthConfig false []) None true [] [] [] demo_events)
    as (b & Hb & Hm & _).
  - assert (env_fits demo_henv) as He.
    { split; [constructor|]. intros m key a c. by split. }
    unfold demo_events. repeat apply Forall_cons_2; [| | | | | |constructor]; cbn [event_fits].
    + intros m cfg Hin. by apply elem_of_nil in Hin.
    + split; [exact He|]. intros req Hu. vm_compute in Hu. injection Hu as <-. cbn. lia.
    + split; [exact He|]. intros req Hu. vm_compute in Hu. injection Hu as <-. cbn. lia.
    + split; [exact He|]. intros req Hu. vm_compute in Hu. injection Hu as <-. cbn. lia.
    + split; intros g Hg; exact Hg.
    + exact I.
  - exists b. by split.
Defined.
