(* ===== verification/BrokerRecovery.v ===== *)
(** * Crash recovery: [replayMessageWAL] of [internal/broker/lifecycle.go]

    The WAL entry of a published message carries the offset the partition log
    assigns it; after a crash that cost the logs a tail, replaying the WAL
    appends exactly what is missing.  And the cases in which it does not:
    keyless messages of a topic with several partitions, and duplicates of
    exactly-once publishes. *)

From S2P Require Import Prelude GoLib Json Types Protocol WireJson Record Segment PartitionLog.
From S2P Require Import Wal WalStores Partition Topic Dedup Producer DeadLetter Consumer.
From S2P Require Import AuditLog RateLimit Auth Broker BrokerConsumer BrokerDispatch.
From S2P Require Import BrokerBatch.

Local Open Scope Z_scope.

(** ** What is recovered *)

(** A message up to its id and time, which a replay makes anew. *)
Definition erase (m : Message) : Message :=
  mkMessage "" (msg_Topic m) 0 (msg_Payload m) (msg_Headers m) (msg_Key m) (msg_Partition m)
    (msg_Offset m) (msg_Codec m).

Section Recovery.
Context {L : Type} `{LogStore L} `{Deflate}.
Implicit Type b : Broker L.
Implicit Type m : Manager L.

Definition no_env : PubEnv := mkPubEnv "" 0 [] [].

(** The message a request leaves at an offset of a partition. *)
Definition published (cfg : TopicConfig) (i : Z) (req : PublishRequest) (o : Z) : Message :=
  match build_message no_env cfg (publish_args req) i with
  | Ok msg => set_offset msg o
  | Error _ => set_offset (set_partition (NewMessage "" 0 (pr_Topic req) [] "" ∅) i) o
  end.

(** A keyed request of this topic for this partition. *)
Definition routed (t : string) (n i : Z) (req : PublishRequest) : bool :=
  bool_decide (pr_Topic req = t) && (hashPartition (pr_Key req) n =? i).

(** What the requests add to a partition whose next offset is [o]. *)
Fixpoint future (cfg : TopicConfig) (t : string) (n i o : Z) (reqs : list PublishRequest) :
    list Message :=
  match reqs with
  | [] => []
  | req :: reqs =>
      if routed t n i req then published cfg i req o :: future cfg t n i (o + 1) reqs
      else future cfg t n i o reqs
  end.

(** Keyed, and without deduplication. *)
Definition plain (req : PublishRequest) : Prop :=
  pr_Key req ≠ EmptyString ∧ (pr_DeliveryMode req = 0 ∨ pr_DeliveryMode req = 1).

(** One partition log: its topic's configuration and size, what it holds. *)
Record log_is (m : Manager L) (t : string) (i : Z) (cfg : TopicConfig) (n : Z) (ms : list Message)
    (next : Z) : Prop := mkLogIs {
  li_inv : mg_inv m;
  li_log : ∃ tp pl, mg_topics m !! t = Some tp ∧ tp_cfg tp = cfg ∧ zlen (tp_partitions tp) = n ∧
    Topic_PartitionLog tp i = Ok pl ∧ ls_inv pl ms ∧ ls_next pl = next;
}.

(** The log accepts the message of a request, and its payload compresses. *)
Definition step_ready (t : string) (i : Z) (pe : PubEnv) m (req : PublishRequest) : Prop :=
  ∀ tp pl, mg_topics m !! t = Some tp → Topic_PartitionLog tp i = Ok pl →
    ∃ msg, build_message pe (tp_cfg tp) (publish_args req) i = Ok msg ∧
      ls_ready (default fine_append (head (pe_ios pe))) pl msg.

(** ** One publish *)

Lemma build_message_erase pe cfg i req msg o :
  build_message pe cfg (publish_args req) i = Ok msg → erase (set_offset msg o) = published cfg i req o.
Proof.
  unfold published, build_message. cbn [publish_args pa_codec pa_payload].
  intros Hm. repeat case_match; simplify_eq; done.
Qed.

Lemma keyed_assign (p : HashPartitioner) t key n :
  hp_topics p !! t = Some n → key ≠ EmptyString →
  HashPartitioner_Assign p t key = (p, Ok (hashPartition key n)).
Proof. intros Hn Hk. unfold HashPartitioner_Assign. by rewrite Hn, bool_decide_eq_false_2. Qed.

Lemma unknown_assign (p : HashPartitioner) t key :
  hp_topics p !! t = None → (HashPartitioner_Assign p t key).1 = p.
Proof. intros Hn. unfold HashPartitioner_Assign. by rewrite Hn. Qed.

Lemma plain_mode req :
  plain req → pa_mode (publish_args req) = AtMostOnce ∨ pa_mode (publish_args req) = AtLeastOnce ∨
    (pa_mode (publish_args req) = ExactlyOnce ∧ pa_seqNum (publish_args req) ≠ 0 ∧
     ∀ p i, cached_result p (dedup_id p (publish_args req)) (pa_seqNum (publish_args req)) i = None).
Proof. intros [_ [Hm|Hm]]; cbn; rewrite Hm; auto. Qed.

Lemma mg_with_same m : mg_with m (mg_topics m) (mg_partitioner m) = m.
Proof. by destruct m. Qed.

(** A routed request extends the log by its message. *)
Lemma publish_routed pe p m req t i cfg n ms next p' m' r :
  log_is m t i cfg n ms next → plain req → routed t n i req = true → 0 <= pd_maxRetries p →
  step_ready t i pe m req → Producer_Publish pe p m (publish_args req) = (p', m', r) →
  ∃ msg, log_is m' t i cfg n (ms ++ [msg]) (next + 1) ∧ erase msg = published cfg i req next ∧
    r = Ok (mkPublishResult (msg_ID msg) i next) ∧ pd_maxRetries p' = pd_maxRetries p.
Proof.
  intros [Hinv (tp & pl & Ht & Hcfg & Hn & Hpl & Hms & Hnext)] Hp Hr Hmax Hready Hpub.
  unfold routed in Hr. apply andb_true_iff in Hr as [Htop Hi].
  apply bool_decide_eq_true in Htop. apply Z.eqb_eq in Hi. subst t i cfg n next.
  destruct (Hready tp pl Ht Hpl) as (msg & Hmsg & Hok).
  assert (HashPartitioner_Assign (mg_partitioner m) (pr_Topic req) (pr_Key req) =
    (mg_partitioner m, Ok (hashPartition (pr_Key req) (zlen (tp_partitions tp))))) as Ha.
  { apply keyed_assign; [|apply Hp]. by rewrite (mgi_topics _ Hinv), Ht. }
  destruct (Publish_ok pe p m (publish_args req) tp (mg_partitioner m)
    (hashPartition (pr_Key req) (zlen (tp_partitions tp))) pl ms msg)
    as (p1 & m1 & pl1 & Hpub1 & Hm1 & Hms1 & Hn1 & _ & Hr1); [done..| |].
  { destruct (plain_mode req Hp) as [?|[?|(? & ? & ?)]]; auto. }
  rewrite Hpub1 in Hpub. simplify_eq. exists (set_offset msg (ls_next pl)).
  split_and!; [|by eapply build_message_erase|done|done].
  assert (m' = mg_with m (mg_topics m') (mg_partitioner m) ∧ mg_inv m') as [_ Hinv'].
  { clear -Hinv Hpub1 Hm1 Ha. unfold Producer_Publish in Hpub1. cbn [publish_args pa_topic pa_key] in *.
    destruct (Manager_Get m (pr_Topic req)); [|done]. rewrite Ha in Hpub1. rewrite mg_with_same in Hpub1.
    destruct (Topic_PartitionLog _ _); [|done]. destruct (build_message _ _ _ _); [|done].
    destruct (publish_to _ _ _ _ _ _) as [[? ?] ?]. simplify_eq. split; [done|by apply update_inv]. }
  split; [done|]. eexists _, pl1. rewrite Hm1. cbn [publish_args pa_topic].
  rewrite lookup_insert_eq. split_and!; [done|done| | |done|done].
  - cbn. unfold zlen. by rewrite length_insert.
  - unfold Topic_PartitionLog in *. cbn [tp_partitions]. unfold zlen in *. rewrite length_insert.
    destruct (_ || _); [done|]. rewrite list_lookup_insert_eq; [done|].
    destruct (tp_partitions tp !! _) eqn:E; [|done]. by eapply lookup_lt_Some.
Qed.

(** Any other keyed request leaves the log as it is. *)
Lemma publish_other pe p m req t i cfg n ms next p' m' r :
  log_is m t i cfg n ms next → plain req → routed t n i req = false →
  Producer_Publish pe p m (publish_args req) = (p', m', r) →
  log_is m' t i cfg n ms next.
Proof.
  intros [Hinv (tp & pl & Ht & Hcfg & Hn & Hpl & Hms & Hnext)] Hp Hr Hpub.
  unfold Producer_Publish in Hpub. cbn [publish_args pa_topic pa_key] in Hpub.
  unfold Manager_Get in Hpub. destruct (mg_topics m !! pr_Topic req) as [tp0|] eqn:Ht0.
  2: { simplify_eq. split; [done|]. by exists tp, pl. }
  rewrite (keyed_assign _ _ _ (zlen (tp_partitions tp0))) in Hpub;
    [|by rewrite (mgi_topics _ Hinv), Ht0|apply Hp].
  rewrite mg_with_same in Hpub. set (j := hashPartition _ _) in *.
  assert (log_is m t i cfg n ms next) as Hold by (split; [done|]; by exists tp, pl).
  destruct (Topic_PartitionLog tp0 j) as [pl0|e] eqn:Hpl0; [|by simplify_eq].
  destruct (build_message _ _ _ _) as [msg|e]; [|by simplify_eq].
  destruct (publish_to _ _ _ _ _ _) as [[p1 pl1] r1]. simplify_eq.
  split; [by apply update_inv|]. rewrite (update_topics _ _ tp0) by done.
  destruct (decide (pr_Topic req = t)) as [<-|Hne].
  2: { exists tp, pl. by rewrite lookup_insert_ne. }
  rewrite Ht0 in Ht. simplify_eq. rewrite lookup_insert_eq.
  assert (j ≠ i) as Hji.
  { intros Hj. unfold routed in Hr. rewrite bool_decide_eq_true_2 in Hr by done. cbn in Hr.
    fold j in Hr. rewrite Hj, Z.eqb_refl in Hr. done. }
  eexists _, pl. split_and!; [done|done| | |done|done].
  - cbn. unfold zlen. by rewrite length_insert.
  - unfold Topic_PartitionLog in *. cbn [tp_partitions tp_cfg]. unfold zlen in *. rewrite length_insert.
    destruct (Z.ltb_spec i 0) as [|Hi0]; [done|]. destruct (Z.ltb_spec j 0) as [|Hj0]; [done|].
    cbn [orb] in *. destruct (_ <=? i); [done|].
    rewrite list_lookup_insert_ne by (intros Hx; apply Hji; lia). done.
Qed.

(** The same of the call as the broker makes it. *)
Lemma Broker_publish_routed pe b req t i cfg n ms next :
  log_is (b_topics b) t i cfg n ms next → plain req → routed t n i req = true →
  0 <= pd_maxRetries (b_producers b) → step_ready t i pe (b_topics b) req →
  ∃ msg, log_is (b_topics (Broker_publish b pe req).1) t i cfg n (ms ++ [msg]) (next + 1) ∧
    erase msg = published cfg i req next ∧
    (Broker_publish b pe req).2 = Ok (mkPublishResult (msg_ID msg) i next) ∧
    pd_maxRetries (b_producers (Broker_publish b pe req).1) = pd_maxRetries (b_producers b).
Proof.
  intros Hl Hp Hr Hm Hs. unfold Broker_publish.
  destruct (Producer_Publish _ _ _ _) as [[p' m'] r] eqn:E.
  destruct (publish_routed _ _ _ _ _ _ _ _ _ _ _ _ _ Hl Hp Hr Hm Hs E) as (msg & ? & ? & ? & ?).
  by exists msg.
Qed.

Lemma publish_to_retries pe p a part msg (l : L) :
  pd_maxRetries (publish_to pe p a part msg l).1.1 = pd_maxRetries p.
Proof.
  unfold publish_to. destruct (pa_mode a).
  - by destruct (ls_append _ l msg) as [[? ?] [?|?]].
  - by destruct (Producer_publishWithRetry pe p l msg) as [[[? ?] [?|?]] ?].
  - destruct (_ =? 0); [done|]. destruct (cached_result _ _ _ _); [done|].
    by destruct (Producer_publishWithRetry pe p l msg) as [[[? ?] [?|?]] ?].
  - done.
Qed.

Lemma Broker_publish_retries pe b req :
  pd_maxRetries (b_producers (Broker_publish b pe req).1) = pd_maxRetries (b_producers b).
Proof.
  unfold Broker_publish, Producer_Publish. destruct (Manager_Get _ _); [|done].
  destruct (HashPartitioner_Assign _ _ _) as [hp [j|]]; [|done].
  destruct (Topic_PartitionLog _ _); [|done]. destruct (build_message _ _ _ _); [|done].
  pose proof (publish_to_retries pe (b_producers b) (publish_args req) j m l) as Hr.
  by destruct (publish_to _ _ _ _ _ _) as [[? ?] ?].
Qed.

Lemma Broker_publish_other pe b req t i cfg n ms next :
  log_is (b_topics b) t i cfg n ms next → plain req → routed t n i req = false →
  log_is (b_topics (Broker_publish b pe req).1) t i cfg n ms next.
Proof.
  intros Hl Hp Hr. unfold Broker_publish. destruct (Producer_Publish _ _ _ _) as [[p' m'] r] eqn:E.
  by eapply publish_other.
Qed.

(** ** The WAL while publishing *)

Definition wal_clean (mv : MsgEnv) : Prop := mv_wal mv = wal_io_fine.

(** Whenever a request for the log arrives, the log is ready for it. *)
Fixpoint publishes_ready (t : string) (n i : Z) (mvs : list MsgEnv) b (reqs : list PublishRequest) :
    Prop :=
  match reqs with
  | [] => True
  | req :: reqs =>
      let mv := default fine_msg_env (head mvs) in
      (routed t n i req = true → step_ready t i (mv_pub mv) (b_topics b) req) ∧
      publishes_ready t n i (tail mvs) (publish_step mv b req).1 reqs
  end.

(** The captured requests: those for the log carry the offset it assigns. *)
Fixpoint logged (t : string) (n i next : Z) (reqs rs : list PublishRequest) : Prop :=
  match reqs, rs with
  | [], [] => True
  | req :: reqs, r :: rs =>
      (∃ o, r = with_target req o) ∧
      if routed t n i req then r = with_target req (Some next) ∧ logged t n i (next + 1) reqs rs
      else logged t n i next reqs rs
  | _, _ => False
  end.

(** A request that is JSON and fits an entry. *)
Definition entry_fits (req : PublishRequest) : Prop :=
  json_wf req ∧ zlen (default [] (json_Marshal req)) < 2 ^ 32.

Lemma assign_keyed_same b topic key :
  mg_inv (b_topics b) → key ≠ EmptyString → (Broker_assign b topic key).1 = b.
Proof.
  intros Hm Hk. unfold Broker_assign.
  assert ((HashPartitioner_Assign (mg_partitioner (b_topics b)) topic key).1 =
    mg_partitioner (b_topics b)) as Hs.
  { destruct (hp_topics (mg_partitioner (b_topics b)) !! topic) as [n|] eqn:E.
    - by rewrite (keyed_assign _ _ _ n).
    - by apply unknown_assign. }
  destruct (HashPartitioner_Assign _ _ _) as [hp r]. cbn in Hs. subst hp. cbn.
  rewrite mg_with_same. by destruct b.
Qed.

Lemma assign_keyed_part b topic key tp :
  mg_inv (b_topics b) → key ≠ EmptyString → mg_topics (b_topics b) !! topic = Some tp →
  (Broker_assign b topic key).2 = hashPartition key (zlen (tp_partitions tp)).
Proof.
  intros Hm Hk Ht. unfold Broker_assign. rewrite (keyed_assign _ _ _ (zlen (tp_partitions tp))); [done| |done].
  by rewrite (mgi_topics _ Hm), Ht.
Qed.

Lemma publish_args_target req o : publish_args (with_target req o) = publish_args req.
Proof. done. Qed.

Lemma capture_target_shape b req part : ∃ o, capture_target b req part = with_target req o.
Proof.
  unfold capture_target. destruct (next_offset_of _ _ _); [by eexists|].
  exists (pr_TargetOffset req). by destruct req.
Qed.

Lemma publish_step_keyed mv b req :
  mg_inv (b_topics b) → pr_Key req ≠ EmptyString →
  let r := capture_target b req (Broker_assign b (pr_Topic req) (pr_Key req)).2 in
  b_topics (publish_step mv b req).1 = b_topics (Broker_publish b (mv_pub mv) req).1 ∧
  b_producers (publish_step mv b req).1 = b_producers (Broker_publish b (mv_pub mv) req).1 ∧
  b_msgWAL (publish_step mv b req).1 =
    (WAL_Append (mv_wal mv) (b_msgWAL b) (default [] (json_Marshal r))).1 ∧
  (publish_step mv b req).2 = (r, (Broker_publish b (mv_pub mv) req).2).
Proof.
  intros Hm Hk. pose proof (assign_keyed_same b (pr_Topic req) (pr_Key req) Hm Hk) as Hs.
  unfold publish_step. destruct (Broker_assign b _ _) as [b1 part]. cbn in Hs. subst b1. cbv zeta. cbn [snd].
  destruct (capture_target_shape b req part) as [o ->]. unfold Broker_publish.
  cbn [set_metrics set_msgWAL add_pending b_producers b_topics b_msgWAL].
  rewrite publish_args_target. by destruct (Producer_Publish _ _ _ _) as [[p m] r].
Qed.

(** A clean append of a fitting entry. *)
Lemma clean_append w es data :
  wal_rep w es → max_offset es + 2 < 2 ^ 63 → zlen data < 2 ^ 32 →
  let e := mkWalEntry (wal_nextOffset w) data in
  wal_rep (WAL_Append wal_io_fine w data).1 (es ++ [e]) ∧ max_offset (es ++ [e]) = max_offset es + 1.
Proof.
  intros Hw Hm Hd. destruct (WAL_Append wal_io_fine w data) as [w' res] eqn:E.
  destruct (WAL_Append_rep wal_io_fine w es data w' res) as (_ & _ & Hok); [done..|].
  destruct Hok as [_ Hw']; [done|]. cbv zeta. split; [exact Hw'|].
  rewrite max_offset_snoc. cbn. rewrite (wr_next _ _ Hw).
  destruct (Z.ltb_spec (max_offset es) (max_offset es + 1)); lia.
Qed.

(** Publishing leaves the log with the future of the requests, and the WAL
    with the requests and their targets. *)
Lemma publish_steps_log t i cfg n reqs : ∀ mvs b es ms next b1 xs,
  log_is (b_topics b) t i cfg n ms next → Forall plain reqs → Forall wal_clean mvs →
  0 <= pd_maxRetries (b_producers b) → wal_rep (b_msgWAL b) es →
  max_offset es + 2 + Z.of_nat (length reqs) < 2 ^ 63 →
  publishes_ready t n i mvs b reqs → publish_steps mvs b reqs = (b1, xs) →
  Forall entry_fits xs.*1 →
  ∃ ms1 es1, log_is (b_topics b1) t i cfg n (ms ++ ms1) (next + zlen ms1) ∧
    erase <$> ms1 = future cfg t n i next reqs ∧ wal_rep (b_msgWAL b1) (es ++ es1) ∧
    Forall2 (λ e r, json_Unmarshal (we_Data e) = Some r) es1 xs.*1 ∧
    logged t n i next reqs xs.*1.
Proof.
  induction reqs as [|req reqs IH]; intros mvs b es ms next b1 xs Hl Hp Hc Hr Hw Hm Hready Hrun Hfit.
  { cbn in Hrun. simplify_eq. exists [], []. rewrite !app_nil_r, Z.add_0_r. by split_and!. }
  apply Forall_cons in Hp as [Hp Hps]. cbn [publish_steps publishes_ready] in *.
  set (mv := default fine_msg_env (head mvs)) in *.
  assert (mv_wal mv = wal_io_fine) as Hmv by (unfold mv; destruct Hc; [done|apply H1]).
  assert (Forall wal_clean (tail mvs)) as Hc' by (by destruct Hc).
  destruct (publish_step_keyed mv b req) as (Htop & Hprod & Hwal & Hx); [apply Hl|apply Hp|].
  set (r := capture_target b req _) in *.
  destruct (publish_step mv b req) as [b' x] eqn:E. cbn [fst snd] in Htop, Hprod, Hwal, Hx, Hready.
  destruct (publish_steps (tail mvs) b' reqs) as [b2 xs2] eqn:E2. injection Hrun as <- <-.
  subst x. apply Forall_cons in Hfit as [[Hwf Hlen] Hfit]. cbn [fst] in Hwf, Hlen.
  destruct (clean_append (b_msgWAL b) es (default [] (json_Marshal r))) as [Hw' Hm']; [done| |done|].
  { cbn [length] in Hm. lia. }
  rewrite Hmv in Hwal. rewrite <- Hwal in Hw'.
  destruct (json_roundtrip r Hwf) as (data & Hdata & Hback). rewrite Hdata in Hw', Hm'.
  cbn [default from_option id] in Hw', Hm'.
  pose proof (Broker_publish_retries (mv_pub mv) b req) as Hr'. rewrite <- Hprod in Hr'.
  assert (max_offset (es ++ [mkWalEntry (wal_nextOffset (b_msgWAL b)) data]) + 2 +
    Z.of_nat (length reqs) < 2 ^ 63) as Hm2 by (rewrite Hm'; cbn [length] in Hm; lia).
  destruct (capture_target_shape b req (Broker_assign b (pr_Topic req) (pr_Key req)).2) as [o Ho].
  fold r in Ho. cbn [future logged fmap list_fmap fst]. destruct (routed t n i req) eqn:Hrt.
  - destruct Hready as [Hrd Hready]. specialize (Hrd eq_refl).
    destruct (Broker_publish_routed (mv_pub mv) b req t i cfg n ms next) as (msg & Hl' & Hmsg & _ & _);
      [done..|]. rewrite <- Htop in Hl'.
    assert (r = with_target req (Some next)) as Hrn.
    { destruct Hl as [Hinv (tp & pl & Ht & _ & Hn & Hpl & _ & Hnext)]. unfold r, capture_target.
      unfold routed in Hrt. apply andb_true_iff in Hrt as [Ht' Hi%Z.eqb_eq].
      apply bool_decide_eq_true in Ht'. subst t.
      rewrite (assign_keyed_part b _ _ tp) by (done || apply Hp). rewrite Hn, Hi.
      unfold next_offset_of, Manager_Get. by rewrite Ht, Hpl, Hnext. }
    destruct (IH (tail mvs) b' _ (ms ++ [msg]) (next + 1) b2 xs2 Hl' Hps Hc' ltac:(lia) Hw' Hm2 Hready E2 Hfit)
      as (ms1 & es1 & Hl2 & Hf & Hw2 & Hd & Hlog).
    exists (msg :: ms1), (mkWalEntry (wal_nextOffset (b_msgWAL b)) data :: es1).
    rewrite <- app_assoc in Hl2, Hw2. split_and!.
    + replace (next + zlen (msg :: ms1)) with (next + 1 + zlen ms1); [exact Hl2|].
      unfold zlen. cbn [length]. lia.
    + cbn. by rewrite Hmsg, Hf.
    + exact Hw2.
    + by constructor.
    + by exists o.
    + done.
    + done.
  - destruct Hready as [_ Hready].
    pose proof (Broker_publish_other (mv_pub mv) b req t i cfg n ms next Hl Hp Hrt) as Hl'.
    rewrite <- Htop in Hl'.
    destruct (IH (tail mvs) b' _ ms next b2 xs2 Hl' Hps Hc' ltac:(lia) Hw' Hm2 Hready E2 Hfit)
      as (ms1 & es1 & Hl2 & Hf & Hw2 & Hd & Hlog).
    exists ms1, (mkWalEntry (wal_nextOffset (b_msgWAL b)) data :: es1).
    rewrite <- app_assoc in Hw2. split_and!; [done|done|exact Hw2|by constructor|by exists o|done].
Qed.

(** ** The replay *)

(** Whenever an entry for the log has to be written again, the log is ready. *)
Fixpoint replay_ready (t : string) (n i : Z) (pes : list PubEnv) b (es : list WalEntry) : Prop :=
  match es with
  | [] => True
  | e :: es =>
      let pe := default (mkPubEnv "" 0 [] []) (head pes) in
      (∀ req, json_Unmarshal (we_Data e) = Some req → routed t n i req = true →
         (already_written b req).2 = false → step_ready t i pe (b_topics b) req) ∧
      replay_ready t n i (tail pes) (replay_entry pe b e) es
  end.

Lemma already_written_keyed b req :
  mg_inv (b_topics b) → pr_Key req ≠ EmptyString → (already_written b req).1 = b.
Proof.
  intros Hm Hk. unfold already_written. destruct (pr_TargetOffset req); [|done].
  destruct (Manager_Get _ _); [|done].
  pose proof (assign_keyed_same b (pr_Topic req) (pr_Key req) Hm Hk) as Hs.
  by destruct (Broker_assign b _ _).
Qed.

(** For an entry of the log the test compares target and next offset. *)
Lemma already_written_routed b req t i cfg n ms next target :
  log_is (b_topics b) t i cfg n ms next → pr_Key req ≠ EmptyString → routed t n i req = true →
  pr_TargetOffset req = Some target → (already_written b req).2 = (target <? next).
Proof.
  intros [Hinv (tp & pl & Ht & _ & Hn & Hpl & _ & Hnext)] Hk Hr Hto.
  unfold routed in Hr. apply andb_true_iff in Hr as [Ht' Hi%Z.eqb_eq].
  apply bool_decide_eq_true in Ht'. subst t.
  unfold already_written, Manager_Get. rewrite Hto, Ht.
  pose proof (assign_keyed_part b _ _ tp Hinv Hk Ht) as Hp.
  destruct (Broker_assign b _ _) as [b1 part]. cbn in Hp. subst part. rewrite Hn, Hi, Hpl. cbn. by rewrite Hnext.
Qed.

Lemma future_other cfg t n i o req reqs :
  routed t n i req = false → future cfg t n i o (req :: reqs) = future cfg t n i o reqs.
Proof. intros Hr. cbn. by rewrite Hr. Qed.

Lemma replay_entries_log t i cfg n S reqs : ∀ rs es pes b ms next d,
  log_is (b_topics b) t i cfg n ms (next + Z.of_nat d) → Forall plain reqs →
  0 <= pd_maxRetries (b_producers b) →
  (d <= length (future cfg t n i next reqs))%nat →
  erase <$> ms = S ++ take d (future cfg t n i next reqs) →
  Forall2 (λ e r, json_Unmarshal (we_Data e) = Some r) es rs → logged t n i next reqs rs →
  replay_ready t n i pes b es →
  ∃ extra, log_is (b_topics (replay_entries pes b es)) t i cfg n (ms ++ extra)
      (next + Z.of_nat (length (future cfg t n i next reqs))) ∧
    erase <$> (ms ++ extra) = S ++ future cfg t n i next reqs.
Proof.
  revert S. induction reqs as [|req reqs IH];
    intros S rs es pes b ms next d Hl Hp Hm Hd Hms Hes Hlog Hready.
  { destruct rs as [|r rs]; [|done]. apply Forall2_nil_inv_r in Hes as ->. exists [].
    cbn in *. assert (d = 0%nat) as -> by lia. by rewrite app_nil_r. }
  destruct rs as [|r rs]; [by destruct Hlog|].
  apply Forall2_cons_inv_r in Hes as (e & es' & He & Hes & ->).
  apply Forall_cons in Hp as [Hp Hps]. cbn [logged] in Hlog. destruct Hlog as [[o Ho] Hlog].
  cbn [replay_entries replay_ready] in *. destruct Hready as [Hrd Hready].
  set (pe := default (mkPubEnv "" 0 [] []) (head pes)) in *.
  specialize (Hrd r He). unfold replay_entry in *. rewrite He in *.
  assert (pr_Key r ≠ EmptyString) as Hk by (subst r; apply Hp).
  assert (plain r) as Hpr by (by subst r).
  assert (routed t n i r = routed t n i req) as Hrr by (by subst r).
  pose proof (already_written_keyed b r (li_inv _ _ _ _ _ _ _ Hl) Hk) as Hb.
  destruct (already_written b r) as [b0 written] eqn:Ew. cbn [fst snd] in Hb, Hrd. subst b0.
  destruct (routed t n i req) eqn:Hrt.
  - destruct Hlog as [-> Hlog]. cbn [future] in *. rewrite Hrt in *.
    pose proof (already_written_routed b _ t i cfg n ms _ next Hl Hk Hrr eq_refl) as Hw.
    rewrite Ew in Hw. cbn [snd] in Hw. subst written.
    assert (∀ l : list Message, S ++ published cfg i req next :: l = (S ++ [published cfg i req next]) ++ l)
      as Hcons by (intros l; by rewrite <- app_assoc).
    rewrite Hcons. destruct d as [|d].
    + rewrite (proj2 (Z.ltb_ge _ _)) in * by lia.
      destruct (Broker_publish_routed pe b (with_target req (Some next)) t i cfg n ms (next + 0))
        as (msg & Hl' & Hmsg & _ & Hr'); [done..|by apply Hrd|].
      rewrite Z.add_0_r in Hl', Hmsg.
      destruct (IH (S ++ [published cfg i req next]) rs es' (tail pes)
        (Broker_publish b pe (with_target req (Some next))).1 (ms ++ [msg]) (next + 1) 0%nat)
        as (extra & Hl2 & Hms2).
      * by rewrite Z.add_0_r.
      * done.
      * by rewrite Hr'.
      * lia.
      * rewrite fmap_app, Hms. cbn [take]. rewrite !app_nil_r. cbn [fmap list_fmap]. by rewrite Hmsg.
      * done.
      * done.
      * done.
      * exists (msg :: extra). rewrite <- app_assoc in Hl2, Hms2. split; [|exact Hms2].
        replace (next + Z.of_nat (length (published cfg i req next :: future cfg t n i (next + 1) reqs)))
          with (next + 1 + Z.of_nat (length (future cfg t n i (next + 1) reqs))); [exact Hl2|].
        cbn [length]. lia.
    + rewrite (proj2 (Z.ltb_lt _ _)) in * by lia. cbn [take] in Hms. rewrite Hcons in Hms.
      destruct (IH (S ++ [published cfg i req next]) rs es' (tail pes) b ms (next + 1) d)
        as (extra & Hl2 & Hms2); [|done|done| |done..|].
      * by replace (next + 1 + Z.of_nat d) with (next + Z.of_nat (Datatypes.S d)) by lia.
      * cbn [length] in Hd. lia.
      * exists extra. split; [|exact Hms2].
        replace (next + Z.of_nat (length (published cfg i req next :: future cfg t n i (next + 1) reqs)))
          with (next + 1 + Z.of_nat (length (future cfg t n i (next + 1) reqs))); [exact Hl2|].
        cbn [length]. lia.
  - rewrite future_other in * by done. destruct written.
    { by apply (IH S rs es' (tail pes) b ms next d). }
    pose proof (Broker_publish_other pe b r t i cfg n ms _ Hl Hpr Hrr) as Hl'.
    apply (IH S rs es' (tail pes) (Broker_publish b pe r).1 ms next d); [done|done| |done..].
    by rewrite Broker_publish_retries.
Qed.

(** ** Property *)

(** C2: a crash loses no keyed message. Take any partition log, any series of
    keyed publishes that are not exactly-once which its broker makes with a
    fresh message WAL, all their calls going through. Then the log has grown by
    exactly the requests routed to it, in order and at consecutive offsets. And
    whatever tail of these the crash cost the log, and whatever torn entry it
    left at the end of the WAL: replaying the WAL in a new broker extends what
    the log kept to the same messages at the same offsets, none lost and none
    twice, up to message ids and times, which are made anew ([erase]). Keyless
    and exactly-once publishes are another matter: see [recovery_duplicates]. *)
Theorem crash_recovery_restores_log t i cfg n ms next reqs mvs b0 b1 xs :
  log_is (b_topics b0) t i cfg n ms next → wal_rep (b_msgWAL b0) [] →
  0 <= pd_maxRetries (b_producers b0) → Z.of_nat (length reqs) < 2 ^ 62 →
  Forall plain reqs → Forall wal_clean mvs → publishes_ready t n i mvs b0 reqs →
  publish_steps mvs b0 reqs = (b1, xs) → Forall entry_fits xs.*1 →
  ∃ ms1, log_is (b_topics b1) t i cfg n (ms ++ ms1) (next + zlen ms1) ∧
    erase <$> ms1 = future cfg t n i next reqs ∧
    ∀ torn b2 kept pes,
      wal_stops torn → b_walEntries b2 = (wal_open (wal_file (b_msgWAL b1) ++ torn)).2 →
      (kept <= length ms1)%nat →
      log_is (b_topics b2) t i cfg n (ms ++ take kept ms1) (next + Z.of_nat kept) →
      0 <= pd_maxRetries (b_producers b2) → replay_ready t n i pes b2 (b_walEntries b2) →
      ∃ ms3, log_is (b_topics (Broker_replayMessageWAL pes b2)) t i cfg n (ms ++ take kept ms1 ++ ms3)
          (next + zlen ms1) ∧
        erase <$> take kept ms1 ++ ms3 = erase <$> ms1.
Proof.
  intros Hl Hw Hr Hlen Hp Hc Hready Hrun Hfit.
  destruct (publish_steps_log t i cfg n reqs mvs b0 [] ms next b1 xs)
    as (ms1 & es1 & Hl1 & Hf & Hw1 & Hd & Hlog); [done|done|done|done|done| |done|done|done|].
  { change (max_offset []) with (-1). lia. }
  exists ms1. split_and!; [done|done|]. intros torn b2 kept pes Ht He Hk Hl2 Hr2 Hready2.
  cbn [app] in Hw1. rewrite (wr_file _ _ Hw1), wal_open_spec in He by (done || apply Hw1).
  cbn [snd] in He. rewrite He in Hready2.
  assert (length (future cfg t n i next reqs) = length ms1) as Hflen
    by (by rewrite <- Hf, length_fmap).
  destruct (replay_entries_log t i cfg n (erase <$> ms) reqs xs.*1 es1 pes b2
    (ms ++ take kept ms1) next kept) as (extra & Hl3 & Hms3);
    [done|done|done|by rewrite Hflen| |done|done|done|].
  { by rewrite fmap_app, <- Hf, fmap_take. }
  exists extra. rewrite <- app_assoc in Hl3, Hms3. rewrite Hflen in Hl3.
  assert (b_topics (Broker_replayMessageWAL pes b2) = b_topics (replay_entries pes b2 es1)) as ->.
  { unfold Broker_replayMessageWAL. rewrite He. by destruct es1. }
  split; [exact Hl3|]. rewrite fmap_app, <- Hf in Hms3. by apply app_inv_head in Hms3.
Qed.

End Recovery.

(** ** Concrete runs, from the files of one life to the next *)

Definition serve (b : Broker (list Message)) (fs : list Frame) : Broker (list Message) :=
  match Broker_Handle true b (demo_conn RoleAdmin) ((λ f, (demo_henv, f)) <$> fs) with
  | Replied b' _ _ => b'
  | _ => b
  end.

Definition first_life : Broker (list Message) :=
  NewBroker "u1" 0 None (mkAuthConfig true []) None false [] [] [].

(** What a directory of the topic holds at the restart: the log, less the
    messages the crash cost it. *)
Definition reopened (lost : nat) (b : Broker (list Message)) (name : string) (i : Z) :
    result (list Message) seg_err :=
  match Manager_Get (b_topics b) name with
  | Error _ => Ok []
  | Ok tp =>
      match Topic_PartitionLog tp i with
      | Ok l => Ok (take (length l - lost) l)
      | Error _ => Ok []
      end
  end.

Definition second_life (lost : nat) (b : Broker (list Message)) : Broker (list Message) :=
  Broker_Start (reopened lost b) (λ m, snd <$> map_to_list m) []
    (NewBroker "u2" 0 None (mkAuthConfig true []) None false (wal_file (b_msgWAL b))
       (wal_file (ow_wal (b_offsetWAL b))) (wal_file (b_topicWAL b))).

(** The payloads held, by partition. *)
Definition payloads (b : Broker (list Message)) : list (list string) :=
  match mg_topics (b_topics b) !! "orders"%string with
  | Some tp => (λ l : list Message, (string_of_bytes ∘ msg_Payload) <$> l) <$> tp_partitions tp
  | None => []
  end.

Definition create_orders : Frame :=
  demo_frame CmdCreateTopic (mkCreateTopicRequest "orders" 2 1 0 "").

(** An exactly-once publish with number 7. *)
Definition once (payload : string) : PublishRequest :=
  mkPublishRequest "orders" "k" (bytes_of_string payload) ∅ 2 7 0 None.

(** A crash that costs the log two of three keyed messages is repaired. *)
Example keyed_messages_recovered :
  let b := serve first_life (create_orders :: ((λ p, demo_frame CmdPublish (demo_request "k" p))
             <$> ["a"; "b"; "c"])) in
  payloads b = [["a"; "b"; "c"]; []] ∧ payloads (second_life 2 b) = [["a"; "b"; "c"]; []].
Proof. vm_compute. by split. Qed.

(** Recovery publishes two kinds of messages twice, although the crash cost
    the logs nothing.  A keyless message of a topic with two partitions: the
    router is asked once for the target and once for the append and moves on
    in between, so the target is the next offset of the other partition, and
    after the restart the message counts as missing.  And an exactly-once
    message that was published twice with its number: the duplicate is
    suppressed but logged, with the offset after the first as its target, and
    a new broker has forgotten the number. *)
Theorem recovery_duplicates :
  let keyless := serve first_life [create_orders; demo_frame CmdPublish (demo_request "" "a")] in
  let duplicate := serve first_life
    [create_orders; demo_frame CmdPublish (once "a"); demo_frame CmdPublish (once "a")] in
  payloads keyless = [[]; ["a"%string]] ∧
  payloads (second_life 0 keyless) = [[]; ["a"%string; "a"%string]] ∧
  payloads duplicate = [["a"%string]; []] ∧
  payloads (second_life 0 duplicate) = [["a"%string; "a"%string]; []].
Proof. vm_compute. by split_and!. Qed.

(** ** The premises hold of a run *)

Definition three : list PublishRequest :=
  (λ p, demo_request "k" p) <$> ["a"; "b"; "c"].

Definition demo_cfg2 : TopicConfig := mkTopicConfig "orders" 2 1 0 0 0 0 0 "".

Lemma demo_log_is (l0 l1 : list Message) w es :
  log_is (b_topics (set_walEntries (set_msgWAL (demo_broker [l0; l1]) w) es)) "orders" 0 demo_cfg2 2
    l0 (zlen l0).
Proof.
  split.
  - split.
    + intros t. cbn. destruct (decide (t = "orders"%string)) as [->|Hne].
      * rewrite !lookup_singleton_eq. split; [done|by eexists].
      * by rewrite !lookup_singleton_ne.
    + intros t. cbn. destruct (decide (t = "orders"%string)) as [->|Hne].
      * by rewrite !lookup_singleton_eq.
      * by rewrite !lookup_singleton_ne.
  - by exists (demo_topic [l0; l1]), l0.
Qed.

Lemma list_step_ready t i (m : Manager (list Message)) req tp :
  mg_topics m !! t = Some tp → tc_CompressionCodec (tp_cfg tp) = 0 → pr_Codec req = 0 →
  step_ready t i no_env m req.
Proof.
  intros Ht Hc Hr tp' pl Ht' _. rewrite Ht in Ht'. injection Ht' as <-.
  unfold build_message. cbn [publish_args pa_codec]. rewrite Hr, Hc. cbn. by eexists.
Qed.

Lemma three_fit p o : p ∈ ["a"; "b"; "c"]%string → o ∈ [0; 1; 2] →
  entry_fits (with_target (demo_request "k" p) (Some o)).
Proof.
  intros Hp Ho. split.
  - split_and!; try done. intros z [= <-]. unfold i64_min, i64_max. set_unfold in Ho. lia.
  - set_unfold in Hp. set_unfold in Ho.
    destruct Hp as [->|[->|[->|[]]]], Ho as [->|[->|[->|[]]]]; by vm_compute.
Qed.

Lemma three_logged_fit :
  Forall entry_fits (publish_steps [] (demo_broker [[]; []]) three).2.*1.
Proof.
  assert ((publish_steps [] (demo_broker [[]; []]) three).2.*1 =
    [with_target (demo_request "k" "a") (Some 0); with_target (demo_request "k" "b") (Some 1);
     with_target (demo_request "k" "c") (Some 2)]) as -> by (by vm_compute).
  do 3 (apply Forall_cons_2; [apply three_fit; apply list_elem_of_In; simpl; tauto|]).
  constructor.
Qed.

(** The entries of the run, as the WAL gives them back. *)
Definition three_entries : list WalEntry :=
  (wal_open (wal_file (b_msgWAL (publish_steps [] (demo_broker [[]; []]) three).1))).2.

Lemma three_publishes_ready : publishes_ready "orders" 2 0 [] (demo_broker [[]; []]) three.
Proof.
  set (reqs := three). vm_compute in reqs. subst reqs. cbn [publishes_ready].
  split_and!; [intros _..|exact I].
  all: eapply list_step_ready; [vm_compute; reflexivity|reflexivity|reflexivity].
Qed.

Lemma three_replay_ready m1 :
  replay_ready "orders" 2 0 []
    (set_walEntries (demo_broker [[m1]; []]) three_entries) three_entries.
Proof.
  set (es := three_entries) at 2. vm_compute in es. subst es. cbn [replay_ready].
  split_and!; [..|exact I].
  all: intros req Hd _ _; vm_compute in Hd; injection Hd as <-.
  all: eapply list_step_ready; [vm_compute; reflexivity|reflexivity|reflexivity].
Qed.

Lemma crash_recovery_restores_log_witness :
  ∃ ms1 ms3, erase <$> ms1 = future demo_cfg2 "orders" 2 0 0 three ∧
    erase <$> take 1 ms1 ++ ms3 = erase <$> ms1.
Proof.
  pose (b0 := demo_broker [[]; []]).
  destruct (publish_steps [] b0 three) as [b1 xs] eqn:Hrun.
  assert (b1 = (publish_steps [] b0 three).1) as Hb1 by (by rewrite Hrun).
  assert (xs = (publish_steps [] b0 three).2) as Hxs by (by rewrite Hrun).
  destruct (crash_recovery_restores_log "orders" 0 demo_cfg2 2 [] 0 three [] b0 b1 xs)
    as (ms1 & Hl1 & Hf & Hcrash).
  - exact (demo_log_is [] [] (mkWAL [] 0) []).
  - split; [reflexivity|constructor|reflexivity].
  - cbn. lia.
  - cbn. lia.
  - repeat apply Forall_cons_2; [split; [discriminate|by right]..|constructor].
  - constructor.
  - exact three_publishes_ready.
  - exact Hrun.
  - rewrite Hxs. exact three_logged_fit.
  - destruct ms1 as [|m1 ms1]; [discriminate Hf|]. exists (m1 :: ms1).
    destruct (Hcrash [] (set_walEntries (demo_broker [[m1]; []]) three_entries) 1%nat [])
      as (ms3 & _ & Hms3).
    + reflexivity.
    + rewrite app_nil_r, Hb1. reflexivity.
    + cbn. lia.
    + exact (demo_log_is [m1] [] (mkWAL [] 0) _).
    + cbn. lia.
    + exact (three_replay_ready m1).
    + exists ms3. by split.
Defined.
