(* ===== verification/WireReply.v ===== *)
(** * JSON of the response bodies: the other half of [internal/protocol/protocol.go]

    What the broker writes and the client library reads: the members of every
    response struct, the reader and the round trip, in the form of [WireJson].
    [pkg/protocol] declares the same structs and tags for the client. *)

From S2P Require Import Prelude GoLib Json Types Protocol WireJson.

Local Open Scope Z_scope.

(** ** Arrays of strings and maps of integers *)

Definition jstrs (l : list string) : json :=
  match l with
  | [] => JNull
  | _ => JArr (jstr <$> l)
  end.

Definition get_strs (k : string) (l : list (bytes * json)) : option (list string) :=
  match jfield k l with
  | None | Some JNull => Some []
  | Some (JArr js) =>
      mapM (λ j, match j with JStr s => Some (string_of_bytes s) | JNull => Some EmptyString | _ => None end) js
  | _ => None
  end.

Lemma get_strs_eq k l (xs : list string) (e : bool) :
  jfield k l = (if e then None else Some (jstrs xs)) → (e = true → xs = []) → get_strs k l = Some xs.
Proof.
  intros Hk He. unfold get_strs. rewrite Hk. destruct e; [by rewrite He|].
  destruct xs as [|x xs]; [done|]. unfold jstrs. apply mapM_Some_2, Forall2_fmap_l.
  generalize (x :: xs) as ys. induction ys as [|y ys IH]; constructor; [|done].
  change (Some (string_of_bytes (bytes_of_string y)) = Some y). by rewrite string_of_bytes_of_string.
Qed.

Lemma jstrs_valid xs : Forall (λ s, str_valid s = true) xs → json_valid (jstrs xs) = true.
Proof.
  destruct xs as [|x xs]; [done|]. unfold jstrs. cbn [json_valid]. generalize (x :: xs) as ys.
  induction 1 as [|y ys Hy _ IH]; [done|]. cbn [fmap list_fmap forallb jstr json_valid].
  unfold str_valid in Hy. by rewrite Hy.
Qed.

Lemma messages_of_fields ms : Forall Message_wf ms → Forall (λ m, Message_of_fields (Message_fields m) = Some m) ms.
Proof. intros H. eapply Forall_impl; [exact H|]. apply Message_of_fields_ok. Qed.

Lemma messages_valid ms : Forall Message_wf ms → json_valid (jobjs Message_fields ms) = true.
Proof. intros H. apply jobjs_valid. eapply Forall_impl; [exact H|]. apply Message_fields_valid. Qed.

Ltac messages_solve := apply messages_of_fields; assumption.

(** [wire_valid] with the arrays. *)
Ltac reply_valid :=
  repeat first [rewrite members_valid_put | rewrite members_valid_omit];
  repeat first [rewrite messages_valid by assumption | rewrite jstrs_valid by assumption];
  unfold str_valid in *; cbn [json_valid jstr];
  repeat match goal with H : utf8_valid _ = true |- _ => rewrite H end;
  rewrite ?orb_true_r; reflexivity.

(** ** ErrorResponse *)

Record ErrorResponse := mkErrorResponse { er_Code : string; er_Message : string }.

Definition ErrorResponse_fields (r : ErrorResponse) : list (bytes * json) :=
  put "code" (jstr (er_Code r)) ++
  put "message" (jstr (er_Message r)) ++ [].

Definition ErrorResponse_of (l : list (bytes * json)) : option ErrorResponse :=
  match get_str "code" l, get_str "message" l with
  | Some x0, Some x1 => Some (mkErrorResponse x0 x1)
  | _, _ => None
  end.

Definition ErrorResponse_wf (r : ErrorResponse) : Prop :=
  str_valid (er_Code r) = true ∧
  str_valid (er_Message r) = true.

Lemma ErrorResponse_of_fields r : ErrorResponse_wf r → ErrorResponse_of (ErrorResponse_fields r) = Some r.
Proof.
  intros (H0 & H1). unfold ErrorResponse_of, ErrorResponse_fields. wire_bounds.
  rewrite (get_str_eq "code" _ (er_Code r) false) by wire_solve.
  rewrite (get_str_eq "message" _ (er_Message r) false) by wire_solve.
  by destruct r.
Qed.

Lemma ErrorResponse_valid r : ErrorResponse_wf r → json_valid (JObj (ErrorResponse_fields r)) = true.
Proof. intros (H0 & H1). unfold ErrorResponse_fields. reply_valid. Qed.

Lemma ErrorResponse_json_roundtrip r :
  ErrorResponse_wf r → ∃ b, Some (print (JObj (ErrorResponse_fields r))) = Some b ∧ unmarshal_with ErrorResponse_of b = Some r.
Proof. intros Hr. by apply struct_roundtrip; [apply ErrorResponse_valid|apply ErrorResponse_of_fields]. Qed.

#[global] Instance ErrorResponseJson : JsonCodec ErrorResponse := {|
  json_Marshal := λ r, Some (print (JObj (ErrorResponse_fields r)));
  json_Unmarshal := unmarshal_with ErrorResponse_of;
  json_wf := ErrorResponse_wf;
  json_roundtrip := ErrorResponse_json_roundtrip;
|}.

(** ** OKResponse *)

Record OKResponse := mkOKResponse { ok_OK : bool }.

Definition OKResponse_fields (r : OKResponse) : list (bytes * json) :=
  put "ok" (JBool (ok_OK r)) ++ [].

Definition OKResponse_of (l : list (bytes * json)) : option OKResponse :=
  match get_bool "ok" l with
  | Some x0 => Some (mkOKResponse x0)
  | _ => None
  end.

Definition OKResponse_wf (r : OKResponse) : Prop := True.

Lemma OKResponse_of_fields r : OKResponse_wf r → OKResponse_of (OKResponse_fields r) = Some r.
Proof.
  intros _. unfold OKResponse_of, OKResponse_fields. wire_bounds.
  rewrite (get_bool_eq "ok" _ (ok_OK r) false) by wire_solve.
  by destruct r.
Qed.

Lemma OKResponse_valid r : OKResponse_wf r → json_valid (JObj (OKResponse_fields r)) = true.
Proof. intros _. unfold OKResponse_fields. reply_valid. Qed.

Lemma OKResponse_json_roundtrip r :
  OKResponse_wf r → ∃ b, Some (print (JObj (OKResponse_fields r))) = Some b ∧ unmarshal_with OKResponse_of b = Some r.
Proof. intros Hr. by apply struct_roundtrip; [apply OKResponse_valid|apply OKResponse_of_fields]. Qed.

#[global] Instance OKResponseJson : JsonCodec OKResponse := {|
  json_Marshal := λ r, Some (print (JObj (OKResponse_fields r)));
  json_Unmarshal := unmarshal_with OKResponse_of;
  json_wf := OKResponse_wf;
  json_roundtrip := OKResponse_json_roundtrip;
|}.

(** ** AuthResponse *)

Definition AuthResponse_fields (r : AuthResponse) : list (bytes * json) :=
  put "ok" (JBool (aresp_OK r)) ++
  put_omit (bool_decide (aresp_Reason r = EmptyString)) "reason" (jstr (aresp_Reason r)) ++
  put_omit (bool_decide (aresp_Perms r = [])) "permissions" (jstrs (aresp_Perms r)) ++ [].

Definition AuthResponse_of (l : list (bytes * json)) : option AuthResponse :=
  match get_bool "ok" l, get_str "reason" l, get_strs "permissions" l with
  | Some x0, Some x1, Some x2 => Some (mkAuthResponse x0 x1 x2)
  | _, _, _ => None
  end.

Definition AuthResponse_wf (r : AuthResponse) : Prop :=
  str_valid (aresp_Reason r) = true ∧
  Forall (λ s, str_valid s = true) (aresp_Perms r).

Lemma AuthResponse_of_fields r : AuthResponse_wf r → AuthResponse_of (AuthResponse_fields r) = Some r.
Proof.
  intros (H0 & H1). unfold AuthResponse_of, AuthResponse_fields. wire_bounds.
  rewrite (get_bool_eq "ok" _ (aresp_OK r) false) by wire_solve.
  rewrite (get_str_eq "reason" _ (aresp_Reason r) (bool_decide (aresp_Reason r = EmptyString))) by wire_solve.
  rewrite (get_strs_eq "permissions" _ (aresp_Perms r) (bool_decide (aresp_Perms r = []))) by wire_solve.
  by destruct r.
Qed.

Lemma AuthResponse_valid r : AuthResponse_wf r → json_valid (JObj (AuthResponse_fields r)) = true.
Proof. intros (H0 & H1). unfold AuthResponse_fields. reply_valid. Qed.

Lemma AuthResponse_json_roundtrip r :
  AuthResponse_wf r → ∃ b, Some (print (JObj (AuthResponse_fields r))) = Some b ∧ unmarshal_with AuthResponse_of b = Some r.
Proof. intros Hr. by apply struct_roundtrip; [apply AuthResponse_valid|apply AuthResponse_of_fields]. Qed.

#[global] Instance AuthResponseJson : JsonCodec AuthResponse := {|
  json_Marshal := λ r, Some (print (JObj (AuthResponse_fields r)));
  json_Unmarshal := unmarshal_with AuthResponse_of;
  json_wf := AuthResponse_wf;
  json_roundtrip := AuthResponse_json_roundtrip;
|}.

(** ** PublishResponse *)

Definition PublishResponse_fields (r : PublishResponse) : list (bytes * json) :=
  put "message_id" (jstr (pres_MessageID r)) ++
  put "partition" (JNum (pres_Partition r)) ++
  put "offset" (JNum (pres_Offset r)) ++ [].

Definition PublishResponse_of (l : list (bytes * json)) : option PublishResponse :=
  match get_str "message_id" l, get_int i32_min i32_max "partition" l, get_int i64_min i64_max "offset" l with
  | Some x0, Some x1, Some x2 => Some (mkPublishResponse x0 x1 x2)
  | _, _, _ => None
  end.

Definition PublishResponse_wf (r : PublishResponse) : Prop :=
  str_valid (pres_MessageID r) = true ∧
  is_i32 (pres_Partition r) ∧
  is_i64 (pres_Offset r).

Lemma PublishResponse_of_fields r : PublishResponse_wf r → PublishResponse_of (PublishResponse_fields r) = Some r.
Proof.
  intros (H0 & H1 & H2). unfold PublishResponse_of, PublishResponse_fields. wire_bounds.
  rewrite (get_str_eq "message_id" _ (pres_MessageID r) false) by wire_solve.
  rewrite (get_int_eq _ _ "partition" _ (pres_Partition r) false) by wire_solve.
  rewrite (get_int_eq _ _ "offset" _ (pres_Offset r) false) by wire_solve.
  by destruct r.
Qed.

Lemma PublishResponse_valid r : PublishResponse_wf r → json_valid (JObj (PublishResponse_fields r)) = true.
Proof. intros (H0 & H1 & H2). unfold PublishResponse_fields. reply_valid. Qed.

Lemma PublishResponse_json_roundtrip r :
  PublishResponse_wf r → ∃ b, Some (print (JObj (PublishResponse_fields r))) = Some b ∧ unmarshal_with PublishResponse_of b = Some r.
Proof. intros Hr. by apply struct_roundtrip; [apply PublishResponse_valid|apply PublishResponse_of_fields]. Qed.

#[global] Instance PublishResponseJson : JsonCodec PublishResponse := {|
  json_Marshal := λ r, Some (print (JObj (PublishResponse_fields r)));
  json_Unmarshal := unmarshal_with PublishResponse_of;
  json_wf := PublishResponse_wf;
  json_roundtrip := PublishResponse_json_roundtrip;
|}.

(** ** PushFrame *)

Definition PushFrame_fields (r : PushFrame) : list (bytes * json) :=
  put "topic" (jstr (pf_Topic r)) ++
  put "group" (jstr (pf_Group r)) ++
  put "consumer_id" (jstr (pf_ConsumerID r)) ++
  put "partition" (JNum (pf_Partition r)) ++
  put "messages" (jobjs Message_fields (pf_Messages r)) ++ [].

Definition PushFrame_of (l : list (bytes * json)) : option PushFrame :=
  match get_str "topic" l, get_str "group" l, get_str "consumer_id" l, get_int i32_min i32_max "partition" l, get_objs Message_of_fields "messages" l with
  | Some x0, Some x1, Some x2, Some x3, Some x4 => Some (mkPushFrame x0 x1 x2 x3 x4)
  | _, _, _, _, _ => None
  end.

Definition PushFrame_wf (r : PushFrame) : Prop :=
  str_valid (pf_Topic r) = true ∧
  str_valid (pf_Group r) = true ∧
  str_valid (pf_ConsumerID r) = true ∧
  is_i32 (pf_Partition r) ∧
  Forall Message_wf (pf_Messages r).

Lemma PushFrame_of_fields r : PushFrame_wf r → PushFrame_of (PushFrame_fields r) = Some r.
Proof.
  intros (H0 & H1 & H2 & H3 & H4). unfold PushFrame_of, PushFrame_fields. wire_bounds.
  rewrite (get_str_eq "topic" _ (pf_Topic r) false) by wire_solve.
  rewrite (get_str_eq "group" _ (pf_Group r) false) by wire_solve.
  rewrite (get_str_eq "consumer_id" _ (pf_ConsumerID r) false) by wire_solve.
  rewrite (get_int_eq _ _ "partition" _ (pf_Partition r) false) by wire_solve.
  rewrite (get_objs_eq Message_of_fields Message_fields "messages" _ (pf_Messages r)) by (first [by wire_eval|by messages_solve]).
  by destruct r.
Qed.

Lemma PushFrame_valid r : PushFrame_wf r → json_valid (JObj (PushFrame_fields r)) = true.
Proof. intros (H0 & H1 & H2 & H3 & H4). unfold PushFrame_fields. reply_valid. Qed.

Lemma PushFrame_json_roundtrip r :
  PushFrame_wf r → ∃ b, Some (print (JObj (PushFrame_fields r))) = Some b ∧ unmarshal_with PushFrame_of b = Some r.
Proof. intros Hr. by apply struct_roundtrip; [apply PushFrame_valid|apply PushFrame_of_fields]. Qed.

#[global] Instance PushFrameJson : JsonCodec PushFrame := {|
  json_Marshal := λ r, Some (print (JObj (PushFrame_fields r)));
  json_Unmarshal := unmarshal_with PushFrame_of;
  json_wf := PushFrame_wf;
  json_roundtrip := PushFrame_json_roundtrip;
|}.

(** ** FetchResponse *)

Definition FetchResponse_fields (r : FetchResponse) : list (bytes * json) :=
  put "topic" (jstr (fp_Topic r)) ++
  put "partition" (JNum (fp_Partition r)) ++
  put "messages" (jobjs Message_fields (fp_Messages r)) ++
  put_omit (negb (fp_RawBytes r)) "raw_bytes" (JBool (fp_RawBytes r)) ++
  put_omit (fp_BytesSent r =? 0) "bytes_sent" (JNum (fp_BytesSent r)) ++ [].

Definition FetchResponse_of (l : list (bytes * json)) : option FetchResponse :=
  match get_str "topic" l, get_int i32_min i32_max "partition" l, get_objs Message_of_fields "messages" l, get_bool "raw_bytes" l, get_int i64_min i64_max "bytes_sent" l with
  | Some x0, Some x1, Some x2, Some x3, Some x4 => Some (mkFetchResponse x0 x1 x2 x3 x4)
  | _, _, _, _, _ => None
  end.

Definition FetchResponse_wf (r : FetchResponse) : Prop :=
  str_valid (fp_Topic r) = true ∧
  is_i32 (fp_Partition r) ∧
  Forall Message_wf (fp_Messages r) ∧
  is_i64 (fp_BytesSent r).

Lemma FetchResponse_of_fields r : FetchResponse_wf r → FetchResponse_of (FetchResponse_fields r) = Some r.
Proof.
  intros (H0 & H1 & H2 & H3). unfold FetchResponse_of, FetchResponse_fields. wire_bounds.
  rewrite (get_str_eq "topic" _ (fp_Topic r) false) by wire_solve.
  rewrite (get_int_eq _ _ "partition" _ (fp_Partition r) false) by wire_solve.
  rewrite (get_objs_eq Message_of_fields Message_fields "messages" _ (fp_Messages r)) by (first [by wire_eval|by messages_solve]).
  rewrite (get_bool_eq "raw_bytes" _ (fp_RawBytes r) (negb (fp_RawBytes r))) by wire_solve.
  rewrite (get_int_eq _ _ "bytes_sent" _ (fp_BytesSent r) (fp_BytesSent r =? 0)) by wire_solve.
  by destruct r.
Qed.

Lemma FetchResponse_valid r : FetchResponse_wf r → json_valid (JObj (FetchResponse_fields r)) = true.
Proof. intros (H0 & H1 & H2 & H3). unfold FetchResponse_fields. reply_valid. Qed.

Lemma FetchResponse_json_roundtrip r :
  FetchResponse_wf r → ∃ b, Some (print (JObj (FetchResponse_fields r))) = Some b ∧ unmarshal_with FetchResponse_of b = Some r.
Proof. intros Hr. by apply struct_roundtrip; [apply FetchResponse_valid|apply FetchResponse_of_fields]. Qed.

#[global] Instance FetchResponseJson : JsonCodec FetchResponse := {|
  json_Marshal := λ r, Some (print (JObj (FetchResponse_fields r)));
  json_Unmarshal := unmarshal_with FetchResponse_of;
  json_wf := FetchResponse_wf;
  json_roundtrip := FetchResponse_json_roundtrip;
|}.

(** ** BatchPublishResponse *)

Record BatchPublishResponse := mkBatchPublishResponse { bpr_Results : list PublishResponse }.

Definition BatchPublishResponse_fields (r : BatchPublishResponse) : list (bytes * json) :=
  put "results" (jobjs PublishResponse_fields (bpr_Results r)) ++ [].

Definition BatchPublishResponse_of (l : list (bytes * json)) : option BatchPublishResponse :=
  mkBatchPublishResponse <$> get_objs PublishResponse_of "results" l.

Definition BatchPublishResponse_wf (r : BatchPublishResponse) : Prop :=
  Forall PublishResponse_wf (bpr_Results r).

Lemma BatchPublishResponse_json_roundtrip r :
  BatchPublishResponse_wf r →
  ∃ b, Some (print (JObj (BatchPublishResponse_fields r))) = Some b ∧
       unmarshal_with BatchPublishResponse_of b = Some r.
Proof.
  intros Hr. apply struct_roundtrip.
  - unfold BatchPublishResponse_fields. rewrite members_valid_put, jobjs_valid; [done|].
    eapply Forall_impl; [exact Hr|]. apply PublishResponse_valid.
  - unfold BatchPublishResponse_of, BatchPublishResponse_fields.
    rewrite (get_objs_eq PublishResponse_of PublishResponse_fields "results" _ (bpr_Results r)).
    + by destruct r.
    + by wire_eval.
    + eapply Forall_impl; [exact Hr|]. apply PublishResponse_of_fields.
Qed.

#[global] Instance BatchPublishResponseJson : JsonCodec BatchPublishResponse := {|
  json_Marshal := λ r, Some (print (JObj (BatchPublishResponse_fields r)));
  json_Unmarshal := unmarshal_with BatchPublishResponse_of;
  json_wf := BatchPublishResponse_wf;
  json_roundtrip := BatchPublishResponse_json_roundtrip;
|}.

(** ** SeekResponse

    A map of integers: members sorted by key, [null] read as zero, the last of
    two members with one name kept. *)

Definition ikey_le : relation (string * Z) := λ a b, String.le a.1 b.1.

#[global] Instance ikey_le_dec a b : Decision (ikey_le a b) := decide (String.le a.1 b.1).

Definition imap_members (m : gmap string Z) : list (bytes * json) :=
  (λ kv, (bytes_of_string kv.1, JNum kv.2)) <$> merge_sort ikey_le (map_to_list m).

Fixpoint ints_of_members (l : list (bytes * json)) : option (list (string * Z)) :=
  match l with
  | [] => Some []
  | (k, JNum z) :: l =>
      if (i64_min <=? z) && (z <=? i64_max)
      then (λ m, (string_of_bytes k, z) :: m) <$> ints_of_members l
      else None
  | (k, JNull) :: l => (λ m, (string_of_bytes k, 0) :: m) <$> ints_of_members l
  | _ => None
  end.

Definition get_imap (k : string) (l : list (bytes * json)) : option (gmap string Z) :=
  match jfield k l with
  | None | Some JNull => Some ∅
  | Some (JObj m) => (λ l, list_to_map (reverse l)) <$> ints_of_members m
  | _ => None
  end.

Lemma ints_of_members_fmap (l : list (string * Z)) : Forall (λ kv, is_i64 kv.2) l →
  ints_of_members ((λ kv, (bytes_of_string kv.1, JNum kv.2)) <$> l) = Some l.
Proof.
  induction 1 as [|[k v] l Hv _ IH]; [done|]. rewrite fmap_cons. cbn [ints_of_members fst snd] in *.
  rewrite IH. unfold is_i64 in Hv.
  assert ((i64_min <=? v) && (v <=? i64_max) = true) as -> by (unfold i64_min, i64_max; lia).
  cbn [fmap option_fmap option_map]. by rewrite string_of_bytes_of_string.
Qed.

Lemma imap_roundtrip m : map_Forall (λ _ v, is_i64 v) m →
  (λ l, list_to_map (reverse l)) <$> ints_of_members (imap_members m) = Some m.
Proof.
  intros Hm. unfold imap_members. rewrite ints_of_members_fmap.
  - cbn [fmap option_fmap option_map]. f_equal. rewrite <- (list_to_map_to_list m) at 2. apply list_to_map_proper.
    + rewrite reverse_Permutation, merge_sort_Permutation. apply NoDup_fst_map_to_list.
    + by rewrite reverse_Permutation, merge_sort_Permutation.
  - rewrite merge_sort_Permutation. apply map_Forall_to_list in Hm.
    eapply Forall_impl; [exact Hm|]. by intros [k v].
Qed.

Record SeekResponse := mkSeekResponse { skr_Offsets : gmap string Z }.

Definition SeekResponse_fields (r : SeekResponse) : list (bytes * json) :=
  put "offsets" (JObj (imap_members (skr_Offsets r))) ++ [].

Definition SeekResponse_of (l : list (bytes * json)) : option SeekResponse :=
  mkSeekResponse <$> get_imap "offsets" l.

Definition SeekResponse_wf (r : SeekResponse) : Prop :=
  map_Forall (λ k v, str_valid k = true ∧ is_i64 v) (skr_Offsets r).

Lemma imap_valid m : map_Forall (λ k v, str_valid k = true ∧ is_i64 v) m →
  json_valid (JObj (imap_members m)) = true.
Proof.
  intros Hm. simpl. apply forallb_forall. intros [k v] Hin.
  apply list_elem_of_In in Hin. apply list_elem_of_fmap in Hin as ([k' v'] & [= -> ->] & Hin).
  rewrite merge_sort_Permutation, elem_of_map_to_list in Hin. destruct (Hm _ _ Hin) as [Hk Hv].
  unfold str_valid in *. simpl. by rewrite Hk.
Qed.

Lemma SeekResponse_json_roundtrip r :
  SeekResponse_wf r →
  ∃ b, Some (print (JObj (SeekResponse_fields r))) = Some b ∧ unmarshal_with SeekResponse_of b = Some r.
Proof.
  intros Hr. apply struct_roundtrip.
  - unfold SeekResponse_fields. by rewrite members_valid_put, imap_valid.
  - unfold SeekResponse_of, SeekResponse_fields, get_imap. rewrite jfield_put. rewrite jfield_nil. cbn [String.eqb Ascii.eqb Bool.eqb]. rewrite imap_roundtrip; [by destruct r|].
    intros k v Hk. by apply (Hr k v).
Qed.

#[global] Instance SeekResponseJson : JsonCodec SeekResponse := {|
  json_Marshal := λ r, Some (print (JObj (SeekResponse_fields r)));
  json_Unmarshal := unmarshal_with SeekResponse_of;
  json_wf := SeekResponse_wf;
  json_roundtrip := SeekResponse_json_roundtrip;
|}.
