(* ===== verification/PkgProtocol.v ===== *)
(** * The protocol of the client library: [pkg/protocol/protocol.go]

    The library carries its own copy of the codec, so that it imports nothing
    of the broker.  The copy is translated here on its own, and the facts below
    are about the two ends of a connection: each reads what the other writes. *)

From S2P Require Import Prelude GoLib Json Types Protocol.

Local Open Scope Z_scope.

Definition Pkg_Magic : Z := 0x50534201.
Definition Pkg_Version : Z := 1.
Definition Pkg_HeaderSize : Z := 4 + 1 + 1 + 8 + 4.
Definition Pkg_MaxBodySize : Z := 16 * 1024 * 1024.

Definition Pkg_CmdPublish : Z := 0x01.
Definition Pkg_CmdSubscribe : Z := 0x02.
Definition Pkg_CmdUnsubscribe : Z := 0x03.
Definition Pkg_CmdFetch : Z := 0x04.
Definition Pkg_CmdAck : Z := 0x05.
Definition Pkg_CmdNack : Z := 0x06.
Definition Pkg_CmdCommitOffset : Z := 0x07.
Definition Pkg_CmdCreateTopic : Z := 0x08.
Definition Pkg_CmdDeleteTopic : Z := 0x09.
Definition Pkg_CmdListTopics : Z := 0x0A.
Definition Pkg_CmdAuth : Z := 0x0B.
Definition Pkg_CmdPing : Z := 0x0C.
Definition Pkg_CmdPong : Z := 0x0D.
Definition Pkg_CmdResponse : Z := 0x0E.
Definition Pkg_CmdError : Z := 0x0F.
Definition Pkg_CmdBatchPublish : Z := 0x10.
Definition Pkg_CmdPush : Z := 0x20.
Definition Pkg_CmdSeek : Z := 0x30.
Definition Pkg_CmdResetGroup : Z := 0x31.

(** The cases of [Command.String]. *)
Definition Pkg_command_names : list (Z * string) :=
  [(Pkg_CmdPublish, "PUBLISH"); (Pkg_CmdSubscribe, "SUBSCRIBE"); (Pkg_CmdUnsubscribe, "UNSUBSCRIBE"); (Pkg_CmdFetch, "FETCH");
   (Pkg_CmdAck, "ACK"); (Pkg_CmdNack, "NACK"); (Pkg_CmdCommitOffset, "COMMIT_OFFSET"); (Pkg_CmdCreateTopic, "CREATE_TOPIC");
   (Pkg_CmdDeleteTopic, "DELETE_TOPIC"); (Pkg_CmdListTopics, "LIST_TOPICS"); (Pkg_CmdAuth, "AUTH"); (Pkg_CmdPing, "PING");
   (Pkg_CmdPong, "PONG"); (Pkg_CmdResponse, "RESPONSE"); (Pkg_CmdError, "ERROR"); (Pkg_CmdBatchPublish, "BATCH_PUBLISH");
   (Pkg_CmdPush, "PUSH")]%string.

Definition Pkg_Command_String (c : Z) : string :=
  match list_find (λ p, p.1 = c) Pkg_command_names with
  | Some (_, (_, s)) => s
  | None =>
      ("UNKNOWN(0x" +:+
       string_of_bytes [upper_hex_digit (Z.shiftr (u8 c) 4); upper_hex_digit (Z.land (u8 c) 15)] +:+ ")")%string
  end.

(** A frame and the errors are those of [Protocol]; [Flush] hands the buffered
    bytes [buf] to the connection, or does nothing on a writer that has none. *)
Definition Pkg_Encoder_Flush (buffered : bool) (sent buf : bytes) (ok : bool) : bytes * bytes * result unit proto_err :=
  if buffered then if ok then (sent ++ buf, [], Ok tt) else (sent, buf, Error WriteErr) else (sent, buf, Ok tt).

Definition Pkg_frame_header (f : Frame) : bytes :=
  put_u32 Pkg_Magic ++ [byte.of_Z Pkg_Version; byte.of_Z (fr_Command f)] ++
  put_u64 (fr_RequestID f) ++ put_u32 (u32 (zlen (fr_Body f))).

Definition Pkg_Encoder_writeFrame (w : bytes) (f : Frame) (ok_hdr ok_body : bool) : bytes * result unit proto_err :=
  if negb ok_hdr then (w, Error WriteErr)
  else
    let w := w ++ Pkg_frame_header f in
    if 0 <? zlen (fr_Body f) then if ok_body then (w ++ fr_Body f, Ok tt) else (w, Error WriteErr)
    else (w, Ok tt).

(** [body] is what [json.Marshal] made of it: [None] for a nil body,
    [Some None] when it failed. *)
Definition Pkg_Encoder_Encode (w : bytes) (cmd requestID : Z) (body : option (option bytes)) (ok_hdr ok_body : bool) :
    bytes * result unit proto_err :=
  match default (Some []) body with
  | None => (w, Error EncodeBodyErr)
  | Some bodyBytes =>
      if Pkg_MaxBodySize <? u32 (zlen bodyBytes) then (w, Error (BodyTooLarge (zlen bodyBytes)))
      else Pkg_Encoder_writeFrame w (mkFrame cmd requestID bodyBytes) ok_hdr ok_body
  end.

Definition Pkg_Decoder_Decode (r : bytes) : result (Frame * bytes) proto_err :=
  match io_ReadFull r Pkg_HeaderSize with
  | Error e => Error (ReadHeaderErr e)
  | Ok (hdr, r1) =>
      let magic := get_uint (slice 0 4 hdr) in
      if negb (magic =? Pkg_Magic) then Error (InvalidMagic magic)
      else
        let ver := get_uint (slice 4 5 hdr) in
        if negb (ver =? Pkg_Version) then Error (UnsupportedVersion ver)
        else
          let cmd := get_uint (slice 5 6 hdr) in
          let reqID := get_uint (slice 6 14 hdr) in
          let bodyLen := get_uint (slice 14 18 hdr) in
          if Pkg_MaxBodySize <? bodyLen then Error (BodyTooLarge bodyLen)
          else if MaxInt32 <? bodyLen then Error BodyOverflow
          else if 0 <? bodyLen then
            match io_ReadFull r1 bodyLen with
            | Error e => Error (ReadBodyErr e)
            | Ok (body, r2) => Ok (mkFrame cmd reqID body, r2)
            end
          else Ok (mkFrame cmd reqID [], r1)
  end.

(** [Unmarshal] into a value that is [zero] before. *)
Definition Pkg_Unmarshal {A} (decode : bytes → option A) (f : Frame) (zero : A) : option A :=
  if zlen (fr_Body f) =? 0 then Some zero else decode (fr_Body f).

(** ** The two ends *)

(** The frames the encoder of one side puts on the wire, one [Encode] after
    another; a body is marshalled already. *)
Definition encode_all (encode : bytes → Frame → bytes * result unit proto_err) (fs : list Frame) : bytes :=
  foldl (λ w f, (encode w f).1) [] fs.

Definition sdk_encode (w : bytes) (f : Frame) : bytes * result unit proto_err :=
  Pkg_Encoder_Encode w (fr_Command f) (fr_RequestID f) (Some (Some (fr_Body f))) true true.

Fixpoint sdk_decode_stream (fuel : nat) (r : bytes) : list Frame :=
  match fuel with
  | O => []
  | S fuel =>
      match Pkg_Decoder_Decode r with
      | Ok (f, r') => f :: sdk_decode_stream fuel r'
      | Error _ => []
      end
  end.

Lemma sdk_encode_frame w f : frame_wf f → sdk_encode w f = (w ++ frame_bytes f, Ok tt).
Proof.
  intros (Hc & Hid & Hl). unfold sdk_encode, Pkg_Encoder_Encode, Pkg_Encoder_writeFrame, frame_bytes. cbn [default from_option id negb].
  pose proof (zlen_nonneg (fr_Body f)). unfold MaxBodySize in *. rewrite u32_id by lia.
  unfold Pkg_MaxBodySize. rewrite (proj2 (Z.ltb_ge _ _)) by done. destruct f as [c i b]; cbn [fr_Body fr_Command fr_RequestID] in *.
  destruct (Z.ltb_spec 0 (zlen b)); [by rewrite app_assoc|].
  assert (b = []) as -> by (apply zlen_zero; lia). by rewrite app_nil_r.
Qed.

Lemma encode_all_frames fs : Forall frame_wf fs → encode_all sdk_encode fs = mjoin (frame_bytes <$> fs).
Proof.
  intros Hf. unfold encode_all. assert (∀ w, foldl (λ w f, (sdk_encode w f).1) w fs = w ++ mjoin (frame_bytes <$> fs)) as H.
  { induction Hf as [|f fs Hf _ IH]; intros w; [cbn; by rewrite app_nil_r|].
    cbn [foldl]. rewrite sdk_encode_frame by done. cbn [fst]. by rewrite IH, fmap_cons, mjoin_cons, <- app_assoc. }
  by rewrite H.
Qed.

Lemma sdk_decode_stream_eq fuel r : sdk_decode_stream fuel r = decode_stream fuel r.
Proof. revert r. induction fuel as [|fuel IH]; intros r; [done|]. cbn. change (Pkg_Decoder_Decode r) with (Decoder_Decode r). by destruct (Decoder_Decode r) as [[f r']|]; [rewrite IH|]. Qed.

Lemma decode_stream_frames fs fuel :
  Forall frame_wf fs → (length fs < fuel)%nat → decode_stream fuel (mjoin (frame_bytes <$> fs)) = fs.
Proof.
  intros Hwf. revert fuel. induction Hwf as [|f fs Hf Hfs IH]; intros [|fuel] Hn; try (simpl in Hn; lia); cbn [decode_stream].
  - reflexivity.
  - rewrite fmap_cons, mjoin_cons, Decoder_Decode_frame by done. f_equal. apply IH. simpl in Hn. lia.
Qed.

(** Over one connection the broker reads the frames the library wrote, and the
    library reads the frames the broker wrote. *)
Lemma ends_understand_each_other fs fuel :
  Forall frame_wf fs → (length fs < fuel)%nat →
  decode_stream fuel (encode_all sdk_encode fs) = fs ∧
  sdk_decode_stream fuel (mjoin (frame_bytes <$> fs)) = fs.
Proof.
  intros Hf Hn. split; [rewrite encode_all_frames by done; by apply decode_stream_frames|].
  etrans; [apply sdk_decode_stream_eq|by apply decode_stream_frames].
Qed.

(** The library prints every command as the broker does but two, for which it
    has no case. *)
Lemma seek_has_no_name c :
  0 <= c < 256 → Pkg_Command_String c ≠ Command_String c ↔ c = CmdSeek ∨ c = CmdResetGroup.
Proof.
  intros Hc.
  assert (Forall (λ c, Pkg_Command_String c ≠ Command_String c ↔ c = CmdSeek ∨ c = CmdResetGroup) (seqZ 0 256)) as H
    by (apply (bool_decide_unpack _); by vm_compute).
  rewrite Forall_forall in H. apply H, elem_of_seqZ. lia.
Qed.
