(* ===== verification/Client.v ===== *)
(** * The client's calls: [pkg/client/client.go], [errors.go], [options.go]

    A client multiplexes the calls of its goroutines over one connection.  Its
    state is the counter of request ids, the map from ids to the channels of
    waiting callers, the callers themselves and what the encoder has written.
    Callers and the read loop take turns in any order: an event is what one of
    them does between two points where the others may run, and a run is a list
    of events.  Channels have capacity one, so a channel is an optional frame,
    the [nil] frame included. *)

From S2P Require Import Prelude GoLib Json Types Protocol WireJson WireReply.

Local Open Scope Z_scope.

(** ** Errors *)

Module Errors.

Inductive client_err :=
| ErrNotAuthenticated (code : string)
| ErrTopicNotFound (topic code : string)
| ErrBrokerOverloaded (code : string)
| ErrConnectionClosed (cause : option proto_err)
| ErrQuorumTimeout (code : string)
| ErrBroker (code message : string)
| Cancelled
| BadResponse.

Definition mapBrokerError (code message : string) : client_err :=
  if bool_decide (code = "UNAUTHORIZED") || bool_decide (code = "AUTH_FAILED") then ErrNotAuthenticated code
  else if bool_decide (code = "TOPIC_NOT_FOUND") then ErrTopicNotFound "" code
  else if bool_decide (code = "RATE_LIMITED") || bool_decide (code = "OVERLOADED") then ErrBrokerOverloaded code
  else if bool_decide (code = "QUORUM_TIMEOUT") then ErrQuorumTimeout code
  else ErrBroker code message.

End Errors.

Import Errors.

(** ** Options *)

Record clientOptions := mkClientOptions {
  op_dialTimeout : Z;
  op_readTimeout : Z;
  op_writeTimeout : Z;
}.

Definition defaultClientOptions : clientOptions :=
  mkClientOptions (10 * 10 ^ 9) (30 * 10 ^ 9) (10 * 10 ^ 9).

(** ** State *)

(** The [interface{}] that is marshalled: nil, or a value of a struct type. *)
Inductive request_body :=
| NilBody
| Body {A : Type} (codec : JsonCodec A) (x : A).

Definition Encode_body (w : bytes) (cmd requestID : Z) (body : request_body) : bytes * result unit proto_err :=
  match body with
  | NilBody => Encoder_Encode (A := AuthRequest) w cmd requestID None true true
  | Body codec x => Encoder_Encode w cmd requestID (Some x) true true
  end.

(** Where a caller of [sendRecv] stands: its id is in the map and its frame
    not yet written; in the [select]; back. *)
Inductive call_stage :=
| Registered (cmd : Z) (body : request_body)
| Waiting
| Returned (r : result Frame client_err).

(** A caller: its request id (none when the client was closed), its channel. *)
Record Call := mkCall {
  ca_id : option Z;
  ca_chan : option (option Frame);
  ca_stage : call_stage;
}.

(** [cl_deadline] is the read deadline of the connection, if any. *)
Record Client := mkClient {
  cl_opts : clientOptions;
  cl_nextReq : Z;
  cl_pending : gmap Z nat;
  cl_calls : list Call;
  cl_wire : bytes;
  cl_closed : bool;
  cl_readDone : bool;
  cl_pushRouters : gmap Z nat;
  cl_nextRouterID : Z;
  cl_pushActive : Z;
  cl_deadline : option Z;
}.

Section Setters.
Implicit Type c : Client.

Definition set_pending c (p : gmap Z nat) : Client :=
  mkClient (cl_opts c) (cl_nextReq c) p (cl_calls c) (cl_wire c) (cl_closed c) (cl_readDone c)
    (cl_pushRouters c) (cl_nextRouterID c) (cl_pushActive c) (cl_deadline c).

Definition set_calls c (cs : list Call) : Client :=
  mkClient (cl_opts c) (cl_nextReq c) (cl_pending c) cs (cl_wire c) (cl_closed c) (cl_readDone c)
    (cl_pushRouters c) (cl_nextRouterID c) (cl_pushActive c) (cl_deadline c).

Definition set_wire c (w : bytes) : Client :=
  mkClient (cl_opts c) (cl_nextReq c) (cl_pending c) (cl_calls c) w (cl_closed c) (cl_readDone c)
    (cl_pushRouters c) (cl_nextRouterID c) (cl_pushActive c) (cl_deadline c).

Definition set_flags c (closed readDone : bool) : Client :=
  mkClient (cl_opts c) (cl_nextReq c) (cl_pending c) (cl_calls c) (cl_wire c) closed readDone
    (cl_pushRouters c) (cl_nextRouterID c) (cl_pushActive c) (cl_deadline c).

Definition set_routers c (rs : gmap Z nat) (next : Z) : Client :=
  mkClient (cl_opts c) (cl_nextReq c) (cl_pending c) (cl_calls c) (cl_wire c) (cl_closed c) (cl_readDone c)
    rs next (cl_pushActive c) (cl_deadline c).

Definition set_deadline c (d : option Z) : Client :=
  mkClient (cl_opts c) (cl_nextReq c) (cl_pending c) (cl_calls c) (cl_wire c) (cl_closed c) (cl_readDone c)
    (cl_pushRouters c) (cl_nextRouterID c) (cl_pushActive c) d.

(** [pushActive.Add], an int32. *)
Definition add_pushActive c (n : Z) : Client :=
  mkClient (cl_opts c) (cl_nextReq c) (cl_pending c) (cl_calls c) (cl_wire c) (cl_closed c) (cl_readDone c)
    (cl_pushRouters c) (cl_nextRouterID c) (i32 (cl_pushActive c + n)) (cl_deadline c).

(** [nextReq.Add(1)] with the call it makes. *)
Definition push_call c (id : Z) (ca : Call) : Client :=
  mkClient (cl_opts c) id (<[id := length (cl_calls c)]> (cl_pending c)) (cl_calls c ++ [ca]) (cl_wire c)
    (cl_closed c) (cl_readDone c) (cl_pushRouters c) (cl_nextRouterID c) (cl_pushActive c) (cl_deadline c).

Definition set_call c (i : nat) (ca : Call) : Client := set_calls c (<[i := ca]> (cl_calls c)).

End Setters.

(** ** [Dial] *)

(** The handshake: a ping, and a pong read under the dial timeout.  [conn] is
    the stream the broker sends. *)
Definition ping (conn : bytes) : result bytes client_err :=
  match Decoder_Decode conn with
  | Error e => Error (ErrConnectionClosed (Some e))
  | Ok (f, rest) => if fr_Command f =? CmdPong then Ok rest else Error BadResponse
  end.

(** A client after the handshake, with what is left of the stream. *)
Definition Dial (opts : clientOptions) (conn : bytes) : result (Client * bytes) client_err :=
  let w := (Encode_body [] CmdPing 0 NilBody).1 in
  match ping conn with
  | Error e => Error e
  | Ok rest => Ok (mkClient opts 0 ∅ [] w false false ∅ 0 0 None, rest)
  end.

(** ** [sendRecv] *)

(** Up to the insertion into the map. *)
Definition sendRecv_begin (c : Client) (cmd : Z) (body : request_body) : Client :=
  if cl_closed c then
    set_calls c (cl_calls c ++ [mkCall None None (Returned (Error (ErrConnectionClosed None)))])
  else
    let reqID := u64 (cl_nextReq c + 1) in
    push_call c reqID (mkCall (Some reqID) None (Registered cmd body)).

Definition forget (c : Client) (id : option Z) : Client :=
  match id with
  | Some id => set_pending c (delete id (cl_pending c))
  | None => c
  end.

(** The write under the connection's mutex.  [fails] is [None] when the bytes
    go out, and else what part of them did before the write or the flush
    failed. *)
Definition sendRecv_write (c : Client) (i : nat) (fails : option bytes) : option Client :=
  match cl_calls c !! i with
  | Some (mkCall (Some id) ch (Registered cmd body)) =>
      let err c e :=
        set_call (forget c (Some id)) i (mkCall (Some id) ch (Returned (Error (ErrConnectionClosed (Some e))))) in
      match Encode_body (cl_wire c) cmd id body with
      | (_, Error e) => Some (err c e)
      | (w, Ok _) =>
          match fails with
          | Some sent => Some (err (set_wire c (cl_wire c ++ sent)) WriteErr)
          | None => Some (set_call (set_wire c w) i (mkCall (Some id) ch Waiting))
          end
      end
  | _ => None
  end.

(** What the caller makes of the frame in its channel.  An error body that is
    not one leaves the zero value. *)
Definition frame_result (x : option Frame) : result Frame client_err :=
  match x with
  | None => Error (ErrConnectionClosed None)
  | Some f =>
      if fr_Command f =? CmdError then
        let e := default (mkErrorResponse "" "") (Unmarshal f (mkErrorResponse "" "")) in
        Error (mapBrokerError (er_Code e) (er_Message e))
      else Ok f
  end.

(** The three branches of the [select]. *)
Definition sendRecv_recv (c : Client) (i : nat) : option Client :=
  match cl_calls c !! i with
  | Some (mkCall id (Some x) Waiting) => Some (set_call c i (mkCall id None (Returned (frame_result x))))
  | _ => None
  end.

Definition sendRecv_cancel (c : Client) (i : nat) : option Client :=
  match cl_calls c !! i with
  | Some (mkCall id ch Waiting) => Some (set_call (forget c id) i (mkCall id ch (Returned (Error Cancelled))))
  | _ => None
  end.

Definition sendRecv_closed (c : Client) (i : nat) : option Client :=
  match cl_calls c !! i with
  | Some (mkCall id ch Waiting) =>
      if cl_closed c then Some (set_call c i (mkCall id ch (Returned (Error (ErrConnectionClosed None)))))
      else None
  | _ => None
  end.

(** ** The read loop *)

(** The deadline at the top of the loop. *)
Definition read_deadline (now : Z) (c : Client) : Client :=
  if 0 <? cl_pushActive c then set_deadline c None
  else if 0 <? op_readTimeout (cl_opts c) then set_deadline c (Some (now + op_readTimeout (cl_opts c)))
  else c.

(** The send into a channel; [None] is a send that blocks on a full one. *)
Definition chan_send (c : Client) (i : nat) (x : option Frame) : option Client :=
  match cl_calls c !! i with
  | Some (mkCall id None st) => Some (set_call c i (mkCall id (Some x) st))
  | _ => None
  end.

(** [route]: [None] when the loop blocks. *)
Definition route (c : Client) (f : Frame) : option Client :=
  match cl_pending c !! fr_RequestID f with
  | None => Some c
  | Some i => chan_send (set_pending c (delete (fr_RequestID f) (cl_pending c))) i (Some f)
  end.

(** [failAll]: a [nil] for every waiter whose channel has room. *)
Definition failAll (c : Client) : Client :=
  foldr (λ i c, default c (chan_send c i None)) (set_pending c ∅) (map_to_list (cl_pending c)).*2.

(** One turn of the loop with a frame; pushes go to the routers. *)
Definition read_frame (c : Client) (f : Frame) : option Client :=
  if cl_readDone c then None
  else if fr_Command f =? CmdPush then Some c
  else route c f.

(** The turn that ends the loop. *)
Definition read_error (c : Client) : option Client :=
  if cl_readDone c then None
  else if cl_closed c then Some (set_flags c true true)
  else Some (set_flags (failAll c) false true).

(** ** Push routers *)

Definition registerPushRouter (c : Client) (fn : nat) : Client * Z :=
  let id := u64 (cl_nextRouterID c + 1) in
  (set_routers c (<[id := fn]> (cl_pushRouters c)) id, id).

Definition deregisterPushRouter (c : Client) (id : Z) : Client :=
  set_routers c (delete id (cl_pushRouters c)) (cl_nextRouterID c).

Definition PushRouterCount (c : Client) : nat := size (cl_pushRouters c).

(** [routePush]: handlers in an order the map chooses, until one claims the
    frame. *)
Fixpoint routePush {S : Type} (fns : list nat) (handle : nat → Frame → S → S * bool) (f : Frame) (s : S) : S :=
  match fns with
  | [] => s
  | fn :: fns =>
      match handle fn f s with
      | (s, true) => s
      | (s, false) => routePush fns handle f s
      end
  end.

(** ** [Close] *)

(** Up to the wait for the read loop. *)
Definition Close_begin (c : Client) : Client :=
  if cl_closed c then c else set_flags c true (cl_readDone c).

(** ** Runs *)

Inductive client_event :=
| EvCall (cmd : Z) (body : request_body)
| EvWrite (i : nat) (fails : option bytes)
| EvRecv (i : nat)
| EvCancel (i : nat)
| EvClosed (i : nat)
| EvTurn (now : Z)
| EvRead (f : Frame)
| EvReadError
| EvClose.

(** [None]: the event cannot happen in this state. *)
Definition client_step (c : Client) (e : client_event) : option Client :=
  match e with
  | EvCall cmd body => Some (sendRecv_begin c cmd body)
  | EvWrite i fails => sendRecv_write c i fails
  | EvRecv i => sendRecv_recv c i
  | EvCancel i => sendRecv_cancel c i
  | EvClosed i => sendRecv_closed c i
  | EvTurn now => Some (read_deadline now c)
  | EvRead f => read_frame c f
  | EvReadError => read_error c
  | EvClose => Some (Close_begin c)
  end.

Fixpoint client_run (c : Client) (es : list client_event) : option Client :=
  match es with
  | [] => Some c
  | e :: es =>
      match client_step c e with
      | Some c => client_run c es
      | None => None
      end
  end.

(** ** What every run keeps *)

Section Invariant.
(** The frames read from the connection. *)
Context (R : Frame → Prop).

(** A call's channel and its result hold frames that were read, with its own
    id. *)
Definition call_ok (ca : Call) : Prop :=
  (∀ f, ca_chan ca = Some (Some f) → ca_id ca = Some (fr_RequestID f) ∧ R f) ∧
  (∀ f, ca_stage ca = Returned (Ok f) → ca_id ca = Some (fr_RequestID f) ∧ R f ∧ fr_Command f ≠ CmdError).

(** An id in the map leads to the call that owns it, whose channel is empty. *)
Definition pending_ok (c : Client) : Prop :=
  ∀ id i, cl_pending c !! id = Some i →
    ∃ st, cl_calls c !! i = Some (mkCall (Some id) None st).

Definition client_ok (c : Client) : Prop := pending_ok c ∧ Forall call_ok (cl_calls c).

Lemma pending_inj c id id' i :
  pending_ok c → cl_pending c !! id = Some i → cl_pending c !! id' = Some i → id = id'.
Proof. intros Hp H1 H2. destruct (Hp _ _ H1) as [st E1], (Hp _ _ H2) as [st' E2]. by simplify_eq. Qed.

(** Replacing a call that is in the map only under ids that keep leading to it. *)
Lemma set_call_ok c i ca0 ca :
  client_ok c → cl_calls c !! i = Some ca0 → call_ok ca →
  (∀ id, cl_pending c !! id = Some i → ca_id ca = Some id ∧ ca_chan ca = None) →
  client_ok (set_call c i ca).
Proof.
  intros [Hp Hc] Hi Hca Hid. pose proof (lookup_lt_Some _ _ _ Hi) as Hlt. split.
  - intros id j Hj. cbn in *. destruct (decide (j = i)) as [->|Hne].
    + destruct (Hid _ Hj) as [E1 E2]. exists (ca_stage ca). rewrite list_lookup_insert_eq by done.
      destruct ca; cbn in *. by subst.
    + rewrite list_lookup_insert_ne by done. by apply Hp.
  - cbn. by apply Forall_insert.
Qed.

Lemma forget_ok c id : client_ok c → client_ok (forget c id).
Proof.
  intros [Hp Hc]. destruct id as [id|]; [|by split]. split; [|done].
  intros k i Hk. cbn in *. apply lookup_delete_Some in Hk as [_ Hk]. by apply Hp.
Qed.

Lemma forget_calls c id : cl_calls (forget c id) = cl_calls c.
Proof. by destruct id. Qed.

Lemma forget_pending c id k i :
  cl_pending (forget c id) !! k = Some i → cl_pending c !! k = Some i ∧ id ≠ Some k.
Proof. destruct id as [id|]; cbn; [|done]. intros [? ?]%lookup_delete_Some. split; congruence. Qed.

Lemma set_wire_ok c w : client_ok c → client_ok (set_wire c w).
Proof. done. Qed.

Lemma begin_ok c cmd body : client_ok c → client_ok (sendRecv_begin c cmd body).
Proof.
  intros [Hp Hc]. unfold sendRecv_begin. destruct (cl_closed c).
  - split; cbn.
    + intros id i Hi. destruct (Hp _ _ Hi) as [st E]. exists st. by apply lookup_app_l_Some.
    + apply Forall_app_2; [done|]. apply Forall_cons_2; [|apply Forall_nil_2]. by split.
  - split; cbn.
    + intros id i Hi. cbn in Hi |- *. destruct (decide (id = u64 (cl_nextReq c + 1))) as [->|Hne].
      * rewrite lookup_insert_eq in Hi. simplify_eq. eexists. rewrite lookup_app_r by lia.
        by rewrite Nat.sub_diag.
      * rewrite lookup_insert_ne in Hi by done. destruct (Hp _ _ Hi) as [st E]. exists st.
        by apply lookup_app_l_Some.
    + apply Forall_app_2; [done|]. apply Forall_cons_2; [|apply Forall_nil_2]. by split.
Qed.

Lemma call_ok_at c i ca : client_ok c → cl_calls c !! i = Some ca → call_ok ca.
Proof. intros [_ Hc] Hi. by eapply Forall_lookup_1 in Hc. Qed.

Lemma write_ok c i fails c' : client_ok c → sendRecv_write c i fails = Some c' → client_ok c'.
Proof.
  intros Hok Hw. unfold sendRecv_write in Hw.
  destruct (cl_calls c !! i) as [[[id|] ch [cmd body| |]]|] eqn:Hi; try done.
  destruct (call_ok_at _ _ _ Hok Hi) as [Hch _]. cbn in Hch.
  assert (∀ c0 e, client_ok c0 → cl_calls c0 = cl_calls c → client_ok (set_call (forget c0 (Some id)) i
    (mkCall (Some id) ch (Returned (Error (ErrConnectionClosed (Some e))))))) as Herr.
  { intros c0 e H0 E. eapply set_call_ok; [by apply forget_ok|rewrite forget_calls, E; exact Hi|by split|].
    intros k Hk. apply forget_pending in Hk as [Hk Hne]. destruct H0 as [Hp _].
    destruct (Hp _ _ Hk) as [st E']. rewrite E, Hi in E'. by simplify_eq. }
  destruct (Encode_body _ cmd id body) as [w [u|e]].
  - destruct fails as [sent|]; simplify_eq; [by apply Herr|].
    eapply set_call_ok; [exact Hok|exact Hi|by split|].
    intros k Hk. destruct Hok as [Hp _]. destruct (Hp _ _ Hk) as [st E]. rewrite Hi in E. by simplify_eq.
  - simplify_eq. by apply Herr.
Qed.

Lemma frame_result_ok x f : frame_result x = Ok f → x = Some f ∧ fr_Command f ≠ CmdError.
Proof.
  destruct x as [g|]; [|done]. cbn. destruct (Z.eqb_spec (fr_Command g) CmdError); [done|].
  intros [= ->]. done.
Qed.

Lemma recv_ok c i c' : client_ok c → sendRecv_recv c i = Some c' → client_ok c'.
Proof.
  intros Hok Hr. unfold sendRecv_recv in Hr.
  destruct (cl_calls c !! i) as [[id [x|] [cmd body| |]]|] eqn:Hi; try done. simplify_eq.
  destruct (call_ok_at _ _ _ Hok Hi) as [Hch _]. cbn in Hch.
  eapply set_call_ok; [exact Hok|exact Hi| |].
  - split; cbn; [done|]. intros f [= Hf]. apply frame_result_ok in Hf as [-> Hf]. destruct (Hch _ eq_refl). by split_and!.
  - intros k Hk. destruct Hok as [Hp _]. destruct (Hp _ _ Hk) as [st E]. rewrite Hi in E. by simplify_eq.
Qed.

Lemma return_err_ok c c0 i id ch st e :
  client_ok c → cl_calls c !! i = Some (mkCall id ch st) → client_ok c0 → cl_calls c0 = cl_calls c →
  (∀ k, cl_pending c0 !! k = Some i → id = Some k ∧ ch = None) →
  client_ok (set_call c0 i (mkCall id ch (Returned (Error e)))).
Proof.
  intros Hok Hi H0 E Hk. destruct (call_ok_at _ _ _ Hok Hi) as [Hch _].
  eapply set_call_ok; [exact H0|by rewrite E|by split|done].
Qed.

Lemma pending_at c i id ch st k :
  client_ok c → cl_calls c !! i = Some (mkCall id ch st) → cl_pending c !! k = Some i → id = Some k ∧ ch = None.
Proof. intros [Hp _] Hi Hk. destruct (Hp _ _ Hk) as [st' E]. rewrite Hi in E. by simplify_eq. Qed.

Lemma cancel_ok c i c' : client_ok c → sendRecv_cancel c i = Some c' → client_ok c'.
Proof.
  intros Hok Hr. unfold sendRecv_cancel in Hr.
  destruct (cl_calls c !! i) as [[id ch [cmd body| |]]|] eqn:Hi; try done. simplify_eq.
  eapply return_err_ok; [exact Hok|exact Hi|by apply forget_ok|apply forget_calls|].
  intros k [Hk _]%forget_pending. by eapply pending_at.
Qed.

Lemma closed_ok c i c' : client_ok c → sendRecv_closed c i = Some c' → client_ok c'.
Proof.
  intros Hok Hr. unfold sendRecv_closed in Hr.
  destruct (cl_calls c !! i) as [[id ch [cmd body| |]]|] eqn:Hi; try done.
  destruct (cl_closed c); simplify_eq.
  eapply return_err_ok; [exact Hok|exact Hi|exact Hok|done|]. intros k Hk. by eapply pending_at.
Qed.

(** A send to a call that is out of the map. *)
Lemma chan_send_ok c i id st x :
  client_ok c → cl_calls c !! i = Some (mkCall (Some id) None st) →
  (∀ k, cl_pending c !! k ≠ Some i) → (∀ f, x = Some f → fr_RequestID f = id ∧ R f) →
  ∃ c', chan_send c i x = Some c' ∧ client_ok c' ∧ cl_pending c' = cl_pending c ∧
    (∀ j, j ≠ i → cl_calls c' !! j = cl_calls c !! j).
Proof.
  intros Hok Hi Hno Hx. unfold chan_send. rewrite Hi. eexists. split; [reflexivity|].
  destruct (call_ok_at _ _ _ Hok Hi) as [_ Hst]. cbn in Hst. split_and!; [|done|].
  - eapply set_call_ok; [exact Hok|exact Hi| |].
    + split; cbn; [|done]. intros f [= ->]. by destruct (Hx f eq_refl) as [-> ?].
    + intros k Hk. by apply Hno in Hk.
  - intros j Hj. cbn. by rewrite list_lookup_insert_ne.
Qed.

(** [route] finds room: the loop never blocks on a caller. *)
Lemma route_ok c f : client_ok c → R f → ∃ c', route c f = Some c' ∧ client_ok c'.
Proof.
  intros Hok Hf. unfold route. destruct (cl_pending c !! fr_RequestID f) as [i|] eqn:Hi; [|by exists c].
  destruct Hok as [Hp Hc]. destruct (Hp _ _ Hi) as [st E].
  destruct (chan_send_ok (forget c (Some (fr_RequestID f))) i (fr_RequestID f) st (Some f))
    as (c' & Hs & Hok' & _).
  - by apply forget_ok.
  - done.
  - intros k [Hk Hne]%forget_pending. apply Hne. f_equal. by eapply pending_inj.
  - by intros g [= ->].
  - exists c'. by split.
Qed.

Lemma send_all_ok js : ∀ c, client_ok c → cl_pending c = ∅ → NoDup js →
  (∀ i, i ∈ js → ∃ id st, cl_calls c !! i = Some (mkCall (Some id) None st)) →
  client_ok (foldr (λ i c, default c (chan_send c i None)) c js) ∧
  cl_pending (foldr (λ i c, default c (chan_send c i None)) c js) = ∅ ∧
  ∀ j, j ∉ js → cl_calls (foldr (λ i c, default c (chan_send c i None)) c js) !! j = cl_calls c !! j.
Proof.
  induction js as [|i js IH]; intros c Hok Hp Hnd Hin; [done|]. cbn [foldr].
  apply NoDup_cons in Hnd as [Hni Hnd].
  destruct (IH c Hok Hp Hnd) as (Hok' & Hp' & Hj); [intros j Hj; apply Hin; set_solver|].
  set (c0 := foldr _ c js) in *. destruct (Hin i ltac:(set_solver)) as (id & st & Hi).
  destruct (chan_send_ok c0 i id st None) as (c' & -> & Hok'' & Hpe & Hoth).
  - done.
  - by rewrite Hj.
  - intros k. rewrite Hp'. by rewrite lookup_empty.
  - done.
  - cbn [default from_option Datatypes.id]. split_and!; [done|by rewrite Hpe|].
    intros j Hnj. rewrite Hoth by set_solver. apply Hj. set_solver.
Qed.

Lemma pending_values_NoDup c : client_ok c → NoDup (map_to_list (cl_pending c)).*2.
Proof.
  intros [Hp _]. apply NoDup_fmap_2_strong; [|apply NoDup_map_to_list].
  intros [k i] [k' i'] Hk Hk' E. cbn in E. subst i'. rewrite elem_of_map_to_list in Hk, Hk'.
  f_equal. by eapply pending_inj.
Qed.

Lemma failAll_ok c : client_ok c → client_ok (failAll c).
Proof.
  intros Hok. unfold failAll. apply send_all_ok.
  - split; [|apply Hok]. intros k i Hk. cbn in Hk. by rewrite lookup_empty in Hk.
  - done.
  - by apply pending_values_NoDup.
  - intros i Hi. apply list_elem_of_fmap in Hi as ([k j] & -> & Hj). rewrite elem_of_map_to_list in Hj.
    cbn. destruct Hok as [Hp _]. destruct (Hp _ _ Hj) as [st E]. by exists k, st.
Qed.

Definition event_read (e : client_event) : Prop :=
  match e with
  | EvRead f => R f
  | _ => True
  end.

Lemma client_step_ok c e c' : client_ok c → event_read e → client_step c e = Some c' → client_ok c'.
Proof.
  intros Hok He Hs. destruct e; cbn [client_step] in Hs.
  - simplify_eq. by apply begin_ok.
  - by eapply write_ok.
  - by eapply recv_ok.
  - by eapply cancel_ok.
  - by eapply closed_ok.
  - simplify_eq. unfold read_deadline. by repeat case_match.
  - unfold read_frame in Hs. destruct (cl_readDone c); [done|]. destruct (_ =? _); [by simplify_eq|].
    destruct (route_ok c f Hok He) as (c1 & Hr & Hok'). congruence.
  - unfold read_error in Hs. destruct (cl_readDone c); [done|]. destruct (cl_closed c); simplify_eq; [done|].
    exact (failAll_ok _ Hok).
  - simplify_eq. unfold Close_begin. by case_match.
Qed.

Lemma client_run_ok es : ∀ c c', client_ok c → Forall event_read es → client_run c es = Some c' → client_ok c'.
Proof.
  induction es as [|e es IH]; intros c c' Hok He Hr; cbn [client_run] in Hr; [by simplify_eq|].
  apply Forall_cons in He as [He Hes]. destruct (client_step c e) as [c1|] eqn:E; [|done].
  eapply IH; [|done..]. by eapply client_step_ok.
Qed.

Lemma Dial_ok opts conn c rest : Dial opts conn = Ok (c, rest) → client_ok c.
Proof.
  unfold Dial. destruct (ping conn); [|done]. intros [= <- <-]. split; [|apply Forall_nil_2].
  intros k i Hk. cbn in Hk. by rewrite lookup_empty in Hk.
Qed.

End Invariant.

(** ** Request ids *)

Definition call_ids (c : Client) : list (option Z) := ca_id <$> cl_calls c.

(** What a step does to the ids handed out and to the counter. *)
Definition ids_step (c c' : Client) : Prop :=
  (call_ids c' = call_ids c ∧ cl_nextReq c' = cl_nextReq c) ∨
  (call_ids c' = call_ids c ++ [None] ∧ cl_nextReq c' = cl_nextReq c) ∨
  (call_ids c' = call_ids c ++ [Some (u64 (cl_nextReq c + 1))] ∧ cl_nextReq c' = u64 (cl_nextReq c + 1)).

Lemma set_call_ids c i ca0 ca :
  cl_calls c !! i = Some ca0 → ca_id ca = ca_id ca0 → call_ids (set_call c i ca) = call_ids c.
Proof.
  intros Hi E. unfold call_ids, set_call. cbn. rewrite list_fmap_insert, E. apply list_insert_id.
  by rewrite list_lookup_fmap, Hi.
Qed.

Lemma forget_next c id : cl_nextReq (forget c id) = cl_nextReq c.
Proof. by destruct id. Qed.

Lemma chan_send_ids c i x c' :
  chan_send c i x = Some c' → call_ids c' = call_ids c ∧ cl_nextReq c' = cl_nextReq c.
Proof.
  unfold chan_send. destruct (cl_calls c !! i) as [[id [?|] st]|] eqn:Hi; try done.
  intros [= <-]. split; [by eapply set_call_ids|done].
Qed.

Lemma failAll_ids c : call_ids (failAll c) = call_ids c ∧ cl_nextReq (failAll c) = cl_nextReq c.
Proof.
  unfold failAll. induction (map_to_list (cl_pending c)).*2 as [|i js [IH1 IH2]]; [done|]. cbn [foldr].
  set (c0 := foldr _ _ js) in *. destruct (chan_send c0 i None) as [c1|] eqn:E; cbn; [|done].
  apply chan_send_ids in E as [-> ->]. done.
Qed.

Lemma write_ids c i fails c' :
  sendRecv_write c i fails = Some c' → call_ids c' = call_ids c ∧ cl_nextReq c' = cl_nextReq c.
Proof.
  unfold sendRecv_write. destruct (cl_calls c !! i) as [[[id|] ch [cmd body| |]]|] eqn:Hi; try done.
  intros H. repeat case_match; simplify_eq; (split; [|done]);
    (eapply eq_trans; [eapply set_call_ids; [rewrite ?forget_calls; exact Hi|done]|done]).
Qed.

Lemma client_step_ids c e c' : client_step c e = Some c' → ids_step c c'.
Proof.
  intros Hs. destruct e; cbn [client_step] in Hs.
  - simplify_eq. unfold sendRecv_begin. destruct (cl_closed c); [right; left|right; right];
      (split; [|done]); unfold call_ids; cbn; by rewrite fmap_app.
  - left. by eapply write_ids.
  - left. unfold sendRecv_recv in Hs. repeat case_match; simplify_eq. split; [by eapply set_call_ids|done].
  - left. unfold sendRecv_cancel in Hs. repeat case_match; simplify_eq.
    split; [|apply forget_next]. eapply eq_trans; [eapply set_call_ids; [rewrite forget_calls; eassumption|done]|].
    unfold call_ids. by rewrite forget_calls.
  - left. unfold sendRecv_closed in Hs. repeat case_match; simplify_eq. split; [by eapply set_call_ids|done].
  - left. simplify_eq. unfold read_deadline. by repeat case_match.
  - left. unfold read_frame, route in Hs. repeat case_match; simplify_eq; try done.
    apply chan_send_ids in Hs as [-> ->]. done.
  - left. unfold read_error in Hs. repeat case_match; simplify_eq; [done|]. exact (failAll_ids c).
  - left. simplify_eq. unfold Close_begin. by case_match.
Qed.

(** The ids of the callers are the numbers from one on, while they last. *)
Definition ids_ok (c : Client) : Prop :=
  ∃ n : nat, omap id (call_ids c) = (λ k, u64 (Z.of_nat k)) <$> seq 1 n ∧
    (n <= length (cl_calls c))%nat ∧ cl_nextReq c = u64 (Z.of_nat n).

Lemma u64_succ z : u64 (u64 z + 1) = u64 (z + 1).
Proof. unfold u64. by rewrite Z.add_mod_idemp_l. Qed.

Lemma ids_step_ok c c' : ids_ok c → ids_step c c' → ids_ok c'.
Proof.
  intros (n & Hids & Hn & Hnext) Hs.
  assert (length (cl_calls c) = length (call_ids c)) as Hl by (unfold call_ids; by rewrite length_fmap).
  assert (length (cl_calls c') = length (call_ids c')) as Hl' by (unfold call_ids; by rewrite length_fmap).
  destruct Hs as [[E1 E2]|[[E1 E2]|[E1 E2]]]; rewrite E1 in Hl'.
  - exists n. rewrite E1, E2. split_and!; [done|lia|done].
  - exists n. rewrite E1, E2, omap_app, Hids. rewrite length_app in Hl'. cbn. rewrite app_nil_r.
    split_and!; [done|lia|done].
  - exists (S n). rewrite E1, E2, Hnext, omap_app, Hids, u64_succ. rewrite length_app in Hl'. cbn [length] in Hl'.
    rewrite seq_S, fmap_app. split_and!; [|lia|f_equal; lia].
    cbn. do 3 f_equal. lia.
Qed.

Lemma client_run_ids es : ∀ c c', ids_ok c → client_run c es = Some c' → ids_ok c'.
Proof.
  induction es as [|e es IH]; intros c c' Hok Hr; cbn [client_run] in Hr; [by simplify_eq|].
  destruct (client_step c e) as [c1|] eqn:E; [|done]. eapply IH; [|done].
  eapply ids_step_ok; [done|]. by eapply client_step_ids.
Qed.

Lemma omap_id_lookup {A} (l : list (option A)) : NoDup (omap id l) → ∀ i j x,
  l !! i = Some (Some x) → l !! j = Some (Some x) → i = j.
Proof.
  induction l as [|o l IH]; intros Hnd i j x Hi Hj; [done|].
  assert (∀ k, l !! k = Some (Some x) → x ∈ omap id l) as Hin.
  { intros k Hk. apply list_elem_of_omap. exists (Some x). split; [by eapply list_elem_of_lookup_2|done]. }
  destruct o as [y|]; cbn in Hnd.
  - apply NoDup_cons in Hnd as [Hy Hnd]. destruct i as [|i], j as [|j]; cbn in *; simplify_eq.
    + done.
    + destruct Hy. by eapply Hin.
    + destruct Hy. by eapply Hin.
    + f_equal. by eapply IH.
  - destruct i as [|i], j as [|j]; cbn in *; simplify_eq. f_equal. by eapply IH.
Qed.

Lemma ids_ok_unique c i j ca ca' k :
  ids_ok c → zlen (cl_calls c) < 2 ^ 64 → cl_calls c !! i = Some ca → cl_calls c !! j = Some ca' →
  ca_id ca = Some k → ca_id ca' = Some k → i = j.
Proof.
  intros (n & Hids & Hn & _) Hlen Hi Hj E E'. unfold zlen in Hlen.
  apply (omap_id_lookup (call_ids c)) with k.
  - rewrite Hids. apply NoDup_fmap_2_strong; [|apply NoDup_seq].
    intros a b Ha Hb Hab. rewrite elem_of_seq in Ha, Hb. unfold u64 in Hab.
    rewrite !Z.mod_small in Hab by lia. lia.
  - unfold call_ids. by rewrite list_lookup_fmap, Hi, <- E.
  - unfold call_ids. by rewrite list_lookup_fmap, Hj, <- E'.
Qed.

Lemma Dial_ids opts conn c rest : Dial opts conn = Ok (c, rest) → ids_ok c.
Proof. unfold Dial. destruct (ping conn); [|done]. intros [= <- <-]. by exists 0%nat. Qed.

Lemma events_read es : Forall (event_read (λ f, EvRead f ∈ es)) es.
Proof. apply Forall_forall. intros e He. by destruct e. Qed.

(** ** Properties *)

(** C12: concurrent calls get their own answers.  Whatever the order in which
    callers register, write, give up or return and frames arrive, a caller
    that returns a frame returns one that was read from the connection with
    the caller's request id and is no error; a frame never makes the read loop
    wait for a caller; and no two callers of a client have the same id as long
    as there are fewer than 2^64 of them. *)
Theorem sdk_replies_reach_callers opts conn c0 rest es c :
  Dial opts conn = Ok (c0, rest) → client_run c0 es = Some c →
  (∀ i ca f, cl_calls c !! i = Some ca → ca_stage ca = Returned (Ok f) →
     ca_id ca = Some (fr_RequestID f) ∧ EvRead f ∈ es ∧ fr_Command f ≠ CmdError) ∧
  (∀ f, is_Some (route c f)) ∧
  (zlen (cl_calls c) < 2 ^ 64 → ∀ i j ca ca' k, cl_calls c !! i = Some ca → cl_calls c !! j = Some ca' →
     ca_id ca = Some k → ca_id ca' = Some k → i = j).
Proof.
  intros Hd Hr.
  pose proof (client_run_ok _ _ _ _ (Dial_ok (λ f, EvRead f ∈ es) _ _ _ _ Hd) (events_read es) Hr) as Hok.
  assert (client_ok (λ _, True) c) as Hok'.
  { eapply client_run_ok; [by eapply Dial_ok| |exact Hr]. apply Forall_forall. by intros []. }
  split_and!.
  - intros i ca f Hi Hf. by apply (call_ok_at _ _ _ _ Hok Hi).
  - intros f. destruct (route_ok _ c f Hok' I) as (c' & -> & _). done.
  - intros Hlen i j ca ca' k. apply ids_ok_unique; [|done]. eapply client_run_ids; [by eapply Dial_ids|exact Hr].
Qed.

(** ** An answer arrives *)

Lemma lookup_set_call c i ca0 ca :
  cl_calls c !! i = Some ca0 → cl_calls (set_call c i ca) !! i = Some ca.
Proof. intros Hi. cbn. apply list_lookup_insert_eq. by eapply lookup_lt_Some. Qed.

(** The caller whose id the frame has gets it, and nobody else is touched. *)
Lemma answer_delivered c i f :
  cl_readDone c = false → fr_Command f ≠ CmdPush → cl_pending c !! fr_RequestID f = Some i →
  cl_calls c !! i = Some (mkCall (Some (fr_RequestID f)) None Waiting) →
  client_run c [EvRead f; EvRecv i] = Some (set_call (set_pending c (delete (fr_RequestID f) (cl_pending c))) i
    (mkCall (Some (fr_RequestID f)) None (Returned (frame_result (Some f))))).
Proof.
  intros Hr Hf Hp Hi. unfold client_run, client_step, read_frame, route. rewrite Hr.
  destruct (Z.eqb_spec (fr_Command f) CmdPush); [done|]. rewrite Hp. unfold chan_send.
  change (cl_calls (set_pending c _)) with (cl_calls c). rewrite Hi. unfold sendRecv_recv.
  rewrite (lookup_set_call (set_pending c _) i _ _ Hi). unfold set_call, set_calls. cbn.
  by rewrite list_insert_insert_eq.
Qed.

(** ** After the read loop is gone

    An error other than [Close] ends the loop and leaves the client open: a
    call made afterwards is registered and written like any other, and no
    event but its own cancellation or a [Close] ever returns it. *)

Lemma call_kept c e c' i id :
  cl_readDone c = true → cl_closed c = false → cl_calls c !! i = Some (mkCall id None Waiting) →
  e ≠ EvCancel i → e ≠ EvClose → client_step c e = Some c' →
  cl_readDone c' = true ∧ cl_closed c' = false ∧ cl_calls c' !! i = Some (mkCall id None Waiting).
Proof.
  intros Hr Hcl Hi H1 H2 Hs. pose proof (lookup_lt_Some _ _ _ Hi) as Hlt.
  assert (∀ c0 j ca, cl_readDone c0 = true → cl_closed c0 = false → cl_calls c0 = cl_calls c → j ≠ i →
    cl_readDone (set_call c0 j ca) = true ∧ cl_closed (set_call c0 j ca) = false ∧
    cl_calls (set_call c0 j ca) !! i = Some (mkCall id None Waiting)) as Hother.
  { intros c0 j ca E1 E2 E3 Hj. split_and!; [done|done|]. cbn. by rewrite E3, list_lookup_insert_ne. }
  destruct e as [cmd b|j fails|j|j|j|now|f| |]; cbn [client_step] in Hs.
  - simplify_eq. unfold sendRecv_begin. rewrite Hcl. cbn. split_and!; [done|done|]. by apply lookup_app_l_Some.
  - unfold sendRecv_write in Hs. destruct (cl_calls c !! j) as [[[k|] ch [cmd b| |]]|] eqn:Hj; try done.
    assert (j ≠ i) as Hne by (intros ->; congruence).
    destruct (Encode_body _ cmd k b) as [w [u|e]]; [destruct fails|]; simplify_eq; by apply Hother.
  - unfold sendRecv_recv in Hs. destruct (cl_calls c !! j) as [[k [x|] [cmd b| |]]|] eqn:Hj; try done.
    simplify_eq. apply Hother; [done..|]. intros ->. congruence.
  - unfold sendRecv_cancel in Hs. destruct (cl_calls c !! j) as [[k ch [cmd b| |]]|] eqn:Hj; try done.
    simplify_eq. assert (j ≠ i) as Hne by (intros ->; done). destruct k; by apply Hother.
  - unfold sendRecv_closed in Hs. destruct (cl_calls c !! j) as [[k ch [cmd b| |]]|] eqn:Hj; try done.
    by rewrite Hcl in Hs.
  - simplify_eq. unfold read_deadline. by repeat case_match.
  - unfold read_frame in Hs. by rewrite Hr in Hs.
  - unfold read_error in Hs. by rewrite Hr in Hs.
  - done.
Qed.

Lemma reader_gone_hangs es : ∀ c c' i id,
  cl_readDone c = true → cl_closed c = false → cl_calls c !! i = Some (mkCall id None Waiting) →
  EvCancel i ∉ es → EvClose ∉ es → client_run c es = Some c' →
  cl_calls c' !! i = Some (mkCall id None Waiting).
Proof.
  induction es as [|e es IH]; intros c c' i id Hr Hcl Hi H1 H2 Hrun; cbn [client_run] in Hrun; [by simplify_eq|].
  destruct (client_step c e) as [c1|] eqn:E; [|done].
  destruct (call_kept c e c1 i id) as (Hr' & Hcl' & Hi'); try done; [set_solver..|].
  eapply IH; try done; set_solver.
Qed.

(** ** A client at work *)

(** The pong of the handshake, and nothing after it yet. *)
Definition demo_pong : bytes := frame_bytes (mkFrame CmdPong 0 []).

Definition demo_client : Client :=
  mkClient defaultClientOptions 0 ∅ [] (frame_bytes (mkFrame CmdPing 0 [])) false false ∅ 0 0 None.

Lemma demo_dial : Dial defaultClientOptions demo_pong = Ok (demo_client, []).
Proof. vm_compute. reflexivity. Qed.

(** Two calls whose answers come in the other order. *)
Definition demo_answer (id : Z) : Frame := mkFrame CmdResponse id (bytes_of_string "{}").

Definition demo_calls : list client_event :=
  [EvCall CmdPing NilBody; EvCall CmdPing NilBody; EvWrite 1 None; EvWrite 0 None; EvRead (demo_answer 2);
   EvRead (demo_answer 1); EvRecv 0; EvRecv 1].

Lemma sdk_replies_reach_callers_witness :
  ∃ c, client_run demo_client demo_calls = Some c ∧
    ca_stage <$> cl_calls c = [Returned (Ok (demo_answer 1)); Returned (Ok (demo_answer 2))] ∧
    EvRead (demo_answer 1) ∈ demo_calls ∧ is_Some (route c (demo_answer 1)).
Proof.
  assert (∃ c, client_run demo_client demo_calls = Some c ∧
    ca_stage <$> cl_calls c = [Returned (Ok (demo_answer 1)); Returned (Ok (demo_answer 2))])
    as (c & Hrun & Hst) by (eexists; split; vm_compute; reflexivity).
  exists c. destruct (sdk_replies_reach_callers _ _ _ _ _ _ demo_dial Hrun) as (Hret & Hroute & _).
  split; [exact Hrun|]. split; [exact Hst|]. split; [|exact (Hroute _)].
  destruct (cl_calls c) as [|[k ch st] cs] eqn:E; [discriminate Hst|]. injection Hst as Hst0 _.
  apply (Hret 0%nat (mkCall k ch st) (demo_answer 1)); [first [reflexivity|rewrite E; reflexivity]|exact Hst0].
Defined.

(** A client that reads nothing for the read timeout: the loop ends at its
    deadline, [readTimeout] after the last frame, and the next call waits for
    ever although it went out. *)
Lemma idle_client_hangs :
  ∃ c, client_run demo_client [EvTurn 0; EvReadError; EvCall CmdPing NilBody; EvWrite 0 None] = Some c ∧
    cl_closed c = false ∧
    ∀ es c', EvCancel 0 ∉ es → EvClose ∉ es → client_run c es = Some c' →
      ca_stage <$> cl_calls c' !! 0%nat = Some Waiting.
Proof.
  assert (∃ c, client_run demo_client [EvTurn 0; EvReadError; EvCall CmdPing NilBody; EvWrite 0 None] = Some c ∧
    cl_closed c = false ∧ cl_readDone c = true ∧ cl_calls c !! 0%nat = Some (mkCall (Some 1) None Waiting))
    as (c & Hrun & Hcl & Hrd & Hi).
  { eexists. split; [vm_compute; reflexivity|]. by vm_compute. }
  exists c. split_and!; [done|done|]. intros es c' H1 H2 Hr.
  by rewrite (reader_gone_hangs es c c' 0 (Some 1)).
Qed.
