(* ===== verification/Sdk.v ===== *)
(** * The client library's operations: [pkg/client/producer.go], [admin.go] and the requests of [consumer.go]

    What a producer, an administrator and a consumer ask of the broker through
    [sendRecv] and make of the answer.  The outcome of each [sendRecv] is an
    argument; [ClientBroker] puts the client of [Client] and the broker in its
    place. *)

From S2P Require Import Prelude GoLib Json Types Protocol WireJson WireReply Client.

Local Open Scope Z_scope.

Import Errors.

(** ** Producers *)

Definition second : Z := 10 ^ 9.

(** [sp_mode] is the byte of the delivery mode, [sp_codec] the codec byte. *)
Record SdkProducer := mkSdkProducer {
  sp_topic : string;
  sp_mode : Z;
  sp_codec : Z;
  sp_maxRetries : Z;
  sp_backoff : Z;
  sp_seq : Z;
}.

Definition NewSdkProducer (topic : string) : SdkProducer := mkSdkProducer topic 1 0 0 0 0.

Definition sdk_exactly_once (p : SdkProducer) : bool :=
  match DeliveryMode_of (sp_mode p) with ExactlyOnce => true | _ => false end.

(** [seqCounter.Add(1)]. *)
Definition next_seq (p : SdkProducer) : SdkProducer :=
  mkSdkProducer (sp_topic p) (sp_mode p) (sp_codec p) (sp_maxRetries p) (sp_backoff p) (u64 (sp_seq p + 1)).

(** The request of [Publish] and [PublishWithMeta]. *)
Definition publish_request (p : SdkProducer) (key : string) (payload : bytes) (headers : gmap string string) :
    SdkProducer * PublishRequest :=
  let p := if sdk_exactly_once p then next_seq p else p in
  let seq := if sdk_exactly_once p then sp_seq p else 0 in
  (p, mkPublishRequest (sp_topic p) key payload headers (sp_mode p) seq (sp_codec p) None).

(** [d *= 2] on an int64. *)
Fixpoint exponentialBackoff (d : Z) (attempt : nat) : Z :=
  match attempt with
  | O => d
  | S attempt =>
      let d := i64 (d * 2) in
      if 30 * second <? d then 30 * second else exponentialBackoff d attempt
  end.

(** The walk up the chain: only a closed connection wraps another error, one
    of the connection. *)
Definition isOverloaded (e : client_err) : bool :=
  match e with
  | ErrBrokerOverloaded _ => true
  | _ => false
  end.

Definition publish_response (f : Frame) : result PublishResponse client_err :=
  match Unmarshal f (mkPublishResponse "" 0 0) with
  | None => Error BadResponse
  | Some r => Ok r
  end.

(** [publishWithRetry]: [answers k] is what the [k]-th [sendRecv] of the same
    request gives, [done k] whether the context ends during the wait after it.
    The first component lists the waits. *)
Fixpoint publishWithRetry (fuel : nat) (maxRetries backoff : Z) (answers : nat → result Frame client_err)
    (done : nat → bool) (attempt : nat) : list Z * option (result PublishResponse client_err) :=
  match fuel with
  | O => ([], None)
  | S fuel =>
      match answers attempt with
      | Ok f => ([], Some (publish_response f))
      | Error e =>
          if isOverloaded e && (Z.of_nat attempt <? maxRetries) then
            let wait := exponentialBackoff backoff attempt in
            if done attempt then ([wait], Some (Error Cancelled))
            else
              let '(ws, r) := publishWithRetry fuel maxRetries backoff answers done (S attempt) in (wait :: ws, r)
          else ([], Some (Error e))
      end
  end.

Definition retry_fuel (maxRetries : Z) : nat := S (Z.to_nat maxRetries).

Definition SdkProducer_Publish (p : SdkProducer) (answers : nat → result Frame client_err) (done : nat → bool) :
    list Z * option (result Z client_err) :=
  let backoff := if sp_backoff p <=? 0 then 50 * millisecond else sp_backoff p in
  let '(ws, r) := publishWithRetry (retry_fuel (sp_maxRetries p)) (sp_maxRetries p) backoff answers done 0 in
  (ws, (λ r, match r with Ok r => Ok (pres_Offset r) | Error e => Error e end) <$> r).

(** No retries here. *)
Definition PublishWithMeta (answer : result Frame client_err) : result (Z * Z) client_err :=
  match answer with
  | Error e => Error e
  | Ok f => let! r := publish_response f in Ok (pres_Partition r, pres_Offset r)
  end%go.

Definition tombstone_headers : gmap string string := {[ "_compaction" := "delete" ]}.

Definition Tombstone_request (p : SdkProducer) (key : string) : SdkProducer * PublishRequest :=
  publish_request p key [] tombstone_headers.

(** ** Batches *)

Record SdkMessage := mkSdkMessage { sm_Key : string; sm_Payload : bytes; sm_Headers : gmap string string }.

Fixpoint batch_requests (p : SdkProducer) (msgs : list SdkMessage) : SdkProducer * list PublishRequest :=
  match msgs with
  | [] => (p, [])
  | m :: msgs =>
      let '(p, r) := publish_request p (sm_Key m) (sm_Payload m) (sm_Headers m) in
      let '(p, rs) := batch_requests p msgs in (p, r :: rs)
  end.

(** An empty batch is not sent. *)
Definition PublishBatch_offsets (msgs : list SdkMessage) (answer : result Frame client_err) :
    result (list Z) client_err :=
  match msgs with
  | [] => Ok []
  | _ =>
      match answer with
      | Error e => Error e
      | Ok f =>
          match Unmarshal f (mkBatchPublishResponse []) with
          | None => Error BadResponse
          | Some r => Ok (pres_Offset <$> bpr_Results r)
          end
      end
  end.

(** ** Administration *)

Definition request : Type := Z * request_body.

Definition CreateTopic_request (cfg : TopicConfig) : request :=
  (CmdCreateTopic, Body CreateTopicRequestJson (mkCreateTopicRequest (tc_Name cfg) (tc_Partitions cfg)
    (tc_ReplicationFactor cfg) (tc_RetentionHours cfg) (tc_CompactionMode cfg))).

Definition DeleteTopic_request (name : string) : request :=
  (CmdDeleteTopic, Body DeleteTopicRequestJson (mkDeleteTopicRequest name)).

Definition ListTopics_request : request := (CmdListTopics, NilBody).

Definition Ping_request : request := (CmdPing, NilBody).

Definition Fetch_request (topic : string) (partition offset limit : Z) : request :=
  (CmdFetch, Body FetchRequestJson (mkFetchRequest topic "" partition offset limit false)).

(** Any frame that is no error will do. *)
Definition ignore_body (answer : result Frame client_err) : result unit client_err :=
  match answer with
  | Error e => Error e
  | Ok _ => Ok tt
  end.

Definition Fetch (answer : result Frame client_err) : result (list Message) client_err :=
  match answer with
  | Error e => Error e
  | Ok f =>
      match Unmarshal f (mkFetchResponse "" 0 [] false 0) with
      | None => Error BadResponse
      | Some r => Ok (fp_Messages r)
      end
  end.

Definition Authenticate_request (apiKey : string) : request :=
  (CmdAuth, Body AuthRequestJson (mkAuthRequest apiKey "")).

Definition Authenticate (answer : result Frame client_err) : result unit client_err := ignore_body answer.

(** ** What a consumer asks *)

Record SdkGroup := mkSdkGroup { sg_group : string; sg_topic : string; sg_id : string }.

Definition Subscribe_request (g : SdkGroup) : request :=
  (CmdSubscribe, Body SubscribeRequestJson (mkSubscribeRequest (sg_topic g) (sg_group g) (sg_id g) true)).

Definition Commit_request (g : SdkGroup) (partition offset : Z) : request :=
  (CmdCommitOffset, Body CommitOffsetRequestJson
     (mkCommitOffsetRequest (sg_group g) (sg_id g) (sg_topic g) partition offset)).

Definition SeekToTimestamp_request (g : SdkGroup) (ns : Z) : request :=
  (CmdSeek, Body SeekRequestJson (mkSeekRequest (sg_topic g) (sg_group g) ns false None)).

Definition SeekToEnd_request (g : SdkGroup) : request :=
  (CmdSeek, Body SeekRequestJson (mkSeekRequest (sg_topic g) (sg_group g) 0 true None)).

Definition SeekToOffset_request (g : SdkGroup) (offset : Z) : request :=
  (CmdSeek, Body SeekRequestJson (mkSeekRequest (sg_topic g) (sg_group g) 0 false (Some offset))).

Definition Reset_request (g : SdkGroup) : request :=
  (CmdResetGroup, Body ResetGroupRequestJson (mkResetGroupRequest (sg_group g) (sg_topic g))).

(** [fmt.Sscanf(k, "%d", &p)] for a decimal key; another key, or one beyond an
    int32, leaves zero. *)
Definition scan_partition (k : string) : Z :=
  match scan_d k with
  | Some z => if (i32_min <=? z) && (z <=? i32_max) then z else 0
  | None => 0
  end.

(** The order of the map only matters when two keys read as one number. *)
Definition parseOffsetMap (m : gmap string Z) : gmap Z Z :=
  list_to_map ((λ kv, (scan_partition kv.1, kv.2)) <$> map_to_list m).

Definition Seek (answer : result Frame client_err) : result (gmap Z Z) client_err :=
  match answer with
  | Error e => Error e
  | Ok f =>
      match Unmarshal f (mkSeekResponse ∅) with
      | None => Error BadResponse
      | Some r => Ok (parseOffsetMap (skr_Offsets r))
      end
  end.

(** ** Facts *)

Lemma exponentialBackoff_spec attempt : ∀ base, 0 < base <= 30 * second →
  exponentialBackoff base attempt = Z.min (base * 2 ^ Z.of_nat attempt) (30 * second).
Proof.
  unfold second. induction attempt as [|n IH]; intros base Hb; cbn [exponentialBackoff].
  { change (2 ^ Z.of_nat 0) with 1. lia. }
  rewrite i64_id by (unfold is_i64; lia). replace (Z.of_nat (S n)) with (Z.of_nat n + 1) by lia.
  rewrite Z.pow_add_r by lia. pose proof (Z.pow_pos_nonneg 2 (Z.of_nat n)).
  unfold second. destruct (Z.ltb_spec (30 * 10 ^ 9) (base * 2)); [nia|]. rewrite IH by lia. f_equal. ring.
Qed.

(** A base above the documented ceiling is used as it is. *)
Lemma backoff_exceeds_ceiling : exponentialBackoff (60 * second) 0 = 60 * second.
Proof. reflexivity. Qed.

(** The loop ends within [maxRetries] retries, whatever the answers. *)
Lemma publishWithRetry_total answers done maxRetries backoff : ∀ fuel attempt,
  maxRetries < Z.of_nat (fuel + attempt) → 
  let '(ws, r) := publishWithRetry fuel maxRetries backoff answers done attempt in
  (fuel ≠ O → is_Some r) ∧ Z.of_nat attempt + zlen ws <= Z.max (Z.of_nat attempt) maxRetries.
Proof.
  induction fuel as [|fuel IH]; intros attempt Hf; cbn [publishWithRetry].
  { split; [done|]. rewrite zlen_nil. lia. }
  destruct (answers attempt) as [f|e].
  { split; [by eexists|]. rewrite zlen_nil. lia. }
  destruct (isOverloaded e && _) eqn:E.
  2: { split; [by eexists|]. rewrite zlen_nil. lia. }
  apply andb_prop in E as [_ E]. apply Z.ltb_lt in E. destruct (done attempt).
  { split; [by eexists|]. unfold zlen. cbn [length]. lia. }
  specialize (IH (S attempt) ltac:(lia)).
  destruct (publishWithRetry fuel _ _ _ _ (S attempt)) as [ws r]. destruct IH as [IH1 IH2].
  split; [intros _; apply IH1; lia|]. unfold zlen in *. cbn [length]. lia.
Qed.

(** Overloads up to the limit, then an answer: the answer is what the caller
    gets, after as many waits. *)
Lemma publishWithRetry_answer answers done maxRetries backoff f k : ∀ fuel attempt,
  (k < fuel)%nat → Z.of_nat (attempt + k) <= maxRetries →
  (∀ j, (attempt <= j < attempt + k)%nat → done j = false ∧ ∃ e, answers j = Error e ∧ isOverloaded e = true) →
  answers (attempt + k)%nat = Ok f →
  publishWithRetry fuel maxRetries backoff answers done attempt =
    (exponentialBackoff backoff <$> seq attempt k, Some (publish_response f)).
Proof.
  induction k as [|k IH]; intros fuel attempt Hf Hm Hj Ha; (destruct fuel as [|fuel]; [lia|]);
    cbn [publishWithRetry].
  - rewrite Nat.add_0_r in Ha. by rewrite Ha.
  - destruct (Hj attempt ltac:(lia)) as (-> & e & -> & ->).
    destruct (Z.ltb_spec (Z.of_nat attempt) maxRetries); [|lia]. cbn [andb].
    rewrite IH; [done|lia|lia| |by rewrite Nat.add_succ_comm]. intros j Hj'. apply Hj. lia.
Qed.

(** The codes the broker answers with are not among those the client takes
    for an overload. *)
Lemma broker_overload_not_recognised message :
  isOverloaded (mapBrokerError (ErrorCode_string Types.ErrBrokerOverloaded) message) = false.
Proof. reflexivity. Qed.

(** The offsets a seek reports, read back by partition. *)
Lemma scan_partition_fmt p : is_i32 p → scan_partition (fmt_d p) = p.
Proof.
  intros Hp. unfold scan_partition. rewrite scan_fmt_d. unfold is_i32 in Hp.
  destruct (_ && _) eqn:E; [done|]. unfold i32_min, i32_max in E. lia.
Qed.

Lemma parseOffsetMap_fmt (m : gmap Z Z) : map_Forall (λ p _, is_i32 p) m →
  parseOffsetMap (kmap fmt_d m) = m.
Proof.
  intros Hm. unfold parseOffsetMap. symmetry. apply list_to_map_flip.
  assert (Inj (=) (=) fmt_d) by (intros a b; apply fmt_d_inj).
  rewrite map_to_list_kmap by done. rewrite <- list_fmap_compose.
  assert (((λ kv, (scan_partition kv.1, kv.2)) ∘ prod_map fmt_d id) <$> map_to_list m = id <$> map_to_list m) as ->.
  { apply map_Forall_to_list in Hm. apply Forall_fmap_ext_1. eapply Forall_impl; [exact Hm|].
    intros [p v] Hp. cbn in *. by rewrite scan_partition_fmt. }
  by rewrite list_fmap_id.
Qed.
