(* ===== verification/SdkConsumer.v ===== *)
(** * The client library's push consumer: [pkg/client/consumer.go]

    A consumer is touched by three goroutines: the one that calls [Subscribe],
    the read loop that calls [handlePush], and the application that receives
    from [Messages].  The steps are the pieces between which another goroutine
    may run: the lock of [pushBufMu], the load of [subscribed] and every send
    into the channel of messages are separate.  [sc_pushed] is history: the
    messages of the frames the consumer has claimed. *)

From S2P Require Import Prelude GoLib Json Types Protocol WireJson WireReply Client Sdk.

Local Open Scope Z_scope.

(** ** State *)

(** The goroutine in [Subscribe]. *)
Inductive sub_stage :=
| SubIdle
| SubAwaiting
| SubDraining (buf : list Message)
| SubDone (ok : bool).

(** The read loop in [handlePush]: past the load of [subscribed]. *)
Inductive push_stage :=
| PushIdle
| PushDeliver (ms : list Message)
| PushBuffer (ms : list Message).

Record SdkConsumer := mkSdkConsumer {
  sc_addr : SdkGroup;
  sc_bufferSize : nat;
  sc_msgCh : list Message;
  sc_closed : bool;
  sc_pushBuf : list Message;
  sc_subscribed : bool;
  sc_routerID : Z;
  sc_sub : sub_stage;
  sc_push : push_stage;
  sc_out : list Message;
  sc_pushed : list Message;
}.

Definition NewConsumer (addr : SdkGroup) (bufferSize : nat) : SdkConsumer :=
  mkSdkConsumer addr bufferSize [] false [] false 0 SubIdle PushIdle [] [].

Section Setters.
Implicit Type cs : SdkConsumer.

Definition with_ch cs (ch : list Message) : SdkConsumer :=
  mkSdkConsumer (sc_addr cs) (sc_bufferSize cs) ch (sc_closed cs) (sc_pushBuf cs) (sc_subscribed cs)
    (sc_routerID cs) (sc_sub cs) (sc_push cs) (sc_out cs) (sc_pushed cs).

Definition with_sub cs (s : sub_stage) : SdkConsumer :=
  mkSdkConsumer (sc_addr cs) (sc_bufferSize cs) (sc_msgCh cs) (sc_closed cs) (sc_pushBuf cs) (sc_subscribed cs)
    (sc_routerID cs) s (sc_push cs) (sc_out cs) (sc_pushed cs).

Definition with_push cs (p : push_stage) : SdkConsumer :=
  mkSdkConsumer (sc_addr cs) (sc_bufferSize cs) (sc_msgCh cs) (sc_closed cs) (sc_pushBuf cs) (sc_subscribed cs)
    (sc_routerID cs) (sc_sub cs) p (sc_out cs) (sc_pushed cs).

Definition with_buf cs (buf : list Message) (subscribed : bool) : SdkConsumer :=
  mkSdkConsumer (sc_addr cs) (sc_bufferSize cs) (sc_msgCh cs) (sc_closed cs) buf subscribed
    (sc_routerID cs) (sc_sub cs) (sc_push cs) (sc_out cs) (sc_pushed cs).

Definition with_router cs (id : Z) : SdkConsumer :=
  mkSdkConsumer (sc_addr cs) (sc_bufferSize cs) (sc_msgCh cs) (sc_closed cs) (sc_pushBuf cs) (sc_subscribed cs)
    id (sc_sub cs) (sc_push cs) (sc_out cs) (sc_pushed cs).

Definition with_closed cs : SdkConsumer :=
  mkSdkConsumer (sc_addr cs) (sc_bufferSize cs) (sc_msgCh cs) true (sc_pushBuf cs) (sc_subscribed cs)
    (sc_routerID cs) (sc_sub cs) (sc_push cs) (sc_out cs) (sc_pushed cs).

Definition with_out cs (out : list Message) : SdkConsumer :=
  mkSdkConsumer (sc_addr cs) (sc_bufferSize cs) (sc_msgCh cs) (sc_closed cs) (sc_pushBuf cs) (sc_subscribed cs)
    (sc_routerID cs) (sc_sub cs) (sc_push cs) out (sc_pushed cs).

Definition claim cs (ms : list Message) : SdkConsumer :=
  mkSdkConsumer (sc_addr cs) (sc_bufferSize cs) (sc_msgCh cs) (sc_closed cs) (sc_pushBuf cs) (sc_subscribed cs)
    (sc_routerID cs) (sc_sub cs) (sc_push cs) (sc_out cs) (sc_pushed cs ++ ms).

End Setters.

(** The connection the consumer is on, and the consumer; or the panic of a
    send on a closed channel. *)
Inductive sdk_outcome :=
| Running (c : Client) (cs : SdkConsumer)
| Panics.

(** ** [Subscribe] *)

(** Up to [sendRecv]: the connection counts the consumer and routes to it. *)
Definition Subscribe_begin (fn : nat) (c : Client) (cs : SdkConsumer) : option sdk_outcome :=
  match sc_sub cs with
  | SubAwaiting | SubDraining _ => None
  | SubIdle | SubDone _ =>
      let c := add_pushActive c 1 in
      let cs := with_buf cs [] (sc_subscribed cs) in
      let '(c, id) := registerPushRouter c fn in
      Some (Running c (with_sub (with_router cs id) SubAwaiting))
  end.

(** What [sendRecv] returned: on an error the registration is undone, else the
    buffer is taken and the flag set under the lock. *)
Definition Subscribe_reply (ok : bool) (c : Client) (cs : SdkConsumer) : option sdk_outcome :=
  match sc_sub cs with
  | SubAwaiting =>
      if ok then
        let buf := sc_pushBuf cs in
        Some (Running c (with_sub (with_buf cs [] true) (SubDraining buf)))
      else
        Some (Running (add_pushActive (deregisterPushRouter c (sc_routerID cs)) (-1)) (with_sub cs (SubDone false)))
  | _ => None
  end.

(** A send into [msgCh] that finds room. *)
Definition msgCh_send (cs : SdkConsumer) (m : Message) : option SdkConsumer :=
  if (length (sc_msgCh cs) <? sc_bufferSize cs)%nat then Some (with_ch cs (sc_msgCh cs ++ [m])) else None.

(** One turn of the drain loop.  [pick] is the choice of a [select] whose two
    cases are ready once the consumer is closed: the send panics. *)
Definition Subscribe_drain (pick : bool) (c : Client) (cs : SdkConsumer) : option sdk_outcome :=
  match sc_sub cs with
  | SubDraining [] => Some (Running c (with_sub cs (SubDone true)))
  | SubDraining (m :: buf) =>
      if sc_closed cs then
        if pick then Some Panics else Some (Running c (with_sub cs (SubDone true)))
      else
        match msgCh_send cs m with
        | Some cs => Some (Running c (with_sub cs (SubDraining buf)))
        | None => None
        end
  | _ => None
  end.

(** ** [handlePush] *)

Definition zero_PushFrame : PushFrame := mkPushFrame "" "" "" 0 [].

(** The messages of a frame for this consumer. *)
Definition push_for (cs : SdkConsumer) (f : Frame) : option (list Message) :=
  match Unmarshal f zero_PushFrame with
  | None => None
  | Some p =>
      if bool_decide (pf_Topic p = sg_topic (sc_addr cs)) && bool_decide (pf_Group p = sg_group (sc_addr cs))
         && bool_decide (pf_ConsumerID p = sg_id (sc_addr cs))
      then Some (pf_Messages p) else None
  end.

(** Up to the load of [subscribed]; the read loop calls it for a consumer that
    is routed to. *)
Definition handlePush_begin (f : Frame) (c : Client) (cs : SdkConsumer) : option sdk_outcome :=
  match sc_push cs with
  | PushIdle =>
      match cl_pushRouters c !! sc_routerID cs with
      | None => None
      | Some _ =>
          if sc_closed cs then Some (Running c cs)
          else
            match push_for cs f with
            | None => Some (Running c cs)
            | Some ms =>
                Some (Running c (with_push (claim cs ms)
                  (if sc_subscribed cs then PushDeliver ms else PushBuffer ms)))
            end
      end
  | _ => None
  end.

(** The rest: the append under the lock, or the sends one by one. *)
Definition handlePush_turn (pick : bool) (c : Client) (cs : SdkConsumer) : option sdk_outcome :=
  match sc_push cs with
  | PushIdle => None
  | PushBuffer ms => Some (Running c (with_push (with_buf cs (sc_pushBuf cs ++ ms) (sc_subscribed cs)) PushIdle))
  | PushDeliver [] => Some (Running c (with_push cs PushIdle))
  | PushDeliver (m :: ms) =>
      if sc_closed cs then
        if pick then Some Panics else Some (Running c (with_push cs PushIdle))
      else
        match msgCh_send cs m with
        | Some cs => Some (Running c (with_push cs (PushDeliver ms)))
        | None => None
        end
  end.

(** ** The application *)

Definition Messages_receive (c : Client) (cs : SdkConsumer) : option sdk_outcome :=
  match sc_msgCh cs with
  | [] => None
  | m :: ch => Some (Running c (with_out (with_ch cs ch) (sc_out cs ++ [m])))
  end.

(** [Close], once. *)
Definition SdkConsumer_Close (c : Client) (cs : SdkConsumer) : option sdk_outcome :=
  if sc_closed cs then Some (Running c cs)
  else Some (Running (add_pushActive (deregisterPushRouter c (sc_routerID cs)) (-1)) (with_closed cs)).

(** ** Runs *)

Inductive sdk_event :=
| EvSubscribe (fn : nat)
| EvReply (ok : bool)
| EvDrain (pick : bool)
| EvPushFrame (f : Frame)
| EvPushTurn (pick : bool)
| EvReceive
| EvConsumerClose.

Definition sdk_step (c : Client) (cs : SdkConsumer) (e : sdk_event) : option sdk_outcome :=
  match e with
  | EvSubscribe fn => Subscribe_begin fn c cs
  | EvReply ok => Subscribe_reply ok c cs
  | EvDrain pick => Subscribe_drain pick c cs
  | EvPushFrame f => handlePush_begin f c cs
  | EvPushTurn pick => handlePush_turn pick c cs
  | EvReceive => Messages_receive c cs
  | EvConsumerClose => SdkConsumer_Close c cs
  end.

Fixpoint sdk_run (c : Client) (cs : SdkConsumer) (es : list sdk_event) : option sdk_outcome :=
  match es with
  | [] => Some (Running c cs)
  | e :: es =>
      match sdk_step c cs e with
      | Some (Running c cs) => sdk_run c cs es
      | o => o
      end
  end.

(** ** Where the messages are *)

Definition draining (cs : SdkConsumer) : list Message :=
  match sc_sub cs with SubDraining ms => ms | _ => [] end.

Definition in_hand (cs : SdkConsumer) : list Message :=
  match sc_push cs with PushDeliver ms | PushBuffer ms => ms | PushIdle => [] end.

(** What was received, what is in the channel, what [Subscribe] still drains,
    what is buffered, what the read loop holds. *)
Definition whereabouts (cs : SdkConsumer) : list Message :=
  sc_out cs ++ sc_msgCh cs ++ draining cs ++ sc_pushBuf cs ++ in_hand cs.

(** After the one subscription, which is accepted; no [Close]. *)
Definition plain_event (e : sdk_event) : Prop :=
  match e with
  | EvReply ok => ok = true
  | EvSubscribe _ | EvConsumerClose => False
  | _ => True
  end.

Record consumer_ok (cs : SdkConsumer) : Prop := mkConsumerOk {
  co_open : sc_closed cs = false;
  co_all : whereabouts cs ≡ₚ sc_pushed cs;
  co_room : (length (sc_msgCh cs) <= sc_bufferSize cs)%nat;
}.

(** No frame is between the load of the flag and the lock when [Subscribe]
    takes the buffer, and none arrives until the buffer is drained. *)
Definition calm (cs : SdkConsumer) (e : sdk_event) : Prop :=
  match e with
  | EvReply _ => sc_push cs = PushIdle
  | EvPushFrame _ => draining cs = []
  | _ => True
  end.

Fixpoint calm_run (c : Client) (cs : SdkConsumer) (es : list sdk_event) : Prop :=
  match es with
  | [] => True
  | e :: es =>
      calm cs e ∧
      match sdk_step c cs e with
      | Some (Running c cs) => calm_run c cs es
      | _ => True
      end
  end.

(** Everything in the order of the frames. *)
Record consumer_ordered (cs : SdkConsumer) : Prop := mkConsumerOrdered {
  cd_all : whereabouts cs = sc_pushed cs;
  cd_stage : match sc_sub cs with
    | SubAwaiting => sc_subscribed cs = false ∧ sc_out cs = [] ∧ sc_msgCh cs = [] ∧
        ∀ ms, sc_push cs ≠ PushDeliver ms
    | SubDraining [] | SubDone _ => sc_subscribed cs = true ∧ sc_pushBuf cs = [] ∧ ∀ ms, sc_push cs ≠ PushBuffer ms
    | SubDraining (_ :: _) => sc_subscribed cs = true ∧ sc_pushBuf cs = [] ∧ sc_push cs = PushIdle
    | SubIdle => False
    end;
}.

Ltac sdk_cases H := unfold Subscribe_reply, Subscribe_drain, handlePush_begin, handlePush_turn, Messages_receive,
  msgCh_send in H; repeat (case_match; simplify_eq/=).

Ltac places := unfold whereabouts, draining, in_hand in *; cbn in *;
  repeat match goal with E : sc_sub ?cs = _ |- _ => rewrite E in * | E : sc_push ?cs = _ |- _ => rewrite E in * end.

(** What a step does to the places: new messages at the end, and, for a direct
    delivery, one that overtakes what is drained or buffered. *)
Record moved (cs cs' : SdkConsumer) (new : list Message) : Prop := mkMoved {
  mv_open : sc_closed cs' = false;
  mv_room : (length (sc_msgCh cs') <= sc_bufferSize cs')%nat;
  mv_pushed : sc_pushed cs' = sc_pushed cs ++ new;
  mv_all : whereabouts cs' ≡ₚ whereabouts cs ++ new;
  mv_order : (∀ ms, sc_push cs = PushDeliver ms → draining cs = [] ∧ sc_pushBuf cs = []) →
    whereabouts cs' = whereabouts cs ++ new;
}.

Lemma moved_eq cs cs' new :
  sc_closed cs' = false → (length (sc_msgCh cs') <= sc_bufferSize cs')%nat → sc_pushed cs' = sc_pushed cs ++ new →
  whereabouts cs' = whereabouts cs ++ new → moved cs cs' new.
Proof. intros H1 H2 H3 H4. split; [done..| |done]. by rewrite H4. Qed.

Lemma room_for {A} (ch : list A) (m : A) n : (length ch <? n)%nat = true → (length (ch ++ [m]) <= n)%nat.
Proof. intros H%Nat.ltb_lt. rewrite length_app. cbn. lia. Qed.

Lemma consumer_step_moves c cs e o :
  sc_closed cs = false → (length (sc_msgCh cs) <= sc_bufferSize cs)%nat → plain_event e →
  sdk_step c cs e = Some o → ∃ c' cs' new, o = Running c' cs' ∧ moved cs cs' new.
Proof.
  intros Ho Hr He Hs. destruct e as [fn|ok|pick|f|pick| |]; cbn [plain_event sdk_step] in *; try done.
  - subst ok. unfold Subscribe_reply in Hs. destruct (sc_sub cs) eqn:E; try done. simplify_eq.
    eexists _, _, []. split; [reflexivity|]. apply moved_eq; [done|done|by rewrite app_nil_r|].
    places. by rewrite app_nil_r.
  - unfold Subscribe_drain in Hs. destruct (sc_sub cs) as [| |[|m buf]|ok] eqn:E; try done.
    + simplify_eq. eexists _, _, []. split; [reflexivity|]. apply moved_eq; [done|done|by rewrite app_nil_r|].
      places. by rewrite app_nil_r.
    + rewrite Ho in Hs. unfold msgCh_send in Hs. destruct (_ <? _)%nat eqn:Hroom; [|done]. simplify_eq.
      eexists _, _, []. split; [reflexivity|].
      apply moved_eq; [done|by apply room_for|by rewrite app_nil_r|]. places. by rewrite <- !app_assoc, app_nil_r.
  - unfold handlePush_begin in Hs. destruct (sc_push cs) eqn:E; try done.
    destruct (cl_pushRouters c !! _); [|done]. rewrite Ho in Hs. destruct (push_for cs f) as [ms|]; simplify_eq.
    + eexists _, _, ms. split; [reflexivity|]. apply moved_eq; [done|done|done|].
      destruct (sc_subscribed cs); places; by rewrite <- !app_assoc, ?app_nil_r.
    + eexists _, _, []. split; [reflexivity|]. apply moved_eq; by rewrite ?app_nil_r.
  - unfold handlePush_turn in Hs. destruct (sc_push cs) as [|[|m ms]|ms] eqn:E; try done.
    + simplify_eq. eexists _, _, []. split; [reflexivity|]. apply moved_eq; [done|done|by rewrite app_nil_r|].
      places. by rewrite !app_nil_r.
    + rewrite Ho in Hs. unfold msgCh_send in Hs. destruct (_ <? _)%nat eqn:Hroom; [|done]. simplify_eq.
      eexists _, _, []. split; [reflexivity|]. split; [done|by apply room_for|by rewrite app_nil_r| |].
      * places. rewrite app_nil_r, <- !app_assoc. do 2 f_equiv. cbn.
        rewrite !app_assoc. apply Permutation_middle.
      * intros Hd. destruct (Hd _ E) as [Hd1 Hd2]. revert Hd1 Hd2. places. intros -> ->.
        by rewrite app_nil_r, <- !app_assoc.
    + simplify_eq. eexists _, _, []. split; [reflexivity|]. apply moved_eq; [done|done|by rewrite app_nil_r|].
      places. by rewrite !app_nil_r.
  - unfold Messages_receive in Hs. destruct (sc_msgCh cs) as [|m ch] eqn:E; [done|]. simplify_eq.
    eexists _, _, []. split; [reflexivity|]. apply moved_eq; [done|cbn in *; lia|by rewrite app_nil_r|].
    places. rewrite E. by rewrite <- !app_assoc, app_nil_r.
Qed.

Lemma consumer_run_ok es : ∀ c cs o,
  consumer_ok cs → Forall plain_event es → sdk_run c cs es = Some o →
  ∃ c' cs', o = Running c' cs' ∧ consumer_ok cs'.
Proof.
  induction es as [|e es IH]; intros c cs o Hok Hes Hr; cbn [sdk_run] in Hr; [by simplify_eq; eauto|].
  apply Forall_cons in Hes as [He Hes]. destruct (sdk_step c cs e) as [o1|] eqn:E; [|done].
  destruct Hok as [Ho Ha Hroom].
  destruct (consumer_step_moves c cs e o1 Ho Hroom He E) as (c1 & cs1 & new & -> & [Ho1 Hr1 Hp Hw _]).
  eapply IH; [|done|done]. split; [done| |done]. by rewrite Hp, Hw, Ha.
Qed.

(** ** Order *)

Lemma ordered_step c cs e c' cs' :
  consumer_ok cs → consumer_ordered cs → plain_event e → calm cs e → sdk_step c cs e = Some (Running c' cs') →
  consumer_ordered cs'.
Proof.
  intros [Ho Ha Hroom] [Hw Hst] He Hc Hs.
  destruct (consumer_step_moves c cs e _ Ho Hroom He Hs) as (c1 & cs1 & new & [= <- <-] & [_ _ Hp _ Hord]).
  split.
  - rewrite Hp, <- Hw. apply Hord. intros ms Hms. unfold draining.
    destruct (sc_sub cs) as [| |[|m buf]|ok]; [done| | | |].
    + destruct Hst as (_ & _ & _ & Hn). by destruct (Hn ms).
    + by destruct Hst as (_ & ? & _).
    + destruct Hst as (_ & _ & ?). congruence.
    + by destruct Hst as (_ & ? & _).
  - clear Hord Hp Ha Hw. destruct e as [fn|ok|pick|f|pick| |]; cbn [plain_event calm sdk_step] in *; try done.
    + subst ok. unfold Subscribe_reply in Hs. destruct (sc_sub cs); try done. simplify_eq. cbn. rewrite Hc.
      by destruct (sc_pushBuf cs).
    + unfold Subscribe_drain in Hs. destruct (sc_sub cs) as [| |[|m buf]|ok] eqn:E; try done.
      * by simplify_eq.
      * rewrite Ho in Hs. unfold msgCh_send in Hs. destruct (_ <? _)%nat; [|done]. simplify_eq. cbn.
        destruct Hst as (H1 & H2 & H3). destruct buf; [|done]. rewrite H3. by split_and!.
    + unfold handlePush_begin in Hs. destruct (sc_push cs) eqn:E; try done.
      destruct (cl_pushRouters c !! _); [|done]. rewrite Ho in Hs.
      destruct (push_for cs f) as [ms|]; simplify_eq; [|by rewrite E].
      unfold draining in Hc. cbn. destruct (sc_sub cs) as [| |[|m buf]|ok]; try done.
      * destruct Hst as (-> & -> & -> & _). by split_and!.
      * destruct Hst as (-> & -> & _). by split_and!.
      * destruct Hst as (-> & -> & _). by split_and!.
    + unfold handlePush_turn in Hs. destruct (sc_push cs) as [|[|m ms]|ms] eqn:E; try done.
      * simplify_eq. cbn. destruct (sc_sub cs) as [| |[|m buf]|ok]; try done; naive_solver.
      * rewrite Ho in Hs. unfold msgCh_send in Hs. destruct (_ <? _)%nat; [|done]. simplify_eq. cbn.
        destruct (sc_sub cs) as [| |[|m' buf]|ok]; try done; naive_solver.
      * simplify_eq. cbn. destruct (sc_sub cs) as [| |[|m buf]|ok]; try done; naive_solver.
    + unfold Messages_receive in Hs. destruct (sc_msgCh cs) as [|m ch] eqn:E; [done|]. simplify_eq. cbn.
      destruct (sc_sub cs) as [| |[|m' buf]|ok]; try done. by destruct Hst as (_ & _ & ? & _).
Qed.

Lemma ordered_run es : ∀ c cs c' cs',
  consumer_ok cs → consumer_ordered cs → Forall plain_event es → calm_run c cs es →
  sdk_run c cs es = Some (Running c' cs') → consumer_ordered cs'.
Proof.
  induction es as [|e es IH]; intros c cs c' cs' Hok Hord Hes Hc Hr; cbn [sdk_run calm_run] in *; [by simplify_eq|].
  apply Forall_cons in Hes as [He Hes]. destruct Hc as [Hc Hcs].
  destruct (sdk_step c cs e) as [o1|] eqn:E; [|done].
  destruct (consumer_run_ok [e] c cs o1 Hok) as (c1 & cs1 & -> & Hok1);
    [by apply Forall_cons_2|cbn [sdk_run]; rewrite E; by destruct o1|].
  eapply IH; [exact Hok1| |done|exact Hcs|exact Hr]. exact (ordered_step c cs e c1 cs1 Hok Hord He Hc E).
Qed.

(** ** Properties *)

(** C14: a push consumer loses and repeats nothing it has claimed.  After a
    subscription that the broker accepts, in every order of the goroutines and
    as long as the consumer is open, the messages of the frames that name its
    topic, group and id are each exactly once received, in the channel, still
    to be drained, buffered or in the read loop's hand, nothing panics and the
    channel holds no more than its capacity; and when no frame arrives while
    [Subscribe] takes and drains the buffer, they are in the order of the
    frames, so that the application receives a prefix of what was pushed. *)
Theorem sdk_consumer_conserves addr n fn c0 c cs es o :
  Subscribe_begin fn c0 (NewConsumer addr n) = Some (Running c cs) →
  Forall plain_event es → sdk_run c cs es = Some o →
  ∃ c' cs', o = Running c' cs' ∧ whereabouts cs' ≡ₚ sc_pushed cs' ∧
    (length (sc_msgCh cs') <= sc_bufferSize cs')%nat ∧
    (calm_run c cs es → whereabouts cs' = sc_pushed cs' ∧ sc_out cs' `prefix_of` sc_pushed cs').
Proof.
  intros Hb Hes Hr. unfold Subscribe_begin in Hb. cbn in Hb. simplify_eq.
  set (cs := with_sub _ _) in *. set (c := set_routers _ _ _) in *.
  assert (consumer_ok cs) as Hok by (split; cbn; [done|done|lia]).
  assert (consumer_ordered cs) as Hord by (split; [done|by cbn]).
  destruct (consumer_run_ok es c cs o Hok Hes Hr) as (c' & cs' & -> & Hok').
  exists c', cs'. split; [done|]. destruct Hok' as [Ho Ha Hroom]. split_and!; [done|done|].
  intros Hc. destruct (ordered_run es c cs c' cs' Hok Hord Hes Hc Hr) as [Hw _].
  split; [exact Hw|]. rewrite <- Hw. unfold whereabouts. by apply prefix_app_r.
Qed.

(** ** A consumer at work *)

Definition demo_addr : SdkGroup := mkSdkGroup "g" "orders" "sdk-consumer-1".

Definition demo_msg (id : string) (offset : Z) : Message :=
  mkMessage id "orders" 7 (bytes_of_string id) ∅ "" 0 offset 0.

Definition demo_push (ms : list Message) : Frame :=
  mkFrame CmdPush 0 (default [] (json_Marshal (mkPushFrame "orders" "g" "sdk-consumer-1" 0 ms))).

(** The consumer once its subscription is under way. *)
Definition demo_subscribing : Client * SdkConsumer :=
  match Subscribe_begin 0 demo_client (NewConsumer demo_addr 4) with
  | Some (Running c cs) => (c, cs)
  | _ => (demo_client, NewConsumer demo_addr 4)
  end.

Definition demo_run (es : list sdk_event) : option sdk_outcome :=
  sdk_run demo_subscribing.1 demo_subscribing.2 es.

(** A replayed message before the answer, another one after it. *)
Definition demo_sdk_events : list sdk_event :=
  [EvPushFrame (demo_push [demo_msg "a" 0]); EvPushTurn false; EvReply true; EvDrain false; EvDrain false;
   EvPushFrame (demo_push [demo_msg "b" 1]); EvPushTurn false; EvPushTurn false; EvReceive].

Lemma sdk_consumer_conserves_witness :
  ∃ c cs, demo_run demo_sdk_events = Some (Running c cs) ∧
    sc_out cs = [demo_msg "a" 0] ∧ whereabouts cs = [demo_msg "a" 0; demo_msg "b" 1] ∧
    sc_out cs `prefix_of` sc_pushed cs.
Proof.
  assert (∃ c cs, demo_run demo_sdk_events = Some (Running c cs) ∧
    sc_out cs = [demo_msg "a" 0] ∧ whereabouts cs = [demo_msg "a" 0; demo_msg "b" 1])
    as (c & cs & Hrun & Hout & Hw) by (eexists _, _; split; [vm_compute; reflexivity|]; split; vm_compute; reflexivity).
  exists c, cs. split; [exact Hrun|]. split; [exact Hout|]. split; [exact Hw|].
  destruct (sdk_consumer_conserves demo_addr 4 0 demo_client demo_subscribing.1 demo_subscribing.2 demo_sdk_events
    (Running c cs)) as (c' & cs' & Heq & _ & _ & Hcalm).
  - vm_compute. reflexivity.
  - repeat (apply Forall_cons_2; [exact I || reflexivity|]). apply Forall_nil_2.
  - exact Hrun.
  - injection Heq as <- <-. apply Hcalm. vm_compute. repeat split.
Defined.

(** ** Interleavings that go wrong *)

(** What is in the buffer once [Subscribe] has taken it stays there. *)
Lemma buffer_kept es : ∀ c cs c' cs',
  Forall (λ e, ∀ fn, e ≠ EvSubscribe fn) es → sc_sub cs ≠ SubAwaiting → sc_sub cs ≠ SubIdle →
  sdk_run c cs es = Some (Running c' cs') → sc_pushBuf cs `prefix_of` sc_pushBuf cs'.
Proof.
  induction es as [|e es IH]; intros c cs c' cs' Hes H1 H2 Hr; cbn [sdk_run] in Hr; [by simplify_eq|].
  apply Forall_cons in Hes as [He Hes]. destruct (sdk_step c cs e) as [[c1 cs1|]|] eqn:E; try done.
  assert (sc_pushBuf cs `prefix_of` sc_pushBuf cs1 ∧ sc_sub cs1 ≠ SubAwaiting ∧ sc_sub cs1 ≠ SubIdle) as (Hp & ? & ?).
  2: { etrans; [exact Hp|]. by eapply IH. }
  destruct e as [fn|ok|pick|f|pick| |]; cbn [sdk_step] in E.
  - by destruct (He fn).
  - unfold Subscribe_reply in E. by destruct (sc_sub cs).
  - unfold Subscribe_drain, msgCh_send in E. repeat case_match; by simplify_eq/=.
  - unfold handlePush_begin in E. repeat case_match; by simplify_eq/=.
  - unfold handlePush_turn, msgCh_send in E. repeat case_match; simplify_eq/=; try done.
    split_and!; [by apply prefix_app_r|done|done].
  - unfold Messages_receive in E. repeat case_match; by simplify_eq/=.
  - unfold SdkConsumer_Close in E. repeat case_match; by simplify_eq/=.
Qed.

(** The read loop loads the flag before [Subscribe] sets it and appends after
    [Subscribe] has taken the buffer: the message is never delivered. *)
Lemma late_message_lost :
  ∃ c cs, demo_run [EvPushFrame (demo_push [demo_msg "a" 0]); EvReply true; EvPushTurn false; EvDrain false] =
      Some (Running c cs) ∧ sc_subscribed cs = true ∧
    ∀ es c' cs', Forall (λ e, ∀ fn, e ≠ EvSubscribe fn) es → sdk_run c cs es = Some (Running c' cs') →
      [demo_msg "a" 0] `prefix_of` sc_pushBuf cs'.
Proof.
  assert (∃ c cs, demo_run [EvPushFrame (demo_push [demo_msg "a" 0]); EvReply true; EvPushTurn false; EvDrain false] =
      Some (Running c cs) ∧ sc_subscribed cs = true ∧ sc_pushBuf cs = [demo_msg "a" 0] ∧ sc_sub cs = SubDone true)
    as (c & cs & Hrun & Hs & Hb & Hd) by (eexists _, _; split; [vm_compute; reflexivity|]; by vm_compute).
  exists c, cs. split_and!; [done|done|]. intros es c' cs' Hes Hr.
  rewrite <- Hb. eapply buffer_kept; [exact Hes| | |exact Hr]; by rewrite Hd.
Qed.

(** A message pushed while the buffer is drained overtakes those in it. *)
Lemma drained_message_overtaken :
  ∃ c cs, demo_run [EvPushFrame (demo_push [demo_msg "a" 0]); EvPushTurn false; EvReply true;
      EvPushFrame (demo_push [demo_msg "b" 1]); EvPushTurn false; EvDrain false] = Some (Running c cs) ∧
    sc_pushed cs = [demo_msg "a" 0; demo_msg "b" 1] ∧ sc_msgCh cs = [demo_msg "b" 1; demo_msg "a" 0].
Proof. eexists _, _. split; [vm_compute; reflexivity|]. by vm_compute. Qed.

(** [Close] while a frame is being delivered: the send may hit the closed
    channel. *)
Lemma close_panics_reader :
  demo_run [EvReply true; EvDrain false; EvPushFrame (demo_push [demo_msg "a" 0]); EvConsumerClose; EvPushTurn true] =
    Some Panics.
Proof. vm_compute. reflexivity. Qed.

(** A subscription that fails and a [Close] count the consumer down twice. *)
Lemma failed_subscribe_counted_twice :
  ∃ c cs, demo_run [EvReply false; EvConsumerClose] = Some (Running c cs) ∧
    cl_pushActive demo_client = 0 ∧ cl_pushActive c = -1.
Proof. eexists _, _. split; [vm_compute; reflexivity|]. by vm_compute. Qed.
