(* ===== verification/ClientBroker.v ===== *)
(** * The client and the broker together

    One exchange over a connection: the frame the client of [Client] encodes
    ([pkg/client/client.go]), the frame loop of the broker ([handlers_dispatch.go])
    on it, the reply as the connection writes it ([networking.Conn.WriteFrame]
    and the handlers) and its way back to the caller. *)

From S2P Require Import Prelude GoLib Json Types Protocol WireJson WireReply Record Segment PartitionLog.
From S2P Require Import Wal WalStores Partition Topic Dedup Producer DeadLetter Consumer.
From S2P Require Import AuditLog RateLimit Auth Broker BrokerConsumer BrokerDispatch BrokerBatch BrokerInv.
From S2P Require Import BrokerRecovery Client Sdk.

Local Open Scope Z_scope.

(** ** Replies as frames *)

(** [text] is the message of an error.  A raw transfer is no frame; the list
    of topics carries times that are not modelled. *)
Definition reply_frame (text : reason → string) (r : reply) : option Frame :=
  let frame {A} (C : JsonCodec A) cmd (x : A) := mkFrame cmd (rp_RequestID r) <$> json_Marshal x in
  match rp_body r with
  | BError code why => frame ErrorResponseJson CmdError (mkErrorResponse code (text why))
  | BOK => frame OKResponseJson CmdResponse (mkOKResponse true)
  | BPong => Some (mkFrame CmdPong (rp_RequestID r) [])
  | BAuth a => frame AuthResponseJson CmdResponse a
  | BPublish p => frame PublishResponseJson CmdResponse p
  | BBatch ps => frame BatchPublishResponseJson CmdResponse (mkBatchPublishResponse ps)
  | BFetch p => frame FetchResponseJson CmdResponse p
  | BSeek offsets => frame SeekResponseJson CmdResponse (mkSeekResponse offsets)
  | BPush p => frame PushFrameJson CmdPush p
  | BRaw _ | BTopics _ => None
  end.

Section Exchange.
Context {L : Type} `{LogStore L} `{Deflate}.
Context (text : reason → string).
Implicit Type b : Broker L.
Implicit Type env : HandlerEnv L.

(** A call of [sendRecv] that is alone on its connection. *)
Definition exchange (ae : bool) env b (cn : Conn) (c : Client) (cmd : Z) (body : request_body) :
    option (Broker L * Conn * Client * result Frame Errors.client_err) :=
  let i := length (cl_calls c) in
  c1 ← sendRecv_write (sendRecv_begin c cmd body) i None;
  match Decoder_Decode (drop (length (cl_wire c)) (cl_wire c1)) with
  | Error _ => None
  | Ok (f, _) =>
      match Broker_Handle_frame ae env b cn f with
      | Replied b cn out =>
          fs ← mapM (reply_frame text) out;
          let stream := mjoin (frame_bytes <$> fs) in
          c2 ← client_run c1 ((EvRead <$> decode_stream (S (length stream)) stream) ++ [EvRecv i]);
          match cl_calls c2 !! i with
          | Some (mkCall _ _ (Returned r)) => Some (b, cn, c2, r)
          | _ => None
          end
      | _ => None
      end
  end.

(** ** The exchange goes through *)

(** A client whose loop runs and that has ids left. *)
Definition client_alive (c : Client) : Prop := cl_closed c = false ∧ cl_readDone c = false.

(** The client after the exchange: one more call, which has its answer. *)
Definition exchanged (c : Client) (bytes : bytes) (r : result Frame Errors.client_err) (c' : Client) : Prop :=
  client_alive c' ∧ cl_nextReq c' = u64 (cl_nextReq c + 1) ∧ cl_wire c' = cl_wire c ++ bytes ∧
  cl_calls c' = cl_calls c ++ [mkCall (Some (u64 (cl_nextReq c + 1))) None (Returned r)].

Lemma Encode_body_some w cmd id A (C : JsonCodec A) (x : A) body :
  json_Marshal x = Some body → zlen body <= MaxBodySize →
  Encode_body w cmd id (Body C x) = (w ++ frame_bytes (mkFrame cmd id body), Ok tt).
Proof.
  intros Hm Hl. unfold Encode_body, Encoder_Encode. rewrite Hm. pose proof (zlen_nonneg body).
  unfold MaxBodySize in *. rewrite u32_id by lia.
  destruct (Z.ltb_spec (16 * 1024 * 1024) (zlen body)); [lia|].
  unfold Encoder_writeFrame, frame_bytes. cbn [negb fr_Body]. destruct (Z.ltb_spec 0 (zlen body)).
  - by rewrite <- app_assoc.
  - rewrite (zlen_zero body) by lia. by rewrite app_nil_r.
Qed.

Lemma decode_one f n : frame_wf f → decode_stream (S (S n)) (frame_bytes f) = [f].
Proof.
  intros Hf. rewrite <- (app_nil_r (frame_bytes f)). cbn [decode_stream].
  rewrite Decoder_Decode_frame by done. reflexivity.
Qed.

Lemma frame_bytes_pos f : (0 < length (frame_bytes f))%nat.
Proof.
  pose proof (frame_header_length f) as Hl. unfold frame_bytes. rewrite length_app.
  unfold zlen, HeaderSize in Hl. lia.
Qed.

Lemma u64_is_u64 z : is_u64 (u64 z).
Proof. unfold is_u64, u64. by apply Z.mod_pos_bound. Qed.

(** The request is registered and on the wire. *)
Definition sent_call (c : Client) (cmd : Z) (body : request_body) (f : Frame) : Client :=
  let c := push_call c (fr_RequestID f) (mkCall (Some (fr_RequestID f)) None (Registered cmd body)) in
  set_call (set_wire c (cl_wire c ++ frame_bytes f)) (pred (length (cl_calls c)))
    (mkCall (Some (fr_RequestID f)) None Waiting).

Lemma request_sent c cmd A (C : JsonCodec A) (x : A) body :
  client_alive c → json_Marshal x = Some body → zlen body <= MaxBodySize →
  sendRecv_write (sendRecv_begin c cmd (Body C x)) (length (cl_calls c)) None =
    Some (sent_call c cmd (Body C x) (mkFrame cmd (u64 (cl_nextReq c + 1)) body)).
Proof.
  intros [Hcl Hrd] Hm Hl. unfold sendRecv_begin. rewrite Hcl. cbv zeta. set (id := u64 (cl_nextReq c + 1)).
  unfold sendRecv_write.
  assert (cl_calls (push_call c id (mkCall (Some id) None (Registered cmd (Body C x)))) !! length (cl_calls c) =
    Some (mkCall (Some id) None (Registered cmd (Body C x)))) as ->.
  { cbn. by rewrite lookup_app_r, Nat.sub_diag by lia. }
  change (cl_wire (push_call c id _)) with (cl_wire c).
  rewrite (Encode_body_some _ _ _ _ _ _ body) by done. unfold sent_call. cbn [fr_RequestID].
  do 2 f_equal. cbn. rewrite length_app. cbn. lia.
Qed.

Lemma sent_call_at c cmd body f :
  cl_calls (sent_call c cmd body f) = cl_calls c ++ [mkCall (Some (fr_RequestID f)) None Waiting] ∧
  cl_wire (sent_call c cmd body f) = cl_wire c ++ frame_bytes f ∧
  cl_pending (sent_call c cmd body f) !! fr_RequestID f = Some (length (cl_calls c)).
Proof.
  unfold sent_call. cbn. split_and!; [|done|by rewrite lookup_insert_eq].
  rewrite length_app. cbn [length]. replace (pred (length (cl_calls c) + 1)) with (length (cl_calls c) + 0)%nat by lia.
  by rewrite insert_app_r.
Qed.

(** One reply to the frame is what the call returns. *)
Lemma exchange_ok ae env b cn c cmd A (C : JsonCodec A) (x : A) body b' cn' rb rf :
  client_alive c → json_Marshal x = Some body → zlen body <= MaxBodySize → 0 <= cmd < 2 ^ 8 →
  let f := mkFrame cmd (u64 (cl_nextReq c + 1)) body in
  Broker_Handle_frame ae env b cn f = Replied b' cn' [mkReply (fr_RequestID f) rb] →
  reply_frame text (mkReply (fr_RequestID f) rb) = Some rf → frame_wf rf →
  fr_RequestID rf = fr_RequestID f → fr_Command rf ≠ CmdPush →
  ∃ c', exchange ae env b cn c cmd (Body C x) = Some (b', cn', c', frame_result (Some rf)) ∧
    exchanged c (frame_bytes f) (frame_result (Some rf)) c'.
Proof.
  intros Hal Hm Hl Hc f Hh Hrf Hwf Hid Hpush. unfold exchange.
  rewrite (request_sent _ _ _ _ _ body) by done. fold f. cbn [mbind option_bind].
  destruct (sent_call_at c cmd (Body C x) f) as (Hcalls & Hwire & Hpend).
  set (c1 := sent_call c cmd (Body C x) f) in *. rewrite Hwire, drop_app_length.
  rewrite <- (app_nil_r (frame_bytes f)), Decoder_Decode_frame by (split; [exact Hc|split; [apply u64_is_u64|exact Hl]]).
  rewrite Hh. cbn [mapM mbind option_bind mret option_ret]. rewrite Hrf. cbn [mbind option_bind].
  change (mret [rf]) with (Some [rf]). cbn [mbind option_bind fmap list_fmap mjoin list_join]. rewrite !app_nil_r.
  destruct (length (frame_bytes rf)) eqn:E; [pose proof (frame_bytes_pos rf); lia|].
  rewrite decode_one by done. cbn [fmap list_fmap app].
  rewrite (answer_delivered c1) by
    (first [exact Hpush|apply Hal|by rewrite Hid|by rewrite Hid, Hcalls, lookup_app_r, Nat.sub_diag by lia]).
  cbn [mbind option_bind]. rewrite Hid.
  assert (cl_calls c1 !! length (cl_calls c) = Some (mkCall (Some (fr_RequestID f)) None Waiting)) as Hi
    by (by rewrite Hcalls, lookup_app_r, Nat.sub_diag by lia).
  assert (cl_calls (set_pending c1 (delete (fr_RequestID f) (cl_pending c1))) !! length (cl_calls c) =
    Some (mkCall (Some (fr_RequestID f)) None Waiting)) as Hi' by (rewrite <- Hi; reflexivity).
  pose proof (lookup_set_call (set_pending c1 (delete (fr_RequestID f) (cl_pending c1))) (length (cl_calls c)) _
    (mkCall (Some (fr_RequestID f)) None (Returned (frame_result (Some rf)))) Hi') as Hres.
  set (c3 := set_call _ _ _) in *. exists c3. split.
  { destruct (cl_calls c3 !! _) as [[? ? [| |r]]|]; by simplify_eq. }
  split_and!; [apply Hal|done|exact Hwire|].
  change (cl_calls c3) with (<[length (cl_calls c) := mkCall (Some (fr_RequestID f)) None
    (Returned (frame_result (Some rf)))]> (cl_calls c1)).
  rewrite Hcalls. replace (length (cl_calls c)) with (length (cl_calls c) + 0)%nat at 1 by lia.
  by rewrite insert_app_r.
Qed.

(** ** A publish *)

Lemma build_message_id pe cfg a i msg : build_message pe cfg a i = Ok msg → msg_ID msg = pe_id pe.
Proof. unfold build_message. intros Hm. by repeat case_match; simplify_eq. Qed.

Lemma Unmarshal_publish cmd id (req : PublishRequest) :
  json_wf req → Unmarshal (mkFrame cmd id (default [] (json_Marshal req))) zero_PublishRequest = Some req.
Proof.
  intros Hwf. destruct (json_roundtrip req Hwf) as (data & Hd & Hback). rewrite Hd. unfold Unmarshal.
  cbn [fr_Body default from_option Datatypes.id]. destruct (Z.eqb_spec (zlen data) 0) as [E|]; [|done].
  assert (data = print (JObj (PublishRequest_fields req))) as ->
    by (change (Some (print (JObj (PublishRequest_fields req))) = Some data) in Hd; congruence).
  destruct (print_obj_head (PublishRequest_fields req)) as [t Ht]. rewrite Ht, zlen_cons in E.
  pose proof (zlen_nonneg t). lia.
Qed.

(** The id a routed publish answers with is the one drawn for its message. *)
Lemma routed_result_id pe b req t i cfg n ms next r :
  log_is (b_topics b) t i cfg n ms next → plain req → routed t n i req = true →
  0 <= pd_maxRetries (b_producers b) → step_ready t i pe (b_topics b) req →
  (Broker_publish b pe req).2 = Ok r → res_MessageID r = pe_id pe.
Proof.
  intros [Hinv (tp & pl & Ht & Hcfg & Hn & Hpl & Hms & Hnext)] Hp Hr Hmax Hready Hres.
  unfold routed in Hr. apply andb_true_iff in Hr as [Htop Hi].
  apply bool_decide_eq_true in Htop. apply Z.eqb_eq in Hi. subst t i cfg n next.
  destruct (Hready tp pl Ht Hpl) as (msg & Hmsg & Hok).
  assert (HashPartitioner_Assign (mg_partitioner (b_topics b)) (pr_Topic req) (pr_Key req) =
    (mg_partitioner (b_topics b), Ok (hashPartition (pr_Key req) (zlen (tp_partitions tp))))) as Ha.
  { apply keyed_assign; [|apply Hp]. by rewrite (mgi_topics _ Hinv), Ht. }
  destruct (Publish_ok pe (b_producers b) (b_topics b) (publish_args req) tp (mg_partitioner (b_topics b))
    (hashPartition (pr_Key req) (zlen (tp_partitions tp))) pl ms msg)
    as (p1 & m1 & pl1 & Hpub & _); [done..| |].
  { destruct (plain_mode req Hp) as [?|[?|(? & ? & ?)]]; auto. }
  unfold Broker_publish in Hres. rewrite Hpub in Hres. cbn in Hres. simplify_eq. cbn.
  by eapply build_message_id.
Qed.

(** What the broker makes of a publish whose log accepts it. *)
Lemma handle_routed ae env mv b cn f req t i cfg n ms next :
  Unmarshal f zero_PublishRequest = Some req → fr_Command f = CmdPublish →
  (ae = true → cn_authed cn = true) → open_gates b cn t → broker_ok b → env_fits env →
  he_msgs env = [mv] → he_write env = true → wal_fine mv → plain req →
  log_is (b_topics b) t i cfg n ms next → routed t n i req = true →
  0 <= pd_maxRetries (b_producers b) → step_ready t i (mv_pub mv) (b_topics b) req →
  ∃ b' msg, Broker_Handle_frame ae env b cn f =
      Replied b' cn [mkReply (fr_RequestID f) (BPublish (mkPublishResponse (pe_id (mv_pub mv)) i next))] ∧
    log_is (b_topics b') t i cfg n (ms ++ [msg]) (next + 1) ∧ erase msg = published cfg i req next.
Proof.
  intros Hu Hcmd Ha Hg Hb He Hm Hw Hfine Hp Hl Hr Hmax Hready.
  assert (pr_Topic req = t) as Ht.
  { unfold routed in Hr. apply andb_true_iff in Hr as [Hr _]. by apply bool_decide_eq_true in Hr. }
  rewrite Handle_publish by done. pose proof (handlePublish_ok env b cn f Hb He) as Hok.
  rewrite (handlePublish_step env mv b cn f req t) in * by done.
  destruct (publish_step_keyed mv b req) as (Htop & _ & _ & Hx); [apply Hl|apply Hp|].
  destruct (Broker_publish_routed (mv_pub mv) b req t i cfg n ms next) as (msg & Hl' & Hmsg & Hres & _); [done..|].
  destruct (publish_step mv b req) as [b1 x]. cbn [fst snd] in Htop, Hx. rewrite Hres in Hx. subst x.
  assert (msg_ID msg = pe_id (mv_pub mv)) as Hid
    by exact (routed_result_id _ _ _ _ _ _ _ _ _ _ Hl Hp Hr Hmax Hready Hres).
  unfold single_tail in *. cbn [snd] in *.
  destruct (GroupManager_Dispatch _ _ _ _ _ _) as [g|]; [|done].
  eexists _, msg. split; [unfold published_reply, send; cbn [res_MessageID res_Partition res_Offset]; by rewrite Hid|].
  split; [|done]. cbn. by rewrite Htop.
Qed.

(** ** Properties *)

(** The frame of the answer to a publish, and what a producer reads in it. *)
Lemma publish_reply_frame id r data :
  json_wf r → json_Marshal r = Some data → zlen data <= MaxBodySize → is_u64 id →
  let rf := mkFrame CmdResponse id data in
  reply_frame text (mkReply id (BPublish r)) = Some rf ∧ frame_wf rf ∧ frame_result (Some rf) = Ok rf ∧
  publish_response rf = Ok r.
Proof.
  intros Hwf Hd Hlen Hid rf. unfold reply_frame. cbn [rp_body rp_RequestID]. rewrite Hd. split_and!; [done| |done|].
  - split; [|split; [exact Hid|exact Hlen]]. unfold rf, CmdResponse. cbn. lia.
  - destruct (json_roundtrip r Hwf) as (data' & Hd' & Hback). rewrite Hd in Hd'. injection Hd' as <-.
    unfold publish_response, Unmarshal. cbn [rf fr_Body]. destruct (Z.eqb_spec (zlen data) 0) as [E|].
    + apply zlen_zero in E. subst data. change (Some (print (JObj (PublishResponse_fields r))) = Some []) in Hd.
      destruct (print_obj_head (PublishResponse_fields r)) as [t Ht]. rewrite Ht in Hd. discriminate Hd.
    + by rewrite Hback.
Qed.

(** C13: publishing through the client library stores the message. For a keyed
    publish that is not exactly-once, to a broker whose gates are open
    ([open_gates]: topic named, permission granted, rate limits, WAL threshold
    and audit off) and whose calls go through: the bytes the client writes
    decode at the broker to the producer's request, the broker appends exactly
    its message to the log of the partition of its key, and the bytes of the
    reply reach the caller, who is told the offset at which the message is
    stored, at the first attempt. *)
Theorem sdk_publish_end_to_end ae env mv b cn c p key payload headers i cfg n ms next :
  let req := (publish_request p key payload headers).2 in
  let resp := mkPublishResponse (pe_id (mv_pub mv)) i next in
  client_alive c → plain req → json_wf req → zlen (default [] (json_Marshal req)) <= MaxBodySize →
  json_wf resp → zlen (default [] (json_Marshal resp)) <= MaxBodySize →
  (ae = true → cn_authed cn = true) → open_gates b cn (sp_topic p) → broker_ok b → env_fits env →
  he_msgs env = [mv] → he_write env = true → wal_fine mv →
  log_is (b_topics b) (sp_topic p) i cfg n ms next → routed (sp_topic p) n i req = true →
  0 <= pd_maxRetries (b_producers b) → step_ready (sp_topic p) i (mv_pub mv) (b_topics b) req →
  ∃ b' c' f msg,
    exchange ae env b cn c CmdPublish (Body PublishRequestJson req) = Some (b', cn, c', Ok f) ∧
    SdkProducer_Publish p (λ _, Ok f) (λ _, false) = ([], Some (Ok next)) ∧
    log_is (b_topics b') (sp_topic p) i cfg n (ms ++ [msg]) (next + 1) ∧
    erase msg = published cfg i req next ∧ client_alive c'.
Proof.
  intros req resp Hal Hp Hwf Hlen Hrwf Hrlen Ha Hg Hb He Hm Hw Hfine Hl Hr Hmax Hready.
  set (id := u64 (cl_nextReq c + 1)).
  destruct (handle_routed ae env mv b cn (mkFrame CmdPublish id (default [] (json_Marshal req))) req
    (sp_topic p) i cfg n ms next) as (b' & msg & Hh & Hl' & Hmsg); [by apply Unmarshal_publish|done..|].
  destruct (publish_reply_frame id resp (default [] (json_Marshal resp))) as (Hrf & Hrfw & Hres & Hresp);
    [done|done|done|apply u64_is_u64|].
  destruct (exchange_ok ae env b cn c CmdPublish _ PublishRequestJson req (default [] (json_Marshal req)) b' cn
    (BPublish resp) (mkFrame CmdResponse id (default [] (json_Marshal resp)))) as (c' & Hx & Hc');
    [done|apply marshal_publish|done|unfold CmdPublish; lia|exact Hh|exact Hrf|exact Hrfw|done|done|].
  rewrite Hres in Hx, Hc'. eexists b', c', _, msg. split; [exact Hx|]. split; [|by destruct Hc'].
  unfold SdkProducer_Publish, retry_fuel. cbn [publishWithRetry]. rewrite Hresp. done.
Qed.

(** A refused authentication is a response like any other: the client library
    reports success. *)
Lemma Authenticate_accepts_refusal ae env b cn c key :
  client_alive c → str_valid key = true → zlen (default [] (json_Marshal (mkAuthRequest key ""))) <= MaxBodySize →
  Authenticator_Authenticate (b_auth b) key = Error UnknownAPIKey → he_write env = true →
  ∃ b' c' r, exchange ae env b cn c CmdAuth (Body AuthRequestJson (mkAuthRequest key "")) = Some (b', cn, c', r) ∧
    Authenticate r = Ok tt.
Proof.
  intros Hal Hkey Hlen Ha Hw. set (req := mkAuthRequest key "") in *. set (id := u64 (cl_nextReq c + 1)).
  set (resp := mkAuthResponse false "auth: unknown API key" []).
  assert (json_wf req) as Hwf by (by split).
  destruct (json_roundtrip req Hwf) as (data & Hd & Hback).
  assert (Unmarshal (mkFrame CmdAuth id data) (mkAuthRequest "" "") = Some req) as Hu.
  { unfold Unmarshal. cbn [fr_Body]. destruct (Z.eqb_spec (zlen data) 0) as [E|]; [|done].
    apply zlen_zero in E. subst data. change (Some (print (JObj (AuthRequest_fields req))) = Some []) in Hd.
    destruct (print_obj_head (AuthRequest_fields req)) as [t Ht]. rewrite Ht in Hd. discriminate Hd. }
  set (rf := mkFrame CmdResponse id (default [] (json_Marshal resp))).
  assert (∃ b', Broker_Handle_frame ae env b cn (mkFrame CmdAuth id data) =
    Replied b' cn [mkReply id (BAuth resp)]) as [b' Hh].
  { unfold Broker_Handle_frame. cbn [fr_Command]. rewrite andb_false_r. cbn [andb]. rewrite Hw.
    unfold Broker_dispatch_frame. cbn [fr_Command]. change (CmdAuth =? CmdAuth) with true. cbv iota.
    unfold Broker_handleAuth. rewrite Hu. change (ar_APIKey req) with key. rewrite Ha. by eexists. }
  destruct (exchange_ok ae env b cn c CmdAuth _ AuthRequestJson req data b' cn (BAuth resp) rf) as (c' & Hx & _).
  - done.
  - done.
  - by rewrite Hd in Hlen.
  - unfold CmdAuth. lia.
  - exact Hh.
  - reflexivity.
  - split; [unfold rf, CmdResponse; cbn; lia|]. split; [apply u64_is_u64|]. vm_compute. discriminate.
  - done.
  - done.
  - exists b', c', (frame_result (Some rf)). split; [exact Hx|done].
Qed.

End Exchange.

(** ** A producer at work *)

Definition demo_sdk : SdkProducer := NewSdkProducer "orders".

Definition demo_sdk_request : PublishRequest := (publish_request demo_sdk "k" (bytes_of_string "hello") ∅).2.

Lemma demo_broker_ok : broker_ok demo_open_broker.
Proof.
  split; [|split].
  - exact (li_inv _ _ _ _ _ _ _ (demo_log_is [] [] (mkWAL [] 0) [])).
  - split; [|by split]. intros key g. cbn. by rewrite lookup_empty.
  - done.
Qed.

Lemma demo_open_gates : open_gates demo_open_broker (demo_conn RoleProducer) "orders".
Proof.
  split; [discriminate|vm_compute; reflexivity|vm_compute; reflexivity|vm_compute; discriminate|reflexivity].
Qed.

Lemma demo_msgs_fit : env_fits (demo_msgs_env [fine_msg_env]).
Proof.
  split; [apply Forall_cons_2; [apply fine_msg_env_ok|apply Forall_nil_2]|]. intros m. apply fine_msg_env_ok.
Qed.

Lemma sdk_publish_end_to_end_witness :
  ∃ b' c' f msg,
    exchange (λ _, "error"%string) true (demo_msgs_env [fine_msg_env]) demo_open_broker (demo_conn RoleProducer)
      demo_client CmdPublish (Body PublishRequestJson demo_sdk_request) =
      Some (b', demo_conn RoleProducer, c', Ok f) ∧
    SdkProducer_Publish demo_sdk (λ _, Ok f) (λ _, false) = ([], Some (Ok 0)) ∧
    erase msg = published demo_cfg2 0 demo_sdk_request 0.
Proof.
  destruct (sdk_publish_end_to_end (λ _, "error"%string) true (demo_msgs_env [fine_msg_env]) fine_msg_env
    demo_open_broker (demo_conn RoleProducer) demo_client demo_sdk "k" (bytes_of_string "hello") ∅ 0 demo_cfg2 2 [] 0)
    as (b' & c' & f & msg & Hx & Hp & _ & Hm & _).
  - split; reflexivity.
  - split; [discriminate|right; reflexivity].
  - split_and!; try done.
  - vm_compute. discriminate.
  - split_and!; try done.
  - vm_compute. discriminate.
  - done.
  - exact demo_open_gates.
  - exact demo_broker_ok.
  - exact demo_msgs_fit.
  - reflexivity.
  - reflexivity.
  - exact wal_io_fine_ok.
  - exact (demo_log_is [] [] (mkWAL [] 0) []).
  - vm_compute. reflexivity.
  - vm_compute. discriminate.
  - by eapply list_step_ready.
  - exists b', c', f, msg. split; [exact Hx|]. split; [exact Hp|exact Hm].
Defined.
