(* ===== verification/WebSocket.v ===== *)
(** * WebSocket frames: [internal/wsutil/websocket.go]

    The frames the gateway and the explorer exchange with browsers: reading a
    masked client frame, writing a server frame and the read loop that answers
    pings.  The handshake ([UpgradeWebSocket]) is HTTP. *)

From S2P Require Import Prelude GoLib Json.

Local Open Scope Z_scope.

(** ** Constants *)

Definition OpText : Z := 0x1.
Definition OpClose : Z := 0x8.
Definition OpPing : Z := 0x9.
Definition OpPong : Z := 0xA.

Inductive ws_err :=
| WsRead (e : read_err)
| WsFragmented
| WsUnmasked
| WsClosed
| WsOpcode (opcode : Z)
| WsWrite.

(** ** Reading

    The package's own [ReadFull]: a stream that ends early is [io.EOF]. *)
Definition ReadFull (r : bytes) (n : Z) : result (bytes * bytes) read_err :=
  match io_ReadFull r n with
  | Error _ => Error EOF
  | Ok br => Ok br
  end.

Definition byte_xor (a b : Init.Byte.byte) : Init.Byte.byte := byte.of_Z (Z.lxor (bval a) (bval b)).

(** [payload[i] ^= maskKey[i%4]], from index [i]. *)
Fixpoint unmask (key : bytes) (i : nat) (payload : bytes) : bytes :=
  match payload with
  | [] => []
  | b :: payload' => byte_xor b (nth (i mod 4) key Byte.x00) :: unmask key (S i) payload'
  end.

(** [length = length<<8 | int64(b)] over the extension. *)
Definition read_length (ext : bytes) : Z := foldl (λ l b, i64 (Z.lor (Z.shiftl l 8) (bval b))) 0 ext.

(** The length, and what follows its extension. *)
Definition read_ext (length : Z) (r : bytes) : result (Z * bytes) ws_err :=
  if length =? 126 then
    match ReadFull r 2 with
    | Error e => Error (WsRead e)
    | Ok (ext, r) => Ok (read_length ext, r)
    end
  else if length =? 127 then
    match ReadFull r 8 with
    | Error e => Error (WsRead e)
    | Ok (ext, r) => Ok (read_length ext, r)
    end
  else Ok (length, r).

(** [None] is the panic of [make] for a negative length; a length memory does
    not suffice for is not modelled. *)
Definition readFrame (r : bytes) : option (result (Z * bytes * bytes) ws_err) :=
  match ReadFull r 2 with
  | Error e => Some (Error (WsRead e))
  | Ok (hdr, r) =>
      let h0 := bval (nth 0 hdr Byte.x00) in
      let h1 := bval (nth 1 hdr Byte.x00) in
      if negb (negb (Z.land h0 0x80 =? 0)) then Some (Error WsFragmented)
      else if negb (negb (Z.land h1 0x80 =? 0)) then Some (Error WsUnmasked)
      else
        match read_ext (Z.land h1 0x7F) r with
        | Error e => Some (Error e)
        | Ok (length, r) =>
            match ReadFull r 4 with
            | Error e => Some (Error (WsRead e))
            | Ok (maskKey, r) =>
                if length <? 0 then None
                else
                  match ReadFull r length with
                  | Error e => Some (Error (WsRead e))
                  | Ok (payload, r) => Some (Ok (Z.land h0 0x0F, unmask maskKey 0 payload, r))
                  end
            end
        end
  end.

(** ** Writing *)

Definition ws_header (opcode : Z) (mask : Z) (n : Z) : bytes :=
  let first := byte.of_Z (Z.lor 0x80 opcode) in
  if n <=? 125 then [first; byte.of_Z (Z.lor mask n)]
  else if n <=? 0xFFFF then first :: byte.of_Z (Z.lor mask 126) :: reverse (le_split 2 n)
  else first :: byte.of_Z (Z.lor mask 127) :: reverse (le_split 8 n).

(** The two writes, the second for a payload; servers do not mask. *)
Definition writeFrame (w : bytes) (opcode : Z) (payload : bytes) (ok_hdr ok_body : bool) :
    bytes * result unit ws_err :=
  if negb ok_hdr then (w, Error WsWrite)
  else
    let w := w ++ ws_header opcode 0 (zlen payload) in
    if 0 <? zlen payload then
      if ok_body then (w ++ payload, Ok tt) else (w, Error WsWrite)
    else (w, Ok tt).

Definition WriteTextFrame (w data : bytes) (ok_hdr ok_body : bool) : bytes * result unit ws_err :=
  writeFrame w OpText data ok_hdr ok_body.

(** ** The read loop

    [io k] is the outcome of the writes of the [k]-th answer; a frame takes
    six bytes or more of the stream. *)
Fixpoint read_text (fuel : nat) (io : nat → bool * bool) (k : nat) (w r : bytes) :
    bytes * option (result (bytes * bytes) ws_err) :=
  match fuel with
  | O => (w, None)
  | S fuel =>
      match readFrame r with
      | None => (w, None)
      | Some (Error e) => (w, Some (Error e))
      | Some (Ok (opcode, payload, r)) =>
          if opcode =? OpText then (w, Some (Ok (payload, r)))
          else if opcode =? OpPing then
            match writeFrame w OpPong payload (io k).1 (io k).2 with
            | (w, Error e) => (w, Some (Error e))
            | (w, Ok _) => read_text fuel io (S k) w r
            end
          else if opcode =? OpPong then read_text fuel io k w r
          else if opcode =? OpClose then ((writeFrame w OpClose [] (io k).1 (io k).2).1, Some (Error WsClosed))
          else (w, Some (Error (WsOpcode opcode)))
      end
  end.

Definition ReadTextFrame (io : nat → bool * bool) (w r : bytes) : bytes * option (result (bytes * bytes) ws_err) :=
  read_text (S (length r)) io 0 w r.

(** ** What RFC 6455 has a client send *)

Definition client_frame (opcode : Z) (key payload : bytes) : bytes :=
  ws_header opcode 0x80 (zlen payload) ++ key ++ unmask key 0 payload.

(** ** Facts *)

Lemma bval_bits_high b n : 8 <= n → Z.testbit (bval b) n = false.
Proof.
  intros Hn. pose proof (bval_range b).
  rewrite <- (Z.mod_small (bval b) (2 ^ 8)) by lia. apply Z.mod_pow2_bits_high. lia.
Qed.

Lemma Z_bits_256 x : (∀ n, 8 <= n → Z.testbit x n = false) → 0 <= x < 256.
Proof.
  intros Hb. assert (x = x mod 2 ^ 8) as ->; [|by apply Z.mod_pos_bound].
  apply Z.bits_inj'. intros n Hn. destruct (Z.ltb_spec n 8).
  - by rewrite Z.mod_pow2_bits_low.
  - by rewrite Z.mod_pow2_bits_high, Hb by lia.
Qed.

Lemma byte_xor_twice a b : byte_xor (byte_xor a b) b = a.
Proof.
  unfold byte_xor. assert (0 <= Z.lxor (bval a) (bval b) < 256) as Hr.
  { apply (Z_bits_256 (Z.lxor (bval a) (bval b))). intros n Hn.
    by rewrite Z.lxor_spec, !bval_bits_high. }
  apply of_bval. unfold bval at 1. rewrite byte.unsigned_of_Z. unfold byte.wrap.
  rewrite Z.mod_small by done. by rewrite Z.lxor_assoc, Z.lxor_nilpotent, Z.lxor_0_r.
Qed.

Lemma unmask_twice key payload : ∀ i, unmask key i (unmask key i payload) = payload.
Proof. induction payload as [|b payload IH]; intros i; [done|]. cbn [unmask]. by rewrite byte_xor_twice, IH. Qed.

Lemma unmask_length key payload : ∀ i, length (unmask key i payload) = length payload.
Proof. induction payload as [|b payload IH]; intros i; [done|]. cbn [unmask length]. by rewrite IH. Qed.

Lemma lor_shift_byte z : 0 <= z → Z.lor (Z.shiftl (Z.shiftr z 8) 8) (z mod 2 ^ 8) = z.
Proof.
  intros Hz. apply Z.bits_inj'. intros n Hn. rewrite Z.lor_spec, Z.shiftl_spec by done.
  destruct (Z.ltb_spec n 8).
  - rewrite Z.testbit_neg_r, Z.mod_pow2_bits_low by lia. done.
  - rewrite Z.shiftr_spec, Z.mod_pow2_bits_high by lia. rewrite orb_false_r. f_equal. lia.
Qed.

(** The fold reads a big-endian number that fits. *)
Lemma read_length_be n : ∀ z, 0 <= z < 2 ^ (8 * Z.of_nat n) → z < 2 ^ 63 →
  read_length (reverse (le_split n z)) = z.
Proof.
  unfold read_length. induction n as [|n IH]; intros z Hz Hs.
  { change (0 <= z < 1) in Hz. change (0 = z). lia. }
  change (le_split (S n) z) with (byte.of_Z z :: le_split n (Z.shiftr z 8)). rewrite reverse_cons, foldl_app. cbn [foldl].
  replace (8 * Z.of_nat (S n)) with (8 * Z.of_nat n + 8) in Hz by lia.
  rewrite Z.pow_add_r in Hz by lia.
  assert (0 <= Z.shiftr z 8 < 2 ^ (8 * Z.of_nat n)) as Hq.
  { rewrite Z.shiftr_div_pow2 by lia. split; [apply Z.div_pos; lia|]. apply Z.div_lt_upper_bound; lia. }
  assert (Z.shiftr z 8 <= z) as Hle by (rewrite Z.shiftr_div_pow2 by lia; apply Z.div_le_upper_bound; lia).
  rewrite IH by lia. unfold bval. rewrite byte.unsigned_of_Z. unfold byte.wrap.
  rewrite lor_shift_byte by lia. apply i64_id. unfold is_i64. lia.
Qed.

Lemma ReadFull_app (b r : bytes) n : n = zlen b → ReadFull (b ++ r) n = Ok (b, r).
Proof. intros H. unfold ReadFull. by rewrite io_ReadFull_app. Qed.

(** The flag bit and the low bits of a header byte. *)
Lemma flagged_byte m : 0 <= m < 128 →
  let h := bval (byte.of_Z (Z.lor 0x80 m)) in (Z.land h 0x80 =? 0) = false ∧ Z.land h 0x7F = m.
Proof.
  intros Hm.
  assert (Forall (λ m, (Z.land (bval (byte.of_Z (Z.lor 0x80 m))) 0x80 =? 0) = false
    ∧ Z.land (bval (byte.of_Z (Z.lor 0x80 m))) 0x7F = m) (seqZ 0 128)) as H.
  { apply (bool_decide_unpack _). vm_compute. done. }
  rewrite Forall_forall in H. apply (H m). apply elem_of_seqZ. lia.
Qed.

Lemma opcode_byte op : 0 <= op < 16 → Z.land (bval (byte.of_Z (Z.lor 0x80 op))) 0x0F = op.
Proof.
  intros Hm.
  assert (Forall (λ m, Z.land (bval (byte.of_Z (Z.lor 0x80 m))) 0x0F = m) (seqZ 0 16)) as H.
  { apply (bool_decide_unpack _). vm_compute. done. }
  rewrite Forall_forall in H. apply (H op). apply elem_of_seqZ. lia.
Qed.

Lemma zlen_reverse_split n z : zlen (reverse (le_split n z)) = Z.of_nat n.
Proof. unfold zlen. by rewrite length_reverse, LittleEndianList.length_le_split. Qed.

(** Every header is two bytes and an extension that gives back the length. *)
Lemma ws_header_shape op n : 0 <= n < 2 ^ 63 → ∃ m ext,
  ws_header op 0x80 n = [byte.of_Z (Z.lor 0x80 op); byte.of_Z (Z.lor 0x80 m)] ++ ext
  ∧ 0 <= m < 128 ∧ ∀ r, read_ext m (ext ++ r) = Ok (n, r).
Proof.
  intros Hn. unfold ws_header. destruct (Z.leb_spec n 125); [|destruct (Z.leb_spec n 0xFFFF)].
  - exists n, []. split; [done|]. split; [lia|]. intros r. unfold read_ext.
    destruct (Z.eqb_spec n 126); [lia|]. destruct (Z.eqb_spec n 127); [lia|]. done.
  - exists 126, (reverse (le_split 2 n)). split; [done|]. split; [lia|]. intros r. unfold read_ext.
    change (126 =? 126) with true. cbn match.
    rewrite ReadFull_app by (by rewrite zlen_reverse_split). rewrite read_length_be; [done| |lia].
    change (8 * Z.of_nat 2) with 16. lia.
  - exists 127, (reverse (le_split 8 n)). split; [done|]. split; [lia|]. intros r. unfold read_ext.
    change (127 =? 126) with false. change (127 =? 127) with true. cbn match.
    rewrite ReadFull_app by (by rewrite zlen_reverse_split). rewrite read_length_be; [done| |lia].
    change (8 * Z.of_nat 8) with 64. lia.
Qed.

(** A frame a client sends is read back, unmasked. *)
Lemma readFrame_client op key payload r :
  0 <= op < 16 → zlen key = 4 → zlen payload < 2 ^ 63 →
  readFrame (client_frame op key payload ++ r) = Some (Ok (op, payload, r)).
Proof.
  intros Hop Hkey Hp. pose proof (zlen_nonneg payload) as Hp0.
  destruct (ws_header_shape op (zlen payload)) as (m & ext & Hh & Hm & Hext); [done|].
  unfold client_frame, readFrame. rewrite Hh, <- !app_assoc, ReadFull_app by done.
  cbv beta iota zeta. cbn [nth].
  destruct (flagged_byte op) as [-> _]; [lia|]. destruct (flagged_byte m) as [-> ->]; [lia|]. cbn [negb].
  rewrite Hext, ReadFull_app by done. destruct (Z.ltb_spec (zlen payload) 0); [lia|].
  rewrite ReadFull_app by (unfold zlen; by rewrite unmask_length).
  by rewrite unmask_twice, opcode_byte.
Qed.

(** ** The read loop *)

(** What a client sends before its text: a ping or a pong. *)
Record control := Control { ctl_ping : bool; ctl_key : bytes; ctl_payload : bytes }.

Definition control_wf (c : control) : Prop := zlen (ctl_key c) = 4 ∧ zlen (ctl_payload c) < 2 ^ 63.

Definition control_frame (c : control) : bytes :=
  client_frame (if ctl_ping c then OpPing else OpPong) (ctl_key c) (ctl_payload c).

(** The answer to a ping is a pong with its payload; to a pong, nothing. *)
Definition control_answer (c : control) : bytes :=
  if ctl_ping c then ws_header OpPong 0 (zlen (ctl_payload c)) ++ ctl_payload c else [].

Lemma client_frame_pos op key payload : (0 < length (client_frame op key payload))%nat.
Proof.
  unfold client_frame, ws_header. rewrite length_app.
  destruct (_ <=? 125); [|destruct (_ <=? 0xFFFF)]; cbn [length]; lia.
Qed.

Lemma writeFrame_ok w op payload :
  writeFrame w op payload true true = (w ++ ws_header op 0 (zlen payload) ++ payload, Ok tt).
Proof.
  unfold writeFrame. cbn [negb]. pose proof (zlen_nonneg payload). destruct (Z.ltb_spec 0 (zlen payload)).
  - by rewrite <- app_assoc.
  - rewrite (zlen_zero payload) by lia. by rewrite app_nil_r.
Qed.

Lemma read_text_controls io cs text key r : (∀ k, io k = (true, true)) →
  Forall control_wf cs → zlen key = 4 → zlen text < 2 ^ 63 → ∀ fuel k w,
  (length (mjoin (control_frame <$> cs)) < fuel)%nat →
  read_text fuel io k w (mjoin (control_frame <$> cs) ++ client_frame OpText key text ++ r)
  = (w ++ mjoin (control_answer <$> cs), Some (Ok (text, r))).
Proof.
  intros Hio Hcs Hkey Htext. induction Hcs as [|[p ck cp] cs [Hck Hcp] _ IH]; intros fuel k w Hf.
  { destruct fuel as [|fuel]; [cbn in Hf; lia|]. cbn [fmap list_fmap mjoin list_join read_text app].
    rewrite readFrame_client by (done || lia). by rewrite app_nil_r. }
  cbn [fmap list_fmap] in *. cbn [mjoin list_join] in *. rewrite length_app in Hf.
  pose proof (client_frame_pos (if p then OpPing else OpPong) ck cp) as Hpos.
  unfold control_frame at 1 in Hf. cbn [ctl_ping ctl_key ctl_payload] in *.
  destruct fuel as [|fuel]; [lia|]. cbn [read_text]. unfold control_frame at 1. cbn [ctl_ping ctl_key ctl_payload].
  rewrite <- !app_assoc, readFrame_client by (done || (destruct p; unfold OpPing, OpPong; lia)).
  assert (∀ a b c : nat, (a + b < S c → 0 < a → b < c)%nat) as Harith by lia.
  pose proof (Harith _ _ _ Hf Hpos) as Hlt. clear Harith.
  unfold control_answer at 1. cbn [ctl_ping ctl_payload]. destruct p.
  - change (OpPing =? OpText) with false. change (OpPing =? OpPing) with true. cbv iota.
    rewrite Hio. cbn [fst snd]. rewrite writeFrame_ok, IH by exact Hlt. by rewrite <- !app_assoc.
  - change (OpPong =? OpText) with false. change (OpPong =? OpPing) with false.
    change (OpPong =? OpPong) with true. cbv iota. rewrite IH by exact Hlt. done.
Qed.

(** The read loop gives back the text a client sent.  Whatever pings and
    pongs come before it, [ReadTextFrame] returns the unmasked text and leaves
    the stream behind it, having answered each ping, in order, with a pong
    that carries its payload, and nothing else. *)
Theorem websocket_text_roundtrip (io : nat → bool * bool) (w : bytes) cs key text r :
  (∀ k, io k = (true, true)) → Forall control_wf cs → zlen key = 4 → zlen text < 2 ^ 63 →
  ReadTextFrame io w (mjoin (control_frame <$> cs) ++ client_frame OpText key text ++ r)
  = (w ++ mjoin (control_answer <$> cs), Some (Ok (text, r))).
Proof.
  intros Hio Hcs Hkey Htext. unfold ReadTextFrame. apply read_text_controls; try done.
  rewrite length_app. lia.
Qed.

Definition a_key : bytes := byte.of_Z <$> [0x37; 0xFA; 0x21; 0x3D].

Lemma websocket_text_roundtrip_witness :
  let ping := Control true a_key (bytes_of_string "hi") in
  let frame := client_frame OpText a_key (bytes_of_string "Hello") in
  (* the masked Hello of RFC 6455, section 5.7 *)
  bval <$> frame = [0x81; 0x85; 0x37; 0xFA; 0x21; 0x3D; 0x7F; 0x9F; 0x4D; 0x51; 0x58]
  ∧ ReadTextFrame (λ _, (true, true)) [] (control_frame ping ++ frame)
    = ([byte.of_Z 0x8A; byte.of_Z 0x02] ++ bytes_of_string "hi", Some (Ok (bytes_of_string "Hello", []))).
Proof.
  intros ping frame. split; [vm_compute; reflexivity|].
  pose proof (websocket_text_roundtrip (λ _, (true, true)) [] [ping] a_key (bytes_of_string "Hello") []
    (λ _, eq_refl) ltac:(apply Forall_cons_2; [done|apply Forall_nil_2]) eq_refl ltac:(done)) as H.
  cbn [fmap list_fmap mjoin list_join] in H. rewrite !app_nil_r in H. exact H.
Defined.

(** A frame whose eight-byte length has its top bit set makes [make] panic. *)
Lemma negative_length_panics :
  readFrame (byte.of_Z <$> [0x81; 0xFF; 0x80; 0; 0; 0; 0; 0; 0; 0; 1; 2; 3; 4]) = None.
Proof. vm_compute. reflexivity. Qed.
