(* ===== verification/WsHandshake.v ===== *)
(** * The WebSocket handshake: [ComputeAcceptKey] and [UpgradeWebSocket] of [internal/wsutil/websocket.go]

    With SHA-1 of the standard library, executable, as the words of its state
    are 32 bits. *)

From S2P Require Import Prelude GoLib Json Types RateLimit Auth.

Local Open Scope Z_scope.

Module Sha1.

Definition rotl (x n : Z) : Z := Z.lor (u32 (Z.shiftl x n)) (Z.shiftr x (32 - n)).

Definition initial : list Z := [0x67452301; 0xEFCDAB89; 0x98BADCFE; 0x10325476; 0xC3D2E1F0].

(** The message schedule, newest word first. *)
Fixpoint schedule (n : nat) (ws : list Z) : list Z :=
  match n with
  | O => ws
  | S n =>
      schedule n
        (rotl (Z.lxor (Z.lxor (Sha256.nth_word ws 2) (Sha256.nth_word ws 7)) (Z.lxor (Sha256.nth_word ws 13) (Sha256.nth_word ws 15))) 1 :: ws)
  end.

(** The function and the constant of a round. *)
Definition choose (i b c d : Z) : Z * Z :=
  if i <? 20 then (Z.lor (Z.land b c) (Z.land (Z.lxor b 0xFFFFFFFF) d), 0x5A827999)
  else if i <? 40 then (Z.lxor (Z.lxor b c) d, 0x6ED9EBA1)
  else if i <? 60 then (Z.lor (Z.lor (Z.land b c) (Z.land b d)) (Z.land c d), 0x8F1BBCDC)
  else (Z.lxor (Z.lxor b c) d, 0xCA62C1D6).

Definition round (st : list Z) (iw : Z * Z) : list Z :=
  match st with
  | [a; b; c; d; e] =>
      let '(f, k) := choose iw.1 b c d in
      [u32 (rotl a 5 + f + e + k + iw.2); a; rotl b 30; c; d]
  | _ => st
  end.

Definition block (st : list Z) (b : bytes) : list Z :=
  let ws := reverse (schedule 64 (reverse (Sha256.words 16 b))) in
  zip_with (λ x y, u32 (x + y)) st (foldl round st (zip (seqZ 0 80) ws)).

Fixpoint blocks (n : nat) (st : list Z) (b : bytes) : list Z :=
  match n with
  | O => st
  | S n => blocks n (block st (take 64 b)) (drop 64 b)
  end.

(** The padding is that of SHA-256. *)
Definition Sum (m : bytes) : bytes :=
  let p := Sha256.pad m in
  blocks (length p / 64) initial p ≫= Sha256.be_bytes 4.

Example sum_abc :
  string_of_bytes (hex_of (Sum (bytes_of_string "abc"))) = "a9993e364706816aba3e25717850c26c9cd0d89d"%string.
Proof. vm_compute. reflexivity. Qed.

End Sha1.

Definition websocketGUID : string := "258EAFA5-E914-47DA-95CA-C5AB0DC85B11".

Definition ComputeAcceptKey (key : string) : bytes := b64_encode (Sha1.Sum (bytes_of_string (key +:+ websocketGUID))).

Inductive upgrade_err :=
| UpMethod
| UpNoKey
| UpNoUpgrade
| UpNoHijack
| UpHijack
| UpWrite
| UpFlush.

(** A request as the handshake looks at it; a header that is absent is empty. *)
Record UpgradeRequest := mkUpgradeRequest {
  uq_Method : string;
  uq_Key : string;
  uq_Upgrade : string;
  uq_Version : string;
}.

Definition crlf : bytes := [Byte.x0d; Byte.x0a].

Definition handshake_reply (key : string) : bytes :=
  bytes_of_string "HTTP/1.1 101 Switching Protocols" ++ crlf ++ bytes_of_string "Upgrade: websocket" ++ crlf ++
  bytes_of_string "Connection: Upgrade" ++ crlf ++ bytes_of_string "Sec-WebSocket-Accept: " ++ ComputeAcceptKey key ++ crlf ++ crlf.

(** [hijacker] and the outcomes of the hijack, the write and the flush; the
    answer is the bytes on the connection, none when it was not taken over,
    whether it was closed, and the error. *)
Definition UpgradeWebSocket (rq : UpgradeRequest) (hijacker hijacked written flushed : bool) :
    option bytes * bool * option upgrade_err :=
  if negb (bool_decide (uq_Method rq = "GET"%string)) then (None, false, Some UpMethod)
  else if bool_decide (uq_Key rq = EmptyString) then (None, false, Some UpNoKey)
  else if bool_decide (uq_Upgrade rq = EmptyString) then (None, false, Some UpNoUpgrade)
  else if negb hijacker then (None, false, Some UpNoHijack)
  else if negb hijacked then (None, false, Some UpHijack)
  else if negb written then (Some [], true, Some UpWrite)
  else if negb flushed then (Some [], true, Some UpFlush)
  else (Some (handshake_reply (uq_Key rq)), false, None).

(** The example of RFC 6455. *)
Example accept_key_of_rfc :
  ComputeAcceptKey "dGhlIHNhbXBsZSBub25jZQ==" = bytes_of_string "s3pPLMBiTxaQ9kYGzzhZRbK+xOo=".
Proof. vm_compute. reflexivity. Qed.

(** A connection is handed on exactly when the reply went out, and it is
    closed exactly when it was taken over and the reply did not. *)
Lemma upgrade_exact rq hijacker hijacked written flushed :
  let '(wire, closed, err) := UpgradeWebSocket rq hijacker hijacked written flushed in
  (err = None ↔ wire = Some (handshake_reply (uq_Key rq))) ∧
  (closed = true ↔ is_Some wire ∧ is_Some err).
Proof.
  unfold UpgradeWebSocket.
  repeat match goal with |- context [if ?x then _ else _] => destruct x end;
    (split; split; [intros H; try discriminate H; try (by split)|intros H; try discriminate H; done
                   |intros H; try discriminate H; split; by eexists|intros [H1 H2]; try (by destruct H1); try (by destruct H2); done]).
Qed.

(** Neither the protocol nor the version asked for is looked at. *)
Lemma any_upgrade_taken :
  UpgradeWebSocket (mkUpgradeRequest "GET" "k" "h2c" "7") true true true true =
    (Some (handshake_reply "k"), false, None).
Proof. reflexivity. Qed.
