(* ===== verification/Explorer.v ===== *)
(** * The live tap: [internal/broker/explorer.go] and the admission of [explorer_endpoint.go]

    A hub fans published messages out to sessions.  A session is a filter, a
    bounded channel and a goroutine that drains it into a sink, with a flag
    that pauses it.  The hub's publish and the goroutine's steps interleave in
    any order.  [xs_offered], [xs_queued] and [xs_done] are history: the
    messages that passed the filter, those that went into the channel and
    those the goroutine has finished with. *)

From S2P Require Import Prelude GoLib Json StringsLib Types.

Local Open Scope Z_scope.

Definition explorerChanCap : Z := 256.

Record ExplorerEvent := mkExplorerEvent {
  xe_Message : Message;
  xe_ClientID : string;
}.

Record ExplorerFilter := mkExplorerFilter {
  xf_Topic : string;
  xf_Partition : Z;
  xf_Key : string;
  xf_Producer : string;
  xf_Search : string;
}.

(** ** Filters *)

Section Filters.
(** [strings.ToLower] of a string with characters beyond ASCII: the Unicode
    tables. *)
Context (unicode_lower : bytes → bytes).

Definition Filter_matches (f : ExplorerFilter) (topic : string) (partition : Z) (key producer : string) : bool :=
  if negb (bool_decide (xf_Topic f = EmptyString)) && negb (bool_decide (xf_Topic f = topic)) then false
  else if (0 <=? xf_Partition f) && negb (xf_Partition f =? partition) then false
  else if negb (bool_decide (xf_Key f = EmptyString)) && negb (bool_decide (xf_Key f = key)) then false
  else if negb (bool_decide (xf_Producer f = EmptyString)) && negb (bool_decide (xf_Producer f = producer)) then false
  else true.

Definition matchesPayload (f : ExplorerFilter) (payload : bytes) : bool :=
  if bool_decide (xf_Search f = EmptyString) then true
  else bytes_contains (ToLower unicode_lower payload) (ToLower unicode_lower (bytes_of_string (xf_Search f))).

(** ** Sessions *)

(** Where the goroutine stands: at the top of the loop, in its second
    [select], with an event taken, or gone. *)
Inductive drain_stage :=
| DrainTop
| DrainSelect
| DrainHolds (ev : ExplorerEvent)
| DrainGone.

Record ExplorerSession := mkExplorerSession {
  xs_filter : ExplorerFilter;
  xs_ch : list ExplorerEvent;
  xs_droppedCount : Z;
  xs_paused : bool;
  xs_closed : bool;
  xs_drain : drain_stage;
  xs_sunk : list ExplorerEvent;
  xs_offered : nat;
  xs_queued : list ExplorerEvent;
  xs_done : list ExplorerEvent;
  xs_everPaused : bool;
}.

Definition newExplorerSession (filter : ExplorerFilter) : ExplorerSession :=
  mkExplorerSession filter [] 0 false false DrainTop [] 0 [] [] false.

Definition with_drain (s : ExplorerSession) (d : drain_stage) : ExplorerSession :=
  mkExplorerSession (xs_filter s) (xs_ch s) (xs_droppedCount s) (xs_paused s) (xs_closed s) d
    (xs_sunk s) (xs_offered s) (xs_queued s) (xs_done s) (xs_everPaused s).

Definition with_ch (s : ExplorerSession) (ch : list ExplorerEvent) : ExplorerSession :=
  mkExplorerSession (xs_filter s) ch (xs_droppedCount s) (xs_paused s) (xs_closed s) (xs_drain s)
    (xs_sunk s) (xs_offered s) (xs_queued s) (xs_done s) (xs_everPaused s).

(** The goroutine is through with an event, which went to the sink or not. *)
Definition finish (s : ExplorerSession) (ev : ExplorerEvent) (sunk : bool) : ExplorerSession :=
  mkExplorerSession (xs_filter s) (xs_ch s) (xs_droppedCount s) (xs_paused s) (xs_closed s) DrainTop
    (if sunk then xs_sunk s ++ [ev] else xs_sunk s) (xs_offered s) (xs_queued s) (xs_done s ++ [ev])
    (xs_everPaused s).

(** One step of [drainLoop].  [pick] chooses between two ready cases of the
    second [select]; [None] is a goroutine that waits or is gone. *)
Definition drain_step (pick : bool) (s : ExplorerSession) : option ExplorerSession :=
  match xs_drain s with
  | DrainTop =>
      if xs_closed s then Some (with_drain s DrainGone)
      else if xs_paused s then Some s
      else Some (with_drain s DrainSelect)
  | DrainSelect =>
      match xs_ch s with
      | [] => if xs_closed s then Some (with_drain s DrainGone) else None
      | ev :: ch =>
          if xs_closed s && pick then Some (with_drain s DrainGone)
          else Some (with_drain (with_ch s ch) (DrainHolds ev))
      end
  | DrainHolds ev => Some (finish s ev (negb (xs_paused s)))
  | DrainGone => None
  end.

Definition set_paused (s : ExplorerSession) (p : bool) : ExplorerSession :=
  mkExplorerSession (xs_filter s) (xs_ch s) (xs_droppedCount s) p (xs_closed s) (xs_drain s)
    (xs_sunk s) (xs_offered s) (xs_queued s) (xs_done s) (xs_everPaused s || p).

Definition Pause (s : ExplorerSession) : ExplorerSession := set_paused s true.

Definition Resume (s : ExplorerSession) : ExplorerSession := set_paused s false.

Definition UpdateFilter (s : ExplorerSession) (f : ExplorerFilter) : ExplorerSession :=
  mkExplorerSession f (xs_ch s) (xs_droppedCount s) (xs_paused s) (xs_closed s) (xs_drain s)
    (xs_sunk s) (xs_offered s) (xs_queued s) (xs_done s) (xs_everPaused s).

Definition Session_Close (s : ExplorerSession) : ExplorerSession :=
  mkExplorerSession (xs_filter s) (xs_ch s) (xs_droppedCount s) (xs_paused s) true (xs_drain s)
    (xs_sunk s) (xs_offered s) (xs_queued s) (xs_done s) (xs_everPaused s).

(** ** The hub *)

(** Sessions by an identity that stands for their pointer. *)
Record ExplorerHub := mkExplorerHub {
  xh_sessions : gmap nat ExplorerSession;
  xh_next : nat;
  xh_activeSessions : Z;
  xh_sentTotal : Z;
  xh_droppedTotal : Z;
}.

Definition NewExplorerHub : ExplorerHub := mkExplorerHub ∅ 0 0 0 0.

Definition NewSession (h : ExplorerHub) (f : ExplorerFilter) : ExplorerHub * nat :=
  (mkExplorerHub (<[xh_next h := newExplorerSession f]> (xh_sessions h)) (S (xh_next h))
     (i64 (xh_activeSessions h + 1)) (xh_sentTotal h) (xh_droppedTotal h), xh_next h).

Definition removeSession (h : ExplorerHub) (k : nat) : ExplorerHub :=
  mkExplorerHub (delete k (xh_sessions h)) (xh_next h) (i64 (xh_activeSessions h - 1))
    (xh_sentTotal h) (xh_droppedTotal h).

(** Does the session want the message? *)
Definition wants (s : ExplorerSession) (topic : string) (partition : Z) (producer : string) (msg : Message) : bool :=
  Filter_matches (xs_filter s) topic partition (msg_Key msg) producer &&
  (bool_decide (xf_Search (xs_filter s) = EmptyString) || matchesPayload (xs_filter s) (msg_Payload msg)).

(** The send that does not block. *)
Definition offer (s : ExplorerSession) (ev : ExplorerEvent) : ExplorerSession * bool :=
  if zlen (xs_ch s) <? explorerChanCap then
    (mkExplorerSession (xs_filter s) (xs_ch s ++ [ev]) (xs_droppedCount s) (xs_paused s) (xs_closed s) (xs_drain s)
       (xs_sunk s) (S (xs_offered s)) (xs_queued s ++ [ev]) (xs_done s) (xs_everPaused s), true)
  else
    (mkExplorerSession (xs_filter s) (xs_ch s) (u64 (xs_droppedCount s + 1)) (xs_paused s) (xs_closed s) (xs_drain s)
       (xs_sunk s) (S (xs_offered s)) (xs_queued s) (xs_done s) (xs_everPaused s), false).

Definition set_session (h : ExplorerHub) (k : nat) (s : ExplorerSession) : ExplorerHub :=
  mkExplorerHub (<[k := s]> (xh_sessions h)) (xh_next h) (xh_activeSessions h) (xh_sentTotal h) (xh_droppedTotal h).

Definition count_offer (h : ExplorerHub) (sent : bool) : ExplorerHub :=
  mkExplorerHub (xh_sessions h) (xh_next h) (xh_activeSessions h)
    (if sent then u64 (xh_sentTotal h + 1) else xh_sentTotal h)
    (if sent then xh_droppedTotal h else u64 (xh_droppedTotal h + 1)).

(** One turn of the loop over the copied sessions. *)
Definition publish_to_session (topic : string) (partition : Z) (producer : string) (msg : Message)
    (h : ExplorerHub) (k : nat) : ExplorerHub :=
  match xh_sessions h !! k with
  | None => h
  | Some s =>
      if wants s topic partition producer msg then
        let '(s, sent) := offer s (mkExplorerEvent msg producer) in count_offer (set_session h k s) sent
      else h
  end.

(** [order] is the order in which the sessions are ranged over. *)
Definition Hub_Publish (order : list nat) (h : ExplorerHub) (topic : string) (partition : Z) (producer : string)
    (msg : Message) : ExplorerHub :=
  if bool_decide (xh_sessions h = ∅) then h
  else foldl (publish_to_session topic partition producer msg) h order.

(** ** Admission: the checks of [httpExplorerStream] before the upgrade *)

Definition explorerMaxConnDefault : Z := 50.

(** The status answered, or the topic to stream.  [identity] is what
    [resolveIdentity] finds, reduced to whether it may explore a topic. *)
Definition explorer_admission (enabled : bool) (maxConns active : Z) (topic : string)
    (identity : option (string → bool)) (topic_exists : string → bool) : result string Z :=
  if negb enabled then Error 403
  else
    let maxConns := if maxConns <=? 0 then explorerMaxConnDefault else maxConns in
    if maxConns <=? active then Error 503
    else if bool_decide (topic = EmptyString) then Error 400
    else
      match identity with
      | None => Error 401
      | Some can =>
          if negb (can topic) then Error 403
          else if negb (topic_exists topic) then Error 400
          else Ok topic
      end.

(** ** Runs *)

Inductive hub_event :=
| HubNew (f : ExplorerFilter)
| HubRemove (k : nat)
| HubPublish (order : list nat) (topic : string) (partition : Z) (producer : string) (msg : Message)
| HubDrain (k : nat) (pick : bool)
| HubPause (k : nat)
| HubResume (k : nat)
| HubFilter (k : nat) (f : ExplorerFilter)
| HubClose (k : nat).

Definition on_session (h : ExplorerHub) (k : nat) (op : ExplorerSession → option ExplorerSession) : ExplorerHub :=
  match xh_sessions h !! k with
  | None => h
  | Some s => match op s with Some s => set_session h k s | None => h end
  end.

Definition hub_step (h : ExplorerHub) (e : hub_event) : ExplorerHub :=
  match e with
  | HubNew f => (NewSession h f).1
  | HubRemove k => removeSession h k
  | HubPublish order topic partition producer msg => Hub_Publish order h topic partition producer msg
  | HubDrain k pick => on_session h k (drain_step pick)
  | HubPause k => on_session h k (λ s, Some (Pause s))
  | HubResume k => on_session h k (λ s, Some (Resume s))
  | HubFilter k f => on_session h k (λ s, Some (UpdateFilter s f))
  | HubClose k => on_session h k (λ s, Some (Session_Close s))
  end.

Definition hub_run (es : list hub_event) : ExplorerHub := foldl hub_step NewExplorerHub es.

(** ** What every run keeps *)

Definition held (s : ExplorerSession) : list ExplorerEvent :=
  match xs_drain s with DrainHolds ev => [ev] | _ => [] end.

(** Every message that passed the filter is queued or counted as dropped;
    what was queued is finished with, held or in the channel, in order; and
    what the sink got are finished messages, all of them unless the session
    was ever paused. *)
Record session_ok (s : ExplorerSession) : Prop := mkSessionOk {
  so_room : zlen (xs_ch s) <= explorerChanCap;
  so_queue : xs_queued s = xs_done s ++ held s ++ xs_ch s;
  so_count : u64 (Z.of_nat (xs_offered s)) = u64 (zlen (xs_queued s) + xs_droppedCount s);
  so_sunk : xs_sunk s `sublist_of` xs_done s;
  so_never : xs_everPaused s = false → xs_sunk s = xs_done s ∧ xs_paused s = false;
}.

Lemma new_session_ok f : session_ok (newExplorerSession f).
Proof. split; try done. Qed.

Lemma offer_ok s ev : session_ok s → session_ok (offer s ev).1.
Proof.
  intros [H1 H2 H3 H4 H5]. unfold offer. destruct (Z.ltb_spec (zlen (xs_ch s)) explorerChanCap); split; cbn; try done.
  - rewrite zlen_app. change (zlen [ev]) with 1. lia.
  - unfold held in *. cbn. rewrite H2. by rewrite <- !app_assoc.
  - rewrite zlen_app. change (zlen [ev]) with 1. rewrite Nat2Z.inj_succ, <- Z.add_1_r. unfold u64 in *.
    rewrite <- (Z.add_mod_idemp_l (Z.of_nat _)), H3, Z.add_mod_idemp_l by done. f_equal. lia.
  - rewrite Nat2Z.inj_succ, <- Z.add_1_r. unfold u64 in *.
    rewrite <- (Z.add_mod_idemp_l (Z.of_nat _)), H3, Z.add_mod_idemp_l, Z.add_mod_idemp_r by done. f_equal. lia.
Qed.

Lemma drain_ok pick s s' : session_ok s → drain_step pick s = Some s' → session_ok s'.
Proof.
  intros [H1 H2 H3 H4 H5] Hd. unfold drain_step in Hd. destruct (xs_drain s) eqn:E; unfold held in H2; rewrite E in H2.
  - destruct (xs_closed s); [|destruct (xs_paused s) eqn:Ep]; simplify_eq; split; cbn; try done.
    all: try (unfold held; cbn; rewrite ?E; exact H2).
    all: intros Hn; by destruct (H5 Hn).
  - destruct (xs_ch s) as [|ev ch] eqn:Ec.
    + destruct (xs_closed s); simplify_eq. split; cbn; try done; rewrite ?Ec; done.
    + destruct (xs_closed s && pick); simplify_eq; split; cbn; try done; try by rewrite Ec.
      rewrite zlen_cons in H1. lia.
  - simplify_eq. split; cbn; try done.
    + rewrite H2. by rewrite <- app_assoc.
    + destruct (xs_paused s); cbn.
      * by apply sublist_inserts_r.
      * by apply sublist_app.
    + intros Hn. destruct (H5 Hn) as [-> ->]. done.
  - done.
Qed.

Lemma simple_ok s op s' :
  session_ok s → op ∈ [(λ s, Some (Pause s)); (λ s, Some (Resume s)); (λ s, Some (Session_Close s))] ∨
    (∃ f, op = λ s, Some (UpdateFilter s f)) →
  op s = Some s' → session_ok s'.
Proof.
  intros [H1 H2 H3 H4 H5] Hop Hs.
  assert (∀ p, session_ok (set_paused s p)) as Hset.
  { intros p. split; cbn; try done. intros [Hn ->]%orb_false_iff. by destruct (H5 Hn). }
  destruct Hop as [Hin|[f ->]].
  - repeat (apply elem_of_cons in Hin as [->|Hin]); [| | |by apply elem_of_nil in Hin];
      injection Hs as <-; [apply Hset|apply Hset|]. by split.
  - injection Hs as <-. by split.
Qed.

Definition hub_ok (h : ExplorerHub) : Prop := map_Forall (λ _ s, session_ok s) (xh_sessions h).

Lemma set_session_ok h k s : hub_ok h → session_ok s → hub_ok (set_session h k s).
Proof. intros Hh Hs. unfold hub_ok. cbn. by apply map_Forall_insert_2. Qed.

Lemma on_session_ok h k op :
  hub_ok h → (∀ s s', session_ok s → op s = Some s' → session_ok s') → hub_ok (on_session h k op).
Proof.
  intros Hh Hop. unfold on_session. destruct (xh_sessions h !! k) as [s|] eqn:E; [|done].
  destruct (op s) as [s'|] eqn:Eo; [|done]. apply set_session_ok; [done|]. eapply Hop; [|done]. by eapply Hh.
Qed.

Lemma publish_session_ok topic partition producer msg h k :
  hub_ok h → hub_ok (publish_to_session topic partition producer msg h k).
Proof.
  intros Hh. unfold publish_to_session. destruct (xh_sessions h !! k) as [s|] eqn:E; [|done].
  destruct (wants _ _ _ _ _); [|done].
  pose proof (offer_ok s (mkExplorerEvent msg producer) ltac:(by eapply Hh)) as Ho.
  destruct (offer s _) as [s' sent]. exact (set_session_ok h k s' Hh Ho).
Qed.

Lemma hub_step_ok h e : hub_ok h → hub_ok (hub_step h e).
Proof.
  intros Hh. destruct e as [f|k|order topic partition producer msg|k pick|k|k|k f|k]; cbn [hub_step].
  - unfold hub_ok. cbn. apply map_Forall_insert_2; [apply new_session_ok|done].
  - unfold hub_ok. cbn. by apply map_Forall_delete.
  - unfold Hub_Publish. case_bool_decide; [done|]. revert h Hh H.
    induction order as [|k order IH]; intros h Hh Hne; [done|]. cbn [foldl].
    pose proof (publish_session_ok topic partition producer msg h k Hh) as Hk.
    destruct (decide (xh_sessions (publish_to_session topic partition producer msg h k) = ∅)) as [E|];
      [|by apply IH].
    exfalso. revert E. unfold publish_to_session. destruct (xh_sessions h !! k); [|done].
    destruct (wants _ _ _ _ _); [|done]. destruct (offer _ _). cbn. apply insert_non_empty.
  - apply on_session_ok; [done|]. intros s s'. apply drain_ok.
  - apply on_session_ok; [done|]. intros s s' Hs. apply (simple_ok s (λ s, Some (Pause s)) s' Hs). left; set_solver.
  - apply on_session_ok; [done|]. intros s s' Hs. apply (simple_ok s (λ s, Some (Resume s)) s' Hs). left; set_solver.
  - apply on_session_ok; [done|]. intros s s' Hs. apply (simple_ok s (λ s, Some (UpdateFilter s f)) s' Hs). right; by eexists.
  - apply on_session_ok; [done|]. intros s s' Hs. apply (simple_ok s (λ s, Some (Session_Close s)) s' Hs). left; set_solver.
Qed.

Lemma hub_run_ok es : hub_ok (hub_run es).
Proof.
  unfold hub_run. assert (hub_ok NewExplorerHub) as H by (intros k s Hs; cbn in Hs; by rewrite lookup_empty in Hs).
  revert H. generalize NewExplorerHub. induction es as [|e es IH]; intros h H; [done|]. cbn [foldl].
  by apply IH, hub_step_ok.
Qed.

(** ** Property *)

(** The live tap accounts for every message.  In every run, for every
    session: at most 256 events wait; every message that passed the session's
    filter is queued or counted as dropped (modulo the 64-bit counter); the
    queued ones are, in the order of the publishes, finished with, held by the
    goroutine or waiting; the sink has got a subsequence of the finished ones,
    and exactly those if the session was never paused. *)
Theorem explorer_accounts_for_messages es k s :
  xh_sessions (hub_run es) !! k = Some s →
  zlen (xs_ch s) <= explorerChanCap ∧ xs_queued s = xs_done s ++ held s ++ xs_ch s ∧
  u64 (Z.of_nat (xs_offered s)) = u64 (zlen (xs_queued s) + xs_droppedCount s) ∧
  xs_sunk s `sublist_of` xs_done s ∧ (xs_everPaused s = false → xs_sunk s = xs_done s).
Proof.
  intros Hk. destruct (hub_run_ok es k s Hk) as [H1 H2 H3 H4 H5]. split_and!; try done. intros Hn. by destruct (H5 Hn).
Qed.

End Filters.

(** ** A session at work *)

Definition demo_event (n : Z) : Message := mkMessage "" "orders" n [] ∅ "" 0 n 0.

Definition demo_filter : ExplorerFilter := mkExplorerFilter "orders" (-1) "" "" "".

Definition demo_hub_events : list hub_event :=
  [HubNew demo_filter; HubPublish [0%nat] "orders" 0 "p" (demo_event 1); HubDrain 0 false; HubDrain 0 false;
   HubDrain 0 false; HubPublish [0%nat] "orders" 0 "p" (demo_event 2); HubPublish [0%nat] "other" 0 "p" (demo_event 3)].

Lemma explorer_accounts_for_messages_witness :
  ∃ s, xh_sessions (hub_run id demo_hub_events) !! 0%nat = Some s ∧
    xs_sunk s = [mkExplorerEvent (demo_event 1) "p"] ∧ xs_ch s = [mkExplorerEvent (demo_event 2) "p"] ∧
    xs_queued s = xs_done s ++ held s ++ xs_ch s.
Proof.
  assert (∃ s, xh_sessions (hub_run id demo_hub_events) !! 0%nat = Some s ∧
    xs_sunk s = [mkExplorerEvent (demo_event 1) "p"] ∧ xs_ch s = [mkExplorerEvent (demo_event 2) "p"])
    as (s & Hs & H1 & H2) by (eexists; split; [vm_compute; reflexivity|]; split; vm_compute; reflexivity).
  exists s. destruct (explorer_accounts_for_messages id demo_hub_events 0 s Hs) as (_ & Hq & _).
  split; [exact Hs|]. split; [exact H1|]. split; [exact H2|exact Hq].
Defined.

(** An event published while a session is paused, with the goroutine already
    waiting: it is taken and thrown away, neither kept for the resume nor
    counted as dropped. *)
Lemma paused_event_discarded :
  ∃ s, xh_sessions (hub_run id [HubNew demo_filter; HubDrain 0 false; HubPause 0;
      HubPublish [0%nat] "orders" 0 "p" (demo_event 1); HubDrain 0 false; HubDrain 0 false; HubResume 0;
      HubDrain 0 false]) !! 0%nat = Some s ∧
    xs_queued s = [mkExplorerEvent (demo_event 1) "p"] ∧ xs_sunk s = [] ∧ xs_ch s = [] ∧ xs_droppedCount s = 0.
Proof. eexists. split; [vm_compute; reflexivity|]. by vm_compute. Qed.

(** A full channel keeps the oldest events and drops the new one. *)
Lemma full_channel_drops_newest s ev :
  zlen (xs_ch s) = explorerChanCap → xs_ch (offer s ev).1 = xs_ch s ∧ (offer s ev).2 = false.
Proof.
  intros Hl. unfold offer. rewrite Hl. by rewrite Z.ltb_irrefl.
Qed.

