(* ===== verification/ExplorerStream.v ===== *)
(** * The stream of the live tap: [httpExplorerStream] of [internal/broker/explorer_endpoint.go]

    One WebSocket a caller: the checks, the session in the hub of [Explorer],
    the frames its drain goroutine writes, those the ticker adds about drops,
    and the control frames the caller sends.  Checks, joins, publishes, drains,
    ticks, control frames and ends of many streams interleave in any order. *)

From S2P Require Import Prelude GoLib Json StringsLib Types WalStores RateLimit Auth WebSocket Explorer.

Local Open Scope Z_scope.

(** ** Requests *)

Record StreamRequest := mkStreamRequest {
  sq_identity : option Identity;
  sq_topic : string;
  sq_partition : string;
  sq_key : string;
  sq_producer : string;
  sq_search : string;
}.

Definition may_explore (id : Identity) (topic : string) : bool :=
  Identity_Can id PermSubscribe topic || Identity_Can id PermAdmin topic.

(** A partition that is no number leaves every partition. *)
Definition query_filter (rq : StreamRequest) : ExplorerFilter :=
  mkExplorerFilter (sq_topic rq)
    (if bool_decide (sq_partition rq = EmptyString) then - 1
     else match sscanf_d 64 (sq_partition rq) with Some p => i32 p | None => - 1 end)
    (sq_key rq) (sq_producer rq) (sq_search rq).

(** ** Frames to the caller *)

Definition explorerMsgFrame (ev : ExplorerEvent) : bytes :=
  print (JObj (
    put "topic" (jstr (msg_Topic (xe_Message ev))) ++ put "partition" (JNum (msg_Partition (xe_Message ev))) ++
    put "offset" (JNum (msg_Offset (xe_Message ev))) ++ put "key" (jstr (msg_Key (xe_Message ev))) ++
    put "payload" (JStr (b64_encode (msg_Payload (xe_Message ev)))) ++
    put "timestamp_ns" (JNum (msg_Timestamp (xe_Message ev))) ++ put "producer" (jstr (xe_ClientID ev)))).

Definition explorerStatusFrame (delta : Z) : bytes :=
  print (JObj (put "status" (JObj (put "dropped_since_last" (JNum delta))))).

(** ** Frames from the caller *)

(** A member by its name whatever its case, as [encoding/json] takes it; the
    last one wins. *)
Definition jfield_fold (k : string) (l : list (bytes * json)) : option json :=
  snd <$> last (filter (λ kv, lower_byte <$> kv.1 = lower_byte <$> bytes_of_string k) l).

Definition fold_str (k : string) (l : list (bytes * json)) : option string :=
  match jfield_fold k l with
  | None | Some JNull => Some EmptyString
  | Some (JStr s) => Some (string_of_bytes s)
  | _ => None
  end.

Definition fold_i32 (k : string) (l : list (bytes * json)) : option Z :=
  match jfield_fold k l with
  | None | Some JNull => Some 0
  | Some (JNum z) => if (i32_min <=? z) && (z <=? i32_max) then Some z else None
  | _ => None
  end.

(** The fields have no tags; what is missing is the zero value. *)
Definition ExplorerFilter_of (l : list (bytes * json)) : option ExplorerFilter :=
  match fold_str "Topic" l, fold_i32 "Partition" l, fold_str "Key" l, fold_str "Producer" l, fold_str "Search" l with
  | Some t, Some p, Some k, Some pr, Some s => Some (mkExplorerFilter t p k pr s)
  | _, _, _, _, _ => None
  end.

Inductive control :=
| CtlMalformed
| CtlPause
| CtlResume
| CtlUpdate (f : option ExplorerFilter)
| CtlUnknown.

Definition explorerControlFrame_of (l : list (bytes * json)) : option (string * option ExplorerFilter) :=
  action ← fold_str "action" l;
  match jfield_fold "filter" l with
  | None | Some JNull => Some (action, None)
  | Some (JObj m) => f ← ExplorerFilter_of m; Some (action, Some f)
  | Some _ => None
  end.

Definition control_of (text : bytes) : control :=
  match unmarshal_with explorerControlFrame_of text with
  | None => CtlMalformed
  | Some (action, f) =>
      if bool_decide (action = "pause"%string) then CtlPause
      else if bool_decide (action = "resume"%string) then CtlResume
      else if bool_decide (action = "update_filter"%string) then CtlUpdate f
      else CtlUnknown
  end.

Definition apply_control (c : control) (s : ExplorerSession) : ExplorerSession :=
  match c with
  | CtlPause => Pause s
  | CtlResume => Resume s
  | CtlUpdate (Some f) => UpdateFilter s f
  | _ => s
  end.

(** ** The endpoint *)

Inductive out_frame :=
| OutMsg (ev : ExplorerEvent)
| OutStatus (delta : Z).

Definition frame_text (o : out_frame) : bytes :=
  match o with OutMsg ev => explorerMsgFrame ev | OutStatus delta => explorerStatusFrame delta end.

(** [sn_updated] is history: whether the caller ever sent a filter. *)
Record StreamConn := mkStreamConn {
  sn_identity : Identity;
  sn_request : StreamRequest;
  sn_lastDropped : Z;
  sn_out : list out_frame;
  sn_updated : bool;
}.

(** [ep_admitted] are the callers between their checks and their join. *)
Record Endpoint := mkEndpoint {
  ep_hub : ExplorerHub;
  ep_active : Z;
  ep_admitted : list (StreamRequest * Identity);
  ep_conns : gmap nat StreamConn;
}.

Definition NewEndpoint : Endpoint := mkEndpoint NewExplorerHub 0 [] ∅.

Definition set_hub (ep : Endpoint) (h : ExplorerHub) : Endpoint :=
  mkEndpoint h (ep_active ep) (ep_admitted ep) (ep_conns ep).

Definition on_conn (k : nat) (f : StreamConn → StreamConn) (ep : Endpoint) : Endpoint :=
  mkEndpoint (ep_hub ep) (ep_active ep) (ep_admitted ep) (alter f k (ep_conns ep)).

Definition write_frame (o : out_frame) (c : StreamConn) : StreamConn :=
  mkStreamConn (sn_identity c) (sn_request c) (sn_lastDropped c) (sn_out c ++ [o]) (sn_updated c).

Section Stream.
Context (unicode_lower : bytes → bytes).
(** The settings and the topics do not change during a run. *)
Context (enabled : bool) (maxConns : Z) (topic_exists : string → bool).

(** The checks, in the order of the code. *)
Definition stream_check (rq : StreamRequest) (ep : Endpoint) : result Identity Z :=
  match explorer_admission enabled maxConns (ep_active ep) (sq_topic rq) (may_explore <$> sq_identity rq) topic_exists with
  | Error status => Error status
  | Ok _ => match sq_identity rq with Some id => Ok id | None => Error 401 end
  end.

(** The upgrade, the count and the session; nothing looks at the count and the
    hub at once. *)
Definition stream_join (i : nat) (upgraded : bool) (ep : Endpoint) : Endpoint :=
  match ep_admitted ep !! i with
  | None => ep
  | Some (rq, id) =>
      let admitted := delete i (ep_admitted ep) in
      if negb upgraded then mkEndpoint (ep_hub ep) (ep_active ep) admitted (ep_conns ep)
      else
        let '(h, k) := NewSession (ep_hub ep) (query_filter rq) in
        mkEndpoint h (i64 (ep_active ep + 1)) admitted (<[k := mkStreamConn id rq 0 [] false]> (ep_conns ep))
  end.

(** The drain goroutine's step; an event that goes to the sink is written.  A
    write that fails is not noticed. *)
Definition stream_drain (k : nat) (pick : bool) (ep : Endpoint) : Endpoint :=
  match xh_sessions (ep_hub ep) !! k with
  | Some s =>
      let ep := set_hub ep (on_session (ep_hub ep) k (drain_step pick)) in
      match xs_drain s with
      | DrainHolds ev => if xs_paused s then ep else on_conn k (write_frame (OutMsg ev)) ep
      | _ => ep
      end
  | None => ep
  end.

(** The ticker of the status frames. *)
Definition stream_tick (k : nat) (ep : Endpoint) : Endpoint :=
  match xh_sessions (ep_hub ep) !! k with
  | Some s =>
      on_conn k (λ c,
        if xs_droppedCount s =? sn_lastDropped c then c
        else
          mkStreamConn (sn_identity c) (sn_request c) (xs_droppedCount s)
            (sn_out c ++ [OutStatus (u64 (xs_droppedCount s - sn_lastDropped c))]) (sn_updated c)) ep
  | None => ep
  end.

Definition is_update (c : control) : bool := match c with CtlUpdate (Some _) => true | _ => false end.

(** A text frame of the caller. *)
Definition stream_text (k : nat) (text : bytes) (ep : Endpoint) : Endpoint :=
  let ctl := control_of text in
  on_conn k (λ c, mkStreamConn (sn_identity c) (sn_request c) (sn_lastDropped c) (sn_out c) (sn_updated c || is_update ctl))
    (set_hub ep (on_session (ep_hub ep) k (λ s, Some (apply_control ctl s)))).

(** The read loop ends: what is deferred. *)
Definition stream_gone (k : nat) (ep : Endpoint) : Endpoint :=
  match ep_conns ep !! k with
  | None => ep
  | Some _ =>
      mkEndpoint (removeSession (on_session (ep_hub ep) k (λ s, Some (Session_Close s))) k) (i64 (ep_active ep - 1))
        (ep_admitted ep) (delete k (ep_conns ep))
  end.

Inductive stream_event :=
| StCheck (rq : StreamRequest)
| StJoin (i : nat) (upgraded : bool)
| StPublish (order : list nat) (producer : string) (msg : Message)
| StDrain (k : nat) (pick : bool)
| StTick (k : nat)
| StText (k : nat) (text : bytes)
| StGone (k : nat).

(** The handlers publish a message under its own topic and partition. *)
Definition stream_step (ep : Endpoint) (e : stream_event) : Endpoint :=
  match e with
  | StCheck rq =>
      match stream_check rq ep with
      | Ok id => mkEndpoint (ep_hub ep) (ep_active ep) (ep_admitted ep ++ [(rq, id)]) (ep_conns ep)
      | Error _ => ep
      end
  | StJoin i upgraded => stream_join i upgraded ep
  | StPublish order producer msg =>
      set_hub ep (Hub_Publish unicode_lower order (ep_hub ep) (msg_Topic msg) (msg_Partition msg) producer msg)
  | StDrain k pick => stream_drain k pick ep
  | StTick k => stream_tick k ep
  | StText k text => stream_text k text ep
  | StGone k => stream_gone k ep
  end.

Definition stream_run (es : list stream_event) : Endpoint := foldl stream_step NewEndpoint es.

(** ** What every run keeps *)

Definition messages_of (os : list out_frame) : list ExplorerEvent :=
  omap (λ o, match o with OutMsg ev => Some ev | OutStatus _ => None end) os.

Definition reported (os : list out_frame) : Z :=
  foldr (λ o n, match o with OutMsg _ => n | OutStatus d => d + n end) 0 os.

(** An event a session may get while its filter is the one of the request. *)
Definition on_topic (topic : string) (ev : ExplorerEvent) : Prop := msg_Topic (xe_Message ev) = topic.

Record conn_ok (s : ExplorerSession) (c : StreamConn) : Prop := mkConnOk {
  co_session : session_ok s;
  co_messages : messages_of (sn_out c) = xs_sunk s;
  co_reported : u64 (reported (sn_out c)) = u64 (sn_lastDropped c);
  co_may : may_explore (sn_identity c) (sq_topic (sn_request c)) = true ∧ sq_topic (sn_request c) ≠ EmptyString;
  co_filter : sn_updated c = false →
    xs_filter s = query_filter (sn_request c) ∧ Forall (on_topic (sq_topic (sn_request c))) (xs_queued s);
}.

Record endpoint_ok (ep : Endpoint) : Prop := mkEndpointOk {
  eo_dom : dom (xh_sessions (ep_hub ep)) = dom (ep_conns ep);
  eo_next : ∀ k, (xh_next (ep_hub ep) <= k)%nat → (ep_conns ep) !! k = None;
  eo_active : ep_active ep = i64 (Z.of_nat (size (ep_conns ep)));
  eo_hub_active : xh_activeSessions (ep_hub ep) = i64 (Z.of_nat (size (ep_conns ep)));
  eo_admitted : Forall (λ p, may_explore p.2 (sq_topic p.1) = true ∧ sq_topic p.1 ≠ EmptyString) (ep_admitted ep);
  eo_conns : ∀ k s c, xh_sessions (ep_hub ep) !! k = Some s → ep_conns ep !! k = Some c → conn_ok s c;
}.

Lemma set_session_same h k s : xh_sessions h !! k = Some s → set_session h k s = h.
Proof. intros Hk. destruct h as [m n a b d]. unfold set_session. cbn in *. by rewrite insert_id. Qed.

Lemma step_ok ep k s s' f :
  endpoint_ok ep → xh_sessions (ep_hub ep) !! k = Some s → (∀ c, conn_ok s c → conn_ok s' (f c)) →
  endpoint_ok (on_conn k f (set_hub ep (set_session (ep_hub ep) k s'))).
Proof.
  intros [Hd Hn Ha Hh Had Hc] Hk Hf.
  assert (size (alter f k (ep_conns ep)) = size (ep_conns ep)) as Hsz.
  { rewrite <- !size_dom. by rewrite dom_alter_L. }
  split; cbn [on_conn set_hub set_session ep_hub ep_conns ep_active ep_admitted xh_sessions xh_next xh_activeSessions].
  - rewrite dom_insert_L, dom_alter_L, Hd. apply elem_of_dom_2 in Hk. rewrite Hd in Hk. set_solver.
  - intros j Hj. rewrite lookup_alter_None. by apply Hn.
  - by rewrite Hsz.
  - by rewrite Hsz.
  - done.
  - intros j sj cj Hs Hcj. destruct (decide (k = j)) as [<-|Hne].
    + rewrite lookup_insert_eq in Hs. injection Hs as <-. rewrite lookup_alter_eq in Hcj.
      destruct (ep_conns ep !! k) as [c|] eqn:Ec; [|done]. injection Hcj as <-. apply Hf. by eapply Hc.
    + rewrite lookup_insert_ne in Hs by done. rewrite lookup_alter_ne in Hcj by done. by eapply Hc.
Qed.

(** The same when the caller's side does not change. *)
Lemma session_step_ok ep k s s' :
  endpoint_ok ep → xh_sessions (ep_hub ep) !! k = Some s → (∀ c, conn_ok s c → conn_ok s' c) →
  endpoint_ok (set_hub ep (set_session (ep_hub ep) k s')).
Proof.
  intros Hep Hk Hf. pose proof (step_ok ep k s s' id Hep Hk Hf) as H.
  assert (on_conn k id (set_hub ep (set_session (ep_hub ep) k s')) = set_hub ep (set_session (ep_hub ep) k s')) as Heq; [|by rewrite Heq in H].
  unfold on_conn, set_hub. cbn [ep_hub ep_active ep_admitted ep_conns]. f_equal. by apply alter_id.
Qed.

Lemma conn_step_ok ep k s f :
  endpoint_ok ep → xh_sessions (ep_hub ep) !! k = Some s → (∀ c, conn_ok s c → conn_ok s (f c)) → endpoint_ok (on_conn k f ep).
Proof.
  intros Hep Hk Hf. pose proof (step_ok ep k s s f Hep Hk Hf) as H. rewrite set_session_same in H by done.
  by destruct ep.
Qed.

Lemma drain_changes pick s s' :
  drain_step pick s = Some s' →
  xs_filter s' = xs_filter s ∧ xs_queued s' = xs_queued s ∧
  xs_sunk s' = xs_sunk s ++ match xs_drain s with DrainHolds ev => if xs_paused s then [] else [ev] | _ => [] end.
Proof.
  unfold drain_step. destruct (xs_drain s) as [| |ev|].
  - destruct (xs_closed s), (xs_paused s); intros [= <-]; cbn; by rewrite app_nil_r.
  - destruct (xs_ch s) as [|ev ch]; [destruct (xs_closed s)|destruct (xs_closed s && pick)]; intros [= <-]; cbn; by rewrite app_nil_r.
  - intros [= <-]. cbn. destruct (xs_paused s); cbn; by rewrite ?app_nil_r.
  - done.
Qed.

Lemma messages_of_app os o : messages_of (os ++ [o]) = messages_of os ++ match o with OutMsg ev => [ev] | _ => [] end.
Proof. unfold messages_of. rewrite omap_app. by destruct o. Qed.

Lemma reported_app os o : reported (os ++ [o]) = reported os + match o with OutMsg _ => 0 | OutStatus d => d end.
Proof. unfold reported. induction os as [|[ev|d] os IH]; cbn; [destruct o; lia|done|]. rewrite IH. lia. Qed.

Lemma stream_drain_ok k pick ep : endpoint_ok ep → endpoint_ok (stream_drain k pick ep).
Proof.
  intros Hep. unfold stream_drain. destruct (xh_sessions (ep_hub ep) !! k) as [s|] eqn:Ek; [|done].
  unfold on_session. rewrite Ek. destruct (drain_step pick s) as [s'|] eqn:Ed.
  2:{ assert (set_hub ep (ep_hub ep) = ep) as -> by (by destruct ep). unfold drain_step in Ed.
      destruct (xs_drain s); try done. }
  destruct (drain_changes pick s s' Ed) as (Hf & Hq & Hs).
  assert (∀ c os, conn_ok s c → messages_of os = xs_sunk s' → reported os = reported (sn_out c) →
            conn_ok s' (mkStreamConn (sn_identity c) (sn_request c) (sn_lastDropped c) os (sn_updated c))) as Hc.
  { intros c os [C1 C2 C3 C4 C5] Hm Hr. split; cbn; try done.
    - by eapply drain_ok.
    - change (u64 (reported os) = u64 (sn_lastDropped c)). by rewrite Hr.
    - rewrite Hf, Hq. done. }
  assert (∀ c, conn_ok s c → xs_sunk s' = xs_sunk s → conn_ok s' c) as Hc0.
  { intros c Hcc Hs0. destruct c as [i rq l os u]. apply (Hc _ os Hcc); [|done]. rewrite Hs0. by destruct Hcc. }
  destruct (xs_drain s) as [| |ev|] eqn:Edr; rewrite ?app_nil_r in Hs; try (apply session_step_ok with s; [done|done|]; intros c Hcc; by apply Hc0).
  destruct (xs_paused s); rewrite ?app_nil_r in Hs; [apply session_step_ok with s; [done|done|]; intros c Hcc; by apply Hc0|].
  apply step_ok with s; [done|done|]. intros c Hcc. apply Hc; [done| |].
  - rewrite messages_of_app, Hs. destruct Hcc as [_ -> _ _ _]. done.
  - rewrite reported_app. lia.
Qed.

Lemma stream_tick_ok k ep : endpoint_ok ep → endpoint_ok (stream_tick k ep).
Proof.
  intros Hep. unfold stream_tick. destruct (xh_sessions (ep_hub ep) !! k) as [s|] eqn:Ek; [|done].
  apply conn_step_ok with s; [done|done|]. intros c [C1 C2 C3 C4 C5].
  destruct (Z.eqb_spec (xs_droppedCount s) (sn_lastDropped c)); [by split|]. split; cbn [sn_identity sn_request sn_lastDropped sn_out sn_updated]; try done.
  - rewrite messages_of_app, C2. by rewrite app_nil_r.
  - rewrite reported_app. unfold u64 in *. rewrite Zplus_mod_idemp_r.
    rewrite <- Zplus_mod_idemp_l, C3, Zplus_mod_idemp_l. f_equal. lia.
Qed.

Lemma apply_control_ok ctl s c :
  conn_ok s c →
  conn_ok (apply_control ctl s) (mkStreamConn (sn_identity c) (sn_request c) (sn_lastDropped c) (sn_out c) (sn_updated c || is_update ctl)).
Proof.
  intros [C1 C2 C3 C4 C5].
  assert (session_ok (apply_control ctl s)) as Hs.
  { destruct ctl as [| | |[f|]|]; cbn; try done.
    - apply (simple_ok s (λ s, Some (Pause s)) _ C1); [left; set_solver|done].
    - apply (simple_ok s (λ s, Some (Resume s)) _ C1); [left; set_solver|done].
    - apply (simple_ok s (λ s, Some (UpdateFilter s f)) _ C1); [right; by eexists|done]. }
  split; cbn [sn_identity sn_request sn_lastDropped sn_out sn_updated]; try done.
  - by destruct ctl as [| | |[f|]|].
  - intros [Hu Hi]%orb_false_iff. by destruct ctl as [| | |[f|]|]; cbn in *; [apply C5..|done|apply C5|apply C5].
Qed.

Lemma stream_text_ok k text ep : endpoint_ok ep → endpoint_ok (stream_text k text ep).
Proof.
  intros Hep. unfold stream_text. cbv zeta. unfold on_session. destruct (xh_sessions (ep_hub ep) !! k) as [s|] eqn:Ek.
  - apply step_ok with s; [done|done|]. intros c. apply apply_control_ok.
  - assert (ep_conns ep !! k = None) as Hk.
    { apply not_elem_of_dom. rewrite <- (eo_dom ep Hep). by apply not_elem_of_dom. }
    assert (∀ f, on_conn k f (set_hub ep (ep_hub ep)) = ep) as ->; [|done].
    intros f. destruct ep as [h a l cs]. unfold on_conn. cbn in *. f_equal.
    apply alter_id. intros x Hx. congruence.
Qed.

(** A session that gets an event its filter lets through. *)
Lemma offer_conn_ok s c producer msg :
  wants unicode_lower s (msg_Topic msg) (msg_Partition msg) producer msg = true →
  conn_ok s c → conn_ok (offer s (mkExplorerEvent msg producer)).1 c.
Proof.
  intros Hw [C1 C2 C3 C4 C5].
  assert (xs_sunk (offer s (mkExplorerEvent msg producer)).1 = xs_sunk s ∧ xs_filter (offer s (mkExplorerEvent msg producer)).1 = xs_filter s ∧
          (xs_queued (offer s (mkExplorerEvent msg producer)).1 = xs_queued s ∨
           xs_queued (offer s (mkExplorerEvent msg producer)).1 = xs_queued s ++ [mkExplorerEvent msg producer])) as (Hs & Hf & Hq).
  { unfold offer. destruct (_ <? _); cbn; auto. }
  split; [by apply offer_ok|by rewrite Hs|done|done|]. intros Hu. destruct (C5 Hu) as [Hfl Hto]. split; [by rewrite Hf|].
  destruct Hq as [->| ->]; [done|]. apply Forall_app. split; [done|]. constructor; [|constructor].
  unfold on_topic. cbn. unfold wants in Hw. apply andb_prop in Hw as [Hw _]. unfold Filter_matches in Hw. rewrite Hfl in Hw.
  cbn [query_filter xf_Topic] in Hw. rewrite bool_decide_eq_false_2 in Hw by apply C4. cbn in Hw.
  case_bool_decide as Ht; [by rewrite Ht|done].
Qed.

Lemma publish_turn_ok ep producer msg k :
  endpoint_ok ep →
  endpoint_ok (set_hub ep (publish_to_session unicode_lower (msg_Topic msg) (msg_Partition msg) producer msg (ep_hub ep) k)).
Proof.
  intros Hep. unfold publish_to_session. destruct (xh_sessions (ep_hub ep) !! k) as [s|] eqn:Ek; [|by destruct ep].
  destruct (wants unicode_lower s (msg_Topic msg) (msg_Partition msg) producer msg) eqn:Ew; [|by destruct ep].
  pose proof (session_step_ok ep k s (offer s (mkExplorerEvent msg producer)).1 Hep Ek (λ c, offer_conn_ok s c producer msg Ew)) as H.
  destruct (offer s _) as [s' sent]. cbn [fst] in H. by destruct H.
Qed.

Lemma stream_publish_ok ep order producer msg :
  endpoint_ok ep →
  endpoint_ok (set_hub ep (Hub_Publish unicode_lower order (ep_hub ep) (msg_Topic msg) (msg_Partition msg) producer msg)).
Proof.
  intros Hep. unfold Hub_Publish. case_bool_decide; [by destruct ep|]. clear H.
  revert ep Hep. induction order as [|k order IH]; intros ep Hep; [by destruct ep|]. cbn [foldl].
  exact (IH _ (publish_turn_ok ep producer msg k Hep)).
Qed.

Lemma stream_join_ok i upgraded ep : endpoint_ok ep → endpoint_ok (stream_join i upgraded ep).
Proof.
  intros Hep. unfold stream_join. destruct (ep_admitted ep !! i) as [[rq id]|] eqn:Ei; [|done]. cbv zeta.
  destruct Hep as [Hd Hn Ha Hh Had Hc].
  assert (Forall (λ p, may_explore p.2 (sq_topic p.1) = true ∧ sq_topic p.1 ≠ EmptyString) (delete i (ep_admitted ep))) as Had'
    by by apply Forall_delete.
  assert (may_explore id (sq_topic rq) = true ∧ sq_topic rq ≠ EmptyString) as Hm by exact (Forall_lookup_1 _ _ _ _ Had Ei).
  destruct upgraded; cbn [negb]; [|by split].
  destruct (NewSession (ep_hub ep) (query_filter rq)) as [h k] eqn:Eh. unfold NewSession in Eh. injection Eh as <- <-.
  pose proof (Hn (xh_next (ep_hub ep)) ltac:(lia)) as Hfresh.
  split; cbn [ep_hub ep_conns ep_active ep_admitted xh_sessions xh_next xh_activeSessions].
  - by rewrite !dom_insert_L, Hd.
  - intros k Hk. rewrite lookup_insert_ne by lia. apply Hn. lia.
  - rewrite map_size_insert_None, Ha, i64_add_l by done. f_equal. lia.
  - rewrite map_size_insert_None, Hh, i64_add_l by done. f_equal. lia.
  - done.
  - intros k s c Hs Hcc. destruct (decide (k = xh_next (ep_hub ep))) as [->|Hne].
    + rewrite lookup_insert_eq in Hs. rewrite lookup_insert_eq in Hcc. injection Hs as <-. injection Hcc as <-. by split.
    + rewrite lookup_insert_ne in Hs by done. rewrite lookup_insert_ne in Hcc by done. by eapply Hc.
Qed.

Lemma stream_gone_ok k ep : endpoint_ok ep → endpoint_ok (stream_gone k ep).
Proof.
  intros Hep. unfold stream_gone. destruct (ep_conns ep !! k) as [c|] eqn:Ek; [|done]. destruct Hep as [Hd Hn Ha Hh Had Hc].
  assert (∀ m, removeSession (on_session (ep_hub ep) k m) k =
               mkExplorerHub (delete k (xh_sessions (ep_hub ep))) (xh_next (ep_hub ep)) (i64 (xh_activeSessions (ep_hub ep) - 1))
                 (xh_sentTotal (ep_hub ep)) (xh_droppedTotal (ep_hub ep))) as Hr.
  { intros m. unfold on_session, removeSession. destruct (xh_sessions (ep_hub ep) !! k) as [s|]; [|done].
    destruct (m s); [|done]. cbn. by rewrite delete_insert_eq. }
  rewrite Hr. assert (size (ep_conns ep) = S (size (delete k (ep_conns ep)))) as Hsz.
  { rewrite <- (insert_delete_id _ _ _ Ek) at 1. rewrite map_size_insert_None; [done|]. apply lookup_delete_eq. }
  split; cbn [ep_hub ep_conns ep_active ep_admitted xh_sessions xh_next xh_activeSessions].
  - by rewrite !dom_delete_L, Hd.
  - intros j Hj. apply lookup_delete_None. right. by apply Hn.
  - change (i64 (ep_active ep - 1)) with (i64 (ep_active ep + - 1)). rewrite Ha, i64_add_l. f_equal. lia.
  - change (i64 (xh_activeSessions (ep_hub ep) - 1)) with (i64 (xh_activeSessions (ep_hub ep) + - 1)). rewrite Hh, i64_add_l. f_equal. lia.
  - done.
  - intros j s cj Hs Hcj. apply lookup_delete_Some in Hs as [_ Hs]. apply lookup_delete_Some in Hcj as [_ Hcj]. by eapply Hc.
Qed.

Lemma stream_step_ok ep e : endpoint_ok ep → endpoint_ok (stream_step ep e).
Proof.
  intros Hep. destruct e as [rq|i upgraded|order producer msg|k pick|k|k text|k]; cbn [stream_step].
  - unfold stream_check. destruct (explorer_admission _ _ _ _ _ _) as [tp|st] eqn:Ea; [|done].
    destruct (sq_identity rq) as [id|]; [|done]. destruct Hep as [Hd Hn Ha Hh Had Hc]. split; try done. cbn [ep_admitted].
    apply Forall_app. split; [done|]. constructor; [|constructor]. cbn [fst snd]. unfold explorer_admission in Ea. cbn in Ea.
    destruct enabled; [|done]. cbn in Ea. destruct (_ <=? ep_active ep); [done|]. case_bool_decide; [done|].
    destruct (may_explore id (sq_topic rq)); [done|done].
  - by apply stream_join_ok.
  - by apply stream_publish_ok.
  - by apply stream_drain_ok.
  - by apply stream_tick_ok.
  - by apply stream_text_ok.
  - by apply stream_gone_ok.
Qed.

Lemma NewEndpoint_ok : endpoint_ok NewEndpoint.
Proof. split; cbn; try done. Qed.

Lemma stream_run_ok es : endpoint_ok (stream_run es).
Proof.
  unfold stream_run. pose proof NewEndpoint_ok as H. revert H. generalize NewEndpoint.
  induction es as [|e es IH]; intros ep H; [done|]. cbn [foldl]. by apply IH, stream_step_ok.
Qed.

(** A tick reports what the session has dropped since the last one. *)
Lemma stream_tick_reports ep k s c :
  endpoint_ok ep → xh_sessions (ep_hub ep) !! k = Some s → ep_conns ep !! k = Some c →
  ∃ c', ep_conns (stream_tick k ep) !! k = Some c' ∧ messages_of (sn_out c') = messages_of (sn_out c) ∧
    u64 (reported (sn_out c')) = u64 (xs_droppedCount s).
Proof.
  intros Hep Hs Hc. pose proof (eo_conns _ (stream_tick_ok k ep Hep) k s) as Hok.
  unfold stream_tick in *. rewrite Hs in *. cbn [on_conn ep_conns ep_hub] in *. rewrite lookup_alter_eq, Hc in *.
  cbn [fmap option_fmap option_map] in *. eexists. split; [done|]. specialize (Hok _ Hs eq_refl). destruct Hok as [_ _ Hr _ _].
  destruct (Z.eqb_spec (xs_droppedCount s) (sn_lastDropped c)) as [E|E]; [by rewrite Hr, E|].
  cbn [sn_out] in *. split; [by rewrite messages_of_app, app_nil_r|exact Hr].
Qed.

(** C25: a stream shows what its caller may see.  In every interleaving of callers,
    publishes, drains, ticks, control frames and ends: the count of streams is
    the number of those open; every open stream has a session, whose caller
    may subscribe to the topic asked for; the messages written are what the
    session's sink got, in order, a subsequence of what was queued for it; the
    next tick brings the drops reported to exactly those of the session, so
    that every message that passed the filter is then queued or reported (in
    the 64-bit counts); and as long as the caller sent no filter every message
    written is of the topic asked for. *)
Theorem stream_shows_authorized es k c :
  ep_conns (stream_run es) !! k = Some c →
  ep_active (stream_run es) = i64 (Z.of_nat (size (ep_conns (stream_run es)))) ∧
  may_explore (sn_identity c) (sq_topic (sn_request c)) = true ∧
  ∃ s, xh_sessions (ep_hub (stream_run es)) !! k = Some s ∧ messages_of (sn_out c) = xs_sunk s ∧
    messages_of (sn_out c) `sublist_of` xs_queued s ∧
    (∃ c', ep_conns (stream_run (es ++ [StTick k])) !! k = Some c' ∧
       messages_of (sn_out c') = messages_of (sn_out c) ∧
       u64 (reported (sn_out c')) = u64 (xs_droppedCount s) ∧
       u64 (Z.of_nat (xs_offered s)) = u64 (zlen (xs_queued s) + reported (sn_out c'))) ∧
    (sn_updated c = false → Forall (on_topic (sq_topic (sn_request c))) (messages_of (sn_out c))).
Proof.
  intros Hk. pose proof (stream_run_ok es) as Hep. pose proof Hep as [Hd Hn Ha Hh Had Hc].
  assert (is_Some (xh_sessions (ep_hub (stream_run es)) !! k)) as [s Hs].
  { apply elem_of_dom. rewrite Hd. apply elem_of_dom. by eexists. }
  destruct (Hc k s c Hs Hk) as [C1 C2 C3 C4 C5]. split; [done|]. split; [apply C4|]. exists s. split; [done|].
  assert (messages_of (sn_out c) `sublist_of` xs_queued s) as Hsub.
  { rewrite C2, (so_queue s C1). etrans; [apply (so_sunk s C1)|]. apply sublist_inserts_r. done. }
  split; [done|]. split; [done|]. split.
  - destruct (stream_tick_reports _ _ _ _ Hep Hs Hk) as (c' & Hc' & Hm & Hr). exists c'.
    unfold stream_run in *. rewrite foldl_app. split; [exact Hc'|]. split; [done|]. split; [done|].
    rewrite (so_count s C1). unfold u64 in *. by rewrite <- Z.add_mod_idemp_r, <- Hr, Z.add_mod_idemp_r.
  - intros Hu. destruct (C5 Hu) as [_ Hto].
    apply Forall_forall. intros ev Hev. apply (proj1 (Forall_forall _ _) Hto). by eapply elem_of_sublist.
Qed.

End Stream.

(** ** A stream at work *)

Definition demo_viewer : Identity := mkIdentity "alice" RoleConsumer ["orders"%string].

Definition demo_stream_request : StreamRequest := mkStreamRequest (Some demo_viewer) "orders" "" "" "" "".

Definition demo_topics (topic : string) : bool := bool_decide (topic ∈ ["orders"; "payroll"]%string).

Definition demo_msg (topic : string) (n : Z) : Message := mkMessage "" topic n [] ∅ "" 0 n 0.

Definition demo_stream_events : list stream_event :=
  [StCheck demo_stream_request; StJoin 0 true; StPublish [0%nat] "p" (demo_msg "orders" 1); StPublish [0%nat] "p" (demo_msg "payroll" 2);
   StDrain 0 false; StDrain 0 false; StDrain 0 false].

Notation demo_run es := (stream_run id true 2 demo_topics es).

Lemma stream_shows_authorized_witness :
  ∃ c, ep_conns (demo_run demo_stream_events) !! 0%nat = Some c ∧
    messages_of (sn_out c) = [mkExplorerEvent (demo_msg "orders" 1) "p"] ∧
    Forall (on_topic "orders") (messages_of (sn_out c)).
Proof.
  assert (∃ c, ep_conns (demo_run demo_stream_events) !! 0%nat = Some c ∧
    messages_of (sn_out c) = [mkExplorerEvent (demo_msg "orders" 1) "p"] ∧ sn_updated c = false ∧
    sq_topic (sn_request c) = "orders"%string) as (c & Hc & Hm & Hu & Ht)
    by (eexists; split; [vm_compute; reflexivity|]; split; [vm_compute; reflexivity|split; vm_compute; reflexivity]).
  exists c. split; [exact Hc|]. split; [exact Hm|].
  destruct (stream_shows_authorized id true 2 demo_topics demo_stream_events 0 c Hc) as (_ & _ & s & _ & _ & _ & _ & Hto).
  rewrite <- Ht. exact (Hto Hu).
Defined.

(** The dashboard's own filter update names no topic: the session takes
    messages of every topic from then on, those its caller may not read too. *)
Definition dashboard_update : bytes :=
  print (JObj (put "action" (jstr "update_filter") ++
    put "filter" (JObj (put "partition" (JNum (- 1)) ++ put "key" (jstr "") ++ put "producer" (jstr "") ++ put "search" (jstr ""))))).

Lemma filter_update_escapes :
  may_explore demo_viewer "payroll" = false ∧
  ∃ c, ep_conns (demo_run [StCheck demo_stream_request; StJoin 0 true; StText 0 dashboard_update;
           StPublish [0%nat] "p" (demo_msg "payroll" 2); StDrain 0 false; StDrain 0 false; StDrain 0 false]) !! 0%nat = Some c ∧
    messages_of (sn_out c) = [mkExplorerEvent (demo_msg "payroll" 2) "p"].
Proof. split; [by vm_compute|]. eexists. split; vm_compute; reflexivity. Qed.

(** The limit is looked at before the upgrade and counted after it: callers
    that arrive together all pass. *)
Lemma stream_limit_overrun :
  ep_active (demo_run [StCheck demo_stream_request; StCheck demo_stream_request; StCheck demo_stream_request;
    StJoin 0 true; StJoin 0 true; StJoin 0 true]) = 3.
Proof. by vm_compute. Qed.

(** A filter update that leaves the partition out asks for partition 0. *)
Lemma update_without_partition :
  control_of (print (JObj (put "action" (jstr "update_filter") ++ put "filter" (JObj (put "topic" (jstr "orders")))))) =
    CtlUpdate (Some (mkExplorerFilter "orders" 0 "" "" "")).
Proof. by vm_compute. Qed.

(** ** Two writers on one socket

    The sink and the ticker share a lock; the answers of the read loop to
    pings do not take it, and a frame is two writes. *)

(** What a client reads of a short frame. *)
Definition read_server_frame (r : bytes) : option (Z * bytes * bytes) :=
  match r with
  | h0 :: h1 :: r =>
      let n := Z.to_nat (bval h1) in
      if (bval h1 <=? 125) && (Z.of_nat n <=? zlen r) then Some (Z.land (bval h0) 15, take n r, drop n r) else None
  | _ => None
  end.

Definition frame_writes (opcode : Z) (payload : bytes) : list bytes :=
  ws_header opcode 0 (zlen payload) :: (if 0 <? zlen payload then [payload] else []).

Lemma frame_writes_join opcode payload : mjoin (frame_writes opcode payload) = (writeFrame [] opcode payload true true).1.
Proof. unfold frame_writes, writeFrame. cbn. destruct (0 <? zlen payload); cbn; by rewrite ?app_nil_r. Qed.

Lemma torn_frame :
  ∃ writes, frame_writes OpText (bytes_of_string "{}") `sublist_of` writes ∧ frame_writes OpPong [] `sublist_of` writes ∧
    writes ≡ₚ frame_writes OpText (bytes_of_string "{}") ++ frame_writes OpPong [] ∧
    read_server_frame (mjoin writes) = Some (OpText, ws_header OpPong 0 0, bytes_of_string "{}").
Proof.
  exists [ws_header OpText 0 2; ws_header OpPong 0 0; bytes_of_string "{}"]. split_and!.
  - apply sublist_skip, sublist_cons, sublist_skip, sublist_nil.
  - apply sublist_cons, sublist_skip, sublist_cons, sublist_nil.
  - apply Permutation_skip, Permutation_swap.
  - by vm_compute.
Qed.
