(* ===== verification/Metrics.v ===== *)
(** * Metrics: [internal/metrics/metrics.go] and [history.go]

    Counters, gauges and histograms, their exposition as text, and the history
    kept for the charts.  A gauge and the sum of a histogram are [float64]
    values; how [%g] prints one is an argument. *)

From Stdlib Require Import SpecFloat.
From S2P Require Import Prelude GoLib Json RateLimit.

Local Open Scope Z_scope.

Record Counter := mkCounter {
  ct_name : bytes;
  ct_help : bytes;
  ct_labels : gmap string string;
  ct_value : Z;
}.

Definition Counter_Inc (c : Counter) (delta : Z) : Counter :=
  mkCounter (ct_name c) (ct_help c) (ct_labels c) (u64 (ct_value c + delta)).

Record Gauge := mkGauge {
  ga_name : bytes;
  ga_help : bytes;
  ga_labels : gmap string string;
  ga_value : spec_float;
}.

Definition Gauge_Set (g : Gauge) (v : spec_float) : Gauge := mkGauge (ga_name g) (ga_help g) (ga_labels g) v.

Definition Gauge_Add (g : Gauge) (delta : spec_float) : Gauge := Gauge_Set g (f64_add (ga_value g) delta).

Record Histogram := mkHistogram {
  hi_name : bytes;
  hi_help : bytes;
  hi_labels : gmap string string;
  hi_buckets : list spec_float;
  hi_counts : list Z;
  hi_sum : spec_float;
  hi_count : Z;
}.

Definition Histogram_Observe (h : Histogram) (v : spec_float) : Histogram :=
  mkHistogram (hi_name h) (hi_help h) (hi_labels h) (hi_buckets h)
    (zip_with (λ bound n, if SFleb v bound then u64 (n + 1) else n) (hi_buckets h) (hi_counts h))
    (f64_add (hi_sum h) v) (u64 (hi_count h + 1)).

Record Registry := mkRegistry {
  rg_counters : list Counter;
  rg_gauges : list Gauge;
  rg_histograms : list Histogram;
}.

Definition NewRegistry : Registry := mkRegistry [] [] [].

(** A registration answers where the new metric is. *)
Definition NewCounter (r : Registry) (name help : bytes) (labels : gmap string string) : Registry * nat :=
  (mkRegistry (rg_counters r ++ [mkCounter name help labels 0]) (rg_gauges r) (rg_histograms r), length (rg_counters r)).

Definition NewGauge (r : Registry) (name help : bytes) (labels : gmap string string) : Registry * nat :=
  (mkRegistry (rg_counters r) (rg_gauges r ++ [mkGauge name help labels (S754_zero false)]) (rg_histograms r),
   length (rg_gauges r)).

Definition is_nan (x : spec_float) : bool := match x with S754_nan => true | _ => false end.

(** The order of [sort.Float64s]: a NaN comes before every number. *)
Definition float_less (x y : spec_float) : bool := SFltb x y || (is_nan x && negb (is_nan y)).

Definition float_le (x y : spec_float) : Prop := float_less y x = false.

#[global] Instance float_le_dec x y : Decision (float_le x y) := decide (float_less y x = false).

Definition NewHistogram (r : Registry) (name help : bytes) (labels : gmap string string) (bounds : list spec_float) :
    Registry * nat :=
  let sorted := merge_sort float_le bounds in
  (mkRegistry (rg_counters r) (rg_gauges r)
    (rg_histograms r ++ [mkHistogram name help labels sorted (replicate (length sorted) 0) (S754_zero false) 0]),
   length (rg_histograms r)).

Definition str : string → bytes := bytes_of_string.

(** ** The metrics of the broker *)

(** The bundle holds where each metric is in the registry. *)
Record BrokerMetrics := mkBrokerMetrics {
  bm_MessagesPublished : nat;
  bm_MessagesConsumed : nat;
  bm_MessagesErrored : nat;
  bm_MessagesAcked : nat;
  bm_MessagesNacked : nat;
  bm_ActiveConnections : nat;
  bm_ConsumerLag : nat;
  bm_ReplicationLag : nat;
  bm_MessageSizeBytes : nat;
  bm_PublishLatencyMs : nat;
  bm_BytesPublished : nat;
  bm_BytesConsumed : nat;
  bm_ConsumerLagTotal : nat;
  bm_ActiveConsumerGroups : nat;
  bm_TopicCount : nat;
  bm_PartitionCount : nat;
  bm_WALBytesTotal : nat;
  bm_WALEntriesTotal : nat;
  bm_ElectionCount : nat;
  bm_LeaderChanges : nat;
  bm_CurrentTerm : nat;
  bm_IsLeader : nat;
  bm_ISRSize : nat;
  bm_ClusterReplicationLag : nat;
  bm_UnderReplicated : nat;
  bm_ProcessResidentMemoryBytes : nat;
  bm_GoGCDurationSecondsCount : nat;
  bm_ProcessCPUSecondsTotal : nat;
  bm_ExplorerActiveSessions : nat;
  bm_ExplorerMessagesSentTotal : nat;
  bm_ExplorerMessagesDroppedTotal : nat;
}.

(** The bounds are [float64] constants: 0.5 and 2.5 are the two that are no
    integers. *)
Definition DefaultBuckets : list spec_float :=
  f64_div (f64_of_int 1) (f64_of_int 2) :: f64_of_int 1 :: f64_div (f64_of_int 5) (f64_of_int 2) ::
  (f64_of_int <$> [5; 10; 25; 50; 100; 250; 500; 1000]).

Definition NewBrokerMetrics (r : Registry) : Registry * BrokerMetrics :=
  let (r, i_MessagesPublished) := NewCounter r (str "pubsub_messages_published_total")
    (str "Total messages successfully published") ∅ in
  let (r, i_MessagesConsumed) := NewCounter r (str "pubsub_messages_consumed_total")
    (str "Total messages delivered to consumers") ∅ in
  let (r, i_MessagesErrored) := NewCounter r (str "pubsub_messages_errored_total")
    (str "Total messages that failed processing") ∅ in
  let (r, i_MessagesAcked) := NewCounter r (str "pubsub_messages_acked_total")
    (str "Total ACK frames received from consumers") ∅ in
  let (r, i_MessagesNacked) := NewCounter r (str "pubsub_messages_nacked_total")
    (str "Total NACK frames received from consumers") ∅ in
  let (r, i_ActiveConnections) := NewGauge r (str "pubsub_active_connections")
    (str "Number of currently open client connections") ∅ in
  let (r, i_ConsumerLag) := NewGauge r (str "pubsub_consumer_lag_messages")
    (str "Approximate consumer lag (messages behind head)") ∅ in
  let (r, i_ReplicationLag) := NewGauge r (str "pubsub_replication_lag_bytes")
    (str "Replication lag in bytes between leader and furthest follower") ∅ in
  let (r, i_MessageSizeBytes) := NewHistogram r (str "pubsub_message_size_bytes")
    (str "Distribution of message payload sizes") ∅ (f64_of_int <$> [64; 256; 1024; 4096; 16384; 65536; 262144; 1048576]) in
  let (r, i_PublishLatencyMs) := NewHistogram r (str "pubsub_publish_latency_milliseconds")
    (str "End-to-end publish latency") ∅ DefaultBuckets in
  let (r, i_BytesPublished) := NewCounter r (str "pubsub_bytes_published_total")
    (str "Total payload bytes written by producers") ∅ in
  let (r, i_BytesConsumed) := NewCounter r (str "pubsub_bytes_consumed_total")
    (str "Total payload bytes read by consumers") ∅ in
  let (r, i_ConsumerLagTotal) := NewGauge r (str "pubsub_consumer_lag_total")
    (str "Sum of (log.NextOffset - committedOffset) across all partitions and groups") ∅ in
  let (r, i_ActiveConsumerGroups) := NewGauge r (str "pubsub_active_consumer_groups")
    (str "Number of non-empty consumer groups") ∅ in
  let (r, i_TopicCount) := NewGauge r (str "pubsub_topic_count")
    (str "Number of topics") ∅ in
  let (r, i_PartitionCount) := NewGauge r (str "pubsub_partition_count")
    (str "Total partitions across all topics") ∅ in
  let (r, i_WALBytesTotal) := NewCounter r (str "pubsub_wal_bytes_total")
    (str "Bytes appended to the message WAL") ∅ in
  let (r, i_WALEntriesTotal) := NewCounter r (str "pubsub_wal_entries_total")
    (str "Entries appended to the message WAL") ∅ in
  let (r, i_ElectionCount) := NewCounter r (str "pubsub_cluster_election_total")
    (str "Total number of elections started by this node") ∅ in
  let (r, i_LeaderChanges) := NewCounter r (str "pubsub_cluster_leader_changes_total")
    (str "Total number of leader changes observed by this node") ∅ in
  let (r, i_CurrentTerm) := NewGauge r (str "pubsub_cluster_current_term")
    (str "Current election term") ∅ in
  let (r, i_IsLeader) := NewGauge r (str "pubsub_cluster_is_leader")
    (str "1 if this node is the cluster leader, 0 otherwise") ∅ in
  let (r, i_ISRSize) := NewGauge r (str "pubsub_cluster_isr_size")
    (str "Current ISR size averaged across all registered partitions") ∅ in
  let (r, i_ClusterReplicationLag) := NewGauge r (str "pubsub_cluster_replication_lag_messages")
    (str "Maximum follower replication lag in messages across all partitions") ∅ in
  let (r, i_UnderReplicated) := NewGauge r (str "pubsub_cluster_under_replicated_partitions")
    (str "Number of partitions whose ISR size is below the topic MinISR threshold") ∅ in
  let (r, i_ProcessResidentMemoryBytes) := NewGauge r (str "process_resident_memory_bytes")
    (str "Resident memory size in bytes") ∅ in
  let (r, i_GoGCDurationSecondsCount) := NewCounter r (str "go_gc_duration_seconds_count")
    (str "Total number of GC cycles") ∅ in
  let (r, i_ProcessCPUSecondsTotal) := NewGauge r (str "process_cpu_seconds_total")
    (str "Total user and system CPU time spent in seconds") ∅ in
  let (r, i_ExplorerActiveSessions) := NewGauge r (str "explorer_active_sessions")
    (str "Number of active Explorer WebSocket connections") ∅ in
  let (r, i_ExplorerMessagesSentTotal) := NewCounter r (str "explorer_messages_sent_total")
    (str "Total messages successfully sent to Explorer sessions") ∅ in
  let (r, i_ExplorerMessagesDroppedTotal) := NewCounter r (str "explorer_messages_dropped_total")
    (str "Total messages dropped due to slow Explorer consumers") ∅ in
    (r, mkBrokerMetrics i_MessagesPublished i_MessagesConsumed i_MessagesErrored i_MessagesAcked i_MessagesNacked
    i_ActiveConnections i_ConsumerLag i_ReplicationLag i_MessageSizeBytes i_PublishLatencyMs i_BytesPublished
    i_BytesConsumed i_ConsumerLagTotal i_ActiveConsumerGroups i_TopicCount i_PartitionCount i_WALBytesTotal
    i_WALEntriesTotal i_ElectionCount i_LeaderChanges i_CurrentTerm i_IsLeader i_ISRSize i_ClusterReplicationLag
    i_UnderReplicated i_ProcessResidentMemoryBytes i_GoGCDurationSecondsCount i_ProcessCPUSecondsTotal
    i_ExplorerActiveSessions i_ExplorerMessagesSentTotal i_ExplorerMessagesDroppedTotal).

(** What the parts of the program do to a metric they hold. *)
Inductive metric_event :=
| CounterInc (i : nat) (delta : Z)
| GaugeSet (i : nat) (v : spec_float)
| GaugeAdd (i : nat) (delta : spec_float)
| Observe (i : nat) (v : spec_float).

Definition metric_step (r : Registry) (e : metric_event) : Registry :=
  match e with
  | CounterInc i delta => mkRegistry (alter (λ c, Counter_Inc c delta) i (rg_counters r)) (rg_gauges r) (rg_histograms r)
  | GaugeSet i v => mkRegistry (rg_counters r) (alter (λ g, Gauge_Set g v) i (rg_gauges r)) (rg_histograms r)
  | GaugeAdd i delta => mkRegistry (rg_counters r) (alter (λ g, Gauge_Add g delta) i (rg_gauges r)) (rg_histograms r)
  | Observe i v => mkRegistry (rg_counters r) (rg_gauges r) (alter (λ h, Histogram_Observe h v) i (rg_histograms r))
  end.

(** ** Exposition *)

(** [strings.ReplaceAll] of a byte, twice: backslash first. *)
Definition escapeHelp (s : bytes) : bytes :=
  let s := s ≫= λ b, match b with Byte.x5c => [Byte.x5c; Byte.x5c] | _ => [b] end in
  s ≫= λ b, match b with Byte.x0a => [Byte.x5c; Byte.x6e] | _ => [b] end.

Definition total_suffix : bytes := bytes_of_string "_total".

Definition has_suffix (s suffix : bytes) : bool := bool_decide (drop (length s - length suffix) s = suffix).

Definition counterName (name : bytes) : bytes := if has_suffix name total_suffix then name else name ++ total_suffix.

Definition escape_label_rune (c : bytes) : bytes :=
  match c with
  | [Byte.x5c] => [Byte.x5c; Byte.x5c]
  | [Byte.x22] => [Byte.x5c; Byte.x22]
  | [Byte.x0a] => [Byte.x5c; Byte.x6e]
  | _ => c
  end.

(** The loop over the runes; a byte that starts none becomes U+FFFD. *)
Fixpoint escape_label_fuel (fuel : nat) (s : bytes) : bytes :=
  match fuel, s with
  | _, [] => []
  | O, _ => []
  | S fuel, _ =>
      match rune_len s with
      | O => rune_error ++ escape_label_fuel fuel (drop 1 s)
      | n => escape_label_rune (take n s) ++ escape_label_fuel fuel (drop n s)
      end
  end.

Definition escapeLabelValue (s : bytes) : bytes := escape_label_fuel (length s) s.

Definition labelStr (labels : gmap string string) : bytes :=
  if bool_decide (labels = ∅) then []
  else
    Byte.x7b ::
    join comma ((λ kv, bytes_of_string kv.1 ++ [Byte.x3d; Byte.x22] ++ escapeLabelValue (bytes_of_string kv.2) ++
                       [Byte.x22]) <$> merge_sort key_le (map_to_list labels)) ++ [Byte.x7d].

Definition metricLine (name : bytes) (labels : gmap string string) : bytes := name ++ labelStr labels.

Definition mergeLabels (a b : gmap string string) : gmap string string := b ∪ a.

Section Expose.
(** [%g]. *)
Context (fmt_g : spec_float → string).

Definition formatFloat (f : spec_float) : string :=
  match f with
  | S754_infinity false => "+Inf"
  | S754_infinity true => "-Inf"
  | _ => fmt_g f
  end.

Definition line (parts : list bytes) : bytes := mjoin parts ++ [Byte.x0a].

Definition family_head (name help : bytes) (kind : string) : bytes :=
  line [str "# HELP "; name; str " "; escapeHelp help] ++ line [str "# TYPE "; name; str " "; str kind].

Definition expose_counter (c : Counter) : bytes :=
  family_head (ct_name c) (ct_help c) "counter" ++
  line [metricLine (counterName (ct_name c)) (ct_labels c); str " "; str (fmt_d (ct_value c))].

Definition expose_gauge (g : Gauge) : bytes :=
  family_head (ga_name g) (ga_help g) "gauge" ++
  line [metricLine (ga_name g) (ga_labels g); str " "; str (fmt_g (ga_value g))].

(** The running sums of the counts. *)
Fixpoint cumulate (acc : Z) (counts : list Z) : list Z :=
  match counts with
  | [] => []
  | n :: counts => let acc := u64 (acc + n) in acc :: cumulate acc counts
  end.

Definition bucket_line (h : Histogram) (bound : string) (n : Z) : bytes :=
  line [hi_name h; str "_bucket"; labelStr (mergeLabels (hi_labels h) {["le"%string := bound]}); str " "; str (fmt_d n)].

Definition expose_histogram (h : Histogram) : bytes :=
  family_head (hi_name h) (hi_help h) "histogram" ++
  mjoin (zip_with (λ bound n, bucket_line h (formatFloat bound) n) (hi_buckets h) (cumulate 0 (hi_counts h))) ++
  bucket_line h "+Inf" (hi_count h) ++
  line [hi_name h; str "_sum"; labelStr (hi_labels h); str " "; str (fmt_g (hi_sum h))] ++
  line [hi_name h; str "_count"; labelStr (hi_labels h); str " "; str (fmt_d (hi_count h))].

Definition Expose (r : Registry) : bytes :=
  mjoin (expose_counter <$> rg_counters r) ++ mjoin (expose_gauge <$> rg_gauges r) ++
  mjoin (expose_histogram <$> rg_histograms r).

End Expose.

(** ** History *)

Definition Sample : Type := Z * spec_float.

Record HistoryStore := mkHistoryStore {
  hs_data : gmap string (list Sample);
  hs_retention : Z;
}.

Definition NewHistoryStore (retention : Z) : HistoryStore := mkHistoryStore ∅ retention.

Fixpoint evict_before (cutoff : Z) (l : list Sample) : list Sample :=
  match l with
  | [] => []
  | s :: l' => if s.1 <? cutoff then evict_before cutoff l' else l
  end.

Definition recordSample (now : Z) (h : HistoryStore) (values : gmap string spec_float) : HistoryStore :=
  let cutoff := now - hs_retention h in
  mkHistoryStore
    (merge (λ samples val,
        match val with
        | None => samples
        | Some val => Some (evict_before cutoff (default [] samples) ++ [(now, val)])
        end) (hs_data h) values) (hs_retention h).

Definition History_Range (h : HistoryStore) (since : Z) : gmap string (list Sample) :=
  omap (λ samples, match filter (λ s, since <= s.1) samples with [] => None | l => Some l end) (hs_data h).

Definition History_RangeSorted (h : HistoryStore) (since : Z) : list (string * list Sample) :=
  let data := History_Range h since in
  omap (λ name, (name,.) <$> data !! name) (merge_sort String.le (elements (dom data))).

Definition History_Snapshot (h : HistoryStore) (metric : string) : option (list Sample) := hs_data h !! metric.

(** ** Label values *)

(** What a reader of the text format does with a quoted value. *)
Fixpoint unescape_label (s : bytes) : option bytes :=
  match s with
  | [] => Some []
  | Byte.x5c :: Byte.x5c :: s => (Byte.x5c ::.) <$> unescape_label s
  | Byte.x5c :: Byte.x22 :: s => (Byte.x22 ::.) <$> unescape_label s
  | Byte.x5c :: Byte.x6e :: s => (Byte.x0a ::.) <$> unescape_label s
  | Byte.x5c :: _ | Byte.x22 :: _ | Byte.x0a :: _ => None
  | b :: s => (b ::.) <$> unescape_label s
  end.

Definition escape_byte (b : Init.Byte.byte) : bytes := escape_label_rune [b].

Lemma rune_bytes_plain s n :
  rune_len s = S (S n) → Forall (λ b, bval b <? 0x80 = false) (take (S (S n)) s).
Proof.
  assert (∀ lo hi b, in_range lo hi b = true → 0x80 <= lo → bval b <? 0x80 = false) as Hr.
  { intros lo hi b Hb Hlo. unfold in_range in Hb. z_bool. apply Z.ltb_ge. lia. }
  destruct s as [|a s]; [done|]. unfold rune_len. destruct (bval a <? 0x80) eqn:Ea; [done|].
  destruct s as [|b s]; [done|]. destruct (in_range 0xC2 0xDF a).
  { destruct (in_range 0x80 0xBF b) eqn:Eb; [|done]. intros [= <-]. cbn.
    constructor; [done|]. constructor; [by eapply Hr|constructor]. }
  destruct s as [|c s]; [done|]. destruct (in_range 0xE0 0xEF a).
  { cbv zeta. destruct (in_range _ _ b && in_range 0x80 0xBF c) eqn:Eb; [|done]. apply andb_prop in Eb as [Eb Ec].
    intros [= <-]. cbn. constructor; [done|]. constructor; [eapply Hr; [done|destruct (bval a =? 0xE0); lia]|].
    constructor; [by eapply Hr|constructor]. }
  destruct s as [|d s]; [done|]. destruct (in_range 0xF0 0xF4 a); [|done]. cbv zeta.
  destruct (in_range _ _ b && in_range 0x80 0xBF c && in_range 0x80 0xBF d) eqn:Eb; [|done].
  apply andb_prop in Eb as [Eb Ed]. apply andb_prop in Eb as [Eb Ec]. intros [= <-]. cbn.
  constructor; [done|]. constructor; [eapply Hr; [done|destruct (bval a =? 0xF0); lia]|].
  constructor; [by eapply Hr|]. constructor; [by eapply Hr|constructor].
Qed.

Lemma escape_byte_high b : bval b <? 0x80 = false → escape_byte b = [b].
Proof. destruct b; try discriminate; done. Qed.

Lemma escape_bytes_high c : Forall (λ b, bval b <? 0x80 = false) c → c ≫= escape_byte = c.
Proof. induction 1 as [|b c Hb _ IH]; [done|]. cbn [mbind list_bind]. rewrite escape_byte_high by done. cbn. by rewrite IH. Qed.

(** On valid UTF-8 the escape works byte by byte. *)
Lemma escape_label_bytes fuel s :
  (length s <= fuel)%nat → utf8_valid_fuel fuel s = true → escape_label_fuel fuel s = s ≫= escape_byte.
Proof.
  revert s. induction fuel as [|fuel IH]; intros [|a s] Hl Hv; try done.
  cbn [escape_label_fuel utf8_valid_fuel] in *. destruct (rune_len (a :: s)) as [|n] eqn:En; [done|].
  assert (length (drop (S n) (a :: s)) <= fuel)%nat as Hd by (rewrite length_drop; cbn in *; lia).
  rewrite (IH _ Hd Hv). rewrite <- (take_drop (S n) (a :: s)) at 3. rewrite bind_app. f_equal.
  destruct n as [|n].
  - cbn. by rewrite app_nil_r.
  - rewrite escape_bytes_high by by apply rune_bytes_plain.
    pose proof (rune_len_le (a :: s)) as Hle. rewrite En in Hle. destruct s as [|b s]; [cbn in Hle; lia|]. cbn. by destruct a, b.
Qed.

Lemma unescape_escape_bytes s : unescape_label (s ≫= escape_byte) = Some s.
Proof.
  induction s as [|b s IH]; [done|]. cbn [mbind list_bind].
  change (escape_byte b ++ (s ≫= escape_byte)) with (escape_byte b ++ (s ≫= escape_byte)).
  destruct b; cbn [escape_byte escape_label_rune app unescape_label]; rewrite IH; done.
Qed.

(** A label value reads back, and as it holds no raw quote or line end it
    cannot break out of its line. *)
Lemma label_value_roundtrip s : utf8_valid s = true → unescape_label (escapeLabelValue s) = Some s.
Proof. intros Hv. unfold escapeLabelValue. rewrite escape_label_bytes by done. apply unescape_escape_bytes. Qed.

(** ** Histograms *)

Definition at_most (vs : list spec_float) (bound : spec_float) : Z :=
  zlen (List.filter (λ v, SFleb v bound) vs).

Lemma observe_counts h vs :
  hi_counts h = replicate (length (hi_buckets h)) 0 → zlen vs < 2 ^ 64 →
  hi_counts (foldl Histogram_Observe h vs) = at_most vs <$> hi_buckets h ∧
  hi_buckets (foldl Histogram_Observe h vs) = hi_buckets h.
Proof.
  intros H0. induction vs as [|v vs IH] using rev_ind.
  { intros _. split; [|done]. cbn [foldl]. rewrite H0. clear H0. induction (hi_buckets h) as [|b bs IHb]; [done|].
    cbn [length replicate fmap list_fmap]. f_equal. exact IHb. }
  rewrite zlen_app. change (zlen [v]) with 1. intros Hl. destruct IH as [IH1 IH2]; [lia|]. rewrite foldl_app. cbn [foldl].
  split; [|exact IH2]. cbn [hi_counts Histogram_Observe]. rewrite IH1, IH2.
  assert (∀ bound, at_most (vs ++ [v]) bound = if SFleb v bound then at_most vs bound + 1 else at_most vs bound) as Ha.
  { intros bound. unfold at_most. rewrite List.filter_app, zlen_app. cbn. destruct (SFleb v bound); [done|]. change (zlen []) with 0. lia. }
  assert (∀ bound, 0 <= at_most vs bound <= zlen vs) as Hb.
  { intros bound. unfold at_most, zlen. pose proof (List.filter_length_le (λ v, SFleb v bound) vs). lia. }
  clear IH1 IH2 H0. induction (hi_buckets h) as [|b bs IHb]; [done|]. cbn. rewrite Ha. f_equal; [|exact IHb].
  destruct (SFleb v b); [|done]. unfold u64. rewrite Z.mod_small; [done|]. specialize (Hb b). lia.
Qed.

(** The counts are cumulative already and are summed once more when they are
    shown: one value below every bound appears [k] times in the [k]-th bucket. *)
Lemma histogram_double_counts h v :
  hi_counts h = replicate (length (hi_buckets h)) 0 → Forall (λ b, SFleb v b = true) (hi_buckets h) →
  zlen (hi_buckets h) < 2 ^ 64 →
  cumulate 0 (hi_counts (Histogram_Observe h v)) = seqZ 1 (zlen (hi_buckets h)).
Proof.
  intros H0 Hb Hl. cbn. rewrite H0.
  assert (zip_with (λ bound n, if SFleb v bound then u64 (n + 1) else n) (hi_buckets h)
            (replicate (length (hi_buckets h)) 0) = replicate (length (hi_buckets h)) 1) as ->.
  { clear H0 Hl. induction Hb as [|b bs Hv _ IH]; [done|]. cbn. rewrite Hv. f_equal. exact IH. }
  unfold zlen in *. clear H0 Hb.
  assert (∀ n acc, 0 <= acc → acc + Z.of_nat n < 2 ^ 64 → cumulate acc (replicate n 1) = seqZ (acc + 1) (Z.of_nat n)) as Hg.
  { induction n as [|n IH]; intros acc Ha Hlt; [done|]. cbn [replicate cumulate].
    unfold u64. rewrite Z.mod_small by lia. rewrite IH by lia. rewrite (seqZ_cons (acc + 1)) by lia. f_equal. f_equal; lia. }
  apply (Hg _ 0); lia.
Qed.

(** A counter whose name does not end in [_total] is announced under one name
    and shown under another. *)
Lemma gc_counter_misnamed :
  counterName (bytes_of_string "go_gc_duration_seconds_count") = bytes_of_string "go_gc_duration_seconds_count_total".
Proof. by vm_compute. Qed.

(** ** The history within its window *)

Definition history_run (h : HistoryStore) (rs : list (Z * gmap string spec_float)) : HistoryStore :=
  foldl (λ h r, recordSample r.1 h r.2) h rs.

(** Everything ever recorded for a metric. *)
Definition all_samples (rs : list (Z * gmap string spec_float)) (name : string) : list Sample :=
  omap (λ r, (r.1,.) <$> r.2 !! name) rs.

Lemma evict_before_spec cutoff l : ∃ gone, l = gone ++ evict_before cutoff l ∧ Forall (λ s, s.1 < cutoff) gone.
Proof.
  induction l as [|s l IH]; [by exists []|]. cbn. destruct (Z.ltb_spec s.1 cutoff); [|by exists []].
  destruct IH as (gone & Hl & Hg). exists (s :: gone). split; [by rewrite Hl at 1|by constructor].
Qed.

Lemma history_kept retention rs name last :
  Sorted Z.le (rs.*1) → Forall (λ t, t <= last) rs.*1 →
  ∃ gone, all_samples rs name = gone ++ default [] (hs_data (history_run (NewHistoryStore retention) rs) !! name) ∧
    Forall (λ s, s.1 < last - retention) gone.
Proof.
  revert last. induction rs as [|[now values] rs IH] using rev_ind; intros last Hs Hl.
  { exists []. split; [|done]. cbn. by rewrite lookup_empty. }
  rewrite fmap_app in Hs, Hl. cbn in Hs, Hl. apply Forall_app in Hl as [Hl Hn]. inversion_clear Hn as [|? ? Hn' _].
  assert (Sorted Z.le rs.*1 ∧ Forall (λ t, t <= now) rs.*1) as [Hs' Hl'].
  { apply (Sorted_StronglySorted _) in Hs. apply StronglySorted_app in Hs as (Hc & H1 & _).
    split; [by apply StronglySorted_Sorted|]. apply Forall_forall. intros t Ht. apply Hc; [done|set_solver]. }
  destruct (IH now Hs' Hl') as (gone & Ha & Hg).
  assert (hs_retention (history_run (NewHistoryStore retention) rs) = retention) as Hret.
  { unfold history_run. clear. change retention with (hs_retention (NewHistoryStore retention)) at 2.
    generalize (NewHistoryStore retention). induction rs as [|r rs IH]; intros h; [done|]. cbn. by rewrite IH. }
  assert (Forall (λ s : Sample, s.1 < last - retention) gone) as Hg'.
  { eapply Forall_impl; [exact Hg|]. cbn. intros s Hlt. lia. }
  unfold all_samples in *. rewrite omap_app, Ha. cbn [omap list_omap fst snd].
  unfold history_run. rewrite foldl_app. cbn [foldl fst snd]. fold (history_run (NewHistoryStore retention) rs).
  unfold recordSample. cbn [hs_data]. rewrite lookup_merge, Hret. destruct (values !! name) as [v|]; cbn.
  - destruct (evict_before_spec (now - retention) (default [] (hs_data (history_run (NewHistoryStore retention) rs) !! name)))
      as (gone2 & He & Hg2).
    exists (gone ++ gone2). split.
    + rewrite He at 1. destruct (hs_data _ !! name); cbn; by rewrite <- !app_assoc.
    + apply Forall_app. split; [done|]. eapply Forall_impl; [exact Hg2|]. cbn. intros s Hlt. lia.
  - exists gone. split; [|done]. rewrite app_nil_r. by destruct (hs_data _ !! name).
Qed.

(** The eviction is not seen: for any start within the retention the range of
    a metric is what was recorded for it since. *)
Lemma history_range_exact retention rs name last since :
  Sorted Z.le (rs.*1) → Forall (λ t, t <= last) rs.*1 → last - retention <= since →
  default [] (History_Range (history_run (NewHistoryStore retention) rs) since !! name) =
    filter (λ s, since <= s.1) (all_samples rs name).
Proof.
  intros Hs Hl Hr. destruct (history_kept retention rs name last Hs Hl) as (gone & -> & Hg).
  rewrite filter_app.
  match goal with |- _ = filter ?P gone ++ _ => assert (filter P gone = []) as Hn end.
  { clear Hs Hl. induction Hg as [|s gone Hlt _ IH]; [done|]. rewrite filter_cons, decide_False by lia. done. }
  etrans; [|symmetry; apply (f_equal (λ l, l ++ _)); exact Hn]. cbn [app].
  unfold History_Range. rewrite lookup_omap. destruct (hs_data _ !! name) as [l|]; [|done]. cbn.
  match goal with |- default [] (match ?x with _ => _ end) = _ => destruct x eqn:Ef end; symmetry; exact Ef.
Qed.
