(* ===== verification/RuntimeFigures.v ===== *)
(** * Figures of the process: [runtime_metrics.go], [runtime_metrics_linux.go] of [internal/broker] and [cpu_linux.go] of [internal/metrics]

    What the files of [/proc] say and how it becomes a metric.  The content
    of a file is an argument, [None] when it cannot be opened; so are the
    numbers of the Go runtime. *)

From Stdlib Require Import SpecFloat.
From S2P Require Import Prelude GoLib Json StringsLib RateLimit Metrics.

Local Open Scope Z_scope.

Section Figures.
Context (unicode_fields : bytes → list bytes).

(** The two numbers of the first line of [/proc/self/stat]. *)
Definition stat_ticks (file : option bytes) : option (Z * Z) :=
  content ← file;
  line ← head (scan_lines content);
  let fields := Fields unicode_fields line in
  if zlen fields <? 16 then None
  else
    utime ← fields !! 13%nat ≫= (λ f, ParseInt (string_of_bytes f));
    stime ← fields !! 14%nat ≫= (λ f, ParseInt (string_of_bytes f));
    Some (utime, stime).

Definition ReadCPUTime (file : option bytes) : spec_float :=
  match stat_ticks file with
  | None => f64_of_int 0
  | Some (utime, stime) => f64_div (f64_of_int (i64 (utime + stime))) (f64_of_int 100)
  end.

(** [lastProcCPUSeconds] is the first component. *)
Definition readCPUTimeDelta (last : Z) (file : option bytes) : Z * spec_float :=
  match stat_ticks file with
  | None => (last, f64_of_int 0)
  | Some (utime, stime) =>
      let totalNano := i64 (i64 (utime + stime) * 10000000) in
      (totalNano,
       if last =? 0 then f64_of_int 0
       else
         let deltaNano := i64 (totalNano - last) in
         if deltaNano <? 0 then f64_of_int 0 else f64_div (f64_of_int deltaNano) (f64_of_int 1000000000))
  end.

(** The first line that begins with [VmRSS:] decides. *)
Definition ReadResidentMemory (file : option bytes) (sys : Z) : spec_float :=
  match file with
  | None => f64_of_int sys
  | Some content =>
      match List.find (λ l, bool_decide (take 6 l = str "VmRSS:")) (scan_lines content) with
      | None => f64_of_int sys
      | Some line =>
          match Fields unicode_fields line with
          | _ :: f :: _ =>
              match ParseInt (string_of_bytes f) with
              | Some kb => f64_of_int (i64 (kb * 1024))
              | None => f64_of_int sys
              end
          | _ => f64_of_int sys
          end
      end
  end.

End Figures.

Definition readResidentMemory (sys : Z) : spec_float := f64_of_int sys.

(** [lastGCCount] is the first component. *)
Definition readGCCountDelta (last cur : Z) : Z * Z := (cur, if last <? cur then cur - last else 0).

(** ** What the figures add up to *)

Fixpoint gc_deltas (last : Z) (curs : list Z) : list Z :=
  match curs with
  | [] => []
  | cur :: curs => let '(last, d) := readGCCountDelta last cur in d :: gc_deltas last curs
  end.

(** The counter of collections is exact: over any scrapes its increments add
    up to the collections so far. *)
Lemma gc_deltas_exact curs last :
  Sorted Z.le (last :: curs) → foldr Z.add 0 (gc_deltas last curs) = default last (list.last curs) - last.
Proof.
  revert last. induction curs as [|cur curs IH]; intros last Hs; [cbn; lia|].
  inversion Hs as [|? ? Hs' Hh]. subst. inversion Hh as [|? ? Hle]. subst. cbn [gc_deltas readGCCountDelta foldr].
  rewrite (IH cur Hs'). assert ((if last <? cur then cur - last else 0) = cur - last) as -> by (destruct (Z.ltb_spec last cur); lia).
  destruct curs as [|c curs]; cbn; [lia|]. destruct (list.last (c :: curs)) eqn:E; [cbn; lia|]. by apply last_None in E.
Qed.

(** The first call counts every collection before it, from a baseline of
    nought. *)
Lemma gc_first_call cur : 0 < cur → (readGCCountDelta 0 cur).2 = cur.
Proof. intros H. unfold readGCCountDelta. cbn. destruct (Z.ltb_spec 0 cur); lia. Qed.

(** [process_cpu_seconds_total] is no total: it is set to the seconds since
    the last scrape, nought at the first, and falls when less was used. *)
Lemma cpu_total_falls unicode_fields file last utime stime :
  stat_ticks unicode_fields file = Some (utime, stime) → last = i64 (i64 (utime + stime) * 10000000) →
  (readCPUTimeDelta unicode_fields last file).2 = f64_of_int 0.
Proof.
  intros Hs Hl. unfold readCPUTimeDelta. rewrite Hs. cbn [snd]. rewrite <- Hl. destruct (last =? 0); [done|].
  rewrite Z.sub_diag. done.
Qed.

(** A name of the process with a blank in it shifts the fields: the times are
    read off by one. *)
Lemma blank_in_name :
  let stat name := Some (str ("1 (" +:+ name +:+ ") S 0 1 1 0 -1 4194560 100 0 7 0 500 300 0 0 20 0 10 0")) in
  stat_ticks (λ _, []) (stat "broker") = Some (500, 300) ∧ stat_ticks (λ _, []) (stat "my broker") = Some (0, 500).
Proof. split; vm_compute; reflexivity. Qed.
