(* ===== verification/Config.v ===== *)
(** * Configuration: [internal/config/config.go]

    The settings with their JSON tags, read over the defaults and validated.
    [HotReload] has the loader and the changes of a running broker. *)

From S2P Require Import Prelude GoLib Json JsonIndent Types Protocol WireJson WireReply Segment PartitionLog Compactor.
From S2P Require Import Partition Topic RateLimit Auth AuditLog.

Local Open Scope Z_scope.

(** ** Reading over a value

    A field the document does not name keeps its value, and so does [null]
    for a field that is no slice and no pointer. *)

Definition def_str (k : string) (d : string) (l : list (bytes * json)) : option string :=
  match jfield k l with
  | None | Some JNull => Some d
  | Some (JStr s) => Some (string_of_bytes s)
  | _ => None
  end.

Definition def_int (lo hi : Z) (k : string) (d : Z) (l : list (bytes * json)) : option Z :=
  match jfield k l with
  | None | Some JNull => Some d
  | Some (JNum z) => if (lo <=? z) && (z <=? hi) then Some z else None
  | _ => None
  end.

Definition def_bool (k : string) (d : bool) (l : list (bytes * json)) : option bool :=
  match jfield k l with
  | None | Some JNull => Some d
  | Some (JBool b) => Some b
  | _ => None
  end.

Definition def_obool (k : string) (d : option bool) (l : list (bytes * json)) : option (option bool) :=
  match jfield k l with
  | None => Some d
  | Some JNull => Some None
  | Some (JBool b) => Some (Some b)
  | _ => None
  end.

Definition def_strs (k : string) (d : list string) (l : list (bytes * json)) : option (list string) :=
  match jfield k l with
  | None => Some d
  | Some _ => get_strs k l
  end.

Definition def_objs {A} (f : list (bytes * json) → option A) (k : string) (d : list A) (l : list (bytes * json)) :
    option (list A) :=
  match jfield k l with
  | None => Some d
  | Some _ => get_objs f k l
  end.

Definition def_struct {A} (f : A → list (bytes * json) → option A) (k : string) (d : A) (l : list (bytes * json)) :
    option A :=
  match jfield k l with
  | None | Some JNull => Some d
  | Some (JObj m) => f d m
  | _ => None
  end.

(** A [*bool] with [omitempty]. *)
Definition put_obool (k : string) (o : option bool) : list (bytes * json) :=
  match o with
  | Some b => put k (JBool b)
  | None => []
  end.

Lemma jfield_obool k k' o l :
  jfield k (put_obool k' o ++ l) =
    match jfield k l with
    | Some x => Some x
    | None => if (k' =? k)%string then JBool <$> o else None
    end.
Proof.
  destruct o as [z|]; cbn [put_obool].
  - rewrite jfield_put. by destruct (jfield k l), (k' =? k)%string.
  - simpl. by destruct (jfield k l), (k' =? k)%string.
Qed.

Lemma members_valid_obool k o l :
  str_valid k = true → json_valid (JObj (put_obool k o ++ l)) = json_valid (JObj l).
Proof. intros Hk. destruct o; [|done]. cbn [put_obool]. by rewrite members_valid_put, Hk. Qed.

Lemma def_str_eq k d l s : jfield k l = Some (jstr s) → def_str k d l = Some s.
Proof. intros H. unfold def_str. rewrite H. cbn [jstr]. by rewrite string_of_bytes_of_string. Qed.

Lemma def_int_eq lo hi k d l z : jfield k l = Some (JNum z) → lo <= z <= hi → def_int lo hi k d l = Some z.
Proof.
  intros H Hz. unfold def_int. rewrite H.
  by replace ((lo <=? z) && (z <=? hi)) with true by (symmetry; apply andb_true_intro; lia).
Qed.

Lemma def_bool_eq k d l b : jfield k l = Some (JBool b) → def_bool k d l = Some b.
Proof. intros H. unfold def_bool. by rewrite H. Qed.

Lemma def_obool_eq k l o : jfield k l = JBool <$> o → def_obool k None l = Some o.
Proof. intros H. unfold def_obool. rewrite H. by destruct o. Qed.

Lemma def_strs_eq k d l xs : jfield k l = Some (jstrs xs) → def_strs k d l = Some xs.
Proof.
  intros H. unfold def_strs. rewrite H. apply (get_strs_eq k l xs false); done.
Qed.

Lemma def_objs_eq {A} (f : list (bytes * json) → option A) g k d l xs :
  jfield k l = Some (jobjs g xs) → Forall (λ x, f (g x) = Some x) xs → def_objs f k d l = Some xs.
Proof. intros H Hf. unfold def_objs. rewrite H. by apply (get_objs_eq f g). Qed.

Lemma def_struct_eq {A} (f : A → list (bytes * json) → option A) g k d l x :
  jfield k l = Some (JObj (g x)) → f d (g x) = Some x → def_struct f k d l = Some x.
Proof. intros H Hf. unfold def_struct. by rewrite H. Qed.

Ltac conf_eval :=
  repeat first [rewrite jfield_put | rewrite jfield_obool | rewrite jfield_omit | rewrite jfield_nil];
  cbn [String.eqb Ascii.eqb Bool.eqb andb negb]; cbv iota.

Ltac conf_solve :=
  first [ done | lia | by conf_eval | conf_eval; by match goal with |- context [JBool <$> ?o] => destruct o end ].

Create HintDb conf.

(** ** API keys *)

Definition APIKeyEntry_fields (c : APIKeyEntry) : list (bytes * json) :=
  put "key" (jstr (ak_Key c)) ++
  put "client_id" (jstr (ak_ClientID c)) ++
  put_omit (bool_decide (ak_Role c = EmptyString)) "role" (jstr (ak_Role c)) ++
  put_omit (bool_decide (ak_Topics c = [])) "topics" (jstrs (ak_Topics c)) ++
  put_omit (bool_decide (ak_Permissions c = [])) "permissions" (jstrs (ak_Permissions c)) ++ [].

Definition APIKeyEntry_of (l : list (bytes * json)) : option APIKeyEntry :=
  x0 ← get_str "key" l;
  x1 ← get_str "client_id" l;
  x2 ← get_str "role" l;
  x3 ← get_strs "topics" l;
  x4 ← get_strs "permissions" l;
  Some (mkAPIKeyEntry x0 x1 x4 x2 x3).

Definition APIKeyEntry_wf (c : APIKeyEntry) : Prop :=
  str_valid (ak_Key c) = true ∧ str_valid (ak_ClientID c) = true ∧ str_valid (ak_Role c) = true ∧
  Forall (λ s, str_valid s = true) (ak_Topics c) ∧ Forall (λ s, str_valid s = true) (ak_Permissions c).

Lemma APIKeyEntry_of_fields c : APIKeyEntry_wf c → APIKeyEntry_of (APIKeyEntry_fields c) = Some c.
Proof.
  intros (H0 & H1 & H2 & H3 & H4). unfold APIKeyEntry_of, APIKeyEntry_fields.
  rewrite (get_str_eq "key" _ (ak_Key c) false) by wire_solve.
  rewrite (get_str_eq "client_id" _ (ak_ClientID c) false) by wire_solve.
  rewrite (get_str_eq "role" _ (ak_Role c) (bool_decide (ak_Role c = EmptyString))) by wire_solve.
  rewrite (get_strs_eq "topics" _ (ak_Topics c) (bool_decide (ak_Topics c = []))) by wire_solve.
  rewrite (get_strs_eq "permissions" _ (ak_Permissions c) (bool_decide (ak_Permissions c = []))) by wire_solve.
  by destruct c.
Qed.

Lemma APIKeyEntry_valid c : APIKeyEntry_wf c → json_valid (JObj (APIKeyEntry_fields c)) = true.
Proof. intros (H0 & H1 & H2 & H3 & H4). unfold APIKeyEntry_fields. reply_valid. Qed.

Lemma keys_of_fields ks : Forall APIKeyEntry_wf ks → Forall (λ k, APIKeyEntry_of (APIKeyEntry_fields k) = Some k) ks.
Proof. intros H. eapply Forall_impl; [exact H|]. apply APIKeyEntry_of_fields. Qed.

Lemma keys_valid ks : Forall APIKeyEntry_wf ks → json_valid (jobjs APIKeyEntry_fields ks) = true.
Proof. intros H. apply jobjs_valid. eapply Forall_impl; [exact H|]. apply APIKeyEntry_valid. Qed.

#[export] Hint Resolve keys_valid jstrs_valid : conf.

Ltac conf_known t := let E := fresh in assert (t = true) as E by (auto with conf); rewrite E; clear E.

Ltac conf_valid :=
  repeat first [rewrite members_valid_put | rewrite members_valid_obool by reflexivity];
  repeat match goal with
  | |- context [json_valid (JObj (?f ?c))] => conf_known (json_valid (JObj (f c)))
  | |- context [json_valid (jobjs ?f ?c)] => conf_known (json_valid (jobjs f c))
  | |- context [json_valid (jstrs ?c)] => conf_known (json_valid (jstrs c))
  end;
  unfold str_valid in *; cbn [json_valid jstr];
  repeat match goal with H : utf8_valid _ = true |- _ => rewrite H end; reflexivity.

(** ** BrokerConfig *)

Record BrokerConfig := mkBrokerConfig {
  bcf_NodeID : string;
}.

Definition BrokerConfig_fields (c : BrokerConfig) : list (bytes * json) :=
  put "node_id" (jstr (bcf_NodeID c)) ++ [].

Definition BrokerConfig_of (d : BrokerConfig) (l : list (bytes * json)) : option BrokerConfig :=
  x0 ← def_str "node_id" (bcf_NodeID d) l;
  Some (mkBrokerConfig x0).

Definition BrokerConfig_wf (c : BrokerConfig) : Prop :=
  str_valid (bcf_NodeID c) = true.

Lemma BrokerConfig_of_fields d c : BrokerConfig_wf c → BrokerConfig_of d (BrokerConfig_fields c) = Some c.
Proof.
  intros H0. unfold BrokerConfig_wf in H0. unfold BrokerConfig_of, BrokerConfig_fields. wire_bounds.
  rewrite (def_str_eq "node_id" _ _ (bcf_NodeID c)) by conf_solve.
  by destruct c.
Qed.

Lemma BrokerConfig_valid c : BrokerConfig_wf c → json_valid (JObj (BrokerConfig_fields c)) = true.
Proof. intros H0. unfold BrokerConfig_wf in H0. unfold BrokerConfig_fields. conf_valid. Qed.

#[export] Hint Resolve BrokerConfig_valid : conf.

(** ** NetworkConfig *)

Record NetworkConfig := mkNetworkConfig {
  nw_Host : string;
  nw_Port : Z;
  nw_MaxConnections : Z;
  nw_ReadTimeout : Z;
  nw_WriteTimeout : Z;
  nw_IdleTimeout : Z;
  nw_TLSCertFile : string;
  nw_TLSKeyFile : string;
  nw_TLSMinVersion : Z;
  nw_PprofEnabled : bool;
  nw_DashboardEnabled : bool;
  nw_ExplorerEnabled : bool;
  nw_ExplorerMaxConnections : Z;
  nw_DashboardAuthEnabled : option bool;
  nw_DashboardSessionTTL : Z;
  nw_DashboardLoginRateLimitPerMinute : Z;
}.

Definition NetworkConfig_fields (c : NetworkConfig) : list (bytes * json) :=
  put "host" (jstr (nw_Host c)) ++
  put "port" (JNum (nw_Port c)) ++
  put "max_connections" (JNum (nw_MaxConnections c)) ++
  put "read_timeout" (JNum (nw_ReadTimeout c)) ++
  put "write_timeout" (JNum (nw_WriteTimeout c)) ++
  put "idle_timeout" (JNum (nw_IdleTimeout c)) ++
  put "tls_cert_file" (jstr (nw_TLSCertFile c)) ++
  put "tls_key_file" (jstr (nw_TLSKeyFile c)) ++
  put "tls_min_version" (JNum (nw_TLSMinVersion c)) ++
  put "pprof_enabled" (JBool (nw_PprofEnabled c)) ++
  put "dashboard_enabled" (JBool (nw_DashboardEnabled c)) ++
  put "explorer_enabled" (JBool (nw_ExplorerEnabled c)) ++
  put "explorer_max_connections" (JNum (nw_ExplorerMaxConnections c)) ++
  put_obool "dashboard_auth_enabled" (nw_DashboardAuthEnabled c) ++
  put "dashboard_session_ttl" (JNum (nw_DashboardSessionTTL c)) ++
  put "dashboard_login_rate_limit_per_minute" (JNum (nw_DashboardLoginRateLimitPerMinute c)) ++ [].

Definition NetworkConfig_of (d : NetworkConfig) (l : list (bytes * json)) : option NetworkConfig :=
  x0 ← def_str "host" (nw_Host d) l;
  x1 ← def_int i64_min i64_max "port" (nw_Port d) l;
  x2 ← def_int i64_min i64_max "max_connections" (nw_MaxConnections d) l;
  x3 ← def_int i64_min i64_max "read_timeout" (nw_ReadTimeout d) l;
  x4 ← def_int i64_min i64_max "write_timeout" (nw_WriteTimeout d) l;
  x5 ← def_int i64_min i64_max "idle_timeout" (nw_IdleTimeout d) l;
  x6 ← def_str "tls_cert_file" (nw_TLSCertFile d) l;
  x7 ← def_str "tls_key_file" (nw_TLSKeyFile d) l;
  x8 ← def_int 0 65535 "tls_min_version" (nw_TLSMinVersion d) l;
  x9 ← def_bool "pprof_enabled" (nw_PprofEnabled d) l;
  x10 ← def_bool "dashboard_enabled" (nw_DashboardEnabled d) l;
  x11 ← def_bool "explorer_enabled" (nw_ExplorerEnabled d) l;
  x12 ← def_int i64_min i64_max "explorer_max_connections" (nw_ExplorerMaxConnections d) l;
  x13 ← def_obool "dashboard_auth_enabled" (nw_DashboardAuthEnabled d) l;
  x14 ← def_int i64_min i64_max "dashboard_session_ttl" (nw_DashboardSessionTTL d) l;
  x15 ← def_int i64_min i64_max "dashboard_login_rate_limit_per_minute" (nw_DashboardLoginRateLimitPerMinute d) l;
  Some (mkNetworkConfig x0 x1 x2 x3 x4 x5 x6 x7 x8 x9 x10 x11 x12 x13 x14 x15).

Definition NetworkConfig_wf (c : NetworkConfig) : Prop :=
  str_valid (nw_Host c) = true ∧
  is_i64 (nw_Port c) ∧
  is_i64 (nw_MaxConnections c) ∧
  is_i64 (nw_ReadTimeout c) ∧
  is_i64 (nw_WriteTimeout c) ∧
  is_i64 (nw_IdleTimeout c) ∧
  str_valid (nw_TLSCertFile c) = true ∧
  str_valid (nw_TLSKeyFile c) = true ∧
  0 <= (nw_TLSMinVersion c) <= 65535 ∧
  is_i64 (nw_ExplorerMaxConnections c) ∧
  is_i64 (nw_DashboardSessionTTL c) ∧
  is_i64 (nw_DashboardLoginRateLimitPerMinute c).

Lemma NetworkConfig_of_fields d c : nw_DashboardAuthEnabled d = None → NetworkConfig_wf c → NetworkConfig_of d (NetworkConfig_fields c) = Some c.
Proof.
  intros Hd. intros (H0 & H1 & H2 & H3 & H4 & H5 & H6 & H7 & H8 & H9 & H10 & H11). unfold NetworkConfig_of, NetworkConfig_fields. wire_bounds. rewrite Hd.
  rewrite (def_str_eq "host" _ _ (nw_Host c)) by conf_solve.
  rewrite (def_int_eq _ _ "port" _ _ (nw_Port c)) by conf_solve.
  rewrite (def_int_eq _ _ "max_connections" _ _ (nw_MaxConnections c)) by conf_solve.
  rewrite (def_int_eq _ _ "read_timeout" _ _ (nw_ReadTimeout c)) by conf_solve.
  rewrite (def_int_eq _ _ "write_timeout" _ _ (nw_WriteTimeout c)) by conf_solve.
  rewrite (def_int_eq _ _ "idle_timeout" _ _ (nw_IdleTimeout c)) by conf_solve.
  rewrite (def_str_eq "tls_cert_file" _ _ (nw_TLSCertFile c)) by conf_solve.
  rewrite (def_str_eq "tls_key_file" _ _ (nw_TLSKeyFile c)) by conf_solve.
  rewrite (def_int_eq _ _ "tls_min_version" _ _ (nw_TLSMinVersion c)) by conf_solve.
  rewrite (def_bool_eq "pprof_enabled" _ _ (nw_PprofEnabled c)) by conf_solve.
  rewrite (def_bool_eq "dashboard_enabled" _ _ (nw_DashboardEnabled c)) by conf_solve.
  rewrite (def_bool_eq "explorer_enabled" _ _ (nw_ExplorerEnabled c)) by conf_solve.
  rewrite (def_int_eq _ _ "explorer_max_connections" _ _ (nw_ExplorerMaxConnections c)) by conf_solve.
  rewrite (def_obool_eq "dashboard_auth_enabled" _ (nw_DashboardAuthEnabled c)) by conf_solve.
  rewrite (def_int_eq _ _ "dashboard_session_ttl" _ _ (nw_DashboardSessionTTL c)) by conf_solve.
  rewrite (def_int_eq _ _ "dashboard_login_rate_limit_per_minute" _ _ (nw_DashboardLoginRateLimitPerMinute c)) by conf_solve.
  by destruct c.
Qed.

Lemma NetworkConfig_valid c : NetworkConfig_wf c → json_valid (JObj (NetworkConfig_fields c)) = true.
Proof. intros (H0 & H1 & H2 & H3 & H4 & H5 & H6 & H7 & H8 & H9 & H10 & H11). unfold NetworkConfig_fields. conf_valid. Qed.

#[export] Hint Resolve NetworkConfig_valid : conf.

(** ** ReplicationConfig *)

Record ReplicationConfig := mkReplicationConfig {
  rp_Factor : Z;
  rp_SyncInterval : Z;
  rp_AckTimeout : Z;
}.

Definition ReplicationConfig_fields (c : ReplicationConfig) : list (bytes * json) :=
  put "factor" (JNum (rp_Factor c)) ++
  put "sync_interval" (JNum (rp_SyncInterval c)) ++
  put "ack_timeout" (JNum (rp_AckTimeout c)) ++ [].

Definition ReplicationConfig_of (d : ReplicationConfig) (l : list (bytes * json)) : option ReplicationConfig :=
  x0 ← def_int i64_min i64_max "factor" (rp_Factor d) l;
  x1 ← def_int i64_min i64_max "sync_interval" (rp_SyncInterval d) l;
  x2 ← def_int i64_min i64_max "ack_timeout" (rp_AckTimeout d) l;
  Some (mkReplicationConfig x0 x1 x2).

Definition ReplicationConfig_wf (c : ReplicationConfig) : Prop :=
  is_i64 (rp_Factor c) ∧
  is_i64 (rp_SyncInterval c) ∧
  is_i64 (rp_AckTimeout c).

Lemma ReplicationConfig_of_fields d c : ReplicationConfig_wf c → ReplicationConfig_of d (ReplicationConfig_fields c) = Some c.
Proof.
  intros (H0 & H1 & H2). unfold ReplicationConfig_of, ReplicationConfig_fields. wire_bounds.
  rewrite (def_int_eq _ _ "factor" _ _ (rp_Factor c)) by conf_solve.
  rewrite (def_int_eq _ _ "sync_interval" _ _ (rp_SyncInterval c)) by conf_solve.
  rewrite (def_int_eq _ _ "ack_timeout" _ _ (rp_AckTimeout c)) by conf_solve.
  by destruct c.
Qed.

Lemma ReplicationConfig_valid c : ReplicationConfig_wf c → json_valid (JObj (ReplicationConfig_fields c)) = true.
Proof. intros (H0 & H1 & H2). unfold ReplicationConfig_fields. conf_valid. Qed.

#[export] Hint Resolve ReplicationConfig_valid : conf.

(** ** StorageConfig *)

Record StorageConfig := mkStorageConfig {
  so_WALPath : string;
  so_DataPath : string;
  so_SegmentMaxBytes : Z;
  so_IndexIntervalBytes : Z;
  so_SyncPolicy : string;
  so_WalBackpressureThreshold : Z;
}.

Definition StorageConfig_fields (c : StorageConfig) : list (bytes * json) :=
  put "wal_path" (jstr (so_WALPath c)) ++
  put "data_path" (jstr (so_DataPath c)) ++
  put "segment_max_bytes" (JNum (so_SegmentMaxBytes c)) ++
  put "index_interval_bytes" (JNum (so_IndexIntervalBytes c)) ++
  put "sync_policy" (jstr (so_SyncPolicy c)) ++
  put "wal_backpressure_threshold" (JNum (so_WalBackpressureThreshold c)) ++ [].

Definition StorageConfig_of (d : StorageConfig) (l : list (bytes * json)) : option StorageConfig :=
  x0 ← def_str "wal_path" (so_WALPath d) l;
  x1 ← def_str "data_path" (so_DataPath d) l;
  x2 ← def_int i64_min i64_max "segment_max_bytes" (so_SegmentMaxBytes d) l;
  x3 ← def_int i64_min i64_max "index_interval_bytes" (so_IndexIntervalBytes d) l;
  x4 ← def_str "sync_policy" (so_SyncPolicy d) l;
  x5 ← def_int i64_min i64_max "wal_backpressure_threshold" (so_WalBackpressureThreshold d) l;
  Some (mkStorageConfig x0 x1 x2 x3 x4 x5).

Definition StorageConfig_wf (c : StorageConfig) : Prop :=
  str_valid (so_WALPath c) = true ∧
  str_valid (so_DataPath c) = true ∧
  is_i64 (so_SegmentMaxBytes c) ∧
  is_i64 (so_IndexIntervalBytes c) ∧
  str_valid (so_SyncPolicy c) = true ∧
  is_i64 (so_WalBackpressureThreshold c).

Lemma StorageConfig_of_fields d c : StorageConfig_wf c → StorageConfig_of d (StorageConfig_fields c) = Some c.
Proof.
  intros (H0 & H1 & H2 & H3 & H4 & H5). unfold StorageConfig_of, StorageConfig_fields. wire_bounds.
  rewrite (def_str_eq "wal_path" _ _ (so_WALPath c)) by conf_solve.
  rewrite (def_str_eq "data_path" _ _ (so_DataPath c)) by conf_solve.
  rewrite (def_int_eq _ _ "segment_max_bytes" _ _ (so_SegmentMaxBytes c)) by conf_solve.
  rewrite (def_int_eq _ _ "index_interval_bytes" _ _ (so_IndexIntervalBytes c)) by conf_solve.
  rewrite (def_str_eq "sync_policy" _ _ (so_SyncPolicy c)) by conf_solve.
  rewrite (def_int_eq _ _ "wal_backpressure_threshold" _ _ (so_WalBackpressureThreshold c)) by conf_solve.
  by destruct c.
Qed.

Lemma StorageConfig_valid c : StorageConfig_wf c → json_valid (JObj (StorageConfig_fields c)) = true.
Proof. intros (H0 & H1 & H2 & H3 & H4 & H5). unfold StorageConfig_fields. conf_valid. Qed.

#[export] Hint Resolve StorageConfig_valid : conf.

(** ** RetentionConfig *)

Definition RetentionConfig_fields (c : RetentionConfig) : list (bytes * json) :=
  put "max_age_hours" (JNum (rt_MaxAgeHours c)) ++
  put "max_size_mb" (JNum (rt_MaxSizeMB c)) ++ [].

Definition RetentionConfig_of (d : RetentionConfig) (l : list (bytes * json)) : option RetentionConfig :=
  x0 ← def_int i64_min i64_max "max_age_hours" (rt_MaxAgeHours d) l;
  x1 ← def_int i64_min i64_max "max_size_mb" (rt_MaxSizeMB d) l;
  Some (mkRetentionConfig x0 x1).

Definition RetentionConfig_wf (c : RetentionConfig) : Prop :=
  is_i64 (rt_MaxAgeHours c) ∧
  is_i64 (rt_MaxSizeMB c).

Lemma RetentionConfig_of_fields d c : RetentionConfig_wf c → RetentionConfig_of d (RetentionConfig_fields c) = Some c.
Proof.
  intros (H0 & H1). unfold RetentionConfig_of, RetentionConfig_fields. wire_bounds.
  rewrite (def_int_eq _ _ "max_age_hours" _ _ (rt_MaxAgeHours c)) by conf_solve.
  rewrite (def_int_eq _ _ "max_size_mb" _ _ (rt_MaxSizeMB c)) by conf_solve.
  by destruct c.
Qed.

Lemma RetentionConfig_valid c : RetentionConfig_wf c → json_valid (JObj (RetentionConfig_fields c)) = true.
Proof. intros (H0 & H1). unfold RetentionConfig_fields. conf_valid. Qed.

#[export] Hint Resolve RetentionConfig_valid : conf.

(** ** AuthConfig *)

Definition AuthConfig_fields (c : AuthConfig) : list (bytes * json) :=
  put "enabled" (JBool (ac_Enabled c)) ++
  put "api_keys" (jobjs APIKeyEntry_fields (ac_APIKeys c)) ++ [].

Definition AuthConfig_of (d : AuthConfig) (l : list (bytes * json)) : option AuthConfig :=
  x0 ← def_bool "enabled" (ac_Enabled d) l;
  x1 ← def_objs APIKeyEntry_of "api_keys" (ac_APIKeys d) l;
  Some (mkAuthConfig x0 x1).

Definition AuthConfig_wf (c : AuthConfig) : Prop :=
  Forall APIKeyEntry_wf (ac_APIKeys c).

Lemma AuthConfig_of_fields d c : AuthConfig_wf c → AuthConfig_of d (AuthConfig_fields c) = Some c.
Proof.
  intros H0. unfold AuthConfig_wf in H0. unfold AuthConfig_of, AuthConfig_fields. wire_bounds.
  rewrite (def_bool_eq "enabled" _ _ (ac_Enabled c)) by conf_solve.
  rewrite (def_objs_eq APIKeyEntry_of APIKeyEntry_fields "api_keys" _ _ (ac_APIKeys c)) by (first [conf_solve|by apply keys_of_fields]).
  by destruct c.
Qed.

Lemma AuthConfig_valid c : AuthConfig_wf c → json_valid (JObj (AuthConfig_fields c)) = true.
Proof. intros H0. unfold AuthConfig_wf in H0. unfold AuthConfig_fields. conf_valid. Qed.

#[export] Hint Resolve AuthConfig_valid : conf.

(** ** RateLimitConfig *)

Definition RateLimitConfig_fields (c : RateLimitConfig) : list (bytes * json) :=
  put "enabled" (JBool (rl_Enabled c)) ++
  put "per_client_rps" (JNum (rl_PerClientRPS c)) ++
  put "per_topic_rps" (JNum (rl_PerTopicRPS c)) ++
  put "burst_multiplier" (JNum (rl_BurstMultiplier c)) ++ [].

Definition RateLimitConfig_of (d : RateLimitConfig) (l : list (bytes * json)) : option RateLimitConfig :=
  x0 ← def_bool "enabled" (rl_Enabled d) l;
  x1 ← def_int i64_min i64_max "per_client_rps" (rl_PerClientRPS d) l;
  x2 ← def_int i64_min i64_max "per_topic_rps" (rl_PerTopicRPS d) l;
  x3 ← def_int i64_min i64_max "burst_multiplier" (rl_BurstMultiplier d) l;
  Some (mkRateLimitConfig x0 x1 x2 x3).

Definition RateLimitConfig_wf (c : RateLimitConfig) : Prop :=
  is_i64 (rl_PerClientRPS c) ∧
  is_i64 (rl_PerTopicRPS c) ∧
  is_i64 (rl_BurstMultiplier c).

Lemma RateLimitConfig_of_fields d c : RateLimitConfig_wf c → RateLimitConfig_of d (RateLimitConfig_fields c) = Some c.
Proof.
  intros (H0 & H1 & H2). unfold RateLimitConfig_of, RateLimitConfig_fields. wire_bounds.
  rewrite (def_bool_eq "enabled" _ _ (rl_Enabled c)) by conf_solve.
  rewrite (def_int_eq _ _ "per_client_rps" _ _ (rl_PerClientRPS c)) by conf_solve.
  rewrite (def_int_eq _ _ "per_topic_rps" _ _ (rl_PerTopicRPS c)) by conf_solve.
  rewrite (def_int_eq _ _ "burst_multiplier" _ _ (rl_BurstMultiplier c)) by conf_solve.
  by destruct c.
Qed.

Lemma RateLimitConfig_valid c : RateLimitConfig_wf c → json_valid (JObj (RateLimitConfig_fields c)) = true.
Proof. intros (H0 & H1 & H2). unfold RateLimitConfig_fields. conf_valid. Qed.

#[export] Hint Resolve RateLimitConfig_valid : conf.

(** ** LoggingConfig *)

Record LoggingConfig := mkLoggingConfig {
  lc_Level : string;
  lc_Format : string;
}.

Definition LoggingConfig_fields (c : LoggingConfig) : list (bytes * json) :=
  put "level" (jstr (lc_Level c)) ++
  put "format" (jstr (lc_Format c)) ++ [].

Definition LoggingConfig_of (d : LoggingConfig) (l : list (bytes * json)) : option LoggingConfig :=
  x0 ← def_str "level" (lc_Level d) l;
  x1 ← def_str "format" (lc_Format d) l;
  Some (mkLoggingConfig x0 x1).

Definition LoggingConfig_wf (c : LoggingConfig) : Prop :=
  str_valid (lc_Level c) = true ∧
  str_valid (lc_Format c) = true.

Lemma LoggingConfig_of_fields d c : LoggingConfig_wf c → LoggingConfig_of d (LoggingConfig_fields c) = Some c.
Proof.
  intros (H0 & H1). unfold LoggingConfig_of, LoggingConfig_fields. wire_bounds.
  rewrite (def_str_eq "level" _ _ (lc_Level c)) by conf_solve.
  rewrite (def_str_eq "format" _ _ (lc_Format c)) by conf_solve.
  by destruct c.
Qed.

Lemma LoggingConfig_valid c : LoggingConfig_wf c → json_valid (JObj (LoggingConfig_fields c)) = true.
Proof. intros (H0 & H1). unfold LoggingConfig_fields. conf_valid. Qed.

#[export] Hint Resolve LoggingConfig_valid : conf.

(** ** ClusterConfig *)

Record ClusterConfig := mkClusterConfig {
  clc_Enabled : bool;
  clc_NodeID : string;
  clc_BindAddr : string;
  clc_Seeds : list string;
  clc_HeartbeatInterval : Z;
  clc_ElectionTimeoutMin : Z;
  clc_ElectionTimeoutMax : Z;
  clc_QuorumTimeoutMs : Z;
  clc_ConsensusAlgorithm : string;
  clc_RaftDataDir : string;
  clc_MTLSCertFile : string;
  clc_MTLSKeyFile : string;
  clc_MTLSCAFile : string;
}.

Definition ClusterConfig_fields (c : ClusterConfig) : list (bytes * json) :=
  put "enabled" (JBool (clc_Enabled c)) ++
  put "node_id" (jstr (clc_NodeID c)) ++
  put "bind_addr" (jstr (clc_BindAddr c)) ++
  put "seeds" (jstrs (clc_Seeds c)) ++
  put "heartbeat_interval_ms" (JNum (clc_HeartbeatInterval c)) ++
  put "election_timeout_min_ms" (JNum (clc_ElectionTimeoutMin c)) ++
  put "election_timeout_max_ms" (JNum (clc_ElectionTimeoutMax c)) ++
  put "quorum_timeout_ms" (JNum (clc_QuorumTimeoutMs c)) ++
  put "consensus_algorithm" (jstr (clc_ConsensusAlgorithm c)) ++
  put "raft_data_dir" (jstr (clc_RaftDataDir c)) ++
  put "mtls_cert_file" (jstr (clc_MTLSCertFile c)) ++
  put "mtls_key_file" (jstr (clc_MTLSKeyFile c)) ++
  put "mtls_ca_file" (jstr (clc_MTLSCAFile c)) ++ [].

Definition ClusterConfig_of (d : ClusterConfig) (l : list (bytes * json)) : option ClusterConfig :=
  x0 ← def_bool "enabled" (clc_Enabled d) l;
  x1 ← def_str "node_id" (clc_NodeID d) l;
  x2 ← def_str "bind_addr" (clc_BindAddr d) l;
  x3 ← def_strs "seeds" (clc_Seeds d) l;
  x4 ← def_int i64_min i64_max "heartbeat_interval_ms" (clc_HeartbeatInterval d) l;
  x5 ← def_int i64_min i64_max "election_timeout_min_ms" (clc_ElectionTimeoutMin d) l;
  x6 ← def_int i64_min i64_max "election_timeout_max_ms" (clc_ElectionTimeoutMax d) l;
  x7 ← def_int i64_min i64_max "quorum_timeout_ms" (clc_QuorumTimeoutMs d) l;
  x8 ← def_str "consensus_algorithm" (clc_ConsensusAlgorithm d) l;
  x9 ← def_str "raft_data_dir" (clc_RaftDataDir d) l;
  x10 ← def_str "mtls_cert_file" (clc_MTLSCertFile d) l;
  x11 ← def_str "mtls_key_file" (clc_MTLSKeyFile d) l;
  x12 ← def_str "mtls_ca_file" (clc_MTLSCAFile d) l;
  Some (mkClusterConfig x0 x1 x2 x3 x4 x5 x6 x7 x8 x9 x10 x11 x12).

Definition ClusterConfig_wf (c : ClusterConfig) : Prop :=
  str_valid (clc_NodeID c) = true ∧
  str_valid (clc_BindAddr c) = true ∧
  Forall (λ s, str_valid s = true) (clc_Seeds c) ∧
  is_i64 (clc_HeartbeatInterval c) ∧
  is_i64 (clc_ElectionTimeoutMin c) ∧
  is_i64 (clc_ElectionTimeoutMax c) ∧
  is_i64 (clc_QuorumTimeoutMs c) ∧
  str_valid (clc_ConsensusAlgorithm c) = true ∧
  str_valid (clc_RaftDataDir c) = true ∧
  str_valid (clc_MTLSCertFile c) = true ∧
  str_valid (clc_MTLSKeyFile c) = true ∧
  str_valid (clc_MTLSCAFile c) = true.

Lemma ClusterConfig_of_fields d c : ClusterConfig_wf c → ClusterConfig_of d (ClusterConfig_fields c) = Some c.
Proof.
  intros (H0 & H1 & H2 & H3 & H4 & H5 & H6 & H7 & H8 & H9 & H10 & H11). unfold ClusterConfig_of, ClusterConfig_fields. wire_bounds.
  rewrite (def_bool_eq "enabled" _ _ (clc_Enabled c)) by conf_solve.
  rewrite (def_str_eq "node_id" _ _ (clc_NodeID c)) by conf_solve.
  rewrite (def_str_eq "bind_addr" _ _ (clc_BindAddr c)) by conf_solve.
  rewrite (def_strs_eq "seeds" _ _ (clc_Seeds c)) by conf_solve.
  rewrite (def_int_eq _ _ "heartbeat_interval_ms" _ _ (clc_HeartbeatInterval c)) by conf_solve.
  rewrite (def_int_eq _ _ "election_timeout_min_ms" _ _ (clc_ElectionTimeoutMin c)) by conf_solve.
  rewrite (def_int_eq _ _ "election_timeout_max_ms" _ _ (clc_ElectionTimeoutMax c)) by conf_solve.
  rewrite (def_int_eq _ _ "quorum_timeout_ms" _ _ (clc_QuorumTimeoutMs c)) by conf_solve.
  rewrite (def_str_eq "consensus_algorithm" _ _ (clc_ConsensusAlgorithm c)) by conf_solve.
  rewrite (def_str_eq "raft_data_dir" _ _ (clc_RaftDataDir c)) by conf_solve.
  rewrite (def_str_eq "mtls_cert_file" _ _ (clc_MTLSCertFile c)) by conf_solve.
  rewrite (def_str_eq "mtls_key_file" _ _ (clc_MTLSKeyFile c)) by conf_solve.
  rewrite (def_str_eq "mtls_ca_file" _ _ (clc_MTLSCAFile c)) by conf_solve.
  by destruct c.
Qed.

Lemma ClusterConfig_valid c : ClusterConfig_wf c → json_valid (JObj (ClusterConfig_fields c)) = true.
Proof. intros (H0 & H1 & H2 & H3 & H4 & H5 & H6 & H7 & H8 & H9 & H10 & H11). unfold ClusterConfig_fields. conf_valid. Qed.

#[export] Hint Resolve ClusterConfig_valid : conf.

(** ** CompactionConfig *)

Record CompactionConfig := mkCompactionConfig {
  cpc_IntervalMs : Z;
  cpc_TombstoneGraceMs : Z;
}.

Definition CompactionConfig_fields (c : CompactionConfig) : list (bytes * json) :=
  put "interval_ms" (JNum (cpc_IntervalMs c)) ++
  put "tombstone_grace_ms" (JNum (cpc_TombstoneGraceMs c)) ++ [].

Definition CompactionConfig_of (d : CompactionConfig) (l : list (bytes * json)) : option CompactionConfig :=
  x0 ← def_int i64_min i64_max "interval_ms" (cpc_IntervalMs d) l;
  x1 ← def_int i64_min i64_max "tombstone_grace_ms" (cpc_TombstoneGraceMs d) l;
  Some (mkCompactionConfig x0 x1).

Definition CompactionConfig_wf (c : CompactionConfig) : Prop :=
  is_i64 (cpc_IntervalMs c) ∧
  is_i64 (cpc_TombstoneGraceMs c).

Lemma CompactionConfig_of_fields d c : CompactionConfig_wf c → CompactionConfig_of d (CompactionConfig_fields c) = Some c.
Proof.
  intros (H0 & H1). unfold CompactionConfig_of, CompactionConfig_fields. wire_bounds.
  rewrite (def_int_eq _ _ "interval_ms" _ _ (cpc_IntervalMs c)) by conf_solve.
  rewrite (def_int_eq _ _ "tombstone_grace_ms" _ _ (cpc_TombstoneGraceMs c)) by conf_solve.
  by destruct c.
Qed.

Lemma CompactionConfig_valid c : CompactionConfig_wf c → json_valid (JObj (CompactionConfig_fields c)) = true.
Proof. intros (H0 & H1). unfold CompactionConfig_fields. conf_valid. Qed.

#[export] Hint Resolve CompactionConfig_valid : conf.

(** ** GatewayConfig *)

Record GatewayConfig := mkGatewayConfig {
  gwc_Enabled : bool;
  gwc_Addr : string;
}.

Definition GatewayConfig_fields (c : GatewayConfig) : list (bytes * json) :=
  put "enabled" (JBool (gwc_Enabled c)) ++
  put "addr" (jstr (gwc_Addr c)) ++ [].

Definition GatewayConfig_of (d : GatewayConfig) (l : list (bytes * json)) : option GatewayConfig :=
  x0 ← def_bool "enabled" (gwc_Enabled d) l;
  x1 ← def_str "addr" (gwc_Addr d) l;
  Some (mkGatewayConfig x0 x1).

Definition GatewayConfig_wf (c : GatewayConfig) : Prop :=
  str_valid (gwc_Addr c) = true.

Lemma GatewayConfig_of_fields d c : GatewayConfig_wf c → GatewayConfig_of d (GatewayConfig_fields c) = Some c.
Proof.
  intros H0. unfold GatewayConfig_wf in H0. unfold GatewayConfig_of, GatewayConfig_fields. wire_bounds.
  rewrite (def_bool_eq "enabled" _ _ (gwc_Enabled c)) by conf_solve.
  rewrite (def_str_eq "addr" _ _ (gwc_Addr c)) by conf_solve.
  by destruct c.
Qed.

Lemma GatewayConfig_valid c : GatewayConfig_wf c → json_valid (JObj (GatewayConfig_fields c)) = true.
Proof. intros H0. unfold GatewayConfig_wf in H0. unfold GatewayConfig_fields. conf_valid. Qed.

#[export] Hint Resolve GatewayConfig_valid : conf.

(** ** Config *)

Record Config := mkConfig {
  cf_Broker : BrokerConfig;
  cf_Network : NetworkConfig;
  cf_Replication : ReplicationConfig;
  cf_Storage : StorageConfig;
  cf_Retention : RetentionConfig;
  cf_Auth : AuthConfig;
  cf_RateLimit : RateLimitConfig;
  cf_Logging : LoggingConfig;
  cf_Cluster : ClusterConfig;
  cf_Compaction : CompactionConfig;
  cf_Gateway : GatewayConfig;
  cf_FlowControlPauseMs : Z;
  cf_DrainTimeoutMs : Z;
  cf_AuditLogFile : string;
}.

Definition Config_fields (c : Config) : list (bytes * json) :=
  put "broker" (JObj (BrokerConfig_fields (cf_Broker c))) ++
  put "network" (JObj (NetworkConfig_fields (cf_Network c))) ++
  put "replication" (JObj (ReplicationConfig_fields (cf_Replication c))) ++
  put "storage" (JObj (StorageConfig_fields (cf_Storage c))) ++
  put "retention" (JObj (RetentionConfig_fields (cf_Retention c))) ++
  put "auth" (JObj (AuthConfig_fields (cf_Auth c))) ++
  put "rate_limit" (JObj (RateLimitConfig_fields (cf_RateLimit c))) ++
  put "logging" (JObj (LoggingConfig_fields (cf_Logging c))) ++
  put "cluster" (JObj (ClusterConfig_fields (cf_Cluster c))) ++
  put "compaction" (JObj (CompactionConfig_fields (cf_Compaction c))) ++
  put "gateway" (JObj (GatewayConfig_fields (cf_Gateway c))) ++
  put "flow_control_pause_ms" (JNum (cf_FlowControlPauseMs c)) ++
  put "drain_timeout_ms" (JNum (cf_DrainTimeoutMs c)) ++
  put "audit_log_file" (jstr (cf_AuditLogFile c)) ++ [].

Definition Config_of (d : Config) (l : list (bytes * json)) : option Config :=
  x0 ← def_struct BrokerConfig_of "broker" (cf_Broker d) l;
  x1 ← def_struct NetworkConfig_of "network" (cf_Network d) l;
  x2 ← def_struct ReplicationConfig_of "replication" (cf_Replication d) l;
  x3 ← def_struct StorageConfig_of "storage" (cf_Storage d) l;
  x4 ← def_struct RetentionConfig_of "retention" (cf_Retention d) l;
  x5 ← def_struct AuthConfig_of "auth" (cf_Auth d) l;
  x6 ← def_struct RateLimitConfig_of "rate_limit" (cf_RateLimit d) l;
  x7 ← def_struct LoggingConfig_of "logging" (cf_Logging d) l;
  x8 ← def_struct ClusterConfig_of "cluster" (cf_Cluster d) l;
  x9 ← def_struct CompactionConfig_of "compaction" (cf_Compaction d) l;
  x10 ← def_struct GatewayConfig_of "gateway" (cf_Gateway d) l;
  x11 ← def_int i64_min i64_max "flow_control_pause_ms" (cf_FlowControlPauseMs d) l;
  x12 ← def_int i64_min i64_max "drain_timeout_ms" (cf_DrainTimeoutMs d) l;
  x13 ← def_str "audit_log_file" (cf_AuditLogFile d) l;
  Some (mkConfig x0 x1 x2 x3 x4 x5 x6 x7 x8 x9 x10 x11 x12 x13).

Definition Config_wf (c : Config) : Prop :=
  BrokerConfig_wf (cf_Broker c) ∧
  NetworkConfig_wf (cf_Network c) ∧
  ReplicationConfig_wf (cf_Replication c) ∧
  StorageConfig_wf (cf_Storage c) ∧
  RetentionConfig_wf (cf_Retention c) ∧
  AuthConfig_wf (cf_Auth c) ∧
  RateLimitConfig_wf (cf_RateLimit c) ∧
  LoggingConfig_wf (cf_Logging c) ∧
  ClusterConfig_wf (cf_Cluster c) ∧
  CompactionConfig_wf (cf_Compaction c) ∧
  GatewayConfig_wf (cf_Gateway c) ∧
  is_i64 (cf_FlowControlPauseMs c) ∧
  is_i64 (cf_DrainTimeoutMs c) ∧
  str_valid (cf_AuditLogFile c) = true.

Lemma Config_of_fields d c : nw_DashboardAuthEnabled (cf_Network d) = None → Config_wf c → Config_of d (Config_fields c) = Some c.
Proof.
  intros Hd. intros (H0 & H1 & H2 & H3 & H4 & H5 & H6 & H7 & H8 & H9 & H10 & H11 & H12 & H13). unfold Config_of, Config_fields. wire_bounds.
  rewrite (def_struct_eq BrokerConfig_of BrokerConfig_fields "broker" _ _ (cf_Broker c)) by (first [conf_solve|by apply BrokerConfig_of_fields]).
  rewrite (def_struct_eq NetworkConfig_of NetworkConfig_fields "network" _ _ (cf_Network c)) by (first [conf_solve|by apply NetworkConfig_of_fields]).
  rewrite (def_struct_eq ReplicationConfig_of ReplicationConfig_fields "replication" _ _ (cf_Replication c)) by (first [conf_solve|by apply ReplicationConfig_of_fields]).
  rewrite (def_struct_eq StorageConfig_of StorageConfig_fields "storage" _ _ (cf_Storage c)) by (first [conf_solve|by apply StorageConfig_of_fields]).
  rewrite (def_struct_eq RetentionConfig_of RetentionConfig_fields "retention" _ _ (cf_Retention c)) by (first [conf_solve|by apply RetentionConfig_of_fields]).
  rewrite (def_struct_eq AuthConfig_of AuthConfig_fields "auth" _ _ (cf_Auth c)) by (first [conf_solve|by apply AuthConfig_of_fields]).
  rewrite (def_struct_eq RateLimitConfig_of RateLimitConfig_fields "rate_limit" _ _ (cf_RateLimit c)) by (first [conf_solve|by apply RateLimitConfig_of_fields]).
  rewrite (def_struct_eq LoggingConfig_of LoggingConfig_fields "logging" _ _ (cf_Logging c)) by (first [conf_solve|by apply LoggingConfig_of_fields]).
  rewrite (def_struct_eq ClusterConfig_of ClusterConfig_fields "cluster" _ _ (cf_Cluster c)) by (first [conf_solve|by apply ClusterConfig_of_fields]).
  rewrite (def_struct_eq CompactionConfig_of CompactionConfig_fields "compaction" _ _ (cf_Compaction c)) by (first [conf_solve|by apply CompactionConfig_of_fields]).
  rewrite (def_struct_eq GatewayConfig_of GatewayConfig_fields "gateway" _ _ (cf_Gateway c)) by (first [conf_solve|by apply GatewayConfig_of_fields]).
  rewrite (def_int_eq _ _ "flow_control_pause_ms" _ _ (cf_FlowControlPauseMs c)) by conf_solve.
  rewrite (def_int_eq _ _ "drain_timeout_ms" _ _ (cf_DrainTimeoutMs c)) by conf_solve.
  rewrite (def_str_eq "audit_log_file" _ _ (cf_AuditLogFile c)) by conf_solve.
  by destruct c.
Qed.

Lemma Config_valid c : Config_wf c → json_valid (JObj (Config_fields c)) = true.
Proof. intros (H0 & H1 & H2 & H3 & H4 & H5 & H6 & H7 & H8 & H9 & H10 & H11 & H12 & H13). unfold Config_fields. conf_valid. Qed.


