(* ===== verification/HotReload.v ===== *)
(** * Live settings: the loader of [internal/config/config.go], [hotreload.go], and [PATCH /config]

    The loader holds the current settings and reads the file again when it is
    newer; [http_config_patch.go] changes the settings a running broker may
    change: in the loader, in the live components and on disk.  A value of the
    request is what [encoding/json] decodes into an interface. *)

From Stdlib Require Import SpecFloat.
From S2P Require Import Prelude GoLib Json JsonIndent StringsLib Types WireJson WireReply Compactor.
From S2P Require Import Partition Topic RateLimit Auth AuditLog Config.

Local Open Scope Z_scope.

(** ** Defaults and validation *)

Definition second_ns : Z := 1000000000.

Definition defaultConfig : Config :=
  mkConfig (mkBrokerConfig "node-1")
    (mkNetworkConfig "0.0.0.0" 9000 10000 (30 * second_ns) (30 * second_ns) (300 * second_ns) "" "" 0
       false true true 0 None (43200 * second_ns) 10)
    (mkReplicationConfig 1 (100 * millisecond_ns) (5 * second_ns))
    (mkStorageConfig "./data/wal" "./data/segments" (2 ^ 30) 4096 "interval" 0)
    (mkRetentionConfig 24 1024)
    (mkAuthConfig false [])
    (mkRateLimitConfig false 10000 50000 2)
    (mkLoggingConfig "info" "json")
    (mkClusterConfig false "" "" [] 150 450 750 0 "" "" "" "" "")
    (mkCompactionConfig 60000 86400000)
    (mkGatewayConfig false "") 0 0 "".

Inductive config_err :=
| PortRange (port : Z)
| FactorTooSmall
| NoWALPath
| NoDataPath
| BadSyncPolicy (policy : string).

(** [None] is a nil error. *)
Definition validate (c : Config) : option config_err :=
  if (nw_Port (cf_Network c) <? 0) || (65534 <? nw_Port (cf_Network c)) then Some (PortRange (nw_Port (cf_Network c)))
  else if rp_Factor (cf_Replication c) <? 1 then Some FactorTooSmall
  else if bool_decide (so_WALPath (cf_Storage c) = EmptyString) then Some NoWALPath
  else if bool_decide (so_DataPath (cf_Storage c) = EmptyString) then Some NoDataPath
  else if bool_decide (so_SyncPolicy (cf_Storage c) ∈ [EmptyString; "interval"; "always"; "os"]%string) then None
  else Some (BadSyncPolicy (so_SyncPolicy (cf_Storage c))).

(** ** The loader *)

Inductive load_err :=
| StatFailed
| ReadFailed
| ParseFailed
| Invalid (e : config_err).

(** [stat] is the modification time, [data] the contents, [None] a failure. *)
Definition readFile (stat : option Z) (data : option bytes) : result (Config * Z) load_err :=
  match stat with
  | None => Error StatFailed
  | Some modTime =>
      match data with
      | None => Error ReadFailed
      | Some data =>
          match unmarshal_with (Config_of defaultConfig) data with
          | None => Error ParseFailed
          | Some cfg =>
              match validate cfg with
              | Some e => Error (Invalid e)
              | None => Ok (cfg, modTime)
              end
          end
      end
  end.

Record Loader := mkLoader {
  ld_path : string;
  ld_current : Config;
  ld_modTime : Z;
}.

Definition Load (path : string) (stat : option Z) (data : option bytes) : result Loader load_err :=
  match readFile stat data with
  | Error e => Error e
  | Ok (cfg, modTime) => Ok (mkLoader path cfg modTime)
  end.

Definition Loader_Set (l : Loader) (cfg : Config) : Loader := mkLoader (ld_path l) cfg (ld_modTime l).

(** The loader and the settings the callbacks get. *)
Definition reload (l : Loader) (stat : option Z) (data : option bytes) : Loader * option Config :=
  match readFile stat data with
  | Error _ => (l, None)
  | Ok (cfg, modTime) =>
      if modTime <=? ld_modTime l then (l, None) else (mkLoader (ld_path l) cfg modTime, Some cfg)
  end.

(** ** Applying a patch *)

Inductive patch_value :=
| PBool (b : bool)
| PNum (f : spec_float)
| PInt (z : Z)
| PStr (s : string)
| POther.

Inductive patch_err :=
| ExpectedBool
| ExpectedNumeric
| ExpectedString
| OutOfBounds (v : Z)
| BadLevel (s : string)
| NotHotReloadable.

(** Setting one section. *)
Definition with_Retention (c : Config) (x : RetentionConfig) : Config :=
  mkConfig (cf_Broker c) (cf_Network c) (cf_Replication c) (cf_Storage c) x (cf_Auth c) (cf_RateLimit c)
    (cf_Logging c) (cf_Cluster c) (cf_Compaction c) (cf_Gateway c) (cf_FlowControlPauseMs c) (cf_DrainTimeoutMs c)
    (cf_AuditLogFile c).

Definition with_RateLimit (c : Config) (x : RateLimitConfig) : Config :=
  mkConfig (cf_Broker c) (cf_Network c) (cf_Replication c) (cf_Storage c) (cf_Retention c) (cf_Auth c) x
    (cf_Logging c) (cf_Cluster c) (cf_Compaction c) (cf_Gateway c) (cf_FlowControlPauseMs c) (cf_DrainTimeoutMs c)
    (cf_AuditLogFile c).

Definition with_Logging (c : Config) (x : LoggingConfig) : Config :=
  mkConfig (cf_Broker c) (cf_Network c) (cf_Replication c) (cf_Storage c) (cf_Retention c) (cf_Auth c) (cf_RateLimit c)
    x (cf_Cluster c) (cf_Compaction c) (cf_Gateway c) (cf_FlowControlPauseMs c) (cf_DrainTimeoutMs c)
    (cf_AuditLogFile c).

Definition with_Compaction (c : Config) (x : CompactionConfig) : Config :=
  mkConfig (cf_Broker c) (cf_Network c) (cf_Replication c) (cf_Storage c) (cf_Retention c) (cf_Auth c) (cf_RateLimit c)
    (cf_Logging c) (cf_Cluster c) x (cf_Gateway c) (cf_FlowControlPauseMs c) (cf_DrainTimeoutMs c)
    (cf_AuditLogFile c).

Definition with_timeouts (c : Config) (flow drain : Z) : Config :=
  mkConfig (cf_Broker c) (cf_Network c) (cf_Replication c) (cf_Storage c) (cf_Retention c) (cf_Auth c) (cf_RateLimit c)
    (cf_Logging c) (cf_Cluster c) (cf_Compaction c) (cf_Gateway c) flow drain (cf_AuditLogFile c).

Definition HotReloadableFields : gmap string bool :=
  list_to_map [("rate_limit.enabled", true); ("rate_limit.per_client_rps", true); ("rate_limit.per_topic_rps", true);
    ("retention.default_max_age_hours", false); ("retention.max_age_hours", true); ("retention.max_size_mb", true);
    ("compaction.interval_ms", true); ("compaction.tombstone_grace_ms", true); ("broker.drain_timeout_ms", true);
    ("drain_timeout_ms", true); ("broker.flow_control_pause_ms", false); ("flow_control_pause_ms", true);
    ("logging.level", true)]%string.

Definition IsHotReloadable (fieldPath : string) : bool := default false (HotReloadableFields !! fieldPath).

(** ** The running broker *)

(** [lv_file] is the settings file: its contents and modification time. *)
Record Live (L : Type) := mkLive {
  lv_loader : Loader;
  lv_limiter : gmap string (Z * Z);
  lv_auth : Authenticator;
  lv_rateLimiter : RateLimiter;
  lv_topics : Manager L;
  lv_compactor : option KeyCompactor;
  lv_level : string;
  lv_drainTimeoutMs : Z;
  lv_flowControlPauseMs : Z;
  lv_audit : option Logger;
  lv_file : option (bytes * Z);
}.
Arguments mkLive {L} _ _ _ _ _ _ _ _ _ _ _.
Arguments lv_loader {L} _.
Arguments lv_limiter {L} _.
Arguments lv_auth {L} _.
Arguments lv_rateLimiter {L} _.
Arguments lv_topics {L} _.
Arguments lv_compactor {L} _.
Arguments lv_level {L} _.
Arguments lv_drainTimeoutMs {L} _.
Arguments lv_flowControlPauseMs {L} _.
Arguments lv_audit {L} _.
Arguments lv_file {L} _.

Section Patch.
(** A conversion from [float64] whose result Go leaves open: out of range,
    infinite, not a number; and lower case beyond ASCII. *)
Context (float_out : spec_float → Z) (unicode_lower : bytes → bytes).

(** The integer part. *)
Definition float_trunc (f : spec_float) : option Z :=
  match f with
  | S754_zero _ => Some 0
  | S754_finite s m e =>
      let z := if 0 <=? e then Z.pos m * 2 ^ e else Z.pos m / 2 ^ (- e) in
      Some (if s then - z else z)
  | _ => None
  end.

Definition int_of_float (f : spec_float) : Z :=
  match float_trunc f with
  | Some z => if (i64_min <=? z) && (z <=? i64_max) then z else i64 (float_out f)
  | None => i64 (float_out f)
  end.

(** [toInt] and [toInt64]; an [int] has 64 bits. *)
Definition toInt (raw : patch_value) : result Z patch_err :=
  match raw with
  | PNum f => Ok (int_of_float f)
  | PInt z => Ok (i64 z)
  | _ => Error ExpectedNumeric
  end.

Definition int_field (raw : patch_value) (lo : Z) (set : Z → Config) : result Config patch_err :=
  match toInt raw with
  | Error e => Error e
  | Ok v => if v <? lo then Error (OutOfBounds v) else Ok (set v)
  end.

Definition lower_string (s : string) : string := string_of_bytes (ToLower unicode_lower (bytes_of_string s)).

Definition applyField (c : Config) (fieldPath : string) (raw : patch_value) : result Config patch_err :=
  let rl := cf_RateLimit c in
  let rt := cf_Retention c in
  let cp := cf_Compaction c in
  if (fieldPath =? "rate_limit.enabled")%string then
    match raw with
    | PBool v =>
        Ok (with_RateLimit c (mkRateLimitConfig v (rl_PerClientRPS rl) (rl_PerTopicRPS rl) (rl_BurstMultiplier rl)))
    | _ => Error ExpectedBool
    end
  else if (fieldPath =? "rate_limit.per_client_rps")%string then
    int_field raw 1 (λ v, with_RateLimit c (mkRateLimitConfig (rl_Enabled rl) v (rl_PerTopicRPS rl) (rl_BurstMultiplier rl)))
  else if (fieldPath =? "rate_limit.per_topic_rps")%string then
    int_field raw 1 (λ v, with_RateLimit c (mkRateLimitConfig (rl_Enabled rl) (rl_PerClientRPS rl) v (rl_BurstMultiplier rl)))
  else if (fieldPath =? "retention.max_age_hours")%string then
    int_field raw 0 (λ v, with_Retention c (mkRetentionConfig v (rt_MaxSizeMB rt)))
  else if (fieldPath =? "retention.max_size_mb")%string then
    int_field raw 0 (λ v, with_Retention c (mkRetentionConfig (rt_MaxAgeHours rt) v))
  else if (fieldPath =? "compaction.interval_ms")%string then
    int_field raw 1 (λ v, with_Compaction c (mkCompactionConfig v (cpc_TombstoneGraceMs cp)))
  else if (fieldPath =? "compaction.tombstone_grace_ms")%string then
    int_field raw 0 (λ v, with_Compaction c (mkCompactionConfig (cpc_IntervalMs cp) v))
  else if (fieldPath =? "drain_timeout_ms")%string then
    int_field raw 1 (λ v, with_timeouts c (cf_FlowControlPauseMs c) v)
  else if (fieldPath =? "flow_control_pause_ms")%string then
    int_field raw 0 (λ v, with_timeouts c v (cf_DrainTimeoutMs c))
  else if (fieldPath =? "logging.level")%string then
    match raw with
    | PStr v =>
        if bool_decide (lower_string v ∈ ["debug"; "info"; "warn"; "error"]%string)
        then Ok (with_Logging c (mkLoggingConfig (lower_string v) (lc_Format (cf_Logging c))))
        else Error (BadLevel v)
    | _ => Error ExpectedString
    end
  else Error NotHotReloadable.

(** The changes in the order in which the map is ranged over. *)
Fixpoint ApplyPatch (c : Config) (patch : list (string * patch_value)) : result Config (string * patch_err) :=
  match patch with
  | [] => Ok c
  | (fieldPath, raw) :: patch =>
      match applyField c fieldPath raw with
      | Error e => Error (fieldPath, e)
      | Ok c => ApplyPatch c patch
      end
  end.

(** ** The limit of changes a minute *)

(** A bucket is its count and the start of its window. *)
Definition Limiter_Allow (now : Z) (r : gmap string (Z * Z)) (identity : string) : gmap string (Z * Z) * bool :=
  match r !! identity with
  | None => (<[identity := (1, now)]> r, true)
  | Some (count, windowStart) =>
      if 60 * second_ns <? time_sub now windowStart then (<[identity := (1, now)]> r, true)
      else if 5 <=? count then (r, false)
      else (<[identity := (count + 1, windowStart)]> r, true)
  end.

(** ** The values of the fields, for the audit log *)

Inductive cfg_value :=
| CBool (b : bool)
| CInt (z : Z)
| CStr (s : string)
| CNil.

Definition getFieldValue (c : Config) (fieldPath : string) : cfg_value :=
  if (fieldPath =? "rate_limit.enabled")%string then CBool (rl_Enabled (cf_RateLimit c))
  else if (fieldPath =? "rate_limit.per_client_rps")%string then CInt (rl_PerClientRPS (cf_RateLimit c))
  else if (fieldPath =? "rate_limit.per_topic_rps")%string then CInt (rl_PerTopicRPS (cf_RateLimit c))
  else if (fieldPath =? "retention.max_age_hours")%string then CInt (rt_MaxAgeHours (cf_Retention c))
  else if (fieldPath =? "retention.max_size_mb")%string then CInt (rt_MaxSizeMB (cf_Retention c))
  else if (fieldPath =? "compaction.interval_ms")%string then CInt (cpc_IntervalMs (cf_Compaction c))
  else if (fieldPath =? "compaction.tombstone_grace_ms")%string then CInt (cpc_TombstoneGraceMs (cf_Compaction c))
  else if (fieldPath =? "drain_timeout_ms")%string then CInt (cf_DrainTimeoutMs c)
  else if (fieldPath =? "flow_control_pause_ms")%string then CInt (cf_FlowControlPauseMs c)
  else if (fieldPath =? "logging.level")%string then CStr (lc_Level (cf_Logging c))
  else CNil.

(** [%v] of a float and of the remaining JSON values. *)
Context (fmt_float : spec_float → string) (fmt_other : string).

Definition fmt_bool (b : bool) : string := if b then "true" else "false".

Definition fmt_cfg (v : cfg_value) : string :=
  match v with
  | CBool b => fmt_bool b
  | CInt z => fmt_d z
  | CStr s => s
  | CNil => "<nil>"
  end.

Definition fmt_patch (v : patch_value) : string :=
  match v with
  | PBool b => fmt_bool b
  | PNum f => fmt_float f
  | PInt z => fmt_d z
  | PStr s => s
  | POther => fmt_other
  end.

Definition patch_details (c : Config) (client : string) (changes : list (string * patch_value)) : gmap string string :=
  foldl (λ m p, <[p.1 +:+ "_new" := fmt_patch p.2]> (<[p.1 +:+ "_old" := fmt_cfg (getFieldValue c p.1)]> m))
    {[ "source"%string := if bool_decide (client = EmptyString) then "dashboard" else "api" ]} changes.

(** ** [Duration.String] *)

(** The digits of the fraction, trailing zeros dropped, and what is left of
    the value; [seen] tells that a digit has been printed. *)
Fixpoint fmtFrac (prec : nat) (v : Z) (seen : bool) (acc : string) : string * Z :=
  match prec with
  | O => (if seen then "." +:+ acc else acc, v)
  | S prec =>
      let digit := v mod 10 in
      let seen := seen || negb (digit =? 0) in
      fmtFrac prec (v / 10) seen (if seen then fmt_d digit +:+ acc else acc)
  end.

Definition Duration_String (d : Z) : string :=
  let u := Z.abs d in
  let body :=
    if u <? second_ns then
      if u =? 0 then "0s"
      else
        let '(prec, unit_) :=
          if u <? 1000 then (0%nat, "ns")
          else if u <? millisecond_ns then (3%nat, string_of_bytes [Byte.xc2; Byte.xb5] +:+ "s")
          else (6%nat, "ms") in
        let '(frac, u) := fmtFrac prec u false EmptyString in
        fmt_d u +:+ frac +:+ unit_
    else
      let '(frac, u) := fmtFrac 9 u false EmptyString in
      let s := fmt_d (u mod 60) +:+ frac +:+ "s" in
      let m := u / 60 in
      if 0 <? m then
        let s := fmt_d (m mod 60) +:+ "m" +:+ s in
        let h := m / 60 in
        if 0 <? h then fmt_d h +:+ "h" +:+ s else s
      else s in
  if d <? 0 then "-" +:+ body else body.

Example duration_examples :
  Duration_String <$> [43200 * second_ns; 1500 * millisecond_ns; -2500; 0; 90 * second_ns] =
    ["12h0m0s"; "1.5s"; "-2.5" +:+ string_of_bytes [Byte.xc2; Byte.xb5] +:+ "s"; "0s"; "1m30s"]%string.
Proof. vm_compute. reflexivity. Qed.

(** ** [GET /config/effective] *)

Definition config_field (v : json) (hot : bool) : json :=
  JObj (put "value" v ++ put "hot_reloadable" (JBool hot)).

Definition apiKeySafe_fields (k : APIKeyEntry) : list (bytes * json) :=
  put "client_id" (jstr (ak_ClientID k)) ++
  put "role" (jstr (ak_Role k)) ++
  put_omit (bool_decide (ak_Topics k = [])) "topics" (jstrs (ak_Topics k)).

Definition networkSafe_fields (n : NetworkConfig) : list (bytes * json) :=
  put "host" (jstr (nw_Host n)) ++
  put "port" (JNum (nw_Port n)) ++
  put "max_connections" (JNum (nw_MaxConnections n)) ++
  put "tls_cert_file" (jstr (nw_TLSCertFile n)) ++
  put "tls_min_version" (JNum (nw_TLSMinVersion n)) ++
  put "pprof_enabled" (JBool (nw_PprofEnabled n)) ++
  put "dashboard_enabled" (JBool (nw_DashboardEnabled n)) ++
  put "explorer_enabled" (JBool (nw_ExplorerEnabled n)) ++
  put "explorer_max_connections" (JNum (nw_ExplorerMaxConnections n)) ++
  put_obool "dashboard_auth_enabled" (nw_DashboardAuthEnabled n) ++
  put "dashboard_session_ttl" (jstr (Duration_String (nw_DashboardSessionTTL n))) ++
  put "dashboard_login_rate_limit_per_minute" (JNum (nw_DashboardLoginRateLimitPerMinute n)).

(** The map's members, sorted by name as the encoder sorts them; the slice of
    keys is made, so that it is written even when empty. *)
Definition effective_json (c : Config) : json :=
  JObj (
    put "auth" (JObj (put "enabled" (JBool (ac_Enabled (cf_Auth c))) ++
                      put "api_keys" (JArr ((λ k, JObj (apiKeySafe_fields k)) <$> ac_APIKeys (cf_Auth c))))) ++
    put "broker" (JObj (BrokerConfig_fields (cf_Broker c))) ++
    put "cluster" (JObj (ClusterConfig_fields (cf_Cluster c))) ++
    put "compaction" (JObj (put "interval_ms" (config_field (JNum (cpc_IntervalMs (cf_Compaction c))) true) ++
                            put "tombstone_grace_ms" (config_field (JNum (cpc_TombstoneGraceMs (cf_Compaction c))) true))) ++
    put "drain_timeout_ms" (config_field (JNum (cf_DrainTimeoutMs c)) true) ++
    put "flow_control_pause_ms" (config_field (JNum (cf_FlowControlPauseMs c)) true) ++
    put "gateway" (JObj (GatewayConfig_fields (cf_Gateway c))) ++
    put "logging" (if bool_decide (lc_Level (cf_Logging c) = EmptyString)
                   then JObj (LoggingConfig_fields (cf_Logging c))
                   else JObj (put "format" (config_field (jstr (lc_Format (cf_Logging c))) false) ++
                              put "level" (config_field (jstr (lc_Level (cf_Logging c))) true))) ++
    put "network" (JObj (networkSafe_fields (cf_Network c))) ++
    put "rate_limit" (JObj (
      put "burst_multiplier" (config_field (JNum (rl_BurstMultiplier (cf_RateLimit c))) false) ++
      put "enabled" (config_field (JBool (rl_Enabled (cf_RateLimit c))) true) ++
      put "per_client_rps" (config_field (JNum (rl_PerClientRPS (cf_RateLimit c))) true) ++
      put "per_topic_rps" (config_field (JNum (rl_PerTopicRPS (cf_RateLimit c))) true))) ++
    put "replication" (JObj (ReplicationConfig_fields (cf_Replication c))) ++
    put "retention" (JObj (put "max_age_hours" (config_field (JNum (rt_MaxAgeHours (cf_Retention c))) true) ++
                           put "max_size_mb" (config_field (JNum (rt_MaxSizeMB (cf_Retention c))) true))) ++
    put "storage" (JObj (StorageConfig_fields (cf_Storage c)))).

(** ** Requests *)

Section LiveBroker.
Context {L : Type}.
Implicit Type b : Live L.

Definition with_limiter b (r : gmap string (Z * Z)) : Live L :=
  mkLive (lv_loader b) r (lv_auth b) (lv_rateLimiter b) (lv_topics b) (lv_compactor b) (lv_level b)
    (lv_drainTimeoutMs b) (lv_flowControlPauseMs b) (lv_audit b) (lv_file b).

(** [DurationMs], in nanoseconds. *)
Definition DurationMs (ms : Z) : Z := i64 (ms * millisecond_ns).

Definition applyConfigToLive b (c : Config) : Live L :=
  mkLive (lv_loader b) (lv_limiter b) (lv_auth b)
    (RateLimiter_UpdateLimits (lv_rateLimiter b) (Some (cf_RateLimit c)))
    (Manager_UpdateRetentionConfig (lv_topics b) (rt_MaxAgeHours (cf_Retention c)) (rt_MaxSizeMB (cf_Retention c)))
    ((λ kc, KeyCompactor_UpdateConfig kc (DurationMs (cpc_IntervalMs (cf_Compaction c)))
              (cpc_TombstoneGraceMs (cf_Compaction c))) <$> lv_compactor b)
    (lc_Level (cf_Logging c)) (cf_DrainTimeoutMs c) (cf_FlowControlPauseMs c) (lv_audit b) (lv_file b).

Inductive persist_io :=
| PersistFine
| WriteTempFails
| RenameFails.

(** The file afterwards: only the rename touches it. *)
Definition persistConfig (io : persist_io) (now : Z) (file : option (bytes * Z)) (c : Config) : option (bytes * Z) :=
  match io with
  | PersistFine => Some (MarshalIndent (JObj (Config_fields c)), now)
  | WriteTempFails | RenameFails => file
  end.

(** What the outside world does during a request: the clock, the orders in
    which the two loops range over the changes, the disk and the audit
    log's writer. *)
Record PatchEnv := mkPatchEnv {
  pe_now : Z;
  pe_checked : list (string * patch_value);
  pe_applied : list (string * patch_value);
  pe_detailed : list (string * patch_value);
  pe_io : persist_io;
  pe_audit_ok : bool;
}.

Inductive patch_reply :=
| PatchForbidden
| PatchTooMany
| PatchBadBody
| PatchNoChanges
| PatchRejected (fields : list string)
| PatchFieldError (field : string) (e : patch_err)
| PatchInvalid (e : config_err)
| PatchDone (effective : json).

Definition is_admin (id : option Identity) : bool :=
  match id with
  | None => false
  | Some id => Identity_Can id PermAdmin ""
  end.

Definition limiter_key (client : string) : string := if bool_decide (client = EmptyString) then "anonymous" else client.

(** The part after the checks: [candidate] goes live. *)
Definition commit_patch (env : PatchEnv) b (client : string) (candidate : Config) : Live L :=
  let details := patch_details (ld_current (lv_loader b)) client (pe_detailed env) in
  let b := applyConfigToLive b candidate in
  let file :=
    if bool_decide (ld_path (lv_loader b) = EmptyString) then lv_file b
    else persistConfig (pe_io env) (pe_now env) (lv_file b) candidate in
  let audit :=
    (λ l, Logger_Log (pe_now env) (pe_audit_ok env) l
            (mkEvent None EventConfigReload client "" "" true "" details)) <$> lv_audit b in
  mkLive (Loader_Set (lv_loader b) candidate) (lv_limiter b) (lv_auth b) (lv_rateLimiter b) (lv_topics b)
    (lv_compactor b) (lv_level b) (lv_drainTimeoutMs b) (lv_flowControlPauseMs b) audit file.

(** [body] is the decoded request, [None] when decoding fails. *)
Definition httpConfigPatch (env : PatchEnv) b (id : option Identity) (body : option (gmap string patch_value)) :
    Live L * patch_reply :=
  match id with
  | None => (b, PatchForbidden)
  | Some identity =>
      if negb (is_admin id) then (b, PatchForbidden)
      else
        let '(r, ok) := Limiter_Allow (pe_now env) (lv_limiter b) (limiter_key (id_ClientID identity)) in
        let b := with_limiter b r in
        if negb ok then (b, PatchTooMany)
        else
          match body with
          | None => (b, PatchBadBody)
          | Some changes =>
              if bool_decide (changes = ∅) then (b, PatchNoChanges)
              else
                match filter (λ p, IsHotReloadable p.1 = false) (pe_checked env) with
                | (_ :: _) as rejected => (b, PatchRejected rejected.*1)
                | [] =>
                    match ApplyPatch (ld_current (lv_loader b)) (pe_applied env) with
                    | Error (field, e) => (b, PatchFieldError field e)
                    | Ok candidate =>
                        match validate candidate with
                        | Some e => (b, PatchInvalid e)
                        | None =>
                            let b := commit_patch env b (id_ClientID identity) candidate in
                            (b, PatchDone (effective_json (ld_current (lv_loader b))))
                        end
                    end
                end
          end
  end.

(** The callback the broker registers for a newer file. *)
Definition on_config_change b (c : Config) : Live L :=
  mkLive (lv_loader b) (lv_limiter b) (NewAuthenticator (cf_Auth c)) (NewRateLimiter (Some (cf_RateLimit c)))
    (lv_topics b) (lv_compactor b) (lv_level b) (lv_drainTimeoutMs b) (lv_flowControlPauseMs b) (lv_audit b) (lv_file b).

(** One tick of [watchLoop] against the file. *)
Definition watch_tick b : Live L :=
  let '(l, changed) := reload (lv_loader b) (snd <$> lv_file b) (fst <$> lv_file b) in
  let b :=
    mkLive l (lv_limiter b) (lv_auth b) (lv_rateLimiter b) (lv_topics b) (lv_compactor b) (lv_level b)
      (lv_drainTimeoutMs b) (lv_flowControlPauseMs b) (lv_audit b) (lv_file b) in
  match changed with
  | None => b
  | Some c => on_config_change b c
  end.


(** [None] is the refusal. *)
Definition httpConfigEffective b (id : option Identity) : option json :=
  if is_admin id then Some (effective_json (ld_current (lv_loader b))) else None.

End LiveBroker.

(** ** What an applied field does *)

(** The value a raw value gives a field, if it is acceptable there. *)
Definition int_in (raw : patch_value) (lo : Z) : option cfg_value :=
  match toInt raw with
  | Ok v => if v <? lo then None else Some (CInt v)
  | Error _ => None
  end.

Definition checked (fieldPath : string) (raw : patch_value) : option cfg_value :=
  if (fieldPath =? "rate_limit.enabled")%string then match raw with PBool v => Some (CBool v) | _ => None end
  else if bool_decide (fieldPath ∈ ["rate_limit.per_client_rps"; "rate_limit.per_topic_rps"; "compaction.interval_ms";
                                    "drain_timeout_ms"]%string) then int_in raw 1
  else if bool_decide (fieldPath ∈ ["retention.max_age_hours"; "retention.max_size_mb"; "compaction.tombstone_grace_ms";
                                    "flow_control_pause_ms"]%string) then int_in raw 0
  else if (fieldPath =? "logging.level")%string then
    match raw with
    | PStr v => if bool_decide (lower_string v ∈ ["debug"; "info"; "warn"; "error"]%string) then Some (CStr (lower_string v)) else None
    | _ => None
    end
  else None.

(** The settings without the ten that can change. *)
Definition frozen (c : Config) : Config :=
  with_timeouts
    (with_Logging
       (with_Compaction
          (with_Retention (with_RateLimit c (mkRateLimitConfig false 0 0 (rl_BurstMultiplier (cf_RateLimit c))))
             (mkRetentionConfig 0 0)) (mkCompactionConfig 0 0))
       (mkLoggingConfig "" (lc_Format (cf_Logging c)))) 0 0.

(** [c'] is [c] with the field [k] at [v]. *)
Definition updates (c c' : Config) (k : string) (v : cfg_value) : Prop :=
  getFieldValue c' k = v ∧ (∀ k', k' ≠ k → getFieldValue c' k' = getFieldValue c k') ∧ frozen c' = frozen c.

Ltac solve_updates :=
  split; [done|split; [|done]];
  intros ? ?; unfold getFieldValue;
  repeat match goal with |- context [(?k' =? ?n)%string] => destruct (String.eqb_spec k' n); [by subst|] end;
  reflexivity.

Lemma int_field_spec raw lo set :
  match int_field raw lo set with
  | Ok c' => ∃ v, int_in raw lo = Some (CInt v) ∧ c' = set v
  | Error _ => int_in raw lo = None
  end.
Proof. unfold int_field, int_in. destruct (toInt raw) as [v|]; [|done]. destruct (v <? lo); [done|]. by exists v. Qed.

Ltac solve_int_field raw lo :=
  let H := fresh in
  pose proof (int_field_spec raw lo) as H;
  match goal with |- context [int_field _ _ ?s] => specialize (H s) end;
  destruct (int_field _ _ _); [|exact H];
  destruct H as (v & Hv & ->); exists (CInt v); split; [exact Hv|]; solve_updates.

Lemma applyField_spec c k raw :
  match applyField c k raw with
  | Ok c' => ∃ v, checked k raw = Some v ∧ updates c c' k v
  | Error _ => checked k raw = None
  end.
Proof.
  unfold applyField.
  destruct (String.eqb_spec k "rate_limit.enabled") as [->|H1].
  { destruct raw; try done. eexists. split; [done|]. solve_updates. }
  destruct (String.eqb_spec k "rate_limit.per_client_rps") as [->|?]; [solve_int_field raw 1|].
  destruct (String.eqb_spec k "rate_limit.per_topic_rps") as [->|?]; [solve_int_field raw 1|].
  destruct (String.eqb_spec k "retention.max_age_hours") as [->|?]; [solve_int_field raw 0|].
  destruct (String.eqb_spec k "retention.max_size_mb") as [->|?]; [solve_int_field raw 0|].
  destruct (String.eqb_spec k "compaction.interval_ms") as [->|?]; [solve_int_field raw 1|].
  destruct (String.eqb_spec k "compaction.tombstone_grace_ms") as [->|?]; [solve_int_field raw 0|].
  destruct (String.eqb_spec k "drain_timeout_ms") as [->|?]; [solve_int_field raw 1|].
  destruct (String.eqb_spec k "flow_control_pause_ms") as [->|?]; [solve_int_field raw 0|].
  unfold checked. rewrite !bool_decide_eq_false_2 by set_solver.
  destruct (String.eqb_spec k "rate_limit.enabled"); [done|].
  destruct (String.eqb_spec k "logging.level") as [->|?]; [|done].
  destruct raw; try done. case_bool_decide; [|done]. eexists. split; [done|]. solve_updates.
Qed.

Lemma applyField_unknown k raw v : checked k raw = Some v → ∀ c, getFieldValue c k ≠ CNil.
Proof.
  intros H c. unfold checked in H. unfold getFieldValue.
  repeat match goal with |- context [(?k' =? ?n)%string] => destruct (String.eqb_spec k' n); [done|] end.
  by rewrite !bool_decide_eq_false_2 in H by set_solver.
Qed.

Lemma frozen_values_eq c c' :
  frozen c = frozen c' → (∀ k, getFieldValue c k = getFieldValue c' k) → c = c'.
Proof.
  intros Hf Hk.
  pose proof (Hk "rate_limit.enabled"%string) as H1. pose proof (Hk "rate_limit.per_client_rps"%string) as H2.
  pose proof (Hk "rate_limit.per_topic_rps"%string) as H3. pose proof (Hk "retention.max_age_hours"%string) as H4.
  pose proof (Hk "retention.max_size_mb"%string) as H5. pose proof (Hk "compaction.interval_ms"%string) as H6.
  pose proof (Hk "compaction.tombstone_grace_ms"%string) as H7. pose proof (Hk "drain_timeout_ms"%string) as H8.
  pose proof (Hk "flow_control_pause_ms"%string) as H9. pose proof (Hk "logging.level"%string) as H10. clear Hk.
  unfold getFieldValue in *; cbn in H1, H2, H3, H4, H5, H6, H7, H8, H9, H10.
  destruct c as [? ? ? ? [] ? [] [] ? [] ? ? ? ?], c' as [? ? ? ? [] ? [] [] ? [] ? ? ? ?].
  unfold frozen, with_timeouts, with_Logging, with_Compaction, with_Retention, with_RateLimit in Hf. cbn in *. congruence.
Qed.

(** The patch as a whole, in any order of the loop. *)
Lemma ApplyPatch_spec c l :
  NoDup l.*1 →
  match ApplyPatch c l with
  | Ok c' =>
      frozen c' = frozen c ∧ Forall (λ p, is_Some (checked p.1 p.2)) l ∧
      (∀ k raw, (k, raw) ∈ l → checked k raw = Some (getFieldValue c' k)) ∧
      (∀ k, k ∉ l.*1 → getFieldValue c' k = getFieldValue c k)
  | Error (k, e) => ∃ raw, (k, raw) ∈ l ∧ checked k raw = None
  end.
Proof.
  revert c. induction l as [|[k raw] l IH]; intros c Hnd; cbn [ApplyPatch].
  { split_and!; try done. by intros ?? ?%elem_of_nil. }
  rewrite fmap_cons in Hnd. apply NoDup_cons in Hnd as [Hk Hnd]. cbn in Hk.
  pose proof (applyField_spec c k raw) as Hf. destruct (applyField c k raw) as [c1|e].
  2: { exists raw. split; [set_solver|done]. }
  destruct Hf as (v & Hv & Hu & Ho & Hz). specialize (IH c1 Hnd).
  destruct (ApplyPatch c1 l) as [c'|[k' e]].
  - destruct IH as (I1 & I2 & I3 & I4). split_and!.
    + congruence.
    + constructor; [cbn; eauto|done].
    + intros k' raw' [[= -> ->]|Hin]%elem_of_cons; [|by apply I3]. rewrite I4 by done. congruence.
    + intros k' Hk'. rewrite fmap_cons in Hk'. rewrite I4 by set_solver. apply Ho. set_solver.
  - destruct IH as (raw' & Hin & Hn). exists raw'. split; [set_solver|done].
Qed.

(** ** The new settings can be written and read back *)

Lemma toInt_i64 raw v : toInt raw = Ok v → is_i64 v.
Proof.
  assert (∀ z, is_i64 (i64 z)) as Hi by apply i64_range.
  destruct raw as [|f| | |]; try done; cbn [toInt]; intros [= <-]; [|done].
  unfold int_of_float. destruct (float_trunc f) as [z|]; [|done].
  destruct (Z.leb_spec i64_min z), (Z.leb_spec z i64_max); cbn; try done.
  unfold is_i64, i64_min, i64_max in *. lia.
Qed.

Lemma int_field_ok raw lo set c : int_field raw lo set = Ok c → ∃ v, is_i64 v ∧ c = set v.
Proof.
  unfold int_field. destruct (toInt raw) as [v|] eqn:E; [|done]. destruct (v <? lo); [done|].
  intros [= <-]. exists v. split; [by eapply toInt_i64|done].
Qed.

Lemma level_valid s : s ∈ ["debug"; "info"; "warn"; "error"]%string → str_valid s = true.
Proof. intros H. repeat (apply elem_of_cons in H as [->|H]; [done|]). by apply elem_of_nil in H. Qed.

Lemma applyField_wf c k raw c' : applyField c k raw = Ok c' → Config_wf c → Config_wf c'.
Proof.
  intros Ha (H0 & H1 & H2 & H3 & [H4 H4'] & H5 & (H6 & H6' & H6'') & [H7 H7'] & H8 & [H9 H9'] & H10 & H11 & H12 & H13).
  unfold applyField in Ha.
  repeat match type of Ha with
  | (if (?n =? ?s)%string then _ else _) = _ => destruct (n =? s)%string
  end; try done.
  all: try (apply int_field_ok in Ha as (v & Hv & ->)).
  2-9: by repeat (first [assumption | split]).
  - destruct raw; simplify_eq. by repeat (first [assumption | split]).
  - destruct raw as [| | |s|]; simplify_eq. case_bool_decide as Hl; simplify_eq. apply level_valid in Hl.
    by repeat (first [assumption | split]).
Qed.

Lemma ApplyPatch_wf c l c' : ApplyPatch c l = Ok c' → Config_wf c → Config_wf c'.
Proof.
  revert c. induction l as [|[k raw] l IH]; intros c; cbn [ApplyPatch]; [by intros [= ->]|].
  destruct (applyField c k raw) as [c1|] eqn:E; [|done]. intros Ha Hc. eapply IH; [done|]. by eapply applyField_wf.
Qed.

(** Whatever [persistConfig] wrote, the loader reads. *)
Lemma readFile_persisted c now :
  Config_wf c → validate c = None →
  readFile (Some now) (Some (MarshalIndent (JObj (Config_fields c)))) = Ok (c, now).
Proof.
  intros Hc Hv. unfold readFile. rewrite unmarshal_with_MarshalIndent by by apply Config_valid.
  by rewrite Config_of_fields, Hv.
Qed.

(** ** The handler *)

(** The live components run on these settings. *)
Definition live_on {L} (b : Live L) (c : Config) : Prop :=
  ld_current (lv_loader b) = c ∧ lv_rateLimiter b = NewRateLimiter (Some (cf_RateLimit c)) ∧
  mg_retention (lv_topics b) = Some (cf_Retention c) ∧ lv_level b = lc_Level (cf_Logging c) ∧
  lv_drainTimeoutMs b = cf_DrainTimeoutMs c ∧ lv_flowControlPauseMs b = cf_FlowControlPauseMs c.

Lemma commit_patch_live {L} env (b : Live L) client c : live_on (commit_patch env b client c) c.
Proof. unfold live_on. destruct c as [? ? ? ? [] ? ? ? ? ? ? ? ? ?]. done. Qed.

(** A file that cannot be written is only logged: the change is live and
    answered with the settings, and the file keeps the old ones. *)
Lemma commit_patch_unsaved {L} env (b : Live L) client c :
  ld_path (lv_loader b) = EmptyString ∨ pe_io env ≠ PersistFine →
  lv_file (commit_patch env b client c) = lv_file b.
Proof.
  intros Hio. cbn [commit_patch lv_file]. unfold commit_patch, applyConfigToLive. cbv zeta. cbn [lv_file lv_loader].
  case_bool_decide; [done|]. destruct Hio as [?|Hio]; [done|]. by destruct (pe_io env).
Qed.

(** C22: a change of the settings of a running broker is exact and all or
    nothing in memory. Whatever order the maps are ranged over: a request that
    is answered with the settings came from an admin and named only fields of
    the whitelist; afterwards every field it names has the value given, every
    other setting is what it was, the settings are valid, the loader, rate
    limiter, retention, log level and timeouts run on them and the answer shows
    them. If the loader has a path and the file is written, it reads back to
    them; without a path, or when writing fails (which is only logged, the
    answer is the same), the file stays as it was. Any other answer leaves the
    broker as it was, the count of the caller's changes apart. *)
Theorem config_patch_exact {L} env (b : Live L) id changes b' r :
  pe_checked env ≡ₚ map_to_list changes → pe_applied env ≡ₚ map_to_list changes →
  Config_wf (ld_current (lv_loader b)) →
  httpConfigPatch env b id (Some changes) = (b', r) →
  match r with
  | PatchDone j =>
      let old := ld_current (lv_loader b) in
      let new := ld_current (lv_loader b') in
      is_admin id = true ∧ (∀ k, is_Some (changes !! k) → IsHotReloadable k = true) ∧
      (∀ k raw, changes !! k = Some raw → checked k raw = Some (getFieldValue new k)) ∧
      (∀ k, changes !! k = None → getFieldValue new k = getFieldValue old k) ∧
      frozen new = frozen old ∧ validate new = None ∧ live_on b' new ∧ j = effective_json new ∧
      (ld_path (lv_loader b) ≠ EmptyString → pe_io env = PersistFine →
       readFile (snd <$> lv_file b') (fst <$> lv_file b') = Ok (new, pe_now env)) ∧
      (ld_path (lv_loader b) = EmptyString ∨ pe_io env ≠ PersistFine → lv_file b' = lv_file b)
  | _ => b' = with_limiter b (lv_limiter b')
  end.
Proof.
  intros Hchk Happ Hwf H. unfold httpConfigPatch in H. destruct id as [identity|]; [|by destruct b; simplify_eq].
  destruct (is_admin (Some identity)) eqn:Ea; cbn [negb] in H; [|by destruct b; simplify_eq].
  destruct (Limiter_Allow _ _ _) as [lim []] eqn:El; cbn [negb] in H; [|by simplify_eq].
  case_bool_decide as Hne; [by simplify_eq|].
  destruct (filter _ _) as [|p rej] eqn:Ef; [|by simplify_eq].
  change (ld_current (lv_loader (with_limiter b lim))) with (ld_current (lv_loader b)) in H.
  assert (NoDup (pe_applied env).*1) as Hnd by (rewrite Happ; apply NoDup_fst_map_to_list).
  pose proof (ApplyPatch_spec (ld_current (lv_loader b)) _ Hnd) as Hs.
  destruct (ApplyPatch _ _) as [new|[k e]] eqn:Ep; [|by simplify_eq].
  destruct (validate new) eqn:Ev; [by simplify_eq|].
  destruct Hs as (S1 & _ & S3 & S4).
  pose proof (commit_patch_live env (with_limiter b lim) (id_ClientID identity) new) as Hl.
  pose proof Hl as (Hcur & _). injection H as <- <-. cbv zeta. rewrite Hcur.
  split; [done|]. split.
  { intros k [raw Hk]. apply elem_of_map_to_list in Hk. rewrite <- Hchk in Hk.
    destruct (IsHotReloadable k) eqn:E; [done|]. exfalso.
    assert ((k, raw) ∈ ([] : list (string * patch_value))) as Hin by (rewrite <- Ef; by apply list_elem_of_filter).
    by apply elem_of_nil in Hin. }
  split. { intros k raw Hk. apply S3. rewrite Happ. by apply elem_of_map_to_list. }
  split. { intros k Hk. apply S4. rewrite Happ. intros ([k' raw] & -> & Hin)%list_elem_of_fmap.
           apply elem_of_map_to_list in Hin. cbn in Hk. congruence. }
  do 4 (split; [done|]). split; [|by apply (commit_patch_unsaved env (with_limiter b lim))].
  intros Hp Hio. cbn. rewrite bool_decide_eq_false_2 by done. rewrite Hio. cbn.
  apply readFile_persisted; [by eapply ApplyPatch_wf|done].
Qed.

(** ** The limit *)

Fixpoint allow_run (times : list Z) (identity : string) (r : gmap string (Z * Z)) : nat :=
  match times with
  | [] => 0
  | now :: times =>
      let '(r, ok) := Limiter_Allow now r identity in
      ((if ok then 1 else 0) + allow_run times identity r)%nat
  end.

(** Within the minute after its first change an identity gets five. *)
Lemma five_a_minute start times identity r :
  r !! identity = None → Forall (λ t, time_sub t start <= 60 * second_ns) times →
  allow_run (start :: times) identity r = Nat.min 5 (S (length times)).
Proof.
  intros Hr Ht. cbn [allow_run]. unfold Limiter_Allow at 1. rewrite Hr.
  assert (∀ n r, r !! identity = Some (n, start) → 1 <= n <= 5 →
    allow_run times identity r = Nat.min (Z.to_nat (5 - n)) (length times)) as Hgen.
  { clear r Hr. induction Ht as [|t times Hle Ht IH]; intros n r Hr Hn; cbn [allow_run length]; [lia|].
    unfold Limiter_Allow. rewrite Hr. rewrite (proj2 (Z.ltb_ge _ _)) by lia.
    destruct (Z.leb_spec 5 n).
    - rewrite (IH n) by (done || lia). lia.
    - rewrite (IH (n + 1)) by (lia || by rewrite lookup_insert_eq). lia. }
  rewrite (Hgen 1) by (lia || by rewrite lookup_insert_eq). change (Z.to_nat (5 - 1)) with 4%nat. lia.
Qed.

(** ** What the file watcher makes of it *)

(** The tick after a change sees the file it wrote: the settings stay, and the
    authenticator and the rate limiter are built anew. *)
Lemma tick_after_patch {L} (b : Live L) c now :
  Config_wf c → validate c = None → ld_current (lv_loader b) = c → ld_modTime (lv_loader b) < now →
  lv_file b = Some (MarshalIndent (JObj (Config_fields c)), now) →
  ld_current (lv_loader (watch_tick b)) = c ∧ lv_rateLimiter (watch_tick b) = NewRateLimiter (Some (cf_RateLimit c)) ∧
  lv_auth (watch_tick b) = NewAuthenticator (cf_Auth c) ∧ lv_topics (watch_tick b) = lv_topics b.
Proof.
  intros Hwf Hv Hc Hm Hf. unfold watch_tick, reload. rewrite Hf. cbn [fmap option_fmap option_map fst snd].
  rewrite readFile_persisted by done. by rewrite (proj2 (Z.leb_gt _ _)) by lia.
Qed.

(** A file edited by hand becomes the current settings, but the retention, the
    compactor, the log level and the timeouts go on as before. *)
Lemma edited_file_half_applied {L} (b : Live L) c data now :
  unmarshal_with (Config_of defaultConfig) data = Some c → validate c = None → ld_modTime (lv_loader b) < now →
  lv_file b = Some (data, now) →
  let b' := watch_tick b in
  ld_current (lv_loader b') = c ∧ rl_cfg (lv_rateLimiter b') = cf_RateLimit c ∧
  lv_topics b' = lv_topics b ∧ lv_compactor b' = lv_compactor b ∧ lv_level b' = lv_level b ∧
  lv_drainTimeoutMs b' = lv_drainTimeoutMs b ∧ lv_flowControlPauseMs b' = lv_flowControlPauseMs b.
Proof.
  intros Hd Hv Hm Hf. unfold watch_tick, reload, readFile. rewrite Hf. cbn [fmap option_fmap option_map fst snd].
  rewrite Hd, Hv. by rewrite (proj2 (Z.leb_gt _ _)) by lia.
Qed.

(** The alias the whitelist names is refused when it is applied. *)
Lemma drain_alias_refused c raw :
  IsHotReloadable "broker.drain_timeout_ms" = true ∧
  applyField c "broker.drain_timeout_ms" raw = Error NotHotReloadable.
Proof. split; [vm_compute|]; reflexivity. Qed.

(** The file written has none of the commentary of the file read. *)
Lemma persisted_comments_lost c : jfield "_comment_broker" (Config_fields c) = None.
Proof. unfold Config_fields. by conf_eval. Qed.

(** ** Secrets *)

(** What a reader of the effective settings may not learn. *)
Definition redact (c : Config) : Config :=
  mkConfig (cf_Broker c)
    (let n := cf_Network c in
     mkNetworkConfig (nw_Host n) (nw_Port n) (nw_MaxConnections n) 0 0 0 (nw_TLSCertFile n) "" (nw_TLSMinVersion n)
       (nw_PprofEnabled n) (nw_DashboardEnabled n) (nw_ExplorerEnabled n) (nw_ExplorerMaxConnections n)
       (nw_DashboardAuthEnabled n) (nw_DashboardSessionTTL n) (nw_DashboardLoginRateLimitPerMinute n))
    (cf_Replication c) (cf_Storage c) (cf_Retention c)
    (mkAuthConfig (ac_Enabled (cf_Auth c))
       ((λ k, mkAPIKeyEntry "" (ak_ClientID k) [] (ak_Role k) (ak_Topics k)) <$> ac_APIKeys (cf_Auth c)))
    (cf_RateLimit c) (cf_Logging c) (cf_Cluster c) (cf_Compaction c) (cf_Gateway c) (cf_FlowControlPauseMs c)
    (cf_DrainTimeoutMs c) "".

(** Settings that differ in their API keys, and in nothing else but what
    [redact] clears, have the same effective settings. *)
Lemma effective_hides_keys c1 c2 : redact c1 = redact c2 → effective_json c1 = effective_json c2.
Proof.
  assert (∀ c, effective_json (redact c) = effective_json c) as He.
  { intros c. unfold effective_json, redact. cbn. by rewrite <- list_fmap_compose. }
  intros H. by rewrite <- (He c1), H.
Qed.

End Patch.

(** ** A change at work *)

Definition demo_float_out (f : spec_float) : Z := 0.

Definition demo_fmt_float (f : spec_float) : string := "2.5".

Definition demo_live : Live nat :=
  mkLive (mkLoader "broker.json" defaultConfig 0) ∅ (NewAuthenticator (cf_Auth defaultConfig))
    (NewRateLimiter (Some (cf_RateLimit defaultConfig))) (mkManager ∅ NewHashPartitioner None) None "info" 0 0 None None.

Definition demo_changes : gmap string patch_value :=
  {[ "rate_limit.per_client_rps"%string := PNum (S754_finite false 5 (-1)); "logging.level"%string := PStr "WARN" ]}.

Definition demo_env : PatchEnv := mkPatchEnv 7 (map_to_list demo_changes) (map_to_list demo_changes) (map_to_list demo_changes) PersistFine true.

Definition demo_run : Live nat * patch_reply :=
  httpConfigPatch demo_float_out id demo_fmt_float "" demo_env demo_live (Some anonymous_admin) (Some demo_changes).

(** A fraction is cut off, a level takes lower case. *)
Lemma config_patch_exact_witness :
  Config_wf defaultConfig ∧
  getFieldValue (ld_current (lv_loader demo_run.1)) "rate_limit.per_client_rps" = CInt 2 ∧
  getFieldValue (ld_current (lv_loader demo_run.1)) "logging.level" = CStr "warn" ∧
  readFile (snd <$> lv_file demo_run.1) (fst <$> lv_file demo_run.1) = Ok (ld_current (lv_loader demo_run.1), 7).
Proof.
  assert (Config_wf defaultConfig) as Hwf.
  { unfold Config_wf. repeat split; (done || (unfold is_i64; cbn; lia) || constructor). }
  assert (getFieldValue (ld_current (lv_loader demo_run.1)) "rate_limit.per_client_rps" = CInt 2 ∧
    getFieldValue (ld_current (lv_loader demo_run.1)) "logging.level" = CStr "warn") as [H1 H2]
    by (vm_compute; done).
  pose proof (config_patch_exact demo_float_out id demo_fmt_float "" demo_env demo_live (Some anonymous_admin) demo_changes demo_run.1 demo_run.2
    ltac:(reflexivity) ltac:(reflexivity) Hwf ltac:(by vm_compute)) as H.
  split; [exact Hwf|]. split; [exact H1|]. split; [exact H2|].
  assert (∃ j, demo_run.2 = PatchDone j) as [j Hj] by (eexists; vm_compute; reflexivity).
  rewrite Hj in H. destruct H as (_ & _ & _ & _ & _ & _ & _ & _ & H & _). apply H; done.
Defined.

