(* ===== verification/ConfigDefault.v ===== *)
(** * The generated settings: [GenerateDefault] of [internal/config/config.go]
    and [cmd/gen-config]

    The annotated document a user starts from, the text the command writes,
    and what the loader makes of it. *)

From S2P Require Import Prelude GoLib Json JsonIndent Types WireJson Config HotReload.

Local Open Scope Z_scope.
Local Open Scope list_scope.

(** The map literal; a map has no order, the encoder sorts the keys. *)
Definition GenerateDefault : json :=
  JObj (
  put "_comment_broker" (jstr "Node-level identification settings.") ++
  put "broker" (JObj (
    put "_comment_node_id" (jstr "Unique ID for this broker in a cluster. Must be stable across restarts.") ++
    put "node_id" (jstr "node-1"))) ++
  put "_comment_network" (jstr "TCP listener and optional TLS settings.") ++
  put "network" (JObj (
    put "_comment_host" (jstr "Interface to bind. '0.0.0.0' for all, '127.0.0.1' for loopback only.") ++
    put "host" (jstr "0.0.0.0") ++
    put "_comment_port" (jstr "TCP port. Use 0 to let the OS assign an ephemeral port (useful for tests).") ++
    put "_comment_admin_port" (jstr "The HTTP admin port is always the TCP port + 1 (9001 by default).") ++
    put "port" (JNum 9000) ++
    put "_comment_max_connections" (jstr "Maximum concurrent client connections. Excess connections are rejected.") ++
    put "max_connections" (JNum 10000) ++
    put "_comment_read_timeout" (jstr "Per-frame read deadline in nanoseconds (30 s = 30000000000).") ++
    put "read_timeout" (JNum 30000000000) ++
    put "_comment_write_timeout" (jstr "Per-frame write deadline in nanoseconds.") ++
    put "write_timeout" (JNum 30000000000) ++
    put "_comment_idle_timeout" (jstr "Idle connection timeout in nanoseconds (5 min = 300000000000).") ++
    put "idle_timeout" (JNum 300000000000) ++
    put "_comment_tls_cert_file" (jstr "Path to TLS certificate (PEM). Leave empty to disable TLS.") ++
    put "tls_cert_file" (jstr "") ++
    put "_comment_tls_key_file" (jstr "Path to TLS private key (PEM). Required when tls_cert_file is set.") ++
    put "tls_key_file" (jstr "") ++
    put "_comment_tls_min_version" (jstr "Minimum TLS version. 0 = default TLS 1.3 (0x0304). Set 0x0303 for TLS 1.2.") ++
    put "tls_min_version" (JNum 0) ++
    put "_comment_pprof_enabled" (jstr "Enable /debug/pprof/ profiling endpoint on the HTTP admin server.") ++
    put "pprof_enabled" (JBool false) ++
    put "_comment_dashboard_enabled" (jstr "Enable the embedded dashboard at GET /dashboard. Default: true.") ++
    put "dashboard_enabled" (JBool true) ++
    put "_comment_explorer_enabled" (jstr "Enable Live Message Explorer WS endpoint. Default: true (read-only live tail, same risk profile as dashboard).") ++
    put "explorer_enabled" (JBool true) ++
    put "_comment_explorer_max_conn" (jstr "Max concurrent Explorer WebSocket connections. 503 when exceeded. Default: 50.") ++
    put "explorer_max_connections" (JNum 50))) ++
  put "_comment_replication" (jstr "Leader-follower replication parameters.") ++
  put "replication" (JObj (
    put "_comment_factor" (jstr "Number of replicas per partition including the leader. Min: 1.") ++
    put "factor" (JNum 1) ++
    put "_comment_sync_interval" (jstr "Follower pull heartbeat interval in nanoseconds (100 ms = 100000000).") ++
    put "sync_interval" (JNum 100000000) ++
    put "_comment_ack_timeout" (jstr "Follower ack timeout in nanoseconds before marking out-of-sync.") ++
    put "ack_timeout" (JNum 5000000000))) ++
  put "_comment_storage" (jstr "On-disk storage engine settings.") ++
  put "storage" (JObj (
    put "_comment_wal_path" (jstr "Directory for the write-ahead log. The offset WAL is stored at <wal_path>.offsets.") ++
    put "wal_path" (jstr "./data/wal") ++
    put "_comment_data_path" (jstr "Root directory for segment files (one sub-directory per topic-partition).") ++
    put "data_path" (jstr "./data/segments") ++
    put "_comment_segment_max_bytes" (jstr "Maximum segment file size in bytes before rollover. Default: 1 GiB.") ++
    put "segment_max_bytes" (JNum 1073741824) ++
    put "_comment_index_interval_bytes" (jstr "Sparse index granularity in bytes. Smaller = faster seeks, more disk.") ++
    put "index_interval_bytes" (JNum 4096) ++
    put "_comment_sync_policy" (jstr "Fsync strategy: 'always' (safest), 'interval' (default, 100 ms ticker), 'os' (no fsync, risk of data loss on power failure).") ++
    put "sync_policy" (jstr "interval"))) ++
  put "_comment_retention" (jstr "Message retention policy applied by the background compaction loop.") ++
  put "retention" (JObj (
    put "_comment_max_age_hours" (jstr "Delete segments whose oldest record exceeds this age in hours.") ++
    put "max_age_hours" (JNum 24) ++
    put "_comment_max_size_mb" (jstr "Delete oldest non-active segments when total partition size exceeds this (MiB).") ++
    put "max_size_mb" (JNum 1024))) ++
  put "_comment_auth" (jstr "API key authentication. Keys are stored as SHA-256 hashes; plaintext is not retained.") ++
  put "auth" (JObj (
    put "_comment_enabled" (jstr "Set true to require an API key on every connection.") ++
    put "enabled" (JBool false) ++
    put "_comment_api_keys" (jstr "List of API keys. Each grants a set of permissions to a named client.") ++
    put "api_keys" (JArr [JObj (
      put "_comment_key" (jstr "Raw API key. Hashed at startup; never stored in plaintext.") ++
      put "key" (jstr "change-me-to-a-strong-random-secret") ++
      put "_comment_client_id" (jstr "Human-readable label used in audit logs.") ++
      put "client_id" (jstr "service-account-1") ++
      put "_comment_permissions" (jstr "Allowed operations: 'publish', 'subscribe', 'admin' (implies all).") ++
      put "permissions" (JArr (jstr <$> ["publish"; "subscribe"]%string)))]))) ++
  put "_comment_rate_limit" (jstr "Token-bucket rate limiting with automatic cleanup of idle buckets.") ++
  put "rate_limit" (JObj (
    put "_comment_enabled" (jstr "Set true to enforce rate limits.") ++
    put "enabled" (JBool false) ++
    put "_comment_per_client_rps" (jstr "Maximum requests per second from one client.") ++
    put "per_client_rps" (JNum 10000) ++
    put "_comment_per_topic_rps" (jstr "Maximum requests per second targeting one topic.") ++
    put "per_topic_rps" (JNum 50000) ++
    put "_comment_burst_multiplier" (jstr "Burst capacity = rate × multiplier. Must be >= 1.") ++
    put "burst_multiplier" (JNum 2))) ++
  put "_comment_logging" (jstr "Structured logging configuration.") ++
  put "logging" (JObj (
    put "_comment_level" (jstr "Minimum log level: 'debug', 'info', 'warn', 'error'.") ++
    put "level" (jstr "info") ++
    put "_comment_format" (jstr "Log format: 'json' (machine-readable) or 'text' (human-readable).") ++
    put "format" (jstr "json"))) ++
  put "_comment_cluster" (jstr "Cluster membership and leader election settings.") ++
  put "cluster" (JObj (
    put "_comment_enabled" (jstr "Activate cluster mode. Default: false (single-node).") ++
    put "enabled" (JBool false) ++
    put "_comment_node_id" (jstr "Unique stable identifier for this node in the cluster.") ++
    put "node_id" (jstr "") ++
    put "_comment_bind_addr" (jstr "host:port for inter-node TCP communication.") ++
    put "bind_addr" (jstr "") ++
    put "_comment_seeds" (jstr "List of seed node addresses to contact on startup.") ++
    put "seeds" (JArr []) ++
    put "_comment_heartbeat_interval" (jstr "Leader heartbeat period in ms. Default: 150.") ++
    put "heartbeat_interval_ms" (JNum 150) ++
    put "_comment_election_timeout_min" (jstr "Lower bound of randomised election timeout in ms. Default: 450.") ++
    put "election_timeout_min_ms" (JNum 450) ++
    put "_comment_election_timeout_max" (jstr "Upper bound of randomised election timeout in ms. Default: 750.") ++
    put "election_timeout_max_ms" (JNum 750) ++
    put "_comment_quorum_timeout_ms" (jstr "Max wait (ms) for ISR quorum ack. Default: 5000.") ++
    put "quorum_timeout_ms" (JNum 5000) ++
    put "_comment_consensus_algorithm" (jstr "Consensus mechanism: 'bully' (default) or 'raft'.") ++
    put "consensus_algorithm" (jstr "bully") ++
    put "_comment_raft_data_dir" (jstr "Directory for Raft persistent state. Defaults to <data_dir>/raft.") ++
    put "raft_data_dir" (jstr "") ++
    put "_comment_mtls_cert_file" (jstr "PEM certificate for mutual TLS between nodes. Plain TCP if any field is empty.") ++
    put "mtls_cert_file" (jstr "") ++
    put "_comment_mtls_key_file" (jstr "PEM private key for mtls_cert_file.") ++
    put "mtls_key_file" (jstr "") ++
    put "_comment_mtls_ca_file" (jstr "PEM CA certificate for verifying peer node certificates.") ++
    put "mtls_ca_file" (jstr ""))) ++
  put "_comment_compaction" (jstr "Key-based log-compaction background loop.") ++
  put "compaction" (JObj (
    put "_comment_interval_ms" (jstr "Compaction sweep period in ms. Default: 60000 (60 s).") ++
    put "interval_ms" (JNum 60000) ++
    put "_comment_tombstone_grace_ms" (jstr "Tombstone retention in ms before purge. Default: 86400000 (24 h).") ++
    put "tombstone_grace_ms" (JNum 86400000))) ++
  put "_comment_gateway" (jstr "Embedded HTTP/WebSocket gateway for browsers and SDK-less clients.") ++
  put "gateway" (JObj (
    put "_comment_enabled" (jstr "Start the gateway as part of the broker process. Default: false.") ++
    put "enabled" (JBool false) ++
    put "_comment_addr" (jstr "Listen address for the gateway HTTP server, e.g. ':8080'.") ++
    put "addr" (jstr ":8080"))) ++
  put "_comment_flow_control_pause_ms" (jstr "Pause (ms) before moving a message to the DLQ when a push consumer channel is full. 0 = default (100 ms).") ++
  put "flow_control_pause_ms" (JNum 0) ++
  put "_comment_drain_timeout_ms" (jstr "Max wait (ms) for in-flight requests during Stop(). 0 = default (5000 ms).") ++
  put "drain_timeout_ms" (JNum 0) ++
  put "_comment_audit_log_file" (jstr "Path to append-only audit log file. Empty = disabled.") ++
  put "audit_log_file" (jstr "")).

Definition member_le : relation (bytes * json) := λ a b, String.le (string_of_bytes a.1) (string_of_bytes b.1).

#[global] Instance member_le_dec a b : Decision (member_le a b) :=
  decide (String.le (string_of_bytes a.1) (string_of_bytes b.1)).

(** [encoding/json] on nested maps. *)
Fixpoint sort_keys (j : json) : json :=
  match j with
  | JArr l => JArr (map sort_keys l)
  | JObj l => JObj (merge_sort member_le (map (λ '(k, v), (k, sort_keys v)) l))
  | j => j
  end.

(** What [gen-config] writes: [Encoder.Encode] ends the document with a line
    feed. *)
Definition gen_config : bytes := MarshalIndent (sort_keys GenerateDefault) ++ [Byte.x0a].

(** The sample key of the document. *)
Definition sample_key : Auth.APIKeyEntry :=
  Auth.mkAPIKeyEntry "change-me-to-a-strong-random-secret" "service-account-1" ["publish"; "subscribe"]%string "" [].

(** The settings of the document, as changes to the defaults. *)
Definition generated_settings : Config :=
  let d := defaultConfig in
  mkConfig (cf_Broker d)
    (mkNetworkConfig "0.0.0.0" 9000 10000 (30 * second_ns) (30 * second_ns) (300 * second_ns) "" "" 0
       false true true 50 None (43200 * second_ns) 10)
    (cf_Replication d) (cf_Storage d) (cf_Retention d)
    (Auth.mkAuthConfig false [sample_key]) (cf_RateLimit d) (cf_Logging d)
    (mkClusterConfig false "" "" [] 150 450 750 5000 "bully" "" "" "" "")
    (cf_Compaction d) (mkGatewayConfig false ":8080") 0 0 "".

Lemma gen_config_decodes : unmarshal_with (Config_of defaultConfig) gen_config = Some generated_settings.
Proof. vm_compute. reflexivity. Qed.

Lemma generated_settings_wf : Config_wf generated_settings.
Proof. unfold Config_wf. repeat split; (done || (unfold is_i64; cbn; lia) || idtac). all: repeat constructor. Qed.

(** The document the command generates is accepted by the loader and
    gives the default settings but for the five it spells otherwise: the limit
    of explorer connections, the quorum timeout, the name of the consensus
    algorithm, the gateway's address, and a sample API key that is inert while
    authentication is off.  Written back the way [PATCH /config] writes it, the
    document still reads to the same settings. *)
Theorem generated_config_loads t :
  readFile (Some t) (Some gen_config) = Ok (generated_settings, t) ∧
  (∀ now, readFile (Some now) (Some (MarshalIndent (JObj (Config_fields generated_settings)))) =
     Ok (generated_settings, now)) ∧
  Auth.ac_Enabled (cf_Auth generated_settings) = false.
Proof.
  split; [|split; [|done]].
  - unfold readFile. by rewrite gen_config_decodes.
  - intros now. apply readFile_persisted; [apply generated_settings_wf|done].
Qed.

(** The settings of the sections the document does not show. *)
Definition members_of (j : json) : list (bytes * json) := match j with JObj l => l | _ => [] end.

Definition left_out : list string :=
  Config_fields generated_settings ≫= λ kv,
    let shown := default [] (members_of <$> jfield (string_of_bytes kv.1) (members_of GenerateDefault)) in
    (λ m, (string_of_bytes kv.1 +:+ "." +:+ string_of_bytes m.1)%string) <$>
      filter (λ m, jfield (string_of_bytes m.1) shown = None) (members_of kv.2).

Lemma document_incomplete :
  left_out = ["network.dashboard_session_ttl"; "network.dashboard_login_rate_limit_per_minute";
              "storage.wal_backpressure_threshold"]%string.
Proof. vm_compute. reflexivity. Qed.
