(* ===== verification/Dashboard.v ===== *)
(** * Who is calling: [session.go], [middleware.go] and [http_dashboard_auth.go] of [internal/broker]

    The session store, the identity of an HTTP request from its header, its
    cookie or the settings, the gate before the admin endpoints, and login and
    logout.  A run is a sequence of these operations with their clock readings
    and of changes of the settings. *)

From S2P Require Import Prelude GoLib Types Partition Topic RateLimit Auth AuditLog Config HotReload.

Local Open Scope Z_scope.

(** ** Sessions *)

Definition DashboardSessionTTLDefault : Z := 43200 * second_ns.

Record DashboardSession := mkDashboardSession {
  dss_Token : string;
  dss_Identity : Identity;
  dss_CreatedAt : Z;
  dss_ExpiresAt : Z;
  dss_RemoteAddr : string;
}.

Record SessionStore := mkSessionStore {
  ss_sessions : gmap string DashboardSession;
  ss_ttl : Z;
}.

Definition NewSessionStore (ttl : Z) : SessionStore :=
  mkSessionStore ∅ (if ttl <=? 0 then DashboardSessionTTLDefault else ttl).

(** [token] is the random token, [None] when the generator fails. *)
Definition SessionStore_Create (now : Z) (token : option string) (s : SessionStore) (id : Identity) (remoteAddr : string) :
    SessionStore * option DashboardSession :=
  match token with
  | None => (s, None)
  | Some token =>
      let sess := mkDashboardSession token id now (now + ss_ttl s) remoteAddr in
      (mkSessionStore (<[token := sess]> (ss_sessions s)) (ss_ttl s), Some sess)
  end.

Definition SessionStore_Revoke (s : SessionStore) (token : string) : SessionStore :=
  mkSessionStore (delete token (ss_sessions s)) (ss_ttl s).

Definition SessionStore_Get (now : Z) (s : SessionStore) (token : string) : SessionStore * option DashboardSession :=
  match ss_sessions s !! token with
  | None => (s, None)
  | Some sess => if dss_ExpiresAt sess <? now then (SessionStore_Revoke s token, None) else (s, Some sess)
  end.

Definition SessionStore_evictExpired (now : Z) (s : SessionStore) : SessionStore :=
  mkSessionStore (filter (λ p, (dss_ExpiresAt p.2 <? now) = false) (ss_sessions s)) (ss_ttl s).

(** ** The server *)

Record AdminServer := mkAdminServer {
  as_cfg : Config;
  as_auth : Authenticator;
  as_sessions : SessionStore;
  as_rateLimiter : RateLimiter;
  as_audit : option Logger;
}.

Definition as_with_sessions (a : AdminServer) (s : SessionStore) : AdminServer :=
  mkAdminServer (as_cfg a) (as_auth a) s (as_rateLimiter a) (as_audit a).

Definition dashboardAuthEnabled (c : Config) : bool :=
  if negb (nw_DashboardEnabled (cf_Network c)) then false
  else if negb (ac_Enabled (cf_Auth c)) then false
  else
    match nw_DashboardAuthEnabled (cf_Network c) with
    | Some false => false
    | _ => true
    end.

(** What the handlers read of a request: the [Authorization] header and the
    session cookie, both empty when absent. *)
Record HttpRequest := mkHttpRequest {
  hq_path : string;
  hq_authorization : string;
  hq_cookie : string;
  hq_remote : string;
  hq_tls : bool;
}.

Definition bearer : string := "Bearer ".

Definition strip_bearer (s : string) : option string :=
  if (String.substring 0 7 s =? bearer)%string then Some (String.substring 7 (String.length s - 7) s) else None.

Definition resolveFromHeader (a : AdminServer) (r : HttpRequest) : option Identity :=
  match strip_bearer (hq_authorization r) with
  | None => None
  | Some apiKey =>
      if bool_decide (apiKey = EmptyString) then None
      else match Authenticator_Authenticate (as_auth a) apiKey with Ok id => Some id | Error _ => None end
  end.

Definition resolveFromSessionCookie (now : Z) (a : AdminServer) (r : HttpRequest) : AdminServer * option Identity :=
  if bool_decide (hq_cookie r = EmptyString) then (a, None)
  else
    let '(s, sess) := SessionStore_Get now (as_sessions a) (hq_cookie r) in
    (as_with_sessions a s, dss_Identity <$> sess).

Definition resolveIdentity (now : Z) (a : AdminServer) (r : HttpRequest) : AdminServer * option Identity :=
  if negb (dashboardAuthEnabled (as_cfg a)) then (a, Some anonymous_admin)
  else
    match resolveFromHeader a r with
    | Some id => (a, Some id)
    | None => resolveFromSessionCookie now a r
    end.

(** What becomes of a request to a gated endpoint. *)
Inductive gate :=
| GateRedirect (url : string)
| GateUnauthorized
| GatePass (id : Identity).

Definition requireAuth (now : Z) (a : AdminServer) (r : HttpRequest) : AdminServer * gate :=
  match resolveIdentity now a r with
  | (a, None) =>
      (a, if bool_decide (hq_path r = "/dashboard"%string) || bool_decide (hq_path r = "/"%string)
          then GateRedirect "/dashboard" else GateUnauthorized)
  | (a, Some id) => (a, GatePass id)
  end.

(** ** Login, logout and the session endpoint *)

(** [strings.LastIndex] of a byte. *)
Fixpoint last_index (c : Ascii.ascii) (s : string) : option nat :=
  match s with
  | EmptyString => None
  | String x s =>
      match last_index c s with
      | Some n => Some (S n)
      | None => if Ascii.eqb x c then Some O else None
      end
  end.

Definition extractIP (remoteAddr : string) : string :=
  match last_index (Ascii.ascii_of_nat 58) remoteAddr with
  | Some n => String.substring 0 n remoteAddr
  | None => remoteAddr
  end.

(** [id] is the identity the gate stored with the request, if any. *)
Definition logHTTPAudit (now : Z) (ok : bool) (a : AdminServer) (evType : string) (r : HttpRequest) (id : option Identity)
    (topic : string) (success : bool) (errMsg : string) : AdminServer :=
  let details : gmap string string :=
    if bool_decide (errMsg = EmptyString) then {["source"%string := "dashboard"%string]}
    else {["source"%string := "dashboard"%string; "error_detail"%string := errMsg]} in
  mkAdminServer (as_cfg a) (as_auth a) (as_sessions a) (as_rateLimiter a)
    ((λ l, Logger_Log now ok l
       (mkEvent None evType (match id with Some id => id_ClientID id | None => "anonymous" end)
          (extractIP (hq_remote r)) topic success errMsg details)) <$> as_audit a).

(** [MaxAge] is in seconds, negative to delete. *)
Record Cookie := mkCookie {
  ck_Value : string;
  ck_Path : string;
  ck_HttpOnly : bool;
  ck_SameSiteStrict : bool;
  ck_Secure : bool;
  ck_MaxAge : Z;
}.

Inductive login_reply :=
| LoginTooMany
| LoginBadBody
| LoginNoKey
| LoginInvalid
| LoginNoSession
| LoginOK (c : Cookie).

(** [body] is the key of the decoded request. *)
Definition httpDashboardLogin (now : Z) (token : option string) (audit_ok : bool) (a : AdminServer) (r : HttpRequest)
    (body : option string) : AdminServer * login_reply :=
  let '(rl, ok) := RateLimiter_AllowClient now (as_rateLimiter a) ("dashlogin:" +:+ extractIP (hq_remote r)) in
  let a := mkAdminServer (as_cfg a) (as_auth a) (as_sessions a) rl (as_audit a) in
  if negb ok then (a, LoginTooMany)
  else
    match body with
    | None => (a, LoginBadBody)
    | Some key =>
        if bool_decide (key = EmptyString) then (a, LoginNoKey)
        else
          match Authenticator_Authenticate (as_auth a) key with
          | Error _ => (logHTTPAudit now audit_ok a EventAuth r None "" false "invalid credentials", LoginInvalid)
          | Ok id =>
              match SessionStore_Create now token (as_sessions a) id (hq_remote r) with
              | (s, None) => (as_with_sessions a s, LoginNoSession)
              | (s, Some sess) =>
                  let a := logHTTPAudit now audit_ok (as_with_sessions a s) EventAuth r None "" true "" in
                  let ttl := nw_DashboardSessionTTL (cf_Network (as_cfg a)) in
                  let ttl := if ttl <=? 0 then DashboardSessionTTLDefault else ttl in
                  (a, LoginOK (mkCookie (dss_Token sess) "/" true true (hq_tls r)
                         (default 0 (float_trunc (duration_seconds ttl)))))
              end
          end
    end.

Definition httpDashboardLogout (a : AdminServer) (r : HttpRequest) : AdminServer * Cookie :=
  (if bool_decide (hq_cookie r = EmptyString) then a
   else as_with_sessions a (SessionStore_Revoke (as_sessions a) (hq_cookie r)),
   mkCookie "" "/" true true (hq_tls r) (-1)).

(** [None] is the 401. *)
Definition httpDashboardSession (now : Z) (a : AdminServer) (r : HttpRequest) : AdminServer * option Identity :=
  if negb (dashboardAuthEnabled (as_cfg a)) then (a, Some anonymous_admin)
  else resolveFromSessionCookie now a r.

(** The login form or the dashboard itself. *)
Definition httpDashboardWithAuth (now : Z) (a : AdminServer) (r : HttpRequest) : AdminServer * bool :=
  if dashboardAuthEnabled (as_cfg a) then
    let '(a, id) := resolveFromSessionCookie now a r in (a, bool_decide (is_Some id))
  else (a, true).

(** The patterns of [buildHTTPServer] and whether the gate is before them. *)
Definition routes (c : Config) : list (string * bool) :=
  let dash := nw_DashboardEnabled (cf_Network c) in
  [("/health", false); ("/status", false); ("/metrics", false); ("/healthz/live", false); ("/healthz/ready", false);
   ("/healthz/startup", false); ("/healthz/drain", false)]%string ++
  (if dash then [("POST /dashboard/login", false); ("POST /dashboard/logout", false); ("/dashboard/login", false);
                 ("GET /dashboard/session", false)]%string else []) ++
  [("/topics", true); ("/consumers", true); ("/traces", true); ("/cluster/members", true); ("/cluster/partitions", true);
   ("/cluster/isr", true); ("/audit/recent", true); ("/dlq", true); ("POST /dlq/replay", true); ("DELETE /dlq/{id}", true);
   ("GET /dlq/{id}/export", true); ("GET /topics/{topic}/partitions/{partition}", true);
   ("GET /topics/{topic}/partitions", true); ("GET /consumers/{group}/{topic}", true); ("GET /cluster/raft", true);
   ("GET /metrics/history", true); ("GET /explorer/stream", true); ("GET /config/effective", true);
   ("PATCH /config", true); ("/debug/pprof/", false)]%string ++
  (if nw_PprofEnabled (cf_Network c) then
     [("/debug/pprof/cmdline", false); ("/debug/pprof/profile", false); ("/debug/pprof/symbol", false);
      ("/debug/pprof/trace", false)]%string else []) ++
  (if dash then [("/dashboard/", true); ("/dashboard", false); ("/", true)]%string
   else [("/dashboard", false); ("/", false)]%string).

(** ** Runs *)

Inductive dash_event :=
| DLogin (now : Z) (token : option string) (audit_ok : bool) (r : HttpRequest) (body : option string)
| DLogout (r : HttpRequest)
| DGate (now : Z) (r : HttpRequest)
| DSession (now : Z) (r : HttpRequest)
| DPage (now : Z) (r : HttpRequest)
| DCleanup (now : Z)
| DConfig (c : Config).

Definition event_time (e : dash_event) : option Z :=
  match e with
  | DLogin now _ _ _ _ | DGate now _ | DSession now _ | DPage now _ | DCleanup now => Some now
  | DLogout _ | DConfig _ => None
  end.

Definition dash_step (a : AdminServer) (e : dash_event) : AdminServer :=
  match e with
  | DLogin now token audit_ok r body => (httpDashboardLogin now token audit_ok a r body).1
  | DLogout r => (httpDashboardLogout a r).1
  | DGate now r => (requireAuth now a r).1
  | DSession now r => (httpDashboardSession now a r).1
  | DPage now r => (httpDashboardWithAuth now a r).1
  | DCleanup now => as_with_sessions a (SessionStore_evictExpired now (as_sessions a))
  | DConfig c =>
      mkAdminServer c (NewAuthenticator (cf_Auth c)) (as_sessions a) (NewRateLimiter (Some (cf_RateLimit c))) (as_audit a)
  end.

Definition dash_run (a : AdminServer) (es : list dash_event) : AdminServer := foldl dash_step a es.

(** ** The ledger: what the sessions should be

    Every successful login enters its token with the identity of the key and
    the time it runs out; a logout strikes the cookie's entry; nothing is ever
    evicted. *)

Notation ledger := (gmap string (Identity * Z)).

(** The token a login hands out and for whom. *)
Definition login_grants (now : Z) (token : option string) (a : AdminServer) (r : HttpRequest) (body : option string) :
    option (string * Identity) :=
  if negb (RateLimiter_AllowClient now (as_rateLimiter a) ("dashlogin:" +:+ extractIP (hq_remote r))).2 then None
  else
    match body, token with
    | Some key, Some token =>
        if bool_decide (key = EmptyString) then None
        else match Authenticator_Authenticate (as_auth a) key with Ok id => Some (token, id) | Error _ => None end
    | _, _ => None
    end.

Definition ledger_step (a : AdminServer) (m : ledger) (e : dash_event) : ledger :=
  match e with
  | DLogin now token _ r body =>
      match login_grants now token a r body with
      | Some (token, id) => <[token := (id, now + ss_ttl (as_sessions a))]> m
      | None => m
      end
  | DLogout r => if bool_decide (hq_cookie r = EmptyString) then m else delete (hq_cookie r) m
  | _ => m
  end.

Fixpoint ledger_run (a : AdminServer) (m : ledger) (es : list dash_event) : ledger :=
  match es with
  | [] => m
  | e :: es => ledger_run (dash_step a e) (ledger_step a m e) es
  end.

(** The store agrees with the ledger up to entries that had run out by [last]. *)
Definition ledger_rep (last : Z) (s : SessionStore) (m : ledger) : Prop :=
  ∀ t,
    match m !! t with
    | None => ss_sessions s !! t = None
    | Some (id, exp) =>
        (∃ d, ss_sessions s !! t = Some d ∧ dss_Identity d = id ∧ dss_ExpiresAt d = exp) ∨
        (ss_sessions s !! t = None ∧ exp < last)
    end.

Lemma ledger_rep_later last last' s m : last <= last' → ledger_rep last s m → ledger_rep last' s m.
Proof.
  intros Hle H t. specialize (H t). destruct (m !! t) as [[id exp]|]; [|done].
  destruct H as [H|[H1 H2]]; [by left|]. right. split; [done|lia].
Qed.

Lemma ledger_rep_revoke last s m t : ledger_rep last s m → ledger_rep last (SessionStore_Revoke s t) (delete t m).
Proof.
  intros H t'. cbn. destruct (decide (t = t')) as [->|Hne].
  - by rewrite !lookup_delete_eq.
  - rewrite !lookup_delete_ne by done. apply H.
Qed.

(** Dropping an entry that has run out. *)
Lemma ledger_rep_drop now last s m t d :
  last <= now → ledger_rep last s m → ss_sessions s !! t = Some d → dss_ExpiresAt d < now →
  ledger_rep now (SessionStore_Revoke s t) m.
Proof.
  intros Hle H Ht Hd t'. cbn. destruct (decide (t = t')) as [<-|Hne].
  - specialize (H t). rewrite lookup_delete_eq. destruct (m !! t) as [[id exp]|]; [|done].
    right. split; [done|]. destruct H as [(d' & Hd' & _ & <-)|[H _]]; congruence.
  - rewrite lookup_delete_ne by done. apply (ledger_rep_later last now s m Hle H t').
Qed.

Lemma get_rep now last s m t :
  last <= now → ledger_rep last s m →
  ledger_rep now (SessionStore_Get now s t).1 m ∧
  ss_ttl (SessionStore_Get now s t).1 = ss_ttl s ∧
  dss_Identity <$> (SessionStore_Get now s t).2 =
    match m !! t with
    | Some (id, exp) => if exp <? now then None else Some id
    | None => None
    end.
Proof.
  intros Hle H. unfold SessionStore_Get. pose proof (H t) as Ht.
  destruct (ss_sessions s !! t) as [d|] eqn:E.
  - destruct (m !! t) as [[id exp]|]; [|done]. destruct Ht as [(d' & [= <-] & <- & <-)|[Hn _]]; [|done].
    destruct (Z.ltb_spec (dss_ExpiresAt d) now).
    + split; [by eapply ledger_rep_drop|done].
    + split; [by eapply ledger_rep_later|done].
  - split; [by eapply ledger_rep_later|]. split; [done|]. destruct (m !! t) as [[id exp]|]; [|done].
    destruct Ht as [(d' & [=] & _)|[_ He]]. cbn. by rewrite (proj2 (Z.ltb_lt _ _)) by lia.
Qed.

Lemma evict_rep now last s m :
  last <= now → ledger_rep last s m → ledger_rep now (SessionStore_evictExpired now s) m.
Proof.
  intros Hle H t. specialize (H t). cbn. destruct (m !! t) as [[id exp]|].
  - destruct H as [(d & Hd & Hid & He)|[Hn He]].
    + destruct (Z.ltb_spec (dss_ExpiresAt d) now) as [Hlt|Hge].
      * right. split; [|lia]. apply map_lookup_filter_None_2. right. intros x Hx. cbn. rewrite Hd in Hx. injection Hx as <-.
        rewrite (proj2 (Z.ltb_lt _ _)) by done. done.
      * left. exists d. split; [|done]. apply map_lookup_filter_Some_2; [done|]. cbn. by apply Z.ltb_ge.
    + right. split; [|lia]. apply map_lookup_filter_None_2. by left.
  - apply map_lookup_filter_None_2. by left.
Qed.

Lemma cookie_rep now last a m r :
  last <= now → ledger_rep last (as_sessions a) m →
  ledger_rep now (as_sessions (resolveFromSessionCookie now a r).1) m.
Proof.
  intros Hle H. unfold resolveFromSessionCookie. case_bool_decide; [by eapply ledger_rep_later|].
  pose proof (get_rep now last (as_sessions a) m (hq_cookie r) Hle H) as (H1 & _). by destruct (SessionStore_Get _ _ _).
Qed.

Lemma step_rep last a m e :
  ledger_rep last (as_sessions a) m → (∀ t, event_time e = Some t → last <= t) →
  ledger_rep (default last (event_time e)) (as_sessions (dash_step a e)) (ledger_step a m e).
Proof.
  intros H Ht. destruct e as [now token ok r body|r|now r|now r|now r|now|c]; cbn [dash_step ledger_step event_time] in *;
    try (specialize (Ht now eq_refl)); cbn [default from_option Datatypes.id].
  - unfold httpDashboardLogin, login_grants.
    destruct (RateLimiter_AllowClient _ _ _) as [rl []]; cbn [negb fst snd]; [|by eapply ledger_rep_later].
    destruct body as [key|]; [|by eapply ledger_rep_later].
    case_bool_decide; [destruct token; by eapply ledger_rep_later|]. cbn.
    destruct (Authenticator_Authenticate _ key) as [id|]; [|destruct token; by eapply ledger_rep_later].
    destruct token as [token|]; cbn; [|by eapply ledger_rep_later].
    intros t. cbn. destruct (decide (token = t)) as [<-|Hne].
    + rewrite !lookup_insert_eq. left. by eexists.
    + rewrite !lookup_insert_ne by done. apply (ledger_rep_later last now _ _ Ht H t).
  - unfold httpDashboardLogout. case_bool_decide; [done|]. by apply ledger_rep_revoke.
  - unfold requireAuth, resolveIdentity. destruct (negb _); [by eapply ledger_rep_later|].
    destruct (resolveFromHeader a r); [by eapply ledger_rep_later|].
    pose proof (cookie_rep now last a m r Ht H) as Hc. by destruct (resolveFromSessionCookie now a r) as [a' []].
  - unfold httpDashboardSession. destruct (negb _); [by eapply ledger_rep_later|]. by eapply cookie_rep.
  - unfold httpDashboardWithAuth. destruct (dashboardAuthEnabled _); [|by eapply ledger_rep_later].
    pose proof (cookie_rep now last a m r Ht H) as Hc. by destruct (resolveFromSessionCookie now a r).
  - by eapply evict_rep.
  - done.
Qed.

(** The times of the events do not go back. *)
Fixpoint in_order (last : Z) (es : list dash_event) : Prop :=
  match es with
  | [] => True
  | e :: es => (∀ t, event_time e = Some t → last <= t) ∧ in_order (default last (event_time e)) es
  end.

Definition last_time (last : Z) (es : list dash_event) : Z := foldl (λ l e, default l (event_time e)) last es.

Lemma run_rep last a m es :
  ledger_rep last (as_sessions a) m → in_order last es →
  ledger_rep (last_time last es) (as_sessions (dash_run a es)) (ledger_run a m es).
Proof.
  revert last a m. induction es as [|e es IH]; intros last a m H Ho; [done|].
  destruct Ho as [He Ho]. cbn. apply IH; [by apply step_rep|done].
Qed.

(** ** Property *)

(** The settings under which nobody is asked for anything: authentication is
    off in the broker or for the dashboard, or the dashboard is off. *)
Definition gate_open (c : Config) : Prop :=
  ac_Enabled (cf_Auth c) = false ∨ nw_DashboardAuthEnabled (cf_Network c) = Some false ∨
  nw_DashboardEnabled (cf_Network c) = false.

Lemma dashboardAuthEnabled_spec c : if dashboardAuthEnabled c then ¬ gate_open c else gate_open c.
Proof.
  unfold dashboardAuthEnabled, gate_open. destruct (nw_DashboardEnabled _), (ac_Enabled _); cbn [negb]; auto.
  destruct (nw_DashboardAuthEnabled _) as [[]|]; auto; by intros [[=]|[[=]|[=]]].
Qed.

(** C23: who gets through the gate. After any run of logins, logouts, requests,
    clean-ups and changes of the settings with a clock that does not go back, a
    request to an admin endpoint passes with an identity exactly if the settings
    leave the gate open, which they do when authentication is off in the broker,
    off for the dashboard, or the dashboard itself is off, and the identity is
    the anonymous admin; or the gate is not open and its header carries a key
    that authenticates to the identity now; or, the header failing, its cookie
    is a token handed out by a login that authenticated to the identity then,
    not logged out since and within the time to live. The eviction of sessions
    is never observed. *)
Theorem dashboard_gate_exact a es now r id :
  ss_sessions (as_sessions a) = ∅ → in_order 0 es → last_time 0 es <= now →
  let a' := dash_run a es in
  (requireAuth now a' r).2 = GatePass id ↔
    (gate_open (as_cfg a') ∧ id = anonymous_admin) ∨
    (¬ gate_open (as_cfg a') ∧ resolveFromHeader a' r = Some id) ∨
    (¬ gate_open (as_cfg a') ∧ resolveFromHeader a' r = None ∧ hq_cookie r ≠ EmptyString ∧
     ∃ exp, ledger_run a ∅ es !! hq_cookie r = Some (id, exp) ∧ now <= exp).
Proof.
  intros He Ho Hl a'.
  assert (ledger_rep 0 (as_sessions a) ∅) as H0 by (intros t; rewrite lookup_empty, He; apply lookup_empty).
  pose proof (run_rep 0 a ∅ es H0 Ho) as Hr. fold a' in Hr.
  pose proof (get_rep now _ _ _ (hq_cookie r) Hl Hr) as (_ & _ & Hg).
  pose proof (dashboardAuthEnabled_spec (as_cfg a')) as Hd.
  unfold requireAuth, resolveIdentity. destruct (dashboardAuthEnabled (as_cfg a')); cbn [negb].
  2: { cbn. split; [intros [= <-]; by left|]. by intros [[_ ->]|[[? _]|[? _]]]. }
  destruct (resolveFromHeader a' r) as [id'|]; cbn.
  { split; [intros [= <-]; right; by left|]. by intros [[? _]|[[_ [= <-]]|[_ [[=] _]]]]. }
  unfold resolveFromSessionCookie. case_bool_decide as Hc; cbn.
  { split; [by destruct (_ || _)|]. by intros [[? _]|[[_ [=]]|(_ & _ & Hne & _)]]. }
  destruct (SessionStore_Get now (as_sessions a') (hq_cookie r)) as [s sess]. cbn in Hg. cbn.
  destruct sess as [d|]; cbn in *.
  - destruct (ledger_run a ∅ es !! hq_cookie r) as [[id' exp]|]; [|done]. destruct (Z.ltb_spec exp now); [done|].
    injection Hg as Hid. rewrite Hid. split.
    + intros [= <-]. right. right. split_and!; try done. exists exp. split; [done|lia].
    + by intros [[? _]|[[_ [=]]|(_ & _ & _ & exp' & [= -> _] & _)]].
  - split; [by destruct (_ || _)|]. intros [[? _]|[[_ [=]]|(_ & _ & _ & exp & Hx & Hle)]]; [done|]. rewrite Hx in Hg.
    by rewrite (proj2 (Z.ltb_ge _ _)) in Hg by lia.
Qed.

(** ** A session at work *)

Definition demo_key : APIKeyEntry := mkAPIKeyEntry "secret" "ops" [] RoleAdmin [].

Definition demo_settings (keys : list APIKeyEntry) : Config :=
  mkConfig (cf_Broker defaultConfig) (cf_Network defaultConfig) (cf_Replication defaultConfig) (cf_Storage defaultConfig)
    (cf_Retention defaultConfig) (mkAuthConfig true keys) (cf_RateLimit defaultConfig) (cf_Logging defaultConfig)
    (cf_Cluster defaultConfig) (cf_Compaction defaultConfig) (cf_Gateway defaultConfig) 0 0 "".

Definition demo_server : AdminServer :=
  mkAdminServer (demo_settings [demo_key]) (NewAuthenticator (cf_Auth (demo_settings [demo_key]))) (NewSessionStore 100)
    (NewRateLimiter (Some (cf_RateLimit defaultConfig))) None.

Definition demo_request (cookie : string) : HttpRequest := mkHttpRequest "/topics" "" cookie "10.0.0.1:4000" false.

Definition demo_dash_events : list dash_event :=
  [DLogin 5 (Some "t1"%string) true (demo_request "") (Some "secret"%string); DGate 50 (demo_request "t1"); DCleanup 90].

Lemma dashboard_gate_exact_witness :
  in_order 0 demo_dash_events ∧ extractIP (hq_remote (demo_request "")) = "10.0.0.1"%string ∧
  (requireAuth 105 (dash_run demo_server demo_dash_events) (demo_request "t1")).2 = GatePass (identity_of demo_key) ∧
  (requireAuth 106 (dash_run demo_server demo_dash_events) (demo_request "t1")).2 ≠ GatePass (identity_of demo_key).
Proof.
  assert (in_order 0 demo_dash_events) as Ho.
  { cbn. repeat split; intros t [= <-]; lia. }
  split; [exact Ho|]. split; [reflexivity|].
  pose proof (λ now H, dashboard_gate_exact demo_server demo_dash_events now (demo_request "t1") (identity_of demo_key)
    eq_refl Ho H) as Hg. cbv zeta in Hg.
  assert (ledger_run demo_server ∅ demo_dash_events !! "t1"%string = Some (identity_of demo_key, 105)) as Hl
    by (vm_compute; reflexivity).
  assert (resolveFromHeader (dash_run demo_server demo_dash_events) (demo_request "t1") = None) as Hh by reflexivity.
  assert (¬ gate_open (as_cfg (dash_run demo_server demo_dash_events))) as He
    by exact (dashboardAuthEnabled_spec (as_cfg (dash_run demo_server demo_dash_events))).
  split.
  - apply (Hg 105); [cbn; lia|]. right. right. split; [exact He|]. split; [exact Hh|].
    split; [discriminate|]. exists 105. split; [exact Hl|lia].
  - intros Hp. apply (Hg 106 ltac:(cbn; lia)) in Hp. destruct Hp as [[H _]|[[_ H]|(_ & _ & _ & exp & Hx & Hle)]].
    + exact (He H).
    + rewrite Hh in H. discriminate H.
    + change (hq_cookie (demo_request "t1")) with "t1"%string in Hx. rewrite Hl in Hx. injection Hx as <-. lia.
Defined.

(** A key taken out of the settings goes on opening the dashboard through the
    session of an earlier login. *)
Lemma session_outlives_key :
  let a := dash_run demo_server (demo_dash_events ++ [DConfig (demo_settings [])]) in
  Authenticator_Authenticate (as_auth a) "secret" = Error UnknownAPIKey ∧
  (requireAuth 100 a (demo_request "t1")).2 = GatePass (identity_of demo_key).
Proof. vm_compute. done. Qed.

(** With the dashboard switched off nobody is asked for a key: every admin
    endpoint, [PATCH /config] included, takes anyone for an admin. *)
Lemma dashboard_off_opens_api a now r :
  nw_DashboardEnabled (cf_Network (as_cfg a)) = false →
  requireAuth now a r = (a, GatePass anonymous_admin) ∧ is_admin (Some anonymous_admin) = true ∧
  ("PATCH /config"%string, true) ∈ routes (as_cfg a).
Proof.
  intros Hd. unfold requireAuth, resolveIdentity, dashboardAuthEnabled. rewrite Hd. split; [done|]. split; [done|].
  unfold routes. rewrite Hd. cbn [app]. set_solver.
Qed.

(** The limit on logins is the rate limit of clients: none when that is off. *)
Lemma login_unlimited now token ok a r body :
  rl_Enabled (rl_cfg (as_rateLimiter a)) = false → (httpDashboardLogin now token ok a r body).2 ≠ LoginTooMany.
Proof.
  intros Hr. unfold httpDashboardLogin, RateLimiter_AllowClient. rewrite Hr. cbn [negb].
  destruct body as [key|]; [|done]. case_bool_decide; [done|]. destruct (Authenticator_Authenticate _ key); [|done].
  by destruct token.
Qed.
