(* ===== verification/AdminHttp.v ===== *)
(** * The admin endpoints: [http_dlq.go], [http_consumers.go], [http_audit_dashboard.go] and [http_health.go] of [internal/broker]

    The dead-letter queue over HTTP (listing, purge, replay, deletion, export),
    the consumer groups with their lag, the audit events and the probes.  A
    handler gets the parameters of the request as strings; a nil pointer that
    is followed panics. *)

From S2P Require Import Prelude GoLib Json Types Segment PartitionLog Wal WalStores Partition Topic Dedup Producer.
From S2P Require Import DeadLetter Consumer RateLimit Auth AuditLog Broker.

Local Open Scope Z_scope.

(** [strconv.Atoi] of a positive limit. *)
Definition parse_limit (dflt : Z) (s : string) : Z :=
  if bool_decide (s = EmptyString) then dflt
  else match ParseInt s with Some n => if 0 <? n then n else dflt | None => dflt end.

Inductive http_method :=
| MethodGet
| MethodDelete
| MethodPost
| MethodOther.

Section AdminHttp.
Context {L : Type} `{LogStore L} `{Deflate}.
(** [Format(time.RFC3339)] in the zone of the machine. *)
Context (fmt_time : Z → string).
Implicit Type b : Broker L.

(** ** The dead-letter queue *)

Record dlqRow := mkDlqRow {
  dr_ID : string;
  dr_Topic : string;
  dr_Partition : Z;
  dr_Offset : Z;
  dr_Key : string;
  dr_Attempts : Z;
  dr_EnqueuedAt : string;
  dr_PayloadB64 : bytes;
}.

Definition dlq_row (m : Message) (e : DLQEntry) : dlqRow :=
  mkDlqRow (msg_ID m) (msg_Topic m) (msg_Partition m) (msg_Offset m) (msg_Key m) (de_Attempts e)
    (fmt_time (de_ArrivedAt e)) (b64_encode (msg_Payload m)).

Inductive replay_err :=
| ReplayNil
| ReplayPublish (e : pub_err).

Inductive dlq_reply :=
| DlqPanic
| DlqNone
| DlqRows (rows : list dlqRow)
| DlqPurged (n : Z)
| DlqNotAllowed
| DlqReplayed (n remaining : Z)
| DlqReplayFailed (e : pub_err)
| DlqNotFound
| DlqDeleted
| DlqExport (row : dlqRow) (group reason : string).

Definition httpDLQ b (method : http_method) (group topic limit : string) : Broker L * dlq_reply :=
  match method with
  | MethodGet =>
      match GroupManager_DLQEntries (b_consumers b) group topic (parse_limit 100 limit) with
      | [] => (b, DlqNone)
      | entries =>
          match mapM (λ e, (λ m, dlq_row m e) <$> de_Original e) entries with
          | None => (b, DlqPanic)
          | Some rows => (b, DlqRows rows)
          end
      end
  | MethodDelete =>
      let '(g, n) := GroupManager_DLQPurge (b_consumers b) group topic in (set_consumers b g, DlqPurged n)
  | _ => (b, DlqNotAllowed)
  end.

(** What a replayed entry is published with: the codec where the delivery
    mode goes, no sequence number, no codec. *)
Definition replay_args (m : Message) : PubArgs :=
  mkPubArgs (msg_Topic m) (msg_Key m) (msg_Payload m) (msg_Headers m) (DeliveryMode_of (msg_Codec m)) 0 0 "".

Definition replay_one (s : Producer * Manager L * list PubEnv) (m : option Message) :
    (Producer * Manager L * list PubEnv) * result unit replay_err :=
  match m with
  | None => (s, Error ReplayNil)
  | Some m =>
      let '(p, mg, envs) := s in
      let '(p, mg, r) := Producer_Publish (default (mkPubEnv "" 0 [] []) (head envs)) p mg (replay_args m) in
      ((p, mg, tail envs), match r with Ok _ => Ok tt | Error e => Error (ReplayPublish e) end)
  end.

(** [envs] is what each publish meets. *)
Definition httpDLQReplay (envs : list PubEnv) b (method : http_method) (group topic limit : string) :
    Broker L * dlq_reply :=
  match method with
  | MethodPost =>
      let '(g, (p, m, _), n, r) :=
        GroupManager_DLQReplay (b_consumers b) group topic (parse_limit 10 limit) replay_one
          (b_producers b, b_topics b, envs) in
      let b := set_topics (set_producers (set_consumers b g) p) m in
      (b, match r with
          | Error ReplayNil => DlqPanic
          | Error (ReplayPublish e) => DlqReplayFailed e
          | Ok _ => DlqReplayed n (zlen (GroupManager_DLQEntries (b_consumers b) group topic 0))
          end)
  | _ => (b, DlqNotAllowed)
  end.

Definition httpDLQDelete b (id group topic : string) : Broker L * dlq_reply :=
  let '(g, ok) := GroupManager_DLQDelete (b_consumers b) group topic id in
  (set_consumers b g, if ok then DlqDeleted else DlqNotFound).

Definition httpDLQExport b (id group topic : string) : dlq_reply :=
  match GroupManager_DLQGet (b_consumers b) group topic id with
  | None => DlqNotFound
  | Some e =>
      match de_Original e with
      | None => DlqPanic
      | Some m => DlqExport (dlq_row m e) (de_Group e) (de_Reason e)
      end
  end.

(** ** Consumer groups *)

Record groupRow := mkGroupRow {
  gw_Group : string;
  gw_Topic : string;
  gw_Partition : Z;
  gw_Lag : Z;
}.

(** The next offset of a partition, 0 when there is none. *)
Definition log_head b (topic : string) (partition : Z) : Z :=
  match Manager_Get (b_topics b) topic with
  | Error _ => 0
  | Ok tp => match Topic_PartitionLog tp partition with Error _ => 0 | Ok pl => ls_next pl end
  end.

Definition group_rows b (g : GroupSummary) : list groupRow :=
  (λ '(part, off),
     let lag := i64 (log_head b (gs_Topic g) part - off) in
     mkGroupRow (gs_Group g) (gs_Topic g) part (if lag <? 0 then 0 else lag)) <$> gs_CommittedOffsets g.

(** [order] is the order in which the groups are listed. *)
Definition httpConsumers b (order : list string) : list groupRow :=
  GroupManager_ListGroups (b_consumers b) order ≫= group_rows b.

Definition httpConsumerGroupDetail b (group topic : string) (order : list string) : option GroupDetail :=
  GroupManager_GetGroupDetail (b_consumers b) group topic (log_head b) order.

(** ** Audit events *)

Definition httpAuditRecent b (n : string) : list Event :=
  match b_audit b with
  | None => []
  | Some l => Logger_Recent l (parse_limit 100 n)
  end.

(** ** Replays *)

(** A replay counts one entry for each publish that went through, and stops
    at the first that did not. *)
Lemma republish_loop_count {S E} (f : S → option Message → S * result unit E) s l n s' n' r :
  republish_loop f s l n = (s', n', r) →
  n <= n' <= n + zlen l ∧ (r = Ok tt → n' = n + zlen l) ∧ (r ≠ Ok tt → n' < n + zlen l).
Proof.
  revert s n. induction l as [|e l IH]; intros s n; cbn [republish_loop].
  { intros [= <- <- <-]. change (zlen []) with 0. split_and!; try lia. done. }
  rewrite zlen_cons. pose proof (zlen_nonneg l). destruct (f s (de_Original e)) as [s1 [[]|err]].
  - intros Hl. apply IH in Hl as (I1 & I2 & I3). split; [lia|]. split; intros Hr; [specialize (I2 Hr)|specialize (I3 Hr)]; lia.
  - intros [= <- <- <-]. split_and!; [lia|lia|done|lia].
Qed.

Lemma DLQ_Replay_queue g group topic limit {S E} (f : S → option Message → S * result unit E) s g' s' n r :
  GroupManager_DLQReplay g group topic limit f s = (g', s', n, r) →
  gm_dlq g' = (DLQ_Replay (gm_dlq g) group topic limit).1 ∧
  republish_loop f s (DLQ_Replay (gm_dlq g) group topic limit).2 0 = (s', n, r).
Proof.
  unfold GroupManager_DLQReplay. destruct (DLQ_Replay _ _ _ _) as [q es]. cbn.
  destruct (republish_loop f s es 0) as [[s1 n1] r1] eqn:El. intros [= <- <- <- <-]. done.
Qed.

(** What a replay does to the queue whatever comes of the publishes: the
    selected entries are gone.  It reports their number exactly if each of them
    was published; otherwise fewer were, and the others are in neither the
    queue nor a topic. *)
Lemma replay_outcome envs b group topic limit b' reply :
  httpDLQReplay envs b MethodPost group topic limit = (b', reply) →
  let sel := DLQ_Replay (gm_dlq (b_consumers b)) group topic (parse_limit 10 limit) in
  gm_dlq (b_consumers b') = sel.1 ∧
  match reply with
  | DlqReplayed n _ => n = zlen sel.2
  | DlqReplayFailed _ | DlqPanic =>
      ∃ n s r, republish_loop replay_one (b_producers b, b_topics b, envs) sel.2 0 = (s, n, r) ∧ n < zlen sel.2
  | _ => False
  end.
Proof.
  unfold httpDLQReplay.
  destruct (GroupManager_DLQReplay _ _ _ _ _ _) as [[[g [[p m] envs']] n] r] eqn:E. intros [= <- <-].
  apply DLQ_Replay_queue in E as [Hq Hl]. pose proof (republish_loop_count _ _ _ _ _ _ _ Hl) as (_ & Hok & Hko).
  split; [exact Hq|]. destruct r as [[]|[|e]].
  - specialize (Hok eq_refl). lia.
  - eexists _, _, _. split; [exact Hl|]. specialize (Hko ltac:(done)). lia.
  - eexists _, _, _. split; [exact Hl|]. specialize (Hko ltac:(done)). lia.
Qed.

(** An entry without a message, as a nack beyond the end of the log makes
    it, lets every listing that reaches it panic. *)
Lemma listing_panics b group topic limit e :
  e ∈ GroupManager_DLQEntries (b_consumers b) group topic (parse_limit 100 limit) → de_Original e = None →
  httpDLQ b MethodGet group topic limit = (b, DlqPanic).
Proof.
  intros Hin Hn. unfold httpDLQ. destruct (GroupManager_DLQEntries _ _ _ _) as [|x es] eqn:E; [by apply elem_of_nil in Hin|].
  destruct (mapM _ (x :: es)) as [rows|] eqn:Em; [|done]. exfalso.
  apply mapM_Some_1 in Em. apply list_elem_of_lookup_1 in Hin as [i Hi].
  destruct (Forall2_lookup_l _ _ _ _ _ Em Hi) as (y & _ & Hy). by rewrite Hn in Hy.
Qed.

(** The replay of a message stored without compression is published at most
    once: one attempt, whatever mode it was published with. *)
Lemma replay_mode_is_codec m : msg_Codec m = 0 → pa_mode (replay_args m) = AtMostOnce.
Proof. intros Hc. unfold replay_args. cbn. by rewrite Hc. Qed.

(** The lag shown is never negative. *)
Lemma consumer_lag_nonneg b order row : row ∈ httpConsumers b order → 0 <= gw_Lag row.
Proof.
  unfold httpConsumers. intros (g & Hrow & _)%list_elem_of_bind. unfold group_rows in Hrow.
  apply list_elem_of_fmap in Hrow as ([part off] & -> & _). cbn. destruct (Z.ltb_spec (i64 (log_head b (gs_Topic g) part - off)) 0); lia.
Qed.

End AdminHttp.

(** ** Probes *)

Record Probes := mkProbes {
  pb_status : string;
  pb_node : string;
  pb_ready : bool;
  pb_cluster : bool;
  pb_draining : bool;
  pb_inFlight : Z;
}.

Definition NodeActive : string := "ACTIVE".
Definition NodeDegraded : string := "DEGRADED".

Definition httpHealth (p : Probes) : Z * json :=
  (if bool_decide (pb_status p ∈ [NodeActive; NodeDegraded]) then 200 else 503,
   JObj (put "node_id" (jstr (pb_node p)) ++ put "status" (jstr (pb_status p)))).

Definition httpHealthLive : Z * json := (200, JObj (put "status" (jstr "ok"))).

Definition httpHealthReady (p : Probes) : Z * json :=
  if negb (pb_ready p) then
    (503, JObj (put "reason" (jstr "broker startup in progress") ++ put "status" (jstr "not_ready")))
  else
    (200, JObj (put "cluster_enabled" (JBool (pb_cluster p)) ++ put "node_id" (jstr (pb_node p)) ++
                put "status" (jstr "ready"))).

Definition httpHealthStartup (p : Probes) : Z * json :=
  if negb (pb_ready p) then (503, JObj (put "status" (jstr "not_ready"))) else (200, JObj (put "status" (jstr "ok"))).

Definition httpHealthDrain (p : Probes) : Z * json :=
  (200, if pb_draining p then JObj (put "draining" (JBool true) ++ put "in_flight" (JNum (pb_inFlight p)))
        else JObj (put "draining" (JBool false))).
