(* ===== verification/AdminViews.v ===== *)
(** * Views over HTTP: [http_topics.go], [http_cluster.go] and [http_metrics.go] of [internal/broker]

    The topics and their partitions, the cluster, the in-sync replicas, and the
    metrics with their history.  A map ranged over comes as an argument that
    gives its order.  The creation time of a topic, the consumed platform
    figures and the texts of errors are left out. *)

From Stdlib Require Import SpecFloat.
From S2P Require Import Prelude GoLib Json Types Segment PartitionLog Partition Topic Dedup Producer DeadLetter Consumer.
From S2P Require Import WireJson WireReply Cluster Transport Bully Raft Replicator ClusterNode BrokerCluster RateLimit Auth AuditLog.
From S2P Require Import Broker BrokerConsumer BrokerDispatch Explorer Metrics FloatExact.

Local Open Scope Z_scope.

(** What a partition log says of its files. *)
Record LogSizes := mkLogSizes {
  sz_SegmentCount : Z;
  sz_TotalLogSize : Z;
  sz_ActiveSegmentBytes : Z;
}.

Definition partition_log_sizes (pl : PartitionLog) : LogSizes :=
  mkLogSizes (PartitionLog_SegmentCount pl) (PartitionLog_totalLogSize pl) (PartitionLog_ActiveSegmentBytes pl).

Section Views.
Context {L : Type} `{LogStore L}.
Context (sizes : L → LogSizes).
(** The present time, and the order of the replicas of each partition. *)
Context (now : Z) (isr_order : string → Z → list string).
Implicit Type b : Broker L.

(** ** Topics *)

Record topicRow := mkTopicRow {
  tr_Config : TopicConfig;
  tr_MessageCount : Z;
  tr_StorageSizeBytes : Z;
}.

(** The log of a partition, looked up by name each time. *)
Definition log_of b (topic : string) (p : Z) : option L :=
  match Manager_Get (b_topics b) topic with
  | Error _ => None
  | Ok tp => match Topic_PartitionLog tp p with Error _ => None | Ok pl => Some pl end
  end.

Definition topic_row b (cfg : TopicConfig) : topicRow :=
  let '(msgCount, storageBytes) :=
    foldl (λ acc p,
      match log_of b (tc_Name cfg) p with
      | Some pl => (i64 (acc.1 + ls_next pl), i64 (acc.2 + sz_TotalLogSize (sizes pl)))
      | None => acc
      end) (0, 0) (seqZ 0 (i32 (tc_Partitions cfg))) in
  mkTopicRow cfg msgCount storageBytes.

Definition httpTopics b : list topicRow := topic_row b <$> Manager_List (b_topics b).

(** ** Partitions *)

Record partitionRow := mkPartitionRow {
  pr_topic : string;
  pr_partition : Z;
  pr_leader_node_id : string;
  pr_wal_status : string;
  pr_wal_pending_bytes : Z;
  pr_isr : list string;
  (** In the order of a map. *)
  pr_replicas : gset string;
  pr_under_replicated : bool;
  pr_sizes : LogSizes;
}.

Definition min_isr (cfg : TopicConfig) : Z := if tc_MinISR cfg <? 1 then 1 else tc_MinISR cfg.

(** [nodeID] is the name in the settings, that of the cluster node when there is
    one. *)
Definition self_id (nodeID : string) (node : option (Node L)) : string :=
  match node with None => nodeID | Some n => SelfID n end.

Definition partition_row b (nodeID : string) (node : option (Node L)) (topic : string) (p : Z) (cfg : option TopicConfig)
    (pl : L) : partitionRow :=
  let nodeID := self_id nodeID node in
  let walPending := b_pendingWALBytes b in
  let walStatus := if 0 <? walPending then "pending"%string else "synced"%string in
  let '(isr, replicas, under) :=
    match node with
    | None => ([nodeID], {[ nodeID ]}, false)
    | Some n =>
        match getISRTracker n topic p with
        | None => ([nodeID], {[ nodeID ]}, false)
        | Some tracker =>
            let order := isr_order topic p in
            let isr := ISRTracker_ISR now order tracker nodeID (ls_next pl) in
            (isr, {[ nodeID ]} ∪ list_to_set (is_NodeID <$> ISRTracker_Snapshot order tracker),
             match cfg with Some cfg => zlen isr <? min_isr cfg | None => false end)
        end
    end in
  mkPartitionRow topic p nodeID walStatus walPending isr replicas under (sizes pl).

Inductive view_reply {A} :=
| ViewOk (x : A)
| ViewBadRequest
| ViewNotFound.
Arguments view_reply : clear implicits.

(** [strconv.ParseInt(s, 10, 32)]. *)
Definition ParseInt32 (s : string) : option Z :=
  match ParseInt s with
  | Some z => if (- 2 ^ 31 <=? z) && (z <? 2 ^ 31) then Some z else None
  | None => None
  end.

Definition httpPartitionDetail b (nodeID : string) (node : option (Node L)) (topic partStr : string) :
    view_reply partitionRow :=
  match ParseInt32 partStr with
  | None => ViewBadRequest
  | Some part =>
      match Manager_Get (b_topics b) topic with
      | Error _ => ViewNotFound
      | Ok tp =>
          match Topic_PartitionLog tp part with
          | Error _ => ViewNotFound
          | Ok pl =>
              ViewOk (partition_row b nodeID node topic part
                (match Manager_Get (b_topics b) topic with Ok tp => Some (Topic_Config tp) | Error _ => None end) pl)
          end
      end
  end.

Definition httpPartitionList b (nodeID : string) (node : option (Node L)) (topic : string) :
    view_reply (list partitionRow) :=
  match Manager_Get (b_topics b) topic with
  | Error _ => ViewNotFound
  | Ok tp =>
      let cfg := Topic_Config tp in
      ViewOk (omap (λ p,
        match Topic_PartitionLog tp (i32 p) with
        | Error _ => None
        | Ok pl => Some (partition_row b nodeID node topic (i32 p) (Some cfg) pl)
        end) (seqZ 0 (tc_Partitions cfg)))
  end.

(** ** The cluster *)

Definition httpClusterMembers (nodeID addr httpAddr : string) (node : option (Node L)) : list Member :=
  match node with
  | None => [mkMember nodeID addr httpAddr 0]
  | Some n => Node_Members n
  end.

(** The partition map, an empty object without a cluster. *)
Definition httpClusterPartitions (node : option (Node L)) : bytes :=
  match node with
  | None => print (JObj [])
  | Some n => PartitionMap_MarshalJSON (cn_partMap n)
  end.

Record isrEntry := mkIsrEntry {
  ie_Topic : string;
  ie_Partition : Z;
  ie_ISR : list string;
  ie_Leader : string;
  ie_UnderReplicated : bool;
}.

(** The test of the sort: the first entry belongs after the second. *)
Definition isr_after (a c : isrEntry) : bool :=
  bool_decide (strict String.le (ie_Topic c) (ie_Topic a)) ||
  (bool_decide (ie_Topic a = ie_Topic c) && (ie_Partition c <? ie_Partition a)).

(** One round of the sort, over the prefix sorted so far with its last entry
    first: [x] is the entry at [j], compared with the one before it, down to
    the front whatever the comparisons say. *)
Fixpoint sift (x : isrEntry) (prefix : list isrEntry) : list isrEntry :=
  match prefix with
  | [] => [x]
  | y :: prefix => if isr_after y x then y :: sift x prefix else x :: sift y prefix
  end.

Definition isr_sort (entries : list isrEntry) : list isrEntry := reverse (foldl (λ prefix x, sift x prefix) [] entries).

Definition isr_entry b (n : Node L) (leader : string) (key : string * Z) : option isrEntry :=
  let '(topicName, partIdx) := key in
  tracker ← getISRTracker n topicName partIdx;
  match Manager_Get (b_topics b) topicName with
  | Error _ => None
  | Ok tp =>
      match Topic_PartitionLog tp partIdx with
      | Error _ => None
      | Ok pl =>
          let isr := ISRTracker_ISR now (isr_order topicName partIdx) tracker (SelfID n) (ls_next pl) in
          Some (mkIsrEntry topicName partIdx isr leader (zlen isr <? min_isr (Topic_Config tp)))
      end
  end.

(** [order] is the order of the trackers. *)
Definition httpClusterISR b (node : option (Node L)) (order : list (string * Z)) : list isrEntry :=
  match node with
  | None => []
  | Some n =>
      let leader := default EmptyString (mb_NodeID <$> Node_Leader n) in
      isr_sort (omap (isr_entry b n leader) order)
  end.

Definition Node_RaftSnapshot (n : Node L) : option NodeSnapshot := Node_Snapshot <$> cn_raftNode n.

(** The fields of a snapshot in the order of their names. *)
Definition raft_fields (snap : NodeSnapshot) : list (bytes * json) :=
  put "commit_index" (JNum (sn_CommitIndex snap)) ++ put "last_applied" (JNum (sn_LastApplied snap)) ++
  put "leader_id" (jstr (sn_LeaderID snap)) ++ put "log_length" (JNum (sn_LogLength snap)) ++
  put "match_index" (JObj (imap_members (sn_MatchIndex snap))) ++
  put "next_index" (JObj (imap_members (sn_NextIndex snap))) ++
  put "role" (jstr (sn_Role snap)) ++ put "term" (JNum (sn_Term snap)) ++ [].

(** [None] is the reply 404: no cluster, or no Raft. *)
Definition httpClusterRaft (node : option (Node L)) : option bytes :=
  n ← node; snap ← Node_RaftSnapshot n; Some (print (JObj (raft_fields snap))).

(** ** Metrics *)

(** The figures of the platform: resident memory, collections since the last
    call, processor time. *)
Record Runtime := mkRuntime {
  rt_resident : spec_float;
  rt_gc : Z;
  rt_cpu : spec_float;
}.

(** What the two handlers read and write. *)
Record MetricState := mkMetricState {
  ms_reg : Registry;
  ms_prevSent : Z;
  ms_prevDropped : Z;
}.

Definition do_metric (e : metric_event) (s : MetricState) : MetricState :=
  mkMetricState (metric_step (ms_reg s) e) (ms_prevSent s) (ms_prevDropped s).

(** The lag of every partition of every group, in the order they are listed. *)
Definition lag_total b (order : list string) : spec_float :=
  foldl (λ acc go,
    match log_of b go.1 go.2.1 with
    | None => acc
    | Some pl => if go.2.2 <? ls_next pl then f64_add acc (f64_of_int (i64 (ls_next pl - go.2.2))) else acc
    end) (S754_zero false)
    (GroupManager_ListGroups (b_consumers b) order ≫= λ g, (λ off, (gs_Topic g, off)) <$> gs_CommittedOffsets g).

(** The sums of the loop over the trackers. *)
Record isr_sums := mkIsrSums {
  su_total : spec_float;
  su_count : Z;
  su_maxLag : Z;
  su_under : Z;
}.

Definition isr_sum b (n : Node L) (s : isr_sums) (key : string * Z) : isr_sums :=
  match getISRTracker n key.1 key.2, Manager_Get (b_topics b) key.1 with
  | Some tracker, Ok tp =>
      match Topic_PartitionLog tp key.2 with
      | Error _ => s
      | Ok pl =>
          let order := isr_order key.1 key.2 in
          let isr := ISRTracker_ISR now order tracker (SelfID n) (ls_next pl) in
          mkIsrSums (f64_add (su_total s) (f64_of_int (zlen isr))) (su_count s + 1)
            (foldl (λ m st, let lag := i64 (ls_next pl - is_LastOffset st) in if m <? lag then lag else m) (su_maxLag s)
               (ISRTracker_Snapshot order tracker))
            (if zlen isr <? min_isr (Topic_Config tp) then su_under s + 1 else su_under s)
      end
  | _, _ => s
  end.

Definition cluster_metrics b (bm : BrokerMetrics) (n : Node L) (order : list (string * Z)) (s : MetricState) : MetricState :=
  let u := foldl (isr_sum b n) (mkIsrSums (S754_zero false) 0 0 0) order in
  let s := do_metric (GaugeSet (bm_ISRSize bm)
    (if 0 <? su_count u then f64_div (su_total u) (f64_of_int (su_count u)) else S754_zero false)) s in
  let s := do_metric (GaugeSet (bm_ClusterReplicationLag bm) (f64_of_int (su_maxLag u))) s in
  do_metric (GaugeSet (bm_UnderReplicated bm) (f64_of_int (su_under u))) s.

(** The two counters of the explorer: the total and its growth since the last
    scrape are read, then the growth is added and the total remembered.  No
    lock holds the two together. *)
Definition sent_read (hub : ExplorerHub) (s : MetricState) : option (Z * Z) :=
  if ms_prevSent s <? xh_sentTotal hub
  then Some (xh_sentTotal hub, u64 (xh_sentTotal hub - ms_prevSent s)) else None.

Definition sent_write (bm : BrokerMetrics) (w : Z * Z) (s : MetricState) : MetricState :=
  let s := do_metric (CounterInc (bm_ExplorerMessagesSentTotal bm) w.2) s in
  mkMetricState (ms_reg s) w.1 (ms_prevDropped s).

Definition dropped_read (hub : ExplorerHub) (s : MetricState) : option (Z * Z) :=
  if ms_prevDropped s <? xh_droppedTotal hub
  then Some (xh_droppedTotal hub, u64 (xh_droppedTotal hub - ms_prevDropped s)) else None.

Definition dropped_write (bm : BrokerMetrics) (w : Z * Z) (s : MetricState) : MetricState :=
  let s := do_metric (CounterInc (bm_ExplorerMessagesDroppedTotal bm) w.2) s in
  mkMetricState (ms_reg s) (ms_prevSent s) w.1.

Definition explorer_metrics (bm : BrokerMetrics) (hub : ExplorerHub) (s : MetricState) : MetricState :=
  let s := do_metric (GaugeSet (bm_ExplorerActiveSessions bm) (f64_of_int (xh_activeSessions hub))) s in
  let s := match sent_read hub s with Some w => sent_write bm w s | None => s end in
  match dropped_read hub s with Some w => dropped_write bm w s | None => s end.

(** One scrape, with no other scrape at work. *)
Definition updateDynamicMetrics b (bm : BrokerMetrics) (node : option (Node L)) (groups : list string)
    (trackers : list (string * Z)) (rt : Runtime) (hub : ExplorerHub) (s : MetricState) : MetricState :=
  let topics := Manager_List (b_topics b) in
  let s := do_metric (GaugeSet (bm_TopicCount bm) (f64_of_int (zlen topics))) s in
  let s := do_metric (GaugeSet (bm_PartitionCount bm)
    (f64_of_int (foldl (λ n cfg, i64 (n + tc_Partitions cfg)) 0 topics))) s in
  let s := do_metric (GaugeSet (bm_ConsumerLagTotal bm) (lag_total b groups)) s in
  let s := do_metric (GaugeSet (bm_ActiveConsumerGroups bm)
    (f64_of_int (zlen (GroupManager_ListGroups (b_consumers b) groups)))) s in
  let s := do_metric (GaugeSet (bm_ProcessResidentMemoryBytes bm) (rt_resident rt)) s in
  let s := do_metric (CounterInc (bm_GoGCDurationSecondsCount bm) (rt_gc rt)) s in
  let s := do_metric (GaugeSet (bm_ProcessCPUSecondsTotal bm) (rt_cpu rt)) s in
  let s := explorer_metrics bm hub s in
  match node with
  | None => s
  | Some n => cluster_metrics b bm n trackers s
  end.

(** [GET /metrics]. *)
Definition httpMetrics (fmt_g : spec_float → string) b (bm : BrokerMetrics) (node : option (Node L)) (groups : list string)
    (trackers : list (string * Z)) (rt : Runtime) (hub : ExplorerHub) (s : MetricState) : MetricState * bytes :=
  let s := updateDynamicMetrics b bm node groups trackers rt hub s in
  (s, Expose fmt_g (ms_reg s)).

End Views.

(** The values recorded for the charts. *)
Definition counter_value (r : Registry) (i : nat) : spec_float :=
  f64_of_int (default 0 (ct_value <$> rg_counters r !! i)).

Definition gauge_value (r : Registry) (i : nat) : spec_float := default (S754_zero false) (ga_value <$> rg_gauges r !! i).

Definition collectMetricsSnapshot (bm : BrokerMetrics) (r : Registry) : gmap string spec_float :=
  list_to_map
    [("messages_published_total", counter_value r (bm_MessagesPublished bm));
     ("messages_consumed_total", counter_value r (bm_MessagesConsumed bm));
     ("messages_errored_total", counter_value r (bm_MessagesErrored bm));
     ("messages_acked_total", counter_value r (bm_MessagesAcked bm));
     ("messages_nacked_total", counter_value r (bm_MessagesNacked bm));
     ("active_connections", gauge_value r (bm_ActiveConnections bm));
     ("consumer_lag_total", gauge_value r (bm_ConsumerLagTotal bm));
     ("active_consumer_groups", gauge_value r (bm_ActiveConsumerGroups bm));
     ("bytes_published_total", counter_value r (bm_BytesPublished bm));
     ("bytes_consumed_total", counter_value r (bm_BytesConsumed bm));
     ("topic_count", gauge_value r (bm_TopicCount bm));
     ("partition_count", gauge_value r (bm_PartitionCount bm));
     ("wal_bytes_total", counter_value r (bm_WALBytesTotal bm));
     ("wal_entries_total", counter_value r (bm_WALEntriesTotal bm));
     ("process_resident_memory_bytes", gauge_value r (bm_ProcessResidentMemoryBytes bm));
     ("go_gc_duration_seconds_count", counter_value r (bm_GoGCDurationSecondsCount bm));
     ("process_cpu_seconds_total", gauge_value r (bm_ProcessCPUSecondsTotal bm))]%string.

(** [GET /metrics/history]: the range asked for, in seconds. *)
Definition history_range (range : string) : option Z :=
  let range := if bool_decide (range = EmptyString) then "15m"%string else range in
  if bool_decide (range = "5m"%string) then Some 300
  else if bool_decide (range = "15m"%string) then Some 900
  else if bool_decide (range = "1h"%string) then Some 3600
  else if bool_decide (range = "24h"%string) then Some 86400
  else None.

(** [None] is a bad request; a point is its time as text and its value. *)
Definition httpMetricsHistory (fmt_time : Z → string) (now : Z) (store : option HistoryStore) (range : string) :
    option (gmap string (list (string * spec_float))) :=
  match history_range range with
  | None => None
  | Some since =>
      let data := match store with None => ∅ | Some h => History_Range h (now - since * 10 ^ 9) end in
      Some (map (λ s : Sample, (fmt_time s.1, s.2)) <$> data)
  end.

(** ** The view of the in-sync replicas *)

(** An entry may stand before another. *)
Definition isr_le (a c : isrEntry) : Prop := isr_after a c = false.

Lemma isr_after_spec a c :
  isr_after a c = true ↔ strict String.le (ie_Topic c) (ie_Topic a) ∨ ie_Topic a = ie_Topic c ∧ ie_Partition c < ie_Partition a.
Proof. unfold isr_after. rewrite orb_true_iff, andb_true_iff, !bool_decide_eq_true, Z.ltb_lt. done. Qed.

Lemma isr_le_spec a c :
  isr_le a c ↔ strict String.le (ie_Topic a) (ie_Topic c) ∨ ie_Topic a = ie_Topic c ∧ ie_Partition a <= ie_Partition c.
Proof.
  unfold isr_le. rewrite <- not_true_iff_false, isr_after_spec. split.
  - intros Hn. destruct (decide (ie_Topic a = ie_Topic c)) as [He|Hne].
    { right. split; [done|]. destruct (Z.le_gt_cases (ie_Partition a) (ie_Partition c)); [done|]. exfalso. auto. }
    left. destruct (total String.le (ie_Topic a) (ie_Topic c)) as [Hl|Hl].
    + split; [done|]. intros Hl'. apply Hne. by apply (anti_symm String.le).
    + exfalso. apply Hn. left. split; [done|]. intros Hl'. apply Hne. by apply (anti_symm String.le).
  - intros [[H1 H2]|[He Hle]] [[H3 H4]|[He' Hlt]]; try done; try lia; try (rewrite He' in *; done); rewrite He in *; done.
Qed.

Lemma isr_after_le a c : isr_after a c = true → isr_le c a.
Proof. rewrite isr_after_spec, isr_le_spec. intros [H|[-> H]]; [by left|right; split; [done|lia]]. Qed.

#[global] Instance isr_le_trans : Transitive isr_le.
Proof.
  intros a c d. rewrite !isr_le_spec. intros [[H1 H2]|[E1 H1]] [[H3 H4]|[E2 H3]].
  - left. split; [by etrans|]. intros H5. apply H2. by etrans.
  - left. rewrite <- E2. done.
  - left. rewrite E1. done.
  - right. split; [congruence|lia].
Qed.

Lemma sift_perm x r : sift x r ≡ₚ x :: r.
Proof.
  revert x. induction r as [|y r IH]; intros x; [done|]. cbn [sift]. destruct (isr_after y x); rewrite IH; [apply Permutation_swap|done].
Qed.

(** The prefix stays sorted, last entry first. *)
Lemma sift_sorted x r : StronglySorted (flip isr_le) r → StronglySorted (flip isr_le) (sift x r).
Proof.
  revert x. induction r as [|y r IH]; intros x Hs; [by repeat constructor|]. cbn [sift].
  apply StronglySorted_cons in Hs as [Hy Hs]. destruct (isr_after y x) eqn:E.
  - apply StronglySorted_cons. split; [|by apply IH]. rewrite sift_perm. constructor; [by apply isr_after_le|done].
  - apply StronglySorted_cons. split; [|by apply IH]. rewrite sift_perm. constructor; [exact E|].
    eapply Forall_impl; [exact Hy|]. intros z Hz. unfold flip in *. by etrans.
Qed.

Lemma isr_sort_perm l : isr_sort l ≡ₚ l.
Proof.
  unfold isr_sort. rewrite reverse_Permutation.
  assert (∀ r, foldl (λ prefix x, sift x prefix) r l ≡ₚ l ++ r) as H; [|by rewrite H, app_nil_r].
  induction l as [|x l IH]; intros r; [done|]. cbn. rewrite IH, sift_perm. symmetry. apply Permutation_middle.
Qed.

Lemma isr_sort_sorted l : StronglySorted isr_le (isr_sort l).
Proof.
  unfold isr_sort. assert (∀ r, StronglySorted (flip isr_le) r → StronglySorted (flip isr_le) (foldl (λ prefix x, sift x prefix) r l)) as H.
  { induction l as [|x l IH]; intros r Hr; [done|]. cbn. by apply IH, sift_sorted. }
  specialize (H [] ltac:(constructor)). revert H. generalize (foldl (λ prefix x, sift x prefix) [] l). clear l.
  induction l as [|x l IH]; intros Hs; [constructor|]. apply StronglySorted_cons in Hs as [Hx Hs].
  rewrite reverse_cons. apply StronglySorted_app. split; [|split; [by apply IH|repeat constructor]].
  intros y z Hy Hz. apply list_elem_of_singleton in Hz as ->. rewrite elem_of_reverse in Hy. rewrite Forall_forall in Hx. by apply Hx.
Qed.

Section ViewFacts.
Context {L : Type} `{LogStore L}.
Context (sizes : L → LogSizes) (now : Z) (isr_order : string → Z → list string).
Implicit Type b : Broker L.

Lemma isr_entry_key b (n : Node L) leader key e :
  isr_entry now isr_order b n leader key = Some e → (ie_Topic e, ie_Partition e) = key.
Proof.
  destruct key as [t p]. unfold isr_entry. destruct (getISRTracker n t p) as [tr|]; [|done]. cbn.
  destruct (Manager_Get _ _) as [tp|]; [|done]. destruct (Topic_PartitionLog tp p); [|done]. by intros [= <-].
Qed.

(** The view is sorted by topic and partition and holds each tracked partition
    whose log there is; the order of the two maps it is made from is not seen
    in it. *)
Lemma isr_view_canonical b (node : option (Node L)) order order' :
  order ≡ₚ order' →
  httpClusterISR now isr_order b node order = httpClusterISR now isr_order b node order' ∧
  StronglySorted isr_le (httpClusterISR now isr_order b node order).
Proof.
  intros Hp. unfold httpClusterISR. destruct node as [n|]; [|split; [done|constructor]].
  split; [|apply isr_sort_sorted].
  set (leader := default EmptyString (mb_NodeID <$> Node_Leader n)).
  eapply (StronglySorted_unique_strong isr_le); [|apply isr_sort_sorted..|].
  - intros x y. rewrite !isr_sort_perm, !list_elem_of_omap. intros (kx & _ & Hx) (ky & _ & Hy) Hxy Hyx.
    pose proof (isr_entry_key _ _ _ _ _ Hx) as Ex. pose proof (isr_entry_key _ _ _ _ _ Hy) as Ey.
    assert (kx = ky) as ->; [|congruence]. rewrite <- Ex, <- Ey. rewrite isr_le_spec in Hxy, Hyx.
    destruct Hxy as [[H1 H2]|[E1 H1]], Hyx as [[H3 H4]|[E2 H3]]; try done.
    + by rewrite E2 in *.
    + by rewrite E1 in *.
    + rewrite E1. f_equal. lia.
  - rewrite !isr_sort_perm. by rewrite Hp.
Qed.

(** The view of a partition calls the node that answers its leader, whoever
    leads. *)
Lemma partition_leader_is_self b nodeID (n : Node L) topic p cfg pl :
  pr_leader_node_id (partition_row sizes now isr_order b nodeID (Some n) topic p cfg pl) = SelfID n.
Proof. unfold partition_row. destruct (getISRTracker n topic p); done. Qed.

(** The view of Raft, read as JSON, has the figures of the node: its role, term
    and indices, and what it believes of every peer. *)
Lemma raft_view_reads (n : Node L) r :
  cn_raftNode n = Some r → str_valid (nd_leaderID r) = true →
  map_Forall (λ k v, str_valid k = true ∧ is_i64 v) (nd_matchIndex r) →
  map_Forall (λ k v, str_valid k = true ∧ is_i64 v) (nd_nextIndex r) →
  ∃ text l, httpClusterRaft (Some n) = Some text ∧ parse text = Some (JObj l) ∧
    jfield "term" l = Some (JNum (term r)) ∧ jfield "commit_index" l = Some (JNum (nd_commitIndex r)) ∧
    jfield "last_applied" l = Some (JNum (nd_lastApplied r)) ∧ jfield "log_length" l = Some (JNum (zlen (rlog r))) ∧
    get_str "leader_id" l = Some (nd_leaderID r) ∧ get_imap "match_index" l = Some (nd_matchIndex r) ∧
    get_imap "next_index" l = Some (nd_nextIndex r).
Proof.
  intros Hr Hs Hm Hn. eexists _, (raft_fields (Node_Snapshot r)).
  unfold httpClusterRaft, Node_RaftSnapshot. cbn [mbind option_bind]. rewrite Hr. split; [reflexivity|]. split.
  - apply parse_print. unfold raft_fields. rewrite !members_valid_put. cbn [Node_Snapshot sn_MatchIndex sn_NextIndex sn_LeaderID sn_Role].
    rewrite (imap_valid _ Hm), (imap_valid _ Hn). change (json_valid (jstr (nd_leaderID r))) with (str_valid (nd_leaderID r)). rewrite Hs.
    by destruct (nd_role r).
  - assert (∀ m : gmap string Z, map_Forall (λ k v, str_valid k = true ∧ is_i64 v) m → map_Forall (λ _ v, is_i64 v) m) as Hw.
    { intros m H' k v Hk. by destruct (H' k v Hk). }
    assert (jfield "leader_id" (raft_fields (Node_Snapshot r)) = Some (jstr (nd_leaderID r))) as F1 by reflexivity.
    assert (jfield "match_index" (raft_fields (Node_Snapshot r)) = Some (JObj (imap_members (nd_matchIndex r)))) as F2 by reflexivity.
    assert (jfield "next_index" (raft_fields (Node_Snapshot r)) = Some (JObj (imap_members (nd_nextIndex r)))) as F3 by reflexivity.
    unfold get_str, get_imap. rewrite F1, F2, F3. unfold jstr. rewrite string_of_bytes_of_string.
    split; [reflexivity|]. split; [reflexivity|]. split; [reflexivity|]. split; [reflexivity|]. split; [reflexivity|].
    split; apply imap_roundtrip; by apply Hw.
Qed.

End ViewFacts.

(** ** The metrics of a scrape *)

(** Where the metrics of the broker are in its registry. *)
Definition broker_metrics : BrokerMetrics := Eval vm_compute in (NewBrokerMetrics NewRegistry).2.

Definition counter_raw (r : Registry) (i : nat) : Z := default 0 (ct_value <$> rg_counters r !! i).

(** A registry with the broker's metrics in it. *)
Definition broker_registry (r : Registry) : Prop :=
  length (rg_counters r) = length (rg_counters (NewBrokerMetrics NewRegistry).1) ∧
  length (rg_gauges r) = length (rg_gauges (NewBrokerMetrics NewRegistry).1).

Lemma metric_step_registry r e : broker_registry r → broker_registry (metric_step r e).
Proof. intros [Hc Hg]. destruct e; split; cbn; rewrite ?length_alter; done. Qed.

Lemma gauge_value_set r i v : (i < length (rg_gauges r))%nat → gauge_value (metric_step r (GaugeSet i v)) i = v.
Proof.
  intros Hi. apply lookup_lt_is_Some in Hi as [g Hg]. unfold gauge_value. cbn.
  rewrite list_lookup_alter_eq, Hg. reflexivity.
Qed.

Lemma gauge_value_other r e i :
  (∀ v, e ≠ GaugeSet i v ∧ e ≠ GaugeAdd i v) → gauge_value (metric_step r e) i = gauge_value r i.
Proof.
  intros He. unfold gauge_value. destruct e as [j d|j v|j v|j v]; cbn; try done.
  - rewrite list_lookup_alter_ne; [done|]. intros ->. by destruct (He v).
  - rewrite list_lookup_alter_ne; [done|]. intros ->. by destruct (He v).
Qed.

Lemma gauge_value_set_ne r i j v : i ≠ j → gauge_value (metric_step r (GaugeSet j v)) i = gauge_value r i.
Proof. intros Hne. apply gauge_value_other. intros w. split; [|done]. intros Hx. by injection Hx as -> _. Qed.

Lemma gauge_value_inc r i j d : gauge_value (metric_step r (CounterInc j d)) i = gauge_value r i.
Proof. done. Qed.

Lemma counter_raw_inc r i d :
  (i < length (rg_counters r))%nat → counter_raw (metric_step r (CounterInc i d)) i = u64 (counter_raw r i + d).
Proof.
  intros Hi. apply lookup_lt_is_Some in Hi as [c Hc]. unfold counter_raw. cbn.
  rewrite list_lookup_alter_eq, Hc. reflexivity.
Qed.

Lemma counter_raw_other r e i : (∀ d, e ≠ CounterInc i d) → counter_raw (metric_step r e) i = counter_raw r i.
Proof.
  intros He. unfold counter_raw. destruct e as [j d|j v|j v|j v]; cbn; try done.
  rewrite list_lookup_alter_ne; [done|]. intros ->. by destruct (He d).
Qed.

(** The two counters of the explorer against the totals of the last scrape. *)
Record explorer_counted (s : MetricState) : Prop := mkExplorerCounted {
  ec_registry : broker_registry (ms_reg s);
  ec_sent : counter_raw (ms_reg s) (bm_ExplorerMessagesSentTotal broker_metrics) = ms_prevSent s;
  ec_dropped : counter_raw (ms_reg s) (bm_ExplorerMessagesDroppedTotal broker_metrics) = ms_prevDropped s;
}.

Lemma do_metric_counted e s :
  (∀ d, e ≠ CounterInc (bm_ExplorerMessagesSentTotal broker_metrics) d) →
  (∀ d, e ≠ CounterInc (bm_ExplorerMessagesDroppedTotal broker_metrics) d) →
  explorer_counted s → explorer_counted (do_metric e s).
Proof.
  intros Hs Hd [E1 E2 E3]. split; cbn [do_metric ms_reg ms_prevSent ms_prevDropped].
  - by apply metric_step_registry.
  - by rewrite counter_raw_other.
  - by rewrite counter_raw_other.
Qed.

Lemma explorer_metrics_counted hub s :
  explorer_counted s → 0 <= ms_prevSent s <= xh_sentTotal hub → xh_sentTotal hub < 2 ^ 64 →
  0 <= ms_prevDropped s <= xh_droppedTotal hub → xh_droppedTotal hub < 2 ^ 64 →
  explorer_counted (explorer_metrics broker_metrics hub s) ∧
  ms_prevSent (explorer_metrics broker_metrics hub s) = xh_sentTotal hub ∧
  ms_prevDropped (explorer_metrics broker_metrics hub s) = xh_droppedTotal hub.
Proof.
  intros Hc Hs Hs' Hd Hd'. unfold explorer_metrics.
  set (s0 := do_metric (GaugeSet _ _) s). assert (explorer_counted s0) as Hc0 by (by apply do_metric_counted).
  change (ms_prevSent s) with (ms_prevSent s0) in Hs. change (ms_prevDropped s) with (ms_prevDropped s0) in Hd.
  clearbody s0. clear Hc s.
  set (s1 := match sent_read hub s0 with Some w => _ | None => s0 end).
  assert (explorer_counted s1 ∧ ms_prevSent s1 = xh_sentTotal hub ∧ ms_prevDropped s1 = ms_prevDropped s0) as (Hc1 & Hp1 & Hq1).
  { subst s1. unfold sent_read. destruct (Z.ltb_spec (ms_prevSent s0) (xh_sentTotal hub)); [|split; [done|split; [lia|done]]].
    destruct Hc0 as [E1 E2 E3]. split; [|done]. split; cbn [sent_write do_metric ms_reg ms_prevSent ms_prevDropped fst snd].
    - by apply metric_step_registry.
    - rewrite counter_raw_inc by (rewrite (proj1 E1); cbn; lia). rewrite E2. rewrite (u64_id (_ - _)) by (unfold is_u64; lia).
      rewrite u64_id by (unfold is_u64; lia). lia.
    - rewrite counter_raw_other by done. done. }
  clearbody s1. rewrite <- Hq1 in Hd. unfold dropped_read.
  destruct (Z.ltb_spec (ms_prevDropped s1) (xh_droppedTotal hub)); [|split; [done|split; [done|lia]]].
  destruct Hc1 as [E1 E2 E3]. split; [|done]. split; cbn [dropped_write do_metric ms_reg ms_prevSent ms_prevDropped fst snd].
  - by apply metric_step_registry.
  - rewrite counter_raw_other by done. done.
  - rewrite counter_raw_inc by (rewrite (proj1 E1); cbn; lia). rewrite E3. rewrite (u64_id (_ - _)) by (unfold is_u64; lia).
    rewrite u64_id by (unfold is_u64; lia). lia.
Qed.

(** Two scrapes that both read the total before either remembers it add its
    growth twice. *)
Lemma concurrent_scrapes_count_twice hub s w :
  explorer_counted s → 0 <= ms_prevSent s → 2 * xh_sentTotal hub < 2 ^ 64 → sent_read hub s = Some w →
  let s' := sent_write broker_metrics w (sent_write broker_metrics w s) in
  ms_prevSent s' = xh_sentTotal hub ∧
  counter_raw (ms_reg s') (bm_ExplorerMessagesSentTotal broker_metrics) =
    xh_sentTotal hub + (xh_sentTotal hub - ms_prevSent s).
Proof.
  intros [E1 E2 _] H0 Hb. unfold sent_read. destruct (Z.ltb_spec (ms_prevSent s) (xh_sentTotal hub)); [|done].
  intros [= <-]. split; [done|]. cbn [sent_write do_metric ms_reg fst snd].
  assert (∀ r, broker_registry r → (bm_ExplorerMessagesSentTotal broker_metrics < length (rg_counters r))%nat) as Hl
    by (intros r [-> _]; cbn; lia).
  rewrite !counter_raw_inc by (apply Hl; try apply metric_step_registry; done). rewrite E2.
  rewrite (u64_id (_ - _)), (u64_id (ms_prevSent s + _)), u64_id by (unfold is_u64; lia). lia.
Qed.

(** Metric updates of the rest of the program: they leave the counters of the
    explorer alone, and the gauges that only a scrape sets. *)
Definition scraped_gauges : list nat :=
  [bm_TopicCount broker_metrics; bm_PartitionCount broker_metrics; bm_ConsumerLagTotal broker_metrics;
   bm_ActiveConsumerGroups broker_metrics].

Definition from_elsewhere (e : metric_event) : bool :=
  match e with
  | CounterInc i _ =>
      negb (bool_decide (i = bm_ExplorerMessagesSentTotal broker_metrics)) &&
      negb (bool_decide (i = bm_ExplorerMessagesDroppedTotal broker_metrics))
  | GaugeSet i _ | GaugeAdd i _ => negb (bool_decide (i ∈ scraped_gauges))
  | Observe _ _ => true
  end.

Lemma elsewhere_counted e s : from_elsewhere e = true → explorer_counted s → explorer_counted (do_metric e s).
Proof.
  intros He. apply do_metric_counted; intros d ->; cbn in He; rewrite bool_decide_eq_true_2 in He; try done; by destruct (bool_decide _).
Qed.

Lemma elsewhere_gauge e r i : from_elsewhere e = true → i ∈ scraped_gauges → gauge_value (metric_step r e) i = gauge_value r i.
Proof.
  intros He Hi. apply gauge_value_other. intros v. split; intros ->; cbn [from_elsewhere] in He; by rewrite bool_decide_eq_true_2 in He.
Qed.

#[local] Opaque metric_step gauge_value f64_of_int.

Section ScrapeFacts.
Context {L : Type} `{LogStore L}.
Context (now : Z) (isr_order : string → Z → list string).
Implicit Type b : Broker L.

(** *** What there is to report

    The lag of a group on a partition is the distance from the committed
    offset to the end of the log; one that has committed nothing counts from
    offset -1. *)
Definition partition_lag b (g : Group) (p : Z) : Z :=
  match log_of b (gr_topic g) p with
  | Some pl => Z.max 0 (ls_next pl - OffsetStore_Load (gm_offsets (b_consumers b)) (gr_id g) (gr_topic g) p)
  | None => 0
  end.

Definition group_lag b (g : Group) : Z := sumz (partition_lag b g <$> seqZ 0 (gr_partCount g)).

(** Over the groups of the map, in whatever order. *)
Definition groups_lag b : Z := sumz ((λ kg, group_lag b kg.2) <$> map_to_list (gm_groups (b_consumers b))).

Definition partitions_of b : Z := sumz ((λ kt, tc_Partitions (tp_cfg kt.2)) <$> map_to_list (mg_topics (b_topics b))).

(** The keys of the groups, each once. *)
Definition lists_groups b (order : list string) : Prop :=
  order ≡ₚ (map_to_list (gm_groups (b_consumers b))).*1.

Lemma lists_groups_omap b order :
  lists_groups b order →
  omap (λ key, gm_groups (b_consumers b) !! key) order ≡ₚ (map_to_list (gm_groups (b_consumers b))).*2.
Proof.
  intros Ho. unfold lists_groups in Ho. rewrite Ho. apply reflexive_eq.
  assert (∀ l, (∀ kg, kg ∈ l → gm_groups (b_consumers b) !! kg.1 = Some kg.2) →
    omap (λ key, gm_groups (b_consumers b) !! key) l.*1 = l.*2) as Hl.
  { induction l as [|[k g] l IH]; intros Hl; [done|]. pose proof (Hl (k, g) ltac:(by left)) as Hk. cbn in *. rewrite Hk.
    rewrite IH; [done|]. intros kg Hin. apply Hl. by right. }
  apply Hl. intros [k g]. by rewrite elem_of_map_to_list.
Qed.

Lemma partition_lag_nonneg b g p : 0 <= partition_lag b g p.
Proof. unfold partition_lag. destruct (log_of _ _ _); lia. Qed.

Lemma group_lag_nonneg b g : 0 <= group_lag b g.
Proof. apply sumz_nonneg, Forall_fmap, Forall_true. intros p. apply partition_lag_nonneg. Qed.

(** One partition's turn of the loop adds its lag. *)
Definition lag_turn b (acc : spec_float) (go : string * (Z * Z)) : spec_float :=
  match log_of b go.1 go.2.1 with
  | None => acc
  | Some pl => if go.2.2 <? ls_next pl then f64_add acc (f64_of_int (i64 (ls_next pl - go.2.2))) else acc
  end.

Lemma lag_turn_spec b g p n :
  0 <= n → n + partition_lag b g p < 2 ^ 53 →
  lag_turn b (f64_of_int n)
    (gr_topic g, (p, OffsetStore_Load (gm_offsets (b_consumers b)) (gr_id g) (gr_topic g) p)) =
    f64_of_int (n + partition_lag b g p).
Proof.
  intros Hn Hs. unfold lag_turn, partition_lag in *. cbn [fst snd].
  destruct (log_of b (gr_topic g) p) as [pl|]; [|by rewrite Z.add_0_r].
  destruct (Z.ltb_spec (OffsetStore_Load (gm_offsets (b_consumers b)) (gr_id g) (gr_topic g) p) (ls_next pl)).
  - rewrite i64_id by (unfold is_i64; lia). rewrite Z.max_r in * by lia. apply f64_add_whole; lia.
  - by rewrite Z.max_l, Z.add_0_r by lia.
Qed.

Lemma lag_turns_spec b g ps : ∀ n,
  0 <= n → n + sumz (partition_lag b g <$> ps) < 2 ^ 53 →
  foldl (lag_turn b) (f64_of_int n)
    ((λ p, (gr_topic g, (p, OffsetStore_Load (gm_offsets (b_consumers b)) (gr_id g) (gr_topic g) p))) <$> ps) =
    f64_of_int (n + sumz (partition_lag b g <$> ps)).
Proof.
  induction ps as [|p ps IH]; intros n Hn Hs; [cbn; by rewrite Z.add_0_r|]. rewrite !fmap_cons, sumz_cons in *.
  pose proof (partition_lag_nonneg b g p).
  assert (0 <= sumz (partition_lag b g <$> ps)) by (apply sumz_nonneg, Forall_fmap, Forall_true; intros q; apply partition_lag_nonneg).
  cbn [foldl]. rewrite lag_turn_spec by lia. rewrite IH by lia. f_equal. lia.
Qed.

Lemma lag_groups_spec b gs : ∀ n,
  0 <= n → n + sumz (group_lag b <$> gs) < 2 ^ 53 →
  foldl (lag_turn b) (f64_of_int n)
    (gs ≫= λ g, (λ p, (gr_topic g, (p, OffsetStore_Load (gm_offsets (b_consumers b)) (gr_id g) (gr_topic g) p)))
       <$> seqZ 0 (gr_partCount g)) =
    f64_of_int (n + sumz (group_lag b <$> gs)).
Proof.
  induction gs as [|g gs IH]; intros n Hn Hs; [cbn; by rewrite Z.add_0_r|]. rewrite bind_cons, foldl_app.
  rewrite !fmap_cons, sumz_cons in *. pose proof (group_lag_nonneg b g).
  assert (0 <= sumz (group_lag b <$> gs)) by (apply sumz_nonneg, Forall_fmap, Forall_true; intros q; apply group_lag_nonneg).
  rewrite lag_turns_spec by (unfold group_lag in *; lia). fold (group_lag b g). rewrite IH by lia. f_equal. lia.
Qed.

Lemma lag_total_spec b order :
  lists_groups b order → groups_lag b < 2 ^ 53 → lag_total b order = f64_of_int (groups_lag b).
Proof.
  intros Ho Hs. set (gs := omap (λ key, gm_groups (b_consumers b) !! key) order).
  assert (groups_lag b = sumz (group_lag b <$> gs)) as Hg.
  { unfold groups_lag. change (λ kg : string * Group, group_lag b kg.2) with (group_lag b ∘ (snd : string * Group → Group)).
    rewrite list_fmap_compose. apply sumz_perm. f_equiv. symmetry.
    by apply lists_groups_omap. }
  rewrite Hg in *. change (lag_total b order) with
    (foldl (lag_turn b) (f64_of_int 0)
      (GroupManager_ListGroups (b_consumers b) order ≫= λ g, (λ off, (gs_Topic g, off)) <$> gs_CommittedOffsets g)).
  unfold GroupManager_ListGroups. fold gs. rewrite <- (Z.add_0_l (sumz _)), <- lag_groups_spec by lia. f_equal.
  clear. induction gs as [|g gs IH]; [done|]. rewrite fmap_cons, !bind_cons, IH. f_equal.
  cbn [gs_Topic gs_CommittedOffsets]. by rewrite <- list_fmap_compose.
Qed.

Lemma list_groups_length b order :
  lists_groups b order → zlen (GroupManager_ListGroups (b_consumers b) order) = Z.of_nat (size (gm_groups (b_consumers b))).
Proof.
  intros Ho. unfold GroupManager_ListGroups, zlen. rewrite length_fmap, (lists_groups_omap b order Ho), length_fmap.
  by rewrite length_map_to_list.
Qed.

Lemma partitions_fold b :
  foldl (λ n cfg, i64 (n + tc_Partitions cfg)) 0 (Manager_List (b_topics b)) = i64 (partitions_of b).
Proof.
  unfold partitions_of, Manager_List. change (λ kt : string * Topic L, tc_Partitions (tp_cfg kt.2)) with (tc_Partitions ∘ λ kt : string * Topic L, tp_cfg kt.2).
  rewrite list_fmap_compose.
  change 0 with (i64 0) at 1. rewrite <- (Z.add_0_l (sumz _)). generalize 0 as n.
  induction ((λ kt : string * Topic L, tp_cfg kt.2) <$> map_to_list (mg_topics (b_topics b))) as [|cfg cfgs IH]; intros n.
  { cbn. by rewrite Z.add_0_r. }
  rewrite fmap_cons, sumz_cons. cbn [foldl]. rewrite i64_add_l, IH. f_equal. lia.
Qed.

(** A group that has committed the last message is told to be one behind. *)
Lemma caught_up_lag b g p pl :
  log_of b (gr_topic g) p = Some pl →
  OffsetStore_Load (gm_offsets (b_consumers b)) (gr_id g) (gr_topic g) p = ls_next pl - 1 →
  partition_lag b g p = 1.
Proof. unfold partition_lag. intros -> ->. lia. Qed.

Lemma cluster_metrics_counted b n trackers s :
  explorer_counted s → explorer_counted (cluster_metrics now isr_order b broker_metrics n trackers s).
Proof. intros Hc. unfold cluster_metrics. repeat (apply do_metric_counted; [done|done|]). exact Hc. Qed.

Lemma cluster_metrics_gauge b n trackers s i :
  i ∈ scraped_gauges →
  gauge_value (ms_reg (cluster_metrics now isr_order b broker_metrics n trackers s)) i = gauge_value (ms_reg s) i.
Proof.
  intros Hi. unfold cluster_metrics. cbn [do_metric ms_reg].
  rewrite !gauge_value_other; [done|..]; intros v; split; try done; intros Hx; injection Hx as Hx _; subst i; vm_compute in Hi;
    repeat (apply elem_of_cons in Hi as [?|Hi]; [done|]); by apply elem_of_nil in Hi.
Qed.

Lemma explorer_metrics_gauge hub s i :
  i ∈ scraped_gauges → gauge_value (ms_reg (explorer_metrics broker_metrics hub s)) i = gauge_value (ms_reg s) i.
Proof.
  intros Hi. unfold explorer_metrics.
  assert (∀ v, gauge_value (metric_step (ms_reg s) (GaugeSet (bm_ExplorerActiveSessions broker_metrics) v)) i =
               gauge_value (ms_reg s) i) as Hs.
  { intros v. apply gauge_value_other. intros w. split; [|done]. intros Hx. injection Hx as Hx _. subst i. vm_compute in Hi.
    repeat (apply elem_of_cons in Hi as [?|Hi]; [done|]); by apply elem_of_nil in Hi. }
  unfold sent_read, dropped_read, sent_write, dropped_write.
  destruct (ms_prevSent _ <? _), (ms_prevDropped _ <? _); cbn [do_metric ms_reg]; rewrite ?gauge_value_other by done; apply Hs.
Qed.

(** C38: a scrape is exact.  Whatever the other parts of the program did to the
    metrics since the last one, and provided no other scrape runs at the same
    time, [GET /metrics] sets the number of topics to the size of the registry,
    that of partitions to the sum over its topics, that of groups to the size
    of the map of groups, empty ones included, and the total lag to the sum
    over every group and partition of the distance from the committed offset to
    the end of the log, whatever the order of the maps; and it leaves the two
    counters of the explorer at the hub's totals, counting nothing twice and
    nothing not at all. *)
Theorem scrape_exact b (node : option (Node L)) groups trackers rt hub es s :
  explorer_counted s → forallb from_elsewhere es = true →
  0 <= ms_prevSent s <= xh_sentTotal hub → xh_sentTotal hub < 2 ^ 64 →
  0 <= ms_prevDropped s <= xh_droppedTotal hub → xh_droppedTotal hub < 2 ^ 64 →
  lists_groups b groups → groups_lag b < 2 ^ 53 →
  let s' := updateDynamicMetrics now isr_order b broker_metrics node groups trackers rt hub (foldl (flip do_metric) s es) in
  explorer_counted s' ∧ ms_prevSent s' = xh_sentTotal hub ∧ ms_prevDropped s' = xh_droppedTotal hub ∧
  gauge_value (ms_reg s') (bm_TopicCount broker_metrics) = f64_of_int (Z.of_nat (size (mg_topics (b_topics b)))) ∧
  gauge_value (ms_reg s') (bm_PartitionCount broker_metrics) = f64_of_int (i64 (partitions_of b)) ∧
  gauge_value (ms_reg s') (bm_ConsumerLagTotal broker_metrics) = f64_of_int (groups_lag b) ∧
  gauge_value (ms_reg s') (bm_ActiveConsumerGroups broker_metrics) =
    f64_of_int (Z.of_nat (size (gm_groups (b_consumers b)))).
Proof.
  intros Hc He Hs Hs' Hd Hd' Hgs Hlag.
  rewrite <- (lag_total_spec b groups), <- (list_groups_length b groups), <- partitions_fold by done.
  assert (Z.of_nat (size (mg_topics (b_topics b))) = zlen (Manager_List (b_topics b))) as ->
    by (unfold zlen, Manager_List; by rewrite length_fmap, length_map_to_list).
  clear Hgs Hlag.
  assert (explorer_counted (foldl (flip do_metric) s es) ∧ ms_prevSent (foldl (flip do_metric) s es) = ms_prevSent s ∧
          ms_prevDropped (foldl (flip do_metric) s es) = ms_prevDropped s) as (Hc0 & Hp0 & Hq0).
  { clear Hs Hd. revert s Hc. induction es as [|e es IH]; intros s Hc; [done|]. cbn in *. apply andb_prop in He as [He Hes].
    destruct (IH Hes (do_metric e s)) as (I1 & I2 & I3); [by apply elsewhere_counted|]. done. }
  rewrite <- Hp0 in Hs. rewrite <- Hq0 in Hd. clear Hp0 Hq0 Hc He.
  generalize dependent (foldl (flip do_metric) s es). clear s es. intros s Hs Hd Hc0. unfold updateDynamicMetrics.
  match goal with |- context [explorer_metrics broker_metrics hub ?x] => set (s1 := x) end.
  assert (explorer_counted s1) as Hc1 by (subst s1; repeat (apply do_metric_counted; [done|done|]); exact Hc0).
  destruct (explorer_metrics_counted hub s1 Hc1 Hs Hs' Hd Hd') as (Hc2 & Hp2 & Hq2).
  set (s2 := explorer_metrics broker_metrics hub s1) in *.
  assert (∀ i, i ∈ scraped_gauges → gauge_value (ms_reg s2) i = gauge_value (ms_reg s1) i) as Hg2
    by (intros i Hi; by apply explorer_metrics_gauge).
  set (s3 := match node with None => s2 | Some n => _ end).
  assert (explorer_counted s3 ∧ ms_prevSent s3 = ms_prevSent s2 ∧ ms_prevDropped s3 = ms_prevDropped s2 ∧
          ∀ i, i ∈ scraped_gauges → gauge_value (ms_reg s3) i = gauge_value (ms_reg s2) i) as (Hc3 & Hp3 & Hq3 & Hg3).
  { subst s3. destruct node as [n|]; [|done]. split; [by apply cluster_metrics_counted|]. split; [done|]. split; [done|].
    intros i Hi. by apply cluster_metrics_gauge. }
  split; [done|]. split; [congruence|]. split; [congruence|].
  rewrite !Hg3, !Hg2 by (apply (bool_decide_unpack _); by vm_compute).
  destruct (ec_registry _ Hc0) as [_ Hlen]. subst s1. cbn [do_metric ms_reg].
  assert (∀ r, broker_registry r → ∀ i v, (i < 15)%nat → gauge_value (metric_step r (GaugeSet i v)) i = v) as Hset.
  { intros r [_ Hr] i v Hi. apply gauge_value_set. rewrite Hr. exact Hi. }
  pose proof (ec_registry _ Hc0) as Hr.
  split_and!; rewrite ?gauge_value_set_ne by (cbv; lia); rewrite ?gauge_value_inc;
    rewrite ?gauge_value_set_ne by (cbv; lia); (apply Hset; [|cbv; lia]); repeat apply metric_step_registry; exact Hr.
Qed.

End ScrapeFacts.

(** A registry as [New] makes it, and two scrapes with a publish and a session
    between them. *)
Definition demo_metrics : MetricState := mkMetricState (NewBrokerMetrics NewRegistry).1 0 0.

Lemma demo_metrics_counted : explorer_counted demo_metrics.
Proof. split; [split; reflexivity|reflexivity|reflexivity]. Qed.

(** One group over two partitions, with nothing committed. *)
Definition demo_scraped : Broker (list Message) :=
  let b := demo_broker [[]; []] in
  set_consumers b (GroupManager_Subscribe 5 (b_consumers b) "g" "c1" "key" "orders" 2).1.

Lemma scrape_exact_witness :
  let hub := mkExplorerHub ∅ 1 1 7 2 in
  let s := updateDynamicMetrics 0 (λ _ _, []) demo_scraped broker_metrics None [groupKey "g" "orders"] []
             (mkRuntime (S754_zero false) 3 (S754_zero false)) hub
             (do_metric (CounterInc (bm_MessagesPublished broker_metrics) 1) demo_metrics) in
  counter_raw (ms_reg s) (bm_ExplorerMessagesSentTotal broker_metrics) = 7 ∧
  gauge_value (ms_reg s) (bm_PartitionCount broker_metrics) = f64_of_int 2 ∧
  gauge_value (ms_reg s) (bm_ConsumerLagTotal broker_metrics) = f64_of_int 2 ∧
  gauge_value (ms_reg s) (bm_ActiveConsumerGroups broker_metrics) = f64_of_int 1.
Proof.
  cbv zeta.
  assert (lists_groups demo_scraped [groupKey "g" "orders"]) as Hg by exact (Permutation_refl [groupKey "g" "orders"]).
  destruct (scrape_exact 0 (λ _ _, []) demo_scraped None [groupKey "g" "orders"] []
    (mkRuntime (S754_zero false) 3 (S754_zero false)) (mkExplorerHub ∅ 1 1 7 2)
    [CounterInc (bm_MessagesPublished broker_metrics) 1] demo_metrics demo_metrics_counted
    ltac:(reflexivity) ltac:(cbn; lia) ltac:(cbn; lia) ltac:(cbn; lia) ltac:(cbn; lia) Hg ltac:(vm_compute; reflexivity))
    as (Hc & Hs & _ & _ & Hp & Hl & Ha).
  cbn [foldl flip] in *. split; [etrans; [exact (ec_sent _ Hc)|exact Hs]|].
  split; [exact Hp|]. split; [exact Hl|exact Ha].
Defined.

(** Between two scrapes the history goes on recording what the last one set:
    unless somebody reads [/metrics], the charts of topics, partitions, groups
    and lag stay at zero. *)
Lemma history_without_scrape r es i :
  i ∈ scraped_gauges → forallb from_elsewhere es = true →
  gauge_value (foldl metric_step r es) i = gauge_value r i.
Proof.
  intros Hi. revert r. induction es as [|e es IH]; intros r He; [done|]. cbn in *. apply andb_prop in He as [He Hes].
  rewrite IH by done. by apply elsewhere_gauge.
Qed.

(** A group whose last consumer left is counted on. *)
Lemma empty_groups_counted now m group cid topic m' order :
  GroupManager_Unsubscribe now m group cid topic = Some m' →
  zlen (GroupManager_ListGroups m' order) = zlen (GroupManager_ListGroups m order).
Proof.
  unfold GroupManager_Unsubscribe. destruct (gm_groups m !! groupKey group topic) as [g|] eqn:Hg; [|by intros [= <-]].
  destruct (Group_Leave now g cid) as [[g' c]|]; [|done]. intros [= <-].
  unfold GroupManager_ListGroups, zlen. rewrite !length_fmap. f_equal. cbn. induction order as [|k order IH]; [done|]. cbn.
  destruct (decide (k = groupKey group topic)) as [->|Hne].
  - rewrite lookup_insert_eq, Hg. cbn. by rewrite IH.
  - rewrite lookup_insert_ne by done. destruct (gm_groups m !! k); cbn; by rewrite IH.
Qed.
