(* ===== verification/Brokectl.v ===== *)
(** * The admin command: [cmd/brokectl]

    Each subcommand as a program of calls: to the client library, to the admin
    port over HTTP, and prints.  A program is a tree: a call, and what follows
    each answer.  What goes to the standard error, the alignment of tables by
    [text/tabwriter], and the texts of errors are left out; a time is printed
    in the zone of the machine by a function that is an argument. *)

From Stdlib Require Import SpecFloat.
From S2P Require Import Prelude GoLib GoFlag Json GoTime Types Cluster RateLimit StringsLib Config Explorer Metrics.

Local Open Scope Z_scope.

(** ** Programs

    [CallMessage] waits for a message, the end of the channel, or two seconds:
    since now when [fresh], since the start otherwise. *)

Inductive http_verb := VerbGet | VerbPost | VerbDelete.

Record TopicListing := mkTopicListing { tl_Name : string; tl_Partitions : Z; tl_CreatedAt : Z }.

Inductive call :=
| CallDial (addr : string) (useTLS : bool)
| CallAuthenticate (key : string)
| CallListTopics
| CallCreateTopic (name : string) (partitions retentionHours : Z)
| CallDeleteTopic (name : string)
| CallPing
| CallPublish (topic key payload : string)
| CallSeekToEnd (group topic : string)
| CallSeekToTimestamp (group topic : string) (ts : Z)
| CallSeekToOffset (group topic : string) (offset : Z)
| CallReset (group topic : string)
| CallSubscribe (group topic : string)
| CallMessage (fresh : bool)
| CallCommit (partition offset : Z)
| CallCloseConsumer
| CallTick (intervalMs : Z)
| CallWriteFile (path : string) (data : bytes)
| CallHTTP (verb : http_verb) (url : string).

(** An answer of the wrong kind counts as an error. *)
Inductive answer :=
| AnsErr
| AnsOk
| AnsTopics (l : list TopicListing)
| AnsOffsets (m : gmap Z Z)
| AnsOffset (offset : Z)
| AnsRTT (micros : Z)
| AnsMessage (m : Message)
| AnsClosed
| AnsTimeout
| AnsDone
| AnsTick (uptime : Z)
| AnsHTTP (status : Z) (body : bytes).

(** [Ret] is the exit code; a line goes to the standard output; [Running] is a
    loop whose fuel is used up. *)
Inductive prog :=
| Ret (code : Z)
| Line (line : bytes) (k : prog)
| Call (c : call) (k : answer → prog)
| Running.

(** A run against whoever answers: the calls made, the lines printed, and the
    exit code, [None] while running. *)
Fixpoint exec {S} (world : S → call → S * answer) (s : S) (p : prog) : S * list call * list bytes * option Z :=
  match p with
  | Ret code => (s, [], [], Some code)
  | Line line k => let '(s, cs, ls, r) := exec world s k in (s, cs, line :: ls, r)
  | Call c k => let '(s, a) := world s c in let '(s, cs, ls, r) := exec world s (k a) in (s, c :: cs, ls, r)
  | Running => (s, [], [], None)
  end.

Definition lines (ls : list bytes) (k : prog) : prog := foldr Line k ls.

Definition tab : bytes := [Byte.x09].

(** ** Addresses *)

Definition has_byte (c : Init.Byte.byte) (s : bytes) : bool := bool_decide (c ∈ s).

Definition colon : Init.Byte.byte := Byte.x3a.
Definition lbracket : Init.Byte.byte := Byte.x5b.
Definition rbracket : Init.Byte.byte := Byte.x5d.

(** [splitHostPort] of an address without a bracket. *)
Definition split_plain (addr : bytes) : bytes * bytes :=
  match bytes_last_index colon addr with
  | Some i => (take i addr, drop (S i) addr)
  | None => (addr, bytes_of_string "9000")
  end.

(** An address with a bracket that does not begin with one is handed to and
    fro between the two functions without end; [None] is an error, [fuel] the
    depth. *)
Fixpoint splitHostPort (fuel : nat) (addr : bytes) : option (option (bytes * bytes)) :=
  match fuel with
  | O => None
  | S fuel =>
      if has_byte colon addr then
        if has_byte lbracket addr then
          match addr with
          | c :: rest =>
              if bool_decide (c = lbracket) then
                match bytes_index rbracket rest with
                | None => Some None
                | Some i =>
                    let host := take i rest in
                    match drop (S i) rest with
                    | [] => Some (Some (host, []))
                    | c :: port => Some (if bool_decide (c = colon) then Some (host, port) else None)
                    end
                end
              else splitHostPort fuel addr
          | [] => splitHostPort fuel addr
          end
        else Some (Some (split_plain addr))
      else Some (Some (addr, bytes_of_string "9000"))
  end.

(** [None] runs without end. *)
Definition split_addr (addr : string) : option (option (bytes * bytes)) := splitHostPort 1 (bytes_of_string addr).

Definition http_url (host : bytes) (port : Z) (path : string) : string :=
  ("http://" +:+ string_of_bytes host +:+ ":" +:+ fmt_d port +:+ path)%string.

(** The admin port is the next one; a port that is no number counts as 9000. *)
Definition admin_port (portStr : bytes) : Z :=
  i64 (default 9000 (ParseInt (string_of_bytes portStr)) + 1).

(** A command that needs the admin URL: code 1 on a bad address. *)
Definition with_admin (addr : string) (k : bytes → bytes → prog) : prog :=
  match split_addr addr with
  | None => Running
  | Some None => Ret 1
  | Some (Some (host, port)) => k host port
  end.

(** [dlqHTTPAddr]: the empty string on a bad address. *)
Definition dlqHTTPAddr (brokerAddr path : string) (k : string → prog) : prog :=
  match split_addr brokerAddr with
  | None => Running
  | Some None => k EmptyString
  | Some (Some (host, port)) => k (http_url host (admin_port port) path)
  end.

(** ** Replies *)

(** [json.Decoder.Decode]: the first value of the body. *)
Definition decode_first (body : bytes) : option json := fst <$> parse_value (3 * length body + 3) body.

Definition members_or {A} (f : list (bytes * json) → option A) (j : option json) : option A :=
  match j with Some (JObj l) => f l | Some JNull => f [] | _ => None end.

Definition elems_or {A} (f : list (bytes * json) → option A) (j : option json) : option (list A) :=
  match j with
  | Some JNull => Some []
  | Some (JArr js) => mapM (λ j, match j with JObj m => f m | JNull => f [] | _ => None end) js
  | _ => None
  end.

Definition fields (l : list bytes) : bytes := join tab l.

(** ** Topics *)

Section Brokectl.
(** [Format(time.RFC3339)] of [time.Unix] in the zone of the machine, the name
    of the machine, and the float printers [%.2f] of a number of thousandths
    and [%.0f]. *)
Context (fmt_time : Z → string) (fmt_2f : Z → string) (fmt_0f : spec_float → string).
(** [strconv.ParseFloat(s, 64)]. *)
Context (ParseFloat : bytes → option spec_float).

(** [Format("2006-01-02 15:04:05 UTC")] in UTC. *)
Definition fmt_created (t : Z) : bytes :=
  let secs := t / second_ns in
  let '(y, m, d) := civil_of_days (secs / 86400) in
  let sod := secs mod 86400 in
  fixed 4 y ++ [Byte.x2d] ++ fixed 2 m ++ [Byte.x2d] ++ fixed 2 d ++ [Byte.x20] ++
  fixed 2 (sod / 3600) ++ [Byte.x3a] ++ fixed 2 (sod / 60 mod 60) ++ [Byte.x3a] ++ fixed 2 (sod mod 60) ++ str " UTC".

Definition listing_le : relation TopicListing := λ a b, String.le (tl_Name a) (tl_Name b).

#[export] Instance listing_le_dec a b : Decision (listing_le a b) := decide (String.le (tl_Name a) (tl_Name b)).

Definition dec (z : Z) : bytes := str (fmt_d z).

Definition runTopicList : prog :=
  Call CallListTopics (λ a,
    match a with
    | AnsTopics topics =>
        lines (fields [str "NAME"; str "PARTITIONS"; str "CREATED"] ::
          ((λ t, fields [str (tl_Name t); dec (tl_Partitions t); fmt_created (tl_CreatedAt t)]) <$>
             merge_sort listing_le topics)) (Ret 0)
    | _ => Ret 1
    end).

(** [fs.Parse] of a subcommand; [None] when the command goes on. *)
Definition sub_flags (fs : flag_set) (args : list string) (k : flag_set → prog) : prog :=
  match flag_Parse fs args with
  | Error _ => Ret 1
  | Ok (fs, _) => k fs
  end.

(** [%q] of a name is a printer of its own. *)
Context (Quote : string → string).

Definition runTopicCreate (args : list string) : prog :=
  sub_flags [("name", FString ""); ("partitions", FInt 1); ("retention-hours", FInt 0)]%string args (λ fs,
    let name := flag_string fs "name" in
    if bool_decide (name = EmptyString) then Ret 1
    else
      Call (CallCreateTopic name (flag_int fs "partitions") (flag_int fs "retention-hours")) (λ a,
        match a with
        | AnsOk => Line (str ("topic " +:+ Quote name +:+ " created (" +:+ fmt_d (flag_int fs "partitions") +:+ " partition(s))")) (Ret 0)
        | _ => Ret 1
        end)).

Definition runTopicDelete (args : list string) : prog :=
  sub_flags [("name", FString "")]%string args (λ fs,
    let name := flag_string fs "name" in
    if bool_decide (name = EmptyString) then Ret 1
    else Call (CallDeleteTopic name) (λ a,
      match a with AnsOk => Line (str ("topic " +:+ Quote name +:+ " deleted")) (Ret 0) | _ => Ret 1 end)).

Definition runTopic (args : list string) : prog :=
  match args with
  | [] => Ret 1
  | sub :: rest =>
      if bool_decide (sub = "list"%string) then runTopicList
      else if bool_decide (sub = "create"%string) then runTopicCreate rest
      else if bool_decide (sub = "delete"%string) then runTopicDelete rest
      else Ret 1
  end.

(** ** Consumer groups *)

Record groupLine := mkGroupLine { gl_Group : string; gl_Topic : string; gl_Partition : Z; gl_Lag : Z }.

Definition groupLine_of (l : list (bytes * json)) : option groupLine :=
  g ← def_str "group" "" l; t ← def_str "topic" "" l; p ← def_int (- 2 ^ 31) (2 ^ 31 - 1) "partition" 0 l;
  lag ← def_int i64_min i64_max "lag" 0 l; Some (mkGroupLine g t p lag).

Definition groups_of (l : list (bytes * json)) : option (list groupLine) := def_objs groupLine_of "groups" [] l.

(** The status of the reply is not looked at. *)
Definition runConsumerList (brokerAddr : string) : prog :=
  with_admin brokerAddr (λ host portStr,
    match ParseInt (string_of_bytes portStr) with
    | None => Ret 1
    | Some port =>
        Call (CallHTTP VerbGet (http_url host (i64 (port + 1)) "/consumers")) (λ a,
          match a with
          | AnsHTTP _ body =>
              match members_or groups_of (decode_first body) with
              | None => Ret 1
              | Some gs =>
                  lines (fields [str "GROUP"; str "TOPIC"; str "PARTITION"; str "LAG"] ::
                    ((λ g, fields [str (gl_Group g); str (gl_Topic g); dec (gl_Partition g); dec (gl_Lag g)]) <$> gs)) (Ret 0)
              end
          | _ => Ret 1
          end)
    end).

(** The offsets by partition. *)
Definition offset_le : relation (Z * Z) := λ a b, a.1 <= b.1.

#[export] Instance offset_le_dec a b : Decision (offset_le a b) := decide (a.1 <= b.1).

Definition runConsumerSeek (args : list string) : prog :=
  sub_flags [("group", FString ""); ("topic", FString ""); ("timestamp", FString ""); ("end", FBool false)]%string args (λ fs,
    let group := flag_string fs "group" in
    let topic := flag_string fs "topic" in
    let tsStr := flag_string fs "timestamp" in
    if bool_decide (group = EmptyString) || bool_decide (topic = EmptyString) then Ret 1
    else
      let show a :=
        match a with
        | AnsOffsets offsets =>
            lines (fields [str "PARTITION"; str "OFFSET"] ::
              ((λ po, fields [dec po.1; dec po.2]) <$> merge_sort offset_le (map_to_list offsets))) (Ret 0)
        | _ => Ret 1
        end in
      if flag_bool fs "end" then Call (CallSeekToEnd group topic) show
      else if negb (bool_decide (tsStr = EmptyString)) then
        match time_parse (str tsStr) with
        | None => Ret 1
        | Some t => Call (CallSeekToTimestamp group topic (i64 t)) show
        end
      else Call (CallSeekToTimestamp group topic 0) show).

Definition runConsumerReset (args : list string) : prog :=
  sub_flags [("group", FString ""); ("topic", FString "")]%string args (λ fs,
    let group := flag_string fs "group" in
    let topic := flag_string fs "topic" in
    if bool_decide (group = EmptyString) || bool_decide (topic = EmptyString) then Ret 1
    else
      Call (CallReset group topic) (λ a,
        match a with
        | AnsOk => Line (str ("group " +:+ group +:+ " on topic " +:+ topic +:+ " reset to offset 0")) (Ret 0)
        | _ => Ret 1
        end)).

Definition runConsumer (brokerAddr : string) (args : list string) : prog :=
  match args with
  | [] => Ret 1
  | sub :: rest =>
      if bool_decide (sub = "list"%string) then runConsumerList brokerAddr
      else if bool_decide (sub = "seek"%string) then runConsumerSeek rest
      else if bool_decide (sub = "reset"%string) then runConsumerReset rest
      else Ret 1
  end.

(** ** Ping, publish, health *)

Definition runPing : prog :=
  Call CallPing (λ a, match a with AnsRTT micros => Line (str ("PONG " +:+ fmt_2f micros +:+ "ms")) (Ret 0) | _ => Ret 1 end).

Definition runPublish (args : list string) : prog :=
  sub_flags [("topic", FString ""); ("payload", FString ""); ("key", FString "")]%string args (λ fs,
    let topic := flag_string fs "topic" in
    let payload := flag_string fs "payload" in
    if bool_decide (topic = EmptyString) then Ret 1
    else if bool_decide (payload = EmptyString) then Ret 1
    else
      Call (CallPublish topic (flag_string fs "key") payload) (λ a,
        match a with AnsOffset offset => Line (str ("offset=" +:+ fmt_d offset)) (Ret 0) | _ => Ret 1 end)).

Definition runHealth (brokerAddr : string) (args : list string) : prog :=
  sub_flags [("addr", FString brokerAddr)]%string args (λ fs,
    with_admin (flag_string fs "addr") (λ host portStr,
      Call (CallHTTP VerbGet (http_url host (admin_port portStr) "/healthz/ready")) (λ a,
        match a with
        | AnsHTTP status body =>
            match decode_first body with
            | Some (JObj _) | Some JNull => if status =? 200 then Line (str "READY") (Ret 0) else Ret 1
            | _ => Ret 1
            end
        | _ => Ret 1
        end))).

(** ** Cluster and audit *)

Record isrLine := mkIsrLine { il_Topic : string; il_Partition : Z; il_ISR : list string; il_Leader : string; il_Under : bool }.

Definition isrLine_of (l : list (bytes * json)) : option isrLine :=
  t ← def_str "topic" "" l; p ← def_int (- 2 ^ 31) (2 ^ 31 - 1) "partition" 0 l; i ← def_strs "isr" [] l;
  ld ← def_str "leader" "" l; u ← def_bool "under_replicated" false l; Some (mkIsrLine t p i ld u).

Definition fmt_v (b : bool) : bytes := str (if b then "true" else "false").

Definition runClusterISR (addr : string) : prog :=
  with_admin addr (λ host portStr,
    Call (CallHTTP VerbGet (http_url host (admin_port portStr) "/cluster/isr")) (λ a,
      match a with
      | AnsHTTP status body =>
          if negb (status =? 200) then Ret 1
          else
            match elems_or isrLine_of (decode_first body) with
            | None => Ret 1
            | Some entries =>
                lines (fields [str "TOPIC"; str "PARTITION"; str "ISR_SIZE"; str "LEADER"; str "UNDER_REPLICATED"] ::
                  ((λ e, fields [str (il_Topic e); dec (il_Partition e); dec (zlen (il_ISR e)); str (il_Leader e);
                                 fmt_v (il_Under e)]) <$> entries)) (Ret 0)
            end
      | _ => Ret 1
      end)).

Definition runCluster (addr : string) (args : list string) : prog :=
  match args with
  | [] => Ret 1
  | sub :: _ => if bool_decide (sub = "isr"%string) then runClusterISR addr else Ret 1
  end.

(** An event as the table shows it; [None] in the map of the details is a wrong
    type. *)
Record auditLine := mkAuditLine { al_Time : Z; al_Type : string; al_ClientID : string; al_Topic : string; al_Success : bool }.

Definition auditLine_of (l : list (bytes * json)) : option auditLine :=
  t ← get_time zero_time "time" l; ty ← def_str "type" "" l; c ← def_str "client_id" "" l;
  _ ← def_str "remote_addr" "" l; tp ← def_str "topic" "" l; ok ← def_bool "success" false l;
  _ ← def_str "error" "" l; _ ← get_smap "details" l; Some (mkAuditLine t ty c tp ok).

(** [Format("2006-01-02 15:04:05")] in the zone the event carries. *)
Context (fmt_event : Z → string).

Definition runAuditTail (addr : string) (args : list string) : prog :=
  match flag_Parse [("n", FInt 20)]%string args with
  | Error ErrHelp => Ret 0
  | Error BadFlag => Ret 1
  | Ok (fs, _) =>
      with_admin addr (λ host portStr,
        Call (CallHTTP VerbGet (http_url host (admin_port portStr) ("/audit/recent?n=" +:+ fmt_d (flag_int fs "n")))) (λ a,
          match a with
          | AnsHTTP status body =>
              if negb (status =? 200) then Ret 1
              else
                match elems_or auditLine_of (decode_first body) with
                | None => Ret 1
                | Some events =>
                    lines (fields [str "TIME"; str "TYPE"; str "CLIENT"; str "TOPIC"; str "OK"] ::
                      ((λ e, fields [str (fmt_event (al_Time e)); str (al_Type e); str (al_ClientID e); str (al_Topic e);
                                     fmt_v (al_Success e)]) <$> events)) (Ret 0)
                end
          | _ => Ret 1
          end))
  end.

Definition runAudit (addr : string) (args : list string) : prog :=
  match args with
  | [] => runAuditTail addr []
  | sub :: rest => if bool_decide (sub = "tail"%string) then runAuditTail addr rest else Ret 1
  end.

(** ** Messages *)

Definition printable (c : Init.Byte.byte) : Init.Byte.byte := if (32 <=? bval c) && (bval c <? 127) then c else Byte.x2e.

Definition truncatePayload (b : bytes) (maxLen : nat) : bytes := printable <$> take maxLen b.

(** The lines of a message, as JSON with sorted keys or as text. *)
Definition message_lines (format : string) (m : Message) : list bytes :=
  if bool_decide (format = "json"%string) then
    [print (JObj (put "key" (jstr (msg_Key m)) ++ put "offset" (JNum (msg_Offset m)) ++
                  put "partition" (JNum (msg_Partition m)) ++ put "payload" (JStr (msg_Payload m)) ++
                  put "size" (JNum (zlen (msg_Payload m))) ++ put "ts" (jstr (fmt_time (msg_Timestamp m)))))]
  else
    [str ("[P" +:+ fmt_d (msg_Partition m) +:+ ":O" +:+ fmt_d (msg_Offset m) +:+ "] key=" +:+ msg_Key m +:+ " ts=" +:+
          fmt_time (msg_Timestamp m) +:+ " size=" +:+ fmt_d (zlen (msg_Payload m)) +:+ "B");
     truncatePayload (msg_Payload m) 120].

Definition wanted_partition (partition : Z) (m : Message) : bool := negb ((0 <=? partition) && negb (msg_Partition m =? i32 partition)).

Fixpoint tail_loop (fuel : nat) (follow : bool) (count partition : Z) (format : string) (printed : Z) : prog :=
  match fuel with
  | O => Running
  | S fuel =>
      Call (CallMessage true) (λ a,
        match a with
        | AnsMessage m =>
            if negb (wanted_partition partition m) then tail_loop fuel follow count partition format printed
            else
              lines (message_lines format m)
                (let printed := printed + 1 in
                 if (0 <? count) && (count <=? printed) then Call CallCloseConsumer (λ _, Ret 0)
                 else tail_loop fuel follow count partition format printed)
        | AnsTimeout => if follow then tail_loop fuel follow count partition format printed else Call CallCloseConsumer (λ _, Ret 0)
        | _ => Call CallCloseConsumer (λ _, Ret 0)
        end)
  end.

Definition runTail (fuel : nat) (args : list string) : prog :=
  sub_flags [("topic", FString ""); ("group", FString ""); ("follow", FBool false); ("offset", FInt (-1)); ("count", FInt 0);
             ("partition", FInt (-1)); ("format", FString "text")]%string args (λ fs,
    let topic := flag_string fs "topic" in
    let group := if bool_decide (flag_string fs "group" = EmptyString) then "brokectl-tail"%string else flag_string fs "group" in
    if bool_decide (topic = EmptyString) then Ret 1
    else
      Call (CallSubscribe group topic) (λ a,
        match a with
        | AnsOk =>
            let loop := tail_loop fuel (flag_bool fs "follow") (flag_int fs "count") (flag_int fs "partition") (flag_string fs "format") 0 in
            if 0 <=? flag_int fs "offset" then
              Call (CallSeekToOffset group topic (flag_int fs "offset")) (λ a,
                match a with AnsOffsets _ => loop | _ => Call CallCloseConsumer (λ _, Ret 1) end)
            else loop
        | _ => Ret 1
        end)).

(** The end of [runConsume]. *)
Definition consume_end (commit : bool) (maxOffset : Z) : prog :=
  if commit && (0 <=? maxOffset) then
    Call (CallCommit 0 maxOffset) (λ a,
      Call CallCloseConsumer (λ _, Ret (match a with AnsOk => 0 | _ => 1 end)))
  else Call CallCloseConsumer (λ _, Ret 0).

Fixpoint consume_loop (fuel : nat) (batch partition : Z) (commit : bool) (format : string) (received maxOffset : Z) : prog :=
  match fuel with
  | O => Running
  | S fuel =>
      if batch <=? received then consume_end commit maxOffset
      else
        Call (CallMessage false) (λ a,
          match a with
          | AnsMessage m =>
              if negb (wanted_partition partition m) then consume_loop fuel batch partition commit format received maxOffset
              else
                lines (message_lines format m)
                  (consume_loop fuel batch partition commit format (received + 1)
                     (if maxOffset <? msg_Offset m then msg_Offset m else maxOffset))
          | _ => consume_end commit maxOffset
          end)
  end.

(** The consumer id is computed and used nowhere. *)
Definition runConsume (fuel : nat) (args : list string) : prog :=
  sub_flags [("topic", FString ""); ("group", FString ""); ("consumer", FString ""); ("partition", FInt (-1)); ("batch", FInt 10);
             ("commit", FBool false); ("format", FString "text")]%string args (λ fs,
    let topic := flag_string fs "topic" in
    let group := flag_string fs "group" in
    if bool_decide (topic = EmptyString) then Ret 1
    else if bool_decide (group = EmptyString) then Ret 1
    else
      Call (CallSubscribe group topic) (λ a,
        match a with
        | AnsOk =>
            consume_loop fuel (flag_int fs "batch") (flag_int fs "partition") (flag_bool fs "commit") (flag_string fs "format") 0 (-1)
        | _ => Ret 1
        end)).

(** ** Dead letters *)

Record dlqLine := mkDlqLine {
  dl_ID : string; dl_Topic : string; dl_Partition : Z; dl_Offset : Z; dl_Key : string; dl_Attempts : Z; dl_EnqueuedAt : string }.

Definition dlqLine_of (l : list (bytes * json)) : option dlqLine :=
  i ← def_str "id" "" l; t ← def_str "topic" "" l; p ← def_int (- 2 ^ 31) (2 ^ 31 - 1) "partition" 0 l;
  o ← def_int i64_min i64_max "offset" 0 l; k ← def_str "key" "" l; n ← def_int i64_min i64_max "attempts" 0 l;
  e ← def_str "enqueued_at" "" l; Some (mkDlqLine i t p o k n e).

(** The group and the topic go into the query as they are. *)
Definition dlq_query (url group topic : string) : string := (url +:+ "?group=" +:+ group +:+ "&topic=" +:+ topic)%string.

Definition runDLQList (addr : string) (args : list string) : prog :=
  sub_flags [("group", FString ""); ("topic", FString ""); ("limit", FInt 100)]%string args (λ fs,
    let group := flag_string fs "group" in
    let topic := flag_string fs "topic" in
    if bool_decide (group = EmptyString) || bool_decide (topic = EmptyString) then Ret 1
    else
      dlqHTTPAddr addr "/dlq" (λ url,
        Call (CallHTTP VerbGet (dlq_query url group topic +:+ "&limit=" +:+ fmt_d (flag_int fs "limit"))) (λ a,
          match a with
          | AnsHTTP status body =>
              if status =? 404 then Ret 0
              else if negb (status =? 200) then Ret 1
              else
                match elems_or dlqLine_of (decode_first body) with
                | None => Ret 1
                | Some entries =>
                    lines (fields [str "ID"; str "PARTITION"; str "OFFSET"; str "ATTEMPTS"; str "ENQUEUED_AT"; str "KEY"] ::
                      ((λ e, fields [str (dl_ID e); dec (dl_Partition e); dec (dl_Offset e); dec (dl_Attempts e);
                                     str (dl_EnqueuedAt e); str (dl_Key e)]) <$> entries)) (Ret 0)
                end
          | _ => Ret 1
          end))).

(** The two numbers of a replay; the status of the reply is not looked at. *)
Definition replay_counts (l : list (bytes * json)) : option (Z * Z) :=
  n ← def_int i64_min i64_max "replayed" 0 l; r ← def_int i64_min i64_max "remaining" 0 l; Some (n, r).

Definition runDLQReplay (addr : string) (args : list string) : prog :=
  sub_flags [("group", FString ""); ("topic", FString ""); ("limit", FInt 10)]%string args (λ fs,
    let group := flag_string fs "group" in
    let topic := flag_string fs "topic" in
    if bool_decide (group = EmptyString) || bool_decide (topic = EmptyString) then Ret 1
    else
      dlqHTTPAddr addr "/dlq/replay" (λ url,
        Call (CallHTTP VerbPost (dlq_query url group topic +:+ "&limit=" +:+ fmt_d (flag_int fs "limit"))) (λ a,
          match a with
          | AnsHTTP _ body =>
              match members_or replay_counts (decode_first body) with
              | None => Ret 1
              | Some (n, r) => Line (str ("replayed: " +:+ fmt_d n +:+ ", remaining: " +:+ fmt_d r)) (Ret 0)
              end
          | _ => Ret 1
          end))).

Definition runDLQPurge (addr : string) (args : list string) : prog :=
  sub_flags [("group", FString ""); ("topic", FString "")]%string args (λ fs,
    let group := flag_string fs "group" in
    let topic := flag_string fs "topic" in
    if bool_decide (group = EmptyString) || bool_decide (topic = EmptyString) then Ret 1
    else
      dlqHTTPAddr addr "/dlq" (λ url,
        Call (CallHTTP VerbDelete (dlq_query url group topic)) (λ a,
          match a with
          | AnsHTTP _ body =>
              match members_or (def_int i64_min i64_max "purged" 0) (decode_first body) with
              | None => Ret 1
              | Some n => Line (str ("purged: " +:+ fmt_d n)) (Ret 0)
              end
          | _ => Ret 1
          end))).

Definition runDLQ (addr : string) (args : list string) : prog :=
  match args with
  | [] => Ret 1
  | sub :: rest =>
      if bool_decide (sub = "list"%string) then runDLQList addr rest
      else if bool_decide (sub = "replay"%string) then runDLQReplay addr rest
      else if bool_decide (sub = "purge"%string) then runDLQPurge addr rest
      else Ret 1
  end.

(** ** Profiles *)

Definition pprof_path (profType : string) : string :=
  if bool_decide (profType = "cpu"%string) then "/debug/pprof/profile"
  else ("/debug/pprof/" +:+ profType)%string.

Definition runPprof (addr : string) (args : list string) : prog :=
  sub_flags [("type", FString ""); ("seconds", FInt 30); ("output", FString "")]%string args (λ fs,
    let profType := flag_string fs "type" in
    let output := if bool_decide (flag_string fs "output" = EmptyString) then (profType +:+ ".prof")%string else flag_string fs "output" in
    if negb (bool_decide (profType ∈ ["cpu"; "heap"; "goroutine"; "trace"]%string)) then Ret 1
    else
      dlqHTTPAddr addr (pprof_path profType) (λ url,
        let url := if bool_decide (profType ∈ ["cpu"; "trace"]%string)
                   then (url +:+ "?seconds=" +:+ fmt_d (flag_int fs "seconds"))%string else url in
        Call (CallHTTP VerbGet url) (λ a,
          match a with
          | AnsHTTP status body =>
              if negb (status =? 200) then Ret 1
              else Call (CallWriteFile output body) (λ a,
                match a with AnsOk => Line (str ("profile saved to " +:+ output)) (Ret 0) | _ => Ret 1 end)
          | _ => Ret 1
          end))).

(** ** Metrics *)

(** What one line says: a name without its labels, and a value. *)
Definition metric_of_line (line : bytes) : option (string * spec_float) :=
  match line with
  | [] => None
  | c :: _ =>
      if bool_decide (c = Byte.x23) then None
      else
        match bytes_index Byte.x20 line with
        | None => None
        | Some i =>
            let name := take i line in
            let name := match bytes_index Byte.x7b name with Some j => take j name | None => name end in
            match ParseFloat (drop (S i) line) with
            | None => None
            | Some v => Some (string_of_bytes name, v)
            end
        end
  end.

Definition add_line (m : gmap string spec_float) (line : bytes) : gmap string spec_float :=
  match metric_of_line line with Some (name, v) => <[name := v]> m | None => m end.

Definition parsePrometheusMetrics (data : bytes) : gmap string spec_float := foldl add_line ∅ (scan_lines data).

(** [uptime] as days, hours and minutes. *)
Context (fmt_uptime : Z → string).

(** The name of the node in the reply of the probe: it is kept only if every
    member up to the first that is no string was read. *)
Definition node_of_health (a : answer) : string :=
  match a with
  | AnsHTTP _ body =>
      match decode_first body with
      | Some (JObj l) => match jfield "node_id" l with Some (JStr s) => string_of_bytes s | _ => EmptyString end
      | _ => EmptyString
      end
  | _ => EmptyString
  end.

Definition metric (m : gmap string spec_float) (name : string) : spec_float := default (S754_zero false) (m !! name).

Definition top_lines (node : string) (uptime : Z) (m : gmap string spec_float) (pubRate conRate : spec_float) : list bytes :=
  [str ("pubsub-broker  node=" +:+ node +:+ "  uptime=" +:+ fmt_uptime uptime);
   str ("messages/sec (publish):  " +:+ fmt_0f pubRate);
   str ("messages/sec (consume):  " +:+ fmt_0f conRate);
   str ("consumer lag (total):    " +:+ fmt_0f (metric m "pubsub_consumer_lag_total"));
   str ("active connections:      " +:+ fmt_0f (metric m "pubsub_active_connections"));
   str ("WAL bytes total:         " +:+
        fmt_0f (f64_div (f64_div (metric m "pubsub_wal_bytes_total") (f64_of_int 1024)) (f64_of_int 1024)) +:+ " MB");
   str ("topics:                  " +:+ fmt_0f (metric m "pubsub_topic_count") +:+ "   partitions: " +:+
        fmt_0f (metric m "pubsub_partition_count"));
   str ("ISR size (avg):          " +:+ fmt_0f (metric m "pubsub_cluster_isr_size") +:+ "   under-replicated: " +:+
        fmt_0f (metric m "pubsub_cluster_under_replicated_partitions"))].

(** [prev] are the two totals of the last poll, [None] at the first; the rule
    and the codes that clear the screen are left out. *)
Fixpoint top_loop (fuel : nat) (interval : Z) (metricsURL healthURL : string) (prev : option (spec_float * spec_float)) : prog :=
  match fuel with
  | O => Running
  | S fuel =>
      Call (CallTick interval) (λ a,
        match a with
        | AnsTick uptime =>
            Call (CallHTTP VerbGet metricsURL) (λ a,
              match a with
              | AnsHTTP _ body =>
                  let m := parsePrometheusMetrics body in
                  Call (CallHTTP VerbGet healthURL) (λ h,
                    let pub := metric m "pubsub_messages_published_total" in
                    let con := metric m "pubsub_messages_consumed_total" in
                    let rates :=
                      match prev with
                      | None => (S754_zero false, S754_zero false)
                      | Some (p, c) => (f64_sub pub p, f64_sub con c)
                      end in
                    lines (top_lines (node_of_health h) uptime m rates.1 rates.2)
                      (top_loop fuel interval metricsURL healthURL (Some (pub, con))))
              | _ => top_loop fuel interval metricsURL healthURL prev
              end)
        | _ => Line [] (Ret 0)
        end)
  end.

Definition runTop (fuel : nat) (addr : string) (args : list string) : prog :=
  sub_flags [("interval", FInt 1000)]%string args (λ fs,
    let interval := if flag_int fs "interval" <=? 0 then 1000 else flag_int fs "interval" in
    with_admin addr (λ host portStr,
      let port := admin_port portStr in
      top_loop fuel interval (http_url host port "/metrics") (http_url host port "/health") None)).

(** ** The command *)

Definition run (fuel : nat) (args : list string) : prog :=
  match flag_Parse [("addr", FString "127.0.0.1:9000"); ("key", FString ""); ("tls", FBool false)]%string args with
  | Error ErrHelp => Ret 0
  | Error BadFlag => Ret 1
  | Ok (_, []) => Ret 1
  | Ok (fs, cmd :: rest) =>
      let addr := flag_string fs "addr" in
      if bool_decide (cmd = "health"%string) then runHealth addr rest
      else if bool_decide (cmd = "cluster"%string) then runCluster addr rest
      else if bool_decide (cmd = "dlq"%string) then runDLQ addr rest
      else if bool_decide (cmd = "pprof"%string) then runPprof addr rest
      else if bool_decide (cmd = "top"%string) then runTop fuel addr rest
      else
        let dispatch :=
          if bool_decide (cmd = "topic"%string) then runTopic rest
          else if bool_decide (cmd = "consumer"%string) then runConsumer addr rest
          else if bool_decide (cmd = "audit"%string) then runAudit addr rest
          else if bool_decide (cmd = "ping"%string) then runPing
          else if bool_decide (cmd = "publish"%string) then runPublish rest
          else if bool_decide (cmd = "tail"%string) then runTail fuel rest
          else if bool_decide (cmd = "consume"%string) then runConsume fuel rest
          else Ret 1 in
        Call (CallDial addr (flag_bool fs "tls")) (λ a,
          match a with
          | AnsOk =>
              if bool_decide (flag_string fs "key" = EmptyString) then dispatch
              else Call (CallAuthenticate (flag_string fs "key")) (λ a, match a with AnsOk => dispatch | _ => Ret 1 end)
          | _ => Ret 1
          end)
  end.

End Brokectl.

(** ** What a command may do *)

(** Every call a program can make, whatever the answers, is allowed. *)
Fixpoint only (allowed : call → bool) (p : prog) : Prop :=
  match p with
  | Ret _ | Running => True
  | Line _ k => only allowed k
  | Call c k => allowed c = true ∧ ∀ a, only allowed (k a)
  end.

(** Calls that leave the broker as it is. *)
Definition looks (c : call) : bool :=
  match c with
  | CallDial _ _ | CallAuthenticate _ | CallListTopics | CallPing | CallTick _ | CallWriteFile _ _ | CallHTTP VerbGet _ => true
  | _ => false
  end.

Definition no_commit (c : call) : bool := match c with CallCommit _ _ => false | _ => true end.

Lemma only_lines allowed ls k : only allowed k → only allowed (lines ls k).
Proof. intros Hk. by induction ls. Qed.

(** What is allowed is all a run does. *)
Lemma only_exec {S} (world : S → call → S * answer) allowed p s :
  only allowed p → Forall (λ c, allowed c = true) (exec world s p).1.1.2.
Proof.
  revert s. induction p as [code|l p IH|c k IH|]; intros s Hp; cbn in *; [constructor| | |constructor].
  - specialize (IH s Hp). by destruct (exec world s p) as [[[s' cs] ls] r].
  - destruct Hp as [Hc Hk]. destruct (world s c) as [s1 a]. specialize (IH a s1 (Hk a)).
    destruct (exec world s1 (k a)) as [[[s' cs] ls] r]. cbn in *. by constructor.
Qed.

Ltac only_step :=
  match goal with
  | |- True => exact I
  | |- only _ (lines _ _) => apply only_lines
  | |- only _ (Call _ _) => split; [reflexivity|intros []]
  | |- only _ (Line _ _) => cbn [only]
  | |- only _ (Ret _) => exact I
  | |- only _ Running => exact I
  | |- only _ (match ?x with _ => _ end) => destruct x
  | |- only _ (with_admin _ _) => unfold with_admin; destruct (split_addr _) as [[[]|]|]
  | |- only _ (dlqHTTPAddr _ _ _) => unfold dlqHTTPAddr; destruct (split_addr _) as [[[]|]|]
  | |- only _ (sub_flags _ _ _) => unfold sub_flags; destruct (flag_Parse _ _) as [[]|]
  end.

(** Comparisons of two words that are known. *)
Ltac decide_words :=
  repeat match goal with
  | |- context [bool_decide (?a = ?b)] =>
      first [rewrite (bool_decide_eq_true_2 (a = b)) by reflexivity | rewrite (bool_decide_eq_false_2 (a = b)) by discriminate]
  end.

Section Effects.
Context (fmt_time : Z → string) (fmt_2f : Z → string) (fmt_0f : spec_float → string) (ParseFloat : bytes → option spec_float).
Context (Quote : string → string) (fmt_event fmt_uptime : Z → string).

Lemma top_loop_looks fuel interval murl hurl prev :
  only looks (top_loop fmt_0f ParseFloat fmt_uptime fuel interval murl hurl prev).
Proof.
  revert prev. induction fuel as [|fuel IH]; intros prev; [exact I|]. cbn [top_loop]. cbv zeta.
  repeat (only_step || apply IH).
Qed.

Definition observers : list string := ["health"; "cluster"; "audit"; "pprof"; "top"; "ping"]%string.

Notation run := (run fmt_time fmt_2f fmt_0f ParseFloat Quote fmt_event fmt_uptime).

(** The commands that look at a broker change nothing in it: whatever the
    flags and whatever the broker answers, they make no call that publishes,
    creates, deletes, seeks, consumes or commits. *)
Theorem observers_only_look fuel args fs cmd rest :
  flag_Parse [("addr", FString "127.0.0.1:9000"); ("key", FString ""); ("tls", FBool false)]%string args = Ok (fs, cmd :: rest) →
  cmd ∈ observers → only looks (run fuel args).
Proof.
  intros Hp Hc. unfold run. rewrite Hp. cbv zeta.
  unfold observers in Hc. rewrite !elem_of_cons, elem_of_nil in Hc.
  destruct Hc as [->|[->|[->|[->|[->|[->|[]]]]]]]; decide_words.
  - unfold runHealth. repeat only_step.
  - unfold runCluster, runClusterISR. repeat only_step.
  - unfold runAudit, runAuditTail. repeat only_step.
  - unfold runPprof. cbv zeta. repeat only_step.
  - unfold runTop. cbv zeta. repeat (only_step || apply top_loop_looks).
  - unfold runPing. repeat only_step.
Qed.

Lemma observers_only_look_witness :
  flag_Parse [("addr", FString "127.0.0.1:9000"); ("key", FString ""); ("tls", FBool false)]%string
    ["-addr"; "b:9000"; "top"; "-interval"; "500"]%string =
    Ok ([("addr", FString "b:9000"); ("key", FString ""); ("tls", FBool false)]%string, ["top"; "-interval"; "500"]%string) ∧
  only looks (run 10 ["-addr"; "b:9000"; "top"; "-interval"; "500"]%string).
Proof.
  split; [by vm_compute|].
  apply (observers_only_look 10 _ [("addr", FString "b:9000"); ("key", FString ""); ("tls", FBool false)]%string "top"%string
           ["-interval"; "500"]%string); [by vm_compute|].
  apply (bool_decide_unpack _). by vm_compute.
Defined.

(** [tail] commits nothing, and [consume] only when it is told to. *)
Lemma tail_loop_no_commit fuel follow count partition format printed :
  only no_commit (tail_loop fmt_time fuel follow count partition format printed).
Proof.
  revert printed. induction fuel as [|fuel IH]; intros printed; [exact I|]. cbn [tail_loop]. cbv zeta.
  repeat (only_step || apply IH).
Qed.

Lemma consume_loop_no_commit fuel batch partition format received maxOffset :
  only no_commit (consume_loop fmt_time fuel batch partition false format received maxOffset).
Proof.
  revert received maxOffset. induction fuel as [|fuel IH]; intros received maxOffset; [exact I|]. cbn [consume_loop].
  unfold consume_end. cbn [andb]. repeat (only_step || apply IH).
Qed.

(** ** [consume] *)

(** A broker that has these messages and no more, and takes every commit. *)
Definition serve (ms : list Message) (c : call) : list Message * answer :=
  match c with
  | CallMessage _ => match ms with m :: ms => (ms, AnsMessage m) | [] => ([], AnsTimeout) end
  | _ => (ms, AnsOk)
  end.

(** The messages printed, and the largest of their offsets. *)
Definition consumed (batch : nat) (partition : Z) (ms : list Message) : list Message :=
  take batch (List.filter (wanted_partition partition) ms).

Definition max_offset (init : Z) (ms : list Message) : Z := foldl (λ o m, Z.max o (msg_Offset m)) init ms.

Definition is_commit (c : call) : bool := match c with CallCommit _ _ => true | _ => false end.

Lemma consume_loop_exec fuel batch partition commit format ms received o :
  0 <= received <= batch → (length ms < fuel)%nat →
  let '(_, cs, ls, r) := exec serve ms (consume_loop fmt_time fuel batch partition commit format received o) in
  let taken := consumed (Z.to_nat (batch - received)) partition ms in
  ls = taken ≫= message_lines fmt_time format ∧ r = Some 0 ∧
  List.filter is_commit cs =
    if commit && (0 <=? max_offset o taken) then [CallCommit 0 (max_offset o taken)] else [].
Proof.
  revert received o ms. induction fuel as [|fuel IH]; intros received o ms Hr Hf; [lia|].
  assert (∀ o' (ms' : list Message), let '(_, cs, ls, r) := exec serve ms' (consume_end commit o') in
            ls = [] ∧ r = Some 0 ∧ List.filter is_commit cs = if commit && (0 <=? o') then [CallCommit 0 o'] else []) as He.
  { intros o' ms'. unfold consume_end. by destruct (commit && (0 <=? o')). }
  cbn [consume_loop]. destruct (Z.leb_spec batch received) as [Hb|Hb].
  { specialize (He o ms). destruct (exec serve ms (consume_end commit o)) as [[[s' cs] ls] r]. cbv zeta.
    replace (Z.to_nat (batch - received)) with O by lia. exact He. }
  destruct ms as [|m ms]; cbn [exec serve].
  { specialize (He o []). destruct (exec serve [] (consume_end commit o)) as [[[s' cs] ls] r]. cbv zeta.
    unfold consumed. cbn [List.filter]. rewrite take_nil. exact He. }
  cbn [length] in Hf. destruct (wanted_partition partition m) eqn:Ew; cbn [negb].
  - specialize (IH (received + 1) (if o <? msg_Offset m then msg_Offset m else o) ms ltac:(lia) ltac:(lia)).
    assert (∀ xs k s, exec serve s (lines xs k) = let '(s', cs, ls, r) := exec serve s k in (s', cs, xs ++ ls, r)) as Hl.
    { intros xs k s. induction xs as [|x xs IHx]; cbn; [by destruct (exec serve s k) as [[[? ?] ?] ?]|].
      change (foldr Line k xs) with (lines xs k). rewrite IHx. by destruct (exec serve s k) as [[[? ?] ?] ?]. }
    rewrite Hl. destruct (exec serve ms _) as [[[s' cs] ls] r]. cbv zeta in *.
    replace (Z.to_nat (batch - received)) with (S (Z.to_nat (batch - (received + 1)))) by lia.
    unfold consumed in *. cbn [List.filter]. rewrite Ew. cbn [take mbind list_bind].
    assert ((if o <? msg_Offset m then msg_Offset m else o) = Z.max o (msg_Offset m)) as Hmax by (destruct (Z.ltb_spec o (msg_Offset m)); lia).
    rewrite Hmax in IH. destruct IH as (-> & -> & IH). split; [done|]. split; [done|]. cbn [List.filter is_commit]. exact IH.
  - specialize (IH received o ms Hr ltac:(lia)). destruct (exec serve ms _) as [[[s' cs] ls] r]. cbv zeta in *.
    unfold consumed in *. cbn [List.filter]. rewrite Ew. exact IH.
Qed.

(** [consume] prints the first messages of the wanted partition, at most a
    batch of them, returns 0, and with [-commit] makes exactly one commit when
    it printed any: of the largest offset printed, under partition 0 whatever
    partition the messages are of. *)
Lemma consume_commits batch partition format ms :
  0 <= batch → Forall (λ m, 0 <= msg_Offset m) ms →
  let '(_, cs, ls, r) :=
    exec serve ms (consume_loop fmt_time (S (length ms)) batch partition true format 0 (-1)) in
  let taken := consumed (Z.to_nat batch) partition ms in
  ls = taken ≫= message_lines fmt_time format ∧ r = Some 0 ∧
  List.filter is_commit cs = match taken with [] => [] | _ => [CallCommit 0 (max_offset (-1) taken)] end.
Proof.
  intros Hb Ho. pose proof (consume_loop_exec (S (length ms)) batch partition true format ms 0 (-1) ltac:(lia) ltac:(lia)) as H.
  destruct (exec serve ms _) as [[[s' cs] ls] r]. cbv zeta in *. rewrite Z.sub_0_r in H. destruct H as (-> & -> & ->).
  split; [done|]. split; [done|]. destruct (consumed (Z.to_nat batch) partition ms) as [|m taken] eqn:Et; [done|].
  assert (0 <= msg_Offset m) as Hm.
  { apply (proj1 (Forall_forall _ _) Ho). assert (m ∈ consumed (Z.to_nat batch) partition ms) as Hin by (rewrite Et; set_solver).
    apply elem_of_take in Hin as (i & Hi & _). apply list_elem_of_lookup_2 in Hi. apply list_elem_of_In in Hi.
    apply filter_In in Hi as [Hi _]. by apply list_elem_of_In. }
  assert (0 <= max_offset (-1) (m :: taken)) as H0.
  { unfold max_offset. cbn [foldl]. clear -Hm. assert (0 <= Z.max (-1) (msg_Offset m)) as Ha by lia. revert Ha.
    generalize (Z.max (-1) (msg_Offset m)). induction taken as [|x taken IH]; intros z Hz; [done|]. cbn. apply IH. lia. }
  apply Z.leb_le in H0. by rewrite H0.
Qed.

End Effects.

(** ** Addresses and statuses *)

(** A bracket that is not in front: the two functions call each other without
    end. *)
Lemma split_endless fuel c addr :
  c ≠ lbracket → has_byte colon (c :: addr) = true → has_byte lbracket (c :: addr) = true →
  splitHostPort fuel (c :: addr) = None.
Proof.
  intros Hc Hcol Hb. induction fuel as [|fuel IH]; [done|]. cbn [splitHostPort]. rewrite Hcol, Hb.
  by rewrite bool_decide_eq_false_2.
Qed.

(** An IPv6 address loses its brackets on the way into the URL. *)
Lemma ipv6_url :
  split_addr "[::1]:9000" = Some (Some (str "::1", str "9000")) ∧
  http_url (str "::1") (admin_port (str "9000")) "/health" = "http://::1:9001/health"%string.
Proof. split; by vm_compute. Qed.

(** The reply of [requireAuth] to a request without a session. *)
Definition refused : bytes := print (JObj [(str "error", jstr "authentication required")]).

(** A refusal reads as a purge of nothing, as a replay of nothing, and as a
    broker without groups. *)
Lemma refusal_hidden :
  let world (_ : unit) (_ : call) := (tt, AnsHTTP 401 refused) in
  (exec world tt (runDLQPurge "h:1" ["-group"; "g"; "-topic"; "t"]%string) =
    (tt, [CallHTTP VerbDelete "http://h:2/dlq?group=g&topic=t"%string], [str "purged: 0"], Some 0)) ∧
  (exec world tt (runDLQReplay "h:1" ["-group"; "g"; "-topic"; "t"]%string) =
    (tt, [CallHTTP VerbPost "http://h:2/dlq/replay?group=g&topic=t&limit=10"%string], [str "replayed: 0, remaining: 0"], Some 0)) ∧
  (exec world tt (runConsumerList "h:1") =
    (tt, [CallHTTP VerbGet "http://h:2/consumers"%string], [fields [str "GROUP"; str "TOPIC"; str "PARTITION"; str "LAG"]], Some 0)).
Proof. split; [|split]; vm_compute; reflexivity. Qed.

(** A group of one word is sent as it is; one with an ampersand is another
    request. *)
Lemma query_not_escaped :
  dlq_query "u" "a&topic=x" "t" = "u?group=a&topic=x&topic=t"%string.
Proof. reflexivity. Qed.
