(* ===== verification/BrokectlTop.v ===== *)
(** * [brokectl top] reads what [/metrics] shows

    The parser of [cmd/brokectl] against the exposition of
    [internal/metrics]: every counter, every gauge and the totals of every
    histogram of the broker come back with their value.  The printer [%g] and
    [strconv.ParseFloat] are arguments. *)

From Stdlib Require Import SpecFloat DecimalFacts DecimalString.
From S2P Require Import Prelude GoLib Json RateLimit StringsLib Metrics Brokectl.

Local Open Scope Z_scope.

Definition newline : Init.Byte.byte := Byte.x0a.

(** ** The digits of a number *)

Definition plain_byte (b : Init.Byte.byte) : bool := (33 <=? bval b) && (bval b <? 127).

Definition digit_byte (b : Init.Byte.byte) : bool := (48 <=? bval b) && (bval b <? 58) || (bval b =? 45).

Lemma digit_plain b : digit_byte b = true → plain_byte b = true.
Proof. by destruct b. Qed.

Lemma uint_digit_bytes d : forallb digit_byte (str (NilEmpty.string_of_uint d)) = true.
Proof. induction d; [done|..]; exact IHd. Qed.

Lemma fmt_d_digit_bytes z : forallb digit_byte (str (fmt_d z)) = true.
Proof.
  assert (∀ d, forallb digit_byte (str (NilZero.string_of_uint d)) = true) as Hu.
  { intros []; try apply uint_digit_bytes. done. }
  unfold fmt_d. destruct (Z.to_int z) as [d|d]; [apply Hu|]. cbn. apply Hu.
Qed.

Lemma double_digits d :
  (Decimal.nb_digits (Decimal.Little.double d) <= S (Decimal.nb_digits d))%nat ∧
  (Decimal.nb_digits (Decimal.Little.succ_double d) <= S (Decimal.nb_digits d))%nat.
Proof. induction d; cbn; lia. Qed.

Lemma little_digits p : (Decimal.nb_digits (Pos.to_little_uint p) <= Pos.size_nat p)%nat.
Proof.
  induction p as [p IH|p IH|]; cbn; [| |done];
    pose proof (double_digits (Pos.to_little_uint p)); lia.
Qed.

Lemma uint_length d : length (str (NilEmpty.string_of_uint d)) = Decimal.nb_digits d.
Proof. induction d; [done|..]; cbn; f_equal; exact IHd. Qed.

Lemma pos_length p : (length (str (NilZero.string_of_uint (Pos.to_uint p))) <= S (Pos.size_nat p))%nat.
Proof.
  pose proof (little_digits p) as Hd. rewrite <- (nb_digits_rev (Pos.to_little_uint p)) in Hd.
  change (Decimal.rev (Pos.to_little_uint p)) with (Pos.to_uint p) in Hd. rewrite <- uint_length in Hd.
  destruct (Pos.to_uint p); cbn in *; lia.
Qed.

Lemma size_nat_le p n : Z.pos p < 2 ^ Z.of_nat n → (Pos.size_nat p <= n)%nat.
Proof.
  revert n. induction p as [p IH|p IH|]; intros [|n] Hn; cbn [Pos.size_nat] in *; try lia;
    rewrite Nat2Z.inj_succ, Z.pow_succ_r in Hn by lia; specialize (IH n); lia.
Qed.

Lemma fmt_d_length n z : - 2 ^ Z.of_nat n < z < 2 ^ Z.of_nat n → (length (str (fmt_d z)) <= n + 2)%nat.
Proof.
  intros Hz. unfold fmt_d. destruct z as [|p|p]; [cbn; lia|..]; pose proof (pos_length p) as Hp;
    pose proof (size_nat_le p n ltac:(lia)) as Hs; cbn [Z.to_int NilZero.string_of_int]; [lia|].
  change (S (length (str (NilZero.string_of_uint (Pos.to_uint p)))) <= n + 2)%nat. lia.
Qed.

(** ** Lines *)

Lemma raw_lines_line acc l s : newline ∉ l → raw_lines acc (l ++ newline :: s) = (acc ++ l) :: raw_lines [] s.
Proof.
  revert acc. induction l as [|b l IH]; intros acc Hl.
  - cbn. by rewrite app_nil_r.
  - apply not_elem_of_cons in Hl as [Hb Hl]. cbn [app raw_lines]. rewrite bool_decide_eq_false_2 by (intros Hx; apply Hb; by rewrite Hx).
    rewrite IH by done. by rewrite <- app_assoc.
Qed.

Definition with_ends (ls : list bytes) : bytes := mjoin ((λ l, l ++ [newline]) <$> ls).

Lemma with_ends_app a b : with_ends (a ++ b) = with_ends a ++ with_ends b.
Proof. unfold with_ends. by rewrite fmap_app, join_app. Qed.

Lemma with_ends_cons l ls : with_ends (l :: ls) = with_ends [l] ++ with_ends ls.
Proof. exact (with_ends_app [l] ls). Qed.

Lemma raw_lines_all ls : Forall (λ l, newline ∉ l) ls → raw_lines [] (with_ends ls) = ls.
Proof.
  induction 1 as [|l ls Hl _ IH]; [done|]. change (with_ends (l :: ls)) with ((l ++ [newline]) ++ with_ends ls).
  rewrite <- app_assoc. cbn [app]. rewrite raw_lines_line by done. by rewrite IH.
Qed.

Section TopView.
(** [%g] and [strconv.ParseFloat]. *)
Context (fmt_g : spec_float → string) (ParseFloat : bytes → option spec_float).

(** What a line says to the parser. *)
Definition good_line (l : bytes) (kv : option (string * spec_float)) : Prop :=
  newline ∉ l ∧ zlen l <= max_line ∧ metric_of_line ParseFloat (dropCR l) = kv.

Definition add_sample (m : gmap string spec_float) (kv : option (string * spec_float)) : gmap string spec_float :=
  match kv with Some (name, v) => <[name := v]> m | None => m end.

Lemma parse_good ls kvs :
  Forall2 good_line ls kvs → parsePrometheusMetrics ParseFloat (with_ends ls) = foldl add_sample ∅ kvs.
Proof.
  intros Hg. unfold parsePrometheusMetrics, scan_lines.
  rewrite raw_lines_all by (eapply Forall2_Forall_l; [exact Hg|]; apply Forall_true; by intros ? ? (? & _)).
  generalize (∅ : gmap string spec_float). induction Hg as [|l kv ls kvs (_ & Hl & Hm) _ IH]; intros m; [done|].
  cbn [until_long]. destruct (Z.ltb_spec max_line (zlen l)); [lia|]. cbn [foldl]. rewrite IH. f_equal.
  unfold add_line. by rewrite Hm.
Qed.

Lemma comment_line rest :
  newline ∉ rest → zlen rest <= max_line - 2 → good_line (Byte.x23 :: Byte.x20 :: rest) None.
Proof.
  intros Hn Hl. split; [|split].
  - apply not_elem_of_cons. split; [done|]. by apply not_elem_of_cons.
  - rewrite !zlen_cons. lia.
  - unfold dropCR. destruct (last (Byte.x23 :: Byte.x20 :: rest)); [|done]. by case_bool_decide.
Qed.

Lemma dropCR_text l t : t ≠ [] → Byte.x0d ∉ t → dropCR (l ++ t) = l ++ t.
Proof.
  intros Ht Hc. destruct t as [|x t _] using rev_ind; [done|]. unfold dropCR. rewrite app_assoc, last_snoc.
  rewrite bool_decide_eq_false_2; [done|]. set_solver.
Qed.

Lemma bytes_index_none c s : c ∉ s → bytes_index c s = None.
Proof.
  induction s as [|b s IH]; intros Hs; [done|]. apply not_elem_of_cons in Hs as [Hb Hs]. cbn.
  rewrite bool_decide_eq_false_2 by congruence. by rewrite IH.
Qed.

(** The bytes of a value: no line end, no carriage return. *)
Definition plain_text (t : bytes) : Prop := t ≠ [] ∧ forallb plain_byte t = true ∧ (length t <= 100)%nat.

Definition name_byte (b : Init.Byte.byte) : bool := plain_byte b && negb (bool_decide (b ∈ [Byte.x23; Byte.x7b])).

Definition name_ok (n : bytes) : Prop := n ≠ [] ∧ forallb name_byte n = true ∧ (length n <= 1000)%nat.

#[global] Instance plain_text_dec t : Decision (plain_text t).
Proof. unfold plain_text. apply _. Defined.

#[global] Instance name_ok_dec n : Decision (name_ok n).
Proof. unfold name_ok. apply _. Defined.

(** No byte outside a class is in a text of that class. *)
Lemma not_in_class (P : Init.Byte.byte → bool) s c : forallb P s = true → P c = false → c ∉ s.
Proof.
  intros Hs Hc Hin. apply (proj1 (forallb_forall P s)) with (x := c) in Hs; [congruence|]. by apply list_elem_of_In.
Qed.

Lemma forallb_impl (P Q : Init.Byte.byte → bool) s : (∀ b, P b = true → Q b = true) → forallb P s = true → forallb Q s = true.
Proof. intros HPQ Hs. apply forallb_forall. intros b Hb. apply HPQ. by apply (proj1 (forallb_forall P s)). Qed.

(** The labels as a family shows them: none, or a brace and plain bytes. *)
Definition labels_ok (lab : bytes) : Prop :=
  (lab = [] ∨ ∃ r, lab = Byte.x7b :: r) ∧ forallb plain_byte lab = true ∧ (length lab <= 1000)%nat.

Lemma value_line name lab text v :
  name_ok name → labels_ok lab → plain_text text → ParseFloat text = Some v →
  good_line ((name ++ lab) ++ Byte.x20 :: text) (Some (string_of_bytes name, v)).
Proof.
  intros (Hn0 & Hn & Hnl) (Hb & Hl & Hll) (Ht0 & Ht & Htl) Hp.
  assert (forallb plain_byte (name ++ lab) = true) as Hnp.
  { rewrite forallb_app, Hl, andb_true_r. revert Hn. apply forallb_impl.
    intros b Hx. unfold name_byte in Hx. by destruct (plain_byte b). }
  split; [|split].
  - apply not_elem_of_app. split; [by apply (not_in_class plain_byte)|]. apply not_elem_of_cons. split; [done|].
    by apply (not_in_class plain_byte).
  - rewrite zlen_app, zlen_cons. unfold zlen, max_line. rewrite length_app. lia.
  - change (Byte.x20 :: text) with ([Byte.x20] ++ text). rewrite app_assoc, dropCR_text; [|done|by apply (not_in_class plain_byte)].
    rewrite <- app_assoc. cbn [app]. unfold metric_of_line.
    destruct ((name ++ lab) ++ Byte.x20 :: text) as [|c rest] eqn:El; [by destruct name|].
    rewrite bool_decide_eq_false_2.
    2:{ intros ->. destruct name as [|c name]; [done|]. cbn in El. injection El as -> _. by cbn in Hn. }
    rewrite <- El, bytes_index_app by (by apply (not_in_class plain_byte)).
    rewrite take_app_length. cbv zeta.
    assert (drop (S (length (name ++ lab))) ((name ++ lab) ++ Byte.x20 :: text) = text) as ->.
    { rewrite <- Nat.add_1_r, <- drop_drop. rewrite drop_app_length. done. }
    rewrite Hp. do 3 f_equal. destruct Hb as [->|[r ->]].
    + rewrite app_nil_r, bytes_index_none by by apply (not_in_class name_byte). done.
    + rewrite bytes_index_app by by apply (not_in_class name_byte). by rewrite take_app_length.
Qed.

(** ** What the exposition says *)

Definition valid_f64 (v : spec_float) : bool := valid_binary 53 1024 v.

(** Every [float64] is printed on one short word and read back; so is every
    unsigned integer. *)
Definition prints_floats : Prop :=
  ∀ v, valid_f64 v = true → plain_text (str (fmt_g v)) ∧ ParseFloat (str (fmt_g v)) = Some v.

Definition reads_integers : Prop := ∀ z, 0 <= z < 2 ^ 64 → ParseFloat (str (fmt_d z)) = Some (f64_of_int z).

Definition family_lines (name help : bytes) (kind : string) : list bytes :=
  [mjoin [str "# HELP "; name; str " "; escapeHelp help]; mjoin [str "# TYPE "; name; str " "; str kind]].

Definition value_text (name lab : bytes) (text : string) : bytes := (name ++ lab) ++ Byte.x20 :: str text.

Definition counter_lines (c : Counter) : list bytes :=
  family_lines (ct_name c) (ct_help c) "counter" ++
  [value_text (counterName (ct_name c)) (labelStr (ct_labels c)) (fmt_d (ct_value c))].

Definition gauge_lines (g : Gauge) : list bytes :=
  family_lines (ga_name g) (ga_help g) "gauge" ++ [value_text (ga_name g) (labelStr (ga_labels g)) (fmt_g (ga_value g))].

Definition bucket_text (h : Histogram) (bound : string) (n : Z) : bytes :=
  value_text (hi_name h ++ str "_bucket") (labelStr (mergeLabels (hi_labels h) {["le"%string := bound]})) (fmt_d n).

Definition histogram_lines (h : Histogram) : list bytes :=
  family_lines (hi_name h) (hi_help h) "histogram" ++
  zip_with (λ bound n, bucket_text h (formatFloat fmt_g bound) n) (hi_buckets h) (cumulate 0 (hi_counts h)) ++
  [bucket_text h "+Inf" (hi_count h);
   value_text (hi_name h ++ str "_sum") (labelStr (hi_labels h)) (fmt_g (hi_sum h));
   value_text (hi_name h ++ str "_count") (labelStr (hi_labels h)) (fmt_d (hi_count h))].

Lemma family_lines_text name help kind : with_ends (family_lines name help kind) = family_head name help kind.
Proof. unfold with_ends, family_lines, family_head, line. cbn. by rewrite <- !app_assoc, !app_nil_r. Qed.

Lemma value_line_text name lab text : with_ends [value_text name lab text] = line [name ++ lab; str " "; str text].
Proof. unfold with_ends, value_text, line. cbn. by rewrite <- !app_assoc, !app_nil_r. Qed.

Lemma bucket_line_text h bound n : with_ends [bucket_text h bound n] = bucket_line h bound n.
Proof. unfold bucket_text. rewrite value_line_text. unfold bucket_line, line. do 3 (cbn; rewrite <- ?app_assoc). done. Qed.

Lemma expose_lines r :
  Expose fmt_g r = with_ends (mjoin (counter_lines <$> rg_counters r) ++ mjoin (gauge_lines <$> rg_gauges r) ++
                              mjoin (histogram_lines <$> rg_histograms r)).
Proof.
  assert (∀ {A} (f : A → bytes) (g : A → list bytes) l, (∀ x, with_ends (g x) = f x) → mjoin (f <$> l) = with_ends (mjoin (g <$> l))) as Hj.
  { intros A f g l Hfg. induction l as [|x l IH]; [done|]. change (f x ++ mjoin (f <$> l) = with_ends (g x ++ mjoin (g <$> l))).
    by rewrite with_ends_app, Hfg, <- IH. }
  rewrite !with_ends_app. unfold Expose. f_equal; [|f_equal]; apply Hj; intros x.
  - unfold counter_lines. by rewrite with_ends_app, family_lines_text, value_line_text.
  - unfold gauge_lines. by rewrite with_ends_app, family_lines_text, value_line_text.
  - unfold histogram_lines. rewrite !with_ends_app, family_lines_text. unfold expose_histogram. f_equal. f_equal.
    + generalize (cumulate 0 (hi_counts x)). induction (hi_buckets x) as [|b bs IH]; intros [|n ns]; try done.
      cbn [zip_with]. rewrite with_ends_cons, IH, bucket_line_text. done.
    + rewrite with_ends_cons, (with_ends_cons _ [_]), bucket_line_text, !value_line_text.
      f_equal. unfold line. do 3 (cbn; rewrite <- ?app_assoc). done.
Qed.

(** ** Samples *)

Definition counter_sample (c : Counter) : string * spec_float :=
  (string_of_bytes (counterName (ct_name c)), f64_of_int (ct_value c)).

Definition gauge_sample (g : Gauge) : string * spec_float := (string_of_bytes (ga_name g), ga_value g).

Definition bucket_key (h : Histogram) : string := string_of_bytes (hi_name h ++ str "_bucket").

Definition histogram_totals (h : Histogram) : list (string * spec_float) :=
  [(string_of_bytes (hi_name h ++ str "_sum"), hi_sum h); (string_of_bytes (hi_name h ++ str "_count"), f64_of_int (hi_count h))].

Definition bucket_samples (h : Histogram) : list (string * spec_float) :=
  zip_with (λ (_ : spec_float) n, (bucket_key h, f64_of_int n)) (hi_buckets h) (cumulate 0 (hi_counts h)) ++
  [(bucket_key h, f64_of_int (hi_count h))].

(** A family whose name and help fit a line. *)
Definition family_ok (name help : bytes) (labels : gmap string string) : Prop :=
  name_ok name ∧ (length name <= 900)%nat ∧ (length help <= 1000)%nat ∧ labels = ∅.

#[global] Instance family_ok_dec name help labels : Decision (family_ok name help labels).
Proof. unfold family_ok. apply _. Defined.

Definition counter_wf (c : Counter) : Prop := family_ok (ct_name c) (ct_help c) (ct_labels c) ∧ is_u64 (ct_value c).

Definition gauge_wf (g : Gauge) : Prop := family_ok (ga_name g) (ga_help g) (ga_labels g).

Definition histogram_wf (h : Histogram) : Prop :=
  family_ok (hi_name h) (hi_help h) (hi_labels h) ∧ forallb valid_f64 (hi_buckets h) = true ∧ is_u64 (hi_count h).

Definition registry_wf (r : Registry) : Prop :=
  Forall counter_wf (rg_counters r) ∧ Forall gauge_wf (rg_gauges r) ∧ Forall histogram_wf (rg_histograms r).

Lemma metric_step_wf r e : registry_wf r → registry_wf (metric_step r e).
Proof.
  assert (∀ x, is_u64 (u64 x)) as Hu by (intros x; unfold is_u64, u64; pose proof (Z.mod_pos_bound x (2 ^ 64)); lia).
  intros (Hc & Hg & Hh). destruct e as [i d|i v|i v|i v]; cbn; split_and!; try done.
  - apply Forall_alter; [done|]. intros c _ [Hf _]. split; [exact Hf|apply Hu].
  - apply Forall_alter; [done|]. by intros g _ Hf.
  - apply Forall_alter; [done|]. by intros g _ Hf.
  - apply Forall_alter; [done|]. intros h _ (Hf & Hb & _). split; [exact Hf|]. split; [exact Hb|apply Hu].
Qed.

(** The values a gauge and a sum hold are [float64] values. *)
Definition registry_floats (r : Registry) : bool :=
  forallb (λ g, valid_f64 (ga_value g)) (rg_gauges r) && forallb (λ h, valid_f64 (hi_sum h)) (rg_histograms r).

Lemma escapeHelp_plain s : newline ∉ escapeHelp s.
Proof.
  unfold escapeHelp. set (t := s ≫= _). clearbody t. intros Hin. apply list_elem_of_bind in Hin as (b & Hb & _).
  destruct b; set_solver.
Qed.

Lemma bind_length {A B} (f : A → list B) n l : (∀ x, length (f x) <= n)%nat → (length (l ≫= f) <= n * length l)%nat.
Proof.
  intros Hf. induction l as [|x l IH]; [cbn; lia|]. change ((x :: l) ≫= f) with (f x ++ (l ≫= f)).
  rewrite length_app. specialize (Hf x). cbn [length]. lia.
Qed.

Lemma escapeHelp_length s : (length (escapeHelp s) <= 4 * length s)%nat.
Proof.
  unfold escapeHelp.
  match goal with |- (length ((?s ≫= ?f) ≫= ?g) <= _)%nat =>
    pose proof (bind_length f 2 s) as H1; pose proof (bind_length g 2 (s ≫= f)) as H2 end.
  assert (∀ b : Init.Byte.byte, length (match b with Byte.x5c => [Byte.x5c; Byte.x5c] | _ => [b] end) <= 2)%nat as Ha
    by (intros []; cbn; lia).
  assert (∀ b : Init.Byte.byte, length (match b with Byte.x0a => [Byte.x5c; Byte.x6e] | _ => [b] end) <= 2)%nat as Hb
    by (intros []; cbn; lia).
  specialize (H1 Ha). specialize (H2 Hb). lia.
Qed.

Lemma name_plain name : name_ok name → newline ∉ name.
Proof. intros (_ & Hn & _). by apply (not_in_class name_byte). Qed.

Lemma family_good name help labels kind :
  family_ok name help labels → newline ∉ str kind → (length (str kind) <= 100)%nat →
  Forall2 good_line (family_lines name help kind) [None; None].
Proof.
  intros (Hn & Hl & Hh & _) Hk Hkl. pose proof (name_plain name Hn) as Hnn.
  assert (∀ word text, forallb (λ b, negb (bval b =? 10)) word = true → newline ∉ text →
            (length word <= 10)%nat → (length text <= 4000)%nat →
            good_line (Byte.x23 :: Byte.x20 :: word ++ name ++ str " " ++ text ++ []) None) as Hw.
  { intros word text Hw Ht Hwl Htl. apply comment_line.
    - rewrite app_nil_r, !not_elem_of_app. split_and!; [|done| |done]; by apply (not_in_class (λ b, negb (bval b =? 10))).
    - unfold zlen, max_line. rewrite !length_app. change (length (str " ")) with 1%nat. cbn [length]. lia. }
  constructor; [|constructor; [|constructor]].
  - apply (Hw (str "HELP ")); [done|apply escapeHelp_plain|cbn; lia|]. pose proof (escapeHelp_length help). lia.
  - apply (Hw (str "TYPE ")); [done|done|cbn; lia|lia].
Qed.

Context (Hfloats : prints_floats) (Hints : reads_integers).

Lemma fmt_d_plain z : is_u64 z → plain_text (str (fmt_d z)).
Proof.
  intros Hz. unfold is_u64 in Hz. split; [|split].
  - intros H0. apply (f_equal length) in H0. revert H0. unfold fmt_d. destruct (Z.to_int z) as [[]|d]; done.
  - apply (forallb_impl digit_byte); [apply digit_plain|apply fmt_d_digit_bytes].
  - etrans; [apply (fmt_d_length 64); lia|lia].
Qed.

Lemma no_labels : labels_ok (labelStr ∅).
Proof. split; [by left|]. split; [done|]. change (length (labelStr ∅)) with 0%nat. lia. Qed.

Lemma suffix_ok name suffix :
  name_ok name → (length name <= 900)%nat → forallb name_byte suffix = true → (length suffix <= 100)%nat → name_ok (name ++ suffix).
Proof.
  intros (Hn & Hb & _) Hl Hs Hsl. split; [by destruct name|]. split; [by rewrite forallb_app, Hb|]. rewrite length_app. lia.
Qed.

Lemma counterName_ok name : name_ok name → (length name <= 900)%nat → name_ok (counterName name).
Proof.
  intros Hn Hl. unfold counterName. destruct (has_suffix _ _); [done|]. apply suffix_ok; [done|done|done|cbn; lia].
Qed.

Lemma counter_good c : counter_wf c → Forall2 good_line (counter_lines c) [None; None; Some (counter_sample c)].
Proof.
  intros [Hf Hv]. pose proof Hf as (Hn & Hl & _ & Hlab). unfold counter_lines.
  apply (Forall2_app (l1' := [None; None]) (l2' := [_])).
  - apply (family_good _ _ _ _ Hf); [by apply (not_in_class plain_byte)|cbn; lia].
  - constructor; [|constructor]. rewrite Hlab. apply value_line; [by apply counterName_ok|apply no_labels|by apply fmt_d_plain|].
    apply Hints. exact Hv.
Qed.

Lemma gauge_good g :
  gauge_wf g → valid_f64 (ga_value g) = true → Forall2 good_line (gauge_lines g) [None; None; Some (gauge_sample g)].
Proof.
  intros Hf Hv. pose proof Hf as (Hn & Hl & _ & Hlab). destruct (Hfloats _ Hv) as [Ht Hp]. unfold gauge_lines.
  apply (Forall2_app (l1' := [None; None]) (l2' := [_])).
  - apply (family_good _ _ _ _ Hf); [by apply (not_in_class plain_byte)|cbn; lia].
  - constructor; [|constructor]. rewrite Hlab. apply value_line; [done|apply no_labels|done|done].
Qed.

Lemma escape_plain t : forallb plain_byte t = true → forallb plain_byte (escapeLabelValue t) = true ∧
  (length (escapeLabelValue t) <= 2 * length t)%nat.
Proof.
  intros Ht. unfold escapeLabelValue.
  assert (∀ fuel, length t <= fuel → forallb plain_byte (escape_label_fuel fuel t) = true ∧
            (length (escape_label_fuel fuel t) <= 2 * length t)%nat)%nat as Hf; [|by apply Hf].
  induction t as [|b t IH]; intros fuel Hl; [by destruct fuel|]. destruct fuel as [|fuel]; [cbn in Hl; lia|].
  cbn in Ht, Hl. apply andb_prop in Ht as [Hb Ht]. destruct (IH Ht fuel) as [I1 I2]; [lia|].
  assert (escape_label_fuel (S fuel) (b :: t) = escape_byte b ++ escape_label_fuel fuel t) as ->.
  { cbn [escape_label_fuel]. unfold rune_len. assert (bval b <? 0x80 = true) as ->; [|done].
    revert Hb. unfold plain_byte. intros Hb. z_bool. lia. }
  rewrite forallb_app, length_app, I1. cbn [length].
  assert (forallb plain_byte (escape_byte b) = true ∧ (length (escape_byte b) <= 2)%nat) as [-> Hl2].
  { clear -Hb. destruct b; try discriminate; by split; [|cbn; lia]. }
  split; [done|lia].
Qed.

Lemma bound_labels bound :
  forallb plain_byte (str bound) = true → (length (str bound) <= 100)%nat →
  labels_ok (labelStr (mergeLabels ∅ {["le"%string := bound]})).
Proof.
  intros Hb Hl. unfold mergeLabels. rewrite map_union_empty. unfold labelStr.
  rewrite bool_decide_eq_false_2 by apply insert_non_empty.
  rewrite map_to_list_singleton. destruct (escape_plain _ Hb) as [He Hel].
  assert (∀ v, Byte.x7b :: join comma ((λ kv : string * string, bytes_of_string kv.1 ++ [Byte.x3d; Byte.x22] ++
                  escapeLabelValue (bytes_of_string kv.2) ++ [Byte.x22]) <$> merge_sort key_le [("le"%string, v)]) ++ [Byte.x7d] =
               Byte.x7b :: (str "le" ++ [Byte.x3d; Byte.x22] ++ escapeLabelValue (str v) ++ [Byte.x22]) ++ [Byte.x7d]) as Hs by done.
  rewrite Hs. clear Hs. unfold str in *. revert He Hel. generalize (escapeLabelValue (bytes_of_string bound)). intros e He Hel.
  split; [by right; eexists|]. split.
  - cbn. rewrite !forallb_app, He. done.
  - cbn. rewrite !length_app. cbn. lia.
Qed.

Lemma formatFloat_plain v :
  valid_f64 v = true → forallb plain_byte (str (formatFloat fmt_g v)) = true ∧ (length (str (formatFloat fmt_g v)) <= 100)%nat.
Proof.
  intros Hv. destruct (Hfloats _ Hv) as [(_ & Hp & Hl) _]. destruct v as [| [] | |]; try done; split; try done; cbn; lia.
Qed.

Lemma bucket_good h bound n :
  histogram_wf h → forallb plain_byte (str bound) = true → (length (str bound) <= 100)%nat → is_u64 n →
  good_line (bucket_text h bound n) (Some (bucket_key h, f64_of_int n)).
Proof.
  intros ((Hn & Hl & _ & Hlab) & _) Hb Hbl Hz. unfold bucket_text. rewrite Hlab.
  apply value_line; [apply suffix_ok; [done|done|done|cbn; lia]|by apply bound_labels|by apply fmt_d_plain|by apply Hints].
Qed.

Lemma cumulate_u64 acc counts : Forall is_u64 (cumulate acc counts).
Proof.
  revert acc. induction counts as [|n counts IH]; intros acc; [constructor|]. cbn. constructor; [|apply IH].
  unfold is_u64, u64. pose proof (Z.mod_pos_bound (acc + n) (2 ^ 64)). lia.
Qed.

Lemma histogram_good h :
  histogram_wf h → valid_f64 (hi_sum h) = true →
  Forall2 good_line (histogram_lines h) ([None; None] ++ (Some <$> bucket_samples h ++ histogram_totals h)).
Proof.
  intros Hw Hs. pose proof Hw as (Hf & Hb & Hc). pose proof Hf as (Hn & Hl & _ & Hlab). unfold histogram_lines.
  apply Forall2_app; [apply (family_good _ _ _ _ Hf); [by apply (not_in_class plain_byte)|cbn; lia]|].
  unfold bucket_samples. rewrite <- app_assoc, fmap_app. apply Forall2_app.
  - pose proof (cumulate_u64 0 (hi_counts h)) as Hu. revert Hb Hu. generalize (cumulate 0 (hi_counts h)).
    induction (hi_buckets h) as [|b bs IH]; intros [|n ns] Hb Hu; try constructor.
    + cbn in Hb. apply andb_prop in Hb as [Hb _]. inversion Hu. apply bucket_good; [done|..|done]; by apply formatFloat_plain.
    + cbn in Hb. apply andb_prop in Hb as [_ Hb]. inversion Hu. by apply IH.
  - destruct (Hfloats _ Hs) as [Ht Hp].
    constructor; [apply bucket_good; [done|done|cbn; lia|done]|]. rewrite Hlab.
    constructor; [apply value_line; [apply suffix_ok; [done|done|done|cbn; lia]|apply no_labels|done|done]|].
    constructor; [|constructor].
    apply value_line; [apply suffix_ok; [done|done|done|cbn; lia]|apply no_labels|by apply fmt_d_plain|by apply Hints].
Qed.

Definition registry_samples (r : Registry) : list (option (string * spec_float)) :=
  mjoin ((λ c, [None; None; Some (counter_sample c)]) <$> rg_counters r) ++
  mjoin ((λ g, [None; None; Some (gauge_sample g)]) <$> rg_gauges r) ++
  mjoin ((λ h, [None; None] ++ (Some <$> bucket_samples h ++ histogram_totals h)) <$> rg_histograms r).

Lemma Forall2_join {A} (f : A → list bytes) (g : A → list (option (string * spec_float))) l :
  Forall (λ x, Forall2 good_line (f x) (g x)) l → Forall2 good_line (mjoin (f <$> l)) (mjoin (g <$> l)).
Proof. induction 1 as [|x l Hx _ IH]; [constructor|]. cbn. by apply Forall2_app. Qed.

(** The parser takes from the exposition its samples and nothing else. *)
Lemma parse_expose r :
  registry_wf r → registry_floats r = true →
  parsePrometheusMetrics ParseFloat (Expose fmt_g r) = foldl add_sample ∅ (registry_samples r).
Proof.
  intros (Hc & Hg & Hh) Hf. unfold registry_floats in Hf. apply andb_prop in Hf as [Hfg Hfh]. rewrite expose_lines.
  apply parse_good. unfold registry_samples. apply Forall2_app; [|apply Forall2_app]; apply Forall2_join.
  - eapply Forall_impl; [exact Hc|]. apply counter_good.
  - apply Forall_forall. intros g Hin. apply gauge_good; [by eapply Forall_forall|].
    apply (proj1 (forallb_forall _ _) Hfg). by apply list_elem_of_In.
  - apply Forall_forall. intros h Hin. apply histogram_good; [by eapply Forall_forall|].
    apply (proj1 (forallb_forall _ _) Hfh). by apply list_elem_of_In.
Qed.

(** ** Keys *)

(** The samples that occur once. *)
Definition single_samples (r : Registry) : list (string * spec_float) :=
  (counter_sample <$> rg_counters r) ++ (gauge_sample <$> rg_gauges r) ++ mjoin (histogram_totals <$> rg_histograms r).

(** The names as the registry holds them: no event changes them. *)
Definition counter_keys (r : Registry) : list string := (λ c, (counter_sample c).1) <$> rg_counters r.

Definition gauge_keys (r : Registry) : list string := (λ g, (gauge_sample g).1) <$> rg_gauges r.

Definition total_keys (r : Registry) : list string := mjoin ((λ h, (histogram_totals h).*1) <$> rg_histograms r).

Definition bucket_keys (r : Registry) : list string := bucket_key <$> rg_histograms r.

Definition single_keys (r : Registry) : list string := counter_keys r ++ gauge_keys r ++ total_keys r.

Definition keys_distinct (r : Registry) : Prop := NoDup (single_keys r) ∧ Forall (λ k, k ∉ single_keys r) (bucket_keys r).

Lemma alter_fmap_same {A B} (f : A → A) (g : A → B) (i : nat) (l : list A) : (∀ x, g (f x) = g x) → g <$> alter f i l = g <$> l.
Proof.
  intros Hg. revert i. induction l as [|x l IH]; intros [|i]; [done|done| |]; cbn.
  - by rewrite Hg.
  - f_equal. apply IH.
Qed.

Lemma metric_step_keys r e : single_keys (metric_step r e) = single_keys r ∧ bucket_keys (metric_step r e) = bucket_keys r.
Proof.
  unfold single_keys, counter_keys, gauge_keys, total_keys, bucket_keys.
  destruct e as [i d|i v|i v|i v]; cbn [metric_step rg_counters rg_gauges rg_histograms]; by rewrite !alter_fmap_same.
Qed.

Lemma single_samples_keys r : (single_samples r).*1 = single_keys r.
Proof.
  unfold single_samples, single_keys, counter_keys, gauge_keys, total_keys. rewrite !fmap_app, <- !list_fmap_compose.
  f_equal. f_equal. induction (rg_histograms r) as [|h hs IH]; [done|].
  change ((histogram_totals h ++ mjoin (histogram_totals <$> hs)).*1 =
          (histogram_totals h).*1 ++ mjoin ((λ h, (histogram_totals h).*1) <$> hs)).
  by rewrite fmap_app, IH.
Qed.

Lemma sample_cases r kv :
  Some kv ∈ registry_samples r → kv ∈ single_samples r ∨ kv.1 ∈ bucket_keys r.
Proof.
  unfold registry_samples, single_samples, bucket_keys. rewrite !elem_of_app, !list_elem_of_join.
  assert (∀ A (f : A → string * spec_float) (l : list A) (ls : list (option (string * spec_float))), Some kv ∈ ls → ls ∈ ((λ x, [None; None; Some (f x)]) <$> l) → kv ∈ (f <$> l)) as Hl.
  { intros A f l ls Hin Hls. apply list_elem_of_fmap in Hls as (x & -> & Hx).
    rewrite !elem_of_cons, elem_of_nil in Hin. destruct Hin as [?|[?|[Heq|[]]]]; [done|done|].
    injection Heq as ->. apply list_elem_of_fmap. by exists x. }
  intros [(ls & Hin & Hls)|[(ls & Hin & Hls)|(ls & Hin & Hls)]].
  - left. left. by eapply Hl.
  - left. right. left. by eapply Hl.
  - apply list_elem_of_fmap in Hls as (h & -> & Hh). rewrite !elem_of_app, list_elem_of_fmap in Hin.
    destruct Hin as [Hin|(kv' & Heq & Hin)]; [set_solver|]. injection Heq as <-.
    apply elem_of_app in Hin as [Hin|Hin].
    + right. apply list_elem_of_fmap. exists h. split; [|done]. unfold bucket_samples in Hin.
      apply elem_of_app in Hin as [Hin|Hin]; [|set_solver].
      revert Hin. generalize (cumulate 0 (hi_counts h)). induction (hi_buckets h) as [|b bs IH]; intros [|n ns] Hin; try by apply elem_of_nil in Hin.
      cbn in Hin. apply elem_of_cons in Hin as [->|Hin]; [done|by eapply IH].
    + left. right. right. exists (histogram_totals h). split; [done|]. apply list_elem_of_fmap. by exists h.
Qed.

Lemma single_sampled r kv : kv ∈ single_samples r → Some kv ∈ registry_samples r.
Proof.
  unfold registry_samples, single_samples. rewrite !elem_of_app, !list_elem_of_join, !list_elem_of_fmap.
  intros [(x & -> & Hx)|[(x & -> & Hx)|(ls & Hin & Hls)]].
  - left. eexists. split; [|apply list_elem_of_fmap; by exists x]. set_solver.
  - right. left. eexists. split; [|apply list_elem_of_fmap; by exists x]. set_solver.
  - right. right. apply list_elem_of_fmap in Hls as (h & -> & Hh). eexists. split; [|apply list_elem_of_fmap; by exists h].
    rewrite !elem_of_app, list_elem_of_fmap. right. exists kv. split; [done|]. apply elem_of_app. by right.
Qed.

Lemma foldl_add_lookup kvs k v m :
  Some (k, v) ∈ kvs → (∀ v', Some (k, v') ∈ kvs → v' = v) → foldl add_sample m kvs !! k = Some v.
Proof.
  induction kvs as [|kv kvs IH] using rev_ind; intros Hin Hu; [by apply elem_of_nil in Hin|].
  rewrite foldl_app. cbn [foldl]. destruct kv as [[k' v']|]; cbn [add_sample].
  - destruct (decide (k' = k)) as [->|Hk].
    + rewrite lookup_insert_eq. f_equal. apply Hu. set_solver.
    + rewrite lookup_insert_ne by done. apply IH; [set_solver|]. intros w Hw. apply Hu. set_solver.
  - apply IH; [set_solver|]. intros w Hw. apply Hu. set_solver.
Qed.

Lemma single_reads r k v :
  registry_wf r → registry_floats r = true → keys_distinct r → (k, v) ∈ single_samples r →
  parsePrometheusMetrics ParseFloat (Expose fmt_g r) !! k = Some v.
Proof.
  intros Hw Hf [Hd Hb] Hin. rewrite parse_expose by done. apply foldl_add_lookup; [by apply single_sampled|].
  intros v' Hv. apply sample_cases in Hv as [Hv|Hv].
  - rewrite <- single_samples_keys in Hd. apply (elem_of_list_to_map_1 (M := gmap string) _ _ _ Hd) in Hin.
    apply (elem_of_list_to_map_1 (M := gmap string) _ _ _ Hd) in Hv. congruence.
  - exfalso. cbn in Hv. apply (proj1 (Forall_forall _ _) Hb) in Hv. apply Hv. rewrite <- single_samples_keys.
    apply list_elem_of_fmap. by exists (k, v).
Qed.

(** The names [top] looks up. *)
Definition top_names : list string :=
  ["pubsub_messages_published_total"; "pubsub_messages_consumed_total"; "pubsub_consumer_lag_total";
   "pubsub_active_connections"; "pubsub_wal_bytes_total"; "pubsub_topic_count"; "pubsub_partition_count";
   "pubsub_cluster_isr_size"; "pubsub_cluster_under_replicated_partitions"]%string.

Lemma broker_registry_wf : registry_wf (NewBrokerMetrics NewRegistry).1.
Proof. unfold registry_wf. split_and!; apply (bool_decide_unpack _); by vm_compute. Qed.

Lemma broker_keys_distinct : keys_distinct (NewBrokerMetrics NewRegistry).1.
Proof. unfold keys_distinct. split; apply (bool_decide_unpack _); by vm_compute. Qed.

(** C39: what [brokectl top] reads is what the broker counted: after any updates of
    its metrics the parser finds, under the name of every counter, of every
    gauge and of the sum and count of every histogram, the value it holds, and
    none of the names [top] shows is missing. *)
Theorem top_reads_broker es :
  let r := foldl metric_step (NewBrokerMetrics NewRegistry).1 es in
  registry_floats r = true →
  let m := parsePrometheusMetrics ParseFloat (Expose fmt_g r) in
  Forall (λ c, metric m (string_of_bytes (counterName (ct_name c))) = f64_of_int (ct_value c)) (rg_counters r) ∧
  Forall (λ g, metric m (string_of_bytes (ga_name g)) = ga_value g) (rg_gauges r) ∧
  Forall (λ h, metric m (string_of_bytes (hi_name h ++ str "_sum")) = hi_sum h ∧
               metric m (string_of_bytes (hi_name h ++ str "_count")) = f64_of_int (hi_count h)) (rg_histograms r) ∧
  Forall (λ name, is_Some (m !! name)) top_names.
Proof.
  intros r Hf.
  assert (registry_wf r ∧ single_keys r = single_keys (NewBrokerMetrics NewRegistry).1 ∧
          bucket_keys r = bucket_keys (NewBrokerMetrics NewRegistry).1) as (Hw & Hk & Hb).
  { subst r. clear Hf. induction es as [|e es IH] using rev_ind; [split; [apply broker_registry_wf|done]|].
    rewrite foldl_app. cbn [foldl]. destruct IH as (I1 & I2 & I3).
    destruct (metric_step_keys (foldl metric_step (NewBrokerMetrics NewRegistry).1 es) e) as [-> ->].
    split; [by apply metric_step_wf|exact (conj I2 I3)]. }
  clearbody r. intros m. assert (keys_distinct r) as Hd by (unfold keys_distinct; rewrite Hk, Hb; apply broker_keys_distinct).
  assert (∀ k v, (k, v) ∈ single_samples r → m !! k = Some v) as Hr by (intros k v; by apply single_reads).
  clearbody m.
  assert (∀ k v, (k, v) ∈ single_samples r → metric m k = v) as Hm by (intros k v Hin; unfold metric; rewrite (Hr k v Hin); reflexivity).
  split_and!.
  - apply Forall_forall. intros c Hc. apply Hm, elem_of_app. left. apply list_elem_of_fmap. exists c. exact (conj eq_refl Hc).
  - apply Forall_forall. intros g Hg. apply Hm, elem_of_app. right. apply elem_of_app. left. apply list_elem_of_fmap. exists g. exact (conj eq_refl Hg).
  - apply Forall_forall. intros h Hh.
    assert (∀ kv, kv ∈ histogram_totals h → kv ∈ single_samples r) as Ht.
    { intros kv Hkv. do 2 (apply elem_of_app; right). apply list_elem_of_join. exists (histogram_totals h). split; [exact Hkv|].
      apply list_elem_of_fmap. exists h. exact (conj eq_refl Hh). }
    split; apply Hm, Ht; [left|right; left].
  - apply Forall_forall. intros name Hn. assert (name ∈ single_keys r) as Hs.
    { rewrite Hk. revert name Hn. apply (proj1 (Forall_forall _ _)). apply (bool_decide_unpack _). by vm_compute. }
    rewrite <- single_samples_keys in Hs. apply list_elem_of_fmap in Hs as ([k v] & -> & Hin). exists v. by apply Hr.
Qed.

End TopView.

(** ** A printer and its parser

    A float as sign, mantissa and exponent: one that [top_reads_broker] can be
    used with. *)

Definition print_float (v : spec_float) : string :=
  match v with
  | S754_zero s => if s then "z-" else "z+"
  | S754_infinity s => if s then "I-" else "I+"
  | S754_nan => "N"
  | S754_finite s m e => ((if s then "-" else "+") +:+ fmt_d (Zpos m) +:+ "p" +:+ fmt_d e)%string
  end.

Definition read_finite (s : bool) (t : bytes) : option spec_float :=
  match bytes_index Byte.x70 t with
  | Some i =>
      match scan_d (string_of_bytes (take i t)), scan_d (string_of_bytes (drop (S i) t)) with
      | Some (Zpos m), Some e => Some (S754_finite s m e)
      | _, _ => None
      end
  | None => None
  end.

Definition read_float (t : bytes) : option spec_float :=
  match t with
  | Byte.x7a :: b :: _ => Some (S754_zero (bool_decide (b = Byte.x2d)))
  | Byte.x49 :: b :: _ => Some (S754_infinity (bool_decide (b = Byte.x2d)))
  | Byte.x4e :: _ => Some S754_nan
  | Byte.x2d :: t => read_finite true t
  | Byte.x2b :: t => read_finite false t
  | _ => f64_of_int <$> scan_d (string_of_bytes t)
  end.

Lemma read_integers : reads_integers read_float.
Proof.
  intros z Hz. pose proof (scan_fmt_d z) as Hs. rewrite <- (string_of_bytes_of_string (fmt_d z)) in Hs.
  change (bytes_of_string (fmt_d z)) with (str (fmt_d z)) in Hs.
  assert (∃ b t, str (fmt_d z) = b :: t ∧ (48 <=? bval b) && (bval b <? 58) = true) as (b & t & Hb & Hd).
  { unfold fmt_d. destruct z as [|p|p]; [|cbn [Z.to_int NilZero.string_of_int]|lia]; [by do 2 eexists|].
    destruct (Pos.to_uint p); by do 2 eexists. }
  rewrite Hb in *. assert (read_float (b :: t) = f64_of_int <$> scan_d (string_of_bytes (b :: t))) as ->; [|by rewrite Hs].
  by destruct b.
Qed.

Lemma size_digits m : Zpos (digits2_pos m) = Z.of_nat (Pos.size_nat m).
Proof. induction m as [m IH|m IH|]; cbn [digits2_pos Pos.size_nat]; [| |done]; lia. Qed.

(** The size of the two numbers of a [float64]. *)
Lemma valid_f64_bounds s m e : valid_f64 (S754_finite s m e) = true → (Pos.size_nat m <= 53)%nat ∧ - 1074 <= e <= 971.
Proof.
  unfold valid_f64. cbn [valid_binary]. unfold bounded, canonical_mantissa. intros Hv. apply andb_prop in Hv as [Hc He].
  apply Zbool.Zeq_bool_eq in Hc. apply Z.leb_le in He. revert Hc. unfold fexp, emin. rewrite size_digits. lia.
Qed.

Lemma read_finite_print s m e : read_finite s (str (fmt_d (Zpos m) +:+ "p" +:+ fmt_d e)) = Some (S754_finite s m e).
Proof.
  unfold str. rewrite !bytes_of_string_app. change (bytes_of_string "p") with [Byte.x70]. cbn [app]. unfold read_finite.
  rewrite bytes_index_app by (apply (not_in_class digit_byte); [apply fmt_d_digit_bytes|done]).
  rewrite take_app_length, <- Nat.add_1_r, <- drop_drop, drop_app_length. cbn [drop].
  rewrite drop_0. by rewrite !string_of_bytes_of_string, !scan_fmt_d.
Qed.

Lemma size_nat_lt p : Zpos p < 2 ^ Z.of_nat (Pos.size_nat p).
Proof. induction p as [p IH|p IH|]; cbn [Pos.size_nat]; rewrite ?Nat2Z.inj_succ, ?Z.pow_succ_r by lia; lia. Qed.

Lemma print_floats : prints_floats print_float read_float.
Proof.
  intros v Hv. destruct v as [s|s| |s m e]; [destruct s; (split; [by apply (bool_decide_unpack _); vm_compute|done])..| |].
  { split; [by apply (bool_decide_unpack _); vm_compute|done]. }
  destruct (valid_f64_bounds _ _ _ Hv) as [Hm He].
  assert (∀ z, forallb plain_byte (str (fmt_d z)) = true) as Hp
    by (intros z; apply (forallb_impl digit_byte); [apply digit_plain|apply fmt_d_digit_bytes]).
  assert (str (print_float (S754_finite s m e)) = (if s then Byte.x2d else Byte.x2b) :: str (fmt_d (Zpos m)) ++ Byte.x70 :: str (fmt_d e)) as Hs.
  { unfold str. cbn [print_float]. rewrite !bytes_of_string_app. by destruct s. }
  split; [split; [by rewrite Hs|split]|].
  - rewrite Hs. cbn [forallb]. rewrite forallb_app, Hp. cbn [forallb]. rewrite Hp. by destruct s.
  - rewrite Hs. cbn [length]. rewrite length_app. cbn [length].
    assert (Zpos m < 2 ^ Z.of_nat 53) as Hz by (eapply Z.lt_le_trans; [apply size_nat_lt|apply Z.pow_le_mono_r; lia]).
    pose proof (fmt_d_length 53 (Zpos m) ltac:(lia)). pose proof (fmt_d_length 11 e ltac:(lia)). lia.
  - pose proof (read_finite_print s m e) as Hr. unfold str in *. cbn [print_float]. rewrite bytes_of_string_app.
    rewrite <- Hr. by destruct s.
Qed.

Lemma top_reads_broker_witness :
  let r := foldl metric_step (NewBrokerMetrics NewRegistry).1
             [CounterInc (bm_MessagesPublished (NewBrokerMetrics NewRegistry).2) 7;
              GaugeSet (bm_TopicCount (NewBrokerMetrics NewRegistry).2) (f64_of_int 3);
              GaugeAdd (bm_ActiveConnections (NewBrokerMetrics NewRegistry).2) (f64_of_int 1);
              Observe (bm_MessageSizeBytes (NewBrokerMetrics NewRegistry).2) (f64_of_int 100)] in
  registry_floats r = true ∧
  Forall (λ g, metric (parsePrometheusMetrics read_float (Expose print_float r)) (string_of_bytes (ga_name g)) = ga_value g) (rg_gauges r).
Proof.
  split; [by vm_compute|].
  apply (top_reads_broker print_float read_float print_floats read_integers _).
  by vm_compute.
Defined.
