(* ===== verification/Gateway.v ===== *)
(** * The HTTP gateway: [internal/gateway/gateway.go]

    A front end that is a client of the broker.  Every API key gets a pooled
    connection of its own, authenticated when it is made; a handler turns a
    request into a call on that connection and its outcome into a status.
    Requests run concurrently: looking a connection up, dialling and entering
    it in the pool are separate steps. *)

From S2P Require Import Prelude GoLib Json StringsLib Types Protocol WireJson WireReply GoTime Client Sdk.

Local Open Scope Z_scope.

Import Errors.

Definition poolIdleTimeout : Z := 600 * GoTime.second_ns.

(** ** The pool *)

(** A connection as the gateway knows it: the key it was made for, empty for
    none, and whether the gateway closed it. *)
Record GwConn := mkGwConn {
  gc_key : string;
  gc_closed : bool;
}.

(** What the gateway does not see of a connection: the key whose identity the
    broker has given it, if any, and whether it is lost, closed by the broker
    or the network or given up by the client's read loop. *)
Record Link := mkLink {
  ln_identity : option string;
  ln_lost : bool;
}.

Record pooledConn := mkPooledConn {
  pc_c : nat;
  pc_lastUsed : Z;
}.

(** Where a request stands in [connFor]: dialling, with a connection that is
    not in the pool yet, or through with a connection or an error. *)
Inductive conn_stage :=
| ConnDialling
| ConnDialled (c : nat)
| ConnHas (c : nat)
| ConnFailed.

Record Gateway := mkGateway {
  gw_pool : gmap string pooledConn;
  gw_conns : gmap nat GwConn;
  gw_next : nat;
  gw_requests : gmap nat (string * conn_stage);
  gw_links : gmap nat Link;
}.

Definition NewGateway : Gateway := mkGateway ∅ ∅ 0 ∅ ∅.

Definition close_conn (cs : gmap nat GwConn) (c : nat) : gmap nat GwConn :=
  alter (λ x, mkGwConn (gc_key x) true) c cs.

(** The look-up of request [rq] under the lock. *)
Definition connFor_lookup (now : Z) (g : Gateway) (rq : nat) (apiKey : string) : Gateway :=
  match gw_pool g !! apiKey with
  | Some pc =>
      mkGateway (<[apiKey := mkPooledConn (pc_c pc) now]> (gw_pool g)) (gw_conns g) (gw_next g)
        (<[rq := (apiKey, ConnHas (pc_c pc))]> (gw_requests g)) (gw_links g)
  | None =>
      mkGateway (gw_pool g) (gw_conns g) (gw_next g) (<[rq := (apiKey, ConnDialling)]> (gw_requests g)) (gw_links g)
  end.

(** What [Authenticate] comes to: an error, the broker's refusal, for which the
    client returns nil all the same, or its acceptance. *)
Inductive auth_outcome :=
| AuthFails
| AuthRefused
| AuthAccepted.

(** Dialling and authenticating; a connection on which [Authenticate] fails is
    closed.  The empty key is not presented. *)
Definition connFor_dial (dial_ok : bool) (auth : auth_outcome) (g : Gateway) (rq : nat) (apiKey : string) : Gateway :=
  if negb dial_ok then
    mkGateway (gw_pool g) (gw_conns g) (gw_next g) (<[rq := (apiKey, ConnFailed)]> (gw_requests g)) (gw_links g)
  else
    let c := gw_next g in
    let made := λ id,
      mkGateway (gw_pool g) (<[c := mkGwConn apiKey false]> (gw_conns g)) (S c)
        (<[rq := (apiKey, ConnDialled c)]> (gw_requests g)) (<[c := mkLink id false]> (gw_links g)) in
    if bool_decide (apiKey = EmptyString) then made None
    else
      match auth with
      | AuthFails =>
          mkGateway (gw_pool g) (<[c := mkGwConn apiKey true]> (gw_conns g)) (S c)
            (<[rq := (apiKey, ConnFailed)]> (gw_requests g)) (<[c := mkLink None false]> (gw_links g))
      | AuthRefused => made None
      | AuthAccepted => made (Some apiKey)
      end.

(** The second look-up: an entry made meanwhile wins. *)
Definition connFor_insert (now : Z) (g : Gateway) (rq : nat) (apiKey : string) (c : nat) : Gateway :=
  match gw_pool g !! apiKey with
  | Some pc =>
      mkGateway (<[apiKey := mkPooledConn (pc_c pc) now]> (gw_pool g)) (close_conn (gw_conns g) c) (gw_next g)
        (<[rq := (apiKey, ConnHas (pc_c pc))]> (gw_requests g)) (gw_links g)
  | None =>
      mkGateway (<[apiKey := mkPooledConn c now]> (gw_pool g)) (gw_conns g) (gw_next g)
        (<[rq := (apiKey, ConnHas c)]> (gw_requests g)) (gw_links g)
  end.

Definition gw_idle (now : Z) (pc : pooledConn) : bool := poolIdleTimeout <? time_sub now (pc_lastUsed pc).

(** Closing every connection of a part of the pool. *)
Definition close_all (p : gmap string pooledConn) (cs : gmap nat GwConn) : gmap nat GwConn :=
  map_fold (λ _ pc cs, close_conn cs (pc_c pc)) cs p.

Definition evictIdle (now : Z) (g : Gateway) : Gateway :=
  mkGateway (filter (λ p, gw_idle now p.2 = false) (gw_pool g))
    (close_all (filter (λ p, gw_idle now p.2 = true) (gw_pool g)) (gw_conns g)) (gw_next g) (gw_requests g)
    (gw_links g).

Definition Gateway_Stop (g : Gateway) : Gateway :=
  mkGateway ∅ (close_all (gw_pool g) (gw_conns g)) (gw_next g) (gw_requests g) (gw_links g).

(** The other end closes, or the client's read loop ends: the pool is not told. *)
Definition link_lost (g : Gateway) (c : nat) : Gateway :=
  mkGateway (gw_pool g) (gw_conns g) (gw_next g) (gw_requests g)
    (alter (λ l, mkLink (ln_identity l) true) c (gw_links g)).

Inductive gw_event :=
| GwLookup (now : Z) (rq : nat) (apiKey : string)
| GwDial (rq : nat) (dial_ok : bool) (auth : auth_outcome)
| GwInsert (now : Z) (rq : nat)
| GwEvict (now : Z)
| GwLost (c : nat)
| GwStop.

Definition gw_step (g : Gateway) (e : gw_event) : Gateway :=
  match e with
  | GwLookup now rq apiKey =>
      match gw_requests g !! rq with
      | Some _ => g
      | None => connFor_lookup now g rq apiKey
      end
  | GwDial rq dial_ok auth =>
      match gw_requests g !! rq with
      | Some (apiKey, ConnDialling) => connFor_dial dial_ok auth g rq apiKey
      | _ => g
      end
  | GwInsert now rq =>
      match gw_requests g !! rq with
      | Some (apiKey, ConnDialled c) => connFor_insert now g rq apiKey c
      | _ => g
      end
  | GwEvict now => evictIdle now g
  | GwLost c => link_lost g c
  | GwStop => Gateway_Stop g
  end.

Definition gw_run (es : list gw_event) : Gateway := foldl gw_step NewGateway es.

(** ** Key isolation *)

Definition pooled (p : gmap string pooledConn) (c : nat) : Prop := ∃ k pc, p !! k = Some pc ∧ pc_c pc = c.

Definition shut (x : GwConn) : GwConn := mkGwConn (gc_key x) true.

Lemma pooled_dec p c : pooled p c ∨ ¬ pooled p c.
Proof.
  destruct (decide (Exists (λ x, pc_c x.2 = c) (map_to_list p))) as [Hx|Hx]; [left|right].
  - apply Exists_exists in Hx as ([k pc] & Hin & Hc). exists k, pc. by apply elem_of_map_to_list in Hin.
  - intros (k & pc & Hk & Hc). apply Hx, Exists_exists. exists (k, pc). split; [by apply elem_of_map_to_list|done].
Qed.

Lemma close_all_spec p cs c :
  (pooled p c → close_all p cs !! c = shut <$> cs !! c) ∧ (¬ pooled p c → close_all p cs !! c = cs !! c).
Proof.
  unfold close_all. revert c. apply (map_fold_weak_ind (λ cs' p, ∀ c,
    (pooled p c → cs' !! c = shut <$> cs !! c) ∧ (¬ pooled p c → cs' !! c = cs !! c))).
  - intros c. split; [|done]. intros (k & pc & Hk & _). by rewrite lookup_empty in Hk.
  - intros k pc p' cs' Hk IH c. destruct (IH c) as [IH1 IH2]. unfold close_conn. fold shut.
    assert (pooled (<[k:=pc]> p') c ↔ pc_c pc = c ∨ pooled p' c) as Hiff.
    { split.
      - intros (k' & pc' & [[-> ->]|[Hne Hk']]%lookup_insert_Some & Hc); [by left|]. right. by exists k', pc'.
      - intros [Hc|(k' & pc' & Hk' & Hc)]; [exists k, pc; by rewrite lookup_insert_eq|].
        exists k', pc'. split; [|done]. rewrite lookup_insert_ne; [done|]. intros ->. congruence. }
    assert (shut <$> (shut <$> cs !! c) = shut <$> cs !! c) as Hss by (by destruct (cs !! c)).
    pose proof (pooled_dec p' c) as Hdec.
    change (λ x : GwConn, mkGwConn (gc_key x) true) with shut.
    destruct (decide (pc_c pc = c)) as [<-|Hne].
    + rewrite lookup_alter_eq. split; [|intros Hn; exfalso; apply Hn, Hiff; by left].
      intros _. destruct Hdec as [Hd|Hd]; [rewrite IH1 by done; exact Hss|by rewrite IH2].
    + rewrite lookup_alter_ne by done. split.
      * intros [?|Hp]%Hiff; [done|by apply IH1].
      * intros Hn. apply IH2. intros Hp. apply Hn, Hiff. by right.
Qed.

(** Closing leaves the keys. *)
Lemma close_all_key p cs c : gc_key <$> close_all p cs !! c = gc_key <$> cs !! c.
Proof.
  destruct (close_all_spec p cs c) as [H1 H2].
  destruct (pooled_dec p c) as [Hx|Hx]; [rewrite H1 by done|by rewrite H2]. by destruct (cs !! c).
Qed.

Lemma close_conn_key cs c c' : gc_key <$> close_conn cs c !! c' = gc_key <$> cs !! c'.
Proof.
  unfold close_conn. destruct (decide (c' = c)) as [->|Hne]; [|by rewrite lookup_alter_ne].
  rewrite lookup_alter_eq. by destruct (cs !! c).
Qed.

(** The broker takes a connection for the key it was made for, or for nobody. *)
Definition links_ok (cs : gmap nat GwConn) (ls : gmap nat Link) : Prop :=
  ∀ c k, gc_key <$> cs !! c = Some k →
    ∃ l, ls !! c = Some l ∧ (ln_identity l = None ∨ ln_identity l = Some k ∧ k ≠ EmptyString).

Lemma links_ok_keys cs cs' ls :
  (∀ c, gc_key <$> cs' !! c = gc_key <$> cs !! c) → links_ok cs ls → links_ok cs' ls.
Proof. intros Hk Hl c k. rewrite Hk. apply Hl. Qed.

Lemma links_ok_insert cs ls c x l :
  links_ok cs ls → ln_identity l = None ∨ ln_identity l = Some (gc_key x) ∧ gc_key x ≠ EmptyString →
  links_ok (<[c := x]> cs) (<[c := l]> ls).
Proof.
  intros Hl Hx c' k. destruct (decide (c = c')) as [<-|Hne].
  - rewrite !lookup_insert_eq. intros [= <-]. by exists l.
  - rewrite !lookup_insert_ne by done. apply Hl.
Qed.

Lemma gw_step_links g e : links_ok (gw_conns g) (gw_links g) → links_ok (gw_conns (gw_step g e)) (gw_links (gw_step g e)).
Proof.
  intros Hl. destruct e as [now rq k|rq dial_ok auth|now rq|now|c|]; cbn [gw_step].
  - destruct (gw_requests g !! rq); [done|]. unfold connFor_lookup. by destruct (gw_pool g !! k).
  - destruct (gw_requests g !! rq) as [[k [| | |]]|]; try done. unfold connFor_dial. cbv zeta.
    destruct dial_ok; [|done]. cbn [negb].
    case_bool_decide; [|destruct auth]; (apply links_ok_insert; [done|]); ((by left) || by right).
  - destruct (gw_requests g !! rq) as [[k [| | |]]|]; try done. unfold connFor_insert.
    destruct (gw_pool g !! k); [|done]. cbn. eapply links_ok_keys; [|done]. intros c'. apply close_conn_key.
  - eapply links_ok_keys; [|done]. intros c'. apply close_all_key.
  - cbn. intros c' k Hc. destruct (Hl c' k Hc) as (l & Hlc & Hid). destruct (decide (c = c')) as [<-|Hne].
    + rewrite lookup_alter_eq, Hlc. by eexists.
    + rewrite lookup_alter_ne by done. by exists l.
  - eapply links_ok_keys; [|done]. intros c'. apply close_all_key.
Qed.

Record gw_inv (g : Gateway) : Prop := mkGwInv {
  gi_pool : ∀ k pc, gw_pool g !! k = Some pc → gw_conns g !! pc_c pc = Some (mkGwConn k false);
  gi_dialled : ∀ rq k c, gw_requests g !! rq = Some (k, ConnDialled c) →
    gw_conns g !! c = Some (mkGwConn k false) ∧ ¬ pooled (gw_pool g) c;
  gi_once : ∀ rq1 rq2 k1 k2 c, gw_requests g !! rq1 = Some (k1, ConnDialled c) →
    gw_requests g !! rq2 = Some (k2, ConnDialled c) → rq1 = rq2;
  gi_has : ∀ rq k c, gw_requests g !! rq = Some (k, ConnHas c) → gc_key <$> gw_conns g !! c = Some k;
  gi_fresh : ∀ c x, gw_conns g !! c = Some x → (c < gw_next g)%nat;
  gi_open : ∀ c k, gw_conns g !! c = Some (mkGwConn k false) →
    pooled (gw_pool g) c ∨ ∃ rq, gw_requests g !! rq = Some (k, ConnDialled c);
}.

Lemma gw_inv_new : gw_inv NewGateway.
Proof. split; intros *; cbn; rewrite ?lookup_empty; done. Qed.

Lemma lookup_inv now g rq k :
  gw_requests g !! rq = None → gw_inv g → gw_inv (connFor_lookup now g rq k).
Proof.
  intros Hrq [I1 I2 I3 I4 I5 I6]. unfold connFor_lookup. destruct (gw_pool g !! k) as [pc|] eqn:Ek.
  - assert (∀ c, pooled (<[k:=mkPooledConn (pc_c pc) now]> (gw_pool g)) c ↔ pooled (gw_pool g) c) as Hp.
    { intros c. split.
      - intros (k' & pc' & [[-> <-]|[Hne Hk']]%lookup_insert_Some & Hc); [by exists k', pc|by exists k', pc'].
      - intros (k' & pc' & Hk' & Hc). destruct (decide (k = k')) as [->|Hne].
        + exists k', (mkPooledConn (pc_c pc) now). rewrite lookup_insert_eq. split; [done|]. cbn. congruence.
        + exists k', pc'. by rewrite lookup_insert_ne. }
    split; cbn.
    + intros k' pc' [[-> <-]|[Hne Hk']]%lookup_insert_Some; [cbn; by apply I1|by apply I1].
    + intros rq' k' c [[-> [=]]|[Hne Hr]]%lookup_insert_Some. rewrite Hp. by eapply I2.
    + intros rq1 rq2 k1 k2 c [[? [=]]|[_ H1]]%lookup_insert_Some [[? [=]]|[_ H2]]%lookup_insert_Some. by eapply I3.
    + intros rq' k' c [[-> [= -> <-]]|[Hne Hr]]%lookup_insert_Some; [by rewrite (I1 _ _ Ek)|by eapply I4].
    + exact I5.
    + intros c k' Hc. rewrite Hp. destruct (I6 c k' Hc) as [?|[rq' Hr]]; [by left|]. right. exists rq'.
      rewrite lookup_insert_ne by congruence. done.
  - split; cbn; try done.
    + intros rq' k' c [[-> [=]]|[Hne Hr]]%lookup_insert_Some. by eapply I2.
    + intros rq1 rq2 k1 k2 c [[? [=]]|[_ H1]]%lookup_insert_Some [[? [=]]|[_ H2]]%lookup_insert_Some. by eapply I3.
    + intros rq' k' c [[-> [=]]|[Hne Hr]]%lookup_insert_Some. by eapply I4.
    + intros c k' Hc. destruct (I6 c k' Hc) as [?|[rq' Hr]]; [by left|]. right. exists rq'.
      rewrite lookup_insert_ne by congruence. done.
Qed.

(** A request that leaves the dialling stage without a connection. *)
Lemma fail_inv g rq k :
  gw_requests g !! rq = Some (k, ConnDialling) → gw_inv g →
  gw_inv (mkGateway (gw_pool g) (gw_conns g) (gw_next g) (<[rq := (k, ConnFailed)]> (gw_requests g)) (gw_links g)).
Proof.
  intros Hrq [I1 I2 I3 I4 I5 I6]. split; cbn; try done.
  - intros rq' k' c [[-> [=]]|[Hne Hr]]%lookup_insert_Some. by eapply I2.
  - intros rq1 rq2 k1 k2 c [[? [=]]|[_ H1]]%lookup_insert_Some [[? [=]]|[_ H2]]%lookup_insert_Some. by eapply I3.
  - intros rq' k' c [[-> [=]]|[Hne Hr]]%lookup_insert_Some. by eapply I4.
  - intros c k' Hc. destruct (I6 c k' Hc) as [?|[rq' Hr]]; [by left|]. right. exists rq'.
    rewrite lookup_insert_ne by congruence. done.
Qed.

(** A new connection with any outcome for the request. *)
Lemma new_conn_inv g rq k x st ls :
  gw_requests g !! rq = Some (k, ConnDialling) → gw_inv g →
  (st = ConnFailed ∧ gc_closed x = true ∨ st = ConnDialled (gw_next g) ∧ x = mkGwConn k false) →
  gw_inv (mkGateway (gw_pool g) (<[gw_next g := x]> (gw_conns g)) (S (gw_next g)) (<[rq := (k, st)]> (gw_requests g)) ls).
Proof.
  intros Hrq [I1 I2 I3 I4 I5 I6] Hst.
  assert (∀ c y, gw_conns g !! c = Some y → <[gw_next g := x]> (gw_conns g) !! c = Some y) as Hold.
  { intros c y Hy. rewrite lookup_insert_ne; [done|]. pose proof (I5 _ _ Hy). lia. }
  assert (gw_conns g !! gw_next g = None) as Hnone.
  { destruct (gw_conns g !! gw_next g) eqn:E; [|done]. apply I5 in E. lia. }
  assert (¬ pooled (gw_pool g) (gw_next g)) as Hnp by (intros (k' & pc & Hk & Hc); apply I1 in Hk; congruence).
  split; cbn.
  - intros k' pc Hk. by apply Hold, I1.
  - intros rq' k' c [[-> [= -> ->]]|[Hne Hr]]%lookup_insert_Some.
    + destruct Hst as [[[=] _]|[[= ->] ->]]. by rewrite lookup_insert_eq.
    + destruct (I2 _ _ _ Hr) as [Hc Hp]. split; [by apply Hold|done].
  - intros rq1 rq2 k1 k2 c [[<- [= <- E1]]|[_ H1]]%lookup_insert_Some [[<- [= <- E2]]|[_ H2]]%lookup_insert_Some; try done.
    + destruct Hst as [[-> _]|[-> _]]; [done|]. injection E1 as <-. apply I2 in H2 as [H2 _]. congruence.
    + destruct Hst as [[-> _]|[-> _]]; [done|]. injection E2 as <-. apply I2 in H1 as [H1 _]. congruence.
    + by eapply I3.
  - intros rq' k' c [[-> [= _ Est]]|[Hne Hr]]%lookup_insert_Some; [destruct Hst as [[-> _]|[-> _]]; done|].
    specialize (I4 _ _ _ Hr). destruct (gw_conns g !! c) as [y|] eqn:E; [|done]. by rewrite (Hold _ _ E).
  - intros c y [[<- _]|[_ Hc]]%lookup_insert_Some; [lia|]. apply I5 in Hc. lia.
  - intros c k' [[<- ->]|[_ Hc]]%lookup_insert_Some.
    + right. exists rq. rewrite lookup_insert_eq. destruct Hst as [[_ [=]]|[-> [= ->]]]. done.
    + destruct (I6 c k' Hc) as [?|[rq' Hr]]; [by left|]. right. exists rq'. rewrite lookup_insert_ne by congruence. done.
Qed.

Lemma insert_inv now g rq k c :
  gw_requests g !! rq = Some (k, ConnDialled c) → gw_inv g → gw_inv (connFor_insert now g rq k c).
Proof.
  intros Hrq [I1 I2 I3 I4 I5 I6]. destruct (I2 _ _ _ Hrq) as [Hc Hnp]. unfold connFor_insert.
  destruct (gw_pool g !! k) as [pc|] eqn:Ek.
  - assert (∀ c', pooled (<[k:=mkPooledConn (pc_c pc) now]> (gw_pool g)) c' ↔ pooled (gw_pool g) c') as Hp.
    { intros c'. split.
      - intros (k' & pc' & [[-> <-]|[Hne Hk']]%lookup_insert_Some & Hc'); [by exists k', pc|by exists k', pc'].
      - intros (k' & pc' & Hk' & Hc'). destruct (decide (k = k')) as [->|Hne].
        + exists k', (mkPooledConn (pc_c pc) now). rewrite lookup_insert_eq. split; [done|]. cbn. congruence.
        + exists k', pc'. by rewrite lookup_insert_ne. }
    assert (∀ c', c' ≠ c → close_conn (gw_conns g) c !! c' = gw_conns g !! c') as Ho
      by (intros c' Hne; by apply lookup_alter_ne).
    assert (∀ k' pc', gw_pool g !! k' = Some pc' → pc_c pc' ≠ c) as Hpc by (intros k' pc' Hk' <-; apply Hnp; by exists k', pc').
    split; cbn.
    + intros k' pc' [[-> <-]|[Hne Hk']]%lookup_insert_Some; cbn; rewrite Ho by (by eapply Hpc); by apply I1.
    + intros rq' k' c' [[-> [=]]|[Hne Hr]]%lookup_insert_Some. rewrite Hp, Ho; [by eapply I2|].
      intros ->. apply Hne. by eapply I3.
    + intros rq1 rq2 k1 k2 c' [[? [=]]|[_ H1]]%lookup_insert_Some [[? [=]]|[_ H2]]%lookup_insert_Some. by eapply I3.
    + intros rq' k' c' Hr. assert (gc_key <$> gw_conns g !! c' = Some k') as Hk'.
      { apply lookup_insert_Some in Hr as [[-> [= -> <-]]|[Hne Hr]]; [by rewrite (I1 _ _ Ek)|by eapply I4]. }
      destruct (decide (c' = c)) as [->|Hne]; [|by rewrite Ho]. unfold close_conn. rewrite lookup_alter_eq.
      by destruct (gw_conns g !! c).
    + intros c' x Hx. destruct (decide (c' = c)) as [->|Hne]; [by eapply I5|]. rewrite Ho in Hx by done. by eapply I5.
    + intros c' k' Hx. rewrite Hp. destruct (decide (c' = c)) as [->|Hne].
      { unfold close_conn in Hx. rewrite lookup_alter_eq, Hc in Hx. done. }
      rewrite Ho in Hx by done. destruct (I6 c' k' Hx) as [?|[rq' Hr]]; [by left|]. right. exists rq'.
      rewrite lookup_insert_ne by congruence. done.
  - assert (∀ c', pooled (<[k:=mkPooledConn c now]> (gw_pool g)) c' ↔ c' = c ∨ pooled (gw_pool g) c') as Hp.
    { intros c'. split.
      - intros (k' & pc' & [[-> <-]|[Hne Hk']]%lookup_insert_Some & Hc'); [by left|right; by exists k', pc'].
      - intros [->|(k' & pc' & Hk' & Hc')].
        + exists k, (mkPooledConn c now). by rewrite lookup_insert_eq.
        + exists k', pc'. rewrite lookup_insert_ne; [done|congruence]. }
    split; cbn.
    + intros k' pc' [[-> <-]|[Hne Hk']]%lookup_insert_Some; [done|by apply I1].
    + intros rq' k' c' [[-> [=]]|[Hne Hr]]%lookup_insert_Some. destruct (I2 _ _ _ Hr) as [Hc' Hn]. split; [done|].
      rewrite Hp. intros [->|?]; [|done]. apply Hne. by eapply I3.
    + intros rq1 rq2 k1 k2 c' [[? [=]]|[_ H1]]%lookup_insert_Some [[? [=]]|[_ H2]]%lookup_insert_Some. by eapply I3.
    + intros rq' k' c' [[-> [= -> <-]]|[Hne Hr]]%lookup_insert_Some; [by rewrite Hc|by eapply I4].
    + exact I5.
    + intros c' k' Hx. rewrite Hp. destruct (I6 c' k' Hx) as [?|[rq' Hr]]; [by left; right|].
      destruct (decide (rq' = rq)) as [->|Hne]; [left; left; congruence|]. right. exists rq'. by rewrite lookup_insert_ne.
Qed.

(** Closing a part of the pool and keeping the rest. *)
Lemma close_part_inv g (P : gmap string pooledConn) (Q : gmap string pooledConn) :
  (∀ k pc, gw_pool g !! k = Some pc → P !! k = Some pc ∨ Q !! k = Some pc) →
  (∀ k pc, P !! k = Some pc → gw_pool g !! k = Some pc ∧ Q !! k = None) →
  (∀ k pc, Q !! k = Some pc → gw_pool g !! k = Some pc) →
  gw_inv g → gw_inv (mkGateway P (close_all Q (gw_conns g)) (gw_next g) (gw_requests g) (gw_links g)).
Proof.
  intros HPQ HP HQ [I1 I2 I3 I4 I5 I6].
  pose proof (close_all_key Q (gw_conns g)) as Hkey.
  assert (∀ c k, gw_conns g !! c = Some (mkGwConn k false) → ¬ pooled Q c →
    close_all Q (gw_conns g) !! c = Some (mkGwConn k false)) as Hkeep.
  { intros c k Hc Hn. destruct (close_all_spec Q (gw_conns g) c) as [_ H2]. by rewrite H2. }
  split; cbn.
  - intros k pc Hk. destruct (HP _ _ Hk) as [Hg Hn]. apply Hkeep; [by apply I1|].
    intros (k' & pc' & Hk' & Hc). pose proof (I1 _ _ Hg) as E1. pose proof (I1 _ _ (HQ _ _ Hk')) as E2. congruence.
  - intros rq k c Hr. destruct (I2 _ _ _ Hr) as [Hc Hn]. split.
    + apply Hkeep; [done|]. intros (k' & pc' & Hk' & Hc'). apply Hn. exists k', pc'. split; [by apply HQ|done].
    + intros (k' & pc' & Hk' & Hc'). apply Hn. exists k', pc'. split; [by apply HP|done].
  - exact I3.
  - intros rq k c Hr. rewrite Hkey. by eapply I4.
  - intros c x Hx. assert (is_Some (gw_conns g !! c)) as [y Hy].
    { specialize (Hkey c). rewrite Hx in Hkey. destruct (gw_conns g !! c); [by eexists|done]. }
    by eapply I5.
  - intros c k Hx. destruct (close_all_spec Q (gw_conns g) c) as [H1 H2].
    assert (¬ pooled Q c) as Hn. { intros Hp. rewrite H1 in Hx by done. by destruct (gw_conns g !! c). }
    rewrite H2 in Hx by done. destruct (I6 c k Hx) as [(k' & pc & Hk' & Hc)|?]; [left|by right].
    destruct (HPQ _ _ Hk') as [?|?]; [by exists k', pc|]. exfalso. apply Hn. by exists k', pc.
Qed.

Lemma gw_step_inv g e : gw_inv g → gw_inv (gw_step g e).
Proof.
  intros Hg. destruct e as [now rq k|rq dial_ok auth|now rq|now|c|]; cbn [gw_step].
  - destruct (gw_requests g !! rq) eqn:E; [done|]. by apply lookup_inv.
  - destruct (gw_requests g !! rq) as [[k [| | |]]|] eqn:E; try done. unfold connFor_dial.
    destruct dial_ok; cbn [negb]; [|by apply fail_inv].
    cbv zeta. case_bool_decide; [|destruct auth]; apply new_conn_inv; try done; ((by left) || by right).
  - destruct (gw_requests g !! rq) as [[k [| | |]]|] eqn:E; try done. by apply insert_inv.
  - apply close_part_inv; [| | |done].
    + intros k pc Hk. destruct (gw_idle now pc) eqn:Ei; [right|left]; by apply map_lookup_filter_Some_2.
    + intros k pc [Hk Hi]%map_lookup_filter_Some. split; [done|]. apply map_lookup_filter_None_2. right. intros x Hx.
      cbn in *. congruence.
    + by intros k pc [Hk _]%map_lookup_filter_Some.
  - destruct Hg as [I1 I2 I3 I4 I5 I6]. by split.
  - apply close_part_inv; [by right| |done|done]. intros k pc Hk. by rewrite lookup_empty in Hk.
Qed.

Lemma gw_run_inv es : gw_inv (gw_run es) ∧ links_ok (gw_conns (gw_run es)) (gw_links (gw_run es)).
Proof.
  assert (gw_inv NewGateway ∧ links_ok (gw_conns NewGateway) (gw_links NewGateway)) as H.
  { split; [apply gw_inv_new|]. intros c k. cbn. by rewrite lookup_empty. }
  unfold gw_run. revert H. generalize NewGateway.
  induction es as [|e es IH]; intros g [Hg Hl]; [done|]. cbn. apply IH. split; [by apply gw_step_inv|by apply gw_step_links].
Qed.

(** C24: the gateway keeps API keys apart.  However requests look up, dial,
    enter, connections are evicted or lost and the gateway stops: the
    connection a request has was made for the request's key, and the broker
    takes it for that key or for nobody, so that a request never acts under
    another's key and requests with different keys never share a connection; a
    pooled connection is one for its key that the gateway has not closed; and a
    connection the gateway has not closed is in the pool or in the hands of the
    request that is making it, so that none leaks.  That the broker accepted
    the key, or that the connection still stands, is not promised. *)
Theorem gateway_isolates_keys es :
  let g := gw_run es in
  (∀ rq k c, gw_requests g !! rq = Some (k, ConnHas c) →
     gc_key <$> gw_conns g !! c = Some k ∧
     ∃ l, gw_links g !! c = Some l ∧ (ln_identity l = None ∨ ln_identity l = Some k)) ∧
  (∀ rq1 rq2 k1 k2 c, gw_requests g !! rq1 = Some (k1, ConnHas c) → gw_requests g !! rq2 = Some (k2, ConnHas c) → k1 = k2) ∧
  (∀ k pc, gw_pool g !! k = Some pc → gw_conns g !! pc_c pc = Some (mkGwConn k false)) ∧
  (∀ c k, gw_conns g !! c = Some (mkGwConn k false) →
     (∃ pc, gw_pool g !! k = Some pc ∧ pc_c pc = c) ∨ ∃ rq, gw_requests g !! rq = Some (k, ConnDialled c)).
Proof.
  pose proof (gw_run_inv es) as [[I1 I2 I3 I4 I5 I6] Hl]. cbv zeta. split.
  { intros rq k c Hr. apply I4 in Hr. split; [done|]. destruct (Hl c k Hr) as (l & Hlc & [?|[? _]]); eauto. }
  split.
  { intros rq1 rq2 k1 k2 c H1 H2. apply I4 in H1, H2. congruence. }
  split; [exact I1|]. intros c k Hc. destruct (I6 c k Hc) as [(k' & pc & Hk & <-)|?]; [left|by right].
  pose proof (I1 _ _ Hk). exists pc. split; [congruence|done].
Qed.

Definition demo_gw_events : list gw_event :=
  [GwLookup 0 0 "ka"; GwLookup 0 1 "kb"; GwLookup 0 2 "ka"; GwDial 0 true AuthAccepted; GwDial 1 true AuthRefused;
   GwDial 2 true AuthAccepted; GwInsert 1 2; GwInsert 1 0; GwInsert 1 1].

(** Two requests race for one key: the second to enter takes the first's
    connection and closes its own. *)
Lemma gateway_isolates_keys_witness :
  gw_requests (gw_run demo_gw_events) !! 0%nat = Some ("ka"%string, ConnHas 2) ∧
  gw_requests (gw_run demo_gw_events) !! 2%nat = Some ("ka"%string, ConnHas 2) ∧
  gw_requests (gw_run demo_gw_events) !! 1%nat = Some ("kb"%string, ConnHas 1) ∧
  gw_conns (gw_run demo_gw_events) !! 0%nat = Some (mkGwConn "ka" true) ∧
  gw_links (gw_run demo_gw_events) !! 2%nat = Some (mkLink (Some "ka") false) ∧
  gc_key <$> gw_conns (gw_run demo_gw_events) !! 2%nat = Some "ka"%string.
Proof.
  assert (gw_requests (gw_run demo_gw_events) !! 0%nat = Some ("ka"%string, ConnHas 2)) as H0 by (vm_compute; reflexivity).
  pose proof (gateway_isolates_keys demo_gw_events) as H. cbv zeta in H. destruct H as (Hk & _).
  split; [exact H0|]. split; [vm_compute; reflexivity|]. split; [vm_compute; reflexivity|].
  split; [vm_compute; reflexivity|]. split; [vm_compute; reflexivity|]. exact (proj1 (Hk _ _ _ H0)).
Defined.

(** The broker's refusal of a key passes for success: the connection enters the
    pool without an identity, and later requests with that key, also when the
    broker has learnt it by then, are given the same connection. *)
Lemma refused_key_pooled now now' :
  let g := gw_run [GwLookup now 0 "k"; GwDial 0 true AuthRefused; GwInsert now 0; GwLookup now' 1 "k"] in
  gw_requests g !! 1%nat = Some ("k"%string, ConnHas 0) ∧ gw_links g !! 0%nat = Some (mkLink None false).
Proof. by vm_compute. Qed.

(** A connection that is lost stays in the pool and is handed out: asking for
    it sets its clock, so that the clean-up spares it. *)
Lemma lost_connection_reused :
  let at_min := λ m, m * 60 * GoTime.second_ns in
  let g := gw_run [GwLookup 0 0 "k"; GwDial 0 true AuthAccepted; GwInsert 0 0; GwLost 0;
                   GwLookup (at_min 8) 1 "k"; GwEvict (at_min 16); GwLookup (at_min 17) 2 "k"] in
  gw_requests g !! 2%nat = Some ("k"%string, ConnHas 0) ∧
  gw_pool g !! "k"%string = Some (mkPooledConn 0 (17 * 60 * GoTime.second_ns)) ∧
  gw_links g !! 0%nat = Some (mkLink (Some "k"%string) true).
Proof. by vm_compute. Qed.

(** The clock of a pooled connection is set when a request asks for it only:
    a stream that runs for more than ten minutes has its connection closed
    under it. *)
Lemma stream_evicted :
  let g := gw_run [GwLookup 0 0 "ka"; GwDial 0 true AuthAccepted; GwInsert 0 0; GwEvict (poolIdleTimeout + 1)] in
  gw_requests g !! 0%nat = Some ("ka"%string, ConnHas 0) ∧ gw_conns g !! 0%nat = Some (mkGwConn "ka" true).
Proof. by vm_compute. Qed.

(** ** Requests and replies *)

Definition gw_bearer : string := "Bearer ".

Definition parseAPIKey (authz : string) : string :=
  if (String.substring 0 7 authz =? gw_bearer)%string then String.substring 7 (String.length authz - 7) authz
  else EmptyString.

Inductive gw_err :=
| GwConnect
| GwDecode
| GwPartition
| GwBroker (e : client_err).

Inductive gw_reply :=
| GwFail (status : Z) (e : gw_err)
| GwReply (status : Z) (body : json).

Record publishReq := mkPublishReq { gp_Key : string; gp_Payload : string; gp_Headers : gmap string string }.

Definition publishReq_of (l : list (bytes * json)) : option publishReq :=
  match get_str "key" l, get_str "payload" l, get_smap "headers" l with
  | Some k, Some p, Some h => Some (mkPublishReq k p h)
  | _, _, _ => None
  end.

Definition publishBatchReq_of (l : list (bytes * json)) : option (list publishReq) := get_objs publishReq_of "messages" l.

Record createTopicReq := mkCreateTopicReq { gt_Name : string; gt_Partitions : Z }.

Definition createTopicReq_of (l : list (bytes * json)) : option createTopicReq :=
  match get_str "name" l, get_int i64_min i64_max "partitions" l with
  | Some n, Some p => Some (mkCreateTopicReq n p)
  | _, _ => None
  end.

(** [base64.StdEncoding.DecodeString], which skips line ends. *)
Definition b64_decode_string (s : bytes) : option bytes :=
  b64_decode (List.filter (λ b, negb (bool_decide (b = Byte.x0a)) && negb (bool_decide (b = Byte.x0d))) s).

Definition decodePayload (s : string) : bytes :=
  if bool_decide (s = EmptyString) then []
  else match b64_decode_string (bytes_of_string s) with Some b => b | None => bytes_of_string s end.

Section Handlers.
(** [strings.ToUpper] beyond ASCII. *)
Context (unicode_upper : bytes → bytes).

Definition broker_status (e : client_err) : Z :=
  match e with
  | ErrTopicNotFound _ _ => 404
  | ErrBroker code _ =>
      if bytes_contains (ToUpper unicode_upper (bytes_of_string code)) (bytes_of_string "EXISTS") then 409 else 500
  | ErrNotAuthenticated _ => 401
  | _ => 500
  end.

Definition writeBrokerError (e : client_err) : gw_reply := GwFail (broker_status e) (GwBroker e).

(** A handler on its connection: [conn] tells whether [connFor] gave one,
    [body] is the request's, and [send k] makes the [k]-th call. *)
Definition handleCreateTopic (conn : bool) (body : bytes) (send : nat → request → result Frame client_err) : gw_reply :=
  if negb conn then GwFail 401 GwConnect
  else
    match unmarshal_with createTopicReq_of body with
    | None => GwFail 400 GwDecode
    | Some req =>
        let parts := if gt_Partitions req <=? 0 then 1 else gt_Partitions req in
        match ignore_body (send 0%nat (CreateTopic_request (mkTopicConfig (gt_Name req) parts 1 0 0 0 0 0 ""))) with
        | Error e => writeBrokerError e
        | Ok _ => GwReply 201 (JObj (put "name" (jstr (gt_Name req)) ++ put "partitions" (JNum parts)))
        end
    end.

Definition publish_call (topic : string) (m : publishReq) : request :=
  (CmdPublish, Body PublishRequestJson
     (publish_request (NewSdkProducer topic) (gp_Key m) (decodePayload (gp_Payload m)) (gp_Headers m)).2).

Definition handlePublish (conn : bool) (topic : string) (body : bytes) (send : nat → request → result Frame client_err) :
    gw_reply :=
  if negb conn then GwFail 401 GwConnect
  else
    match unmarshal_with publishReq_of body with
    | None => GwFail 400 GwDecode
    | Some req =>
        match PublishWithMeta (send 0%nat (publish_call topic req)) with
        | Error e => writeBrokerError e
        | Ok (partition, offset) =>
            GwReply 201 (JObj (put "offset" (JNum offset) ++ put "partition" (JNum partition)))
        end
    end.

(** One call a message, in order, up to the first that fails. *)
Fixpoint batch_loop (topic : string) (send : nat → request → result Frame client_err) (k : nat) (ms : list publishReq) :
    result (list Z) client_err :=
  match ms with
  | [] => Ok []
  | m :: ms =>
      match PublishWithMeta (send k (publish_call topic m)) with
      | Error e => Error e
      | Ok (_, offset) =>
          match batch_loop topic send (S k) ms with Error e => Error e | Ok offsets => Ok (offset :: offsets) end
      end
  end.

Definition handlePublishBatch (conn : bool) (topic : string) (body : bytes)
    (send : nat → request → result Frame client_err) : gw_reply :=
  if negb conn then GwFail 401 GwConnect
  else
    match unmarshal_with publishBatchReq_of body with
    | None => GwFail 400 GwDecode
    | Some ms =>
        match batch_loop topic send 0 ms with
        | Error e => writeBrokerError e
        | Ok offsets => GwReply 201 (JObj (put "offsets" (JArr (JNum <$> offsets))))
        end
    end.

Definition parseQueryInt64 (v : string) (dflt : Z) : Z :=
  if bool_decide (v = EmptyString) then dflt else default dflt (ParseInt v).

Definition fetch_message (m : Message) : list (bytes * json) :=
  put "offset" (JNum (msg_Offset m)) ++ put "key" (jstr (msg_Key m)) ++
  put "payload" (JStr (b64_encode (msg_Payload m))) ++ put "timestamp_ns" (JNum (msg_Timestamp m)).

(** The partition of the path is cut to an int32. *)
Definition handleFetch (conn : bool) (topic partition offset limit : string)
    (send : nat → request → result Frame client_err) : gw_reply :=
  if negb conn then GwFail 401 GwConnect
  else
    match ParseInt partition with
    | None => GwFail 400 GwPartition
    | Some p =>
        match Fetch (send 0%nat (Fetch_request topic (i32 p) (parseQueryInt64 offset 0) (parseQueryInt64 limit 100))) with
        | Error e => writeBrokerError e
        | Ok msgs => GwReply 200 (JObj (put "messages" (JArr ((λ m, JObj (fetch_message m)) <$> msgs))))
        end
    end.

(** ** Streams *)

Definition wsPushMessage_fields (m : Message) : list (bytes * json) :=
  put "offset" (JNum (msg_Offset m)) ++ put "partition" (JNum (msg_Partition m)) ++ put "key" (jstr (msg_Key m)) ++
  put "payload" (JStr (b64_encode (msg_Payload m))) ++ put "timestamp_ns" (JNum (msg_Timestamp m)).

(** The commit of a text frame: [None] a frame that is skipped. *)
Definition wsCommitFrame_of (text : bytes) : option (Z * Z) :=
  match unmarshal_with (λ l,
    match jfield "commit" l with
    | None | Some JNull => Some None
    | Some (JObj c) =>
        match get_int i32_min i32_max "partition" c, get_int i64_min i64_max "offset" c with
        | Some p, Some o => Some (Some (p, o))
        | _, _ => None
        end
    | Some _ => None
    end) text with
  | Some (Some po) => Some po
  | _ => None
  end.

Definition stream_group (group topic : string) : string :=
  if bool_decide (group = EmptyString) then "gateway-" +:+ topic else group.

(** ** What the handlers keep *)

(** A payload sent in base64 arrives as it is. *)
Lemma decodePayload_base64 b :
  b ≠ [] → decodePayload (string_of_bytes (b64_encode b)) = b.
Proof.
  intros Hb. unfold decodePayload, b64_decode_string. rewrite bytes_of_string_of_bytes.
  rewrite bool_decide_eq_false_2.
  2: { intros He. apply (f_equal bytes_of_string) in He. rewrite bytes_of_string_of_bytes in He.
       apply (f_equal b64_decode) in He. rewrite b64_roundtrip in He. cbn in He. by injection He as ->. }
  assert (∀ s, Forall (λ b, is_Some (b64_val b) ∨ b = b64_pad) s →
    List.filter (λ b, negb (bool_decide (b = Byte.x0a)) && negb (bool_decide (b = Byte.x0d))) s = s) as Hf.
  { induction 1 as [|x s Hx _ IH]; [done|]. cbn [List.filter].
    rewrite !bool_decide_eq_false_2 by (intros ->; by destruct Hx as [[? [=]]|[=]]). cbn. by rewrite IH. }
  rewrite Hf; [by rewrite b64_roundtrip|].
  assert (∀ z, 0 <= z < 64 → is_Some (b64_val (b64_char z)) ∨ b64_char z = b64_pad) as Hc
    by (intros z Hz; left; rewrite b64_val_char by done; by eexists).
  clear Hb Hf. induction b as [|x|x y|x y z s IH] using list_ind3; cbn [b64_encode b64_3 take app];
    change (bval Byte.x00) with 0; repeat (constructor; [first [apply Hc; b64_arith | by right]|]); done.
Qed.

(** Plain text of four letters is taken for base64. *)
Lemma plain_text_mangled : decodePayload "test" ≠ bytes_of_string "test".
Proof. by vm_compute. Qed.

(** A partition beyond an int32 addresses another one. *)
Lemma fetch_partition_wraps topic offset limit send :
  handleFetch true topic "4294967296" offset limit send = handleFetch true topic "0" offset limit send.
Proof. reflexivity. Qed.

(** A batch answers with an offset for each message, and makes one call a
    message; if the [k]-th fails the earlier ones are published all the same. *)
Lemma batch_loop_spec topic send k ms offsets :
  batch_loop topic send k ms = Ok offsets →
  length offsets = length ms ∧
  ∀ i m, ms !! i = Some m → ∃ p o, PublishWithMeta (send (k + i)%nat (publish_call topic m)) = Ok (p, o) ∧
                                  offsets !! i = Some o.
Proof.
  revert k offsets. induction ms as [|m ms IH]; intros k offsets; cbn [batch_loop]; [intros [= <-]; done|].
  destruct (PublishWithMeta _) as [[p o]|] eqn:E; [|done].
  destruct (batch_loop topic send (S k) ms) as [os|] eqn:Eb; [|done]. intros [= <-].
  destruct (IH _ _ Eb) as [Hl Hi]. split; [cbn; lia|]. intros [|i] m' Hm; cbn in Hm.
  - injection Hm as <-. rewrite Nat.add_0_r. by exists p, o.
  - replace (k + S i)%nat with (S k + i)%nat by lia. by apply Hi.
Qed.

End Handlers.
