(* ===== verification/GatewayStream.v ===== *)
(** * Lists and streams of the gateway: the rest of [internal/gateway/gateway.go] and [ListTopics] of [pkg/client/admin.go]

    The list of topics from the broker's reply through the client library to
    the HTTP reply, and a WebSocket stream: one goroutine forwards the messages
    of a consumer as text frames, the other turns text frames into commits. *)

From S2P Require Import Prelude GoLib Json StringsLib Types Protocol WireJson WireReply GoTime Client Sdk Gateway.

Local Open Scope Z_scope.

Import Errors.

(** ** The list of topics *)

(** A topic in the reply of the broker; the time is Unix nanoseconds. *)
Record TopicEntry := mkTopicEntry { te_Name : string; te_Partitions : Z; te_Created : Z }.

Definition TopicEntry_fields (t : TopicEntry) : list (bytes * json) :=
  put "name" (jstr (te_Name t)) ++ put "partitions" (JNum (te_Partitions t)) ++ put "created_at" (JNum (te_Created t)) ++ [].

Definition TopicEntry_of (l : list (bytes * json)) : option TopicEntry :=
  match get_str "name" l, get_int i64_min i64_max "partitions" l, get_int i64_min i64_max "created_at" l with
  | Some n, Some p, Some c => Some (mkTopicEntry n p c)
  | _, _, _ => None
  end.

Definition TopicEntry_wf (t : TopicEntry) : Prop :=
  str_valid (te_Name t) = true ∧ is_i64 (te_Partitions t) ∧ is_i64 (te_Created t).

(** An array of structs: [null] is an absent one. *)
Definition unmarshal_list {A} (f : list (bytes * json) → option A) (b : bytes) : option (list A) :=
  match parse b with
  | Some (JArr js) => mapM (λ j, match j with JObj m => f m | JNull => f [] | _ => None end) js
  | Some JNull => Some []
  | _ => None
  end.

Lemma TopicEntry_of_fields t : TopicEntry_wf t → TopicEntry_of (TopicEntry_fields t) = Some t.
Proof.
  intros (H0 & H1 & H2). unfold TopicEntry_of, TopicEntry_fields. wire_bounds.
  rewrite (get_str_eq "name" _ (te_Name t) false) by wire_solve.
  rewrite (get_int_eq _ _ "partitions" _ (te_Partitions t) false) by wire_solve.
  rewrite (get_int_eq _ _ "created_at" _ (te_Created t) false) by wire_solve.
  by destruct t.
Qed.

Definition print_topics (ts : list TopicEntry) : bytes := print (JArr ((λ t, JObj (TopicEntry_fields t)) <$> ts)).

Lemma topics_roundtrip ts :
  Forall TopicEntry_wf ts → ∃ b, Some (print_topics ts) = Some b ∧ unmarshal_list TopicEntry_of b = Some ts.
Proof.
  intros Hts. eexists. split; [reflexivity|]. unfold unmarshal_list, print_topics. rewrite parse_print.
  - apply mapM_Some_2. apply Forall2_fmap_l. induction Hts as [|t ts Ht _ IH]; constructor; [by apply TopicEntry_of_fields|done].
  - cbn [json_valid]. induction Hts as [|t ts (Ht & _) _ IH]; [done|]. cbn [fmap list_fmap forallb]. rewrite IH, andb_true_r.
    unfold TopicEntry_fields. wire_valid.
Qed.

#[global] Instance TopicListJson : JsonCodec (list TopicEntry) := {|
  json_Marshal := λ ts, Some (print_topics ts);
  json_Unmarshal := unmarshal_list TopicEntry_of;
  json_wf := Forall TopicEntry_wf;
  json_roundtrip := topics_roundtrip;
|}.

(** What the library makes of the answer. *)
Definition ListTopics (answer : result Frame client_err) : result (list TopicEntry) client_err :=
  match answer with
  | Error e => Error e
  | Ok f => match Unmarshal f ([] : list TopicEntry) with None => Error BadResponse | Some ts => Ok ts end
  end.

Section Handlers.
Context (unicode_upper : bytes → bytes).

Definition handleListTopics (conn : bool) (send : nat → request → result Frame client_err) : gw_reply :=
  if negb conn then GwFail 401 GwConnect
  else
    match ListTopics (send 0%nat ListTopics_request) with
    | Error e => writeBrokerError unicode_upper e
    | Ok ts =>
        GwReply 200 (JObj (put "topics"
          (JArr ((λ t, JObj (put "name" (jstr (te_Name t)) ++ put "partitions" (JNum (te_Partitions t)))) <$> ts))))
    end.

(** The topics the broker lists are those the gateway shows. *)
Lemma listed_topics_shown ts f send :
  Forall TopicEntry_wf ts → send 0%nat ListTopics_request = Ok f → fr_Body f = print_topics ts →
  handleListTopics true send =
    GwReply 200 (JObj (put "topics"
      (JArr ((λ t, JObj (put "name" (jstr (te_Name t)) ++ put "partitions" (JNum (te_Partitions t)))) <$> ts)))).
Proof.
  intros Hts Hs Hf. unfold handleListTopics, ListTopics, Unmarshal. cbn [negb]. rewrite Hs, Hf.
  assert (zlen (print_topics ts) =? 0 = false) as ->.
  { apply Z.eqb_neq. unfold print_topics. cbn [print]. rewrite zlen_cons. pose proof (zlen_nonneg (join comma (map print ((λ t, JObj (TopicEntry_fields t)) <$> ts)) ++ [Byte.x5d])). lia. }
  destruct (topics_roundtrip ts Hts) as (b & [= <-] & Hb). cbn [json_Unmarshal TopicListJson]. by rewrite Hb.
Qed.

End Handlers.

(** ** A stream *)

(** [gs_ch] is the channel of the consumer; [gs_got], [gs_read] and [gs_lost]
    are history: what came into the channel, the texts the reader got, and the
    message whose write failed. *)
Record GwStream := mkGwStream {
  gs_ch : list Message;
  gs_got : list Message;
  gs_out : list bytes;
  gs_sent : list Message;
  gs_lost : list Message;
  gs_read : list bytes;
  gs_commits : list (Z * Z);
  gs_reader : bool;
  gs_writer : bool;
}.

(** After the subscription. *)
Definition NewStream : GwStream := mkGwStream [] [] [] [] [] [] [] true true.

Definition push_text (m : Message) : bytes := print (JObj (wsPushMessage_fields m)).

Definition with_flags (s : GwStream) (reader writer : bool) : GwStream :=
  mkGwStream (gs_ch s) (gs_got s) (gs_out s) (gs_sent s) (gs_lost s) (gs_read s) (gs_commits s) reader writer.

Inductive gw_stream_event :=
| GsMessage (m : Message)
| GsForward (ok : bool)
| GsText (text : bytes)
| GsReadErr
| GsNotice.

(** [None] is an event that cannot happen.  The writer may take a message
    although the reader is gone: the [select] chooses. *)
Definition gw_stream_step (s : GwStream) (e : gw_stream_event) : option GwStream :=
  match e with
  | GsMessage m =>
      if gs_writer s
      then Some (mkGwStream (gs_ch s ++ [m]) (gs_got s ++ [m]) (gs_out s) (gs_sent s) (gs_lost s) (gs_read s) (gs_commits s)
                   (gs_reader s) (gs_writer s))
      else None
  | GsForward ok =>
      match gs_writer s, gs_ch s with
      | true, m :: ch =>
          Some (if ok : bool
                then mkGwStream ch (gs_got s) (gs_out s ++ [push_text m]) (gs_sent s ++ [m]) (gs_lost s) (gs_read s) (gs_commits s)
                       (gs_reader s) true
                else mkGwStream ch (gs_got s) (gs_out s) (gs_sent s) (gs_lost s ++ [m]) (gs_read s) (gs_commits s) (gs_reader s) false)
      | _, _ => None
      end
  | GsText text =>
      if gs_reader s
      then Some (mkGwStream (gs_ch s) (gs_got s) (gs_out s) (gs_sent s) (gs_lost s) (gs_read s ++ [text])
                   (match wsCommitFrame_of text with Some po => gs_commits s ++ [po] | None => gs_commits s end)
                   (gs_reader s) (gs_writer s))
      else None
  | GsReadErr => if gs_reader s then Some (with_flags s false (gs_writer s)) else None
  | GsNotice => if gs_writer s && negb (gs_reader s) then Some (with_flags s false false) else None
  end.

Fixpoint gw_stream_run (s : GwStream) (es : list gw_stream_event) : option GwStream :=
  match es with
  | [] => Some s
  | e :: es => s' ← gw_stream_step s e; gw_stream_run s' es
  end.

(** What a client of the stream reads of a text frame. *)
Record Pushed := mkPushed { pu_Offset : Z; pu_Partition : Z; pu_Key : string; pu_Payload : bytes; pu_TimestampNs : Z }.

Definition Pushed_of (l : list (bytes * json)) : option Pushed :=
  match get_int i64_min i64_max "offset" l, get_int i32_min i32_max "partition" l, get_str "key" l, get_bytes "payload" l,
        get_int i64_min i64_max "timestamp_ns" l with
  | Some o, Some p, Some k, Some b, Some t => Some (mkPushed o p k b t)
  | _, _, _, _, _ => None
  end.

Definition pushed (m : Message) : Pushed := mkPushed (msg_Offset m) (msg_Partition m) (msg_Key m) (msg_Payload m) (msg_Timestamp m).

Lemma pushed_roundtrip m : Message_wf m → unmarshal_with Pushed_of (push_text m) = Some (pushed m).
Proof.
  intros (Hid & Ht & Hk & Hh & Hts & Hp & Ho & Hc). unfold push_text. rewrite unmarshal_with_print.
  - unfold Pushed_of, wsPushMessage_fields. rewrite <- (app_nil_r (put "timestamp_ns" _)). wire_bounds.
    rewrite (get_int_eq _ _ "offset" _ (msg_Offset m) false) by wire_solve.
    rewrite (get_int_eq _ _ "partition" _ (msg_Partition m) false) by wire_solve.
    rewrite (get_str_eq "key" _ (msg_Key m) false) by wire_solve.
    rewrite (get_bytes_eq "payload" _ (msg_Payload m)) by wire_solve.
    by rewrite (get_int_eq _ _ "timestamp_ns" _ (msg_Timestamp m) false) by wire_solve.
  - unfold wsPushMessage_fields. rewrite <- (app_nil_r (put "timestamp_ns" _)), !members_valid_put. unfold str_valid in Hk.
    cbn [json_valid jstr]. by rewrite Hk, (utf8_valid_ascii _ (b64_encode_ascii _)).
Qed.

(** What every run keeps. *)
Record stream_ok (s : GwStream) : Prop := mkStreamOk {
  sk_messages : gs_got s = gs_sent s ++ gs_lost s ++ gs_ch s;
  sk_lost : (length (gs_lost s) <= 1)%nat ∧ (gs_writer s = true → gs_lost s = []);
  sk_out : gs_out s = push_text <$> gs_sent s;
  sk_commits : gs_commits s = omap wsCommitFrame_of (gs_read s);
}.

Lemma gw_stream_step_ok s e s' : stream_ok s → gw_stream_step s e = Some s' → stream_ok s'.
Proof.
  intros [Hm [Hl Hl'] Ho Hc] Hs. destruct e as [m|ok|text| |]; cbn [gw_stream_step] in Hs.
  - destruct (gs_writer s) eqn:Ew; [|done]. injection Hs as <-. split; cbn; rewrite ?Ew; try done. rewrite Hm. by rewrite <- !app_assoc.
  - destruct (gs_writer s) eqn:Ew; [|done]. destruct (gs_ch s) as [|m ch]; [done|]. rewrite (Hl' eq_refl) in *. cbn [app] in Hm.
    injection Hs as <-. destruct ok; split; cbn; try done.
    + rewrite Hm. by rewrite <- app_assoc.
    + rewrite Ho. by rewrite fmap_app.
  - destruct (gs_reader s); [|done]. injection Hs as <-. split; cbn; try done. rewrite omap_app. cbn.
    destruct (wsCommitFrame_of text); by rewrite ?app_nil_r, Hc.
  - destruct (gs_reader s); [|done]. injection Hs as <-. by split.
  - destruct (gs_writer s && _); [|done]. injection Hs as <-. split; cbn; done.
Qed.

Lemma gw_stream_run_ok s es s' : stream_ok s → gw_stream_run s es = Some s' → stream_ok s'.
Proof.
  revert s. induction es as [|e es IH]; intros s Hs Hr; cbn in Hr; [by injection Hr as <-|].
  destruct (gw_stream_step s e) as [s1|] eqn:E; [|done]. cbn in Hr. eapply IH; [|exact Hr]. by eapply gw_stream_step_ok.
Qed.

(** A stream is the consumer, in order.  In every interleaving of its two
    goroutines the text frames written read back, one by one, to the first
    messages that came into the consumer's channel, in order and without a
    gap; beyond those still in the channel at most one message is lost, and
    only to a failed write, which ends the stream; and the commits made are
    those of the well-formed commit frames read, in order. *)
Theorem gateway_stream_faithful es s :
  gw_stream_run NewStream es = Some s → Forall Message_wf (gs_got s) →
  (unmarshal_with Pushed_of <$> gs_out s) = (λ m, Some (pushed m)) <$> gs_sent s ∧
  (∃ lost, gs_got s = gs_sent s ++ lost ++ gs_ch s ∧ (length lost <= 1)%nat ∧ (gs_writer s = true → lost = [])) ∧
  gs_commits s = omap wsCommitFrame_of (gs_read s).
Proof.
  intros Hr Hw. assert (stream_ok NewStream) as H0 by (split; cbn; [done|split; [lia|done]|done|done]).
  destruct (gw_stream_run_ok NewStream es s H0 Hr) as [Hm Hl Ho Hc]. split; [|split; [|done]].
  - rewrite Ho, <- list_fmap_compose. rewrite Hm in Hw. apply Forall_app in Hw as [Hw _].
    clear -Hw. induction Hw as [|m ms Hmw _ IH]; [done|]. cbn. rewrite IH. f_equal. by apply pushed_roundtrip.
  - exists (gs_lost s). split; [done|]. done.
Qed.

Definition demo_stream_msg (n : Z) : Message := mkMessage "" "orders" n (bytes_of_string "hi") ∅ "k" 0 n 0.

Definition demo_gw_stream : list gw_stream_event :=
  [GsMessage (demo_stream_msg 1); GsMessage (demo_stream_msg 2); GsForward true;
   GsText (print (JObj (put "commit" (JObj (put "partition" (JNum 0) ++ put "offset" (JNum 1)))))); GsText (bytes_of_string "nonsense")].

Lemma gateway_stream_faithful_witness :
  ∃ s, gw_stream_run NewStream demo_gw_stream = Some s ∧ gs_commits s = [(0, 1)] ∧
    (unmarshal_with Pushed_of <$> gs_out s) = [Some (mkPushed 1 0 "k" (bytes_of_string "hi") 1)].
Proof.
  assert (∃ s, gw_stream_run NewStream demo_gw_stream = Some s ∧ gs_commits s = [(0, 1)] ∧
            gs_sent s = [demo_stream_msg 1] ∧ gs_got s = [demo_stream_msg 1; demo_stream_msg 2]) as (s & Hs & Hc & Hsent & Hg)
    by (eexists; split; [vm_compute; reflexivity|]; split; [vm_compute; reflexivity|split; vm_compute; reflexivity]).
  exists s. split; [exact Hs|]. split; [exact Hc|].
  destruct (gateway_stream_faithful demo_gw_stream s Hs) as (Ho & _).
  - rewrite Hg. repeat constructor; cbn; try lia; try (by vm_compute); apply map_Forall_empty.
  - rewrite Ho, Hsent. vm_compute. reflexivity.
Defined.

(** The reader goes on after the writer has returned: a commit frame that
    comes after the stream ended is still committed. *)
Lemma commit_after_end :
  ∃ s, gw_stream_run NewStream
    [GsMessage (demo_stream_msg 1); GsForward false;
     GsText (print (JObj (put "commit" (JObj (put "partition" (JNum 0) ++ put "offset" (JNum 7))))))] = Some s ∧
    gs_writer s = false ∧ gs_commits s = [(0, 7)].
Proof. eexists. split; [vm_compute; reflexivity|]. split; vm_compute; reflexivity. Qed.
