(* ===== verification/Logging.v ===== *)
(** * Levelled logging: [internal/logging/logger.go]

    The loggers live in a heap, a list that grows: a child shares the writer
    of its parent and holds a handler of its own.  What a handler is given is
    a record; its line of JSON, with the time, is [log/slog]'s. *)

From S2P Require Import Prelude GoLib StringsLib.

Local Open Scope Z_scope.

(** The levels of [log/slog]. *)
Definition LevelDebug : Z := - 4.
Definition LevelInfo : Z := 0.
Definition LevelWarn : Z := 4.
Definition LevelError : Z := 8.

Inductive attr_value :=
| AString (s : string)
| AInt (z : Z).

Definition attr : Type := string * attr_value.

Record Logger := mkLogger {
  lg_level : Z;
  lg_attrs : list attr;
}.

Record log_record := mkLogRecord {
  lr_level : Z;
  lr_msg : string;
  lr_attrs : list attr;
}.

(** The loggers made so far and the records written. *)
Record Logs := mkLogs {
  ls_loggers : list Logger;
  ls_written : list log_record;
}.

Section Logging.
(** [unicode.ToLower] beyond ASCII. *)
Context (unicode_lower : bytes → bytes).

Definition parseLevel (s : string) : Z :=
  let s := string_of_bytes (ToLower unicode_lower (bytes_of_string s)) in
  if bool_decide (s = "debug"%string) then LevelDebug
  else if bool_decide (s = "warn"%string) then LevelWarn
  else if bool_decide (s = "error"%string) then LevelError
  else LevelInfo.

Definition New (level : string) (l : Logs) : Logs * nat :=
  (mkLogs (ls_loggers l ++ [mkLogger (parseLevel level) []]) (ls_written l), length (ls_loggers l)).

(** [With] and [WithFields]; the order of the fields of a map is given. *)
Definition With (a : nat) (args : list attr) (l : Logs) : Logs :=
  match ls_loggers l !! a with
  | Some lg => mkLogs (ls_loggers l ++ [mkLogger (lg_level lg) (lg_attrs lg ++ args)]) (ls_written l)
  | None => l
  end.

(** A new handler on the writer, without the attributes of the old one. *)
Definition SetLevel (a : nat) (level : string) (l : Logs) : Logs :=
  mkLogs (alter (λ _, mkLogger (parseLevel level) []) a (ls_loggers l)) (ls_written l).

Definition log_at (level : Z) (a : nat) (msg : string) (args : list attr) (l : Logs) : Logs :=
  match ls_loggers l !! a with
  | Some lg =>
      if lg_level lg <=? level then mkLogs (ls_loggers l) (ls_written l ++ [mkLogRecord level msg (lg_attrs lg ++ args)]) else l
  | None => l
  end.

Definition Debug := log_at LevelDebug.
Definition Info := log_at LevelInfo.
Definition Warn := log_at LevelWarn.
Definition Log_Error := log_at LevelError.

Definition Request (a : nat) (remoteAddr command : string) (bytesRead : Z) : Logs → Logs :=
  Info a "request" [("remote", AString remoteAddr); ("command", AString command); ("bytes", AInt bytesRead)]%string.

Definition Replication (a : nat) (event nodeID : string) (lag : Z) : Logs → Logs :=
  Info a "replication" [("event", AString event); ("node_id", AString nodeID); ("lag_bytes", AInt lag)]%string.

Definition Log_Consumer (a : nat) (event group topic : string) (partition offset : Z) : Logs → Logs :=
  Info a "consumer" [("event", AString event); ("group", AString group); ("topic", AString topic);
                     ("partition", AInt partition); ("offset", AInt offset)]%string.

(** ** What is written *)

Inductive log_event :=
| LogNew (level : string)
| LogWith (a : nat) (args : list attr)
| LogSetLevel (a : nat) (level : string)
| LogAt (level : Z) (a : nat) (msg : string) (args : list attr).

Definition log_step (l : Logs) (e : log_event) : Logs :=
  match e with
  | LogNew level => (New level l).1
  | LogWith a args => With a args l
  | LogSetLevel a level => SetLevel a level l
  | LogAt level a msg args => log_at level a msg args l
  end.

(** The level a logger was last set to: at its birth, from its parent or by
    the last [SetLevel]; [None] before it exists. *)
Definition last_level (es : list log_event) (a : nat) : option Z :=
  lg_level <$> ls_loggers (foldl log_step (mkLogs [] []) es) !! a.

Lemma last_level_set es a level b :
  last_level (es ++ [LogSetLevel a level]) b =
    if bool_decide (a = b) then (λ _, parseLevel level) <$> last_level es a else last_level es b.
Proof.
  unfold last_level. rewrite foldl_app. cbn. case_bool_decide as Hab.
  - subst b. rewrite list_lookup_alter_eq. by destruct (_ !! a).
  - by rewrite list_lookup_alter_ne.
Qed.

(** After [SetLevel] a logger writes exactly the calls at that level or above,
    and every other logger, its own children included, is as before. *)
Lemma set_level_takes_effect l a level lvl b msg args lg :
  ls_loggers l !! b = Some lg →
  ls_written (log_at lvl b msg args (SetLevel a level l)) =
    ls_written l ++
    (if bool_decide (a = b) then if parseLevel level <=? lvl then [mkLogRecord lvl msg args] else []
     else if lg_level lg <=? lvl then [mkLogRecord lvl msg (lg_attrs lg ++ args)] else []).
Proof.
  intros Hb. unfold log_at, SetLevel. cbn [ls_loggers]. case_bool_decide as Hab.
  - subst b. rewrite list_lookup_alter_eq, Hb. cbn [fmap option_fmap option_map lg_level lg_attrs app].
    destruct (parseLevel level <=? lvl); cbn; [done|by rewrite app_nil_r].
  - rewrite list_lookup_alter_ne, Hb by done. destruct (lg_level lg <=? lvl); cbn; [done|by rewrite app_nil_r].
Qed.

(** A level that is none of the four reads as [info]: setting it is no error
    and raises or lowers the level. *)
Lemma unknown_level_is_info : parseLevel "verbose" = LevelInfo.
Proof. by vm_compute. Qed.

(** [SetLevel] on a child drops the attributes it was made for. *)
Lemma set_level_drops_fields a args level l lg :
  ls_loggers l !! a = Some lg →
  ls_loggers (SetLevel (length (ls_loggers l)) level (With a args l)) !! length (ls_loggers l) = Some (mkLogger (parseLevel level) []).
Proof.
  intros Ha. unfold With, SetLevel. rewrite Ha. cbn [ls_loggers]. rewrite list_lookup_alter_eq, list_lookup_middle by done. done.
Qed.

End Logging.
