(* ===== verification/Tracing.v ===== *)
(** * Spans: [internal/tracing] and [GET /traces] of [internal/broker/http_metrics.go]

    The spans live in a heap, a list that grows: the tracer, the handlers and
    the store of finished spans hold the same span, so what a handler writes
    to a span after its end is seen by the store.  Random identifiers and the
    clock are arguments. *)

From S2P Require Import Prelude GoLib Ring Json Types.

Local Open Scope Z_scope.

Definition StatusOK : Z := 0.
Definition StatusError : Z := 1.

(** [sp_EndTime] is [None] while the time is zero. *)
Record Span := mkSpan {
  sp_TraceID : bytes;
  sp_SpanID : bytes;
  sp_ParentID : bytes;
  sp_Name : string;
  sp_StartTime : Z;
  sp_EndTime : option Z;
  sp_Attributes : gmap string string;
  sp_Status : Z;
  sp_statusMsg : string;
  sp_ended : bool;
}.

Definition Span_End (now : Z) (sp : Span) : Span :=
  mkSpan (sp_TraceID sp) (sp_SpanID sp) (sp_ParentID sp) (sp_Name sp) (sp_StartTime sp) (Some now) (sp_Attributes sp)
    (sp_Status sp) (sp_statusMsg sp) true.

Definition Span_SetStatus (status : Z) (msg : string) (sp : Span) : Span :=
  mkSpan (sp_TraceID sp) (sp_SpanID sp) (sp_ParentID sp) (sp_Name sp) (sp_StartTime sp) (sp_EndTime sp) (sp_Attributes sp)
    status msg (sp_ended sp).

Definition Span_AddAttr (key value : string) (sp : Span) : Span :=
  mkSpan (sp_TraceID sp) (sp_SpanID sp) (sp_ParentID sp) (sp_Name sp) (sp_StartTime sp) (sp_EndTime sp)
    (<[key := value]> (sp_Attributes sp)) (sp_Status sp) (sp_statusMsg sp) (sp_ended sp).

(** ** The store of finished spans *)

Definition NewSpanStore (capacity : Z) : RingBuffer nat :=
  let capacity := if capacity <=? 0 then 1 else capacity in
  mkRingBuffer (replicate (Z.to_nat capacity) O) capacity 0 0.

(** ** The tracer *)

Record Tracing := mkTracing {
  tr_spans : list Span;
  tr_store : RingBuffer nat;
}.

Definition NewTracing : Tracing := mkTracing [] (NewSpanStore 1000).

(** The attributes come as a flat list of keys and values; [None] is the panic
    on an odd one. *)
Fixpoint attr_pairs (attrs : list string) : option (gmap string string) :=
  match attrs with
  | [] => Some ∅
  | [_] => None
  | k :: v :: attrs => m ← attr_pairs attrs; Some (match m !! k with Some _ => m | None => <[k := v]> m end)
  end.

Definition no_id (n : nat) : bytes := replicate n Byte.x00.

(** [parent] is the span of the context; [ids] the random identifiers of the
    span and, for a root, of the trace. *)
Definition Tracer_Start (ids : bytes * bytes) (now : Z) (parent : option nat) (name : string) (attrs : list string) (t : Tracing) :
    option (Tracing * nat) :=
  m ← attr_pairs attrs;
  let '(trace, parentID) :=
    match parent ≫= (λ a, tr_spans t !! a) with
    | Some p => (sp_TraceID p, sp_SpanID p)
    | None => (ids.2, no_id 8)
    end in
  Some (mkTracing (tr_spans t ++ [mkSpan trace ids.1 parentID name now None m StatusOK EmptyString false]) (tr_store t),
        length (tr_spans t)).

(** The exporter of the broker adds the span to the store. *)
Definition Tracer_End (now : Z) (a : nat) (t : Tracing) : Tracing :=
  match tr_spans t !! a with
  | Some sp =>
      if sp_ended sp then t
      else mkTracing (alter (Span_End now) a (tr_spans t)) (RingBuffer_Add (tr_store t) a)
  | None => t
  end.

Inductive trace_event :=
| EvStart (ids : bytes * bytes) (now : Z) (parent : option nat) (name : string) (attrs : list string)
| EvSetStatus (a : nat) (status : Z) (msg : string)
| EvAddAttr (a : nat) (key value : string)
| EvEnd (now : Z) (a : nat).

(** A panicking [Start] makes no span. *)
Definition trace_step (t : Tracing) (e : trace_event) : Tracing :=
  match e with
  | EvStart ids now parent name attrs =>
      match Tracer_Start ids now parent name attrs t with Some (t, _) => t | None => t end
  | EvSetStatus a status msg => mkTracing (alter (Span_SetStatus status msg) a (tr_spans t)) (tr_store t)
  | EvAddAttr a key value => mkTracing (alter (Span_AddAttr key value) a (tr_spans t)) (tr_store t)
  | EvEnd now a => Tracer_End now a t
  end.

Definition trace_run (es : list trace_event) : Tracing := foldl trace_step NewTracing es.

(** ** Export *)

Definition Export (sp : Span) : bytes :=
  print (JObj (
    put "trace_id" (JStr (hex_of (sp_TraceID sp))) ++
    put "span_id" (JStr (hex_of (sp_SpanID sp))) ++
    put_omit (bool_decide (sp_ParentID sp = no_id 8)) "parent_id" (JStr (hex_of (sp_ParentID sp))) ++
    put "name" (jstr (sp_Name sp)) ++
    put "start_us" (JNum (sp_StartTime sp / 1000)) ++
    put "duration_us" (JNum (match sp_EndTime sp with Some e => Z.quot (time_sub e (sp_StartTime sp)) 1000 | None => 0 end)) ++
    put_omit (bool_decide (sp_Attributes sp = ∅)) "attrs" (jsmap (sp_Attributes sp)) ++
    put "status" (JNum (sp_Status sp)))) ++ [Byte.x0a].

Definition httpTraces (t : Tracing) : bytes :=
  mjoin ((λ a, match tr_spans t !! a with Some sp => Export sp | None => [] end) <$> RingBuffer_Snapshot O (tr_store t)).

(** ** What the store holds *)

(** The spans ended for the first time by an event. *)
Definition ends (t : Tracing) (e : trace_event) : list nat :=
  match e with
  | EvEnd _ a => match tr_spans t !! a with Some sp => if sp_ended sp then [] else [a] | None => [] end
  | _ => []
  end.

(** The spans of a run in the order in which they ended. *)
Fixpoint end_order (t : Tracing) (es : list trace_event) : list nat :=
  match es with
  | [] => []
  | e :: es => ends t e ++ end_order (trace_step t e) es
  end.

Record tracing_wf (t : Tracing) (done : list nat) : Prop := mkTracingWf {
  tw_ring : ring_rep (tr_store t) done;
  tw_cap : rb_capacity (tr_store t) = 1000;
  tw_nodup : NoDup done;
  tw_ended : ∀ a, a ∈ done ↔ ∃ sp, tr_spans t !! a = Some sp ∧ sp_ended sp = true;
  tw_time : ∀ a sp, tr_spans t !! a = Some sp → sp_ended sp = bool_decide (is_Some (sp_EndTime sp));
  tw_tree : ∀ a sp, tr_spans t !! a = Some sp →
    sp_ParentID sp = no_id 8 ∨
    ∃ b p, (b < a)%nat ∧ tr_spans t !! b = Some p ∧ sp_ParentID sp = sp_SpanID p ∧ sp_TraceID sp = sp_TraceID p;
}.

(** A change of a span that keeps its identifiers and its end. *)
Lemma alter_wf (f : Span → Span) a t done :
  (∀ sp, sp_ended (f sp) = sp_ended sp ∧ sp_EndTime (f sp) = sp_EndTime sp ∧ sp_TraceID (f sp) = sp_TraceID sp ∧
         sp_SpanID (f sp) = sp_SpanID sp ∧ sp_ParentID (f sp) = sp_ParentID sp) →
  tracing_wf t done → tracing_wf (mkTracing (alter f a (tr_spans t)) (tr_store t)) done.
Proof.
  intros Hf [Hr Hc Hn He Ht Hp].
  assert (∀ b sp, alter f a (tr_spans t) !! b = Some sp →
            ∃ sp0, tr_spans t !! b = Some sp0 ∧ sp_ended sp = sp_ended sp0 ∧ sp_EndTime sp = sp_EndTime sp0 ∧
                   sp_TraceID sp = sp_TraceID sp0 ∧ sp_SpanID sp = sp_SpanID sp0 ∧ sp_ParentID sp = sp_ParentID sp0) as Hb.
  { intros b sp Hsp. destruct (decide (a = b)) as [->|Hne].
    - rewrite list_lookup_alter_eq in Hsp. destruct (tr_spans t !! b) as [sp0|]; [|done]. injection Hsp as <-. exists sp0.
      destruct (Hf sp0) as (? & ? & ? & ? & ?). done.
    - rewrite list_lookup_alter_ne in Hsp by done. by exists sp. }
  assert (∀ b sp, tr_spans t !! b = Some sp → ∃ sp', alter f a (tr_spans t) !! b = Some sp') as Hx.
  { intros b sp Hsp. destruct (decide (a = b)) as [->|Hne]; [rewrite list_lookup_alter_eq, Hsp|rewrite list_lookup_alter_ne by done];
      eauto. }
  split; cbn [tr_spans tr_store]; try done.
  - intros b. rewrite He. split; intros (sp & Hsp & Hsp').
    + destruct (Hx b sp Hsp) as [sp' Hl]. exists sp'. split; [done|]. destruct (Hb b sp' Hl) as (sp0 & Hl0 & -> & _). by simplify_eq.
    + destruct (Hb b sp Hsp) as (sp0 & Hl0 & Heq & _). exists sp0. by rewrite <- Heq.
  - intros b sp Hsp. destruct (Hb b sp Hsp) as (sp0 & Hl0 & -> & -> & _). by eapply Ht.
  - intros b sp Hsp. destruct (Hb b sp Hsp) as (sp0 & Hl0 & _ & _ & -> & _ & ->).
    destruct (Hp b sp0 Hl0) as [?|(c & p & Hc' & Hl & Hpi & Hti)]; [by left|right].
    destruct (Hx c p Hl) as [p' Hp']. exists c, p'. destruct (Hb c p' Hp') as (p0 & Hp0 & _ & _ & -> & -> & _). by simplify_eq.
Qed.

Lemma trace_step_wf t done e : tracing_wf t done → tracing_wf (trace_step t e) (done ++ ends t e).
Proof.
  intros Hw. destruct e as [ids now parent name attrs|a status msg|a key value|now a].
  - cbn [ends trace_step]. rewrite app_nil_r. unfold Tracer_Start. destruct (attr_pairs attrs) as [m|]; [|done]. cbn [mbind option_bind].
    destruct Hw as [Hr Hc Hn He Ht Hp].
    set (tp := match (parent ≫= λ a, tr_spans t !! a) with Some p => (sp_TraceID p, sp_SpanID p) | None => (ids.2, no_id 8) end).
    destruct tp as [trace parentID] eqn:Etp. subst tp. split; cbn [tr_spans tr_store]; try done.
    + intros b. rewrite He. split; intros (sp & Hsp & Hs).
      * exists sp. split; [by apply lookup_app_l_Some|done].
      * apply lookup_app_Some in Hsp as [Hsp|[_ Hsp]]; [by exists sp|]. apply list_lookup_singleton_Some in Hsp as [_ <-]. done.
    + intros b sp Hsp. apply lookup_app_Some in Hsp as [Hsp|[_ Hsp]]; [by eapply Ht|].
      apply list_lookup_singleton_Some in Hsp as [_ <-]. done.
    + intros b sp Hsp. apply lookup_app_Some in Hsp as [Hsp|[Hl Hsp]].
      * destruct (Hp b sp Hsp) as [?|(c & p & ? & ? & ? & ?)]; [by left|right]. exists c, p. split; [done|].
        split; [by apply lookup_app_l_Some|done].
      * apply list_lookup_singleton_Some in Hsp as [Hz <-]. cbn [sp_ParentID sp_TraceID].
        destruct parent as [pa|]; cbn [mbind option_bind] in Etp; [|left; congruence].
        destruct (tr_spans t !! pa) as [p|] eqn:Ep; [|left; congruence]. right. exists pa, p.
        pose proof (lookup_lt_Some _ _ _ Ep). split; [lia|]. split; [by apply lookup_app_l_Some|]. split; congruence.
  - cbn [ends trace_step]. rewrite app_nil_r. by apply alter_wf.
  - cbn [ends trace_step]. rewrite app_nil_r. by apply alter_wf.
  - cbn [ends trace_step]. unfold Tracer_End. destruct (tr_spans t !! a) as [sp|] eqn:Ea; [|by rewrite app_nil_r].
    destruct (sp_ended sp) eqn:Ee; [by rewrite app_nil_r|]. destruct Hw as [Hr Hc Hn He Ht Hp].
    assert (a ∉ done) as Hna by (intros Hin; apply He in Hin as (sp' & ? & ?); congruence).
    split; cbn [tr_spans tr_store]; try done.
    + by apply RingBuffer_Add_rep.
    + apply NoDup_app. split; [done|]. split; [set_solver|apply NoDup_singleton].
    + intros b. rewrite elem_of_app, He, list_elem_of_singleton. destruct (decide (a = b)) as [->|Hne].
      * rewrite list_lookup_alter_eq, Ea. cbn. split; [intros _; by eexists|intros _; by right].
      * rewrite list_lookup_alter_ne by done. split; [intros [?|?]; [done|congruence]|by left].
    + intros b sp' Hsp. destruct (decide (a = b)) as [->|Hne].
      * rewrite list_lookup_alter_eq, Ea in Hsp. injection Hsp as <-. done.
      * rewrite list_lookup_alter_ne in Hsp by done. by eapply Ht.
    + intros b sp' Hsp.
      assert (∃ sp0, tr_spans t !! b = Some sp0 ∧ sp_ParentID sp' = sp_ParentID sp0 ∧ sp_TraceID sp' = sp_TraceID sp0) as (sp0 & Hl0 & -> & ->).
      { destruct (decide (a = b)) as [->|Hne].
        - rewrite list_lookup_alter_eq, Ea in Hsp. injection Hsp as <-. by exists sp.
        - rewrite list_lookup_alter_ne in Hsp by done. by exists sp'. }
      destruct (Hp b sp0 Hl0) as [?|(c & p & Hcb & Hl & Hpi & Hti)]; [by left|right]. exists c.
      destruct (decide (a = c)) as [->|Hne].
      * exists (Span_End now p). rewrite list_lookup_alter_eq, Hl. done.
      * exists p. rewrite list_lookup_alter_ne by done. done.
Qed.

Lemma trace_run_wf t done es : tracing_wf t done → tracing_wf (foldl trace_step t es) (done ++ end_order t es).
Proof.
  revert t done. induction es as [|e es IH]; intros t done Hw; cbn [foldl end_order]; [by rewrite app_nil_r|].
  rewrite app_assoc. by apply IH, trace_step_wf.
Qed.

Lemma NewTracing_wf : tracing_wf NewTracing [].
Proof.
  split; cbn [NewTracing tr_spans tr_store]; try done.
  - by apply NewRingBuffer_rep with (dummy := O) (capacity := 1000).
  - apply NoDup_nil_2.
  - intros a. split; [by intros ?%elem_of_nil|]. intros (sp & Hsp & _). by rewrite lookup_nil in Hsp.
Qed.

(** [/traces] shows the last spans that ended, at most a thousand, the newest
    first and each once: an [End] after the first one does nothing.  Every
    span is a root or belongs to the trace of a span made before it, which is
    its parent. *)
Theorem traces_exact es :
  let t := trace_run es in
  let done := end_order NewTracing es in
  RingBuffer_Snapshot O (tr_store t) = take 1000 (reverse done) ∧ NoDup done ∧
  (∀ a, a ∈ done ↔ ∃ sp, tr_spans t !! a = Some sp ∧ is_Some (sp_EndTime sp)) ∧
  (∀ a sp, tr_spans t !! a = Some sp →
    sp_ParentID sp = no_id 8 ∨
    ∃ b p, (b < a)%nat ∧ tr_spans t !! b = Some p ∧ sp_ParentID sp = sp_SpanID p ∧ sp_TraceID sp = sp_TraceID p).
Proof.
  intros t done. destruct (trace_run_wf NewTracing [] es NewTracing_wf) as [Hr Hc Hn He Ht Hp]. 
  change (foldl trace_step NewTracing es) with t in *. change ([] ++ end_order NewTracing es) with done in *.
  split; [|split; [done|split; [|done]]].
  - rewrite (Snapshot_rep O _ _ Hr), Hc. done.
  - intros a. rewrite He. split; intros (sp & Hsp & Hs); exists sp; (split; [done|]); pose proof (Ht a sp Hsp) as Hb.
    + rewrite Hs in Hb. symmetry in Hb. by apply bool_decide_eq_true in Hb.
    + rewrite Hb. by apply bool_decide_eq_true.
Qed.

(** A status set after the end is shown all the same. *)
Lemma status_after_end_shown :
  let es := [EvStart (replicate 8 Byte.x01, replicate 16 Byte.x02) 0 None "broker.publish" []; EvEnd 1000 0] in
  ∃ sp sp', tr_spans (trace_run es) !! O = Some sp ∧ sp_Status sp = StatusOK ∧
            tr_spans (trace_run (es ++ [EvSetStatus 0 StatusError "late"])) !! O = Some sp' ∧ sp_Status sp' = StatusError ∧
            httpTraces (trace_run es) ≠ httpTraces (trace_run (es ++ [EvSetStatus 0 StatusError "late"])).
Proof. do 2 eexists. split_and!; [by vm_compute..|]. intros H. vm_compute in H. discriminate H. Qed.
