(* ===== verification/Server.v ===== *)
(** * The TCP server: [internal/networking/server.go]

    The accept loop, the goroutines of the connections, draining and closing,
    interleaved in any order.  The loop reads the counter and the draining flag
    before it tracks the connection it accepted, and counts it after that; a
    connection that ends is closed, untracked and counted down; the goroutine of
    [Start] closes the tracked connections once.  A connection is a number; [sv_open]
    are the sockets not closed yet. *)

From S2P Require Import Prelude GoLib Config.

Local Open Scope Z_scope.

Definition accept_backoff : Z := 5 * 1000000.

(** Where the accept loop stands: at its top, waiting in [Accept], between the
    checks and [trackConn] with a connection, between that and the counter, or
    returned. *)
Inductive loop_stage :=
| LoopTop
| LoopWait
| LoopHas (c : nat)
| LoopTracked (c : nat)
| LoopGone.

#[export] Instance loop_stage_eq_dec : EqDecision loop_stage.
Proof. solve_decision. Defined.

(** [sv_leaving] are the connections untracked and not yet counted down. *)
Record Server := mkServer {
  sv_max : Z;
  sv_connCount : Z;
  sv_draining : bool;
  sv_stopC : bool;
  sv_stopped : bool;
  sv_conns : gset nat;
  sv_leaving : gset nat;
  sv_open : gset nat;
  sv_loop : loop_stage;
  sv_backoff : Z;
  sv_next : nat;
}.

Definition NewServer (cfg : NetworkConfig) : Server :=
  mkServer (nw_MaxConnections cfg) 0 false false false ∅ ∅ ∅ LoopTop accept_backoff 0.

Definition sv_with (s : Server) (l : loop_stage) (backoff : Z) : Server :=
  mkServer (sv_max s) (sv_connCount s) (sv_draining s) (sv_stopC s) (sv_stopped s) (sv_conns s) (sv_leaving s) (sv_open s) l backoff
    (sv_next s).

(** What [Accept] returns. *)
Inductive accept_result :=
| Accepted
| AcceptTimeout
| AcceptError.

(** The look at [stopC] before [Accept]. *)
Definition poll_turn (s : Server) : Server :=
  sv_with s (if sv_stopC s then LoopGone else LoopWait) (sv_backoff s).

(** From the return of [Accept] to the next place where the loop may wait;
    [stopC] is looked at again only after an error. *)
Definition accept_turn (r : accept_result) (s : Server) : Server :=
  match r with
  | AcceptTimeout =>
      if sv_stopC s then sv_with s LoopGone (sv_backoff s)
      else sv_with s LoopTop (if sv_backoff s <? 1000000000 then sv_backoff s * 2 else sv_backoff s)
  | AcceptError => sv_with s LoopGone (sv_backoff s)
  | Accepted =>
      if sv_draining s then sv_with s LoopTop accept_backoff
      else if sv_max s <=? sv_connCount s then sv_with s LoopTop accept_backoff
      else
        mkServer (sv_max s) (sv_connCount s) (sv_draining s) (sv_stopC s) (sv_stopped s) (sv_conns s)
          (sv_leaving s) (sv_open s ∪ {[ sv_next s ]}) (LoopHas (sv_next s)) accept_backoff (S (sv_next s))
  end.

Definition trackConn (s : Server) (c : nat) : Server :=
  mkServer (sv_max s) (sv_connCount s) (sv_draining s) (sv_stopC s) (sv_stopped s) (sv_conns s ∪ {[ c ]}) (sv_leaving s)
    (sv_open s) (LoopTracked c) (sv_backoff s) (sv_next s).

(** The counter, and the goroutine is started. *)
Definition count_turn (s : Server) : Server :=
  mkServer (sv_max s) (sv_connCount s + 1) (sv_draining s) (sv_stopC s) (sv_stopped s) (sv_conns s) (sv_leaving s)
    (sv_open s) LoopTop (sv_backoff s) (sv_next s).

(** The goroutine of connection [c] runs: it is tracked, and no longer the loop's. *)
Definition handled_by (s : Server) (c : nat) : bool :=
  bool_decide (c ∈ sv_conns s) && negb (bool_decide (sv_loop s = LoopTracked c)).

(** The deferred function of a connection's goroutine, in three steps. *)
Definition close_turn (s : Server) (c : nat) : Server :=
  mkServer (sv_max s) (sv_connCount s) (sv_draining s) (sv_stopC s) (sv_stopped s) (sv_conns s) (sv_leaving s)
    (sv_open s ∖ {[ c ]}) (sv_loop s) (sv_backoff s) (sv_next s).

Definition untrackConn (s : Server) (c : nat) : Server :=
  mkServer (sv_max s) (sv_connCount s) (sv_draining s) (sv_stopC s) (sv_stopped s) (sv_conns s ∖ {[ c ]})
    (sv_leaving s ∪ {[ c ]}) (sv_open s) (sv_loop s) (sv_backoff s) (sv_next s).

Definition uncount_turn (s : Server) (c : nat) : Server :=
  mkServer (sv_max s) (sv_connCount s - 1) (sv_draining s) (sv_stopC s) (sv_stopped s) (sv_conns s)
    (sv_leaving s ∖ {[ c ]}) (sv_open s) (sv_loop s) (sv_backoff s) (sv_next s).

Definition SetDraining (s : Server) (v : bool) : Server :=
  mkServer (sv_max s) (sv_connCount s) v (sv_stopC s) (sv_stopped s) (sv_conns s) (sv_leaving s) (sv_open s) (sv_loop s) (sv_backoff s)
    (sv_next s).

Definition Server_Close (s : Server) : Server :=
  mkServer (sv_max s) (sv_connCount s) (sv_draining s) true (sv_stopped s) (sv_conns s) (sv_leaving s) (sv_open s) (sv_loop s)
    (sv_backoff s) (sv_next s).

(** The end of [Start]: it closes the connections tracked by now. *)
Definition start_returns (s : Server) : Server :=
  mkServer (sv_max s) (sv_connCount s) (sv_draining s) (sv_stopC s) true (sv_conns s) (sv_leaving s) (sv_open s ∖ sv_conns s) (sv_loop s)
    (sv_backoff s) (sv_next s).

Inductive sv_event :=
| SvPoll
| SvAccept (r : accept_result)
| SvTrack
| SvCount
| SvConnClose (c : nat)
| SvUntrack (c : nat)
| SvUncount (c : nat)
| SvDrain (v : bool)
| SvClose
| SvStartReturns.

(** A goroutine untracks its connection once it is closed. *)
Definition sv_step (s : Server) (e : sv_event) : Server :=
  match e with
  | SvPoll => match sv_loop s with LoopTop => poll_turn s | _ => s end
  | SvAccept r => match sv_loop s with LoopWait => accept_turn r s | _ => s end
  | SvTrack => match sv_loop s with LoopHas c => trackConn s c | _ => s end
  | SvCount => match sv_loop s with LoopTracked c => count_turn s | _ => s end
  | SvConnClose c => if handled_by s c then close_turn s c else s
  | SvUntrack c => if handled_by s c && negb (bool_decide (c ∈ sv_open s)) then untrackConn s c else s
  | SvUncount c => if bool_decide (c ∈ sv_leaving s) then uncount_turn s c else s
  | SvDrain v => SetDraining s v
  | SvClose => Server_Close s
  | SvStartReturns => if sv_stopC s && negb (sv_stopped s) then start_returns s else s
  end.

Definition sv_run (cfg : NetworkConfig) (es : list sv_event) : Server := foldl sv_step (NewServer cfg) es.

(** ** The limit *)

(** The connection between the checks and [trackConn]. *)
Definition in_hand (s : Server) : gset nat := match sv_loop s with LoopHas c => {[ c ]} | _ => ∅ end.

(** The doublings from five milliseconds. *)
Definition backoff_ok (b : Z) : Prop := b ∈ (λ k, accept_backoff * 2 ^ k) <$> seqZ 0 9.

Lemma backoff_first : backoff_ok accept_backoff.
Proof. unfold backoff_ok. cbn. set_solver. Qed.

Lemma backoff_next b : backoff_ok b → backoff_ok (if b <? 1000000000 then b * 2 else b).
Proof.
  intros Hb. unfold backoff_ok in *. cbn in Hb.
  repeat (apply elem_of_cons in Hb as [->|Hb]; [apply (bool_decide_unpack _); vm_compute; exact I|]).
  by apply elem_of_nil in Hb.
Qed.

Lemma backoff_bound b : backoff_ok b → b <= 1280000000.
Proof.
  intros Hb. unfold backoff_ok in *. cbn in Hb.
  repeat (apply elem_of_cons in Hb as [->|Hb]; [unfold accept_backoff; lia|]). by apply elem_of_nil in Hb.
Qed.

(** A connection tracked but not yet counted. *)
Definition uncounted (s : Server) : Z := match sv_loop s with LoopTracked _ => 1 | _ => 0 end.

Record sv_inv (s : Server) : Prop := mkSvInv {
  si_count : sv_connCount s + uncounted s = Z.of_nat (size (sv_conns s)) + Z.of_nat (size (sv_leaving s));
  si_bound : Z.of_nat (size (sv_conns s ∪ in_hand s)) + Z.of_nat (size (sv_leaving s)) <= Z.max 0 (sv_max s);
  si_fresh : ∀ c, c ∈ sv_conns s ∪ in_hand s ∪ sv_open s ∪ sv_leaving s → (c < sv_next s)%nat;
  si_apart : sv_conns s ## in_hand s;
  si_left : sv_leaving s ## sv_conns s ∪ in_hand s;
  si_open : sv_open s ⊆ sv_conns s ∪ in_hand s;
  si_backoff : backoff_ok (sv_backoff s);
}.

Lemma sv_inv_new cfg : sv_inv (NewServer cfg).
Proof.
  assert (in_hand (NewServer cfg) = ∅) as Hh by done. split; rewrite ?Hh; cbn; try set_solver.
  - rewrite union_empty_l_L, !size_empty. lia.
  - apply backoff_first.
Qed.

(** What the loop does with nothing in its hand. *)
Definition hand_free (l : loop_stage) : bool := match l with LoopHas _ | LoopTracked _ => false | _ => true end.

Lemma sv_with_inv s l b :
  hand_free l = true → hand_free (sv_loop s) = true → backoff_ok b → sv_inv s → sv_inv (sv_with s l b).
Proof.
  intros Hl Ht Hb [I1 I2 I3 I4 I5 I6 I7].
  assert (in_hand (sv_with s l b) = ∅ ∧ in_hand s = ∅ ∧ uncounted (sv_with s l b) = 0 ∧ uncounted s = 0) as (H1 & H2 & H3 & H4).
  { unfold in_hand, uncounted. cbn. by destruct l, (sv_loop s). }
  rewrite H2 in *. rewrite H4 in I1. split; rewrite ?H1, ?H3; cbn; done.
Qed.

Lemma accept_turn_inv r s : sv_loop s = LoopWait → sv_inv s → sv_inv (accept_turn r s).
Proof.
  intros Ht Hi. assert (hand_free (sv_loop s) = true) as Hf by (by rewrite Ht).
  pose proof Hi as [I1 I2 I3 I4 I5 I6 I7]. unfold accept_turn. pose proof (backoff_next _ I7) as Hb2. pose proof backoff_first as Hb1.
  destruct r; [|destruct (sv_stopC s); by apply sv_with_inv|by apply sv_with_inv].
  destruct (sv_draining s); [by apply sv_with_inv|].
  destruct (Z.leb_spec (sv_max s) (sv_connCount s)); [by apply sv_with_inv|].
  assert (in_hand s = ∅ ∧ uncounted s = 0) as [Hh Hu] by (unfold in_hand, uncounted; by rewrite Ht).
  rewrite Hh, Hu, union_empty_r_L in *.
  assert (∀ c, c ∈ sv_conns s ∪ sv_open s ∪ sv_leaving s → c ≠ sv_next s) as Hn.
  { intros c Hc ->. specialize (I3 (sv_next s)). set_solver by lia. }
  split; unfold in_hand, uncounted; cbn; try done.
  - rewrite size_union by (intros c Hc; specialize (Hn c); set_solver). rewrite size_singleton. lia.
  - intros c Hc. destruct (decide (c = sv_next s)) as [->|Hne]; [lia|]. specialize (I3 c). set_solver by lia.
  - intros c Hc. specialize (Hn c). set_solver.
  - intros c Hc. specialize (Hn c). set_solver.
  - set_solver.
Qed.

Lemma track_inv s c : sv_loop s = LoopHas c → sv_inv s → sv_inv (trackConn s c).
Proof.
  intros E [I1 I2 I3 I4 I5 I6 I7]. unfold in_hand, uncounted in *. rewrite E in *.
  split; unfold in_hand, uncounted; cbn; rewrite ?union_empty_r_L; try done; try set_solver.
  rewrite size_union by done. rewrite size_singleton. lia.
Qed.

Lemma count_inv s c : sv_loop s = LoopTracked c → sv_inv s → sv_inv (count_turn s).
Proof.
  intros E [I1 I2 I3 I4 I5 I6 I7]. unfold in_hand, uncounted in *. rewrite E in *.
  split; unfold in_hand, uncounted; cbn; try done. lia.
Qed.

Lemma size_remove (X : gset nat) c : c ∈ X → Z.of_nat (size (X ∖ {[c]})) = Z.of_nat (size X) - 1.
Proof.
  intros Hc. rewrite size_difference by set_solver. rewrite size_singleton.
  assert (size X ≠ 0%nat) as Hz by (intros Hz; apply size_empty_inv in Hz; set_solver). lia.
Qed.

Lemma untrack_inv s c : c ∈ sv_conns s → c ∉ sv_open s → sv_inv s → sv_inv (untrackConn s c).
Proof.
  intros Hc Hno [I1 I2 I3 I4 I5 I6 I7].
  assert (in_hand (untrackConn s c) = in_hand s ∧ uncounted (untrackConn s c) = uncounted s) as [Hh Hu] by done.
  assert (c ∉ sv_leaving s) as Hcl by set_solver.
  split; rewrite ?Hh, ?Hu; cbn; try done.
  - rewrite size_remove by done. rewrite size_union by set_solver. rewrite size_singleton. lia.
  - rewrite (size_union (sv_leaving s)) by set_solver. rewrite size_singleton.
    replace (sv_conns s ∖ {[c]} ∪ in_hand s) with ((sv_conns s ∪ in_hand s) ∖ {[c]}) by set_solver.
    rewrite size_remove by set_solver. lia.
  - intros c' Hc'. apply I3. set_solver.
  - set_solver.
  - set_solver.
  - set_solver.
Qed.

Lemma uncount_inv s c : c ∈ sv_leaving s → sv_inv s → sv_inv (uncount_turn s c).
Proof.
  intros Hc [I1 I2 I3 I4 I5 I6 I7].
  assert (in_hand (uncount_turn s c) = in_hand s ∧ uncounted (uncount_turn s c) = uncounted s) as [Hh Hu] by done.
  split; rewrite ?Hh, ?Hu; cbn; try done.
  - rewrite size_remove by done. lia.
  - rewrite size_remove by done. lia.
  - intros c' Hc'. apply I3. set_solver.
  - set_solver.
Qed.

(** Closing sockets touches nothing else. *)
Lemma fewer_open_inv s s' :
  sv_inv s → sv_open s' ⊆ sv_open s → sv_conns s' = sv_conns s → sv_leaving s' = sv_leaving s →
  sv_loop s' = sv_loop s → sv_connCount s' = sv_connCount s → sv_max s' = sv_max s → sv_next s' = sv_next s →
  sv_backoff s' = sv_backoff s → sv_inv s'.
Proof.
  intros [I1 I2 I3 I4 I5 I6 I7] Ho Hc Hl Hs Hn Hm Hx Hb.
  assert (in_hand s' = in_hand s ∧ uncounted s' = uncounted s) as [H1 H2] by (unfold in_hand, uncounted; by rewrite Hs).
  split; rewrite ?H1, ?H2, ?Hc, ?Hl, ?Hn, ?Hm, ?Hx, ?Hb; try done; set_solver.
Qed.

Lemma handled_by_tracked s c : handled_by s c = true → c ∈ sv_conns s.
Proof. unfold handled_by. by intros [H%bool_decide_eq_true _]%andb_true_iff. Qed.

Lemma sv_step_inv s e : sv_inv s → sv_inv (sv_step s e).
Proof.
  intros Hi. destruct e as [|r| | |c|c|c|v| |]; cbn [sv_step].
  - destruct (sv_loop s) eqn:E; try done. apply sv_with_inv; [by destruct (sv_stopC s)|by rewrite E|apply Hi|done].
  - destruct (sv_loop s) eqn:E; try done. by apply accept_turn_inv.
  - destruct (sv_loop s) eqn:E; try done. by apply track_inv.
  - destruct (sv_loop s) eqn:E; try done. by eapply count_inv.
  - destruct (handled_by s c); [|done]. apply (fewer_open_inv s); [done|cbn; set_solver|done..].
  - destruct (handled_by s c) eqn:E; [|done]. case_bool_decide; [done|]. cbn. apply untrack_inv; [by apply handled_by_tracked|done|done].
  - case_bool_decide; [by apply uncount_inv|done].
  - by apply (fewer_open_inv s).
  - by apply (fewer_open_inv s).
  - destruct (_ && _); [|done]. apply (fewer_open_inv s); [done|cbn; set_solver|done..].
Qed.

Lemma sv_run_inv cfg es : sv_inv (sv_run cfg es).
Proof.
  unfold sv_run. pose proof (sv_inv_new cfg) as H. revert H. generalize (NewServer cfg).
  induction es as [|e es IH]; intros s H; [done|]. cbn. by apply IH, sv_step_inv.
Qed.

Lemma sv_max_const cfg es : sv_max (sv_run cfg es) = nw_MaxConnections cfg.
Proof.
  unfold sv_run. change (nw_MaxConnections cfg) with (sv_max (NewServer cfg)). generalize (NewServer cfg).
  induction es as [|e es IH]; intros s; [done|]. cbn. rewrite IH. destruct e; cbn [sv_step]; unfold accept_turn, poll_turn; repeat case_match; done.
Qed.

(** C37: the server keeps its limit.  In every interleaving of the accept
    loop, the steps in which connections end, draining and closing: the
    connections tracked, the one in the loop's hand and those leaving are at
    most the maximum; the counter is the number of tracked and leaving ones,
    but for one the loop has tracked and not counted yet; every open socket is
    tracked or in hand; and the loop never waits longer than 1.28 seconds after
    a timeout. *)
Theorem server_keeps_limit cfg es :
  let s := sv_run cfg es in
  Z.of_nat (size (sv_conns s ∪ in_hand s)) + Z.of_nat (size (sv_leaving s)) <= Z.max 0 (nw_MaxConnections cfg) ∧
  sv_connCount s + uncounted s = Z.of_nat (size (sv_conns s)) + Z.of_nat (size (sv_leaving s)) ∧
  sv_open s ⊆ sv_conns s ∪ in_hand s ∧ sv_backoff s <= 1280000000.
Proof.
  pose proof (sv_run_inv cfg es) as [I1 I2 I3 I4 I5 I6 I7]. rewrite sv_max_const in I2. cbv zeta.
  split; [done|]. split; [done|]. split; [done|by apply backoff_bound].
Qed.

(** While it drains, the server takes no connection in hand. *)
Lemma draining_accepts_nothing s r c : sv_draining s = true → sv_loop (accept_turn r s) ≠ LoopHas c.
Proof. intros Hd. unfold accept_turn. rewrite Hd. by destruct r, (sv_stopC s). Qed.

(** One error that is no timeout, such as running out of file descriptors,
    ends the loop: the server goes on running and never accepts again. *)
Lemma accept_error_is_final s es :
  sv_loop s = LoopWait → sv_loop (foldl sv_step (sv_step s (SvAccept AcceptError)) es) = LoopGone.
Proof.
  intros Ht. cbn [sv_step]. rewrite Ht. unfold accept_turn.
  assert (sv_loop (sv_with s LoopGone (sv_backoff s)) = LoopGone) as H by done. revert H.
  generalize (sv_with s LoopGone (sv_backoff s)). induction es as [|e es IH]; intros s' H; [done|]. cbn. apply IH.
  destruct e; cbn [sv_step]; rewrite ?H; repeat case_match; done.
Qed.

(** A connection accepted while the server closes is tracked too late to be
    closed: it outlives the server. *)
Lemma late_connection_left_open :
  let cfg := mkNetworkConfig "" 0 10 0 0 0 "" "" 0 false false false 0 None 0 0 in
  let s := sv_run cfg [SvPoll; SvAccept Accepted; SvClose; SvStartReturns; SvTrack; SvCount; SvPoll] in
  sv_stopped s = true ∧ sv_loop s = LoopGone ∧ 0%nat ∈ sv_conns s ∧ 0%nat ∈ sv_open s.
Proof. split_and!; [done|done|by vm_compute|by vm_compute]. Qed.
