(* ===== verification/Lifecycle.v ===== *)
(** * Starting and stopping: [New], [Start] and [Stop] of [internal/broker/broker.go],
    [internal/broker/lifecycle.go] and [cmd/broker]

    What [New] holds when it fails, the order in which [Start] opens the broker
    to clients, and [Stop] interleaved with the requests, the checkpoint loop
    and the connections.  Recovery itself is in [BrokerRecovery]; here a write
    is whether the file it goes to is open. *)

From S2P Require Import Prelude GoLib Json JsonIndent Types Config HotReload.

Local Open Scope Z_scope.

(** ** New *)

(** The files a broker holds. *)
Inductive handle :=
| HMsgWAL
| HOffsetWAL
| HTopicWAL
| HAudit
| HLogs.

#[global] Instance handle_eq_dec : EqDecision handle.
Proof. solve_decision. Defined.

#[global] Instance handle_countable : Countable handle.
Proof.
  refine (inj_countable' (λ h, match h with HMsgWAL => 0 | HOffsetWAL => 1 | HTopicWAL => 2 | HAudit => 3 | HLogs => 4 end)
    (λ n, match n with 0 => HMsgWAL | 1 => HOffsetWAL | 2 => HTopicWAL | 3 => HAudit | _ => HLogs end) _).
  by intros [].
Defined.

Inductive new_err :=
| NoAdminPort
| OpenMessageWAL
| OpenOffsetWAL
| OpenTopicWAL
| NewClusterNode.

(** Which of the calls that can fail succeed. *)
Record new_io := mkNewIo {
  io_msgWAL : bool;
  io_offsetWAL : bool;
  io_topicWAL : bool;
  io_audit : bool;
  io_cluster : bool;
}.

(** The files open when [New] returns, and its error. *)
Definition New (io : new_io) (cfg : Config) : gset handle * result unit new_err :=
  if 65535 <=? nw_Port (cf_Network cfg) then (∅, Error NoAdminPort)
  else if negb (io_msgWAL io) then (∅, Error OpenMessageWAL)
  else
    let open := {[ HMsgWAL ]} in
    if negb (io_offsetWAL io) then (open ∖ {[ HMsgWAL ]}, Error OpenOffsetWAL)
    else
      let open := open ∪ {[ HOffsetWAL ]} in
      if negb (io_topicWAL io) then (open ∖ {[ HOffsetWAL ]} ∖ {[ HMsgWAL ]}, Error OpenTopicWAL)
      else
        let open := open ∪ {[ HTopicWAL ]} in
        let open :=
          if negb (bool_decide (cf_AuditLogFile cfg = EmptyString)) && io_audit io then open ∪ {[ HAudit ]} else open in
        if clc_Enabled (cf_Cluster cfg) && negb (io_cluster io)
        then (open ∖ {[ HTopicWAL ]} ∖ {[ HOffsetWAL ]} ∖ {[ HMsgWAL ]}, Error NewClusterNode)
        else (open ∪ {[ HLogs ]}, Ok tt).

(** The audit file, if [New] has opened it. *)
Definition audit_file (io : new_io) (cfg : Config) : gset handle :=
  if negb (bool_decide (cf_AuditLogFile cfg = EmptyString)) && io_audit io then {[ HAudit ]} else ∅.

(** What a [New] that succeeds holds. *)
Lemma new_opens io cfg open :
  New io cfg = (open, Ok tt) → open = {[ HMsgWAL; HOffsetWAL; HTopicWAL; HLogs ]} ∪ audit_file io cfg.
Proof. unfold New, audit_file. intros H. repeat case_match; simplify_eq; set_solver. Qed.

(** A [New] that fails leaves no log open. *)
Lemma new_releases_logs io cfg open e :
  New io cfg = (open, Error e) → open ⊆ {[ HAudit ]}.
Proof. unfold New. intros H. repeat case_match; simplify_eq; set_solver. Qed.

(** The audit file is what it leaves open: the cluster node is made after it,
    and its failure closes the three logs only. *)
Lemma new_leaks_audit_file cfg :
  cf_AuditLogFile cfg ≠ EmptyString → clc_Enabled (cf_Cluster cfg) = true → nw_Port (cf_Network cfg) < 65535 →
  HAudit ∈ (New (mkNewIo true true true true false) cfg).1.
Proof.
  intros Ha Hc Hp. unfold New. rewrite (proj2 (Z.leb_gt _ _)) by done. cbn. rewrite Hc, bool_decide_eq_false_2 by done. cbn. set_solver.
Qed.

(** Settings [validate] accepts never meet the guard. *)
Lemma new_guard_unreached io cfg : validate cfg = None → (New io cfg).2 ≠ Error NoAdminPort.
Proof.
  unfold validate. destruct (_ || _) eqn:E; [done|]. intros _. apply orb_false_elim in E as [_ E]. apply Z.ltb_ge in E.
  unfold New. rewrite (proj2 (Z.leb_gt _ _)) by lia. repeat case_match; by intros [=].
Qed.

(** ** Start *)

Inductive start_err :=
| ReplayOffsets
| ReplayTopics
| ListenHTTP
| ListenTCP.

Inductive start_action :=
| DoReplayOffsets
| DoReplayTopics
| DoWirePartitions
| DoReplayMessages
| DoTruncate
| DoStartReplication
| DoStartCluster
| DoListenHTTP
| DoServeHTTP
| DoRunGateway
| DoReady
| DoServeTCP.

Record start_io := mkStartIo {
  io_replayOffsets : bool;
  io_replayTopics : bool;
  io_listenHTTP : bool;
  io_listenTCP : bool;
}.

(** What [Start] has done when it blocks or returns. *)
Definition Start (io : start_io) (cluster gateway : bool) : list start_action * option start_err :=
  if negb (io_replayOffsets io) then ([DoReplayOffsets], Some ReplayOffsets)
  else if negb (io_replayTopics io) then ([DoReplayOffsets; DoReplayTopics], Some ReplayTopics)
  else
    let done := [DoReplayOffsets; DoReplayTopics; DoWirePartitions; DoReplayMessages; DoTruncate; DoStartReplication] in
    let done := if cluster then done ++ [DoStartCluster] else done in
    if negb (io_listenHTTP io) then (done ++ [DoListenHTTP], Some ListenHTTP)
    else
      let done := done ++ [DoListenHTTP; DoServeHTTP] in
      let done := if gateway then done ++ [DoRunGateway] else done in
      let done := done ++ [DoReady; DoServeTCP] in
      (done, if io_listenTCP io then None else Some ListenTCP).

#[global] Instance start_action_eq_dec : EqDecision start_action.
Proof. solve_decision. Defined.

Definition recovers (a : start_action) : bool :=
  match a with DoReplayOffsets | DoReplayTopics | DoReplayMessages | DoTruncate => true | _ => false end.

Definition serves (a : start_action) : bool :=
  match a with DoServeHTTP | DoReady | DoServeTCP => true | _ => false end.

(** Nothing is served, and the readiness probe stays negative, before the
    three logs are replayed. *)
Lemma start_replays_first io cluster gateway :
  ∃ before after, (Start io cluster gateway).1 = before ++ after ∧
    Forall (λ a, serves a = false) before ∧ Forall (λ a, recovers a = false) after.
Proof.
  exists (take 5 (Start io cluster gateway).1), (drop 5 (Start io cluster gateway).1).
  split; [by rewrite take_drop|]. destruct io as [[] [] [] []], cluster, gateway; cbn; repeat constructor.
Qed.

(** The broker reports itself ready before its port is bound, and goes on doing
    so when that fails. *)
Lemma ready_without_listener cluster gateway :
  let io := mkStartIo true true true false in
  DoReady ∈ (Start io cluster gateway).1 ∧ (Start io cluster gateway).2 = Some ListenTCP.
Proof. cbn. split; [|done]. destruct cluster, gateway; cbn; set_solver. Qed.

(** ** Stop among the requests *)

(** Where [Stop] stands: not called, in the drain loop, past [stopCancel], past
    [CloseAll], past [server.Close], past [wg.Wait], and past the close of
    each log. *)
Inductive stop_stage :=
| NotStopping
| Draining
| Cancelled
| LogsClosed
| ServerClosed
| LoopsDone
| OffsetsClosed
| MessagesClosed
| Stopped.

#[global] Instance stop_stage_eq_dec : EqDecision stop_stage.
Proof. solve_decision. Defined.

(** A publish between its steps: taken up, in the message WAL, and its end. *)
Inductive req_stage :=
| Begun
| InWAL
| Stored
| Refused
| RefusedInWAL.

(** The checkpoint goroutine: waiting, about to write, returned. *)
Inductive loop_state :=
| LoopIdle
| LoopDue
| LoopGone.

Record World := mkWorld {
  wd_stop : stop_stage;
  wd_open : gset handle;
  wd_requests : gmap nat req_stage;
  wd_conns : gset nat;
  wd_ckpt : loop_state;
  (** The checkpoint wrote to a closed file. *)
  wd_broken : bool;
}.

(** A started broker with the files [New] has opened. *)
Definition world_new (open : gset handle) (conns : gset nat) : World :=
  mkWorld NotStopping open ∅ conns LoopIdle false.

Definition running (s : req_stage) : bool := match s with Begun | InWAL => true | _ => false end.

(** [inFlightRequests]. *)
Definition in_flight (w : World) : nat := size (filter (λ kv, running kv.2 = true) (wd_requests w)).

Definition set_request (w : World) (r : nat) (s : req_stage) : World :=
  mkWorld (wd_stop w) (wd_open w) (<[r := s]> (wd_requests w)) (wd_conns w) (wd_ckpt w) (wd_broken w).

Definition set_ckpt (w : World) (l : loop_state) (broken : bool) : World :=
  mkWorld (wd_stop w) (wd_open w) (wd_requests w) (wd_conns w) l (wd_broken w || broken).

Definition stop_to (w : World) (s : stop_stage) (closed : gset handle) (conns : gset nat) : World :=
  mkWorld s (wd_open w ∖ closed) (wd_requests w) conns (wd_ckpt w) (wd_broken w).

(** One step of [Stop]; [deadline] is whether the drain deadline has passed.
    [wg.Wait] returns once the checkpoint goroutine has. *)
Definition stop_turn (deadline : bool) (w : World) : World :=
  match wd_stop w with
  | NotStopping => stop_to w Draining ∅ (wd_conns w)
  | Draining => if bool_decide (in_flight w = 0%nat) || deadline then stop_to w Cancelled ∅ (wd_conns w) else w
  | Cancelled => stop_to w LogsClosed {[ HLogs ]} (wd_conns w)
  | LogsClosed => stop_to w ServerClosed ∅ ∅
  | ServerClosed => match wd_ckpt w with LoopGone => stop_to w LoopsDone ∅ (wd_conns w) | _ => w end
  | LoopsDone => stop_to w OffsetsClosed {[ HOffsetWAL ]} (wd_conns w)
  | OffsetsClosed => stop_to w MessagesClosed {[ HMsgWAL ]} (wd_conns w)
  | MessagesClosed => stop_to w Stopped {[ HTopicWAL ]} (wd_conns w)
  | Stopped => w
  end.

(** [stopCtx] is cancelled. *)
Definition cancelled (w : World) : bool :=
  match wd_stop w with NotStopping | Draining => false | _ => true end.

Inductive lc_event :=
| LcConnect (c : nat)
| LcRequest (c r : nat)
| LcWAL (r : nat)
| LcAppend (r : nat)
| LcStop (deadline : bool)
| LcCheckpointDue
| LcCheckpointWrite
| LcCheckpointExit.

Definition lc_step (w : World) (e : lc_event) : World :=
  match e with
  | LcConnect c =>
      match wd_stop w with
      | NotStopping => mkWorld (wd_stop w) (wd_open w) (wd_requests w) ({[ c ]} ∪ wd_conns w) (wd_ckpt w) (wd_broken w)
      | _ => w
      end
  | LcRequest c r =>
      if bool_decide (c ∈ wd_conns w) && bool_decide (wd_requests w !! r = None) then set_request w r Begun else w
  | LcWAL r =>
      match wd_requests w !! r with
      | Some Begun => set_request w r (if bool_decide (HMsgWAL ∈ wd_open w) then InWAL else Refused)
      | _ => w
      end
  | LcAppend r =>
      match wd_requests w !! r with
      | Some InWAL => set_request w r (if bool_decide (HLogs ∈ wd_open w) then Stored else RefusedInWAL)
      | _ => w
      end
  | LcStop deadline => stop_turn deadline w
  | LcCheckpointDue => match wd_ckpt w with LoopIdle => set_ckpt w LoopDue false | _ => w end
  | LcCheckpointWrite =>
      match wd_ckpt w with LoopDue => set_ckpt w LoopIdle (bool_decide (HOffsetWAL ∉ wd_open w)) | _ => w end
  | LcCheckpointExit =>
      match wd_ckpt w with LoopIdle => if cancelled w then set_ckpt w LoopGone false else w | _ => w end
  end.

Definition lc_run (w : World) (es : list lc_event) : World := foldl lc_step w es.

(** *** The checkpoint loop *)

(** [Stop] is past the wait for the loop. *)
Definition past_wait (s : stop_stage) : bool :=
  match s with LoopsDone | OffsetsClosed | MessagesClosed | Stopped => true | _ => false end.

Record lc_inv (w : World) : Prop := mkLcInv {
  li_wait : past_wait (wd_stop w) = true → wd_ckpt w = LoopGone;
  li_offsets : past_wait (wd_stop w) = false → HOffsetWAL ∈ wd_open w;
  li_fine : wd_broken w = false;
}.

Lemma lc_inv_new open conns : HOffsetWAL ∈ open → lc_inv (world_new open conns).
Proof. by split. Qed.

Lemma lc_step_inv w e : lc_inv w → lc_inv (lc_step w e).
Proof.
  intros [I1 I2 I3]. destruct e as [c|c r|r|r|deadline| | |]; cbn [lc_step].
  - destruct (wd_stop w) eqn:E; split; cbn; rewrite ?E in *; done.
  - destruct (_ && _); by split.
  - destruct (wd_requests w !! r) as [[]|]; by split.
  - destruct (wd_requests w !! r) as [[]|]; by split.
  - unfold stop_turn. destruct (wd_stop w) eqn:E; cbn in I1, I2.
    + split; cbn; [done|set_solver|done].
    + destruct (_ || _); split; rewrite ?E; cbn; (done || set_solver).
    + split; cbn; [done|set_solver|done].
    + split; cbn; [done|set_solver|done].
    + destruct (wd_ckpt w) eqn:Ek; split; rewrite ?E, ?Ek; cbn; (done || set_solver).
    + split; cbn; [by intros _; apply I1|done|done].
    + split; cbn; [by intros _; apply I1|done|done].
    + split; cbn; [by intros _; apply I1|done|done].
    + by split; rewrite ?E.
  - destruct (wd_ckpt w) eqn:Ek; split; cbn; rewrite ?Ek, ?I3; try done; intros Hp; specialize (I1 Hp); congruence.
  - destruct (wd_ckpt w) eqn:Ek; [by split; rewrite ?Ek| |by split; rewrite ?Ek].
    assert (past_wait (wd_stop w) = false) as Hp by (destruct (past_wait (wd_stop w)) eqn:Hp; [specialize (I1 eq_refl); congruence|done]).
    specialize (I2 Hp). split; cbn; rewrite ?Hp, ?I3; [done|done|].
    by rewrite bool_decide_eq_false_2 by (intros Hn; by apply Hn).
  - destruct (wd_ckpt w) eqn:Ek; [|by split; rewrite ?Ek..]. destruct (cancelled w); [|by split; rewrite ?Ek].
    split; cbn; rewrite ?I3; done.
Qed.

Lemma lc_run_inv w es : lc_inv w → lc_inv (lc_run w es).
Proof. revert w. induction es as [|e es IH]; intros w H; [done|]. cbn. by apply IH, lc_step_inv. Qed.

(** *** The requests *)

Definition refused (s : req_stage) : bool := match s with Refused | RefusedInWAL => true | _ => false end.

Definition before_cancel (s : stop_stage) : bool := match s with NotStopping | Draining => true | _ => false end.

(** No request has been refused; while [Stop] drains the logs are open, and
    after it nothing is in flight. *)
Record calm (w : World) : Prop := mkCalm {
  ca_refused : map_Forall (λ _ s, refused s = false) (wd_requests w);
  ca_open : before_cancel (wd_stop w) = true → HMsgWAL ∈ wd_open w ∧ HLogs ∈ wd_open w;
  ca_idle : before_cancel (wd_stop w) = false → map_Forall (λ _ s, running s = false) (wd_requests w);
}.

Lemma calm_new open conns : HMsgWAL ∈ open → HLogs ∈ open → calm (world_new open conns).
Proof. split; cbn; [apply map_Forall_empty|done|done]. Qed.

Lemma in_flight_zero w : in_flight w = 0%nat → map_Forall (λ _ s, running s = false) (wd_requests w).
Proof.
  unfold in_flight. intros Hz%map_size_empty_inv. intros r s Hr. destruct (running s) eqn:E; [|done].
  assert (filter (λ kv : nat * req_stage, running kv.2 = true) (wd_requests w) !! r = Some s) as Hf
    by (by apply map_lookup_filter_Some_2).
  by rewrite Hz, lookup_empty in Hf.
Qed.

(** What a client that keeps quiet once [Stop] runs, and a drain that is not cut
    short, rule out. *)
Definition orderly (stopping : bool) (e : lc_event) : bool :=
  match e with
  | LcRequest _ _ => negb stopping
  | LcStop deadline => negb deadline
  | _ => true
  end.

Fixpoint orderly_run (w : World) (es : list lc_event) : bool :=
  match es with
  | [] => true
  | e :: es => orderly (negb (bool_decide (wd_stop w = NotStopping))) e && orderly_run (lc_step w e) es
  end.

Lemma calm_advance w r s :
  calm w → refused s = false → before_cancel (wd_stop w) = true → calm (set_request w r s).
Proof.
  intros [C1 C2 C3] Hs Hb. split; cbn; [by apply map_Forall_insert_2|by intros _; apply C2|by rewrite Hb].
Qed.

Lemma calm_step w e :
  orderly (negb (bool_decide (wd_stop w = NotStopping))) e = true → calm w → calm (lc_step w e).
Proof.
  intros Ho Hc. pose proof Hc as [C1 C2 C3]. destruct e as [c|c r|r|r|deadline| | |]; cbn [lc_step].
  - destruct (wd_stop w) eqn:E; split; cbn; rewrite ?E in *; done.
  - destruct (_ && _); [|done]. cbn in Ho. apply negb_true_iff, negb_false_iff, bool_decide_eq_true in Ho.
    apply calm_advance; [done|done|by rewrite Ho].
  - destruct (wd_requests w !! r) as [[]|] eqn:Er; try done.
    destruct (before_cancel (wd_stop w)) eqn:Eb; [|by specialize (C3 eq_refl r _ Er)].
    rewrite bool_decide_eq_true_2 by by apply C2. by apply calm_advance.
  - destruct (wd_requests w !! r) as [[]|] eqn:Er; try done.
    destruct (before_cancel (wd_stop w)) eqn:Eb; [|by specialize (C3 eq_refl r _ Er)].
    rewrite bool_decide_eq_true_2 by by apply C2. by apply calm_advance.
  - cbn in Ho. destruct deadline; [done|]. unfold stop_turn. destruct (wd_stop w) eqn:E; cbn in C2, C3.
    + split; cbn; [done|set_solver|done].
    + rewrite orb_false_r. case_bool_decide as Hz; [|by split; rewrite ?E]. apply in_flight_zero in Hz. by split.
    + by split.
    + by split.
    + destruct (wd_ckpt w); split; rewrite ?E; done.
    + by split.
    + by split.
    + by split.
    + by split; rewrite ?E.
  - by destruct (wd_ckpt w); split.
  - by destruct (wd_ckpt w); split.
  - destruct (wd_ckpt w); try by split. by destruct (cancelled w); split.
Qed.

Lemma calm_run w es : orderly_run w es = true → calm w → calm (lc_run w es).
Proof.
  revert w. induction es as [|e es IH]; intros w Ho Hc; [done|]. cbn in *. apply andb_prop in Ho as [Ho Hs].
  apply IH; [done|]. by apply calm_step.
Qed.

(** The files closed at a stage. *)
Definition closed_by (s : stop_stage) : list handle :=
  match s with
  | NotStopping | Draining | Cancelled => []
  | LogsClosed | ServerClosed | LoopsDone => [HLogs]
  | OffsetsClosed => [HLogs; HOffsetWAL]
  | MessagesClosed => [HLogs; HOffsetWAL; HMsgWAL]
  | Stopped => [HLogs; HOffsetWAL; HMsgWAL; HTopicWAL]
  end.

Lemma stop_closes w es :
  Forall (λ h, h ∉ wd_open w) (closed_by (wd_stop w)) →
  wd_open (lc_run w es) ⊆ wd_open w ∧ Forall (λ h, h ∉ wd_open (lc_run w es)) (closed_by (wd_stop (lc_run w es))).
Proof.
  revert w. induction es as [|e es IH]; intros w Hd; [done|]. cbn.
  assert (wd_open (lc_step w e) ⊆ wd_open w ∧ Forall (λ h, h ∉ wd_open (lc_step w e)) (closed_by (wd_stop (lc_step w e)))) as [Hs Hd'].
  { destruct e; cbn [lc_step]; unfold stop_turn; repeat case_match; cbn in *; (split; [set_solver|]); try done;
      try match goal with H : wd_stop w = _ |- context [wd_stop w] => rewrite H; cbn end; try done;
      repeat match goal with H : Forall _ (_ :: _) |- _ => apply Forall_cons in H as [? H] end;
      repeat apply Forall_cons_2; try apply Forall_nil_2; cbv beta in *;
      rewrite ?not_elem_of_difference, ?elem_of_singleton; auto. }
  destruct (IH _ Hd') as [Hs2 Hd2]. split; [exact (transitivity Hs2 Hs)|exact Hd2].
Qed.

(** No step closes the audit file. *)
Lemma stop_keeps_audit w es : HAudit ∈ wd_open w → HAudit ∈ wd_open (lc_run w es).
Proof.
  revert w. induction es as [|e es IH]; intros w Ha; [done|]. cbn. apply IH.
  destruct e; cbn [lc_step]; unfold stop_turn; repeat case_match; cbn; set_solver.
Qed.

(** C21: stopping is orderly: from the files a successful [New] has opened, in
    every interleaving of [Stop] with publishes, connections and the checkpoint
    loop, the loop never writes to a closed offset log; once [Stop] has returned
    the loop is gone and every file that was open is closed but the audit file,
    which stays open if [New] opened it; and if clients send nothing new once it
    has begun and the drain is not cut short by its deadline, no publish is
    refused. *)
Theorem stop_is_orderly io cfg open conns es :
  New io cfg = (open, Ok tt) →
  let w := lc_run (world_new open conns) es in
  wd_broken w = false ∧
  (wd_stop w = Stopped → wd_open w = audit_file io cfg ∧ wd_ckpt w = LoopGone) ∧
  (orderly_run (world_new open conns) es = true → map_Forall (λ _ s, refused s = false) (wd_requests w)).
Proof.
  intros Hn%new_opens. assert (HOffsetWAL ∈ open ∧ HMsgWAL ∈ open ∧ HLogs ∈ open) as (Ho1 & Ho2 & Ho3) by set_solver.
  cbv zeta. pose proof (lc_run_inv _ es (lc_inv_new open conns Ho1)) as [I1 I2 I3].
  split; [done|]. split.
  - intros Hs. rewrite Hs in I1. split; [|by apply I1].
    destruct (stop_closes (world_new open conns) es) as [Hsub Hd]; [constructor|]. rewrite Hs in Hd. cbn in Hsub, Hd.
    repeat (apply Forall_cons in Hd as [? Hd]). apply set_eq. intros h. split.
    + intros Hh. apply Hsub in Hh as Hin. rewrite Hn, !elem_of_union, !elem_of_singleton in Hin. naive_solver.
    + intros Hh. assert (h = HAudit) as -> by (revert Hh; unfold audit_file; case_match; set_solver).
      apply stop_keeps_audit. cbn. set_solver.
  - intros Ho. by apply (calm_run _ _ Ho), calm_new.
Qed.

(** One run publishes and stops in order while the checkpoint is due; the
    settings name an audit file. *)
Definition demo_new_io : new_io := mkNewIo true true true true true.

Definition demo_audit_config : Config :=
  let c := defaultConfig in
  mkConfig (cf_Broker c) (cf_Network c) (cf_Replication c) (cf_Storage c) (cf_Retention c) (cf_Auth c) (cf_RateLimit c)
    (cf_Logging c) (cf_Cluster c) (cf_Compaction c) (cf_Gateway c) (cf_FlowControlPauseMs c) (cf_DrainTimeoutMs c)
    "audit.log".

Lemma stop_is_orderly_witness :
  let es := [LcRequest 1 1; LcWAL 1; LcStop false; LcStop false; LcAppend 1; LcCheckpointDue; LcStop false; LcStop false;
             LcStop false; LcStop false; LcCheckpointWrite; LcCheckpointExit; LcStop false; LcStop false; LcStop false;
             LcStop false] in
  let w := world_new (New demo_new_io demo_audit_config).1 {[ 1%nat ]} in
  orderly_run w es = true ∧ wd_stop (lc_run w es) = Stopped ∧ wd_open (lc_run w es) = {[ HAudit ]}.
Proof.
  cbv zeta. match goal with |- orderly_run _ ?l = true ∧ _ =>
    destruct (stop_is_orderly demo_new_io demo_audit_config (New demo_new_io demo_audit_config).1 {[ 1%nat ]} l)
      as (_ & Hc & _); [by vm_compute|] end.
  split; [by vm_compute|]. split; [by vm_compute|]. apply Hc. by vm_compute.
Defined.

(** The drain refuses new connections only: a request on an open connection
    after the loop saw none in flight is put in the log of messages and then
    refused, its partition being closed.  The next start finds it there. *)
Lemma drained_request_half_done :
  let es := [LcStop false; LcStop false; LcRequest 1 1; LcWAL 1; LcStop false; LcAppend 1] in
  let w := lc_run (world_new (New demo_new_io defaultConfig).1 {[ 1%nat ]}) es in
  wd_requests w !! 1%nat = Some RefusedInWAL ∧ HMsgWAL ∈ wd_open w.
Proof. cbv zeta. split; by vm_compute. Qed.

(** ** The command *)

(** [strings.Split] at slashes. *)
Fixpoint split_slash (acc s : bytes) : list bytes :=
  match s with
  | [] => [acc]
  | b :: s => if bool_decide (b = slash) then acc :: split_slash [] s else split_slash (acc ++ [b]) s
  end.

Definition dot : bytes := [Byte.x2e].
Definition dotdot : bytes := [Byte.x2e; Byte.x2e].

(** One element of a path; [out] is the result so far, last element first. *)
Definition clean_element (rooted : bool) (out : list bytes) (e : bytes) : list bytes :=
  if bool_decide (e = []) || bool_decide (e = dot) then out
  else if bool_decide (e = dotdot) then
    match out with
    | [] => if rooted then [] else [dotdot]
    | p :: out' => if bool_decide (p = dotdot) then dotdot :: out else out'
    end
  else e :: out.

(** [filepath.Clean] where the separator is a slash. *)
Definition Clean (path : bytes) : bytes :=
  let rooted := match path with b :: _ => bool_decide (b = slash) | [] => false end in
  let out := join [slash] (reverse (foldl (clean_element rooted) [] (split_slash [] path))) in
  if rooted then slash :: out else match out with [] => dot | _ => out end.

(** [filepath.Join] of two elements that are not empty. *)
Definition path_Join (dir name : string) : string :=
  string_of_bytes (Clean (bytes_of_string dir ++ slash :: bytes_of_string name)).

Inductive main_err :=
| LoadFailed (e : load_err)
| TempFailed
| EncodeFailed
| ReloadFailed (e : load_err).

(** The environment and the temporary file: its name, its time, and whether
    it could be created and written. *)
Record main_env := mkMainEnv {
  me_dataDir : string;
  me_podName : string;
  me_tmpPath : string;
  me_tmpTime : Z;
  me_created : bool;
  me_encoded : bool;
}.

Definition with_data_dir (dir : string) (c : Config) : Config :=
  let so := cf_Storage c in
  mkConfig (cf_Broker c) (cf_Network c) (cf_Replication c)
    (mkStorageConfig (path_Join dir "wal") (path_Join dir "segments") (so_SegmentMaxBytes so) (so_IndexIntervalBytes so)
       (so_SyncPolicy so) (so_WalBackpressureThreshold so))
    (cf_Retention c) (cf_Auth c) (cf_RateLimit c) (cf_Logging c) (cf_Cluster c) (cf_Compaction c) (cf_Gateway c)
    (cf_FlowControlPauseMs c) (cf_DrainTimeoutMs c) (cf_AuditLogFile c).

Definition with_pod_name (pod : string) (c : Config) : Config :=
  let cl := cf_Cluster c in
  let cl :=
    if bool_decide (clc_NodeID cl = EmptyString) then
      mkClusterConfig (clc_Enabled cl) pod (clc_BindAddr cl) (clc_Seeds cl) (clc_HeartbeatInterval cl)
        (clc_ElectionTimeoutMin cl) (clc_ElectionTimeoutMax cl) (clc_QuorumTimeoutMs cl) (clc_ConsensusAlgorithm cl)
        (clc_RaftDataDir cl) (clc_MTLSCertFile cl) (clc_MTLSKeyFile cl) (clc_MTLSCAFile cl)
    else cl in
  let id := bcf_NodeID (cf_Broker c) in
  let br := if bool_decide (id ∈ [EmptyString; "node-1"%string]) then mkBrokerConfig pod else cf_Broker c in
  mkConfig br (cf_Network c) (cf_Replication c) (cf_Storage c) (cf_Retention c) (cf_Auth c) (cf_RateLimit c)
    (cf_Logging c) cl (cf_Compaction c) (cf_Gateway c) (cf_FlowControlPauseMs c) (cf_DrainTimeoutMs c)
    (cf_AuditLogFile c).

(** [json.Encoder.Encode]. *)
Definition encode_line (j : json) : bytes := print j ++ [Byte.x0a].

(** The settings with the data directory, written to the temporary file and
    loaded from it. *)
Definition override_data_dir (env : main_env) (loader : Loader) : result Loader main_err :=
  if negb (me_created env) then Error TempFailed
  else if negb (me_encoded env) then Error EncodeFailed
  else
    match
      Load (me_tmpPath env) (Some (me_tmpTime env))
        (Some (encode_line (JObj (Config_fields (with_data_dir (me_dataDir env) (ld_current loader))))))
    with
    | Error e => Error (ReloadFailed e)
    | Ok loader => Ok loader
    end.

(** The loader [main] hands to [New]. *)
Definition main_load (env : main_env) (path : string) (stat : option Z) (data : option bytes) : result Loader main_err :=
  match Load path stat data with
  | Error e => Error (LoadFailed e)
  | Ok loader =>
      match if bool_decide (me_dataDir env = EmptyString) then Ok loader else override_data_dir env loader with
      | Error e => Error e
      | Ok loader =>
          if bool_decide (me_podName env = EmptyString) then Ok loader
          else Ok (Loader_Set loader (with_pod_name (me_podName env) (ld_current loader)))
      end
  end.

Example path_join_examples :
  path_Join "/data/" "wal" = "/data/wal"%string ∧ path_Join "./a/../b/." "wal" = "b/wal"%string ∧
  path_Join ".." "wal" = "../wal"%string ∧ path_Join "/.." "wal" = "/wal"%string.
Proof. by vm_compute. Qed.

Lemma parse_line j : json_valid j = true → parse (encode_line j) = Some j.
Proof.
  intros Hv. unfold parse, encode_line. rewrite (parse_value_print j Hv _ [Byte.x0a]); [done| |done].
  pose proof (cost_length j). rewrite length_app. cbn. lia.
Qed.

Lemma Clean_nonempty path : Clean path ≠ [].
Proof. unfold Clean. destruct path as [|b p]; [done|]. case_bool_decide; [done|]. by destruct (join _ _). Qed.

Lemma path_Join_nonempty dir name : path_Join dir name ≠ EmptyString.
Proof.
  unfold path_Join. intros H. apply (f_equal bytes_of_string) in H. rewrite bytes_of_string_of_bytes in H. by apply Clean_nonempty in H.
Qed.

Lemma with_data_dir_valid dir c : validate c = None → validate (with_data_dir dir c) = None.
Proof.
  unfold validate. cbn -[path_Join].
  rewrite (bool_decide_eq_false_2 (path_Join dir "wal" = EmptyString)) by apply path_Join_nonempty.
  rewrite (bool_decide_eq_false_2 (path_Join dir "segments" = EmptyString)) by apply path_Join_nonempty.
  intros H. repeat case_match; done.
Qed.

(** With a data directory in the environment the broker runs on the settings of
    the file with the two paths replaced, through a copy of them in a
    temporary file. *)
Lemma data_dir_override_exact env path stat data loader :
  Load path stat data = Ok loader → validate (ld_current loader) = None →
  me_dataDir env ≠ EmptyString → me_podName env = EmptyString → me_created env = true → me_encoded env = true →
  Config_wf (with_data_dir (me_dataDir env) (ld_current loader)) →
  main_load env path stat data =
    Ok (mkLoader (me_tmpPath env) (with_data_dir (me_dataDir env) (ld_current loader)) (me_tmpTime env)).
Proof.
  intros Hl Hv Hd Hp Hc He Hw. unfold main_load. rewrite Hl, bool_decide_eq_false_2 by done.
  unfold override_data_dir. rewrite Hc, He. cbn [negb].
  unfold Load, readFile, unmarshal_with. rewrite parse_line by by apply Config_valid.
  rewrite Config_of_fields by done. rewrite with_data_dir_valid by done. by rewrite bool_decide_eq_true_2.
Qed.

Lemma Load_path path stat data loader : Load path stat data = Ok loader → ld_path loader = path.
Proof. unfold Load. destruct (readFile stat data) as [[c t]|]; [|done]. by intros [= <-]. Qed.

Lemma override_path env loader loader' : override_data_dir env loader = Ok loader' → ld_path loader' = me_tmpPath env.
Proof.
  unfold override_data_dir. destruct (me_created env); [|done]. destruct (me_encoded env); [|done]. cbn [negb].
  destruct (Load _ _ _) as [l|] eqn:E; [|done]. intros [= <-]. by eapply Load_path.
Qed.

(** What is patched at run time is then saved there, and gone with the process:
    the file that the next start reads is never written. *)
Lemma data_dir_patches_lost env path stat data loader :
  me_dataDir env ≠ EmptyString → main_load env path stat data = Ok loader → ld_path loader = me_tmpPath env.
Proof.
  intros Hd. unfold main_load. destruct (Load path stat data) as [l|]; [|done].
  rewrite bool_decide_eq_false_2 by done. destruct (override_data_dir env l) as [l2|] eqn:E; [|done].
  apply override_path in E. case_bool_decide; intros Hr; injection Hr as <-; exact E.
Qed.
